(* ===== verification/_CoqProject ===== *)
-Q . S2P
Prelude.v
Protocol.v
ProtocolWire.v
ProtocolRoundtrip.v
ProtocolCanonical.v
ProtocolSpec.v
Text.v
IoPolicy.v
IoTransaction.v
IoTransactionInv.v
IoTransactionSteps.v
IoTransactionSpec.v
OperationOwner.v
OperationOwnerInv.v
OperationOwnerSpec.v
MemoryManager.v
MemoryConfig.v
Observability.v
ObservabilityText.v
ObservabilitySpec.v
MemoryManagerInv.v
MemoryManagerConn.v
MemoryManagerSelect.v
MemoryManagerAssign.v
MemoryManagerOps.v
MemoryManagerSpec.v
RemoteChunkData.v
RemoteChunk.v
RemoteChunkValidity.v
RemoteChunkInv.v
RemoteChunkPlacement.v
RemoteChunkFinish.v
RemoteChunkEvict.v
RemoteChunkFail.v
RemoteChunkLease.v
RemoteChunkReach.v
RemoteChunkCreate.v
RemoteChunkSnapshot.v
RemoteChunkExample.v
RemoteChunkSpec.v
Auth.v
AuthFile.v
AuthInv.v
AuthSteps.v
MemoryConfigSpec.v
AuthExample.v
AuthSpec.v
ProviderSession.v
ProviderSessionAnswer.v
ProviderSessionRun.v
ProviderSessionSpec.v
Liveness.v
ProviderConnection.v
ProviderDaemon.v
ProviderLifecycle.v
ProviderMain.v
ProviderFrames.v
ProviderExchange.v
ProviderLogic.v
ProviderMemory.v
ProviderRequests.v
ProviderGrant.v
ProviderAuthority.v
ProviderThreads.v
ProviderReach.v
ProviderQueue.v
ProviderExample.v
ProviderSpec.v
ProviderLifeSpec.v
ProviderSnapshot.v
