(* ===== verification/Prelude.v ===== *)
(** * Infiniswap: a verification of its C sources

    Infiniswap swaps to the memory of other machines over RDMA.  A _consumer_
    (the block driver src/infiniswap_bd) maps gigabyte chunks of its device at
    _providers_ (the daemon src/infiniswap_daemon); the two speak the control
    protocol of src/common.  This development translates the parts of that
    code that decide what happens into Rocq functions and proves what they
    guarantee.

    ** How the code is modelled

    An unsigned C integer is a [Z] whose wrap-around is written out ([u8],
    [u16], [u32], [u64] below); a buffer or character array is a [list Z] of
    its declared length; a structure is a record with the functional update
    [r <| field := v |>]; an error code is a value of the enumeration, or a
    negated [errno].  A routine that runs under its component's lock is a
    function of the state.  Where threads interleave inside a routine (the
    transaction engine and the operation owner) a thread is a list of
    instructions and every interleaving is a run of a step relation.  The
    daemon's routines are handlers, functions from the daemon's state to its
    next state, or to the outcomes of ending the program, waiting for ever
    or following a pointer to a freed connection; at every point where such a
    routine gives up its locks it applies the argument [meanwhile], which
    stands for what the other threads do there, and the theorems quantify over
    it.  What the sources only call (allocation, clocks, random numbers, RDMA
    verbs, sockets, OpenSSL) is an argument, or a class with the laws the code
    relies on, of which the file of examples gives an instance.

    Loops are structural recursions or the combinators [for_loop], [for_err],
    [exists_below] and [find_below] of this file, which run a body for a known
    number of turns.  The endless loops of the daemon are bounded by what
    they consume: the list of events, of completions, of accepted clients.
    Fuel occurs in three places.  [await_handshake] and [watch_liveness] take
    the number of times the deadline thread wakes up; the theorem about the
    thread holds for every number from one up.  [print_digits] takes 20, the
    digits of a 64-bit number.  The JSON reader of the round trip is given the
    size of the value it reads.

    ** Files

    - Prelude: widths, records, byte buffers, loops, counting; shared lemmas,
      the tactics [pow_lia] and [div_mod_lia].
    - Protocol (infiniswap_protocol.c, .h): the codec and the negotiation of
      versions and capabilities.  ProtocolWire, ProtocolRoundtrip,
      ProtocolCanonical: frames as byte lists.  ProtocolSpec: round trip,
      canonicity, negotiation.
    - IoPolicy (is_io_policy.h): when a request that goes to the backing
      device and to remote memory may complete, with its confluence.
    - IoTransaction, -Inv, -Steps, -Spec (is_remote_io_transaction.c, .h): the
      engine around the policy, under all interleavings of its callbacks.
    - OperationOwner, -Inv, -Spec (is_rdma_operation_owner.c, .h): who owns a
      posted RDMA operation, under all interleavings of post, completion and
      deadline.
    - MemoryManager, -Inv, -Conn, -Select, -Assign, -Ops, -Spec
      (infiniswap_memory_manager.c, .h): the provider's accounting of chunks,
      connections, limits and reserve.  MemoryConfig, -Spec: its
      configuration file and the reading of the host's free memory.
    - RemoteChunkData, RemoteChunk and RemoteChunk* (is_remote_chunk.c, .h):
      the consumer's table of chunks: providers, placement, mapping claims,
      evictions, I/O leases, snapshots and the bitmap of valid sectors.
    - Text: reading the daemon's configuration files, printing numbers.
    - Auth, AuthFile, AuthInv, AuthSteps, AuthExample, AuthSpec
      (infiniswap_auth.c, .h): credentials, authorizations, their revocation,
      tag verification, and the credential file.
    - ProviderSession, -Answer, -Run, -Spec (infiniswap_provider_session.c,
      .h): the handshake and the requests of one consumer, composed with the
      codec and the registry.
    - Liveness (infiniswap_consumer_liveness.c, .h): the deadline of a
      consumer.
    - The daemon (rdma-common.c, .h and infiniswap-daemon.c), which composes
      the codec, the session, the registry, the liveness and the memory
      manager.  ProviderConnection: one connection, its send queue and its
      frames.  ProviderDaemon: completions and requests.  ProviderLifecycle:
      setting connections up and taking them down, the deadline and eviction
      threads, the snapshot.  ProviderMain: start, events, reload, shutdown.
      ProviderFrames, -Exchange, -Queue: what frames say.  ProviderLogic,
      -Memory, -Requests, -Grant, -Authority, -Threads, -Reach: a logic for
      handlers and the invariant of every run.  ProviderExample: a machine and
      a run.  ProviderSpec, ProviderLifeSpec, ProviderSnapshot: theorems.
    - Observability (infiniswap_observability.c, .h and
      infiniswap_observability_server.c, .h): rendering a snapshot as JSON and
      as metrics, and the HTTP server.  ObservabilityText, -Spec: what is
      rendered and what a request is answered.

    A component's first file holds its data and operations, named as in the
    source; the next ones its invariant and the lemmas per operation; the file
    ending in Spec its theorems, each with an instance at a concrete input
    where it has hypotheses.

    ** What the theorems show

    - Protocol: encoding then decoding gives the message back; an accepted
      frame is the only encoding of its message; both sides negotiate the
      same.
    - Requests: in every interleaving a request completes once, with the
      status its policy dictates, and a transaction or an owner is released
      once, after which nobody touches it; runs end within a stated number of
      steps.
    - Provider memory: the counters are exact, an acquisition grants
      everything or nothing and keeps the host reserve, releasing,
      disconnecting, reconciling and destroying account for every chunk.  A
      configuration file loads to what it was written from.
    - Consumer chunks: a read of remote memory returns the last acknowledged
      write; evictions finish safely and can finish; a mapping claim is used
      once; the bitmap of words implements a set of sectors.
    - Authentication: a withdrawn authorization is never regained, callbacks
      are exact, a tag is accepted exactly when it should be; a session is
      ready only when verified, delivers only checked requests, each once,
      and none after its authorization is withdrawn.
    - Daemon: in every run the connections' own maps agree with the memory
      manager; a completion on an open connection neither ends the daemon nor
      follows a dangling pointer; memory changes hands only with authority;
      a grant names the memory granted; a silent consumer loses its memory;
      from start to exit the host gets back what was taken.  Two theorems
      exhibit defects: a RELEASE frame that names the wrong chunks and a
      failed deregistration that ends the daemon later.
    - Reports: rendering stays within its buffer, the status is JSON from
      which the snapshot is recovered, and at every moment of every run a
      request is answered with the state of the daemon.

    ** Not modelled

    Three files of the driver.  is_rdma.c keeps the consumer's control
    sessions with its providers and posts transfers; is_mq.c holds the
    device's settings, its activation and draining, and dispatches block
    requests; is_configfs.c exposes the settings.  They decide when the
    modelled codec, chunk table, transaction engine and operation owner are
    called, from work queues, connection events and block-layer callbacks of
    the kernel; the theorems about those components hold for every order of
    calls, and say nothing about these files themselves.  is_main.c registers
    the module.  The Python tool infiniswapctl, the shell scripts, the
    packaging and the tests are outside.  Locks are taken to work: a critical
    section is one step. *)
From stdpp Require Export base tactics list gmap.
From stdpp Require Export numbers.
From Stdlib Require Export ZArith Lia Bool.

Global Open Scope Z_scope.

(** ** Machine integers

    A C unsigned integer of width [n] is a [Z]; each operation that may leave
    the range of its type is wrapped where the source computes it. *)

Definition wrap (n x : Z) : Z := x mod 2 ^ n.
Arguments wrap : simpl never.

Abbreviation u8 := (wrap 8).
Abbreviation u16 := (wrap 16).
Abbreviation u32 := (wrap 32).
Abbreviation u64 := (wrap 64).

Definition in_u (n x : Z) : Prop := 0 <= x < 2 ^ n.

Abbreviation is_u8 := (in_u 8).
Abbreviation is_u16 := (in_u 16).
Abbreviation is_u32 := (in_u 32).
Abbreviation is_u64 := (in_u 64).

Definition UINT32_MAX : Z := 2 ^ 32 - 1.
Definition UINT64_MAX : Z := 2 ^ 64 - 1.

Lemma wrap_in_u n x : 0 <= n -> in_u n (wrap n x).
Proof. intros Hn. apply Z.mod_pos_bound. apply Z.pow_pos_nonneg; lia. Qed.

Lemma wrap_small n x : in_u n x -> wrap n x = x.
Proof. apply Z.mod_small. Qed.

(** [pow2_norm] evaluates the powers of two of a goal, [div_mod_lia] also
    turns shifts, quotients and remainders into linear constraints. *)
Ltac pow2_norm :=
  repeat match goal with
  | |- context [2 ^ ?k] => let v := eval vm_compute in (2 ^ k) in change (2 ^ k) with v
  | H : context [2 ^ ?k] |- _ => let v := eval vm_compute in (2 ^ k) in change (2 ^ k) with v in H
  end.
Ltac pow_lia := pow2_norm; lia.
Ltac unfold_widths := unfold in_u, wrap in *.
Ltac div_mod_lia :=
  rewrite ?Z.shiftr_div_pow2 in * by lia; pow2_norm; Z.div_mod_to_equations; lia.

(** ** Error numbers (errno.h), returned negated *)

Definition EPERM : Z := 1.
Definition ENOENT : Z := 2.
Definition EIO : Z := 5.
Definition ENXIO : Z := 6.
Definition EAGAIN : Z := 11.
Definition ENOMEM : Z := 12.
Definition EBUSY : Z := 16.
Definition EEXIST : Z := 17.
Definition ENODEV : Z := 19.
Definition EINVAL : Z := 22.
Definition ENOSPC : Z := 28.
Definition ERANGE : Z := 34.
Definition ENODATA : Z := 61.
Definition EOVERFLOW : Z := 75.
Definition EOPNOTSUPP : Z := 95.
Definition ESHUTDOWN : Z := 108.
Definition ETIMEDOUT : Z := 110.
Definition EALREADY : Z := 114.
Definition ESTALE : Z := 116.

(** ** Record update

    [r <| field := v |>] is the C assignment [r.field = v].  A record type
    registers the expansion of its values once, as an [Eta] instance; the
    update of a field is computed from it by [derive_setter]. *)

Class Eta (R : Type) := eta : R -> R.
Class Setter {R A : Type} (field : R -> A) := update : (A -> A) -> R -> R.
Arguments update {R A} field {_} f r : simpl nomatch.

Ltac derive_setter :=
  match goal with
  | |- @Setter ?R ?A ?field =>
      let inst := constr:(_ : Eta R) in
      let inst := eval hnf in inst in
      let abstracted := eval pattern field in inst in
      match abstracted with
      | ?body _ =>
          let t := constr:(fun (f : A -> A) => body (fun r => f (field r))) in
          let t := eval cbv beta in t in
          exact t
      end
  end.

#[export] Hint Extern 1 (Setter _) => derive_setter : typeclass_instances.

Declare Scope record_scope.
Delimit Scope record_scope with record.
Global Open Scope record_scope.
Notation "r <| field := v |>" := (update field (fun _ => v) r)
  (at level 1, left associativity, field at level 8, v at level 200,
   format "r  <| field  :=  v |>") : record_scope.
Notation "r <| field ::= f |>" := (update field f r)
  (at level 1, left associativity, field at level 8, f at level 200,
   format "r  <| field  ::=  f |>") : record_scope.


(** ** Counting *)

Definition b2n (b : bool) : nat := if b then 1%nat else 0%nat.

Lemma b2n_le b : (b2n b <= 1)%nat.
Proof. destruct b; cbn; lia. Qed.

(** The number of elements that satisfy a test, and how an update of one
    element changes it. *)
Definition count {A} (f : A -> bool) (cs : list A) : nat :=
  sum_list_with (fun c => b2n (f c)) cs.

Lemma count_insert {A} (f : A -> bool) k x y cs :
  cs !! k = Some x -> (count f (<[k := y]> cs) + b2n (f x) = count f cs + b2n (f y))%nat.
Proof.
  intros H. unfold count. rewrite insert_take_drop by (by eapply lookup_lt_Some).
  rewrite <- (take_drop_middle cs k x H) at 3. rewrite !sum_list_with_app. cbn -[b2n]. lia.
Qed.

Lemma count_lookup {A} (f : A -> bool) k x cs : cs !! k = Some x -> (b2n (f x) <= count f cs)%nat.
Proof.
  unfold count. revert k. induction cs as [|c cs IH]; intros [|k]; cbn -[b2n]; try done.
  - intros [= ->]. lia.
  - intros H. specialize (IH k H). lia.
Qed.

Lemma count_le_length {A} (f : A -> bool) cs : (count f cs <= length cs)%nat.
Proof.
  unfold count. induction cs as [|c cs IH]; cbn -[b2n]; [done|]. pose proof (b2n_le (f c)). lia.
Qed.

Lemma count_mono {A} (f g : A -> bool) cs :
  (forall c, c ∈ cs -> f c = true -> g c = true) -> (count f cs <= count g cs)%nat.
Proof.
  unfold count. induction cs as [|c cs IH]; cbn -[b2n]; [done|]. intros H.
  assert (b2n (f c) <= b2n (g c))%nat.
  { specialize (H c (list_elem_of_here _ _)). destruct (f c); [|cbn; lia]. by rewrite H. }
  specialize (IH (fun x Hx => H x (list_elem_of_further _ _ _ Hx))). lia.
Qed.

Lemma count_zero {A} (f : A -> bool) cs : (forall c, c ∈ cs -> f c = false) -> count f cs = 0%nat.
Proof.
  unfold count. induction cs as [|c cs IH]; cbn -[b2n]; [done|]. intros H.
  rewrite (H c (list_elem_of_here _ _)), IH; [done|]. intros x Hx. apply H.
  by apply list_elem_of_further.
Qed.

Lemma count_app {A} (f : A -> bool) l k : count f (l ++ k) = (count f l + count f k)%nat.
Proof. apply sum_list_with_app. Qed.

Lemma count_take_S {A} (f : A -> bool) l i x :
  l !! i = Some x -> count f (take (S i) l) = (count f (take i l) + b2n (f x))%nat.
Proof. intros H. rewrite (take_S_r _ _ x) by done. rewrite count_app. cbn. lia. Qed.

Lemma count_ext {A} (f g : A -> bool) l :
  (forall x, x ∈ l -> f x = g x) -> count f l = count g l.
Proof.
  intros H. apply Nat.le_antisymm; apply count_mono; intros c Hc E.
  - by rewrite <- H.
  - by rewrite H.
Qed.

Lemma count_split {A} (f g h : A -> bool) l :
  (forall x, x ∈ l -> b2n (f x) = (b2n (g x) + b2n (h x))%nat) ->
  count f l = (count g l + count h l)%nat.
Proof.
  unfold count. induction l as [|c l IH]; cbn -[b2n]; [done|]. intros H.
  rewrite (H c (list_elem_of_here _ _)), IH; [lia|].
  intros x Hx. apply H. by apply list_elem_of_further.
Qed.

(** ** Bytes and buffers

    A buffer is a list of bytes.  Reading outside of it gives 0; every
    theorem about a reader states the length it needs. *)

Definition byte_at (buf : list Z) (i : Z) : Z := nth (Z.to_nat i) buf 0.

(** Arrays of wider integers are lists as well. *)
Abbreviation word_at := byte_at.

Definition buf_write (buf : list Z) (off : Z) (bytes : list Z) : list Z :=
  list_inserts (Z.to_nat off) bytes buf.

(** [memcpy(dst, src + off, n)] as the bytes it reads. *)
Definition buf_read (buf : list Z) (off n : Z) : list Z :=
  take (Z.to_nat n) (drop (Z.to_nat off) buf).

Definition zeros (n : nat) : list Z := replicate n 0.

Definition is_bytes (l : list Z) : Prop := Forall is_u8 l.

(** [c_string buf] is the string [strcmp] and [strcpy] see in an array. *)
Fixpoint c_string (buf : list Z) : list Z :=
  match buf with
  | [] => []
  | c :: buf' => if c =? 0 then [] else c :: c_string buf'
  end.

Lemma length_buf_write buf off bytes : length (buf_write buf off bytes) = length buf.
Proof. apply length_inserts. Qed.

(** Consecutive writes are one write of the concatenation. *)
Lemma buf_write_app buf off off' bs1 bs2 :
  0 <= off -> off' = off + Z.of_nat (length bs1) ->
  buf_write (buf_write buf off bs1) off' bs2 = buf_write buf off (bs1 ++ bs2).
Proof.
  intros Hoff ->. unfold buf_write.
  replace (Z.to_nat (off + Z.of_nat (length bs1)))
    with (length bs1 + Z.to_nat off)%nat by lia.
  revert off Hoff. induction bs1 as [|b bs1 IH]; intros off Hoff; [done|].
  cbn. specialize (IH (off + 1) ltac:(lia)).
  replace (Z.to_nat (off + 1)) with (S (Z.to_nat off)) in IH by lia.
  replace (S (length bs1 + Z.to_nat off)) with (length bs1 + S (Z.to_nat off))%nat by lia.
  rewrite <- IH. rewrite <- list_insert_inserts_lt by lia. done.
Qed.

Lemma buf_write_nil buf off : buf_write buf off [] = buf.
Proof. done. Qed.

(** A write at the start of a large enough buffer. *)
Lemma buf_write_0 buf bs :
  (length bs <= length buf)%nat -> buf_write buf 0 bs = bs ++ drop (length bs) buf.
Proof.
  intros Hlen. unfold buf_write. change (Z.to_nat 0) with 0%nat.
  rewrite <- (take_drop (length bs) buf) at 1.
  rewrite list_inserts_0_r; [done|]. rewrite length_take. lia.
Qed.

Lemma byte_at_app_r pre l off :
  Z.of_nat (length pre) <= off -> byte_at (pre ++ l) off = byte_at l (off - Z.of_nat (length pre)).
Proof.
  intros H. unfold byte_at. rewrite app_nth2 by lia. f_equal. lia.
Qed.

Lemma byte_at_app_l l post off :
  0 <= off < Z.of_nat (length l) -> byte_at (l ++ post) off = byte_at l off.
Proof. intros H. unfold byte_at. rewrite app_nth1 by lia. done. Qed.

Lemma byte_at_range l off : is_bytes l -> is_u8 (byte_at l off).
Proof.
  intros Hl. unfold byte_at. destruct (decide (Z.to_nat off < length l)%nat).
  - unfold is_bytes in Hl. rewrite Forall_forall in Hl. apply Hl.
    by apply nth_In.
  - rewrite nth_overflow by lia. unfold in_u. lia.
Qed.

Lemma byte_at_drop l n off :
  0 <= off -> byte_at (drop n l) off = byte_at l (Z.of_nat n + off).
Proof.
  intros H. unfold byte_at. rewrite nth_skipn. f_equal. lia.
Qed.

Lemma byte_at_buf_read l off n i :
  0 <= off -> 0 <= i < n -> byte_at (buf_read l off n) i = byte_at l (off + i).
Proof.
  intros Hoff Hi. unfold buf_read, byte_at.
  rewrite nth_firstn, nth_skipn.
  replace (Z.to_nat i <? Z.to_nat n)%nat with true by (symmetry; apply Nat.ltb_lt; lia).
  f_equal. lia.
Qed.

Lemma length_buf_read l off n :
  0 <= off -> 0 <= n -> off + n <= Z.of_nat (length l) ->
  length (buf_read l off n) = Z.to_nat n.
Proof. intros. unfold buf_read. rewrite length_take, length_drop. lia. Qed.

(** Adjacent reads are one read. *)
Lemma buf_read_app l off off' n m :
  0 <= off -> 0 <= n -> 0 <= m -> off' = off + n ->
  buf_read l off n ++ buf_read l off' m = buf_read l off (n + m).
Proof.
  intros Hoff Hn Hm ->. unfold buf_read.
  rewrite Z2Nat.inj_add by lia. rewrite (Z2Nat.inj_add n m) by lia.
  rewrite <- drop_drop. apply take_take_drop.
Qed.

(** ** Loops

    [for_loop n i body s] is [for (; n > 0; n--, i++) s = body(i, s)];
    [for_err] is the same loop with a body that may leave the function with
    an error, and [existsb_below n p] the search loop
    [for (i = 0; i < n; i++) if (p(i)) ...]. *)

Fixpoint for_loop {S : Type} (n : nat) (i : Z) (body : Z -> S -> S) (s : S) : S :=
  match n with
  | O => s
  | Datatypes.S n' => for_loop n' (i + 1) body (body i s)
  end.

Fixpoint for_err {E S : Type} (n : nat) (i : Z) (body : Z -> S -> E + S) (s : S) : E + S :=
  match n with
  | O => inr s
  | Datatypes.S n' =>
      match body i s with
      | inl e => inl e
      | inr s' => for_err n' (i + 1) body s'
      end
  end.

Fixpoint exists_from (n : nat) (i : Z) (p : Z -> bool) : bool :=
  match n with
  | O => false
  | S n' => if p i then true else exists_from n' (i + 1) p
  end.

Definition exists_below (n : Z) (p : Z -> bool) : bool := exists_from (Z.to_nat n) 0 p.

Fixpoint find_from (n : nat) (i : Z) (p : Z -> bool) : option Z :=
  match n with
  | O => None
  | S n' => if p i then Some i else find_from n' (i + 1) p
  end.

(** The first index the loop [for (i = 0; i < n; i++) if (p(i)) break;] stops at. *)
Definition find_below (n : Z) (p : Z -> bool) : option Z := find_from (Z.to_nat n) 0 p.

(** An invariant of the loop's index and state holds when it ends. *)
Lemma for_loop_ind {S} (P : Z -> S -> Prop) n i body s :
  P i s -> (forall j s, i <= j < i + Z.of_nat n -> P j s -> P (j + 1) (body j s)) ->
  P (i + Z.of_nat n) (for_loop n i body s).
Proof.
  revert i s. induction n as [|n IH]; intros i s H0 HS; cbn [for_loop].
  - by rewrite Z.add_0_r.
  - replace (i + Z.of_nat (Datatypes.S n)) with (i + 1 + Z.of_nat n) by lia. apply IH.
    + apply HS; [lia|done].
    + intros j s' Hj. apply HS. lia.
Qed.

Lemma for_err_ind {E S} (P : Z -> S -> Prop) n i (body : Z -> S -> E + S) s s' :
  P i s ->
  (forall j s s', i <= j < i + Z.of_nat n -> P j s -> body j s = inr s' -> P (j + 1) s') ->
  for_err n i body s = inr s' -> P (i + Z.of_nat n) s'.
Proof.
  revert i s. induction n as [|n IH]; intros i s H0 HS; cbn [for_err].
  - intros [= <-]. by rewrite Z.add_0_r.
  - destruct (body i s) as [e|s1] eqn:E1; [done|]. intros H.
    replace (i + Z.of_nat (Datatypes.S n)) with (i + 1 + Z.of_nat n) by lia.
    apply (IH (i + 1) s1); [|intros j ? ? Hj; apply HS; lia|done].
    apply (HS i s); [lia|done|done].
Qed.

Lemma for_loop_ext {S} n i (f g : Z -> S -> S) s :
  (forall j s, i <= j < i + Z.of_nat n -> f j s = g j s) -> for_loop n i f s = for_loop n i g s.
Proof.
  revert i s. induction n as [|n IH]; intros i s H; cbn [for_loop]; [done|].
  rewrite H by lia. apply IH. intros j s' Hj. apply H. lia.
Qed.

(** A loop from 0 over the indices below [n]. *)
Lemma for_loop_ind0 {S} (P : Z -> S -> Prop) n body s :
  0 <= n -> P 0 s -> (forall j s, 0 <= j < n -> P j s -> P (j + 1) (body j s)) ->
  P n (for_loop (Z.to_nat n) 0 body s).
Proof.
  intros Hn H0 HS. pose proof (for_loop_ind P (Z.to_nat n) 0 body s H0) as H.
  rewrite Z.add_0_l, Z2Nat.id in H by done. apply H. intros j s' Hj. apply HS. lia.
Qed.

Lemma for_err_ind0 {E S} (P : Z -> S -> Prop) n (body : Z -> S -> E + S) s s' :
  0 <= n -> P 0 s ->
  (forall j s s', 0 <= j < n -> P j s -> body j s = inr s' -> P (j + 1) s') ->
  for_err (Z.to_nat n) 0 body s = inr s' -> P n s'.
Proof.
  intros Hn H0 HS Hrun. pose proof (for_err_ind P (Z.to_nat n) 0 body s s' H0) as H.
  rewrite Z.add_0_l, Z2Nat.id in H by done. apply H; [|done]. intros j ? ? Hj. apply HS. lia.
Qed.

(** A loop whose turns all succeed. *)
Lemma for_err_run {E S} (f : Z -> S) n (body : Z -> S -> E + S) :
  0 <= n -> (forall j, 0 <= j < n -> body j (f j) = inr (f (j + 1))) ->
  for_err (Z.to_nat n) 0 body (f 0) = inr (f n).
Proof.
  intros Hn Hb. cut (forall k i, 0 <= i -> i + Z.of_nat k = n ->
    for_err k i body (f i) = inr (f n)); [intros H; apply H; lia|].
  induction k as [|k IH]; intros i Hi Hk; cbn [for_err].
  - by replace i with n by lia.
  - rewrite Hb by lia. apply IH; lia.
Qed.

(** The loop leaves early only from one of its turns. *)
Lemma for_err_inl {E S} (P : Z -> S -> Prop) n i (body : Z -> S -> E + S) s e :
  P i s ->
  (forall j s s', i <= j < i + Z.of_nat n -> P j s -> body j s = inr s' -> P (j + 1) s') ->
  for_err n i body s = inl e ->
  exists j s1, i <= j < i + Z.of_nat n /\ P j s1 /\ body j s1 = inl e.
Proof.
  revert i s. induction n as [|n IH]; intros i s H0 HS; cbn [for_err]; [done|].
  destruct (body i s) as [e1|s1] eqn:E1; intros H.
  - injection H as ->. exists i, s. repeat split; [lia|lia|done|done].
  - destruct (IH (i + 1) s1) as (j & s2 & Hj & HP & Hb); [|intros j ? ? Hj; apply HS; lia|done|].
    + apply (HS i s); [lia|done|done].
    + exists j, s2. repeat split; [lia|lia|done|done].
Qed.

(** Error monad of the fallible routines: [inl] carries the error code. *)
Notation "'let!' x ':=' e 'in' k" :=
  (match e with inl err => inl err | inr x => k end)
  (at level 10, x pattern, e at level 200, k at level 200,
   format "'let!'  x  ':='  e  'in' '//' k") : record_scope.

Notation "'guard!' b 'else' err 'in' k" :=
  (if b then k else inl err)
  (at level 10, b at level 200, err at level 200, k at level 200,
   format "'guard!'  b  'else'  err  'in' '//' k") : record_scope.

Lemma exists_from_true n i p :
  exists_from n i p = true <-> exists j, i <= j < i + Z.of_nat n /\ p j = true.
Proof.
  revert i. induction n as [|n IH]; intros i; cbn [exists_from].
  - split; [done|]. intros (j & ? & _). lia.
  - destruct (p i) eqn:Hi.
    + split; [|done]. intros _. exists i. split; [lia|done].
    + rewrite IH. split; intros (j & Hj & Hp); exists j; (split; [|done]).
      * lia.
      * destruct (decide (j = i)) as [->|]; [congruence|lia].
Qed.

Lemma exists_below_true n p :
  exists_below n p = true <-> exists j, 0 <= j < n /\ p j = true.
Proof.
  unfold exists_below. rewrite exists_from_true.
  split; intros (j & Hj & Hp); exists j; (split; [lia|done]).
Qed.

Lemma exists_below_false n p :
  exists_below n p = false <-> forall j, 0 <= j < n -> p j = false.
Proof.
  rewrite <- not_true_iff_false, exists_below_true. split.
  - intros H j Hj. destruct (p j) eqn:E; [|done]. exfalso. eauto.
  - intros H (j & Hj & E). rewrite H in E by done. done.
Qed.

Lemma exists_below_ext n p q :
  (forall j, 0 <= j < n -> p j = q j) -> exists_below n p = exists_below n q.
Proof.
  intros H. destruct (exists_below n q) eqn:E.
  - apply exists_below_true in E as (j & Hj & Hq).
    apply exists_below_true. exists j. by rewrite H.
  - apply exists_below_false. intros j Hj. rewrite H by done.
    by eapply exists_below_false in E.
Qed.

Lemma find_from_Some n i p k :
  find_from n i p = Some k <->
  i <= k < i + Z.of_nat n /\ p k = true /\ (forall j, i <= j < k -> p j = false).
Proof.
  revert i. induction n as [|n IH]; intros i; cbn [find_from].
  - split; [done|]. lia.
  - destruct (p i) eqn:Hi.
    + split.
      * intros [= <-]. repeat split; [lia|lia|done|]. intros j ?. lia.
      * intros (H1 & H2 & H3). destruct (decide (i = k)) as [->|]; [done|].
        rewrite H3 in Hi by lia. done.
    + rewrite IH. split; intros (H1 & H2 & H3).
      * repeat split; [lia|lia|done|]. intros j Hj.
        destruct (decide (j = i)) as [->|]; [done|]. apply H3. lia.
      * assert (k <> i) by congruence. repeat split; [lia|lia|done|].
        intros j Hj. apply H3. lia.
Qed.

Lemma find_from_None n i p :
  find_from n i p = None <-> (forall j, i <= j < i + Z.of_nat n -> p j = false).
Proof.
  revert i. induction n as [|n IH]; intros i; cbn [find_from].
  - split; [|done]. intros _ j ?. lia.
  - destruct (p i) eqn:Hi.
    + split; [done|]. intros H. rewrite H in Hi by lia. done.
    + rewrite IH. split; intros H j Hj.
      * destruct (decide (j = i)) as [->|]; [done|]. apply H. lia.
      * apply H. lia.
Qed.

Lemma find_below_Some n p k :
  find_below n p = Some k <->
  0 <= k < n /\ p k = true /\ (forall j, 0 <= j < k -> p j = false).
Proof.
  unfold find_below. rewrite find_from_Some. split; intros (H1 & H2 & H3);
    (split; [lia|]); auto.
Qed.

Lemma find_below_None n p :
  find_below n p = None <-> (forall j, 0 <= j < n -> p j = false).
Proof.
  unfold find_below. rewrite find_from_None. split; intros H j Hj; apply H; lia.
Qed.

Lemma for_err_ext {E S} n i (f g : Z -> S -> E + S) s :
  (forall j s, f j s = g j s) -> for_err n i f s = for_err n i g s.
Proof.
  intros H. revert i s. induction n as [|n IH]; intros i s; cbn; [done|].
  rewrite H. destruct (g i s); [done|]. apply IH.
Qed.

(** [l.[i] = x] on a fixed-size array. *)
Definition set_at {A} (l : list A) (i : Z) (x : A) : list A := <[Z.to_nat i := x]> l.

Lemma length_set_at {A} (l : list A) i x : length (set_at l i x) = length l.
Proof. apply length_insert. Qed.

Lemma lookup_set_at {A} (l : list A) i x k :
  0 <= i < Z.of_nat (length l) ->
  set_at l i x !! k = if decide (k = Z.to_nat i) then Some x else l !! k.
Proof.
  intros Hi. unfold set_at. destruct (decide (k = Z.to_nat i)) as [->|].
  - apply list_lookup_insert_eq. lia.
  - by apply list_lookup_insert_ne.
Qed.

Lemma nth_set_at {A} (l : list A) i x j d :
  0 <= i < Z.of_nat (length l) -> 0 <= j ->
  nth (Z.to_nat j) (set_at l i x) d = if decide (j = i) then x else nth (Z.to_nat j) l d.
Proof.
  intros Hi Hj. rewrite !nth_lookup, lookup_set_at by done.
  destruct (decide (j = i)) as [->|]; [by rewrite decide_True|].
  by rewrite decide_False by lia.
Qed.

Lemma nth_at {A} (l : list A) k x d : l !! k = Some x -> nth (Z.to_nat (Z.of_nat k)) l d = x.
Proof. intros H. rewrite Nat2Z.id. by apply nth_lookup_Some. Qed.

Lemma lookup_at {A} (l : list A) i d :
  0 <= i < Z.of_nat (length l) -> l !! Z.to_nat i = Some (nth (Z.to_nat i) l d).
Proof.
  intros Hi. destruct (lookup_lt_is_Some_2 l (Z.to_nat i)) as [x Hx]; [lia|].
  by rewrite (nth_lookup_Some _ _ _ _ Hx).
Qed.

(** Search loops over the elements of an array. *)
Lemma exists_below_array {A} (l : list A) n d p :
  n = Z.of_nat (length l) ->
  exists_below n (fun i => p (nth (Z.to_nat i) l d)) = true <->
  exists k x, l !! k = Some x /\ p x = true.
Proof.
  intros ->. rewrite exists_below_true. split.
  - intros (j & Hj & Hp). eexists _, _. split; [by apply (lookup_at l j d)|done].
  - intros (k & x & Hk & Hp). exists (Z.of_nat k). apply lookup_lt_Some in Hk as Hl.
    split; [lia|]. by rewrite (nth_at _ _ _ _ Hk).
Qed.

Lemma exists_below_array_false {A} (l : list A) n d p :
  n = Z.of_nat (length l) ->
  exists_below n (fun i => p (nth (Z.to_nat i) l d)) = false <->
  forall k x, l !! k = Some x -> p x = false.
Proof.
  intros Hn. rewrite <- not_true_iff_false, exists_below_array by done. split.
  - intros H k x Hk. apply not_true_iff_false. naive_solver.
  - intros H (k & x & Hk & Hp). rewrite (H _ _ Hk) in Hp. done.
Qed.

(** ** Loops that fill an array

    A decoder fills an array entry by entry and checks each entry against the
    ones before it; it fails exactly when the filled array has a bad entry. *)
Section fill.
Context {A E : Type} (d : A) (cap : nat) (dec : Z -> A) (err : E).
Context (bad : Z -> list A -> bool).
Hypothesis bad_local : forall i l l',
  0 <= i -> (forall j, 0 <= j <= i -> nth (Z.to_nat j) l d = nth (Z.to_nat j) l' d) ->
  bad i l = bad i l'.

Definition filled (n : Z) : list A :=
  map dec (seqZ 0 n) ++ replicate (cap - Z.to_nat n) d.

Lemma nth_filled n j : 0 <= j < n -> nth (Z.to_nat j) (filled n) d = dec j.
Proof.
  intros Hj. unfold filled. rewrite app_nth1.
  - apply nth_lookup_Some. rewrite list_lookup_fmap, lookup_seqZ_lt by lia.
    cbn. f_equal. f_equal. lia.
  - rewrite length_map, length_seqZ. lia.
Qed.

Lemma set_at_filled n : 0 <= n < Z.of_nat cap -> set_at (filled n) n (dec n) = filled (n + 1).
Proof.
  intros Hn. unfold set_at, filled.
  rewrite seqZ_app by lia. rewrite map_app. cbn [map seqZ].
  rewrite <- app_assoc.
  replace (cap - Z.to_nat n)%nat with (S (cap - Z.to_nat (n + 1))) by lia.
  cbn [replicate].
  rewrite insert_app_r_alt by (rewrite length_map, length_seqZ; lia).
  rewrite length_map, length_seqZ, Nat.sub_diag. done.
Qed.

Lemma for_err_fill_from n i :
  0 <= i -> i + Z.of_nat n <= Z.of_nat cap ->
  for_err n i (fun k l => let l := set_at l k (dec k) in if bad k l then inl err else inr l)
    (filled i)
  = if exists_from n i (fun k => bad k (filled (i + Z.of_nat n)))
    then inl err else inr (filled (i + Z.of_nat n)).
Proof.
  revert i. induction n as [|n IH]; intros i Hi Hcap; cbn [for_err exists_from].
  - by rewrite Z.add_0_r.
  - cbn zeta. rewrite set_at_filled by lia.
    rewrite (bad_local i (filled (i + Z.of_nat (S n))) (filled (i + 1))) by
      (lia || (intros j Hj; rewrite !nth_filled by lia; done)).
    destruct (bad i (filled (i + 1))); [done|].
    rewrite IH by lia. by replace (i + 1 + Z.of_nat n) with (i + Z.of_nat (S n)) by lia.
Qed.

Lemma for_err_fill n :
  0 <= n <= Z.of_nat cap ->
  for_err (Z.to_nat n) 0
    (fun k l => let l := set_at l k (dec k) in if bad k l then inl err else inr l)
    (replicate cap d)
  = if exists_below n (fun k => bad k (filled n)) then inl err else inr (filled n).
Proof.
  intros Hn. replace (replicate cap d) with (filled 0).
  - rewrite for_err_fill_from by lia. unfold exists_below.
    by replace (0 + Z.of_nat (Z.to_nat n)) with n by lia.
  - unfold filled. cbn. by rewrite Nat.sub_0_r.
Qed.

Lemma filled_take arr n :
  0 <= n <= Z.of_nat (length arr) ->
  (forall i, 0 <= i < n -> dec i = nth (Z.to_nat i) arr d) ->
  filled n = take (Z.to_nat n) arr ++ replicate (cap - Z.to_nat n) d.
Proof.
  intros Hn Hdec. unfold filled. f_equal. apply list_eq. intros i.
  destruct (decide (i < Z.to_nat n)%nat).
  - rewrite list_lookup_fmap, lookup_seqZ_lt by lia. cbn.
    rewrite Hdec by lia. rewrite lookup_take_lt by done.
    symmetry. rewrite nth_lookup.
    destruct (lookup_lt_is_Some_2 arr i) as [x Hx]; [lia|].
    replace (Z.to_nat (0 + Z.of_nat i)) with i by lia. by rewrite Hx.
  - rewrite !lookup_ge_None_2; [done| |].
    + rewrite length_take. lia.
    + rewrite length_map, length_seqZ. lia.
Qed.
End fill.
