(* ===== verification/Protocol.v ===== *)
(** * The control protocol codec: common/infiniswap_protocol.{h,c}

    Data types, validation, [is_protocol_encode], [is_protocol_decode] and
    [is_protocol_negotiate].  A frame is a list of bytes; the encoder writes
    into the caller's buffer at the offsets of the source and the decoder
    reads at the offsets of the source. *)
From Stdlib Require Import String.
From S2P Require Import Prelude.

(** ** Constants (infiniswap_protocol.h:21-59, infiniswap_protocol.c:10-19) *)

(** The minor version is a build parameter ([-DIS_PROTOCOL_MINOR_CURRENT]). *)
Class ProtocolBuild := IS_PROTOCOL_MINOR_CURRENT : Z.
Definition default_build : ProtocolBuild := 1.

Definition IS_PROTOCOL_MAGIC : Z := 0x49535750.
Definition IS_PROTOCOL_MAJOR : Z := 1.

Definition IS_PROTOCOL_MINOR_PREVIOUS `{ProtocolBuild} : Z :=
  if IS_PROTOCOL_MINOR_CURRENT >? 0 then IS_PROTOCOL_MINOR_CURRENT - 1 else 0.
Definition IS_PROTOCOL_MINOR_NEXT `{ProtocolBuild} : Z := IS_PROTOCOL_MINOR_CURRENT + 1.

Definition IS_PROTOCOL_HEADER_SIZE : Z := 48.
Definition IS_PROTOCOL_MAX_FRAME_SIZE : Z := 4096.
Definition IS_PROTOCOL_NONCE_SIZE : Z := 32.
Definition IS_PROTOCOL_AUTH_TAG_SIZE : Z := 32.
Definition IS_PROTOCOL_CONSUMER_ID_MAX : Z := 63.
Definition IS_PROTOCOL_KEY_ID_MAX : Z := 31.
Definition IS_PROTOCOL_FAILURE_DEADLINE_MIN_MS : Z := 500.
Definition IS_PROTOCOL_FAILURE_DEADLINE_MAX_MS : Z := 30000.
Definition IS_PROTOCOL_MAX_CHUNKS_PER_FRAME : Z := 128.
Definition IS_PROTOCOL_FLAG_RESPONSE : Z := Z.shiftl 1 0.
Definition IS_PROTOCOL_FLAG_ERROR : Z := Z.shiftl 1 1.
Definition IS_PROTOCOL_FLAGS_KNOWN : Z :=
  Z.lor IS_PROTOCOL_FLAG_RESPONSE IS_PROTOCOL_FLAG_ERROR.
Definition IS_PROTOCOL_STATUS_HEALTHY : Z := Z.shiftl 1 0.

Definition IS_PROTOCOL_CAP_BACKED : Z := Z.shiftl 1 0.
Definition IS_PROTOCOL_CAP_REMOTE_ONLY : Z := Z.shiftl 1 1.
Definition IS_PROTOCOL_CAP_OPPORTUNISTIC_POOL : Z := Z.shiftl 1 2.
Definition IS_PROTOCOL_CAP_COMMITTED_POOL : Z := Z.shiftl 1 3.
Definition IS_PROTOCOL_CAP_FAILURE_DEADLINE : Z := Z.shiftl 1 4.
Definition IS_PROTOCOL_CAP_STATUS : Z := Z.shiftl 1 5.
Definition IS_PROTOCOL_CAP_AUTH_HMAC_SHA256 : Z := Z.shiftl 1 6.
Definition IS_PROTOCOL_CAP_KNOWN : Z :=
  Z.lor (Z.lor (Z.lor (Z.lor (Z.lor (Z.lor
    IS_PROTOCOL_CAP_BACKED IS_PROTOCOL_CAP_REMOTE_ONLY)
    IS_PROTOCOL_CAP_OPPORTUNISTIC_POOL) IS_PROTOCOL_CAP_COMMITTED_POOL)
    IS_PROTOCOL_CAP_FAILURE_DEADLINE) IS_PROTOCOL_CAP_STATUS)
    IS_PROTOCOL_CAP_AUTH_HMAC_SHA256.

Definition IS_PROTOCOL_HELLO_FIXED_SIZE : Z := 8 + IS_PROTOCOL_NONCE_SIZE.
Definition IS_PROTOCOL_CHALLENGE_SIZE : Z := 4 + IS_PROTOCOL_NONCE_SIZE.
Definition IS_PROTOCOL_ACCEPT_SIZE : Z := 4.
Definition IS_PROTOCOL_STATUS_SIZE : Z := 16.
Definition IS_PROTOCOL_CHUNK_REQUEST_SIZE : Z := 12.
Definition IS_PROTOCOL_CHUNK_LIST_HEADER_SIZE : Z := 4.
Definition IS_PROTOCOL_CHUNK_SIZE : Z := 24.
Definition IS_PROTOCOL_CHUNK_ID_SIZE : Z := 4.
Definition IS_PROTOCOL_ACTIVITY_SIZE : Z := 12.
Definition IS_PROTOCOL_ERROR_SIZE : Z := 8.

Inductive is_protocol_result :=
| IS_PROTOCOL_OK
| IS_PROTOCOL_INVALID_ARGUMENT
| IS_PROTOCOL_BUFFER_TOO_SMALL
| IS_PROTOCOL_BAD_MAGIC
| IS_PROTOCOL_UNSUPPORTED_VERSION
| IS_PROTOCOL_OVERSIZED
| IS_PROTOCOL_TRUNCATED
| IS_PROTOCOL_TRAILING_DATA
| IS_PROTOCOL_UNKNOWN_MESSAGE
| IS_PROTOCOL_UNKNOWN_REQUIRED_CAPABILITY
| IS_PROTOCOL_INVALID_CAPABILITIES
| IS_PROTOCOL_INVALID_PAYLOAD
| IS_PROTOCOL_INTEGER_OVERFLOW.

#[export] Instance is_protocol_result_eq_dec : EqDecision is_protocol_result.
Proof. solve_decision. Defined.

(** Enumerations whose values travel on the wire stay integers. *)
Definition IS_PROTOCOL_MSG_HELLO : Z := 1.
Definition IS_PROTOCOL_MSG_CHALLENGE : Z := 2.
Definition IS_PROTOCOL_MSG_AUTH : Z := 3.
Definition IS_PROTOCOL_MSG_ACCEPT : Z := 4.
Definition IS_PROTOCOL_MSG_STATUS_REQUEST : Z := 5.
Definition IS_PROTOCOL_MSG_STATUS_RESPONSE : Z := 6.
Definition IS_PROTOCOL_MSG_CHUNK_REQUEST : Z := 7.
Definition IS_PROTOCOL_MSG_CHUNK_GRANT : Z := 8.
Definition IS_PROTOCOL_MSG_EVICT : Z := 9.
Definition IS_PROTOCOL_MSG_ACTIVITY : Z := 10.
Definition IS_PROTOCOL_MSG_RELEASE : Z := 11.
Definition IS_PROTOCOL_MSG_GOODBYE : Z := 12.
Definition IS_PROTOCOL_MSG_ERROR : Z := 13.

Definition IS_PROTOCOL_ERROR_MALFORMED : Z := 1.
Definition IS_PROTOCOL_ERROR_VERSION : Z := 2.
Definition IS_PROTOCOL_ERROR_CAPABILITY : Z := 3.
Definition IS_PROTOCOL_ERROR_OUT_OF_ORDER : Z := 4.
Definition IS_PROTOCOL_ERROR_AUTHENTICATION : Z := 5.
Definition IS_PROTOCOL_ERROR_REPLAY : Z := 6.
Definition IS_PROTOCOL_ERROR_REVOKED : Z := 7.
Definition IS_PROTOCOL_ERROR_RESOURCE : Z := 8.
Definition IS_PROTOCOL_ERROR_INTERNAL : Z := 9.

Definition IS_PROTOCOL_MODE_BACKED : Z := 1.
Definition IS_PROTOCOL_MODE_REMOTE_ONLY : Z := 2.

Definition IS_PROTOCOL_POOL_OPPORTUNISTIC : Z := 1.
Definition IS_PROTOCOL_POOL_COMMITTED : Z := 2.

(** ** Messages (infiniswap_protocol.h:115-210) *)

Record is_protocol_header := {
  hdr_major : Z;
  hdr_minor : Z;
  hdr_type : Z;
  hdr_flags : Z;
  hdr_request_id : Z;
  hdr_session_id : Z;
  hdr_capabilities : Z;
  hdr_required_capabilities : Z
}.

(** Character arrays are lists of bytes of their declared length. *)
Record is_protocol_hello := {
  hello_consumer_id : list Z;
  hello_key_id : list Z;
  hello_nonce : list Z;
  hello_mode : Z;
  hello_pool : Z;
  hello_failure_deadline_ms : Z
}.

Record is_protocol_challenge := {
  challenge_nonce : list Z;
  challenge_negotiated_minor : Z
}.

Record is_protocol_auth := { auth_tag : list Z }.

Record is_protocol_accept := { accept_negotiated_minor : Z }.

Record is_protocol_status := {
  status_available_opportunistic_chunks : Z;
  status_available_committed_chunks : Z;
  status_provider_failure_deadline_ms : Z;
  status_flags : Z
}.

Record is_protocol_chunk_request := {
  request_chunk_count : Z;
  request_logical_start : Z;
  request_pool : Z
}.

Record is_protocol_chunk := {
  chunk_logical_chunk_id : Z;
  chunk_provider_chunk_id : Z;
  chunk_remote_address : Z;
  chunk_remote_key : Z;
  chunk_pool : Z
}.

Record is_protocol_chunk_grant := {
  grant_chunk_count : Z;
  grant_chunks : list is_protocol_chunk
}.

Record is_protocol_chunk_ids := {
  ids_chunk_count : Z;
  ids_chunk_ids : list Z
}.

Record is_protocol_chunk_activity := {
  activity_provider_chunk_id : Z;
  activity_activity : Z
}.

Record is_protocol_activity := {
  activity_chunk_count : Z;
  activity_chunks : list is_protocol_chunk_activity
}.

Record is_protocol_error := {
  error_code : Z;
  error_offending_type : Z;
  error_retryable : Z
}.

(** The union of the payload structures.  [payload_none] is the zeroed union
    of a message without payload. *)
Inductive is_protocol_payload :=
| payload_none
| payload_hello (hello : is_protocol_hello)
| payload_challenge (challenge : is_protocol_challenge)
| payload_auth (auth : is_protocol_auth)
| payload_accept (accept : is_protocol_accept)
| payload_status (status : is_protocol_status)
| payload_chunk_request (chunk_request : is_protocol_chunk_request)
| payload_chunk_grant (chunk_grant : is_protocol_chunk_grant)
| payload_chunk_ids (chunk_ids : is_protocol_chunk_ids)
| payload_activity (activity : is_protocol_activity)
| payload_error (error : is_protocol_error).

Record is_protocol_message := {
  msg_header : is_protocol_header;
  msg_payload : is_protocol_payload
}.

(** Zeroed structures, the contents after [memset]. *)
Definition zero_hello : is_protocol_hello :=
  {| hello_consumer_id := zeros 64; hello_key_id := zeros 32;
     hello_nonce := zeros 32; hello_mode := 0; hello_pool := 0;
     hello_failure_deadline_ms := 0 |}.
Definition zero_chunk : is_protocol_chunk :=
  {| chunk_logical_chunk_id := 0; chunk_provider_chunk_id := 0;
     chunk_remote_address := 0; chunk_remote_key := 0; chunk_pool := 0 |}.
Definition zero_chunk_activity : is_protocol_chunk_activity :=
  {| activity_provider_chunk_id := 0; activity_activity := 0 |}.
Definition zero_chunks : list is_protocol_chunk := replicate 128 zero_chunk.
Definition zero_activities : list is_protocol_chunk_activity :=
  replicate 128 zero_chunk_activity.

(** Union member selection.  The routines of this file select the member that
    [header.type] designates; a message whose payload holds another member is
    outside of the contract of [is_protocol_encode] and reads as zeroes. *)
Definition get_hello (p : is_protocol_payload) : is_protocol_hello :=
  match p with payload_hello h => h | _ => zero_hello end.
Definition get_challenge (p : is_protocol_payload) : is_protocol_challenge :=
  match p with
  | payload_challenge c => c
  | _ => {| challenge_nonce := zeros 32; challenge_negotiated_minor := 0 |}
  end.
Definition get_auth (p : is_protocol_payload) : is_protocol_auth :=
  match p with payload_auth a => a | _ => {| auth_tag := zeros 32 |} end.
Definition get_accept (p : is_protocol_payload) : is_protocol_accept :=
  match p with payload_accept a => a | _ => {| accept_negotiated_minor := 0 |} end.
Definition get_status (p : is_protocol_payload) : is_protocol_status :=
  match p with
  | payload_status s => s
  | _ => {| status_available_opportunistic_chunks := 0;
            status_available_committed_chunks := 0;
            status_provider_failure_deadline_ms := 0; status_flags := 0 |}
  end.
Definition get_chunk_request (p : is_protocol_payload) : is_protocol_chunk_request :=
  match p with
  | payload_chunk_request r => r
  | _ => {| request_chunk_count := 0; request_logical_start := 0; request_pool := 0 |}
  end.
Definition get_chunk_grant (p : is_protocol_payload) : is_protocol_chunk_grant :=
  match p with
  | payload_chunk_grant g => g
  | _ => {| grant_chunk_count := 0; grant_chunks := zero_chunks |}
  end.
Definition get_chunk_ids (p : is_protocol_payload) : is_protocol_chunk_ids :=
  match p with
  | payload_chunk_ids i => i
  | _ => {| ids_chunk_count := 0; ids_chunk_ids := zeros 128 |}
  end.
Definition get_activity (p : is_protocol_payload) : is_protocol_activity :=
  match p with
  | payload_activity a => a
  | _ => {| activity_chunk_count := 0; activity_chunks := zero_activities |}
  end.
Definition get_error (p : is_protocol_payload) : is_protocol_error :=
  match p with
  | payload_error e => e
  | _ => {| error_code := 0; error_offending_type := 0; error_retryable := 0 |}
  end.

(** Array accesses of the fixed-size arrays. *)
Definition chunk_at (l : list is_protocol_chunk) (i : Z) : is_protocol_chunk :=
  nth (Z.to_nat i) l zero_chunk.
Definition activity_at (l : list is_protocol_chunk_activity) (i : Z) :
    is_protocol_chunk_activity :=
  nth (Z.to_nat i) l zero_chunk_activity.

(** ** Big-endian accessors (infiniswap_protocol.c:21-59) *)

Definition is_put_u16 (out : list Z) (off value : Z) : list Z :=
  buf_write out off [u8 (Z.shiftr value 8); u8 value].

Definition is_put_u32 (out : list Z) (off value : Z) : list Z :=
  buf_write out off
    [u8 (Z.shiftr value 24); u8 (Z.shiftr value 16); u8 (Z.shiftr value 8); u8 value].

Definition is_put_u64 (out : list Z) (off value : Z) : list Z :=
  let out := is_put_u32 out off (u32 (Z.shiftr value 32)) in
  is_put_u32 out (off + 4) (u32 value).

Definition put_u8 (out : list Z) (off value : Z) : list Z := buf_write out off [value].

Definition is_get_u16 (inp : list Z) (off : Z) : Z :=
  u16 (Z.lor (Z.shiftl (byte_at inp off) 8) (byte_at inp (off + 1))).

Definition is_get_u32 (inp : list Z) (off : Z) : Z :=
  Z.lor (Z.lor (Z.lor
    (u32 (Z.shiftl (byte_at inp off) 24))
    (u32 (Z.shiftl (byte_at inp (off + 1)) 16)))
    (u32 (Z.shiftl (byte_at inp (off + 2)) 8)))
    (byte_at inp (off + 3)).

Definition is_get_u64 (inp : list Z) (off : Z) : Z :=
  Z.lor (u64 (Z.shiftl (is_get_u32 inp off) 32)) (is_get_u32 inp (off + 4)).

(** ** Validation (infiniswap_protocol.c:61-188) *)

Fixpoint bounded_string_length_from (value : list Z) (fuel : nat) (length : Z) : Z :=
  match fuel with
  | O => length
  | S fuel' =>
      if byte_at value length =? 0 then length
      else bounded_string_length_from value fuel' (length + 1)
  end.

Definition is_bounded_string_length (value : list Z) (maximum : Z) : Z :=
  bounded_string_length_from value (Z.to_nat (maximum + 1)) 0.

Definition identifier_char (c : Z) : bool :=
  (97 <=? c) && (c <=? 122) || (65 <=? c) && (c <=? 90) ||
  (48 <=? c) && (c <=? 57) || (c =? 46) || (c =? 95) || (c =? 45).

Definition is_identifier_valid (value : list Z) (length : Z) : bool :=
  if length =? 0 then false
  else negb (exists_below length (fun index => negb (identifier_char (byte_at value index)))).

Definition is_type_valid (type : Z) : bool :=
  (IS_PROTOCOL_MSG_HELLO <=? type) && (type <=? IS_PROTOCOL_MSG_ERROR).

Definition is_flags_valid (type flags : Z) : bool :=
  if (type =? IS_PROTOCOL_MSG_CHALLENGE) || (type =? IS_PROTOCOL_MSG_ACCEPT) ||
     (type =? IS_PROTOCOL_MSG_STATUS_RESPONSE) ||
     (type =? IS_PROTOCOL_MSG_CHUNK_GRANT) || (type =? IS_PROTOCOL_MSG_ACTIVITY)
  then flags =? IS_PROTOCOL_FLAG_RESPONSE
  else if type =? IS_PROTOCOL_MSG_RELEASE
  then (flags =? 0) || (flags =? IS_PROTOCOL_FLAG_RESPONSE)
  else if type =? IS_PROTOCOL_MSG_ERROR
  then flags =? Z.lor IS_PROTOCOL_FLAG_RESPONSE IS_PROTOCOL_FLAG_ERROR
  else flags =? 0.

Definition is_minor_valid `{ProtocolBuild} (minor : Z) : bool :=
  (minor =? IS_PROTOCOL_MINOR_CURRENT) || (minor =? IS_PROTOCOL_MINOR_PREVIOUS) ||
  (minor =? IS_PROTOCOL_MINOR_NEXT).

Definition is_pool_valid (pool : Z) : bool :=
  (pool =? IS_PROTOCOL_POOL_OPPORTUNISTIC) || (pool =? IS_PROTOCOL_POOL_COMMITTED).

Definition is_deadline_valid (deadline_ms : Z) : bool :=
  (IS_PROTOCOL_FAILURE_DEADLINE_MIN_MS <=? deadline_ms) &&
  (deadline_ms <=? IS_PROTOCOL_FAILURE_DEADLINE_MAX_MS).

(** [x & ~y] on 64-bit (or narrower, zero-extended) operands. *)
Definition andnot64 (x y : Z) : Z := Z.land x (u64 (Z.lnot y)).

Definition is_validate_header `{ProtocolBuild} (header : is_protocol_header) :
    is_protocol_result + unit :=
  if negb (hdr_major header =? IS_PROTOCOL_MAJOR) || negb (is_minor_valid (hdr_minor header))
  then inl IS_PROTOCOL_UNSUPPORTED_VERSION
  else if negb (is_type_valid (hdr_type header))
  then inl IS_PROTOCOL_UNKNOWN_MESSAGE
  else if negb (andnot64 (hdr_required_capabilities header) IS_PROTOCOL_CAP_KNOWN =? 0)
  then inl IS_PROTOCOL_UNKNOWN_REQUIRED_CAPABILITY
  else if negb (andnot64 (hdr_required_capabilities header) (hdr_capabilities header) =? 0)
  then inl IS_PROTOCOL_INVALID_CAPABILITIES
  else if (hdr_request_id header =? 0) ||
     negb (Z.land (hdr_flags header) (u32 (Z.lnot IS_PROTOCOL_FLAGS_KNOWN)) =? 0) ||
     negb (is_flags_valid (hdr_type header) (hdr_flags header))
  then inl IS_PROTOCOL_INVALID_PAYLOAD
  else if ((hdr_type header =? IS_PROTOCOL_MSG_HELLO) ||
      (hdr_type header =? IS_PROTOCOL_MSG_CHALLENGE) ||
      (hdr_type header =? IS_PROTOCOL_MSG_AUTH)) && negb (hdr_session_id header =? 0)
  then inl IS_PROTOCOL_INVALID_PAYLOAD
  else if (hdr_type header >? IS_PROTOCOL_MSG_AUTH) &&
     negb (hdr_type header =? IS_PROTOCOL_MSG_ERROR) && (hdr_session_id header =? 0)
  then inl IS_PROTOCOL_INVALID_PAYLOAD
  else inr tt.

(** Returns the lengths of the two identifiers on success. *)
Definition is_validate_hello (hello : is_protocol_hello) : is_protocol_result + (Z * Z) :=
  let consumer_length :=
    is_bounded_string_length (hello_consumer_id hello) IS_PROTOCOL_CONSUMER_ID_MAX in
  let key_length := is_bounded_string_length (hello_key_id hello) IS_PROTOCOL_KEY_ID_MAX in
  if (consumer_length >? IS_PROTOCOL_CONSUMER_ID_MAX) ||
     (key_length >? IS_PROTOCOL_KEY_ID_MAX) ||
     negb (is_identifier_valid (hello_consumer_id hello) consumer_length) ||
     negb (is_identifier_valid (hello_key_id hello) key_length)
  then inl IS_PROTOCOL_INVALID_PAYLOAD
  else if (negb (hello_mode hello =? IS_PROTOCOL_MODE_BACKED) &&
      negb (hello_mode hello =? IS_PROTOCOL_MODE_REMOTE_ONLY)) ||
     negb (is_pool_valid (hello_pool hello)) ||
     negb (is_deadline_valid (hello_failure_deadline_ms hello))
  then inl IS_PROTOCOL_INVALID_PAYLOAD
  else if ((hello_mode hello =? IS_PROTOCOL_MODE_BACKED) &&
      negb (hello_pool hello =? IS_PROTOCOL_POOL_OPPORTUNISTIC)) ||
     ((hello_mode hello =? IS_PROTOCOL_MODE_REMOTE_ONLY) &&
      negb (hello_pool hello =? IS_PROTOCOL_POOL_COMMITTED))
  then inl IS_PROTOCOL_INVALID_PAYLOAD
  else inr (consumer_length, key_length).

Definition is_validate_chunk_count (chunk_count : Z) : is_protocol_result + unit :=
  if (chunk_count =? 0) || (chunk_count >? IS_PROTOCOL_MAX_CHUNKS_PER_FRAME)
  then inl IS_PROTOCOL_INVALID_PAYLOAD
  else inr tt.

(** The condition shared by [is_payload_size] and [is_decode_payload] on a
    CHUNK_REQUEST (lines 232-237 and 666-671). *)
Definition chunk_request_valid (r : is_protocol_chunk_request) : bool :=
  negb ((request_chunk_count r =? 0) ||
        (request_chunk_count r >? IS_PROTOCOL_MAX_CHUNKS_PER_FRAME) ||
        (u32 (request_chunk_count r - 1) >? u32 (Z.lnot (request_logical_start r))) ||
        negb (is_pool_valid (request_pool r))).

(** The conditions of the inner loops over previous entries. *)
Definition chunk_seen (chunks : list is_protocol_chunk) (index : Z) : bool :=
  exists_below index (fun previous =>
    (chunk_logical_chunk_id (chunk_at chunks previous) =?
       chunk_logical_chunk_id (chunk_at chunks index)) ||
    (chunk_provider_chunk_id (chunk_at chunks previous) =?
       chunk_provider_chunk_id (chunk_at chunks index))).

Definition id_seen (ids : list Z) (index : Z) : bool :=
  exists_below index (fun previous => word_at ids previous =? word_at ids index).

Definition activity_seen (l : list is_protocol_chunk_activity) (index : Z) : bool :=
  exists_below index (fun previous =>
    activity_provider_chunk_id (activity_at l previous) =?
    activity_provider_chunk_id (activity_at l index)).

Definition chunk_entry_valid (chunk : is_protocol_chunk) : bool :=
  negb (negb (is_pool_valid (chunk_pool chunk)) ||
        (chunk_remote_address chunk =? 0) || (chunk_remote_key chunk =? 0)).

Definition error_valid (e : is_protocol_error) : bool :=
  negb ((error_code e <? IS_PROTOCOL_ERROR_MALFORMED) ||
        (error_code e >? IS_PROTOCOL_ERROR_INTERNAL) || (error_retryable e >? 1)).

(** [is_payload_size] (lines 190-313): the payload size and the lengths of the
    identifiers of a HELLO. *)
Definition is_payload_size `{ProtocolBuild} (message : is_protocol_message) :
    is_protocol_result + (Z * Z * Z) :=
  let type := hdr_type (msg_header message) in
  let p := msg_payload message in
  if type =? IS_PROTOCOL_MSG_HELLO then
    let! (consumer_length, key_length) := is_validate_hello (get_hello p) in
    inr (IS_PROTOCOL_HELLO_FIXED_SIZE + consumer_length + key_length,
         consumer_length, key_length)
  else if type =? IS_PROTOCOL_MSG_CHALLENGE then
    guard! is_minor_valid (challenge_negotiated_minor (get_challenge p))
      else IS_PROTOCOL_INVALID_PAYLOAD in
    inr (IS_PROTOCOL_CHALLENGE_SIZE, 0, 0)
  else if type =? IS_PROTOCOL_MSG_AUTH then inr (IS_PROTOCOL_AUTH_TAG_SIZE, 0, 0)
  else if type =? IS_PROTOCOL_MSG_ACCEPT then
    guard! is_minor_valid (accept_negotiated_minor (get_accept p))
      else IS_PROTOCOL_INVALID_PAYLOAD in
    inr (IS_PROTOCOL_ACCEPT_SIZE, 0, 0)
  else if (type =? IS_PROTOCOL_MSG_STATUS_REQUEST) || (type =? IS_PROTOCOL_MSG_GOODBYE)
  then inr (0, 0, 0)
  else if type =? IS_PROTOCOL_MSG_STATUS_RESPONSE then
    guard! is_deadline_valid (status_provider_failure_deadline_ms (get_status p))
      else IS_PROTOCOL_INVALID_PAYLOAD in
    inr (IS_PROTOCOL_STATUS_SIZE, 0, 0)
  else if type =? IS_PROTOCOL_MSG_CHUNK_REQUEST then
    guard! chunk_request_valid (get_chunk_request p) else IS_PROTOCOL_INVALID_PAYLOAD in
    inr (IS_PROTOCOL_CHUNK_REQUEST_SIZE, 0, 0)
  else if type =? IS_PROTOCOL_MSG_CHUNK_GRANT then
    let grant := get_chunk_grant p in
    let! _ := is_validate_chunk_count (grant_chunk_count grant) in
    guard! negb (exists_below (grant_chunk_count grant) (fun index =>
        negb (chunk_entry_valid (chunk_at (grant_chunks grant) index)) ||
        chunk_seen (grant_chunks grant) index))
      else IS_PROTOCOL_INVALID_PAYLOAD in
    inr (IS_PROTOCOL_CHUNK_LIST_HEADER_SIZE +
         IS_PROTOCOL_CHUNK_SIZE * grant_chunk_count grant, 0, 0)
  else if (type =? IS_PROTOCOL_MSG_EVICT) || (type =? IS_PROTOCOL_MSG_RELEASE) then
    let ids := get_chunk_ids p in
    let! _ := is_validate_chunk_count (ids_chunk_count ids) in
    guard! negb (exists_below (ids_chunk_count ids) (id_seen (ids_chunk_ids ids)))
      else IS_PROTOCOL_INVALID_PAYLOAD in
    inr (IS_PROTOCOL_CHUNK_LIST_HEADER_SIZE +
         IS_PROTOCOL_CHUNK_ID_SIZE * ids_chunk_count ids, 0, 0)
  else if type =? IS_PROTOCOL_MSG_ACTIVITY then
    let act := get_activity p in
    let! _ := is_validate_chunk_count (activity_chunk_count act) in
    guard! negb (exists_below (activity_chunk_count act)
                   (activity_seen (activity_chunks act)))
      else IS_PROTOCOL_INVALID_PAYLOAD in
    inr (IS_PROTOCOL_CHUNK_LIST_HEADER_SIZE +
         IS_PROTOCOL_ACTIVITY_SIZE * activity_chunk_count act, 0, 0)
  else if type =? IS_PROTOCOL_MSG_ERROR then
    guard! error_valid (get_error p) else IS_PROTOCOL_INVALID_PAYLOAD in
    inr (IS_PROTOCOL_ERROR_SIZE, 0, 0)
  else inl IS_PROTOCOL_UNKNOWN_MESSAGE.

(** ** Encoding (infiniswap_protocol.c:315-475) *)

Definition is_encode_header (header : is_protocol_header) (payload_size : Z)
    (frame : list Z) : list Z :=
  let frame := is_put_u32 frame 0 IS_PROTOCOL_MAGIC in
  let frame := is_put_u16 frame 4 (hdr_major header) in
  let frame := is_put_u16 frame 6 (hdr_minor header) in
  let frame := is_put_u16 frame 8 (hdr_type header) in
  let frame := is_put_u16 frame 10 (hdr_flags header) in
  let frame := is_put_u32 frame 12 (u32 payload_size) in
  let frame := is_put_u64 frame 16 (hdr_request_id header) in
  let frame := is_put_u64 frame 24 (hdr_session_id header) in
  let frame := is_put_u64 frame 32 (hdr_capabilities header) in
  is_put_u64 frame 40 (hdr_required_capabilities header).

Definition is_encode_chunk_ids (chunk_ids : is_protocol_chunk_ids) (frame : list Z)
    (payload : Z) : list Z :=
  let frame := is_put_u16 frame payload (ids_chunk_count chunk_ids) in
  let frame := is_put_u16 frame (payload + 2) 0 in
  for_loop (Z.to_nat (ids_chunk_count chunk_ids)) 0 (fun index frame =>
    is_put_u32 frame
      (payload + IS_PROTOCOL_CHUNK_LIST_HEADER_SIZE + index * IS_PROTOCOL_CHUNK_ID_SIZE)
      (word_at (ids_chunk_ids chunk_ids) index)) frame.

Definition encode_chunk_entry (chunk : is_protocol_chunk) (frame : list Z) (entry : Z) :
    list Z :=
  let frame := is_put_u32 frame entry (chunk_logical_chunk_id chunk) in
  let frame := is_put_u32 frame (entry + 4) (chunk_provider_chunk_id chunk) in
  let frame := is_put_u64 frame (entry + 8) (chunk_remote_address chunk) in
  let frame := is_put_u32 frame (entry + 16) (chunk_remote_key chunk) in
  let frame := put_u8 frame (entry + 20) (chunk_pool chunk) in
  let frame := put_u8 frame (entry + 21) 0 in
  let frame := put_u8 frame (entry + 22) 0 in
  put_u8 frame (entry + 23) 0.

Definition encode_activity_entry (activity : is_protocol_chunk_activity) (frame : list Z)
    (entry : Z) : list Z :=
  let frame := is_put_u32 frame entry (activity_provider_chunk_id activity) in
  is_put_u64 frame (entry + 4) (activity_activity activity).

(** [payload] is the offset of the payload in the frame; the three lists of
    entries are written by the loops of lines 397-412, 337-340 and 421-429. *)
Definition is_encode_payload (message : is_protocol_message)
    (consumer_length key_length : Z) (frame : list Z) (payload : Z) : list Z :=
  let type := hdr_type (msg_header message) in
  let p := msg_payload message in
  if type =? IS_PROTOCOL_MSG_HELLO then
    let hello := get_hello p in
    let frame := put_u8 frame payload (u8 consumer_length) in
    let frame := put_u8 frame (payload + 1) (u8 key_length) in
    let frame := put_u8 frame (payload + 2) (hello_mode hello) in
    let frame := put_u8 frame (payload + 3) (hello_pool hello) in
    let frame := is_put_u32 frame (payload + 4) (hello_failure_deadline_ms hello) in
    let frame := buf_write frame (payload + 8)
                   (buf_read (hello_nonce hello) 0 IS_PROTOCOL_NONCE_SIZE) in
    let frame := buf_write frame (payload + IS_PROTOCOL_HELLO_FIXED_SIZE)
                   (buf_read (hello_consumer_id hello) 0 consumer_length) in
    buf_write frame (payload + IS_PROTOCOL_HELLO_FIXED_SIZE + consumer_length)
      (buf_read (hello_key_id hello) 0 key_length)
  else if type =? IS_PROTOCOL_MSG_CHALLENGE then
    let challenge := get_challenge p in
    let frame := buf_write frame payload
                   (buf_read (challenge_nonce challenge) 0 IS_PROTOCOL_NONCE_SIZE) in
    let frame := is_put_u16 frame (payload + IS_PROTOCOL_NONCE_SIZE)
                   (challenge_negotiated_minor challenge) in
    is_put_u16 frame (payload + IS_PROTOCOL_NONCE_SIZE + 2) 0
  else if type =? IS_PROTOCOL_MSG_AUTH then
    buf_write frame payload (buf_read (auth_tag (get_auth p)) 0 IS_PROTOCOL_AUTH_TAG_SIZE)
  else if type =? IS_PROTOCOL_MSG_ACCEPT then
    let frame := is_put_u16 frame payload (accept_negotiated_minor (get_accept p)) in
    is_put_u16 frame (payload + 2) 0
  else if type =? IS_PROTOCOL_MSG_STATUS_RESPONSE then
    let status := get_status p in
    let frame := is_put_u32 frame payload (status_available_opportunistic_chunks status) in
    let frame := is_put_u32 frame (payload + 4) (status_available_committed_chunks status) in
    let frame := is_put_u32 frame (payload + 8) (status_provider_failure_deadline_ms status) in
    is_put_u32 frame (payload + 12) (status_flags status)
  else if type =? IS_PROTOCOL_MSG_CHUNK_REQUEST then
    let request := get_chunk_request p in
    let frame := is_put_u32 frame payload (request_chunk_count request) in
    let frame := is_put_u32 frame (payload + 4) (request_logical_start request) in
    let frame := put_u8 frame (payload + 8) (request_pool request) in
    let frame := put_u8 frame (payload + 9) 0 in
    let frame := put_u8 frame (payload + 10) 0 in
    put_u8 frame (payload + 11) 0
  else if type =? IS_PROTOCOL_MSG_CHUNK_GRANT then
    let grant := get_chunk_grant p in
    let frame := is_put_u16 frame payload (grant_chunk_count grant) in
    let frame := is_put_u16 frame (payload + 2) 0 in
    for_loop (Z.to_nat (grant_chunk_count grant)) 0 (fun index frame =>
      encode_chunk_entry (chunk_at (grant_chunks grant) index) frame
        (payload + IS_PROTOCOL_CHUNK_LIST_HEADER_SIZE + index * IS_PROTOCOL_CHUNK_SIZE)) frame
  else if (type =? IS_PROTOCOL_MSG_EVICT) || (type =? IS_PROTOCOL_MSG_RELEASE) then
    is_encode_chunk_ids (get_chunk_ids p) frame payload
  else if type =? IS_PROTOCOL_MSG_ACTIVITY then
    let act := get_activity p in
    let frame := is_put_u16 frame payload (activity_chunk_count act) in
    let frame := is_put_u16 frame (payload + 2) 0 in
    for_loop (Z.to_nat (activity_chunk_count act)) 0 (fun index frame =>
      encode_activity_entry (activity_at (activity_chunks act) index) frame
        (payload + IS_PROTOCOL_CHUNK_LIST_HEADER_SIZE + index * IS_PROTOCOL_ACTIVITY_SIZE)) frame
  else if type =? IS_PROTOCOL_MSG_ERROR then
    let error := get_error p in
    let frame := is_put_u16 frame payload (error_code error) in
    let frame := is_put_u16 frame (payload + 2) (error_offending_type error) in
    let frame := put_u8 frame (payload + 4) (error_retryable error) in
    let frame := put_u8 frame (payload + 5) 0 in
    let frame := put_u8 frame (payload + 6) 0 in
    put_u8 frame (payload + 7) 0
  else frame.

(** A pointer argument that is read is an [option]; the pointers of results
    are taken to be valid.  On success the
    result is the written buffer and [*frame_size]; on failure neither is
    touched. *)
Definition is_protocol_encode `{ProtocolBuild} (message : option is_protocol_message)
    (frame : option (list Z)) (frame_capacity : Z) :
    is_protocol_result + (list Z * Z) :=
  match message, frame with
  | Some message, Some frame =>
      let! _ := is_validate_header (msg_header message) in
      let! (payload_size, consumer_length, key_length) := is_payload_size message in
      if payload_size >? IS_PROTOCOL_MAX_FRAME_SIZE - IS_PROTOCOL_HEADER_SIZE
      then inl IS_PROTOCOL_OVERSIZED
      else if frame_capacity <? IS_PROTOCOL_HEADER_SIZE + payload_size
      then inl IS_PROTOCOL_BUFFER_TOO_SMALL
      else
        let frame := is_encode_header (msg_header message) payload_size frame in
        let frame := is_encode_payload message consumer_length key_length frame
                       IS_PROTOCOL_HEADER_SIZE in
        inr (frame, IS_PROTOCOL_HEADER_SIZE + payload_size)
  | _, _ => inl IS_PROTOCOL_INVALID_ARGUMENT
  end.

(** ** Decoding (infiniswap_protocol.c:477-782) *)

Definition is_reserved_zero (value : list Z) (off size : Z) : bool :=
  negb (exists_below size (fun index => negb (byte_at value (off + index) =? 0))).

Definition is_decode_header `{ProtocolBuild} (frame : list Z) (frame_size : Z) :
    is_protocol_result + (is_protocol_header * Z) :=
  if frame_size <? IS_PROTOCOL_HEADER_SIZE then inl IS_PROTOCOL_TRUNCATED
  else if negb (is_get_u32 frame 0 =? IS_PROTOCOL_MAGIC) then inl IS_PROTOCOL_BAD_MAGIC
  else
    let header := {|
      hdr_major := is_get_u16 frame 4;
      hdr_minor := is_get_u16 frame 6;
      hdr_type := is_get_u16 frame 8;
      hdr_flags := is_get_u16 frame 10;
      hdr_request_id := is_get_u64 frame 16;
      hdr_session_id := is_get_u64 frame 24;
      hdr_capabilities := is_get_u64 frame 32;
      hdr_required_capabilities := is_get_u64 frame 40 |} in
    let payload_size := is_get_u32 frame 12 in
    if payload_size >? IS_PROTOCOL_MAX_FRAME_SIZE - IS_PROTOCOL_HEADER_SIZE
    then inl IS_PROTOCOL_OVERSIZED
    else if payload_size >? frame_size - IS_PROTOCOL_HEADER_SIZE
    then inl IS_PROTOCOL_TRUNCATED
    else if payload_size <? frame_size - IS_PROTOCOL_HEADER_SIZE
    then inl IS_PROTOCOL_TRAILING_DATA
    else
      let! _ := is_validate_header header in
      inr (header, payload_size).

Definition is_require_payload_size (actual expected : Z) : is_protocol_result + unit :=
  if actual =? expected then inr tt else inl IS_PROTOCOL_INVALID_PAYLOAD.

Definition is_counted_payload_size (actual count entry_size : Z) :
    is_protocol_result + unit :=
  if count =? 0 then inl IS_PROTOCOL_INVALID_PAYLOAD
  else if count >? (IS_PROTOCOL_MAX_FRAME_SIZE - IS_PROTOCOL_CHUNK_LIST_HEADER_SIZE) / entry_size
  then inl IS_PROTOCOL_INTEGER_OVERFLOW
  else if count >? IS_PROTOCOL_MAX_CHUNKS_PER_FRAME then inl IS_PROTOCOL_INVALID_PAYLOAD
  else is_require_payload_size actual
         (IS_PROTOCOL_CHUNK_LIST_HEADER_SIZE + count * entry_size).

(** [payload] is the part of the frame after the header. *)
Definition is_decode_hello (payload : list Z) (payload_size : Z) :
    is_protocol_result + is_protocol_hello :=
  if payload_size <? IS_PROTOCOL_HELLO_FIXED_SIZE then inl IS_PROTOCOL_INVALID_PAYLOAD
  else
    let consumer_length := byte_at payload 0 in
    let key_length := byte_at payload 1 in
    if (consumer_length =? 0) || (consumer_length >? IS_PROTOCOL_CONSUMER_ID_MAX) ||
       (key_length =? 0) || (key_length >? IS_PROTOCOL_KEY_ID_MAX) ||
       negb (consumer_length + key_length =? payload_size - IS_PROTOCOL_HELLO_FIXED_SIZE)
    then inl IS_PROTOCOL_INVALID_PAYLOAD
    else
      let hello := {|
        hello_mode := byte_at payload 2;
        hello_pool := byte_at payload 3;
        hello_failure_deadline_ms := is_get_u32 payload 4;
        hello_nonce := buf_write (hello_nonce zero_hello) 0
                         (buf_read payload 8 IS_PROTOCOL_NONCE_SIZE);
        hello_consumer_id := buf_write (hello_consumer_id zero_hello) 0
          (buf_read payload IS_PROTOCOL_HELLO_FIXED_SIZE consumer_length);
        hello_key_id := buf_write (hello_key_id zero_hello) 0
          (buf_read payload (IS_PROTOCOL_HELLO_FIXED_SIZE + consumer_length) key_length) |} in
      let! _ := is_validate_hello hello in
      inr hello.

Definition is_decode_chunk_ids (payload : list Z) (payload_size : Z) :
    is_protocol_result + is_protocol_chunk_ids :=
  if payload_size <? IS_PROTOCOL_CHUNK_LIST_HEADER_SIZE then inl IS_PROTOCOL_INVALID_PAYLOAD
  else
    let chunk_count := is_get_u16 payload 0 in
    guard! is_reserved_zero payload 2 2 else IS_PROTOCOL_INVALID_PAYLOAD in
    let! _ := is_counted_payload_size payload_size chunk_count IS_PROTOCOL_CHUNK_ID_SIZE in
    let! ids := for_err (Z.to_nat chunk_count) 0 (fun index ids =>
      let ids := set_at ids index (is_get_u32 payload
        (IS_PROTOCOL_CHUNK_LIST_HEADER_SIZE + index * IS_PROTOCOL_CHUNK_ID_SIZE)) in
      if id_seen ids index then inl IS_PROTOCOL_INVALID_PAYLOAD else inr ids) (zeros 128) in
    inr {| ids_chunk_count := chunk_count; ids_chunk_ids := ids |}.

Definition decode_chunk_entry (payload : list Z) (entry : Z) : is_protocol_chunk :=
  {| chunk_logical_chunk_id := is_get_u32 payload entry;
     chunk_provider_chunk_id := is_get_u32 payload (entry + 4);
     chunk_remote_address := is_get_u64 payload (entry + 8);
     chunk_remote_key := is_get_u32 payload (entry + 16);
     chunk_pool := byte_at payload (entry + 20) |}.

Definition decode_activity_entry (payload : list Z) (entry : Z) : is_protocol_chunk_activity :=
  {| activity_provider_chunk_id := is_get_u32 payload entry;
     activity_activity := is_get_u64 payload (entry + 4) |}.

Definition is_decode_payload `{ProtocolBuild} (payload : list Z) (payload_size : Z)
    (type : Z) : is_protocol_result + is_protocol_payload :=
  if type =? IS_PROTOCOL_MSG_HELLO then
    let! hello := is_decode_hello payload payload_size in
    inr (payload_hello hello)
  else if type =? IS_PROTOCOL_MSG_CHALLENGE then
    let! _ := is_require_payload_size payload_size IS_PROTOCOL_CHALLENGE_SIZE in
    let nonce := buf_read payload 0 IS_PROTOCOL_NONCE_SIZE in
    guard! is_reserved_zero payload (IS_PROTOCOL_NONCE_SIZE + 2) 2
      else IS_PROTOCOL_INVALID_PAYLOAD in
    let negotiated_minor := is_get_u16 payload IS_PROTOCOL_NONCE_SIZE in
    guard! is_minor_valid negotiated_minor else IS_PROTOCOL_INVALID_PAYLOAD in
    inr (payload_challenge {| challenge_nonce := nonce;
                              challenge_negotiated_minor := negotiated_minor |})
  else if type =? IS_PROTOCOL_MSG_AUTH then
    let! _ := is_require_payload_size payload_size IS_PROTOCOL_AUTH_TAG_SIZE in
    inr (payload_auth {| auth_tag := buf_read payload 0 IS_PROTOCOL_AUTH_TAG_SIZE |})
  else if type =? IS_PROTOCOL_MSG_ACCEPT then
    let! _ := is_require_payload_size payload_size IS_PROTOCOL_ACCEPT_SIZE in
    guard! is_reserved_zero payload 2 2 else IS_PROTOCOL_INVALID_PAYLOAD in
    let negotiated_minor := is_get_u16 payload 0 in
    guard! is_minor_valid negotiated_minor else IS_PROTOCOL_INVALID_PAYLOAD in
    inr (payload_accept {| accept_negotiated_minor := negotiated_minor |})
  else if (type =? IS_PROTOCOL_MSG_STATUS_REQUEST) || (type =? IS_PROTOCOL_MSG_GOODBYE) then
    let! _ := is_require_payload_size payload_size 0 in
    inr payload_none
  else if type =? IS_PROTOCOL_MSG_STATUS_RESPONSE then
    let! _ := is_require_payload_size payload_size IS_PROTOCOL_STATUS_SIZE in
    let status := {|
      status_available_opportunistic_chunks := is_get_u32 payload 0;
      status_available_committed_chunks := is_get_u32 payload 4;
      status_provider_failure_deadline_ms := is_get_u32 payload 8;
      status_flags := is_get_u32 payload 12 |} in
    guard! is_deadline_valid (status_provider_failure_deadline_ms status)
      else IS_PROTOCOL_INVALID_PAYLOAD in
    inr (payload_status status)
  else if type =? IS_PROTOCOL_MSG_CHUNK_REQUEST then
    let! _ := is_require_payload_size payload_size IS_PROTOCOL_CHUNK_REQUEST_SIZE in
    let request := {|
      request_chunk_count := is_get_u32 payload 0;
      request_logical_start := is_get_u32 payload 4;
      request_pool := byte_at payload 8 |} in
    guard! is_reserved_zero payload 9 3 else IS_PROTOCOL_INVALID_PAYLOAD in
    guard! chunk_request_valid request else IS_PROTOCOL_INVALID_PAYLOAD in
    inr (payload_chunk_request request)
  else if type =? IS_PROTOCOL_MSG_CHUNK_GRANT then
    if payload_size <? IS_PROTOCOL_CHUNK_LIST_HEADER_SIZE
    then inl IS_PROTOCOL_INVALID_PAYLOAD
    else
      let chunk_count := is_get_u16 payload 0 in
      guard! is_reserved_zero payload 2 2 else IS_PROTOCOL_INVALID_PAYLOAD in
      let! _ := is_counted_payload_size payload_size chunk_count IS_PROTOCOL_CHUNK_SIZE in
      let! chunks := for_err (Z.to_nat chunk_count) 0 (fun index chunks =>
        let entry := IS_PROTOCOL_CHUNK_LIST_HEADER_SIZE + index * IS_PROTOCOL_CHUNK_SIZE in
        let chunk := decode_chunk_entry payload entry in
        let chunks := set_at chunks index chunk in
        if negb (is_reserved_zero payload (entry + 21) 3) || negb (chunk_entry_valid chunk)
        then inl IS_PROTOCOL_INVALID_PAYLOAD
        else if chunk_seen chunks index then inl IS_PROTOCOL_INVALID_PAYLOAD
        else inr chunks) zero_chunks in
      inr (payload_chunk_grant {| grant_chunk_count := chunk_count; grant_chunks := chunks |})
  else if (type =? IS_PROTOCOL_MSG_EVICT) || (type =? IS_PROTOCOL_MSG_RELEASE) then
    let! ids := is_decode_chunk_ids payload payload_size in
    inr (payload_chunk_ids ids)
  else if type =? IS_PROTOCOL_MSG_ACTIVITY then
    if payload_size <? IS_PROTOCOL_CHUNK_LIST_HEADER_SIZE
    then inl IS_PROTOCOL_INVALID_PAYLOAD
    else
      let chunk_count := is_get_u16 payload 0 in
      guard! is_reserved_zero payload 2 2 else IS_PROTOCOL_INVALID_PAYLOAD in
      let! _ := is_counted_payload_size payload_size chunk_count IS_PROTOCOL_ACTIVITY_SIZE in
      let! chunks := for_err (Z.to_nat chunk_count) 0 (fun index chunks =>
        let entry := IS_PROTOCOL_CHUNK_LIST_HEADER_SIZE + index * IS_PROTOCOL_ACTIVITY_SIZE in
        let chunks := set_at chunks index (decode_activity_entry payload entry) in
        if activity_seen chunks index then inl IS_PROTOCOL_INVALID_PAYLOAD
        else inr chunks) zero_activities in
      inr (payload_activity {| activity_chunk_count := chunk_count;
                               activity_chunks := chunks |})
  else if type =? IS_PROTOCOL_MSG_ERROR then
    let! _ := is_require_payload_size payload_size IS_PROTOCOL_ERROR_SIZE in
    let error := {|
      error_code := is_get_u16 payload 0;
      error_offending_type := is_get_u16 payload 2;
      error_retryable := byte_at payload 4 |} in
    guard! is_reserved_zero payload 5 3 else IS_PROTOCOL_INVALID_PAYLOAD in
    guard! error_valid error else IS_PROTOCOL_INVALID_PAYLOAD in
    inr (payload_error error)
  else inl IS_PROTOCOL_UNKNOWN_MESSAGE.

(** [inl] is the result code of a failed decode (the message is then not
    meaningful), [inr] the decoded message of [IS_PROTOCOL_OK]. *)
Definition is_protocol_decode `{ProtocolBuild} (frame : option (list Z)) (frame_size : Z) :
    is_protocol_result + is_protocol_message :=
  match frame with
  | None => inl IS_PROTOCOL_INVALID_ARGUMENT
  | Some frame =>
      if frame_size >? IS_PROTOCOL_MAX_FRAME_SIZE then inl IS_PROTOCOL_OVERSIZED
      else
        let! (header, payload_size) := is_decode_header frame frame_size in
        let! p := is_decode_payload (drop (Z.to_nat IS_PROTOCOL_HEADER_SIZE) frame)
                    payload_size (hdr_type header) in
        inr {| msg_header := header; msg_payload := p |}
  end.

(** ** Negotiation (infiniswap_protocol.c:784-816) *)

Definition is_protocol_negotiate `{ProtocolBuild}
    (local_minor local_capabilities local_required_capabilities : Z)
    (peer_minor peer_capabilities peer_required_capabilities : Z) :
    is_protocol_result + (Z * Z) :=
  if negb (is_minor_valid local_minor) || negb (is_minor_valid peer_minor) ||
     ((if local_minor >? peer_minor then local_minor - peer_minor
       else peer_minor - local_minor) >? 1)
  then inl IS_PROTOCOL_UNSUPPORTED_VERSION
  else if negb (andnot64 (Z.lor local_required_capabilities peer_required_capabilities)
                  IS_PROTOCOL_CAP_KNOWN =? 0)
  then inl IS_PROTOCOL_UNKNOWN_REQUIRED_CAPABILITY
  else if negb (andnot64 local_required_capabilities local_capabilities =? 0) ||
          negb (andnot64 peer_required_capabilities peer_capabilities =? 0)
  then inl IS_PROTOCOL_INVALID_CAPABILITIES
  else
    let shared := Z.land local_capabilities peer_capabilities in
    if negb (andnot64 (Z.lor local_required_capabilities peer_required_capabilities)
               shared =? 0)
    then inl IS_PROTOCOL_UNKNOWN_REQUIRED_CAPABILITY
    else inr (if local_minor <? peer_minor then local_minor else peer_minor, shared).

(** ** Result names (infiniswap_protocol.c:818-830) *)

Definition is_protocol_result_value (result : is_protocol_result) : Z :=
  match result with
  | IS_PROTOCOL_OK => 0
  | IS_PROTOCOL_INVALID_ARGUMENT => 1
  | IS_PROTOCOL_BUFFER_TOO_SMALL => 2
  | IS_PROTOCOL_BAD_MAGIC => 3
  | IS_PROTOCOL_UNSUPPORTED_VERSION => 4
  | IS_PROTOCOL_OVERSIZED => 5
  | IS_PROTOCOL_TRUNCATED => 6
  | IS_PROTOCOL_TRAILING_DATA => 7
  | IS_PROTOCOL_UNKNOWN_MESSAGE => 8
  | IS_PROTOCOL_UNKNOWN_REQUIRED_CAPABILITY => 9
  | IS_PROTOCOL_INVALID_CAPABILITIES => 10
  | IS_PROTOCOL_INVALID_PAYLOAD => 11
  | IS_PROTOCOL_INTEGER_OVERFLOW => 12
  end.

Definition result_names : list string :=
  ["ok"; "invalid argument"; "buffer too small"; "bad magic"; "unsupported version";
   "oversized frame"; "truncated frame"; "trailing data"; "unknown message";
   "unknown required capability"; "invalid capabilities"; "invalid payload";
   "integer overflow"]%string.

(** The argument is the enumeration's integer, which may be out of range. *)
Definition is_protocol_result_name (result : Z) : string :=
  if u32 result >=? Z.of_nat (length result_names) then "unknown protocol result"%string
  else nth (Z.to_nat result) result_names EmptyString.
