(* ===== verification/ProtocolWire.v ===== *)
(** * The wire format of the control protocol

    The byte sequence that [docs/control-protocol.md] describes, as a pure
    function of the message, and the lemmas that relate the readers and
    writers of [Protocol] to it: the encoder writes exactly [wire_frame], and
    every accessor inverts the corresponding block. *)
From S2P Require Import Prelude Protocol.

(** ** Big-endian blocks *)

Definition be16 (v : Z) : list Z := [u8 (Z.shiftr v 8); u8 v].
Definition be32 (v : Z) : list Z :=
  [u8 (Z.shiftr v 24); u8 (Z.shiftr v 16); u8 (Z.shiftr v 8); u8 v].
Definition be64 (v : Z) : list Z := be32 (u32 (Z.shiftr v 32)) ++ be32 (u32 v).

Lemma lor_shiftl_add a b n : 0 <= n -> 0 <= b < 2 ^ n ->
  Z.lor (Z.shiftl a n) b = a * 2 ^ n + b.
Proof.
  intros Hn Hb. rewrite <- Z.shiftl_mul_pow2 by lia.
  assert (Hland : Z.land (Z.shiftl a n) b = 0).
  { apply Z.bits_inj'. intros i Hi. rewrite Z.land_spec, Z.bits_0.
    destruct (decide (i < n)).
    - rewrite Z.shiftl_spec_low by lia. done.
    - rewrite <- (Z.mod_small b (2 ^ n)) by lia.
      rewrite Z.mod_pow2_bits_high by lia. apply andb_false_r. }
  rewrite Z.add_nocarry_lxor by done. symmetry. by apply Z.lxor_lor.
Qed.

(** The value of the four-byte reader on bytes. *)
Lemma is_get_u32_value l off : is_bytes l ->
  is_get_u32 l off =
    byte_at l off * 2 ^ 24 + byte_at l (off + 1) * 2 ^ 16 +
    byte_at l (off + 2) * 2 ^ 8 + byte_at l (off + 3).
Proof.
  intros Hl. unfold is_get_u32.
  pose proof (byte_at_range l off Hl) as H0.
  pose proof (byte_at_range l (off + 1) Hl) as H1.
  pose proof (byte_at_range l (off + 2) Hl) as H2.
  pose proof (byte_at_range l (off + 3) Hl) as H3.
  revert H0 H1 H2 H3.
  generalize (byte_at l off), (byte_at l (off + 1)), (byte_at l (off + 2)), (byte_at l (off + 3)).
  intros a b c d Ha Hb Hc Hd. unfold in_u in *.
  rewrite !(wrap_small 32) by (unfold in_u; rewrite Z.shiftl_mul_pow2 by lia; div_mod_lia).
  rewrite (Z.shiftl_mul_pow2 b 16), (Z.shiftl_mul_pow2 c 8) by lia.
  rewrite (lor_shiftl_add a) by (try lia; div_mod_lia).
  replace (a * 2 ^ 24 + b * 2 ^ 16) with (Z.shiftl (a * 2 ^ 8 + b) 16)
    by (rewrite Z.shiftl_mul_pow2 by lia; pow_lia).
  rewrite lor_shiftl_add by (try lia; div_mod_lia).
  replace ((a * 2 ^ 8 + b) * 2 ^ 16 + c * 2 ^ 8)
    with (Z.shiftl ((a * 2 ^ 8 + b) * 2 ^ 8 + c) 8)
    by (rewrite Z.shiftl_mul_pow2 by lia; pow_lia).
  rewrite lor_shiftl_add by (try lia; div_mod_lia).
  rewrite ?Z.shiftl_mul_pow2 by lia. pow_lia.
Qed.

Lemma is_get_u16_value l off : is_bytes l ->
  is_get_u16 l off = byte_at l off * 2 ^ 8 + byte_at l (off + 1).
Proof.
  intros Hl. unfold is_get_u16.
  pose proof (byte_at_range l off Hl) as H0.
  pose proof (byte_at_range l (off + 1) Hl) as H1.
  unfold in_u in *. rewrite lor_shiftl_add by (try lia; div_mod_lia).
  apply wrap_small. unfold in_u. div_mod_lia.
Qed.

Lemma is_get_u32_range l off : is_bytes l -> is_u32 (is_get_u32 l off).
Proof.
  intros Hl. rewrite is_get_u32_value by done.
  pose proof (byte_at_range l off Hl). pose proof (byte_at_range l (off + 1) Hl).
  pose proof (byte_at_range l (off + 2) Hl). pose proof (byte_at_range l (off + 3) Hl).
  unfold in_u in *. div_mod_lia.
Qed.

Lemma is_get_u16_range l off : is_u16 (is_get_u16 l off).
Proof. apply wrap_in_u. lia. Qed.

Lemma is_get_u64_value l off : is_bytes l ->
  is_get_u64 l off = is_get_u32 l off * 2 ^ 32 + is_get_u32 l (off + 4).
Proof.
  intros Hl. unfold is_get_u64.
  pose proof (is_get_u32_range l off Hl) as H0.
  pose proof (is_get_u32_range l (off + 4) Hl) as H1.
  unfold in_u in *. rewrite wrap_small.
  - rewrite lor_shiftl_add by lia. done.
  - unfold in_u. rewrite Z.shiftl_mul_pow2 by lia. div_mod_lia.
Qed.

Lemma is_get_u64_range l off : is_bytes l -> is_u64 (is_get_u64 l off).
Proof.
  intros Hl. rewrite is_get_u64_value by done.
  pose proof (is_get_u32_range l off Hl). pose proof (is_get_u32_range l (off + 4) Hl).
  unfold in_u in *. div_mod_lia.
Qed.

(** ** Blocks are bytes *)

Lemma be16_bytes v : is_bytes (be16 v).
Proof. repeat constructor; unfold_widths; div_mod_lia. Qed.
Lemma be32_bytes v : is_bytes (be32 v).
Proof. repeat constructor; unfold_widths; div_mod_lia. Qed.
Lemma be64_bytes v : is_bytes (be64 v).
Proof. apply Forall_app; split; apply be32_bytes. Qed.
Lemma zeros_bytes n : is_bytes (zeros n).
Proof. apply Forall_replicate. unfold in_u. lia. Qed.

Lemma is_bytes_app l k : is_bytes (l ++ k) <-> is_bytes l /\ is_bytes k.
Proof. apply Forall_app. Qed.
Lemma is_bytes_cons b l : is_bytes (b :: l) <-> is_u8 b /\ is_bytes l.
Proof. apply Forall_cons_iff. Qed.
Lemma is_bytes_nil : is_bytes [].
Proof. constructor. Qed.
Lemma is_bytes_take n l : is_bytes l -> is_bytes (take n l).
Proof. apply Forall_take. Qed.
Lemma is_bytes_drop n l : is_bytes l -> is_bytes (drop n l).
Proof. apply Forall_drop. Qed.
Lemma is_bytes_buf_read l off n : is_bytes l -> is_bytes (buf_read l off n).
Proof. intros. by apply is_bytes_take, is_bytes_drop. Qed.
Lemma is_bytes_concat_map {A} (f : A -> list Z) l :
  (forall x, is_bytes (f x)) -> is_bytes (concat (map f l)).
Proof. intros Hf. induction l; cbn; [constructor|]. apply is_bytes_app. done. Qed.

Create HintDb wire.
#[export] Hint Resolve be16_bytes be32_bytes be64_bytes zeros_bytes is_bytes_nil
  is_bytes_take is_bytes_drop is_bytes_buf_read : wire.
#[export] Hint Extern 2 (is_bytes (_ ++ _)) => apply is_bytes_app; split : wire.
#[export] Hint Extern 2 (is_bytes (_ :: _)) => apply is_bytes_cons; split : wire.

(** ** Reading a block that was written *)

Lemma is_get_u16_be16 v post : is_u16 v -> is_bytes post ->
  is_get_u16 (be16 v ++ post) 0 = v.
Proof.
  intros Hv Hpost. rewrite is_get_u16_value by auto with wire.
  change (u8 (Z.shiftr v 8) * 2 ^ 8 + u8 v = v). unfold_widths. div_mod_lia.
Qed.

Lemma is_get_u32_be32 v post : is_u32 v -> is_bytes post ->
  is_get_u32 (be32 v ++ post) 0 = v.
Proof.
  intros Hv Hpost. rewrite is_get_u32_value by auto with wire.
  change (u8 (Z.shiftr v 24) * 2 ^ 24 + u8 (Z.shiftr v 16) * 2 ^ 16 +
          u8 (Z.shiftr v 8) * 2 ^ 8 + u8 v = v). unfold_widths. div_mod_lia.
Qed.

Lemma byte_at_cons b post : byte_at (b :: post) 0 = b.
Proof. done. Qed.

(** Every reader commutes with skipping a prefix. *)
Lemma is_get_u16_skip pre l off : Z.of_nat (length pre) <= off ->
  is_get_u16 (pre ++ l) off = is_get_u16 l (off - Z.of_nat (length pre)).
Proof.
  intros H. unfold is_get_u16. rewrite !byte_at_app_r by lia.
  do 3 f_equal. lia.
Qed.

Lemma is_get_u32_skip pre l off : Z.of_nat (length pre) <= off ->
  is_get_u32 (pre ++ l) off = is_get_u32 l (off - Z.of_nat (length pre)).
Proof.
  intros H. unfold is_get_u32. rewrite !byte_at_app_r by lia.
  repeat (f_equal; try lia).
Qed.

Lemma is_get_u64_skip pre l off : Z.of_nat (length pre) <= off ->
  is_get_u64 (pre ++ l) off = is_get_u64 l (off - Z.of_nat (length pre)).
Proof.
  intros H. unfold is_get_u64. rewrite !is_get_u32_skip by lia.
  repeat (f_equal; try lia).
Qed.

Lemma is_get_u64_be64 v post : is_u64 v -> is_bytes post ->
  is_get_u64 (be64 v ++ post) 0 = v.
Proof.
  intros Hv Hpost. rewrite is_get_u64_value by auto with wire.
  unfold be64. rewrite <- app_assoc.
  rewrite is_get_u32_be32 by (auto with wire; apply wrap_in_u; lia).
  rewrite is_get_u32_skip by (cbn; lia). cbn [length be32 Z.of_nat Pos.of_succ_nat Pos.succ].
  change (0 + 4 - 4) with 0.
  rewrite is_get_u32_be32 by (auto with wire; apply wrap_in_u; lia).
  unfold_widths. div_mod_lia.
Qed.

(** ** The frame as a function of the message *)

Definition header_bytes (h : is_protocol_header) (payload_size : Z) : list Z :=
  be32 IS_PROTOCOL_MAGIC ++ be16 (hdr_major h) ++ be16 (hdr_minor h) ++
  be16 (hdr_type h) ++ be16 (hdr_flags h) ++ be32 (u32 payload_size) ++
  be64 (hdr_request_id h) ++ be64 (hdr_session_id h) ++
  be64 (hdr_capabilities h) ++ be64 (hdr_required_capabilities h).

Definition chunk_bytes (c : is_protocol_chunk) : list Z :=
  be32 (chunk_logical_chunk_id c) ++ be32 (chunk_provider_chunk_id c) ++
  be64 (chunk_remote_address c) ++ be32 (chunk_remote_key c) ++ [chunk_pool c; 0; 0; 0].

Definition activity_bytes (a : is_protocol_chunk_activity) : list Z :=
  be32 (activity_provider_chunk_id a) ++ be64 (activity_activity a).

(** A counted list of entries: count, two reserved bytes, entries. *)
Definition counted_bytes (count : Z) (entry : Z -> list Z) : list Z :=
  be16 count ++ be16 0 ++ concat (map entry (seqZ 0 count)).

Definition payload_bytes (m : is_protocol_message) (consumer_length key_length : Z) : list Z :=
  let type := hdr_type (msg_header m) in
  let p := msg_payload m in
  if type =? IS_PROTOCOL_MSG_HELLO then
    let h := get_hello p in
    [u8 consumer_length] ++ [u8 key_length] ++ [hello_mode h] ++ [hello_pool h] ++
    be32 (hello_failure_deadline_ms h) ++ buf_read (hello_nonce h) 0 32 ++
    buf_read (hello_consumer_id h) 0 consumer_length ++ buf_read (hello_key_id h) 0 key_length
  else if type =? IS_PROTOCOL_MSG_CHALLENGE then
    let c := get_challenge p in
    buf_read (challenge_nonce c) 0 32 ++ be16 (challenge_negotiated_minor c) ++ be16 0
  else if type =? IS_PROTOCOL_MSG_AUTH then buf_read (auth_tag (get_auth p)) 0 32
  else if type =? IS_PROTOCOL_MSG_ACCEPT then
    be16 (accept_negotiated_minor (get_accept p)) ++ be16 0
  else if type =? IS_PROTOCOL_MSG_STATUS_RESPONSE then
    let s := get_status p in
    be32 (status_available_opportunistic_chunks s) ++
    be32 (status_available_committed_chunks s) ++
    be32 (status_provider_failure_deadline_ms s) ++ be32 (status_flags s)
  else if type =? IS_PROTOCOL_MSG_CHUNK_REQUEST then
    let r := get_chunk_request p in
    be32 (request_chunk_count r) ++ be32 (request_logical_start r) ++
    [request_pool r] ++ [0] ++ [0] ++ [0]
  else if type =? IS_PROTOCOL_MSG_CHUNK_GRANT then
    let g := get_chunk_grant p in
    counted_bytes (grant_chunk_count g) (fun i => chunk_bytes (chunk_at (grant_chunks g) i))
  else if (type =? IS_PROTOCOL_MSG_EVICT) || (type =? IS_PROTOCOL_MSG_RELEASE) then
    let ids := get_chunk_ids p in
    counted_bytes (ids_chunk_count ids) (fun i => be32 (word_at (ids_chunk_ids ids) i))
  else if type =? IS_PROTOCOL_MSG_ACTIVITY then
    let a := get_activity p in
    counted_bytes (activity_chunk_count a)
      (fun i => activity_bytes (activity_at (activity_chunks a) i))
  else if type =? IS_PROTOCOL_MSG_ERROR then
    let e := get_error p in
    be16 (error_code e) ++ be16 (error_offending_type e) ++
    [error_retryable e] ++ [0] ++ [0] ++ [0]
  else [].

(** ** The encoder writes the frame *)

Lemma is_put_u64_be64 out off v : 0 <= off -> is_put_u64 out off v = buf_write out off (be64 v).
Proof. intros H. unfold is_put_u64, is_put_u32. by rewrite buf_write_app by (cbn; lia). Qed.

Ltac unfold_sizes :=
  unfold IS_PROTOCOL_HELLO_FIXED_SIZE, IS_PROTOCOL_CHALLENGE_SIZE, IS_PROTOCOL_ACCEPT_SIZE,
    IS_PROTOCOL_STATUS_SIZE, IS_PROTOCOL_CHUNK_REQUEST_SIZE,
    IS_PROTOCOL_CHUNK_LIST_HEADER_SIZE, IS_PROTOCOL_CHUNK_SIZE, IS_PROTOCOL_CHUNK_ID_SIZE,
    IS_PROTOCOL_ACTIVITY_SIZE, IS_PROTOCOL_ERROR_SIZE, IS_PROTOCOL_NONCE_SIZE,
    IS_PROTOCOL_AUTH_TAG_SIZE, IS_PROTOCOL_HEADER_SIZE, IS_PROTOCOL_MAX_FRAME_SIZE,
    IS_PROTOCOL_MAX_CHUNKS_PER_FRAME, IS_PROTOCOL_CONSUMER_ID_MAX, IS_PROTOCOL_KEY_ID_MAX in *.

(** [fuse] merges adjacent writes into one. *)
Ltac fuse :=
  unfold is_put_u16, is_put_u32, put_u8;
  rewrite ?is_put_u64_be64 by lia;
  repeat (rewrite buf_write_app by
    (try lia; rewrite ?length_app, ?length_buf_read by lia; cbn; lia));
  rewrite <- ?app_assoc.

Lemma is_encode_header_bytes h n frame :
  is_encode_header h n frame = buf_write frame 0 (header_bytes h n).
Proof. unfold is_encode_header. fuse. done. Qed.

Lemma length_header_bytes h n : length (header_bytes h n) = 48%nat.
Proof. done. Qed.

Lemma for_loop_writes n i body base sz f buf :
  0 <= i -> 0 <= base -> 0 <= sz ->
  (forall j b, 0 <= j -> body j b = buf_write b (base + j * sz) (f j)) ->
  (forall j, length (f j) = Z.to_nat sz) ->
  for_loop n i body buf =
    buf_write buf (base + i * sz) (concat (map f (seqZ i (Z.of_nat n)))).
Proof.
  intros Hi Hbase Hsz Hbody Hlen. revert i buf Hi. induction n as [|n IH]; intros i buf Hi.
  - done.
  - cbn [for_loop]. rewrite Hbody, IH by lia.
    rewrite (seqZ_cons i) by lia. cbn [map concat].
    rewrite buf_write_app by (nia || rewrite Hlen; lia).
    replace (Z.succ i) with (i + 1) by lia.
    by replace (Z.pred (Z.of_nat (S n))) with (Z.of_nat n) by lia.
Qed.

(** The body of a counted list. *)
Lemma encode_counted count body sz f frame :
  0 <= count -> 0 <= sz ->
  (forall j b, 0 <= j -> body j b = buf_write b (48 + 4 + j * sz) (f j)) ->
  (forall j, length (f j) = Z.to_nat sz) ->
  for_loop (Z.to_nat count) 0 body (is_put_u16 (is_put_u16 frame 48 count) (48 + 2) 0)
  = buf_write frame 48 (counted_bytes count f).
Proof.
  intros Hc Hsz Hbody Hlen. unfold is_put_u16.
  rewrite (for_loop_writes _ _ _ (48 + 4) sz f) by (done || lia).
  rewrite Z2Nat.id by lia.
  rewrite !buf_write_app by (cbn; lia). done.
Qed.

Ltac case_type :=
  repeat match goal with
  | |- context [if ?b then _ else _] => destruct b eqn:?
  end.

Definition payload_counts_nonneg (m : is_protocol_message) : Prop :=
  0 <= grant_chunk_count (get_chunk_grant (msg_payload m)) /\
  0 <= ids_chunk_count (get_chunk_ids (msg_payload m)) /\
  0 <= activity_chunk_count (get_activity (msg_payload m)).

Lemma is_encode_payload_bytes m c k frame :
  payload_counts_nonneg m ->
  length (hello_nonce (get_hello (msg_payload m))) = 32%nat ->
  length (challenge_nonce (get_challenge (msg_payload m))) = 32%nat ->
  0 <= c <= Z.of_nat (length (hello_consumer_id (get_hello (msg_payload m)))) ->
  is_encode_payload m c k frame IS_PROTOCOL_HEADER_SIZE
  = buf_write frame IS_PROTOCOL_HEADER_SIZE (payload_bytes m c k).
Proof.
  intros (Hg & Hi & Ha) Hn Hcn Hc. unfold is_encode_payload, payload_bytes. unfold_sizes.
  unfold is_encode_chunk_ids. unfold_sizes.
  case_type; try (fuse; done).
  - apply (encode_counted _ _ 24); [lia|lia| |done]. intros j b Hj. unfold encode_chunk_entry. by fuse.
  - apply (encode_counted _ _ 4); [lia|lia| |done]. intros j b Hj. by fuse.
  - apply (encode_counted _ _ 12); [lia|lia| |done]. intros j b Hj. unfold encode_activity_entry. by fuse.
Qed.

(** ** Automation for reading a concatenation of blocks *)

Lemma buf_read_skip pre l off n : 0 <= n -> Z.of_nat (length pre) <= off ->
  buf_read (pre ++ l) off n = buf_read l (off - Z.of_nat (length pre)) n.
Proof.
  intros Hn H. unfold buf_read. f_equal. rewrite drop_app_ge by lia. f_equal. lia.
Qed.

Lemma buf_read_block bs post n : Z.of_nat (length bs) = n -> buf_read (bs ++ post) 0 n = bs.
Proof.
  intros <-. unfold buf_read. rewrite Nat2Z.id. apply take_app_length.
Qed.

Lemma is_reserved_zero_skip pre l off n : Z.of_nat (length pre) <= off ->
  is_reserved_zero (pre ++ l) off n = is_reserved_zero l (off - Z.of_nat (length pre)) n.
Proof.
  intros H. unfold is_reserved_zero. f_equal. apply exists_below_ext.
  intros j Hj. rewrite byte_at_app_r by lia. do 3 f_equal. lia.
Qed.

Ltac norm_offset off :=
  let o := eval vm_compute in off in progress (change off with o).

(** One step of evaluating a reader on [block ++ rest]. *)
Ltac read_step :=
  match goal with
  | |- context [is_get_u16 (be16 ?v ++ ?post) 0] =>
      rewrite (is_get_u16_be16 v post) by (assumption || auto 40 with wire)
  | |- context [is_get_u32 (be32 ?v ++ ?post) 0] =>
      rewrite (is_get_u32_be32 v post) by (assumption || auto 40 with wire)
  | |- context [is_get_u64 (be64 ?v ++ ?post) 0] =>
      rewrite (is_get_u64_be64 v post) by (assumption || auto 40 with wire)
  | |- context [byte_at ([?b] ++ ?post) 0] => change (byte_at ([b] ++ post) 0) with b
  | |- context [is_get_u16 (?pre ++ ?l) ?off] =>
      rewrite (is_get_u16_skip pre l off) by (cbn; lia);
      norm_offset (off - Z.of_nat (length pre))
  | |- context [is_get_u32 (?pre ++ ?l) ?off] =>
      rewrite (is_get_u32_skip pre l off) by (cbn; lia);
      norm_offset (off - Z.of_nat (length pre))
  | |- context [is_get_u64 (?pre ++ ?l) ?off] =>
      rewrite (is_get_u64_skip pre l off) by (cbn; lia);
      norm_offset (off - Z.of_nat (length pre))
  | |- context [byte_at (?pre ++ ?l) ?off] =>
      rewrite (byte_at_app_r pre l off) by (cbn; lia);
      norm_offset (off - Z.of_nat (length pre))
  end.
Ltac read_blocks := repeat read_step.

(** * Theorems about the control protocol codec

    Round trip (every encodable message decodes to itself), canonicity (every
    accepted frame is the encoding of the message it decodes to), bounds, and
    version and capability negotiation. *)

(** ** Well-formed messages: the C types as ranges and array lengths *)

Definition wf_header (h : is_protocol_header) : Prop :=
  is_u16 (hdr_major h) /\ is_u16 (hdr_minor h) /\ is_u16 (hdr_type h) /\
  is_u16 (hdr_flags h) /\ is_u64 (hdr_request_id h) /\ is_u64 (hdr_session_id h) /\
  is_u64 (hdr_capabilities h) /\ is_u64 (hdr_required_capabilities h).

Definition wf_chunk (c : is_protocol_chunk) : Prop :=
  is_u32 (chunk_logical_chunk_id c) /\ is_u32 (chunk_provider_chunk_id c) /\
  is_u64 (chunk_remote_address c) /\ is_u32 (chunk_remote_key c) /\ is_u8 (chunk_pool c).

Definition wf_activity (a : is_protocol_chunk_activity) : Prop :=
  is_u32 (activity_provider_chunk_id a) /\ is_u64 (activity_activity a).

Definition wf_payload (p : is_protocol_payload) : Prop :=
  match p with
  | payload_none => True
  | payload_hello h =>
      length (hello_consumer_id h) = 64%nat /\ is_bytes (hello_consumer_id h) /\
      length (hello_key_id h) = 32%nat /\ is_bytes (hello_key_id h) /\
      length (hello_nonce h) = 32%nat /\ is_bytes (hello_nonce h) /\
      is_u8 (hello_mode h) /\ is_u8 (hello_pool h) /\ is_u32 (hello_failure_deadline_ms h)
  | payload_challenge c =>
      length (challenge_nonce c) = 32%nat /\ is_bytes (challenge_nonce c) /\
      is_u16 (challenge_negotiated_minor c)
  | payload_auth a => length (auth_tag a) = 32%nat /\ is_bytes (auth_tag a)
  | payload_accept a => is_u16 (accept_negotiated_minor a)
  | payload_status s =>
      is_u32 (status_available_opportunistic_chunks s) /\
      is_u32 (status_available_committed_chunks s) /\
      is_u32 (status_provider_failure_deadline_ms s) /\ is_u32 (status_flags s)
  | payload_chunk_request r =>
      is_u32 (request_chunk_count r) /\ is_u32 (request_logical_start r) /\
      is_u8 (request_pool r)
  | payload_chunk_grant g =>
      is_u16 (grant_chunk_count g) /\ length (grant_chunks g) = 128%nat /\
      Forall wf_chunk (grant_chunks g)
  | payload_chunk_ids i =>
      is_u16 (ids_chunk_count i) /\ length (ids_chunk_ids i) = 128%nat /\
      Forall is_u32 (ids_chunk_ids i)
  | payload_activity a =>
      is_u16 (activity_chunk_count a) /\ length (activity_chunks a) = 128%nat /\
      Forall wf_activity (activity_chunks a)
  | payload_error e =>
      is_u16 (error_code e) /\ is_u16 (error_offending_type e) /\ is_u8 (error_retryable e)
  end.

(** The union holds the member that [header.type] designates. *)
Definition payload_matches (type : Z) (p : is_protocol_payload) : bool :=
  match p with
  | payload_none => (type =? IS_PROTOCOL_MSG_STATUS_REQUEST) || (type =? IS_PROTOCOL_MSG_GOODBYE)
  | payload_hello _ => type =? IS_PROTOCOL_MSG_HELLO
  | payload_challenge _ => type =? IS_PROTOCOL_MSG_CHALLENGE
  | payload_auth _ => type =? IS_PROTOCOL_MSG_AUTH
  | payload_accept _ => type =? IS_PROTOCOL_MSG_ACCEPT
  | payload_status _ => type =? IS_PROTOCOL_MSG_STATUS_RESPONSE
  | payload_chunk_request _ => type =? IS_PROTOCOL_MSG_CHUNK_REQUEST
  | payload_chunk_grant _ => type =? IS_PROTOCOL_MSG_CHUNK_GRANT
  | payload_chunk_ids _ => (type =? IS_PROTOCOL_MSG_EVICT) || (type =? IS_PROTOCOL_MSG_RELEASE)
  | payload_activity _ => type =? IS_PROTOCOL_MSG_ACTIVITY
  | payload_error _ => type =? IS_PROTOCOL_MSG_ERROR
  end.

Definition wf_message (m : is_protocol_message) : Prop :=
  wf_header (msg_header m) /\ wf_payload (msg_payload m) /\
  payload_matches (hdr_type (msg_header m)) (msg_payload m) = true.

(** What the wire carries of a message: the bytes of an identifier after its
    terminator and the entries of an array beyond its count are dropped. *)
Definition canonical_string (arr : list Z) (maximum : Z) : list Z :=
  let n := is_bounded_string_length arr maximum in
  take (Z.to_nat n) arr ++ zeros (Z.to_nat (maximum + 1) - Z.to_nat n).

Definition canonical_array {A} (d : A) (arr : list A) (count : Z) : list A :=
  take (Z.to_nat count) arr ++ replicate (128 - Z.to_nat count) d.

Definition canonical_payload (p : is_protocol_payload) : is_protocol_payload :=
  match p with
  | payload_hello h =>
      payload_hello {|
        hello_consumer_id := canonical_string (hello_consumer_id h) IS_PROTOCOL_CONSUMER_ID_MAX;
        hello_key_id := canonical_string (hello_key_id h) IS_PROTOCOL_KEY_ID_MAX;
        hello_nonce := hello_nonce h; hello_mode := hello_mode h;
        hello_pool := hello_pool h;
        hello_failure_deadline_ms := hello_failure_deadline_ms h |}
  | payload_chunk_grant g =>
      payload_chunk_grant {|
        grant_chunk_count := grant_chunk_count g;
        grant_chunks := canonical_array zero_chunk (grant_chunks g) (grant_chunk_count g) |}
  | payload_chunk_ids i =>
      payload_chunk_ids {|
        ids_chunk_count := ids_chunk_count i;
        ids_chunk_ids := canonical_array 0 (ids_chunk_ids i) (ids_chunk_count i) |}
  | payload_activity a =>
      payload_activity {|
        activity_chunk_count := activity_chunk_count a;
        activity_chunks := canonical_array zero_chunk_activity (activity_chunks a)
                             (activity_chunk_count a) |}
  | p => p
  end.

Definition canonical_message (m : is_protocol_message) : is_protocol_message :=
  {| msg_header := msg_header m; msg_payload := canonical_payload (msg_payload m) |}.

(** ** Identifiers *)

Lemma bounded_string_length_from_spec value fuel i :
  let n := bounded_string_length_from value fuel i in
  i <= n <= i + Z.of_nat fuel /\
  (forall j, i <= j < n -> byte_at value j <> 0) /\
  (n < i + Z.of_nat fuel -> byte_at value n = 0).
Proof.
  revert i. induction fuel as [|fuel IH]; intros i; cbn [bounded_string_length_from].
  - cbn. split_and!; [lia|lia|lia|lia].
  - destruct (byte_at value i =? 0) eqn:E.
    + cbn. split_and!; [lia|lia|lia|]. by rewrite Z.eqb_eq in E.
    + apply Z.eqb_neq in E. destruct (IH (i + 1)) as (H1 & H2 & H3).
      split_and!; [lia|lia| |].
      * intros j Hj. destruct (decide (j = i)) as [->|]; [done|]. apply H2. lia.
      * intros H. apply H3. lia.
Qed.

Lemma bounded_string_length_spec value maximum :
  0 <= maximum ->
  let n := is_bounded_string_length value maximum in
  0 <= n <= maximum + 1 /\
  (forall j, 0 <= j < n -> byte_at value j <> 0) /\
  (n <= maximum -> byte_at value n = 0).
Proof.
  intros Hm. cbn zeta. unfold is_bounded_string_length.
  destruct (bounded_string_length_from_spec value (Z.to_nat (maximum + 1)) 0) as (H1 & H2 & H3).
  split_and!; [lia|lia|done|]. intros H. apply H3. lia.
Qed.

(** The length is determined by the first zero byte. *)
Lemma bounded_string_length_unique value maximum n :
  0 <= n <= maximum -> (forall j, 0 <= j < n -> byte_at value j <> 0) ->
  byte_at value n = 0 -> is_bounded_string_length value maximum = n.
Proof.
  intros Hn Hnz Hz.
  destruct (bounded_string_length_spec value maximum ltac:(lia)) as (H1 & H2 & H3).
  destruct (Z.lt_trichotomy (is_bounded_string_length value maximum) n) as [|[|]]; [|done|].
  - exfalso. eapply Hnz; [|apply H3; lia]. lia.
  - exfalso. eapply H2; [|exact Hz]. lia.
Qed.

Lemma is_identifier_valid_chars value n :
  is_identifier_valid value n = true <->
  n <> 0 /\ forall j, 0 <= j < n -> identifier_char (byte_at value j) = true.
Proof.
  unfold is_identifier_valid. destruct (n =? 0) eqn:E.
  - apply Z.eqb_eq in E. split; [done|]. intros [? _]. done.
  - apply Z.eqb_neq in E. rewrite negb_true_iff, exists_below_false.
    split.
    + intros H. split; [done|]. intros j Hj. apply H in Hj. by apply negb_false_iff.
    + intros [_ H] j Hj. rewrite H by done. done.
Qed.

Lemma identifier_char_nonzero c : identifier_char c = true -> c <> 0.
Proof. by intros H ->. Qed.

(** ** The header *)

Lemma is_decode_header_bytes `{ProtocolBuild} h n payload :
  wf_header h -> 0 <= n <= 4048 -> is_bytes payload ->
  is_decode_header (header_bytes h n ++ payload) (48 + n) =
    let! _ := is_validate_header h in inr (h, n).
Proof.
  intros (? & ? & ? & ? & ? & ? & ? & ?) Hn Hp. unfold is_decode_header. unfold_sizes.
  replace (48 + n <? 48) with false by (symmetry; apply Z.ltb_ge; lia).
  assert (Hn32 : is_u32 n) by (unfold in_u; lia).
  unfold header_bytes. rewrite (wrap_small 32 n) by done. rewrite <- !app_assoc.
  rewrite is_get_u32_be32 by (auto 20 with wire || (unfold in_u, IS_PROTOCOL_MAGIC; lia)).
  rewrite Z.eqb_refl. cbn [negb]. read_blocks.
  replace (n >? 4096 - 48) with false by lia.
  replace (n >? 48 + n - 48) with false by lia.
  replace (n <? 48 + n - 48) with false by lia.
  by destruct h.
Qed.

(** A validated header has a known type. *)
Lemma is_validate_header_type `{ProtocolBuild} h :
  is_validate_header h = inr tt -> 1 <= hdr_type h <= 13.
Proof.
  unfold is_validate_header, is_type_valid, IS_PROTOCOL_MSG_HELLO, IS_PROTOCOL_MSG_ERROR.
  intros Hv. repeat case_match; try done.
  rewrite negb_false_iff in *. lia.
Qed.

(** ** Identifiers on the wire *)

Lemma buf_read_whole l n : Z.of_nat (length l) = n -> buf_read l 0 n = l.
Proof. intros <-. unfold buf_read. rewrite Nat2Z.id. by apply take_ge. Qed.

(** The decoder copies the identifier into a zeroed array. *)
Lemma copy_canonical arr maximum n :
  0 <= maximum -> length arr = Z.to_nat (maximum + 1) ->
  n = is_bounded_string_length arr maximum -> n <= maximum ->
  buf_write (zeros (Z.to_nat (maximum + 1))) 0 (buf_read arr 0 n)
  = canonical_string arr maximum.
Proof.
  intros Hm Hlen -> Hn.
  destruct (bounded_string_length_spec arr maximum Hm) as (H1 & _ & _).
  rewrite buf_write_0 by (unfold zeros; rewrite length_buf_read, length_replicate by lia; lia).
  rewrite length_buf_read by lia. unfold canonical_string, zeros, buf_read.
  by rewrite drop_replicate.
Qed.

Lemma canonical_string_at arr maximum j :
  0 <= j < is_bounded_string_length arr maximum ->
  is_bounded_string_length arr maximum <= Z.of_nat (length arr) ->
  byte_at (canonical_string arr maximum) j = byte_at arr j.
Proof.
  intros Hj Hn. unfold canonical_string. rewrite byte_at_app_l by (rewrite length_take; lia).
  unfold byte_at. rewrite nth_firstn.
  by replace (Z.to_nat j <? _)%nat with true by (symmetry; apply Nat.ltb_lt; lia).
Qed.

Lemma canonical_string_length arr maximum :
  0 <= maximum -> length arr = Z.to_nat (maximum + 1) ->
  is_bounded_string_length arr maximum <= maximum ->
  is_bounded_string_length (canonical_string arr maximum) maximum
  = is_bounded_string_length arr maximum.
Proof.
  intros Hm Hlen Hn.
  destruct (bounded_string_length_spec arr maximum Hm) as (H1 & H2 & H3).
  apply bounded_string_length_unique; [lia| |].
  - intros j Hj. rewrite canonical_string_at by lia. by apply H2.
  - unfold canonical_string. rewrite byte_at_app_r by (rewrite length_take; lia).
    unfold byte_at, zeros. rewrite nth_lookup.
    destruct (_ !! _) eqn:E; [|done]. by apply lookup_replicate in E as [-> _].
Qed.

Lemma canonical_string_valid arr maximum :
  is_bounded_string_length arr maximum <= Z.of_nat (length arr) ->
  is_identifier_valid (canonical_string arr maximum) (is_bounded_string_length arr maximum)
  = is_identifier_valid arr (is_bounded_string_length arr maximum).
Proof.
  intros Hn. unfold is_identifier_valid. case_match; [done|]. f_equal.
  apply exists_below_ext. intros j Hj. by rewrite canonical_string_at.
Qed.

(** Validation does not look beyond the terminators. *)
Lemma is_validate_hello_canonical h r :
  wf_payload (payload_hello h) -> is_validate_hello h = inr r ->
  canonical_payload (payload_hello h) = payload_hello (get_hello (canonical_payload (payload_hello h))) /\
  is_validate_hello (get_hello (canonical_payload (payload_hello h))) = inr r.
Proof.
  intros (Hc & _ & Hk & _) Hv. split; [done|]. revert Hv.
  unfold is_validate_hello. cbn -[is_bounded_string_length canonical_string]. unfold_sizes.
  set (cl := is_bounded_string_length (hello_consumer_id h) 63).
  set (kl := is_bounded_string_length (hello_key_id h) 31).
  destruct (cl >? 63) eqn:Ecl; [done|]. destruct (kl >? 31) eqn:Ekl; [done|].
  rewrite !canonical_string_length by (done || lia).
  fold cl kl. unfold cl, kl in *. rewrite !canonical_string_valid by lia.
  by rewrite Ecl, Ekl.
Qed.

Lemma is_validate_hello_lengths h c k :
  is_validate_hello h = inr (c, k) ->
  c = is_bounded_string_length (hello_consumer_id h) 63 /\
  k = is_bounded_string_length (hello_key_id h) 31 /\ 0 < c <= 63 /\ 0 < k <= 31.
Proof.
  unfold is_validate_hello, is_identifier_valid. unfold_sizes. intros Hv.
  pose proof (bounded_string_length_spec (hello_consumer_id h) 63 ltac:(lia)) as (? & _).
  pose proof (bounded_string_length_spec (hello_key_id h) 31 ltac:(lia)) as (? & _).
  repeat (case_match; try done); simplify_eq.
  all: rewrite !orb_false_iff, !negb_false_iff in *; destruct_and!; try done; lia.
Qed.
