(* ===== verification/ProtocolRoundtrip.v ===== *)
(** * Round trip of the control protocol: decoding what was encoded *)
From S2P Require Import Prelude Protocol ProtocolWire.

(** ** Counted lists *)

Lemma length_concat_entries {f : Z -> list Z} {sz} i n :
  0 <= sz -> 0 <= n -> (forall j, length (f j) = Z.to_nat sz) ->
  Z.of_nat (length (concat (map f (seqZ i n)))) = n * sz.
Proof.
  intros Hsz Hn Hf. revert i. pattern n. apply natlike_ind; [done| |done].
  intros m Hm IH i. rewrite seqZ_cons by lia. cbn [map concat].
  rewrite length_app, Hf. replace (Z.pred (Z.succ m)) with m by lia.
  specialize (IH (Z.succ i)). lia.
Qed.

Lemma length_counted_bytes {f : Z -> list Z} {sz} count :
  0 <= sz -> 0 <= count -> (forall j, length (f j) = Z.to_nat sz) ->
  Z.of_nat (length (counted_bytes count f)) = 4 + count * sz.
Proof.
  intros Hsz Hc Hf. unfold counted_bytes. rewrite !length_app.
  pose proof (length_concat_entries 0 count Hsz Hc Hf). cbn [length be16] in *. lia.
Qed.

Lemma counted_bytes_is_bytes count f :
  (forall j, is_bytes (f j)) -> is_bytes (counted_bytes count f).
Proof.
  intros Hf. unfold counted_bytes. auto 10 using is_bytes_concat_map with wire.
Qed.
#[export] Hint Resolve counted_bytes_is_bytes is_bytes_concat_map : wire.

(** The entry [i] of a counted list starts at [4 + i * sz]. *)
Lemma counted_at {f : Z -> list Z} {sz} count i :
  0 <= sz -> 0 <= i < count -> (forall j, length (f j) = Z.to_nat sz) ->
  (forall j, is_bytes (f j)) ->
  exists pre post, counted_bytes count f = pre ++ f i ++ post /\
    Z.of_nat (length pre) = 4 + i * sz /\ is_bytes post.
Proof.
  intros Hsz Hi Hlen Hf.
  exists (be16 count ++ be16 0 ++ concat (map f (seqZ 0 i))),
    (concat (map f (seqZ (i + 1) (count - i - 1)))).
  split_and!.
  - unfold counted_bytes. rewrite <- !app_assoc. do 2 f_equal.
    replace count with (i + (1 + (count - i - 1))) at 1 by lia.
    rewrite seqZ_app, (seqZ_cons (0 + i)) by lia. rewrite map_app, concat_app.
    cbn [map concat]. repeat f_equal; lia.
  - rewrite !length_app. pose proof (length_concat_entries 0 i Hsz ltac:(lia) Hlen).
    cbn [length be16] in *. lia.
  - auto with wire.
Qed.

Lemma counted_head count f :
  is_u16 count -> (forall j, is_bytes (f j)) ->
  is_get_u16 (counted_bytes count f) 0 = count /\
  is_reserved_zero (counted_bytes count f) 2 2 = true.
Proof.
  intros Hc Hf. unfold counted_bytes. rewrite is_get_u16_be16 by auto with wire. done.
Qed.

Lemma length_chunk_bytes c : length (chunk_bytes c) = 24%nat.
Proof. done. Qed.
Lemma length_activity_bytes a : length (activity_bytes a) = 12%nat.
Proof. done. Qed.

Lemma chunk_bytes_is_bytes c : wf_chunk c -> is_bytes (chunk_bytes c).
Proof.
  intros (_ & _ & _ & _ & Hp). unfold chunk_bytes.
  repeat (apply is_bytes_app; split; [auto with wire|]).
  repeat (apply is_bytes_cons; split); auto with wire; unfold in_u; lia.
Qed.
Lemma activity_bytes_is_bytes a : is_bytes (activity_bytes a).
Proof. unfold activity_bytes. auto with wire. Qed.

Lemma nth_Forall {A} (P : A -> Prop) (d : A) l i : P d -> Forall P l -> P (nth i l d).
Proof.
  intros Hd Hl. destruct (decide (i < length l)%nat).
  - rewrite Forall_forall in Hl. apply Hl. by apply nth_In.
  - by rewrite nth_overflow by lia.
Qed.

Lemma wf_zero_chunk : wf_chunk zero_chunk.
Proof. unfold wf_chunk, in_u. cbn. lia. Qed.
Lemma wf_zero_activity : wf_activity zero_chunk_activity.
Proof. unfold wf_activity, in_u. cbn. lia. Qed.

(** Reading back an entry. *)
Lemma decode_chunk_entry_bytes pre c post off :
  wf_chunk c -> is_bytes post -> Z.of_nat (length pre) = off ->
  decode_chunk_entry (pre ++ chunk_bytes c ++ post) off = c /\
  is_reserved_zero (pre ++ chunk_bytes c ++ post) (off + 21) 3 = true.
Proof.
  intros Hc Hpost <-. pose proof Hc as (? & ? & ? & ? & ?). unfold decode_chunk_entry.
  rewrite !(is_get_u32_skip pre), (is_get_u64_skip pre), (byte_at_app_r pre),
    (is_reserved_zero_skip pre) by lia.
  replace (Z.of_nat (length pre) - Z.of_nat (length pre)) with 0 by lia.
  rewrite !Z.add_simpl_l.
  assert (Htail : is_bytes ([chunk_pool c; 0; 0; 0] ++ post)).
  { repeat (apply is_bytes_cons; split); auto with wire; unfold in_u; lia. }
  unfold chunk_bytes. rewrite <- !app_assoc. read_blocks.
  split; [by destruct c|done].
Qed.

Lemma decode_activity_entry_bytes pre a post off :
  wf_activity a -> is_bytes post -> Z.of_nat (length pre) = off ->
  decode_activity_entry (pre ++ activity_bytes a ++ post) off = a.
Proof.
  intros [? ?] Hpost <-. unfold decode_activity_entry.
  rewrite (is_get_u32_skip pre), (is_get_u64_skip pre) by lia.
  replace (Z.of_nat (length pre) - Z.of_nat (length pre)) with 0 by lia.
  rewrite !Z.add_simpl_l. unfold activity_bytes. rewrite <- !app_assoc. read_blocks.
  by destruct a.
Qed.

(** The duplicate checks only look at the entries up to the current one. *)
Lemma id_seen_local i l l' : 0 <= i ->
  (forall j, 0 <= j <= i -> nth (Z.to_nat j) l 0 = nth (Z.to_nat j) l' 0) ->
  id_seen l i = id_seen l' i.
Proof.
  intros Hi H. apply exists_below_ext. intros j Hj. unfold byte_at.
  by rewrite !H by lia.
Qed.

Lemma chunk_seen_local i l l' : 0 <= i ->
  (forall j, 0 <= j <= i -> nth (Z.to_nat j) l zero_chunk = nth (Z.to_nat j) l' zero_chunk) ->
  chunk_seen l i = chunk_seen l' i.
Proof.
  intros Hi H. apply exists_below_ext. intros j Hj. unfold chunk_at.
  by rewrite !H by lia.
Qed.

Lemma activity_seen_local i l l' : 0 <= i ->
  (forall j, 0 <= j <= i ->
    nth (Z.to_nat j) l zero_chunk_activity = nth (Z.to_nat j) l' zero_chunk_activity) ->
  activity_seen l i = activity_seen l' i.
Proof.
  intros Hi H. apply exists_below_ext. intros j Hj. unfold activity_at.
  by rewrite !H by lia.
Qed.

Lemma nth_canonical_array {A} (d : A) arr count j :
  length arr = 128%nat -> 0 <= j < count -> count <= 128 ->
  nth (Z.to_nat j) (canonical_array d arr count) d = nth (Z.to_nat j) arr d.
Proof.
  intros Hlen Hj Hc. unfold canonical_array.
  rewrite app_nth1 by (rewrite length_take; lia). rewrite nth_firstn.
  by replace (Z.to_nat j <? _)%nat with true by (symmetry; apply Nat.ltb_lt; lia).
Qed.

(** The loop that decodes an array that was encoded from [arr] returns the
    canonical array when no entry of [arr] is bad. *)
Lemma decode_array {A} (d : A) dec arr count (err : is_protocol_result) bad :
  (forall i l l', 0 <= i ->
    (forall j, 0 <= j <= i -> nth (Z.to_nat j) l d = nth (Z.to_nat j) l' d) ->
    bad i l = bad i l') ->
  length arr = 128%nat -> 0 <= count <= 128 ->
  (forall i, 0 <= i < count -> dec i = nth (Z.to_nat i) arr d) ->
  exists_below count (fun k => bad k arr) = false ->
  for_err (Z.to_nat count) 0
    (fun k l => let l := set_at l k (dec k) in if bad k l then inl err else inr l)
    (replicate 128 d) = inr (canonical_array d arr count).
Proof.
  intros Hlocal Hlen Hc Hdec Hbad.
  rewrite (for_err_fill d 128 dec err bad Hlocal) by lia.
  rewrite (filled_take _ _ _ arr) by (done || lia).
  rewrite (exists_below_ext _ _ (fun k => bad k arr)), Hbad; [done|].
  intros j Hj. apply Hlocal; [lia|]. intros i Hi. by apply nth_canonical_array; [|lia..].
Qed.

(** What makes the entry [k] of a decoded CHUNK_GRANT bad. *)
Definition grant_bad (payload : list Z) (k : Z) (l : list is_protocol_chunk) : bool :=
  negb (is_reserved_zero payload (4 + k * 24 + 21) 3) ||
  negb (chunk_entry_valid (decode_chunk_entry payload (4 + k * 24))) || chunk_seen l k.

Lemma grant_bad_local payload i l l' : 0 <= i ->
  (forall j, 0 <= j <= i -> nth (Z.to_nat j) l zero_chunk = nth (Z.to_nat j) l' zero_chunk) ->
  grant_bad payload i l = grant_bad payload i l'.
Proof. intros Hi H. unfold grant_bad. f_equal. by apply chunk_seen_local. Qed.

Lemma grant_loop payload n i chunks :
  for_err n i (fun index chunks =>
    let entry := IS_PROTOCOL_CHUNK_LIST_HEADER_SIZE + index * IS_PROTOCOL_CHUNK_SIZE in
    let chunk := decode_chunk_entry payload entry in
    let chunks := set_at chunks index chunk in
    if negb (is_reserved_zero payload (entry + 21) 3) || negb (chunk_entry_valid chunk)
    then inl IS_PROTOCOL_INVALID_PAYLOAD
    else if chunk_seen chunks index then inl IS_PROTOCOL_INVALID_PAYLOAD
    else inr chunks) chunks
  = for_err n i (fun k l =>
      let l := set_at l k (decode_chunk_entry payload (4 + k * 24)) in
      if grant_bad payload k l then inl IS_PROTOCOL_INVALID_PAYLOAD else inr l) chunks.
Proof.
  apply for_err_ext. intros j s. unfold grant_bad. unfold_sizes. cbn zeta.
  by destruct (negb (is_reserved_zero payload (4 + j * 24 + 21) 3)),
    (negb (chunk_entry_valid (decode_chunk_entry payload (4 + j * 24)))).
Qed.

Lemma is_counted_payload_size_ok count sz :
  is_validate_chunk_count count = inr tt -> In sz [24; 4; 12] ->
  is_counted_payload_size (4 + sz * count) count sz = inr tt.
Proof.
  unfold is_validate_chunk_count, is_counted_payload_size, is_require_payload_size.
  unfold_sizes. intros Hv Hsz.
  destruct (count =? 0) eqn:E0; [done|]. destruct (count >? 128) eqn:E1; [done|].
  repeat destruct Hsz as [<-|Hsz]; try done.
  all: replace (count >? _) with false by
    (symmetry; rewrite Z.gtb_ltb; apply Z.ltb_ge; Z.div_mod_to_equations; lia).
  all: by rewrite (proj2 (Z.eqb_eq _ _)) by lia.
Qed.

Lemma is_validate_chunk_count_range count r :
  0 <= count -> is_validate_chunk_count count = inr r -> r = tt /\ 0 < count <= 128.
Proof.
  unfold is_validate_chunk_count. unfold_sizes. intros Hc Hv. case_match; simplify_eq.
  rewrite orb_false_iff in *. split; [done|lia].
Qed.

(** ** The payload *)

Ltac reduce_type Ht :=
  rewrite Ht; cbn [Z.eqb Pos.eqb orb IS_PROTOCOL_MSG_HELLO IS_PROTOCOL_MSG_CHALLENGE
    IS_PROTOCOL_MSG_AUTH IS_PROTOCOL_MSG_ACCEPT IS_PROTOCOL_MSG_STATUS_REQUEST
    IS_PROTOCOL_MSG_STATUS_RESPONSE IS_PROTOCOL_MSG_CHUNK_REQUEST IS_PROTOCOL_MSG_CHUNK_GRANT
    IS_PROTOCOL_MSG_EVICT IS_PROTOCOL_MSG_ACTIVITY IS_PROTOCOL_MSG_RELEASE
    IS_PROTOCOL_MSG_GOODBYE IS_PROTOCOL_MSG_ERROR].

(** What encoding followed by decoding does to a payload. *)
Definition payload_ok `{ProtocolBuild} (m : is_protocol_message) : Prop :=
  forall n c k, is_payload_size m = inr (n, c, k) ->
  Z.of_nat (length (payload_bytes m c k)) = n /\ is_bytes (payload_bytes m c k) /\
  is_decode_payload (payload_bytes m c k) n (hdr_type (msg_header m)) =
    inr (canonical_payload (msg_payload m)).

Ltac start_payload Ht :=
  unfold payload_ok, is_payload_size, payload_bytes, is_decode_payload; cbn [msg_header msg_payload];
  reduce_type Ht; cbn [get_hello get_challenge get_auth get_accept get_status get_chunk_request
    get_chunk_grant get_chunk_ids get_activity get_error canonical_payload]; unfold_sizes.

Lemma chunk_grant_ok `{ProtocolBuild} h g :
  hdr_type h = IS_PROTOCOL_MSG_CHUNK_GRANT -> wf_payload (payload_chunk_grant g) ->
  payload_ok {| msg_header := h; msg_payload := payload_chunk_grant g |}.
Proof.
  intros Ht (Hc & Hlen & Hwf). start_payload Ht. intros n c k Hsize.
  destruct (is_validate_chunk_count _) as [|r] eqn:Hcount; [done|].
  apply is_validate_chunk_count_range in Hcount as Hrange; [|by apply Hc].
  destruct Hrange as [-> Hrange]. case_match eqn:Hbad; simplify_eq.
  apply negb_true_iff in Hbad.
  set (count := grant_chunk_count g) in *. set (f := fun i => chunk_bytes _).
  assert (Hentry : forall i, wf_chunk (chunk_at (grant_chunks g) i)).
  { intros i. by apply (nth_Forall wf_chunk); [apply wf_zero_chunk|]. }
  assert (Hf : forall j, is_bytes (f j)) by (intros j; by apply chunk_bytes_is_bytes).
  pose proof (length_counted_bytes (f := f) (sz := 24) count ltac:(lia) ltac:(lia)
    ltac:(done)) as Hl.
  split_and!; [lia|auto with wire|].
  replace (4 + 24 * count <? 4) with false by lia.
  destruct (counted_head count f Hc Hf) as [-> ->].
  rewrite is_counted_payload_size_ok by (done || by left).
  assert (Hdec : forall i, 0 <= i < count ->
    decode_chunk_entry (counted_bytes count f) (4 + i * 24) = chunk_at (grant_chunks g) i /\
    is_reserved_zero (counted_bytes count f) (4 + i * 24 + 21) 3 = true).
  { intros i Hi. destruct (counted_at (f := f) (sz := 24) count i) as (pre & post & -> & ? & ?);
      [lia|done..|]. by apply decode_chunk_entry_bytes. }
  rewrite grant_loop, (decode_array zero_chunk _ (grant_chunks g)); [done| |done|lia| |].
  - intros. by apply grant_bad_local.
  - intros i Hi. by apply Hdec.
  - rewrite <- Hbad. apply exists_below_ext. intros j Hj. unfold grant_bad.
    by destruct (Hdec j Hj) as [-> ->].
Qed.

Lemma chunk_ids_ok `{ProtocolBuild} h ids :
  hdr_type h = IS_PROTOCOL_MSG_EVICT \/ hdr_type h = IS_PROTOCOL_MSG_RELEASE ->
  wf_payload (payload_chunk_ids ids) ->
  payload_ok {| msg_header := h; msg_payload := payload_chunk_ids ids |}.
Proof.
  intros Ht (Hc & Hlen & Hwf).
  destruct Ht as [Ht|Ht]; start_payload Ht; unfold is_decode_chunk_ids; unfold_sizes.
  all: intros n c k Hsize; destruct (is_validate_chunk_count _) as [|r] eqn:Hcount; [done|].
  all: apply is_validate_chunk_count_range in Hcount as Hrange; [|by apply Hc].
  all: destruct Hrange as [-> Hrange]; case_match eqn:Hbad; simplify_eq.
  all: apply negb_true_iff in Hbad.
  all: set (count := ids_chunk_count ids) in *; set (f := fun i => be32 _).
  all: assert (Hf : forall j, is_bytes (f j)) by (intros j; apply be32_bytes).
  all: pose proof (length_counted_bytes (f := f) (sz := 4) count ltac:(lia) ltac:(lia)
    ltac:(done)) as Hl.
  all: split_and!; [lia|auto with wire|].
  all: replace (4 + 4 * count <? 4) with false by lia.
  all: destruct (counted_head count f Hc Hf) as [-> ->].
  all: rewrite is_counted_payload_size_ok by (done || by right; left).
  all: change (zeros 128) with (replicate 128 0).
  all: rewrite (decode_array 0 _ (ids_chunk_ids ids) _ _ (fun k l => id_seen l k)); try done; try lia.
  all: try (intros; by apply id_seen_local).
  all: intros i Hi; destruct (counted_at (f := f) (sz := 4) count i) as (pre & post & -> & ? & ?);
      [lia|done..|].
  all: rewrite (is_get_u32_skip pre) by lia; replace (4 + i * 4 - Z.of_nat (length pre)) with 0 by lia.
  all: unfold f; rewrite is_get_u32_be32; try done.
  all: by apply (nth_Forall (in_u 32)).
Qed.

Lemma activity_ok `{ProtocolBuild} h act :
  hdr_type h = IS_PROTOCOL_MSG_ACTIVITY -> wf_payload (payload_activity act) ->
  payload_ok {| msg_header := h; msg_payload := payload_activity act |}.
Proof.
  intros Ht (Hc & Hlen & Hwf). start_payload Ht. intros n c k Hsize.
  destruct (is_validate_chunk_count _) as [|r] eqn:Hcount; [done|].
  apply is_validate_chunk_count_range in Hcount as Hrange; [|by apply Hc].
  destruct Hrange as [-> Hrange]. case_match eqn:Hbad; simplify_eq.
  apply negb_true_iff in Hbad.
  set (count := activity_chunk_count act) in *. set (f := fun i => activity_bytes _).
  assert (Hf : forall j, is_bytes (f j)) by (intros j; apply activity_bytes_is_bytes).
  pose proof (length_counted_bytes (f := f) (sz := 12) count ltac:(lia) ltac:(lia)
    ltac:(done)) as Hl.
  split_and!; [lia|auto with wire|].
  replace (4 + 12 * count <? 4) with false by lia.
  destruct (counted_head count f Hc Hf) as [-> ->].
  rewrite is_counted_payload_size_ok by (done || by right; right; left).
  unfold zero_activities.
  rewrite (decode_array zero_chunk_activity _ (activity_chunks act) _ _
    (fun k l => activity_seen l k)); [done| |done|lia| |done].
  - intros. by apply activity_seen_local.
  - intros i Hi. destruct (counted_at (f := f) (sz := 12) count i) as (pre & post & -> & ? & ?);
      [lia|done..|].
    apply decode_activity_entry_bytes; [|done..].
    by apply (nth_Forall wf_activity); [apply wf_zero_activity|].
Qed.

Lemma u8_bytes v : is_u8 v -> is_bytes [v].
Proof. intros. apply is_bytes_cons. split; [done|constructor]. Qed.
Lemma is_u8_0 : is_u8 0.
Proof. unfold in_u. lia. Qed.
#[export] Hint Resolve u8_bytes is_u8_0 : wire.

Lemma is_get_u32_last v : is_u32 v -> is_get_u32 (be32 v) 0 = v.
Proof. intros Hv. rewrite <- (app_nil_r (be32 v)). by apply is_get_u32_be32; [|constructor]. Qed.

Lemma challenge_ok `{ProtocolBuild} h c :
  hdr_type h = IS_PROTOCOL_MSG_CHALLENGE -> wf_payload (payload_challenge c) ->
  payload_ok {| msg_header := h; msg_payload := payload_challenge c |}.
Proof.
  intros Ht (Hlen & Hb & Hm). start_payload Ht. intros n cl k Hsize.
  case_match eqn:Hminor; simplify_eq.
  rewrite (buf_read_whole (challenge_nonce c)) by lia.
  rewrite buf_read_block by lia.
  rewrite (is_reserved_zero_skip (challenge_nonce c)), (is_get_u16_skip (challenge_nonce c)) by lia.
  rewrite Hlen. split_and!; [rewrite !length_app; cbn [length be16]; lia|auto with wire|].
  cbn [Z.of_nat Pos.of_succ_nat Pos.succ Z.sub Z.add Z.opp Z.pos_sub Pos.pred_double].
  rewrite is_get_u16_be16 by auto with wire.
  rewrite Hminor. by destruct c.
Qed.

(** The three variable blocks of a HELLO after its eight fixed bytes. *)
Lemma hello_blocks fixed nonce consumer key :
  length fixed = 8%nat -> length nonce = 32%nat ->
  let payload := fixed ++ nonce ++ consumer ++ key in
  let c := Z.of_nat (length consumer) in
  buf_read payload 8 32 = nonce /\ buf_read payload 40 c = consumer /\
  buf_read payload (40 + c) (Z.of_nat (length key)) = key.
Proof.
  intros Hf Hn. cbn zeta. split_and!.
  - rewrite buf_read_skip by lia. rewrite Hf. by apply buf_read_block; rewrite Hn.
  - rewrite !buf_read_skip by lia. rewrite Hf, Hn. by apply buf_read_block.
  - rewrite !buf_read_skip by lia. rewrite Hf, Hn.
    replace (_ - _) with 0 by lia. by apply buf_read_whole.
Qed.

Lemma hello_ok `{ProtocolBuild} h hello :
  hdr_type h = IS_PROTOCOL_MSG_HELLO -> wf_payload (payload_hello hello) ->
  payload_ok {| msg_header := h; msg_payload := payload_hello hello |}.
Proof.
  intros Ht Hwf. pose proof Hwf as (Hc & Hcb & Hk & Hkb & Hn & Hnb & Hm & Hp & Hd).
  start_payload Ht. intros n c k Hsize.
  destruct (is_validate_hello hello) as [|[c' k']] eqn:Hv; simplify_eq.
  apply is_validate_hello_lengths in Hv as Hl. destruct Hl as (Hcl & Hkl & Hcr & Hkr).
  destruct (is_validate_hello_canonical hello (c, k) Hwf Hv) as [_ Hcanon].
  rewrite (buf_read_whole (hello_nonce hello)) by lia.
  rewrite !(wrap_small 8) by (unfold in_u; pow_lia).
  split_and!.
  - rewrite !length_app, !length_buf_read by lia. cbn [length be32]. lia.
  - assert (is_u8 c /\ is_u8 k) as [? ?] by (unfold in_u; pow_lia). auto 20 with wire.
  - set (payload := [c] ++ _). unfold is_decode_hello. unfold_sizes.
    replace (_ <? 8 + 32) with false by lia.
    change (byte_at payload 0) with c. change (byte_at payload 1) with k.
    change (byte_at payload 2) with (hello_mode hello).
    change (byte_at payload 3) with (hello_pool hello).
    match goal with |- context [if ?b then inl IS_PROTOCOL_INVALID_PAYLOAD else _] =>
      replace b with false by (symmetry; rewrite !orb_false_iff, negb_false_iff; lia) end.
    assert (Hget : is_get_u32 payload 4 = hello_failure_deadline_ms hello).
    { unfold payload. read_blocks. done. }
    assert (Hr : buf_read payload 8 32 = hello_nonce hello /\
      buf_read payload 40 c = buf_read (hello_consumer_id hello) 0 c /\
      buf_read payload (40 + c) k = buf_read (hello_key_id hello) 0 k).
    { pose proof (hello_blocks ([c; k; hello_mode hello; hello_pool hello] ++
        be32 (hello_failure_deadline_ms hello)) (hello_nonce hello)
        (buf_read (hello_consumer_id hello) 0 c) (buf_read (hello_key_id hello) 0 k)
        eq_refl Hn) as Hr.
      cbn zeta in Hr. rewrite !length_buf_read, !Z2Nat.id in Hr by lia. exact Hr. }
    destruct Hr as (Hr1 & Hr2 & Hr3). change (8 + 32) with 40. rewrite Hr1, Hr2, Hr3, Hget.
    cbn [zero_hello hello_consumer_id hello_key_id hello_nonce].
    change (zeros 64) with (zeros (Z.to_nat (63 + 1))).
    change (zeros 32) with (zeros (Z.to_nat (31 + 1))).
    rewrite (copy_canonical (hello_consumer_id hello) 63 c) by (assumption || lia).
    rewrite (copy_canonical (hello_key_id hello) 31 k) by (assumption || lia).
    rewrite (buf_write_0 _ (hello_nonce hello)) by (rewrite Hn; reflexivity).
    rewrite Hn. change (drop 32 (zeros (Z.to_nat (31 + 1)))) with (@nil Z). rewrite app_nil_r.
    cbn [canonical_payload get_hello] in Hcanon. unfold_sizes. by rewrite Hcanon.
Qed.

(** The messages of fixed size. *)
Lemma fixed_ok `{ProtocolBuild} m :
  wf_message m ->
  match msg_payload m with
  | payload_none | payload_auth _ | payload_accept _ | payload_status _
  | payload_chunk_request _ | payload_error _ => payload_ok m
  | _ => True
  end.
Proof.
  destruct m as [h p]. intros (_ & Hwf & Ht). cbn [msg_header msg_payload] in *.
  destruct p; try done; cbn [payload_matches wf_payload] in *;
    rewrite ?orb_true_iff, ?Z.eqb_eq in Ht; try destruct Ht as [Ht|Ht]; start_payload Ht;
    intros n c k Hsize;
    try match type of Hsize with (if ?b then _ else _) = _ => destruct b eqn:Hvalid end;
    simplify_eq; destruct_and?.
  3: rewrite !(buf_read_whole (auth_tag _)) by lia.
  all: split_and!; [rewrite ?length_app; cbn [length be16 be32]; lia|auto 20 with wire|].
  all: cbn [is_require_payload_size Z.eqb Pos.eqb Z.add].
  all: read_blocks; rewrite ?is_get_u32_last by done.
  - done.
  - done.
  - by destruct auth.
  - cbn [is_reserved_zero]. rewrite Hvalid. by destruct accept.
  - cbn [status_provider_failure_deadline_ms]. rewrite Hvalid. by destruct status.
  - destruct chunk_request. cbn [is_reserved_zero]. cbn in Hvalid |- *. by rewrite Hvalid.
  - destruct error. cbn in Hvalid |- *. by rewrite Hvalid.
Qed.

Lemma payload_roundtrip `{ProtocolBuild} m : wf_message m -> payload_ok m.
Proof.
  intros Hm. pose proof (fixed_ok m Hm) as Hfixed. destruct m as [h p].
  destruct Hm as (_ & Hwf & Ht). cbn [msg_header msg_payload] in *.
  destruct p; try done; cbn [payload_matches] in Ht;
    rewrite ?orb_true_iff, ?Z.eqb_eq in Ht.
  - by apply hello_ok.
  - by apply challenge_ok.
  - by apply chunk_grant_ok.
  - by apply chunk_ids_ok.
  - by apply activity_ok.
Qed.

(** ** The frame *)

Lemma wf_payload_counts m : wf_payload (msg_payload m) -> payload_counts_nonneg m.
Proof.
  unfold payload_counts_nonneg. destruct (msg_payload m); cbn; unfold in_u; intuition lia.
Qed.

Lemma wf_payload_nonces m : wf_payload (msg_payload m) ->
  length (hello_nonce (get_hello (msg_payload m))) = 32%nat /\
  length (challenge_nonce (get_challenge (msg_payload m))) = 32%nat /\
  length (hello_consumer_id (get_hello (msg_payload m))) = 64%nat.
Proof. destruct (msg_payload m); cbn; intuition. Qed.

Lemma is_payload_size_lengths `{ProtocolBuild} m n c k :
  is_payload_size m = inr (n, c, k) -> 0 <= c <= 63 /\ 0 <= k <= 31.
Proof.
  unfold is_payload_size. intros Hs.
  destruct (_ =? IS_PROTOCOL_MSG_HELLO).
  - destruct (is_validate_hello _) as [|[c' k']] eqn:Hv; simplify_eq.
    apply is_validate_hello_lengths in Hv. lia.
  - repeat (case_match; try done); simplify_eq; lia.
Qed.

(** The encoder, as one write of the frame. *)
Definition frame_bytes (m : is_protocol_message) (n c k : Z) : list Z :=
  header_bytes (msg_header m) n ++ payload_bytes m c k.

Lemma is_protocol_encode_inv `{ProtocolBuild} m buf cap out size :
  wf_message m -> is_protocol_encode (Some m) (Some buf) cap = inr (out, size) ->
  exists n c k, is_validate_header (msg_header m) = inr tt /\
    is_payload_size m = inr (n, c, k) /\ size = 48 + n /\ n <= 4048 /\ size <= cap /\
    out = buf_write buf 0 (frame_bytes m n c k) /\
    Z.of_nat (length (frame_bytes m n c k)) = size.
Proof.
  intros Hwf. unfold is_protocol_encode. unfold_sizes.
  destruct (is_validate_header _) as [|[]] eqn:Hh; [done|].
  destruct (is_payload_size m) as [|[[n c] k]] eqn:Hs; [done|].
  case_match eqn:E1; [done|]. case_match eqn:E2; [done|]. intros [= <- <-].
  exists n, c, k. pose proof (is_payload_size_lengths _ _ _ _ Hs) as [Hc Hk].
  destruct (payload_roundtrip m Hwf n c k Hs) as (Hlen & _ & _).
  destruct Hwf as (_ & Hwf & _). destruct (wf_payload_nonces m Hwf) as (? & ? & ?).
  split_and!; try done; try lia.
  - rewrite is_encode_header_bytes.
    rewrite is_encode_payload_bytes; [|by apply wf_payload_counts|lia..].
    unfold frame_bytes. by rewrite buf_write_app by done.
  - unfold frame_bytes. rewrite length_app, length_header_bytes. lia.
Qed.

Lemma header_bytes_is_bytes h n : is_bytes (header_bytes h n).
Proof. unfold header_bytes. auto 20 with wire. Qed.

Lemma decode_frame_bytes `{ProtocolBuild} m n c k :
  wf_message m -> is_validate_header (msg_header m) = inr tt ->
  is_payload_size m = inr (n, c, k) -> n <= 4048 ->
  is_protocol_decode (Some (frame_bytes m n c k)) (48 + n) = inr (canonical_message m).
Proof.
  intros Hwf Hh Hs Hn. destruct (payload_roundtrip m Hwf n c k Hs) as (Hlen & Hb & Hdec).
  unfold is_protocol_decode. unfold_sizes. replace (48 + n >? 4096) with false by lia.
  unfold frame_bytes. destruct Hwf as (Hwf & _ & _).
  rewrite is_decode_header_bytes by (done || lia). rewrite Hh.
  change (Z.to_nat 48) with (length (header_bytes (msg_header m) n)).
  rewrite drop_app_length, Hdec. done.
Qed.
