(* ===== verification/ProtocolCanonical.v ===== *)
(** * Canonicity of the control protocol

    Every frame that the decoder accepts is the encoding of the message it
    decodes to: there is one accepted byte string per message. *)
From S2P Require Import Prelude Protocol ProtocolWire ProtocolRoundtrip.

(** ** Blocks that are read are blocks that would be written *)

Lemma buf_read_cons l off n :
  0 <= off < Z.of_nat (length l) -> 0 < n ->
  buf_read l off n = byte_at l off :: buf_read l (off + 1) (n - 1).
Proof.
  intros Hoff Hn. unfold buf_read, byte_at.
  destruct (lookup_lt_is_Some_2 l (Z.to_nat off)) as [x Hx]; [lia|].
  rewrite (drop_S _ x) by done. replace (Z.to_nat n) with (S (Z.to_nat (n - 1))) by lia.
  cbn [take]. replace (Z.to_nat (off + 1)) with (S (Z.to_nat off)) by lia.
  by rewrite nth_lookup, Hx.
Qed.

Lemma buf_read_0 l off : buf_read l off 0 = [].
Proof. done. Qed.

Lemma u8_read l off : 0 <= off < Z.of_nat (length l) -> [byte_at l off] = buf_read l off 1.
Proof. intros. rewrite buf_read_cons by lia. done. Qed.

Ltac name_bytes l Hl :=
  repeat match goal with
  | |- context [byte_at l ?off] =>
      let b := fresh "b" in let Hb := fresh "Hb" in
      pose proof (byte_at_range l off Hl) as Hb; revert Hb; generalize (byte_at l off);
      intros b Hb
  end.

Lemma be16_get l off : is_bytes l -> 0 <= off -> off + 2 <= Z.of_nat (length l) ->
  be16 (is_get_u16 l off) = buf_read l off 2.
Proof.
  intros Hl Hoff Hlen. rewrite is_get_u16_value by done.
  rewrite !buf_read_cons by lia. unfold be16. rewrite <- Z.add_assoc. name_bytes l Hl.
  unfold_widths. change (buf_read l _ _) with (@nil Z). repeat f_equal; div_mod_lia.
Qed.

Lemma be32_get l off : is_bytes l -> 0 <= off -> off + 4 <= Z.of_nat (length l) ->
  be32 (is_get_u32 l off) = buf_read l off 4.
Proof.
  intros Hl Hoff Hlen. rewrite is_get_u32_value by done.
  rewrite !buf_read_cons by lia. unfold be32. rewrite <- !Z.add_assoc.
  change (buf_read l _ _) with (@nil Z). change (1 + (1 + 1)) with 3. change (1 + 1) with 2.
  name_bytes l Hl. unfold_widths. repeat f_equal; div_mod_lia.
Qed.

Lemma be64_get l off : is_bytes l -> 0 <= off -> off + 8 <= Z.of_nat (length l) ->
  be64 (is_get_u64 l off) = buf_read l off 8.
Proof.
  intros Hl Hoff Hlen. rewrite is_get_u64_value by done.
  pose proof (is_get_u32_range l off Hl) as H0. pose proof (is_get_u32_range l (off + 4) Hl) as H1.
  unfold be64.
  replace (u32 (Z.shiftr _ 32)) with (is_get_u32 l off) by (unfold_widths; div_mod_lia).
  replace (u32 _) with (is_get_u32 l (off + 4)) by (unfold_widths; div_mod_lia).
  rewrite !be32_get by (done || lia). by rewrite buf_read_app by lia.
Qed.

Lemma reserved_read l off n : is_reserved_zero l off n = true ->
  0 <= off -> 0 <= n -> off + n <= Z.of_nat (length l) ->
  zeros (Z.to_nat n) = buf_read l off n.
Proof.
  unfold is_reserved_zero. rewrite negb_true_iff, exists_below_false. intros Hz Hoff Hn Hlen.
  apply list_eq_same_length with (n := Z.to_nat n).
  - by apply length_buf_read.
  - apply length_replicate.
  - intros i x y Hi Hx Hy. apply lookup_replicate in Hx as [-> _].
    specialize (Hz (Z.of_nat i) ltac:(lia)). apply negb_false_iff, Z.eqb_eq in Hz.
    rewrite <- (byte_at_buf_read l off n) in Hz by lia.
    unfold byte_at in Hz. rewrite nth_lookup, Nat2Z.id, Hy in Hz. by cbn in Hz.
Qed.

(** [join] turns a concatenation of re-encoded fields into one read. *)
Ltac join :=
  repeat match goal with
  | |- context [be16 (is_get_u16 ?l ?o)] => rewrite (be16_get l o) by (done || lia)
  | |- context [be32 (is_get_u32 ?l ?o)] => rewrite (be32_get l o) by (done || lia)
  | |- context [be64 (is_get_u64 ?l ?o)] => rewrite (be64_get l o) by (done || lia)
  | |- context [[byte_at ?l ?o]] => rewrite (u8_read l o) by lia
  end;
  rewrite ?app_assoc; repeat rewrite buf_read_app by lia.

(** ** The header *)

Lemma is_decode_header_inv `{ProtocolBuild} frame size h n :
  is_bytes frame -> Z.of_nat (length frame) = size ->
  is_decode_header frame size = inr (h, n) ->
  wf_header h /\ is_validate_header h = inr tt /\ size = 48 + n /\ 0 <= n <= 4048 /\
  header_bytes h n = buf_read frame 0 48.
Proof.
  intros Hb Hlen. unfold is_decode_header. unfold_sizes.
  case_match eqn:E1; [done|]. case_match eqn:E2; [done|].
  case_match eqn:E3; [done|]. case_match eqn:E4; [done|]. case_match eqn:E5; [done|].
  destruct (is_validate_header _) as [|[]] eqn:Hv; [done|]. intros [= <- <-].
  apply negb_false_iff, Z.eqb_eq in E2.
  pose proof (is_get_u32_range frame 12 Hb) as Hr.
  split_and!; try done; try (unfold in_u in Hr; lia).
  - unfold wf_header; cbn. auto 10 using is_get_u16_range, is_get_u64_range.
  - unfold header_bytes. cbn [hdr_major hdr_minor hdr_type hdr_flags hdr_request_id
      hdr_session_id hdr_capabilities hdr_required_capabilities].
    rewrite <- E2, (wrap_small 32) by done. join. done.
Qed.

(** ** The payload *)

Definition payload_canon `{ProtocolBuild} (h : is_protocol_header) (payload : list Z)
    (p : is_protocol_payload) : Prop :=
  let m := {| msg_header := h; msg_payload := p |} in
  wf_payload p /\ payload_matches (hdr_type h) p = true /\
  exists c k, is_payload_size m = inr (Z.of_nat (length payload), c, k) /\
    payload_bytes m c k = payload.

Ltac start_canon Ht :=
  unfold is_decode_payload, payload_canon, is_payload_size, payload_bytes, payload_matches;
  cbn [msg_header msg_payload]; reduce_type Ht;
  cbn [get_hello get_challenge get_auth get_accept get_status get_chunk_request
    get_chunk_grant get_chunk_ids get_activity get_error]; unfold_sizes.

Lemma is_require_payload_size_inv actual expected r :
  is_require_payload_size actual expected = inr r -> actual = expected.
Proof. unfold is_require_payload_size. case_match; [|done]. lia. Qed.

(** Case analysis of a successful decode. *)
Ltac invert_decode :=
  repeat match goal with
  | H : (match is_require_payload_size ?a ?e with _ => _ end) = inr _ |- _ =>
      let E := fresh "Hsize" in
      destruct (is_require_payload_size a e) eqn:E; [done|]; apply is_require_payload_size_inv in E
  | H : (if ?b then _ else inl _) = inr _ |- _ => destruct b eqn:?; [|done]
  | H : (if ?b then inl _ else _) = inr _ |- _ => destruct b eqn:?; [done|]
  | H : inr _ = inr _ |- _ => injection H as <-
  end.

Lemma fixed_canon `{ProtocolBuild} h payload p :
  In (hdr_type h) [2; 3; 4; 5; 6; 7; 12; 13] -> is_bytes payload ->
  is_decode_payload payload (Z.of_nat (length payload)) (hdr_type h) = inr p ->
  payload_canon h payload p.
Proof.
  intros Hin Hb. cbn [In] in Hin.
  repeat (destruct Hin as [Ht|Hin]; [symmetry in Ht|]); try done.
  all: start_canon Ht; intros Hd; invert_decode.
  all: cbn [wf_payload get_challenge get_auth get_accept get_status get_chunk_request get_error
    challenge_nonce challenge_negotiated_minor auth_tag accept_negotiated_minor
    status_available_opportunistic_chunks status_available_committed_chunks
    status_provider_failure_deadline_ms status_flags request_chunk_count request_logical_start
    request_pool error_code error_offending_type error_retryable] in *.
  all: split; [repeat match goal with |- _ /\ _ => split end;
    auto using is_get_u16_range, is_get_u32_range, byte_at_range, is_bytes_buf_read;
    rewrite length_buf_read; lia|].
  all: split; [done|]; exists 0, 0; rewrite Hsize.
  all: split; [repeat match goal with Hv : _ = true |- _ => rewrite Hv end; done|].
  all: try (destruct payload; done).
  all: rewrite ?(buf_read_whole (buf_read payload 0 32)) by (rewrite length_buf_read; lia).
  all: try change (be16 0) with (zeros (Z.to_nat 2)).
  all: try change ([0] ++ [0] ++ [0]) with (zeros (Z.to_nat 3)).
  all: try erewrite reserved_read by (eassumption || lia).
  all: join; by apply buf_read_whole.
Qed.

(** Counted lists. *)
Lemma is_counted_payload_size_inv actual count sz r :
  0 <= count -> is_counted_payload_size actual count sz = inr r ->
  actual = 4 + count * sz /\ 0 < count <= 128 /\ is_validate_chunk_count count = inr tt.
Proof.
  unfold is_counted_payload_size, is_validate_chunk_count. unfold_sizes. intros Hc Hs.
  do 3 (case_match; [done|]). apply is_require_payload_size_inv in Hs.
  split_and!; [done|lia..|done].
Qed.

Lemma concat_reads payload f sz i n :
  0 <= sz -> 0 <= i -> 0 <= n ->
  (forall j, i <= j < i + n -> f j = buf_read payload (4 + j * sz) sz) ->
  concat (map f (seqZ i n)) = buf_read payload (4 + i * sz) (n * sz).
Proof.
  intros Hsz Hi Hn. revert i Hi. pattern n. apply natlike_ind; [done| |done].
  clear n Hn. intros n Hn IH i Hi Hf. rewrite seqZ_cons by lia. cbn [map concat].
  replace (Z.pred (Z.succ n)) with n by lia. rewrite IH by (lia || intros; apply Hf; lia).
  rewrite Hf by lia. rewrite buf_read_app by lia. f_equal. lia.
Qed.

Lemma counted_read payload f sz count :
  is_bytes payload -> 0 <= sz -> 0 <= count ->
  Z.of_nat (length payload) = 4 + count * sz -> is_get_u16 payload 0 = count ->
  is_reserved_zero payload 2 2 = true ->
  (forall j, 0 <= j < count -> f j = buf_read payload (4 + j * sz) sz) ->
  counted_bytes count f = payload.
Proof.
  intros Hb Hsz Hc Hlen Hget Hres Hf. unfold counted_bytes.
  change (be16 0) with (zeros (Z.to_nat 2)).
  rewrite (reserved_read payload 2 2), (concat_reads payload f sz) by (done || lia).
  rewrite <- Hget at 1. join. by apply buf_read_whole.
Qed.

Lemma Forall_filled {A} (P : A -> Prop) d cap dec n :
  P d -> (forall i, P (dec i)) -> Forall P (filled d cap dec n).
Proof.
  intros Hd Hdec. apply Forall_app. split; [|by apply Forall_replicate].
  apply Forall_fmap. apply Forall_true. intros; apply Hdec.
Qed.

Lemma length_filled {A} (d : A) cap dec n :
  0 <= n <= Z.of_nat cap -> length (filled d cap dec n) = cap.
Proof.
  intros Hn. unfold filled. rewrite length_app, length_map, length_seqZ, length_replicate. lia.
Qed.

Lemma wf_decode_chunk_entry payload off :
  is_bytes payload -> wf_chunk (decode_chunk_entry payload off).
Proof.
  intros Hb. unfold wf_chunk; cbn.
  auto 10 using is_get_u32_range, is_get_u64_range, byte_at_range.
Qed.

Lemma chunk_bytes_read payload off :
  is_bytes payload -> 0 <= off -> off + 24 <= Z.of_nat (length payload) ->
  is_reserved_zero payload (off + 21) 3 = true ->
  chunk_bytes (decode_chunk_entry payload off) = buf_read payload off 24.
Proof.
  intros Hb Hoff Hlen Hres. unfold chunk_bytes.
  cbn [decode_chunk_entry chunk_logical_chunk_id chunk_provider_chunk_id
    chunk_remote_address chunk_remote_key chunk_pool].
  change [byte_at payload (off + 20); 0; 0; 0]
    with ([byte_at payload (off + 20)] ++ zeros (Z.to_nat 3)).
  rewrite (reserved_read payload (off + 21) 3) by (done || lia). join. done.
Qed.

Lemma activity_bytes_read payload off :
  is_bytes payload -> 0 <= off -> off + 12 <= Z.of_nat (length payload) ->
  activity_bytes (decode_activity_entry payload off) = buf_read payload off 12.
Proof.
  intros Hb Hoff Hlen. unfold activity_bytes.
  cbn [decode_activity_entry activity_provider_chunk_id activity_activity]. join. done.
Qed.

Lemma grant_canon `{ProtocolBuild} h payload p :
  hdr_type h = IS_PROTOCOL_MSG_CHUNK_GRANT -> is_bytes payload ->
  is_decode_payload payload (Z.of_nat (length payload)) (hdr_type h) = inr p ->
  payload_canon h payload p.
Proof.
  intros Ht Hb. start_canon Ht. case_match eqn:E0; [done|]. case_match eqn:Hres; [|done].
  pose proof (is_get_u16_range payload 0) as Hcr. set (count := is_get_u16 payload 0) in *.
  destruct (is_counted_payload_size _ _ _) eqn:Hs; [done|].
  apply is_counted_payload_size_inv in Hs as (Hlen & Hc & Hv); [|by apply Hcr].
  rewrite (grant_loop payload). unfold zero_chunks.
  rewrite (for_err_fill zero_chunk 128 (fun k => decode_chunk_entry payload (4 + k * 24)) _ _
    (grant_bad_local payload)) by lia.
  set (arr := filled _ _ _ _). destruct (exists_below _ _) eqn:Hbad; [done|]. intros [= <-].
  rewrite exists_below_false in Hbad.
  assert (Hat : forall j, 0 <= j < count ->
    chunk_at arr j = decode_chunk_entry payload (4 + j * 24)).
  { intros. by apply (nth_filled _ _ (fun k => decode_chunk_entry payload (4 + k * 24))). }
  cbn [wf_payload get_chunk_grant grant_chunk_count grant_chunks]. split_and!; try done.
  - by apply length_filled; lia.
  - apply Forall_filled; [apply wf_zero_chunk|]. intros. by apply wf_decode_chunk_entry.
  - exists 0, 0. rewrite Hv. split.
    + rewrite (proj2 (exists_below_false _ _)); [cbn [negb]; repeat f_equal; lia|].
      intros j Hj. rewrite Hat by done. specialize (Hbad j Hj). unfold grant_bad in Hbad.
      apply orb_false_iff in Hbad as [Hbad ->]. by apply orb_false_iff in Hbad as [_ ->].
    + apply (counted_read _ _ 24); try done; try lia. intros j Hj. rewrite Hat by done.
      apply chunk_bytes_read; try done; try lia.
      specialize (Hbad j Hj). unfold grant_bad in Hbad.
      rewrite !orb_false_iff, negb_false_iff in Hbad. apply Hbad.
Qed.

Lemma ids_canon `{ProtocolBuild} h payload p :
  hdr_type h = IS_PROTOCOL_MSG_EVICT \/ hdr_type h = IS_PROTOCOL_MSG_RELEASE ->
  is_bytes payload ->
  is_decode_payload payload (Z.of_nat (length payload)) (hdr_type h) = inr p ->
  payload_canon h payload p.
Proof.
  intros Ht Hb Hd.
  assert (exists ids, is_decode_chunk_ids payload (Z.of_nat (length payload)) = inr ids /\
    p = payload_chunk_ids ids) as (ids & Hids & ->).
  { revert Hd. destruct Ht as [Ht|Ht]; start_canon Ht;
      (destruct (is_decode_chunk_ids _ _) as [|ids]; [done|]; intros [= <-]; by exists ids). }
  clear Hd. revert Hids. unfold is_decode_chunk_ids. unfold_sizes.
  case_match eqn:E0; [done|]. case_match eqn:Hres; [|done].
  pose proof (is_get_u16_range payload 0) as Hcr. set (count := is_get_u16 payload 0) in *.
  destruct (is_counted_payload_size _ _ _) eqn:Hs; [done|].
  apply is_counted_payload_size_inv in Hs as (Hlen & Hc & Hv); [|by apply Hcr].
  change (zeros 128) with (replicate 128 0).
  set (dec := fun k => is_get_u32 payload (4 + k * 4)).
  rewrite (for_err_fill 0 128 dec _ (fun k l => id_seen l k)) by (lia || apply id_seen_local).
  set (arr := filled _ _ _ _). destruct (exists_below _ _) eqn:Hbad; [done|]. intros [= <-].
  assert (Hat : forall j, 0 <= j < count -> word_at arr j = dec j).
  { intros. by apply (nth_filled 0 _ dec). }
  split_and!; cbn [wf_payload ids_chunk_count ids_chunk_ids].
  - split_and!; [done|by apply length_filled; lia|].
    apply Forall_filled; [done|]. intros i. unfold dec. by apply is_get_u32_range.
  - destruct Ht as [-> | ->]; done.
  - exists 0, 0. destruct Ht as [Ht|Ht]; start_canon Ht;
      cbn [get_chunk_ids ids_chunk_count ids_chunk_ids]; rewrite Hv.
    all: change (fun index => id_seen arr index) with (id_seen arr) in Hbad; rewrite Hbad.
    all: split; [cbn [negb]; repeat f_equal; lia|].
    all: apply (counted_read _ _ 4); try done; try lia; intros j Hj; rewrite Hat by done.
    all: unfold dec; apply be32_get; try done; lia.
Qed.

Lemma activity_canon `{ProtocolBuild} h payload p :
  hdr_type h = IS_PROTOCOL_MSG_ACTIVITY -> is_bytes payload ->
  is_decode_payload payload (Z.of_nat (length payload)) (hdr_type h) = inr p ->
  payload_canon h payload p.
Proof.
  intros Ht Hb. start_canon Ht. case_match eqn:E0; [done|]. case_match eqn:Hres; [|done].
  pose proof (is_get_u16_range payload 0) as Hcr. set (count := is_get_u16 payload 0) in *.
  destruct (is_counted_payload_size _ _ _) eqn:Hs; [done|].
  apply is_counted_payload_size_inv in Hs as (Hlen & Hc & Hv); [|by apply Hcr].
  set (dec := fun k => decode_activity_entry payload (4 + k * 12)). unfold zero_activities.
  rewrite (for_err_fill zero_chunk_activity 128 dec _ (fun k l => activity_seen l k))
    by (lia || apply activity_seen_local).
  set (arr := filled _ _ _ _). destruct (exists_below _ _) eqn:Hbad; [done|]. intros [= <-].
  assert (Hat : forall j, 0 <= j < count -> activity_at arr j = dec j).
  { intros. by apply (nth_filled zero_chunk_activity _ dec). }
  cbn [wf_payload get_activity activity_chunk_count activity_chunks]. split_and!; try done.
  - by apply length_filled; lia.
  - apply Forall_filled; [apply wf_zero_activity|]. intros i. unfold wf_activity; cbn.
    auto using is_get_u32_range, is_get_u64_range.
  - exists 0, 0. rewrite Hv. change (fun k => activity_seen arr k) with (activity_seen arr) in Hbad.
    rewrite Hbad. split; [cbn [negb]; repeat f_equal; lia|].
    apply (counted_read _ _ 12); try done; try lia. intros j Hj. rewrite Hat by done.
    unfold dec. apply activity_bytes_read; [done|lia..].
Qed.

(** The decoder measures the identifiers of a HELLO a second time, up to their
    first zero byte; a frame is plain when both measures agree. *)
Definition plain_identifiers (payload : list Z) (p : is_protocol_payload) : Prop :=
  match p with
  | payload_hello h =>
      byte_at payload 0 = is_bounded_string_length (hello_consumer_id h) IS_PROTOCOL_CONSUMER_ID_MAX /\
      byte_at payload 1 = is_bounded_string_length (hello_key_id h) IS_PROTOCOL_KEY_ID_MAX
  | _ => True
  end.

Lemma copy_read (dst src : list Z) n :
  0 <= n <= Z.of_nat (length dst) -> n <= Z.of_nat (length src) ->
  buf_read (buf_write dst 0 (buf_read src 0 n)) 0 n = buf_read src 0 n.
Proof.
  intros Hd Hs. assert (Hl : length (buf_read src 0 n) = Z.to_nat n) by (apply length_buf_read; lia).
  rewrite buf_write_0 by lia. apply buf_read_block. lia.
Qed.

Lemma buf_read_drop l off n : 0 <= off -> buf_read l off n = buf_read (drop (Z.to_nat off) l) 0 n.
Proof. done. Qed.

Lemma hello_canon `{ProtocolBuild} h payload p :
  hdr_type h = IS_PROTOCOL_MSG_HELLO -> is_bytes payload ->
  is_decode_payload payload (Z.of_nat (length payload)) (hdr_type h) = inr p ->
  plain_identifiers payload p -> payload_canon h payload p.
Proof.
  intros Ht Hb. start_canon Ht. unfold is_decode_hello. unfold_sizes.
  destruct (_ <? 8 + 32) eqn:E0; [done|]. destruct (orb _ (negb _)) eqn:E1; [done|].
  set (hello := Build_is_protocol_hello _ _ _ _ _ _).
  destruct (is_validate_hello hello) as [|[c k]] eqn:Hv; [done|]. intros [= <-] [Hc Hk].
  apply is_validate_hello_lengths in Hv as Hl. destruct Hl as (Hcl & Hkl & Hcr & Hkr).
  unfold_sizes. rewrite <- Hcl in Hc. rewrite <- Hkl in Hk.
  rewrite !orb_false_iff, negb_false_iff, Z.eqb_eq in E1. rewrite Hc, Hk in E1.
  cbn [get_hello]. rewrite Hv. unfold wf_payload.
  assert (Hw : forall n off m, is_bytes (buf_write (zeros n) 0 (buf_read payload off m))).
  { intros. apply Forall_inserts; [apply zeros_bytes|by apply is_bytes_buf_read]. }
  split_and!; try (cbn [hello hello_consumer_id hello_key_id hello_nonce]; apply Hw);
    try (by cbn [hello hello_consumer_id hello_key_id hello_nonce]; rewrite length_buf_write);
    try apply (byte_at_range payload); try apply is_get_u32_range; try done.
  exists c, k. split; [repeat f_equal; lia|].
  unfold hello. cbn [hello_consumer_id hello_key_id hello_nonce hello_mode hello_pool
    hello_failure_deadline_ms zero_hello].
  rewrite !(wrap_small 8) by (unfold in_u; pow_lia). rewrite Hc, Hk.
  rewrite (buf_read_drop payload 8), (buf_read_drop payload (8 + 32)),
    (buf_read_drop payload (8 + 32 + c)) by lia.
  unfold zeros. rewrite !copy_read by (rewrite ?length_replicate, ?length_drop; lia).
  rewrite <- !buf_read_drop by lia.
  replace [c] with (buf_read payload 0 1) by (rewrite <- u8_read, Hc by lia; done).
  replace [k] with (buf_read payload 1 1) by (rewrite <- u8_read, Hk by lia; done).
  join. apply buf_read_whole. lia.
Qed.

Lemma payload_canonical `{ProtocolBuild} h payload p :
  is_bytes payload -> 1 <= hdr_type h <= 13 ->
  is_decode_payload payload (Z.of_nat (length payload)) (hdr_type h) = inr p ->
  plain_identifiers payload p -> payload_canon h payload p.
Proof.
  intros Hb Hr Hd Hplain.
  destruct (decide (hdr_type h = 1)); [by apply hello_canon|].
  destruct (decide (hdr_type h = 8)); [by apply grant_canon|].
  destruct (decide (hdr_type h = 9 \/ hdr_type h = 11)); [by apply ids_canon|].
  destruct (decide (hdr_type h = 10)); [by apply activity_canon|].
  apply fixed_canon; [cbn [In]; lia|done..].
Qed.
