(* ===== verification/ProtocolSpec.v ===== *)
(** * What the control protocol promises

    The theorems of the codec over whole frames, and of version and capability
    negotiation. *)
From S2P Require Import Prelude Protocol ProtocolWire ProtocolRoundtrip ProtocolCanonical.

(** ** Frames *)

Lemma take_buf_write_0 buf bs :
  (length bs <= length buf)%nat ->
  take (length bs) (buf_write buf 0 bs) = bs /\
  drop (length bs) (buf_write buf 0 bs) = drop (length bs) buf.
Proof.
  intros Hlen. rewrite buf_write_0 by done. by rewrite take_app_length, drop_app_length.
Qed.

(** C1.  Round trip: whenever a message is encoded into a buffer of at least
    [cap] bytes, the written prefix decodes to that message (without the bytes
    after an identifier's terminator and the array entries beyond the count),
    the frame fits the capacity and the 4096-byte limit, and no byte after the
    frame is written. *)
Theorem encode_decode_roundtrip `{ProtocolBuild} m buf cap out size :
  wf_message m -> cap <= Z.of_nat (length buf) ->
  is_protocol_encode (Some m) (Some buf) cap = inr (out, size) ->
  is_protocol_decode (Some (take (Z.to_nat size) out)) size = inr (canonical_message m) /\
  size <= cap /\ size <= IS_PROTOCOL_MAX_FRAME_SIZE /\ length out = length buf /\
  drop (Z.to_nat size) out = drop (Z.to_nat size) buf.
Proof.
  intros Hwf Hcap Henc.
  destruct (is_protocol_encode_inv _ _ _ _ _ Hwf Henc)
    as (n & c & k & Hh & Hs & -> & Hn & Hsize & -> & Hlen).
  destruct (take_buf_write_0 buf (frame_bytes m n c k)) as [Htake Hdrop]; [lia|].
  replace (Z.to_nat (48 + n)) with (length (frame_bytes m n c k)) by lia.
  rewrite Htake, Hdrop, length_buf_write. unfold IS_PROTOCOL_MAX_FRAME_SIZE.
  split_and!; try done; try lia. by apply decode_frame_bytes.
Qed.

Definition example_header (type flags session : Z) : is_protocol_header :=
  {| hdr_major := 1; hdr_minor := 1; hdr_type := type; hdr_flags := flags;
     hdr_request_id := 7; hdr_session_id := session; hdr_capabilities := 0x7f;
     hdr_required_capabilities := 0x70 |}.

Definition example_hello : is_protocol_message :=
  {| msg_header := example_header IS_PROTOCOL_MSG_HELLO 0 0;
     msg_payload := payload_hello {|
       hello_consumer_id := [110; 111; 100; 101] ++ zeros 60;
       hello_key_id := [107; 49] ++ zeros 30;
       hello_nonce := replicate 32 9;
       hello_mode := IS_PROTOCOL_MODE_BACKED; hello_pool := IS_PROTOCOL_POOL_OPPORTUNISTIC;
       hello_failure_deadline_ms := 2000 |} |}.

Ltac solve_wf :=
  repeat (first [split | apply Forall_cons_iff | apply Forall_nil]);
  unfold in_u; cbn; try lia; try done.

Lemma wf_example_hello : wf_message example_hello.
Proof. solve_wf. Defined.

Lemma encode_decode_roundtrip_witness :
  exists out, is_protocol_decode (H := default_build) (Some (take 94 out)) 94
    = inr (canonical_message example_hello).
Proof.
  eexists.
  refine (proj1 (encode_decode_roundtrip (H := default_build) example_hello (zeros 4096) 4096 _ 94
    wf_example_hello _ _)); [done|].
  unfold is_protocol_encode. vm_compute. reflexivity.
Defined.

(** Decoding, inverted. *)
Lemma is_protocol_decode_inv `{ProtocolBuild} frame size m :
  is_bytes frame -> Z.of_nat (length frame) = size ->
  is_protocol_decode (Some frame) size = inr m ->
  plain_identifiers (drop 48 frame) (msg_payload m) ->
  wf_message m /\ exists n c k, is_validate_header (msg_header m) = inr tt /\
    is_payload_size m = inr (n, c, k) /\ size = 48 + n /\ n <= 4048 /\
    frame_bytes m n c k = frame.
Proof.
  intros Hb Hlen. unfold is_protocol_decode. unfold_sizes. case_match eqn:E; [done|].
  destruct (is_decode_header frame size) as [|[h n]] eqn:Hh; [done|].
  destruct (is_decode_header_inv frame size h n Hb Hlen Hh) as (Hwf & Hv & Hsize & Hn & Hbytes).
  change (Z.to_nat 48) with 48%nat.
  destruct (is_decode_payload _ _ _) as [|p] eqn:Hp; [done|]. intros [= <-].
  cbn [msg_header msg_payload]. intros Hplain.
  assert (Hn' : n = Z.of_nat (length (drop 48 frame))) by (rewrite length_drop; lia).
  assert (Hdb : is_bytes (drop 48 frame)) by auto with wire. rewrite Hn' in Hp.
  destruct (payload_canonical h (drop 48 frame) p Hdb
    (is_validate_header_type h Hv) Hp Hplain) as (Hwp & Hmatch & c & k & Hs & Hpb).
  split; [done|]. exists n, c, k. rewrite Hn' at 1. split_and!; try done; try lia.
  unfold frame_bytes. cbn [msg_header]. rewrite Hbytes, Hpb. unfold buf_read.
  by rewrite take_drop.
Qed.

Lemma encode_of_frame `{ProtocolBuild} m n c k buf cap :
  wf_message m -> is_validate_header (msg_header m) = inr tt ->
  is_payload_size m = inr (n, c, k) -> n <= 4048 -> 48 + n <= cap ->
  is_protocol_encode (Some m) (Some buf) cap = inr (buf_write buf 0 (frame_bytes m n c k), 48 + n).
Proof.
  intros Hwf Hh Hs Hn Hcap. destruct (is_protocol_encode (Some m) (Some buf) cap) as [e|[out sz]] eqn:E.
  - exfalso. revert E. unfold is_protocol_encode. unfold_sizes. rewrite Hh, Hs.
    replace (n >? 4096 - 48) with false by lia. by replace (cap <? 48 + n) with false by lia.
  - destruct (is_protocol_encode_inv _ _ _ _ _ Hwf E)
      as (n' & c' & k' & _ & Hs' & -> & _ & _ & -> & _). rewrite Hs in Hs'. by simplify_eq.
Qed.


(** A STATUS_RESPONSE frame. *)
Definition example_frame : list Z :=
  [0x49; 0x53; 0x57; 0x50; 0; 1; 0; 1; 0; 6; 0; 1; 0; 0; 0; 16] ++
  zeros 7 ++ [5] ++ zeros 7 ++ [3] ++ zeros 7 ++ [0x7f] ++ zeros 7 ++ [0x70] ++
  [0; 0; 0; 4; 0; 0; 0; 2; 0; 0; 7; 208; 0; 0; 0; 1].


(** A HELLO whose consumer identifier block carries a zero byte is
    accepted although the block is not an identifier: the decoder validates
    only the bytes before the zero.  Re-encoding gives a different frame. *)
Theorem embedded_nul_accepted :
  exists frame m out size,
    is_bytes frame /\
    is_protocol_decode (H := default_build) (Some frame) (Z.of_nat (length frame)) = inr m /\
    is_identifier_valid (drop 88 frame) (byte_at frame 48) = false /\
    is_protocol_encode (H := default_build) (Some m) (Some (zeros 128)) 128 = inr (out, size) /\
    size < Z.of_nat (length frame).
Proof.
  exists (header_bytes (example_header IS_PROTOCOL_MSG_HELLO 0 0) 46 ++
    [4; 2; 1; 1; 0; 0; 7; 208] ++ replicate 32 9 ++ [110; 0; 255; 7; 107; 49]).
  eexists _, _, _. split; [solve_wf|]. split; [vm_compute; reflexivity|].
  split; [done|]. split; [vm_compute; reflexivity|]. done.
Qed.

(** ** Sizes *)

Lemma is_payload_size_bound `{ProtocolBuild} m n c k :
  wf_message m -> is_payload_size m = inr (n, c, k) -> 0 <= n <= 3076.
Proof.
  intros (_ & Hwf & _). pose proof (wf_payload_counts m Hwf) as (Hg & Hi & Ha).
  unfold is_payload_size. unfold_sizes. intros Hs.
  destruct (_ =? IS_PROTOCOL_MSG_HELLO).
  - destruct (is_validate_hello _) as [|[c' k']] eqn:Hv; simplify_eq.
    apply is_validate_hello_lengths in Hv. lia.
  - repeat (case_match; try done); simplify_eq; try lia.
    all: match goal with E : is_validate_chunk_count _ = inr _ |- _ =>
      apply is_validate_chunk_count_range in E as [_ ?] end; lia.
Qed.

(** Every well-typed message that passes validation fits a frame: with a
    4096-byte buffer the encoder fails only when the header or the payload is
    invalid, and then with the code of that validation. *)
Theorem encode_never_oversized `{ProtocolBuild} m buf cap :
  wf_message m -> IS_PROTOCOL_MAX_FRAME_SIZE <= cap ->
  match is_protocol_encode (Some m) (Some buf) cap with
  | inr _ => is_validate_header (msg_header m) = inr tt
  | inl e => is_validate_header (msg_header m) = inl e \/
             (is_validate_header (msg_header m) = inr tt /\ is_payload_size m = inl e)
  end.
Proof.
  intros Hwf Hcap. unfold is_protocol_encode. unfold_sizes.
  destruct (is_validate_header _) as [|[]] eqn:Hh; [by left|].
  destruct (is_payload_size m) as [|[[n c] k]] eqn:Hs; [by right|].
  pose proof (is_payload_size_bound m n c k Hwf Hs).
  replace (n >? 4096 - 48) with false by lia. by replace (cap <? 48 + n) with false by lia.
Qed.

Lemma encode_never_oversized_witness :
  match is_protocol_encode (H := default_build) (Some example_hello) (Some (zeros 4096)) 4096 with
  | inr _ => is_validate_header (H := default_build) (msg_header example_hello) = inr tt
  | inl e => False
  end.
Proof.
  pose proof (encode_never_oversized (H := default_build) example_hello (zeros 4096) 4096
    wf_example_hello ltac:(done)) as Hw.
  vm_compute in Hw |- *. exact Hw.
Defined.

(** ** Negotiation *)

Definition caps_subset (x y : Z) : Prop :=
  forall i, 0 <= i -> Z.testbit x i = true -> Z.testbit y i = true.

Lemma testbit_u64 x i : 0 <= i -> Z.testbit (u64 x) i = (i <? 64) && Z.testbit x i.
Proof.
  intros Hi. unfold wrap. destruct (i <? 64) eqn:E.
  - rewrite Z.mod_pow2_bits_low by lia. done.
  - rewrite Z.mod_pow2_bits_high by lia. done.
Qed.

Lemma testbit_high x i : is_u64 x -> 64 <= i -> Z.testbit x i = false.
Proof.
  intros Hx Hi. rewrite <- (wrap_small 64 x) by done. rewrite testbit_u64 by lia.
  by replace (i <? 64) with false by lia.
Qed.

Lemma andnot64_subset x y : is_u64 x -> andnot64 x y = 0 <-> caps_subset x y.
Proof.
  intros Hx. unfold andnot64, caps_subset. rewrite <- Z.bits_inj_iff'. split.
  - intros H i Hi Hxi. specialize (H i Hi).
    rewrite Z.land_spec, testbit_u64, Z.lnot_spec, Z.bits_0, Hxi in H by lia.
    destruct (i <? 64) eqn:E; [by destruct (Z.testbit y i)|].
    rewrite testbit_high in Hxi by (done || lia). done.
  - intros H i Hi. rewrite Z.land_spec, testbit_u64, Z.lnot_spec, Z.bits_0 by lia.
    destruct (Z.testbit x i) eqn:E; [|done]. by rewrite (H i Hi E), andb_false_r.
Qed.

Lemma lor_u64 x y : is_u64 x -> is_u64 y -> is_u64 (Z.lor x y).
Proof.
  intros Hx Hy. replace (Z.lor x y) with (u64 (Z.lor x y)); [apply wrap_in_u; lia|].
  apply Z.bits_inj'. intros i Hi. rewrite testbit_u64, Z.lor_spec by done.
  destruct (i <? 64) eqn:E; [done|]. by rewrite !testbit_high by (done || lia).
Qed.

Lemma caps_subset_lor x y z : caps_subset (Z.lor x y) z <-> caps_subset x z /\ caps_subset y z.
Proof.
  unfold caps_subset. setoid_rewrite Z.lor_spec. setoid_rewrite orb_true_iff.
  split; [|intros [H1 H2] i Hi [|]; auto]. intros H; split; intros i Hi Hx; apply H; auto.
Qed.

Lemma caps_subset_land x y z : caps_subset x (Z.land y z) <-> caps_subset x y /\ caps_subset x z.
Proof.
  unfold caps_subset. setoid_rewrite Z.land_spec. setoid_rewrite andb_true_iff.
  split; [intros H; split; intros i Hi Hx; by apply H|]. intros [H1 H2] i Hi Hx; auto.
Qed.

(** Negotiation succeeds exactly when both minors are in the window of
    this build and adjacent, and every capability that either side requires is
    known and offered by both; it yields the lower minor and the shared
    capabilities. *)
Theorem negotiate_spec `{ProtocolBuild} lm lc lr pm pc pr minor caps :
  is_u64 lr -> is_u64 pr ->
  is_protocol_negotiate lm lc lr pm pc pr = inr (minor, caps) <->
  is_minor_valid lm = true /\ is_minor_valid pm = true /\ Z.abs (lm - pm) <= 1 /\
  caps_subset (Z.lor lr pr) IS_PROTOCOL_CAP_KNOWN /\
  caps_subset (Z.lor lr pr) (Z.land lc pc) /\
  minor = Z.min lm pm /\ caps = Z.land lc pc.
Proof.
  intros Hlr Hpr. pose proof (lor_u64 lr pr Hlr Hpr) as Hor.
  rewrite <- (andnot64_subset _ IS_PROTOCOL_CAP_KNOWN), caps_subset_lor, !caps_subset_land by done.
  rewrite <- !andnot64_subset by done. unfold is_protocol_negotiate.
  assert (Hshared : andnot64 (Z.lor lr pr) (Z.land lc pc) = 0 <->
    (andnot64 lr lc = 0 /\ andnot64 lr pc = 0) /\ andnot64 pr lc = 0 /\ andnot64 pr pc = 0).
  { rewrite !andnot64_subset, caps_subset_lor, !caps_subset_land by done. done. }
  destruct (is_minor_valid lm), (is_minor_valid pm); cbn [negb orb]; try (split; intros; by intuition).
  replace (if lm >? pm then _ else _) with (Z.abs (lm - pm)) by (destruct (lm >? pm) eqn:?; lia).
  replace (if lm <? pm then lm else pm) with (Z.min lm pm) by (destruct (lm <? pm) eqn:?; lia).
  destruct (Z.abs (lm - pm) >? 1) eqn:E1; [split; intros; [done|lia]|].
  destruct (Z.eqb_spec (andnot64 (Z.lor lr pr) IS_PROTOCOL_CAP_KNOWN) 0); cbn [negb]; [|by intuition].
  destruct (Z.eqb_spec (andnot64 lr lc) 0); cbn [negb orb]; [|by intuition].
  destruct (Z.eqb_spec (andnot64 pr pc) 0); cbn [negb orb]; [|by intuition].
  destruct (Z.eqb_spec (andnot64 (Z.lor lr pr) (Z.land lc pc)) 0); cbn [negb]; [|by intuition].
  split; [intros [= <- <-]; intuition lia|]. intros (_ & _ & _ & _ & _ & -> & ->). done.
Qed.

Lemma negotiate_spec_witness :
  is_protocol_negotiate (H := default_build) 1 0x7f 0x70 0 0x7d 0x10 = inr (0, 0x7d).
Proof.
  apply (negotiate_spec (H := default_build)); [by unfold in_u; cbn; lia..|].
  split_and!; try done; intros i Hi;
    apply (andnot64_subset _ _); done || by unfold in_u; cbn; lia.
Defined.

(** Negotiation does not depend on which side runs it: both peers of a
    build compute the same version and capabilities, or the same error. *)
Theorem negotiate_symmetric `{ProtocolBuild} lm lc lr pm pc pr :
  is_protocol_negotiate lm lc lr pm pc pr = is_protocol_negotiate pm pc pr lm lc lr.
Proof.
  unfold is_protocol_negotiate. rewrite (Z.lor_comm pr lr), (Z.land_comm pc lc).
  rewrite (orb_comm (negb (is_minor_valid pm))), (orb_comm (negb (_ =? 0)) (negb (andnot64 lr lc =? 0))).
  replace (if pm >? lm then pm - lm else lm - pm) with (if lm >? pm then lm - pm else pm - lm)
    by (destruct (lm >? pm) eqn:?, (pm >? lm) eqn:?; lia).
  by replace (if pm <? lm then pm else lm) with (if lm <? pm then lm else pm)
    by (destruct (lm <? pm) eqn:?, (pm <? lm) eqn:?; lia).
Qed.

(** ** Adjacent builds *)

(** The versions a message names are in the window of the build. *)
Definition minors_valid (build : ProtocolBuild) (m : is_protocol_message) : bool :=
  is_minor_valid (H := build) (hdr_minor (msg_header m)) &&
  match msg_payload m with
  | payload_challenge c => is_minor_valid (H := build) (challenge_negotiated_minor c)
  | payload_accept a => is_minor_valid (H := build) (accept_negotiated_minor a)
  | _ => true
  end.

Lemma encode_build_independent b1 b2 m frame cap :
  wf_message m -> minors_valid b1 m = true -> minors_valid b2 m = true ->
  is_protocol_encode (H := b1) (Some m) frame cap = is_protocol_encode (H := b2) (Some m) frame cap.
Proof.
  unfold minors_valid. intros (_ & _ & Hp) [Hh1 Hp1]%andb_prop [Hh2 Hp2]%andb_prop.
  assert (Hv : is_validate_header (H := b1) (msg_header m) = is_validate_header (H := b2) (msg_header m)).
  { unfold is_validate_header. by rewrite Hh1, Hh2. }
  assert (Hs : is_payload_size (H := b1) m = is_payload_size (H := b2) m).
  { unfold is_payload_size.
    destruct (hdr_type (msg_header m) =? IS_PROTOCOL_MSG_HELLO); [done|].
    destruct (hdr_type (msg_header m) =? IS_PROTOCOL_MSG_CHALLENGE) eqn:Ec.
    { apply Z.eqb_eq in Ec. rewrite Ec in Hp. destruct (msg_payload m); try done.
      cbn [get_challenge]. by rewrite Hp1, Hp2. }
    destruct (hdr_type (msg_header m) =? IS_PROTOCOL_MSG_AUTH); [done|].
    destruct (hdr_type (msg_header m) =? IS_PROTOCOL_MSG_ACCEPT) eqn:Ea; [|done].
    apply Z.eqb_eq in Ea. rewrite Ea in Hp. destruct (msg_payload m); try done.
    cbn [get_accept]. by rewrite Hp1, Hp2. }
  unfold is_protocol_encode. by rewrite Hv, Hs.
Qed.

Lemma encode_minors_valid `{ProtocolBuild} m frame cap r :
  wf_message m -> is_protocol_encode (Some m) frame cap = inr r -> minors_valid H m = true.
Proof.
  intros (_ & _ & Hp) Henc. unfold is_protocol_encode in Henc. destruct frame; [|done].
  destruct (is_validate_header _) as [|[]] eqn:Hh; [done|].
  destruct (is_payload_size m) as [|[[n c] k]] eqn:Hs; [done|]. clear Henc.
  apply andb_true_intro. split.
  - revert Hh. unfold is_validate_header. destruct (is_minor_valid _); [done|].
    by rewrite orb_true_r.
  - revert Hs. unfold is_payload_size.
    destruct (msg_payload m); try done; cbn [payload_matches] in Hp;
      apply Z.eqb_eq in Hp; rewrite Hp; cbn; by destruct (is_minor_valid _).
Qed.

(** A frame encoded by one build decodes to the same message on any build
    whose version window contains the versions the message names. *)
Theorem cross_build_roundtrip build1 build2 m buf cap out size :
  wf_message m -> minors_valid build2 m = true -> cap <= Z.of_nat (length buf) ->
  is_protocol_encode (H := build1) (Some m) (Some buf) cap = inr (out, size) ->
  is_protocol_decode (H := build2) (Some (take (Z.to_nat size) out)) size
    = inr (canonical_message m).
Proof.
  intros Hwf Hm2 Hcap Henc.
  pose proof (encode_minors_valid m _ _ _ Hwf Henc) as Hm1.
  rewrite (encode_build_independent build1 build2) in Henc by done.
  destruct (is_protocol_encode_inv _ _ _ _ _ Hwf Henc)
    as (n & c & k & Hh & Hs & -> & Hn & Hsize & -> & Hlen).
  destruct (take_buf_write_0 buf (frame_bytes m n c k)) as [Htake _]; [lia|].
  replace (Z.to_nat (48 + n)) with (length (frame_bytes m n c k)) by lia.
  rewrite Htake. by apply decode_frame_bytes.
Qed.

(** A 1.1 HELLO read by the 1.0 build. *)
Lemma cross_build_roundtrip_witness :
  exists out, is_protocol_decode (H := 0) (Some (take 94 out)) 94
    = inr (canonical_message example_hello).
Proof.
  eexists.
  refine (cross_build_roundtrip 1 0 example_hello (zeros 4096) 4096 _ 94
    wf_example_hello _ _ _); [done|done|].
  unfold is_protocol_encode. vm_compute. reflexivity.
Defined.

(** Adjacent builds negotiate: the binaries with minor [b] and [b + 1]
    compute the same outcome, the outcome of a success is the lower minor [b]
    with the shared capabilities, and both builds accept that minor. *)
Theorem adjacent_builds_negotiate b lc lr pc pr :
  0 <= b ->
  is_protocol_negotiate (H := b) b lc lr (b + 1) pc pr
    = is_protocol_negotiate (H := b + 1) (b + 1) pc pr b lc lr /\
  (forall minor caps,
    is_protocol_negotiate (H := b) b lc lr (b + 1) pc pr = inr (minor, caps) ->
    minor = b /\ caps = Z.land lc pc /\
    is_minor_valid (H := b) minor = true /\ is_minor_valid (H := b + 1) minor = true).
Proof.
  intros Hb.
  assert (Hw : forall m, m = b \/ m = b + 1 ->
    is_minor_valid (H := b) m = true /\ is_minor_valid (H := b + 1) m = true).
  { intros m Hm. unfold is_minor_valid, IS_PROTOCOL_MINOR_CURRENT, IS_PROTOCOL_MINOR_PREVIOUS,
      IS_PROTOCOL_MINOR_NEXT, IS_PROTOCOL_MINOR_CURRENT.
    rewrite !orb_true_iff, !Z.eqb_eq. replace (b + 1 >? 0) with true by lia. lia. }
  destruct (Hw b) as [H1 H2]; [lia|]. destruct (Hw (b + 1)) as [H3 H4]; [lia|].
  split.
  - unfold is_protocol_negotiate. rewrite H1, H2, H3, H4.
    rewrite (Z.lor_comm pr lr), (Z.land_comm pc lc), (orb_comm (negb (andnot64 pr pc =? 0))).
    replace (b >? b + 1) with false by lia. replace (b + 1 >? b) with true by lia.
    replace (b <? b + 1) with true by lia. by replace (b + 1 <? b) with false by lia.
  - intros minor caps. unfold is_protocol_negotiate. rewrite H1, H3.
    replace (b >? b + 1) with false by lia. replace (b <? b + 1) with true by lia.
    repeat (case_match; try done). intros [= <- <-]. done.
Qed.

Lemma adjacent_builds_negotiate_witness :
  is_protocol_negotiate (H := 0) 0 0x7f 0x70 1 0x7d 0x10 = inr (0, 0x7d) /\
  is_minor_valid (H := 1) 0 = true.
Proof.
  split; [done|].
  exact (proj2 (proj2 (proj2 (proj2 (adjacent_builds_negotiate 0 0x7f 0x70 0x7d 0x10 ltac:(done))
    0 0x7d eq_refl)))).
Defined.
