(* ===== verification/Text.v ===== *)
(** * Text of configuration files

    What src/infiniswap_daemon/infiniswap_auth.c and
    infiniswap_memory_manager.c share: reading lines with [fgets], [trim],
    splitting at ['='] and [parse_u32], which the two files define alike, and
    the [strtoul] they call.  A string is the list of its characters, without
    its NUL. *)
From Stdlib Require Import Strings.String Strings.Ascii.
From S2P Require Import Prelude.

Definition newline : string := String (ascii_of_nat 10) EmptyString.

(** The characters of a string literal. *)
Fixpoint chars (s : string) : list Z :=
  match s with
  | EmptyString => []
  | String c s' => Z.of_nat (nat_of_ascii c) :: chars s'
  end.

(** ** Lines *)

(** The buffers [fgets] fills: up to a newline, or [room] characters, one less
    than the buffer's size. *)
Fixpoint fgets_lines (room : nat) (line file : list Z) : list (list Z) :=
  match file with
  | [] => if bool_decide (line = []) then [] else [line]
  | c :: file' =>
      let line := line ++ [c] in
      if (c =? 10) || bool_decide (length line = room) then line :: fgets_lines room [] file'
      else fgets_lines room line file'
  end.

Definition blank (c : Z) : bool := (c =? 32) || (c =? 9).
Definition trailing (c : Z) : bool := blank c || (c =? 13) || (c =? 10).

Fixpoint drop_while (p : Z -> bool) (l : list Z) : list Z :=
  match l with
  | [] => []
  | c :: l' => if p c then drop_while p l' else l
  end.

Definition trim (value : list Z) : list Z :=
  rev (drop_while trailing (rev (drop_while blank value))).

(** [strchr(line, '=')] and the two strings around it. *)
Fixpoint separate (line : list Z) : option (list Z * list Z) :=
  match line with
  | [] => None
  | c :: line' =>
      if c =? 61 then Some ([], line')
      else (fun p => (c :: fst p, snd p)) <$> separate line'
  end.

(** ** Numbers *)

(** [isspace] in the C locale. *)
Definition is_space (c : Z) : bool := (c =? 32) || ((9 <=? c) && (c <=? 13)).
Definition is_digit (c : Z) : bool := (48 <=? c) && (c <=? 57).

Fixpoint take_while (p : Z -> bool) (l : list Z) : list Z :=
  match l with
  | [] => []
  | c :: l' => if p c then c :: take_while p l' else []
  end.

Definition decimal (digits : list Z) : Z := fold_left (fun n c => 10 * n + (c - 48)) digits 0.

(** [strtoull(value, &end, 10)], and [strtoul] where [long] has 64 bits: the
    number and the characters from [end] on, none for [ERANGE]. *)
Definition strtoull (value : list Z) : option (Z * list Z) :=
  let start := drop_while is_space value in
  let negative := byte_at start 0 =? 45 in
  let signed := negative || (byte_at start 0 =? 43) in
  let magnitude := if signed then drop 1 start else start in
  let digits := take_while is_digit magnitude in
  if bool_decide (digits = []) then Some (0, value)
  else if UINT64_MAX <? decimal digits then None
  else Some (u64 (if negative then - decimal digits else decimal digits),
             drop_while is_digit magnitude).

Definition parse_u64 (value : list Z) : option Z :=
  if bool_decide (value = []) || (byte_at value 0 =? 45) || (byte_at value 0 =? 43) then None
  else
    match strtoull value with
    | Some (number, []) => Some number
    | _ => None
    end.

Definition parse_u32 (value : list Z) : option Z :=
  if bool_decide (value = []) || (byte_at value 0 =? 45) || (byte_at value 0 =? 43) then None
  else
    match strtoull value with
    | Some (number, []) => if UINT32_MAX <? number then None else Some number
    | _ => None
    end.

(** * Printing numbers

    What [printf] prints for an unsigned number, and that [strtoul] reads it
    back. *)


(** The decimal digits of [n], of which there are at most [fuel]. *)
Fixpoint print_digits (fuel : nat) (n : Z) : list Z :=
  match fuel with
  | O => []
  | S fuel =>
      if n <? 10 then [48 + n] else print_digits fuel (n / 10) ++ [48 + n mod 10]
  end.

(** The conversions [%u], [%lu] and [%llu]: 64 bits have at most 20 digits. *)
Definition print_unsigned (n : Z) : list Z := print_digits 20 n.

Lemma decimal_snoc l c : decimal (l ++ [c]) = 10 * decimal l + (c - 48).
Proof. unfold decimal. by rewrite fold_left_app. Qed.

Lemma print_digits_spec fuel n :
  0 <= n < 10 ^ Z.of_nat fuel -> (0 < fuel)%nat ->
  decimal (print_digits fuel n) = n /\ Forall (fun c => is_digit c = true) (print_digits fuel n) /\
  (0 < length (print_digits fuel n) <= fuel)%nat.
Proof.
  revert n. induction fuel as [|fuel IH]; intros n Hn Hf; [lia|]. cbn [print_digits].
  destruct (Z.ltb_spec n 10).
  { cbn. unfold decimal. cbn. split_and!; [lia| |lia|lia]. constructor; [unfold is_digit; lia|constructor]. }
  assert (Hpos : (0 < fuel)%nat) by (destruct fuel; [cbn in Hn; lia|lia]).
  rewrite Nat2Z.inj_succ, Z.pow_succ_r in Hn by lia.
  pose proof (Z.mod_pos_bound n 10). pose proof (Z.div_mod n 10).
  destruct (IH (n / 10)) as (E1 & E2 & E3); [|done|].
  { split; [apply Z.div_pos; lia|]. apply Z.div_lt_upper_bound; lia. }
  rewrite decimal_snoc, E1, length_app. cbn. split_and!; [lia| |lia|lia].
  apply list.Forall_app. split; [done|]. constructor; [unfold is_digit; lia|constructor].
Qed.

Lemma print_unsigned_spec n : is_u64 n ->
  decimal (print_unsigned n) = n /\ Forall (fun c => is_digit c = true) (print_unsigned n) /\
  (0 < length (print_unsigned n) <= 20)%nat.
Proof. intros [Hn Hm]. apply print_digits_spec; [|lia]. cbn in *. lia. Qed.

(** ** Reading them back *)

Lemma take_while_all (p : Z -> bool) l rest :
  Forall (fun c => p c = true) l -> (forall c, head rest = Some c -> p c = false) ->
  take_while p (l ++ rest) = l /\ drop_while p (l ++ rest) = rest.
Proof.
  intros Hl Hr. induction Hl as [|c l Hc _ [IH1 IH2]]; cbn.
  - destruct rest as [|c rest]; [done|]. cbn. by rewrite (Hr c eq_refl).
  - by rewrite Hc, IH1, IH2.
Qed.

Lemma digits_head l rest : Forall (fun c => is_digit c = true) l -> (0 < length l)%nat ->
  is_digit (byte_at (l ++ rest) 0) = true.
Proof. intros Hl Hn. destruct Hl; [cbn in Hn; lia|done]. Qed.

(** A printed number, and what follows it, as [strtoul] reads them. *)
Lemma strtoull_print n rest :
  is_u64 n -> (forall c, head rest = Some c -> is_digit c = false) ->
  strtoull (print_unsigned n ++ rest) = Some (n, rest).
Proof.
  intros Hn Hr. destruct (print_unsigned_spec n Hn) as (Hd & Hf & Hl). set (l := print_unsigned n) in *.
  destruct (take_while_all is_digit l rest Hf Hr) as [Ht Hdr].
  pose proof (digits_head l rest Hf ltac:(lia)) as Hh. unfold is_digit in Hh.
  assert (Hs : drop_while is_space (l ++ rest) = l ++ rest).
  { destruct l as [|c l]; [cbn in Hl; lia|]. cbn. apply Forall_cons_1 in Hf as [Hc _].
    unfold is_digit in Hc. unfold is_space. by replace ((c =? 32) || _) with false by lia. }
  unfold strtoull. rewrite Hs. replace (byte_at (l ++ rest) 0 =? 45) with false by lia.
  replace (byte_at (l ++ rest) 0 =? 43) with false by lia. cbn [orb]. rewrite Ht, Hdr, Hd.
  rewrite bool_decide_eq_false_2 by (intros E; rewrite E in Hl; cbn in Hl; lia).
  unfold in_u, UINT64_MAX in *. replace (2 ^ 64 - 1 <? n) with false by lia.
  f_equal. f_equal. by apply wrap_small.
Qed.

Lemma parse_u32_print n : is_u32 n -> parse_u32 (print_unsigned n) = Some n.
Proof.
  intros Hn. assert (Hn64 : is_u64 n) by (unfold in_u in *; pow_lia).
  destruct (print_unsigned_spec n Hn64) as (Hd & Hf & Hl).
  pose proof (digits_head _ [] Hf ltac:(lia)) as Hh. rewrite app_nil_r in Hh. unfold is_digit in Hh.
  pose proof (strtoull_print n [] Hn64 ltac:(done)) as Hs. rewrite app_nil_r in Hs.
  unfold parse_u32. rewrite bool_decide_eq_false_2 by (intros E; rewrite E in Hl; cbn in Hl; lia).
  replace (byte_at (print_unsigned n) 0 =? 45) with false by lia.
  replace (byte_at (print_unsigned n) 0 =? 43) with false by lia. cbn [orb]. rewrite Hs.
  unfold in_u, UINT32_MAX in *. by replace (2 ^ 32 - 1 <? n) with false by lia.
Qed.
