(* ===== verification/IoPolicy.v ===== *)
(** * Completion policy of one I/O request: infiniswap_bd/is_io_policy.h

    The policy decides, from the results of the Backing Store copy and of the
    RDMA operation, when and how the block request completes.  Flags are
    booleans, statuses are C integers (0 is success), actions are bit sets. *)
From S2P Require Import Prelude.

Definition IS_IO_NO_ACTION : Z := 0.
Definition IS_IO_SUBMIT_LOCAL : Z := Z.shiftl 1 0.
Definition IS_IO_COMPLETE_SUCCESS : Z := Z.shiftl 1 1.
Definition IS_IO_COMPLETE_ERROR : Z := Z.shiftl 1 2.
Definition IS_IO_BACKING_DEGRADED : Z := Z.shiftl 1 3.
Definition IS_IO_MARK_LOCAL_ONLY : Z := Z.shiftl 1 4.

(** [action & flag] as a condition. *)
Definition has_action (action flag : Z) : bool := negb (Z.land action flag =? 0).

Inductive is_io_policy_kind :=
| IS_IO_POLICY_STRICT_WRITE
| IS_IO_POLICY_REMOTE_FIRST_WRITE
| IS_IO_POLICY_REMOTE_READ
| IS_IO_POLICY_REMOTE_ONLY_WRITE
| IS_IO_POLICY_REMOTE_ONLY_READ.

#[export] Instance is_io_policy_kind_eq_dec : EqDecision is_io_policy_kind.
Proof. solve_decision. Defined.

Record is_io_policy := {
  pol_kind : is_io_policy_kind;
  pol_generation : Z;
  pol_local_pending : bool;
  pol_remote_pending : bool;
  pol_local_done : bool;
  pol_remote_done : bool;
  pol_remote_cancelled : bool;
  pol_request_complete : bool;
  pol_backing_degraded : bool;
  pol_local_status : Z;
  pol_remote_status : Z
}.

#[export] Instance is_io_policy_eta : Eta is_io_policy := fun p =>
  {| pol_kind := pol_kind p; pol_generation := pol_generation p; pol_local_pending := pol_local_pending p;
     pol_remote_pending := pol_remote_pending p; pol_local_done := pol_local_done p;
     pol_remote_done := pol_remote_done p; pol_remote_cancelled := pol_remote_cancelled p;
     pol_request_complete := pol_request_complete p; pol_backing_degraded := pol_backing_degraded p;
     pol_local_status := pol_local_status p; pol_remote_status := pol_remote_status p |}.

Definition is_io_policy_init_write (k : is_io_policy_kind) (gen : Z) : is_io_policy :=
  {| pol_kind := k; pol_generation := gen; pol_local_pending := true; pol_remote_pending := true;
     pol_local_done := false; pol_remote_done := false; pol_remote_cancelled := false;
     pol_request_complete := false; pol_backing_degraded := false;
     pol_local_status := 0; pol_remote_status := 0 |}.

Definition is_io_policy_init_remote (k : is_io_policy_kind) (gen : Z) : is_io_policy :=
  {| pol_kind := k; pol_generation := gen; pol_local_pending := false; pol_remote_pending := true;
     pol_local_done := false; pol_remote_done := false; pol_remote_cancelled := false;
     pol_request_complete := false; pol_backing_degraded := false;
     pol_local_status := 0; pol_remote_status := 0 |}.

Definition is_io_policy_init_remote_read (gen : Z) : is_io_policy :=
  is_io_policy_init_remote IS_IO_POLICY_REMOTE_READ gen.
Definition is_io_policy_init_remote_only_write (gen : Z) : is_io_policy :=
  is_io_policy_init_remote IS_IO_POLICY_REMOTE_ONLY_WRITE gen.
Definition is_io_policy_init_remote_only_read (gen : Z) : is_io_policy :=
  is_io_policy_init_remote IS_IO_POLICY_REMOTE_ONLY_READ gen.

(** Every routine returns the updated state and the action. *)
Definition is_io_policy_complete_request (state : is_io_policy) (status : Z) :
    is_io_policy * Z :=
  if pol_request_complete state then (state, IS_IO_NO_ACTION)
  else (state <| pol_request_complete := true |>,
        if status =? 0 then IS_IO_COMPLETE_SUCCESS else IS_IO_COMPLETE_ERROR).

Definition is_io_policy_finish_write (state : is_io_policy) : is_io_policy * Z :=
  if decide (pol_kind state = IS_IO_POLICY_STRICT_WRITE) then
    let action := if (pol_local_status state =? 0) && negb (pol_remote_status state =? 0)
                  then Z.lor IS_IO_NO_ACTION IS_IO_MARK_LOCAL_ONLY else IS_IO_NO_ACTION in
    let '(state, completed) := is_io_policy_complete_request state (pol_local_status state) in
    (state, Z.lor action completed)
  else if pol_remote_status state =? 0 then is_io_policy_complete_request state 0
  else
    let action := if pol_local_status state =? 0
                  then Z.lor IS_IO_NO_ACTION IS_IO_MARK_LOCAL_ONLY else IS_IO_NO_ACTION in
    let '(state, completed) := is_io_policy_complete_request state (pol_local_status state) in
    (state, Z.lor action completed).

Definition is_io_policy_local_complete (state : is_io_policy) (status : Z) :
    is_io_policy * Z :=
  if negb (pol_local_pending state) || pol_local_done state then (state, IS_IO_NO_ACTION)
  else
    let state := state <| pol_local_pending := false |> <| pol_local_done := true |>
                       <| pol_local_status := status |> in
    let '(state, action) :=
      if negb (status =? 0)
      then (state <| pol_backing_degraded := true |>, Z.lor IS_IO_NO_ACTION IS_IO_BACKING_DEGRADED)
      else (state, IS_IO_NO_ACTION) in
    if decide (pol_kind state = IS_IO_POLICY_REMOTE_READ) then
      let '(state, completed) := is_io_policy_complete_request state status in
      (state, Z.lor action completed)
    else if negb (pol_remote_done state) then (state, action)
    else
      let '(state, finished) := is_io_policy_finish_write state in
      (state, Z.lor action finished).

Definition is_io_policy_remote_terminal (state : is_io_policy) (status : Z) :
    is_io_policy * Z :=
  let state := state <| pol_remote_pending := false |> <| pol_remote_done := true |>
                     <| pol_remote_status := status |> in
  if bool_decide (pol_kind state = IS_IO_POLICY_REMOTE_ONLY_WRITE) ||
     bool_decide (pol_kind state = IS_IO_POLICY_REMOTE_ONLY_READ)
  then is_io_policy_complete_request state status
  else if decide (pol_kind state = IS_IO_POLICY_REMOTE_READ) then
    if status =? 0 then is_io_policy_complete_request state 0
    else (state <| pol_local_pending := true |>, IS_IO_SUBMIT_LOCAL)
  else if bool_decide (pol_kind state = IS_IO_POLICY_REMOTE_FIRST_WRITE) && (status =? 0)
  then is_io_policy_complete_request state 0
  else if negb (pol_local_done state) then (state, IS_IO_NO_ACTION)
  else is_io_policy_finish_write state.

Definition is_io_policy_remote_complete (state : is_io_policy) (gen status : Z) :
    is_io_policy * Z :=
  if negb (gen =? pol_generation state) || pol_remote_cancelled state ||
     negb (pol_remote_pending state) || pol_remote_done state
  then (state, IS_IO_NO_ACTION)
  else is_io_policy_remote_terminal state status.

Definition is_io_policy_cancel_remote (state : is_io_policy) (gen status : Z) :
    is_io_policy * Z :=
  if negb (gen =? pol_generation state) || pol_remote_cancelled state ||
     negb (pol_remote_pending state) || pol_remote_done state
  then (state, IS_IO_NO_ACTION)
  else is_io_policy_remote_terminal (state <| pol_remote_cancelled := true |>) status.

Definition is_io_policy_releasable (state : is_io_policy) : bool :=
  pol_request_complete state && negb (pol_local_pending state) && negb (pol_remote_pending state).

(** ** What a completion means *)

(** The status with which a request of the policy's kind may complete, given
    the results recorded so far. *)
Definition completion_ok (p : is_io_policy) (s : Z) : Prop :=
  match pol_kind p with
  | IS_IO_POLICY_STRICT_WRITE =>
      pol_local_done p = true /\ pol_remote_done p = true /\ s = pol_local_status p
  | IS_IO_POLICY_REMOTE_FIRST_WRITE =>
      pol_remote_done p = true /\
      (pol_remote_status p = 0 /\ s = 0 \/
       pol_remote_status p <> 0 /\ pol_local_done p = true /\ s = pol_local_status p)
  | IS_IO_POLICY_REMOTE_READ =>
      pol_remote_done p = true /\
      (pol_remote_status p = 0 /\ s = 0 \/
       pol_remote_status p <> 0 /\ pol_local_done p = true /\ s = pol_local_status p)
  | IS_IO_POLICY_REMOTE_ONLY_WRITE | IS_IO_POLICY_REMOTE_ONLY_READ =>
      pol_remote_done p = true /\ s = pol_remote_status p
  end.

Definition backed_write (k : is_io_policy_kind) : bool :=
  match k with
  | IS_IO_POLICY_STRICT_WRITE | IS_IO_POLICY_REMOTE_FIRST_WRITE => true
  | _ => false
  end.

Definition remote_only (k : is_io_policy_kind) : bool :=
  match k with
  | IS_IO_POLICY_REMOTE_ONLY_WRITE | IS_IO_POLICY_REMOTE_ONLY_READ => true
  | _ => false
  end.

(** The data is safe only in the Backing Store. *)
Definition must_mark_local_only (p : is_io_policy) : bool :=
  backed_write (pol_kind p) && pol_local_done p && pol_remote_done p &&
  (pol_local_status p =? 0) && negb (pol_remote_status p =? 0).

(** The results that the policy's kind waits for are there. *)
Definition must_complete (p : is_io_policy) : bool :=
  match pol_kind p with
  | IS_IO_POLICY_STRICT_WRITE => pol_local_done p && pol_remote_done p
  | IS_IO_POLICY_REMOTE_FIRST_WRITE | IS_IO_POLICY_REMOTE_READ =>
      pol_remote_done p && ((pol_remote_status p =? 0) || pol_local_done p)
  | IS_IO_POLICY_REMOTE_ONLY_WRITE | IS_IO_POLICY_REMOTE_ONLY_READ => pol_remote_done p
  end.

(** The states the policy goes through.  [local_wanted] is the set of states
    in which a Backing Store result is or was expected. *)
Record policy_inv (p : is_io_policy) : Prop := {
  inv_remote : pol_remote_pending p = negb (pol_remote_done p);
  inv_local_write : backed_write (pol_kind p) = true -> pol_local_pending p = negb (pol_local_done p);
  inv_local_read : pol_kind p = IS_IO_POLICY_REMOTE_READ ->
    pol_local_pending p || pol_local_done p = pol_remote_done p && negb (pol_remote_status p =? 0) /\
    pol_local_pending p && pol_local_done p = false;
  inv_local_none : remote_only (pol_kind p) = true -> pol_local_pending p = false /\ pol_local_done p = false;
  inv_degraded : pol_backing_degraded p = pol_local_done p && negb (pol_local_status p =? 0);
  inv_cancelled : pol_remote_cancelled p = true -> pol_remote_done p = true;
  inv_complete : pol_request_complete p = must_complete p
}.

(** ** The effect of an event on the policy *)

(** [is_transaction_completion_status] reports the Backing Store status once
    there is one. *)
Definition reported_status (p : is_io_policy) : Z :=
  if pol_local_done p then pol_local_status p else pol_remote_status p.

Definition completes (a : Z) : bool :=
  has_action a IS_IO_COMPLETE_SUCCESS || has_action a IS_IO_COMPLETE_ERROR.

Record action_spec (p p' : is_io_policy) (a : Z) : Prop := {
  as_kind : pol_kind p' = pol_kind p /\ pol_generation p' = pol_generation p;
  as_inv : policy_inv p';
  as_complete : completes a = negb (pol_request_complete p) && pol_request_complete p';
  as_complete_mono : pol_request_complete p = true -> pol_request_complete p' = true;
  as_status : completes a = true ->
    completion_ok p' (if has_action a IS_IO_COMPLETE_SUCCESS then 0 else reported_status p');
  as_stable : forall s, completion_ok p s -> completion_ok p' s;
  as_mark : has_action a IS_IO_MARK_LOCAL_ONLY =
    negb (must_mark_local_only p) && must_mark_local_only p';
  as_mark_mono : must_mark_local_only p = true -> must_mark_local_only p' = true;
  as_mark_complete : has_action a IS_IO_MARK_LOCAL_ONLY = true -> completes a = true;
  as_degraded : has_action a IS_IO_BACKING_DEGRADED =
    negb (pol_backing_degraded p) && pol_backing_degraded p';
  as_degraded_mono : pol_backing_degraded p = true -> pol_backing_degraded p' = true;
  as_submit : has_action a IS_IO_SUBMIT_LOCAL =
    negb (pol_local_pending p) && pol_local_pending p'
}.

(** [solve_policy] evaluates the closed actions of a goal and decides it from
    the zero tests of the statuses. *)
Ltac eval_actions :=
  repeat match goal with
  | |- context [has_action ?a ?b] =>
      let v := eval vm_compute in (has_action a b) in change (has_action a b) with v
  | |- context [completes ?a] =>
      let v := eval vm_compute in (completes a) in change (completes a) with v
  end.
Ltac solve_policy :=
  eval_actions;
  repeat match goal with
  | H : (_ =? _) = true |- _ => apply Z.eqb_eq in H; subst
  | H : (_ =? _) = false |- _ => apply Z.eqb_neq in H
  end; cbn in *; intuition (congruence || lia).

Ltac case_policy p :=
  destruct p as [k g lp rp ld rd rc rq bd ls rs];
  intros [Hr Hlw Hlr Hln Hd Hcan Hc]; unfold must_complete in Hc; cbn in *.

Lemma local_complete_spec p s :
  policy_inv p -> pol_local_pending p = true ->
  let '(p', a) := is_io_policy_local_complete p s in
  action_spec p p' a /\ pol_local_pending p' = false /\
  pol_remote_pending p' = pol_remote_pending p /\ pol_local_done p' = true /\
  pol_local_status p' = s.
Proof.
  case_policy p. intros ->.
  assert (ld = false) as ->.
  { destruct k; cbn in *; try (by destruct (Hln eq_refl)); try (by destruct ld; auto).
    all: destruct (Hlr eq_refl); by destruct ld. }
  subst rp bd rq. cbn. destruct k; cbn in *; try (by destruct (Hln eq_refl)).
  all: destruct rd, (s =? 0) eqn:Es, (rs =? 0) eqn:Ers; cbn in *; try (by destruct (Hlr eq_refl)).
  all: unfold is_io_policy_finish_write; cbn; rewrite ?Es, ?Ers; cbn; rewrite ?Es, ?Ers; cbn.
  all: split; [constructor|]; unfold must_mark_local_only, completion_ok; cbn; rewrite ?Es, ?Ers; try done.
  all: try (constructor; unfold must_complete; cbn; rewrite ?Es, ?Ers); try done; solve_policy.
Qed.

Lemma remote_terminal_spec p c s :
  policy_inv p -> pol_remote_pending p = true ->
  let '(p', a) := is_io_policy_remote_terminal (p <| pol_remote_cancelled := c |>) s in
  action_spec p p' a /\ pol_remote_pending p' = false /\
  pol_remote_done p' = true /\ pol_remote_status p' = s /\
  (pol_local_pending p = true -> pol_local_pending p' = true).
Proof.
  case_policy p. intros ->. assert (rd = false) as -> by (by destruct rd).
  subst bd rq. unfold is_io_policy_remote_terminal.
  destruct k; cbn in *; try (destruct (Hln eq_refl) as [-> ->]); try (rewrite (Hlw eq_refl));
    try (destruct (Hlr eq_refl) as [[-> ->]%orb_false_iff _]); try destruct ld; cbn.
  all: destruct (s =? 0) eqn:Es, (ls =? 0) eqn:Els; cbn in *.
  all: unfold is_io_policy_finish_write, is_io_policy_complete_request; cbn; rewrite ?Es, ?Els; cbn.
  all: split; [constructor|]; unfold must_mark_local_only, completion_ok; cbn; rewrite ?Es, ?Els; try done.
  all: try (constructor; unfold must_complete; cbn; rewrite ?Es, ?Els); try done; solve_policy.
Qed.

(** The two ways a remote operation ends, on the current generation. *)
Definition remote_result (p : is_io_policy) (cancelled : bool) (s : Z) : is_io_policy * Z :=
  if cancelled then is_io_policy_cancel_remote p (pol_generation p) s
  else is_io_policy_remote_complete p (pol_generation p) s.

Lemma remote_result_spec p cancelled s :
  policy_inv p -> pol_remote_pending p = true ->
  let '(p', a) := remote_result p cancelled s in
  action_spec p p' a /\ pol_remote_pending p' = false /\
  pol_remote_done p' = true /\ pol_remote_status p' = s /\
  (pol_local_pending p = true -> pol_local_pending p' = true).
Proof.
  intros Hinv Hp. pose proof (inv_remote p Hinv) as Hr. pose proof (inv_cancelled p Hinv) as Hc.
  rewrite Hp in Hr. destruct (pol_remote_done p) eqn:Hd; [done|].
  destruct (pol_remote_cancelled p) eqn:Hcan; [by specialize (Hc eq_refl)|].
  unfold remote_result, is_io_policy_cancel_remote, is_io_policy_remote_complete.
  rewrite Z.eqb_refl, Hp, Hd, Hcan. cbn [negb orb].
  destruct cancelled.
  - exact (remote_terminal_spec p true s Hinv Hp).
  - pose proof (remote_terminal_spec p false s Hinv Hp) as Hs.
    replace (p <| pol_remote_cancelled := false |>) with p in Hs; [done|].
    destruct p; cbn in *. by rewrite Hcan.
Qed.

(** An event of another generation changes nothing. *)
Lemma stale_generation p gen s :
  gen <> pol_generation p ->
  is_io_policy_remote_complete p gen s = (p, IS_IO_NO_ACTION) /\
  is_io_policy_cancel_remote p gen s = (p, IS_IO_NO_ACTION).
Proof.
  intros Hg. unfold is_io_policy_remote_complete, is_io_policy_cancel_remote.
  by rewrite (proj2 (Z.eqb_neq _ _) Hg).
Qed.

Lemma init_policy_inv k gen :
  policy_inv (if backed_write k then is_io_policy_init_write k gen
              else is_io_policy_init_remote k gen).
Proof. by destruct k; constructor. Qed.

(** ** The order of the two results of a backed write does not matter *)

Definition backed_write_ordered (local_first : bool) (k : is_io_policy_kind) (gen ls rs : Z) :
    is_io_policy * Z :=
  let p := is_io_policy_init_write k gen in
  if local_first then
    let '(p, a1) := is_io_policy_local_complete p ls in
    let '(p, a2) := is_io_policy_remote_complete p gen rs in (p, Z.lor a1 a2)
  else
    let '(p, a1) := is_io_policy_remote_complete p gen rs in
    let '(p, a2) := is_io_policy_local_complete p ls in (p, Z.lor a1 a2).

(** C3.  A backed write reaches the same final state and requests the same set
    of actions whichever of its two results arrives first; the request has then
    completed, and it is releasable. *)
Theorem backed_write_confluent k gen ls rs :
  backed_write k = true ->
  backed_write_ordered true k gen ls rs = backed_write_ordered false k gen ls rs /\
  is_io_policy_releasable (fst (backed_write_ordered true k gen ls rs)) = true.
Proof.
  intros Hk. unfold backed_write_ordered, is_io_policy_remote_complete, is_io_policy_local_complete,
    is_io_policy_remote_terminal, is_io_policy_finish_write, is_io_policy_complete_request.
  destruct k; try done; destruct (ls =? 0) eqn:El, (rs =? 0) eqn:Er;
    repeat (cbv -[Z.eqb]; rewrite ?Z.eqb_refl, ?El, ?Er); done.
Qed.

Lemma backed_write_confluent_witness :
  backed_write_ordered true IS_IO_POLICY_REMOTE_FIRST_WRITE 3 (-5) 0
    = backed_write_ordered false IS_IO_POLICY_REMOTE_FIRST_WRITE 3 (-5) 0.
Proof. exact (proj1 (backed_write_confluent IS_IO_POLICY_REMOTE_FIRST_WRITE 3 (-5) 0 eq_refl)). Defined.
