(* ===== verification/IoTransaction.v ===== *)
(** * One remote I/O transaction: infiniswap_bd/is_remote_io_transaction.c

    A transaction is shared by the thread that starts it and by the adapters
    that report the Backing Store result, the RDMA result and the release of
    the RDMA transport, in any order and concurrently.  A thread is the list of
    what it still has to do: the section of a routine under the transaction's
    lock and every adapter call are one instruction each, so that [step] ranges
    over all interleavings of the code. *)
From S2P Require Import Prelude IoPolicy.

(** ** Data (is_remote_io_transaction.h, is_remote_io_transaction.c:112-124) *)

Definition IS_REMOTE_IO_TRANSACTION_BACKED_STRICT : Z := 1.
Definition IS_REMOTE_IO_TRANSACTION_BACKED_REMOTE_FIRST : Z := 2.
Definition IS_REMOTE_IO_TRANSACTION_REMOTE_ONLY : Z := 3.

Definition IS_REMOTE_IO_TRANSACTION_READ : Z := 1.
Definition IS_REMOTE_IO_TRANSACTION_WRITE : Z := 2.

(** [spec_payload] is a pointer, 0 being NULL. *)
Record is_remote_io_transaction_spec := {
  spec_direction : Z;
  spec_sector : Z;
  spec_bytes : Z;
  spec_generation : Z;
  spec_payload : Z
}.

Record is_remote_io_transaction_engine := {
  active_transactions : Z;
  mode : Z;
  initialized : bool
}.

#[export] Instance engine_eta : Eta is_remote_io_transaction_engine := fun e =>
  {| active_transactions := active_transactions e; mode := mode e;
     initialized := initialized e |}.

Inductive is_remote_io_transaction_event :=
| IS_REMOTE_IO_TRANSACTION_EVENT_BACKING_COMPLETED
| IS_REMOTE_IO_TRANSACTION_EVENT_RDMA_COMPLETED
| IS_REMOTE_IO_TRANSACTION_EVENT_RDMA_RELEASED
| IS_REMOTE_IO_TRANSACTION_EVENT_ENGINE_DESTROY_ACTIVE.

Record is_remote_io_transaction := {
  tx_spec : is_remote_io_transaction_spec;
  tx_policy : is_io_policy;
  active_events : Z;
  backing_retries : Z;
  backing_claim : bool;
  rdma_result_claim : bool;
  rdma_transport_claim : bool;
  invariant_reported : bool;
  settling : bool
}.

#[export] Instance transaction_eta : Eta is_remote_io_transaction := fun t =>
  {| tx_spec := tx_spec t; tx_policy := tx_policy t; active_events := active_events t;
     backing_retries := backing_retries t; backing_claim := backing_claim t;
     rdma_result_claim := rdma_result_claim t;
     rdma_transport_claim := rdma_transport_claim t;
     invariant_reported := invariant_reported t; settling := settling t |}.

(** The adapter calls that have an effect outside of the transaction. *)
Inductive adapter_call :=
| adapter_complete (status : Z)
| adapter_backing_degraded
| adapter_mark_local_only
| adapter_release
| adapter_settle
| adapter_invariant (event : is_remote_io_transaction_event).

(** What a thread still has to execute. *)
Inductive instr :=
| call_prepare
| call_start_backing
| call_submit_backing
| call_submit_rdma
| call_backing_completed (status : Z)
| call_rdma_completed (generation status : Z) (cancelled : bool)
| call_rdma_released (generation : Z)
| call_finish_event (event : is_remote_io_transaction_event)
| call_adapter (call : adapter_call)
| call_counter_decrement.

(** ** Routines *)

Definition is_transaction_begin_event (t : is_remote_io_transaction) :
    is_remote_io_transaction :=
  t <| active_events := u32 (active_events t + 1) |>.

Definition is_transaction_note_invariant (t : is_remote_io_transaction) :
    is_remote_io_transaction * bool :=
  if invariant_reported t then (t, false) else (t <| invariant_reported := true |>, true).

Definition is_transaction_completion_status (t : is_remote_io_transaction) : Z :=
  if pol_local_done (tx_policy t) then pol_local_status (tx_policy t)
  else pol_remote_status (tx_policy t).

Definition report_instr (report : bool) (event : is_remote_io_transaction_event) : list instr :=
  if report then [call_adapter (adapter_invariant event)] else [].

(** The locked section, then what is left of the routine. *)
Definition is_transaction_finish_event (t : is_remote_io_transaction)
    (event : is_remote_io_transaction_event) : is_remote_io_transaction * list instr :=
  let t := if negb (active_events t =? 0)
           then t <| active_events := active_events t - 1 |> else t in
  if (active_events t =? 0) && negb (backing_claim t) && negb (rdma_result_claim t) &&
     negb (rdma_transport_claim t) && negb (settling t)
  then
    if negb (is_io_policy_releasable (tx_policy t)) then
      let '(t, report) := is_transaction_note_invariant t in
      (t, report_instr report event)
    else
      (t <| settling := true |>,
       [call_adapter adapter_release; call_counter_decrement; call_adapter adapter_settle])
  else (t, []).

Definition is_transaction_apply_action (action completion_status : Z) : list instr :=
  (if has_action action IS_IO_BACKING_DEGRADED
   then [call_adapter adapter_backing_degraded] else []) ++
  (if has_action action IS_IO_MARK_LOCAL_ONLY
   then [call_adapter adapter_mark_local_only] else []) ++
  (if has_action action IS_IO_SUBMIT_LOCAL then [call_submit_backing] else []) ++
  (if has_action action IS_IO_COMPLETE_SUCCESS then [call_adapter (adapter_complete 0)]
   else if has_action action IS_IO_COMPLETE_ERROR
   then [call_adapter (adapter_complete completion_status)] else []).

Definition policy_kind (mode direction : Z) : option is_io_policy_kind :=
  if mode =? IS_REMOTE_IO_TRANSACTION_BACKED_STRICT then
    Some (if direction =? IS_REMOTE_IO_TRANSACTION_WRITE
          then IS_IO_POLICY_STRICT_WRITE else IS_IO_POLICY_REMOTE_READ)
  else if mode =? IS_REMOTE_IO_TRANSACTION_BACKED_REMOTE_FIRST then
    Some (if direction =? IS_REMOTE_IO_TRANSACTION_WRITE
          then IS_IO_POLICY_REMOTE_FIRST_WRITE else IS_IO_POLICY_REMOTE_READ)
  else if mode =? IS_REMOTE_IO_TRANSACTION_REMOTE_ONLY then
    Some (if direction =? IS_REMOTE_IO_TRANSACTION_WRITE
          then IS_IO_POLICY_REMOTE_ONLY_WRITE else IS_IO_POLICY_REMOTE_ONLY_READ)
  else None.

Definition is_transaction_init_policy (engine : is_remote_io_transaction_engine)
    (t : is_remote_io_transaction) : Z + is_remote_io_transaction :=
  let gen := spec_generation (tx_spec t) in
  match policy_kind (mode engine) (spec_direction (tx_spec t)) with
  | None => inl (- EINVAL)
  | Some k =>
      let t :=
        match k with
        | IS_IO_POLICY_STRICT_WRITE | IS_IO_POLICY_REMOTE_FIRST_WRITE =>
            t <| tx_policy := is_io_policy_init_write k gen |> <| backing_claim := true |>
        | IS_IO_POLICY_REMOTE_READ => t <| tx_policy := is_io_policy_init_remote_read gen |>
        | IS_IO_POLICY_REMOTE_ONLY_WRITE =>
            t <| tx_policy := is_io_policy_init_remote_only_write gen |>
        | IS_IO_POLICY_REMOTE_ONLY_READ =>
            t <| tx_policy := is_io_policy_init_remote_only_read gen |>
        end in
      inr (t <| rdma_result_claim := true |> <| rdma_transport_claim := true |>)
  end.

Definition is_transaction_spec_valid (spec : is_remote_io_transaction_spec) : bool :=
  negb (spec_payload spec =? 0) && negb (spec_bytes spec =? 0) &&
  negb (spec_generation spec =? 0) &&
  ((spec_direction spec =? IS_REMOTE_IO_TRANSACTION_READ) ||
   (spec_direction spec =? IS_REMOTE_IO_TRANSACTION_WRITE)).

(** The adapter calls of a rejected start and the engine's counter after it. *)
Definition is_transaction_reject_start (engine : is_remote_io_transaction_engine)
    (status : Z) (registered : bool) : is_remote_io_transaction_engine * list adapter_call :=
  (if registered
   then engine <| active_transactions := u32 (active_transactions engine - 1) |> else engine,
   [adapter_complete status; adapter_settle]).

Definition is_transaction_fail_rdma_submission (t : is_remote_io_transaction) (status : Z) :
    list instr :=
  [call_rdma_released (spec_generation (tx_spec t));
   call_rdma_completed (spec_generation (tx_spec t)) status false].

Definition is_remote_io_transaction_engine_init (m : Z) :
    Z + is_remote_io_transaction_engine :=
  if negb (m =? IS_REMOTE_IO_TRANSACTION_BACKED_STRICT) &&
     negb (m =? IS_REMOTE_IO_TRANSACTION_BACKED_REMOTE_FIRST) &&
     negb (m =? IS_REMOTE_IO_TRANSACTION_REMOTE_ONLY)
  then inl (- EINVAL)
  else inr {| active_transactions := 0; mode := m; initialized := true |}.

(** The engine after the call, the adapter calls and the result. *)
Definition is_remote_io_transaction_engine_destroy
    (engine : is_remote_io_transaction_engine) :
    is_remote_io_transaction_engine * list adapter_call * Z :=
  if negb (initialized engine) then (engine, [], - EINVAL)
  else if negb (active_transactions engine =? 0) then
    (engine, [adapter_invariant IS_REMOTE_IO_TRANSACTION_EVENT_ENGINE_DESTROY_ACTIVE], - EBUSY)
  else (engine <| initialized := false |>, [], 0).

(** [is_remote_io_transaction_start] up to the call of
    [is_remote_io_transaction_adapter_prepare] (the thread then continues with
    [call_prepare]).  [allocation] is what the allocation adapter returns, its
    status and the storage pointer, and [lock_status] the result of
    [is_transaction_lock_init]; both come from the environment. *)
Definition is_remote_io_transaction_start (engine : is_remote_io_transaction_engine)
    (spec : is_remote_io_transaction_spec) (allocation : Z * Z) (lock_status : Z) :
    is_remote_io_transaction_engine * list adapter_call * option is_remote_io_transaction :=
  if negb (initialized engine) then
    (is_transaction_reject_start engine (- ESHUTDOWN) false, None)
  else
    let engine := engine <| active_transactions := u32 (active_transactions engine + 1) |> in
    if negb (is_transaction_spec_valid spec) then
      (is_transaction_reject_start engine (- EINVAL) true, None)
    else
      let '(status, storage) := allocation in
      if negb (status =? 0) || (storage =? 0) then
        (is_transaction_reject_start engine
           (if negb (status =? 0) then status else - ENOMEM) true, None)
      else
        let t := {|
          tx_spec := spec; tx_policy := is_io_policy_init_remote IS_IO_POLICY_STRICT_WRITE 0;
          active_events := 0; backing_retries := 0; backing_claim := false;
          rdma_result_claim := false; rdma_transport_claim := false;
          invariant_reported := false; settling := false |} in
        if negb (lock_status =? 0) then
          let '(engine, calls) := is_transaction_reject_start engine lock_status true in
          (engine, adapter_release :: calls, None)
        else
          let t := t <| active_events := 1 |> in
          match is_transaction_init_policy engine t with
          | inl status =>
              let '(engine, calls) := is_transaction_reject_start engine status true in
              (engine, adapter_release :: calls, None)
          | inr t => (engine, [], Some t)
          end.

(** The rest of the routine, by the status of the prepare adapter. *)
Definition start_after_prepare (t : is_remote_io_transaction) (status : Z) : list instr :=
  if negb (status =? 0) then
    [call_start_backing] ++ is_transaction_fail_rdma_submission t status ++
    [call_finish_event IS_REMOTE_IO_TRANSACTION_EVENT_RDMA_COMPLETED]
  else
    [call_start_backing; call_submit_rdma;
     call_finish_event IS_REMOTE_IO_TRANSACTION_EVENT_RDMA_COMPLETED].

Definition is_remote_io_transaction_backing_completed
    (engine : is_remote_io_transaction_engine) (t : is_remote_io_transaction) (status : Z) :
    is_remote_io_transaction * list instr :=
  let t := is_transaction_begin_event t in
  let '(t, after) :=
    if negb (backing_claim t) then
      let '(t, report) := is_transaction_note_invariant t in
      (t, report_instr report IS_REMOTE_IO_TRANSACTION_EVENT_BACKING_COMPLETED ++
          is_transaction_apply_action IS_IO_NO_ACTION status)
    else if negb (status =? 0) &&
            (mode engine =? IS_REMOTE_IO_TRANSACTION_BACKED_REMOTE_FIRST) &&
            (spec_direction (tx_spec t) =? IS_REMOTE_IO_TRANSACTION_WRITE) &&
            (backing_retries t =? 0)
    then (t <| backing_retries := u32 (backing_retries t + 1) |>, [call_submit_backing])
    else
      let '(policy, action) := is_io_policy_local_complete (tx_policy t) status in
      let t := t <| tx_policy := policy |> in
      let completion_status := is_transaction_completion_status t in
      (t <| backing_claim := false |>, is_transaction_apply_action action completion_status) in
  (t, after ++ [call_finish_event IS_REMOTE_IO_TRANSACTION_EVENT_BACKING_COMPLETED]).

Definition is_remote_io_transaction_rdma_completed (t : is_remote_io_transaction)
    (generation status : Z) (cancelled : bool) : is_remote_io_transaction * list instr :=
  let t := is_transaction_begin_event t in
  let '(t, report, action, completion_status) :=
    if negb (generation =? spec_generation (tx_spec t)) then (t, false, IS_IO_NO_ACTION, status)
    else if negb (rdma_result_claim t) then
      let '(t, report) := is_transaction_note_invariant t in (t, report, IS_IO_NO_ACTION, status)
    else
      let '(policy, action) :=
        if cancelled then is_io_policy_cancel_remote (tx_policy t) generation status
        else is_io_policy_remote_complete (tx_policy t) generation status in
      let t := t <| tx_policy := policy |> in
      let '(t, report) :=
        if has_action action IS_IO_SUBMIT_LOCAL then
          if backing_claim t then is_transaction_note_invariant t
          else (t <| backing_claim := true |>, false)
        else (t, false) in
      let completion_status := is_transaction_completion_status t in
      (t <| rdma_result_claim := false |>, report, action, completion_status) in
  (t, report_instr report IS_REMOTE_IO_TRANSACTION_EVENT_RDMA_COMPLETED ++
      is_transaction_apply_action action completion_status ++
      [call_finish_event IS_REMOTE_IO_TRANSACTION_EVENT_RDMA_COMPLETED]).

Definition is_remote_io_transaction_rdma_released (t : is_remote_io_transaction)
    (generation : Z) : is_remote_io_transaction * list instr :=
  let t := is_transaction_begin_event t in
  let '(t, report) :=
    if negb (generation =? spec_generation (tx_spec t)) then (t, false)
    else if negb (rdma_transport_claim t) then is_transaction_note_invariant t
    else (t <| rdma_transport_claim := false |>, false) in
  (t, report_instr report IS_REMOTE_IO_TRANSACTION_EVENT_RDMA_RELEASED ++
      [call_finish_event IS_REMOTE_IO_TRANSACTION_EVENT_RDMA_RELEASED]).

(** ** Interleavings

    [owed_backing], [owed_result] and [owed_transport] count the callbacks an
    adapter still owes after a submission it accepted (status 0). *)
Record config := {
  c_engine : is_remote_io_transaction_engine;
  c_tx : is_remote_io_transaction;
  c_threads : list (list instr);
  owed_backing : nat;
  owed_result : nat;
  owed_transport : nat;
  c_trace : list adapter_call
}.

#[export] Instance config_eta : Eta config := fun c =>
  {| c_engine := c_engine c; c_tx := c_tx c; c_threads := c_threads c;
     owed_backing := owed_backing c; owed_result := owed_result c;
     owed_transport := owed_transport c; c_trace := c_trace c |}.

(** Executing one instruction; [status] is what the called adapter returns.
    The result is the new state and what the thread does next. *)
Definition exec (c : config) (i : instr) (status : Z) : config * list instr :=
  let t := c_tx c in
  match i with
  | call_prepare => (c, start_after_prepare t status)
  | call_start_backing => (c, if backing_claim t then [call_submit_backing] else [])
  | call_submit_backing =>
      if negb (status =? 0) then (c, [call_backing_completed status])
      else (c <| owed_backing := S (owed_backing c) |>, [])
  | call_submit_rdma =>
      if negb (status =? 0) then (c, is_transaction_fail_rdma_submission t status)
      else (c <| owed_result := S (owed_result c) |>
              <| owed_transport := S (owed_transport c) |>, [])
  | call_backing_completed s =>
      let '(t, after) := is_remote_io_transaction_backing_completed (c_engine c) t s in
      (c <| c_tx := t |>, after)
  | call_rdma_completed generation s cancelled =>
      let '(t, after) := is_remote_io_transaction_rdma_completed t generation s cancelled in
      (c <| c_tx := t |>, after)
  | call_rdma_released generation =>
      let '(t, after) := is_remote_io_transaction_rdma_released t generation in
      (c <| c_tx := t |>, after)
  | call_finish_event event =>
      let '(t, after) := is_transaction_finish_event t event in
      (c <| c_tx := t |>, after)
  | call_adapter call => (c <| c_trace := c_trace c ++ [call] |>, [])
  | call_counter_decrement =>
      (c <| c_engine := (c_engine c) <| active_transactions :=
               u32 (active_transactions (c_engine c) - 1) |> |>, [])
  end.

(** A step of a thread, or a callback of an adapter that owes one.  A callback
    of another generation may come as long as the adapter still owes the
    current transaction its own. *)
Inductive step : config -> config -> Prop :=
| step_thread c T1 i k T2 status c' after :
    c_threads c = T1 ++ (i :: k) :: T2 ->
    exec c i status = (c', after) ->
    step c (c' <| c_threads := T1 ++ (after ++ k) :: T2 |>)
| step_backing c n status :
    owed_backing c = S n ->
    step c (c <| owed_backing := n |>
              <| c_threads := [call_backing_completed status] :: c_threads c |>)
| step_result c n status cancelled :
    owed_result c = S n ->
    step c (c <| owed_result := n |>
              <| c_threads :=
                   [call_rdma_completed (spec_generation (tx_spec (c_tx c))) status cancelled]
                   :: c_threads c |>)
| step_transport c n :
    owed_transport c = S n ->
    step c (c <| owed_transport := n |>
              <| c_threads := [call_rdma_released (spec_generation (tx_spec (c_tx c)))]
                              :: c_threads c |>).

(** Callbacks of another generation, while the transaction is live. *)
Inductive stale_step : config -> config -> Prop :=
| stale_result c generation status cancelled t after :
    generation <> spec_generation (tx_spec (c_tx c)) ->
    (0 < owed_result c + owed_transport c)%nat ->
    is_remote_io_transaction_rdma_completed (c_tx c) generation status cancelled = (t, after) ->
    stale_step c (c <| c_tx := t |> <| c_threads := after :: c_threads c |>)
| stale_transport c generation t after :
    generation <> spec_generation (tx_spec (c_tx c)) ->
    (0 < owed_result c + owed_transport c)%nat ->
    is_remote_io_transaction_rdma_released (c_tx c) generation = (t, after) ->
    stale_step c (c <| c_tx := t |> <| c_threads := after :: c_threads c |>).

(** A started transaction: its thread is about to call the prepare adapter. *)
Definition started (engine : is_remote_io_transaction_engine) (t : is_remote_io_transaction) :
    config :=
  {| c_engine := engine; c_tx := t; c_threads := [[call_prepare]];
     owed_backing := 0; owed_result := 0; owed_transport := 0; c_trace := [] |}.

Inductive initial : config -> Prop :=
| initial_intro engine spec allocation lock_status engine' t :
    is_u32 (active_transactions engine + 1) -> 0 <= active_transactions engine ->
    is_remote_io_transaction_start engine spec allocation lock_status = (engine', [], Some t) ->
    initial (started engine' t).

(** Fewer than [2^32 - 1] callbacks run at once, so that the 32-bit count of
    active events does not wrap. *)
Definition events_bounded (c : config) : Prop := active_events (c_tx c) + 1 < 2 ^ 32.

Inductive reachable (c0 : config) : config -> Prop :=
| reachable_initial : initial c0 -> reachable c0 c0
| reachable_step c c' :
    reachable c0 c -> events_bounded c -> step c c' \/ stale_step c c' -> reachable c0 c'.

Definition quiescent (c : config) : Prop :=
  Forall (fun k => k = []) (c_threads c) /\
  owed_backing c = 0%nat /\ owed_result c = 0%nat /\ owed_transport c = 0%nat.
