(* ===== verification/IoTransactionInv.v ===== *)
(** * The invariant of a remote I/O transaction

    Claims, active events and adapter calls are counted over the remaining
    code of all threads: a claim is held exactly while one callback for it is
    pending somewhere, and every call that the protocol requires is either
    still ahead of one thread or already made. *)
From S2P Require Import Prelude IoPolicy IoTransaction.

(** ** Weights *)

(** [bk]: the transaction starts with a Backing Store copy. *)
Definition w_backing (bk : bool) (i : instr) : nat :=
  match i with
  | call_backing_completed _ | call_submit_backing => 1
  | call_prepare | call_start_backing => b2n bk
  | _ => 0
  end.
Definition w_result (i : instr) : nat :=
  match i with
  | call_rdma_completed _ _ _ | call_submit_rdma | call_prepare => 1
  | _ => 0
  end.
Definition w_transport (i : instr) : nat :=
  match i with
  | call_rdma_released _ | call_submit_rdma | call_prepare => 1
  | _ => 0
  end.

(** The starting thread holds one active event until its own finish. *)
Definition w_finish (i : instr) : nat :=
  match i with call_finish_event _ | call_prepare => 1 | _ => 0 end.
Definition w_decrement (i : instr) : nat :=
  match i with call_counter_decrement => 1 | _ => 0 end.

Definition is_complete (a : adapter_call) : nat :=
  match a with adapter_complete _ => 1 | _ => 0 end.
Definition is_mark (a : adapter_call) : nat :=
  match a with adapter_mark_local_only => 1 | _ => 0 end.
Definition is_degraded (a : adapter_call) : nat :=
  match a with adapter_backing_degraded => 1 | _ => 0 end.
Definition is_release (a : adapter_call) : nat :=
  match a with adapter_release => 1 | _ => 0 end.
Definition is_settle (a : adapter_call) : nat :=
  match a with adapter_settle => 1 | _ => 0 end.
Definition is_invariant (a : adapter_call) : nat :=
  match a with adapter_invariant _ => 1 | _ => 0 end.

Definition on_adapter (f : adapter_call -> nat) (i : instr) : nat :=
  match i with call_adapter a => f a | _ => 0 end.

Definition total (w : instr -> nat) (ts : list (list instr)) : nat :=
  sum_list_with (sum_list_with w) ts.

(** The calls of a class that are made or still ahead. *)
Definition emitted (f : adapter_call -> nat) (c : config) : nat :=
  (total (on_adapter f) (c_threads c) + sum_list_with f (c_trace c))%nat.

Lemma total_split w T1 k T2 :
  total w (T1 ++ k :: T2) = (total w T1 + sum_list_with w k + total w T2)%nat.
Proof. unfold total. rewrite sum_list_with_app. cbn. lia. Qed.

Lemma total_cons w k T : total w (k :: T) = (sum_list_with w k + total w T)%nat.
Proof. done. Qed.

(** ** Threads *)

(** Instructions that read or write the transaction. *)
Definition touches (i : instr) : bool :=
  match i with
  | call_adapter adapter_release | call_adapter adapter_settle | call_counter_decrement => false
  | _ => true
  end.

Definition w_live (bk : bool) (i : instr) : nat :=
  (w_backing bk i + w_result i + w_transport i + w_finish i)%nat.

(** Whoever still touches the transaction is protected by a claim or by an
    event that its own thread will finish. *)
Fixpoint protected (bk : bool) (k : list instr) : Prop :=
  match k with
  | [] => True
  | i :: k' => (touches i = true -> (0 < sum_list_with (w_live bk) k)%nat) /\ protected bk k'
  end.

Lemma protected_app bk l k : protected bk l -> protected bk k -> protected bk (l ++ k).
Proof.
  intros Hl Hk. induction l as [|i l IH]; [done|]. destruct Hl as [Hi Hl]. split; [|auto].
  intros Ht. specialize (Hi Ht). change ((i :: l) ++ k) with (i :: l ++ k).
  cbn [sum_list_with] in *. rewrite sum_list_with_app. lia.
Qed.

(** A thread that will mark the range local-only completes the request next. *)
Fixpoint marks_first (k : list instr) : Prop :=
  match k with
  | [] => True
  | i :: k' =>
      match i with
      | call_adapter adapter_mark_local_only =>
          match k' with call_adapter (adapter_complete _) :: _ => True | _ => False end
      | _ => True
      end /\ marks_first k'
  end.

Lemma marks_first_app l k :
  marks_first l -> marks_first k -> marks_first (l ++ k).
Proof.
  intros Hl Hk. induction l as [|i l IH]; [done|]. destruct Hl as [Hi Hl]. split; [|auto].
  destruct i; try done. destruct call; try done. by destruct l.
Qed.

(** The starting thread submits its copy before its remote operation. *)
Fixpoint backing_first (k : list instr) : Prop :=
  match k with
  | [] => True
  | i :: k' =>
      match i with
      | call_start_backing => (0 < sum_list_with w_result k')%nat
      | _ => True
      end /\ backing_first k'
  end.

Lemma backing_first_app l k :
  backing_first l -> backing_first k -> backing_first (l ++ k).
Proof.
  intros Hl Hk. induction l as [|i l IH]; [done|]. destruct Hl as [Hi Hl]. split; [|auto].
  destruct i; try done. rewrite sum_list_with_app. lia.
Qed.

(** The statuses and generations that appear in the remaining code. *)
Definition instr_ok (t : is_remote_io_transaction) (i : instr) : Prop :=
  match i with
  | call_adapter (adapter_complete s) => completion_ok (tx_policy t) s
  | call_rdma_completed g _ _ | call_rdma_released g => g = spec_generation (tx_spec t)
  | _ => True
  end.

Definition call_ok (t : is_remote_io_transaction) (a : adapter_call) : Prop :=
  match a with adapter_complete s => completion_ok (tx_policy t) s | _ => True end.

(** In the trace no range is marked after the request completed. *)
Definition ordered (trace : list adapter_call) : Prop :=
  forall pre post s, trace = pre ++ adapter_complete s :: post ->
    ~ In adapter_mark_local_only post.

Definition backs (t : is_remote_io_transaction) : bool := backed_write (pol_kind (tx_policy t)).

(** ** The invariant *)

Record claims_inv (c : config) : Prop := {
  i_backing : b2n (backing_claim (c_tx c))
    = (owed_backing c + total (w_backing (backs (c_tx c))) (c_threads c))%nat;
  i_result : b2n (rdma_result_claim (c_tx c))
    = (owed_result c + total w_result (c_threads c))%nat;
  i_transport : b2n (rdma_transport_claim (c_tx c))
    = (owed_transport c + total w_transport (c_threads c))%nat;
  i_active : active_events (c_tx c) = Z.of_nat (total w_finish (c_threads c));
  i_policy : policy_inv (tx_policy (c_tx c));
  i_local : pol_local_pending (tx_policy (c_tx c)) = backing_claim (c_tx c);
  i_remote : pol_remote_pending (tx_policy (c_tx c)) = rdma_result_claim (c_tx c);
  i_generation : pol_generation (tx_policy (c_tx c)) = spec_generation (tx_spec (c_tx c));
  i_settling : settling (c_tx c) = (active_events (c_tx c) =? 0) &&
    negb (backing_claim (c_tx c)) && negb (rdma_result_claim (c_tx c)) &&
    negb (rdma_transport_claim (c_tx c));
  i_reported : invariant_reported (c_tx c) = false
}.

Record calls_inv (base : Z) (c : config) : Prop := {
  i_complete : emitted is_complete c = b2n (pol_request_complete (tx_policy (c_tx c)));
  i_mark : emitted is_mark c = b2n (must_mark_local_only (tx_policy (c_tx c)));
  i_degrade : emitted is_degraded c = b2n (pol_backing_degraded (tx_policy (c_tx c)));
  i_release : emitted is_release c = b2n (settling (c_tx c));
  i_settle : emitted is_settle c = b2n (settling (c_tx c));
  i_invariant : emitted is_invariant c = 0%nat;
  i_counter : active_transactions (c_engine c)
    = base + Z.of_nat (total w_decrement (c_threads c)) + 1 - Z.of_nat (b2n (settling (c_tx c)));
  i_decrement : (total w_decrement (c_threads c) <= b2n (settling (c_tx c)))%nat;
  i_base : 0 <= base /\ base + 1 < 2 ^ 32
}.

Record code_inv (c : config) : Prop := {
  i_protected : Forall (protected (backs (c_tx c))) (c_threads c);
  i_marks : Forall marks_first (c_threads c);
  i_first : Forall backing_first (c_threads c);
  i_instrs : Forall (Forall (instr_ok (c_tx c))) (c_threads c);
  i_calls : Forall (call_ok (c_tx c)) (c_trace c);
  i_ordered : ordered (c_trace c)
}.

Definition inv (base : Z) (c : config) : Prop :=
  claims_inv c /\ calls_inv base c /\ code_inv c.

(** ** What the locked sections do under the invariant *)

Lemma begin_event_active t :
  0 <= active_events t -> active_events t + 1 < 2 ^ 32 ->
  is_transaction_begin_event t = t <| active_events := active_events t + 1 |>.
Proof.
  intros H0 H1. unfold is_transaction_begin_event. rewrite wrap_small; [done|].
  unfold in_u. lia.
Qed.

(** Case lemma: the Backing Store result, with the claim held. *)
Lemma backing_completed_char e t s :
  0 <= active_events t -> active_events t + 1 < 2 ^ 32 ->
  backing_claim t = true -> policy_inv (tx_policy t) ->
  pol_local_pending (tx_policy t) = backing_claim t ->
  let t1 := t <| active_events := active_events t + 1 |> in
  let fin := call_finish_event IS_REMOTE_IO_TRANSACTION_EVENT_BACKING_COMPLETED in
  (backing_retries t = 0 /\ is_remote_io_transaction_backing_completed e t s
     = (t1 <| backing_retries := 1 |>, [call_submit_backing; fin])) \/
  exists p' a, is_io_policy_local_complete (tx_policy t) s = (p', a) /\
    action_spec (tx_policy t) p' a /\ pol_local_pending p' = false /\
    pol_remote_pending p' = pol_remote_pending (tx_policy t) /\
    is_remote_io_transaction_backing_completed e t s
      = (t1 <| tx_policy := p' |> <| backing_claim := false |>,
         is_transaction_apply_action a (reported_status p') ++ [fin]).
Proof.
  intros H0 H1 Hb Hp Hl. cbn zeta. rewrite Hb in Hl.
  pose proof (local_complete_spec _ s Hp Hl) as Hs.
  unfold is_remote_io_transaction_backing_completed. rewrite begin_event_active by done.
  cbn -[is_io_policy_local_complete is_transaction_apply_action]. rewrite Hb. cbn [negb].
  destruct (_ && (backing_retries t =? 0)) eqn:E.
  - left. apply andb_prop in E as [_ E]. apply Z.eqb_eq in E. rewrite E. done.
  - right. destruct (is_io_policy_local_complete _ s) as [p' a].
    destruct Hs as (Ha & H2 & H3 & _ & _). exists p', a. split_and!; try done.
Qed.

Lemma rdma_completed_char t s cancelled :
  0 <= active_events t -> active_events t + 1 < 2 ^ 32 ->
  rdma_result_claim t = true -> policy_inv (tx_policy t) ->
  pol_local_pending (tx_policy t) = backing_claim t ->
  pol_remote_pending (tx_policy t) = rdma_result_claim t ->
  pol_generation (tx_policy t) = spec_generation (tx_spec t) ->
  exists p' a, action_spec (tx_policy t) p' a /\ pol_remote_pending p' = false /\
    pol_local_pending p' = backing_claim t || has_action a IS_IO_SUBMIT_LOCAL /\
    is_remote_io_transaction_rdma_completed t (spec_generation (tx_spec t)) s cancelled
      = (t <| active_events := active_events t + 1 |> <| tx_policy := p' |>
           <| backing_claim := backing_claim t || has_action a IS_IO_SUBMIT_LOCAL |>
           <| rdma_result_claim := false |>,
         is_transaction_apply_action a (reported_status p') ++
         [call_finish_event IS_REMOTE_IO_TRANSACTION_EVENT_RDMA_COMPLETED]).
Proof.
  intros H0 H1 Hr Hp Hl Hrp Hg. rewrite Hr in Hrp.
  pose proof (remote_result_spec _ cancelled s Hp Hrp) as Hs.
  unfold is_remote_io_transaction_rdma_completed. rewrite begin_event_active by done.
  cbn -[is_io_policy_cancel_remote is_io_policy_remote_complete is_transaction_apply_action].
  rewrite Z.eqb_refl, Hr. cbn [negb]. unfold remote_result in Hs. rewrite Hg in Hs.
  destruct (if cancelled then _ else _) as [p' a]. destruct Hs as (Ha & H2 & _ & _ & H3).
  exists p', a. pose proof (as_submit _ _ _ Ha) as Hsub. rewrite Hl in Hsub, H3.
  split; [done|]. split; [done|].
  destruct (backing_claim t) eqn:Hb; cbn [negb andb orb] in *.
  - split; [by apply H3|]. rewrite Hsub. destruct t; cbn in *. by subst.
  - split; [done|]. destruct (has_action a IS_IO_SUBMIT_LOCAL) eqn:Ea; rewrite ?Hb; cbn;
      destruct t; cbn in *; by subst.
Qed.

Lemma rdma_released_char t :
  0 <= active_events t -> active_events t + 1 < 2 ^ 32 -> rdma_transport_claim t = true ->
  is_remote_io_transaction_rdma_released t (spec_generation (tx_spec t))
    = (t <| active_events := active_events t + 1 |> <| rdma_transport_claim := false |>,
       [call_finish_event IS_REMOTE_IO_TRANSACTION_EVENT_RDMA_RELEASED]).
Proof.
  intros H0 H1 Ht. unfold is_remote_io_transaction_rdma_released.
  rewrite begin_event_active by done. cbn. by rewrite Z.eqb_refl, Ht.
Qed.

(** An event of another generation only counts as active. *)
Lemma stale_char t g s cancelled :
  0 <= active_events t -> active_events t + 1 < 2 ^ 32 -> g <> spec_generation (tx_spec t) ->
  is_remote_io_transaction_rdma_completed t g s cancelled
    = (t <| active_events := active_events t + 1 |>,
       [call_finish_event IS_REMOTE_IO_TRANSACTION_EVENT_RDMA_COMPLETED]) /\
  is_remote_io_transaction_rdma_released t g
    = (t <| active_events := active_events t + 1 |>,
       [call_finish_event IS_REMOTE_IO_TRANSACTION_EVENT_RDMA_RELEASED]).
Proof.
  intros H0 H1 Hg. unfold is_remote_io_transaction_rdma_completed,
    is_remote_io_transaction_rdma_released.
  rewrite begin_event_active by done. cbn. by rewrite (proj2 (Z.eqb_neq _ _) Hg).
Qed.

(** When all results are in, the policy has completed the request. *)
Lemma all_results_releasable p :
  policy_inv p -> pol_local_pending p = false -> pol_remote_pending p = false ->
  is_io_policy_releasable p = true.
Proof.
  intros Hp Hl Hr. unfold is_io_policy_releasable. rewrite Hl, Hr, (inv_complete p Hp).
  rewrite (inv_remote p Hp) in Hr. apply negb_false_iff in Hr. unfold must_complete. rewrite Hr.
  destruct (pol_kind p) eqn:Hk; cbn; rewrite ?andb_true_r; try done.
  - pose proof (inv_local_write p Hp) as Hw. rewrite Hk, Hl in Hw. specialize (Hw eq_refl).
    by destruct (pol_local_done p).
  - pose proof (inv_local_write p Hp) as Hw. rewrite Hk, Hl in Hw. specialize (Hw eq_refl).
    destruct (pol_local_done p); [by rewrite orb_true_r|done].
  - destruct (inv_local_read p Hp Hk) as [Hw _]. rewrite Hl, Hr in Hw. cbn in Hw.
    rewrite Hw. by destruct (pol_remote_status p =? 0).
Qed.

Lemma finish_event_char t ev :
  0 < active_events t -> settling t = false -> policy_inv (tx_policy t) ->
  pol_local_pending (tx_policy t) = backing_claim t ->
  pol_remote_pending (tx_policy t) = rdma_result_claim t ->
  let last := (active_events t - 1 =? 0) && negb (backing_claim t) &&
    negb (rdma_result_claim t) && negb (rdma_transport_claim t) in
  is_transaction_finish_event t ev
    = (t <| active_events := active_events t - 1 |> <| settling := last |>,
       if last
       then [call_adapter adapter_release; call_counter_decrement; call_adapter adapter_settle]
       else []).
Proof.
  intros Ha Hs Hp Hl Hr. cbn zeta. unfold is_transaction_finish_event.
  replace (active_events t =? 0) with false by lia. cbn -[is_io_policy_releasable].
  rewrite Hs, andb_true_r. destruct (_ && negb (rdma_transport_claim t)) eqn:E.
  - apply andb_prop in E as [[[_ Eb]%andb_prop Er]%andb_prop _].
    apply negb_true_iff in Eb, Er. rewrite all_results_releasable; [done|done|..]; congruence.
  - destruct t; cbn in *. by subst.
Qed.
