(* ===== verification/IoTransactionSteps.v ===== *)
(** * Every step of a remote I/O transaction preserves its invariant *)
From S2P Require Import Prelude IoPolicy IoTransaction IoTransactionInv.

(** ** Sums over the code of an action *)

Lemma apply_action_sum w a s :
  sum_list_with w (is_transaction_apply_action a s) =
  ((if has_action a IS_IO_BACKING_DEGRADED then w (call_adapter adapter_backing_degraded) else 0) +
   (if has_action a IS_IO_MARK_LOCAL_ONLY then w (call_adapter adapter_mark_local_only) else 0) +
   (if has_action a IS_IO_SUBMIT_LOCAL then w call_submit_backing else 0) +
   (if has_action a IS_IO_COMPLETE_SUCCESS then w (call_adapter (adapter_complete 0))
    else if has_action a IS_IO_COMPLETE_ERROR then w (call_adapter (adapter_complete s)) else 0))%nat.
Proof. unfold is_transaction_apply_action. repeat case_match; cbn; lia. Qed.

Lemma apply_action_weights a s :
  (forall bk, sum_list_with (w_backing bk) (is_transaction_apply_action a s)
     = b2n (has_action a IS_IO_SUBMIT_LOCAL)) /\
  sum_list_with w_result (is_transaction_apply_action a s) = 0%nat /\
  sum_list_with w_transport (is_transaction_apply_action a s) = 0%nat /\
  sum_list_with w_finish (is_transaction_apply_action a s) = 0%nat /\
  sum_list_with w_decrement (is_transaction_apply_action a s) = 0%nat.
Proof. split_and!; intros; rewrite apply_action_sum; by repeat case_match. Qed.

Lemma apply_action_calls a s :
  sum_list_with (on_adapter is_complete) (is_transaction_apply_action a s) = b2n (completes a) /\
  sum_list_with (on_adapter is_mark) (is_transaction_apply_action a s)
    = b2n (has_action a IS_IO_MARK_LOCAL_ONLY) /\
  sum_list_with (on_adapter is_degraded) (is_transaction_apply_action a s)
    = b2n (has_action a IS_IO_BACKING_DEGRADED) /\
  sum_list_with (on_adapter is_release) (is_transaction_apply_action a s) = 0%nat /\
  sum_list_with (on_adapter is_settle) (is_transaction_apply_action a s) = 0%nat /\
  sum_list_with (on_adapter is_invariant) (is_transaction_apply_action a s) = 0%nat.
Proof.
  unfold completes. split_and!; rewrite apply_action_sum; repeat case_match; done.
Qed.

(** ** Claims *)

(** The state of the thread that moves, seen from the invariant. *)
Ltac open_thread Hc Hth :=
  destruct Hc as [Hib Hir Hit Hia Hip Hil Hirm Hig Hist Hirep];
  rewrite Hth in *; rewrite !total_split in *;
  cbn [sum_list_with w_backing w_result w_transport w_finish] in *.

(** Counts of the state after the step. *)
Ltac count_claims :=
  cbn -[total is_transaction_apply_action]; unfold backs; cbn -[total is_transaction_apply_action];
  rewrite ?total_split, ?total_cons, ?sum_list_with_app;
  cbn -[total is_transaction_apply_action].

Lemma claim_held b n : b2n b = S n -> b = true /\ n = 0%nat.
Proof. destruct b; cbn; lia. Qed.

Ltac held H := let Hn := fresh "Hn" in
  match type of H with b2n ?b = ?m =>
    destruct (claim_held b (Nat.pred m)) as [?Hheld Hn]; [lia|] end.

(** The settling flag is unchanged while an event or a claim remains. *)
Lemma not_settled b r t n :
  (n =? 0) && negb b && negb r && negb t = true -> n = 0 /\ b = false /\ r = false /\ t = false.
Proof. destruct b, r, t; rewrite ?andb_false_r; cbn; try done. rewrite !andb_true_r. lia. Qed.

Lemma claims_backing c T1 s k T2 t' after :
  claims_inv c -> c_threads c = T1 ++ (call_backing_completed s :: k) :: T2 -> events_bounded c ->
  is_remote_io_transaction_backing_completed (c_engine c) (c_tx c) s = (t', after) ->
  claims_inv (c <| c_tx := t' |> <| c_threads := T1 ++ (after ++ k) :: T2 |>).
Proof.
  intros Hc Hth Hev Hex. unfold events_bounded in Hev. open_thread Hc Hth. held Hib.
  rewrite Hheld, !andb_false_r in Hist. cbn [negb andb] in Hist. rewrite Hheld in Hib.
  assert (Hne : forall m, 0 <= m -> (m + 1 =? 0) = false) by (intros; lia).
  destruct (backing_completed_char (c_engine c) (c_tx c) s) as
    [[_ Heq]|(p' & a & Hpa & Ha & Hl' & Hr' & Heq)]; try done; try lia;
    rewrite Heq in Hex; injection Hex as <- <-; clear Heq.
  - constructor; count_claims; rewrite ?Hheld, ?Hne by lia; try done; try congruence; lia.
  - pose proof (apply_action_weights a (reported_status p')) as (Hwb & Hwr & Hwt & Hwf & _).
    pose proof (as_submit _ _ _ Ha) as Hsub. rewrite Hl', andb_false_r in Hsub.
    destruct (as_kind _ _ _ Ha) as [Hk Hg].
    constructor; count_claims; rewrite ?Hk, ?Hwb, ?Hwr, ?Hwt, ?Hwf, ?Hsub, ?Hne by lia;
      cbn [b2n] in *; fold (backs (c_tx c)); try done; try congruence; try lia.
    apply Ha.
Qed.

Lemma claims_result c T1 s x k T2 t' after :
  claims_inv c ->
  c_threads c = T1 ++ (call_rdma_completed (spec_generation (tx_spec (c_tx c))) s x :: k) :: T2 ->
  events_bounded c ->
  is_remote_io_transaction_rdma_completed (c_tx c) (spec_generation (tx_spec (c_tx c))) s x
    = (t', after) ->
  claims_inv (c <| c_tx := t' |> <| c_threads := T1 ++ (after ++ k) :: T2 |>).
Proof.
  intros Hc Hth Hev Hex. unfold events_bounded in Hev. open_thread Hc Hth. held Hir.
  rewrite Hheld, !andb_false_r in Hist. cbn [negb andb] in Hist. rewrite Hheld in Hir.
  assert (Hne : forall m, 0 <= m -> (m + 1 =? 0) = false) by (intros; lia).
  destruct (rdma_completed_char (c_tx c) s x) as (p' & a & Ha & Hr' & Hl' & Heq);
    try done; try lia. rewrite Heq in Hex; injection Hex as <- <-; clear Heq.
  pose proof (apply_action_weights a (reported_status p')) as (Hwb & Hwr & Hwt & Hwf & _).
  pose proof (as_submit _ _ _ Ha) as Hsub. rewrite Hil in Hsub.
  destruct (as_kind _ _ _ Ha) as [Hk Hg].
  constructor; count_claims; rewrite ?Hk, ?Hwb, ?Hwr, ?Hwt, ?Hwf, ?Hne by lia;
    cbn [b2n] in *; fold (backs (c_tx c)); try done; try congruence; try lia.
  - rewrite Hsub in *. destruct (backing_claim (c_tx c)); cbn in *; [lia|].
    destruct (pol_local_pending p'); cbn; lia.
  - apply Ha.
Qed.

Lemma claims_released c T1 k T2 t' after :
  claims_inv c ->
  c_threads c = T1 ++ (call_rdma_released (spec_generation (tx_spec (c_tx c))) :: k) :: T2 ->
  events_bounded c ->
  is_remote_io_transaction_rdma_released (c_tx c) (spec_generation (tx_spec (c_tx c)))
    = (t', after) ->
  claims_inv (c <| c_tx := t' |> <| c_threads := T1 ++ (after ++ k) :: T2 |>).
Proof.
  intros Hc Hth Hev Hex. unfold events_bounded in Hev. open_thread Hc Hth. held Hit.
  rewrite Hheld, !andb_false_r in Hist. cbn [negb andb] in Hist. rewrite Hheld in Hit.
  assert (Hne : forall m, 0 <= m -> (m + 1 =? 0) = false) by (intros; lia).
  rewrite rdma_released_char in Hex by (done || lia). injection Hex as <- <-.
  constructor; count_claims; rewrite ?Hne by lia; cbn [b2n] in *; try done; try lia.
Qed.

Lemma claims_finish c T1 ev k T2 t' after :
  claims_inv c -> c_threads c = T1 ++ (call_finish_event ev :: k) :: T2 ->
  is_transaction_finish_event (c_tx c) ev = (t', after) ->
  claims_inv (c <| c_tx := t' |> <| c_threads := T1 ++ (after ++ k) :: T2 |>).
Proof.
  intros Hc Hth Hex. open_thread Hc Hth.
  replace (active_events (c_tx c) =? 0) with false in Hist by lia. cbn [andb] in Hist.
  rewrite finish_event_char in Hex by (done || lia). injection Hex as <- <-.
  assert (Hz : forall w (l : bool), w (call_adapter adapter_release) = 0%nat ->
    w call_counter_decrement = 0%nat -> w (call_adapter adapter_settle) = 0%nat ->
    sum_list_with w (if l then [call_adapter adapter_release; call_counter_decrement;
      call_adapter adapter_settle] else []) = 0%nat).
  { intros w l H1 H2 H3. destruct l; [|done]. cbn. lia. }
  constructor; count_claims; rewrite ?Hz by done; try done; try lia.
Qed.

(** Before its remote result a transaction has a Backing Store claim exactly
    when it is a backed write. *)
Lemma start_claim p :
  policy_inv p -> pol_remote_pending p = true ->
  backed_write (pol_kind p) = false -> pol_local_pending p = false.
Proof.
  intros Hp Hr Hk. rewrite (inv_remote p Hp) in Hr. apply negb_true_iff in Hr.
  destruct (pol_kind p) eqn:E; try done.
  - destruct (inv_local_read p Hp E) as [H _]. rewrite Hr in H. cbn in H.
    by apply orb_false_iff in H as [-> _].
  - apply (inv_local_none p Hp). by rewrite E.
  - apply (inv_local_none p Hp). by rewrite E.
Qed.

Lemma claims_start_backing c T1 k T2 :
  claims_inv c -> c_threads c = T1 ++ (call_start_backing :: k) :: T2 ->
  (0 < sum_list_with w_result k)%nat ->
  claims_inv (c <| c_threads :=
    T1 ++ ((if backing_claim (c_tx c) then [call_submit_backing] else []) ++ k) :: T2 |>).
Proof.
  intros Hc Hth Hw. open_thread Hc Hth. held Hir.
  assert (Hbk : backing_claim (c_tx c) = backs (c_tx c)).
  { unfold backs in *. destruct (backed_write _) eqn:E.
    - destruct (backing_claim (c_tx c)); cbn in *; lia || done.
    - rewrite <- Hil. apply start_claim; [done|congruence|done]. }
  constructor; count_claims; fold (backs (c_tx c)); rewrite <- ?Hbk in *;
    destruct (backing_claim (c_tx c)); cbn in *; try done; try lia.
Qed.

Lemma claims_exec c T1 i k T2 status c' after :
  claims_inv c -> code_inv c -> events_bounded c -> c_threads c = T1 ++ (i :: k) :: T2 ->
  exec c i status = (c', after) ->
  claims_inv (c' <| c_threads := T1 ++ (after ++ k) :: T2 |>).
Proof.
  intros Hc Hcode Hev Hth Hex.
  destruct Hcode as [_ _ Hf Hi _ _]. rewrite Hth in Hf, Hi.
  apply Forall_app in Hf as [_ [[Hf _] _]%Forall_cons_iff].
  apply Forall_app in Hi as [_ [[Hi _]%Forall_cons_iff _]%Forall_cons_iff].
  destruct i; cbn [exec] in Hex.
  - injection Hex as <- <-. open_thread Hc Hth. unfold start_after_prepare.
    constructor; count_claims; destruct (status =? 0); cbn in *; unfold backs in *; try done; try lia.
  - injection Hex as <- <-. by apply claims_start_backing.
  - destruct (status =? 0); cbn in Hex; injection Hex as <- <-; open_thread Hc Hth;
      constructor; count_claims; unfold backs in *; try done; try lia.
  - destruct (status =? 0); cbn in Hex; injection Hex as <- <-; open_thread Hc Hth;
      constructor; count_claims; unfold backs in *; try done; try lia.
  - destruct (is_remote_io_transaction_backing_completed _ _ _) as [t' l] eqn:E.
    injection Hex as <- <-. by eapply claims_backing.
  - cbn in Hi. subst. destruct (is_remote_io_transaction_rdma_completed _ _ _ _) as [t' l] eqn:E.
    injection Hex as <- <-. by eapply claims_result.
  - cbn in Hi. subst. destruct (is_remote_io_transaction_rdma_released _ _) as [t' l] eqn:E.
    injection Hex as <- <-. by eapply claims_released.
  - destruct (is_transaction_finish_event _ _) as [t' l] eqn:E.
    injection Hex as <- <-. by eapply claims_finish.
  - injection Hex as <- <-. open_thread Hc Hth. constructor; count_claims; unfold backs in *; try done; try lia.
  - injection Hex as <- <-. open_thread Hc Hth. constructor; count_claims; unfold backs in *; try done; try lia.
Qed.

(** ** Calls *)

Ltac open_calls Hk Hth :=
  destruct Hk as [Hkc Hkm Hkd Hkr Hks Hki Hkn Hkdec Hkb]; unfold emitted in *;
  rewrite Hth in *; rewrite !total_split in *;
  cbn [sum_list_with on_adapter w_decrement] in *.

Ltac count_calls :=
  unfold emitted; cbn -[total is_transaction_apply_action];
  rewrite ?total_split, ?total_cons, ?sum_list_with_app;
  cbn -[total is_transaction_apply_action].

(** A flag that an event may set, and the calls made for it. *)
Lemma flag_call (b b' act : bool) :
  act = negb b && b' -> (b = true -> b' = true) -> b2n b' = (b2n act + b2n b)%nat.
Proof. intros ->. destruct b, b'; cbn; intuition congruence. Qed.

Lemma calls_action base c T1 i k T2 t' p' a ev :
  calls_inv base c -> c_threads c = T1 ++ (i :: k) :: T2 ->
  (forall f, on_adapter f i = 0%nat) -> w_decrement i = 0%nat ->
  action_spec (tx_policy (c_tx c)) p' a -> tx_policy t' = p' ->
  settling t' = settling (c_tx c) ->
  calls_inv base (c <| c_tx := t' |> <| c_threads :=
    T1 ++ ((is_transaction_apply_action a (reported_status p') ++ [call_finish_event ev]) ++ k) :: T2 |>).
Proof.
  intros Hk Hth Hi Hd Ha Hp Hs. open_calls Hk Hth. rewrite !Hi in *. rewrite Hd in *.
  pose proof (apply_action_calls a (reported_status p')) as (H1 & H2 & H3 & H4 & H5 & H6).
  pose proof (apply_action_weights a (reported_status p')) as (_ & _ & _ & _ & H7).
  pose proof (flag_call _ _ _ (as_complete _ _ _ Ha) (as_complete_mono _ _ _ Ha)) as F1.
  pose proof (flag_call _ _ _ (as_mark _ _ _ Ha) (as_mark_mono _ _ _ Ha)) as F2.
  pose proof (flag_call _ _ _ (as_degraded _ _ _ Ha) (as_degraded_mono _ _ _ Ha)) as F3.
  constructor; count_calls; rewrite ?H1, ?H2, ?H3, ?H4, ?H5, ?H6, ?H7, ?Hp, ?Hs; try done; try lia.
Qed.

(** A step that makes no call and leaves the policy and the settling flag. *)
Lemma calls_quiet base c T1 i k T2 t' l ob orr ot :
  calls_inv base c -> c_threads c = T1 ++ (i :: k) :: T2 ->
  (forall f, on_adapter f i = 0%nat) -> w_decrement i = 0%nat ->
  (forall f, sum_list_with (on_adapter f) l = 0%nat) -> sum_list_with w_decrement l = 0%nat ->
  tx_policy t' = tx_policy (c_tx c) -> settling t' = settling (c_tx c) ->
  calls_inv base (c <| c_tx := t' |> <| owed_backing := ob |> <| owed_result := orr |>
    <| owed_transport := ot |> <| c_threads := T1 ++ (l ++ k) :: T2 |>).
Proof.
  intros Hk Hth Hi Hd Hl Hld Hp Hs. open_calls Hk Hth. rewrite !Hi in *. rewrite Hd in *.
  constructor; count_calls; rewrite ?Hl, ?Hld, ?Hp, ?Hs; try done; try lia.
Qed.

Lemma calls_finish base c T1 ev k T2 t' after :
  claims_inv c -> calls_inv base c -> c_threads c = T1 ++ (call_finish_event ev :: k) :: T2 ->
  is_transaction_finish_event (c_tx c) ev = (t', after) ->
  calls_inv base (c <| c_tx := t' |> <| c_threads := T1 ++ (after ++ k) :: T2 |>).
Proof.
  intros Hc Hk Hth Hex. open_thread Hc Hth.
  replace (active_events (c_tx c) =? 0) with false in Hist by lia. cbn [andb] in Hist.
  rewrite finish_event_char in Hex by (done || lia). injection Hex as <- <-.
  open_calls Hk Hth. rewrite Hist in *. cbn [b2n] in *.
  destruct (_ && negb (rdma_transport_claim (c_tx c))); constructor; count_calls; try done; try lia.
Qed.

Lemma calls_exec base c T1 i k T2 status c' after :
  claims_inv c -> calls_inv base c -> code_inv c -> events_bounded c ->
  c_threads c = T1 ++ (i :: k) :: T2 -> exec c i status = (c', after) ->
  calls_inv base (c' <| c_threads := T1 ++ (after ++ k) :: T2 |>).
Proof.
  intros Hc Hk Hcode Hev Hth Hex. pose proof Hc as Hc'. open_thread Hc' Hth.
  unfold events_bounded in Hev. pose proof (i_instrs _ Hcode) as Hi. rewrite Hth in Hi.
  apply Forall_app in Hi as [_ [[Hi _]%Forall_cons_iff _]%Forall_cons_iff].
  destruct i; cbn [exec w_backing w_result w_transport w_finish] in *.
  - injection Hex as <- <-. apply (calls_quiet base c T1 call_prepare k T2 (c_tx c)); try done;
      unfold start_after_prepare; by destruct (status =? 0).
  - injection Hex as <- <-. apply (calls_quiet base c T1 call_start_backing k T2 (c_tx c)); try done;
      by destruct (backing_claim (c_tx c)).
  - destruct (status =? 0); cbn in Hex; injection Hex as <- <-;
      by apply (calls_quiet base c T1 call_submit_backing k T2 (c_tx c)).
  - destruct (status =? 0); cbn in Hex; injection Hex as <- <-;
      by apply (calls_quiet base c T1 call_submit_rdma k T2 (c_tx c)).
  - held Hib. destruct (backing_completed_char (c_engine c) (c_tx c) status0) as
      [[_ Heq]|(p' & a & Hpa & Ha & Hl' & Hr' & Heq)]; try done; try lia;
      rewrite Heq in Hex; injection Hex as <- <-.
    + by apply (calls_quiet base c T1 (call_backing_completed status0) k T2).
    + by eapply (calls_action base c T1 (call_backing_completed status0) k T2).
  - cbn in Hi. subst generation. held Hir.
    destruct (rdma_completed_char (c_tx c) status0 cancelled) as (p' & a & Ha & Hr' & Hl' & Heq);
      try done; try lia. rewrite Heq in Hex; injection Hex as <- <-.
    by eapply (calls_action base c T1 (call_rdma_completed _ status0 cancelled) k T2).
  - cbn in Hi. subst generation. held Hit. rewrite rdma_released_char in Hex by (done || lia).
    injection Hex as <- <-. by eapply (calls_quiet base c T1 (call_rdma_released _) k T2).
  - destruct (is_transaction_finish_event _ _) as [t' l] eqn:E.
    injection Hex as <- <-. by eapply calls_finish.
  - injection Hex as <- <-. open_calls Hk Hth. constructor; count_calls; try done; try lia.
  - injection Hex as <- <-. open_calls Hk Hth. constructor; count_calls; try done; try lia.
    rewrite wrap_small; [lia|]. unfold in_u. destruct (settling (c_tx c)); cbn in *; lia.
Qed.

(** ** Code *)

Lemma protected_finish bk l ev : protected bk (l ++ [call_finish_event ev]).
Proof.
  induction l as [|i l IH]; cbn [app protected]; (split; [|done]); intros _; cbn; [lia|].
  rewrite sum_list_with_app. cbn. lia.
Qed.

Lemma instr_ok_stable t t' i :
  tx_spec t' = tx_spec t ->
  (forall s, completion_ok (tx_policy t) s -> completion_ok (tx_policy t') s) ->
  instr_ok t i -> instr_ok t' i.
Proof. intros Hs Hp. destruct i; cbn; rewrite ?Hs; try done. destruct call; auto. Qed.

(** A step that leaves the trace. *)
Lemma code_step c T1 i k T2 t' l ob orr ot :
  code_inv c -> c_threads c = T1 ++ (i :: k) :: T2 ->
  tx_spec t' = tx_spec (c_tx c) -> backs t' = backs (c_tx c) ->
  (forall s, completion_ok (tx_policy (c_tx c)) s -> completion_ok (tx_policy t') s) ->
  protected (backs (c_tx c)) l -> marks_first l -> backing_first l -> Forall (instr_ok t') l ->
  code_inv (c <| c_tx := t' |> <| owed_backing := ob |> <| owed_result := orr |>
    <| owed_transport := ot |> <| c_threads := T1 ++ (l ++ k) :: T2 |>).
Proof.
  intros [Hp Hm Hf Hi Hc Ho] Hth Hs Hb Hst Hlp Hlm Hlf Hli. rewrite Hth in *.
  rewrite !Forall_app, !Forall_cons_iff in *. destruct_and!. cbn [protected marks_first backing_first] in *.
  destruct_and!.
  assert (Hmono : forall T, Forall (Forall (instr_ok (c_tx c))) T -> Forall (Forall (instr_ok t')) T).
  { intros T HT. eapply Forall_impl; [|exact HT]. intros l' Hl'. eapply Forall_impl; [|exact Hl'].
    intros i' Hi'. by apply (instr_ok_stable (c_tx c)). }
  constructor; cbn; rewrite ?Hb, ?Forall_app, ?Forall_cons_iff, ?Forall_app; split_and?; auto.
  - by apply protected_app.
  - by apply marks_first_app.
  - by apply backing_first_app.
  - eapply Forall_impl; [|eassumption]. intros i' Hi'. by apply (instr_ok_stable (c_tx c)).
  - eapply Forall_impl; [|exact Hc]. intros []; cbn; auto.
Qed.

(** The calls of an action, in their order. *)
Lemma action_code p p' a ev :
  action_spec p p' a ->
  let l := is_transaction_apply_action a (reported_status p') ++ [call_finish_event ev] in
  marks_first l /\ backing_first l /\
  Forall (fun i => match i with
                   | call_adapter (adapter_complete s) => completion_ok p' s
                   | call_rdma_completed _ _ _ | call_rdma_released _ => False
                   | _ => True
                   end) l.
Proof.
  intros Ha. cbn zeta. unfold is_transaction_apply_action.
  pose proof (as_status _ _ _ Ha) as Hst. pose proof (as_mark_complete _ _ _ Ha) as Hmc.
  pose proof (as_submit _ _ _ Ha) as Hsub. pose proof (as_mark _ _ _ Ha) as Hmark.
  assert (Hns : has_action a IS_IO_MARK_LOCAL_ONLY = true ->
    has_action a IS_IO_SUBMIT_LOCAL = false).
  { intros Hm. rewrite Hm in Hmark. symmetry in Hmark. apply andb_prop in Hmark as [_ Hmark].
    unfold must_mark_local_only in Hmark. rewrite Hsub.
    rewrite !andb_true_iff in Hmark. destruct Hmark as ((((Hbw & Hld) & _) & _) & _).
    rewrite (inv_local_write p' (as_inv _ _ _ Ha)) by done. by rewrite Hld, andb_false_r. }
  unfold completes in *.
  destruct (has_action a IS_IO_BACKING_DEGRADED), (has_action a IS_IO_MARK_LOCAL_ONLY),
    (has_action a IS_IO_SUBMIT_LOCAL), (has_action a IS_IO_COMPLETE_SUCCESS),
    (has_action a IS_IO_COMPLETE_ERROR); cbn in *; try (by specialize (Hns eq_refl));
    try (by specialize (Hmc eq_refl)); split_and!; try done; repeat constructor; by apply Hst.
Qed.

Lemma code_action c T1 i k T2 t' p' a ev :
  code_inv c -> c_threads c = T1 ++ (i :: k) :: T2 ->
  action_spec (tx_policy (c_tx c)) p' a -> tx_policy t' = p' -> tx_spec t' = tx_spec (c_tx c) ->
  code_inv (c <| c_tx := t' |> <| c_threads :=
    T1 ++ ((is_transaction_apply_action a (reported_status p') ++ [call_finish_event ev]) ++ k) :: T2 |>).
Proof.
  intros Hcode Hth Ha Hp Hs. destruct (action_code _ p' a ev Ha) as (H1 & H2 & H3).
  apply (code_step c T1 i k T2 t'); try done.
  - unfold backs. by rewrite Hp, (proj1 (as_kind _ _ _ Ha)).
  - intros s. rewrite Hp. apply (as_stable _ _ _ Ha).
  - apply protected_finish.
  - eapply Forall_impl; [|exact H3]. intros []; cbn; try done. rewrite Hp. by destruct call.
Qed.

Lemma ordered_snoc trace a :
  ordered trace -> (a = adapter_mark_local_only -> sum_list_with is_complete trace = 0%nat) ->
  ordered (trace ++ [a]).
Proof.
  intros Ho Ha pre post s Heq.
  destruct (decide (post = [])) as [->|Hne]; [by auto|].
  apply exists_last in Hne as (post' & b & ->). rewrite app_comm_cons, app_assoc in Heq.
  apply app_inj_tail in Heq as [-> ->]. intros Hin. apply in_app_or in Hin as [Hin|[->|[]]].
  - by eapply Ho.
  - specialize (Ha eq_refl). rewrite sum_list_with_app in Ha. cbn in Ha. lia.
Qed.

(** An adapter call: nothing is marked once the request completed. *)
Lemma code_call base c T1 a k T2 :
  calls_inv base c -> code_inv c -> c_threads c = T1 ++ (call_adapter a :: k) :: T2 ->
  code_inv (c <| c_trace := c_trace c ++ [a] |> <| c_threads := T1 ++ k :: T2 |>).
Proof.
  intros Hk [Hp Hm Hf Hi Hc Ho] Hth. pose proof (i_complete _ _ Hk) as Hkc. unfold emitted in Hkc.
  rewrite Hth in *. rewrite total_split in Hkc. cbn [sum_list_with on_adapter] in Hkc.
  rewrite !Forall_app, !Forall_cons_iff in *. destruct_and!.
  cbn [protected marks_first backing_first] in *. destruct_and!.
  constructor; cbn; rewrite ?Forall_app, ?Forall_cons_iff; split_and?; auto.
  apply ordered_snoc; [done|]. intros ->. destruct k as [|[] k]; try done.
  destruct call; try done. cbn in Hkc. destruct (pol_request_complete _); cbn in Hkc; lia.
Qed.

Lemma code_exec base c T1 i k T2 status c' after :
  claims_inv c -> calls_inv base c -> code_inv c -> events_bounded c ->
  c_threads c = T1 ++ (i :: k) :: T2 -> exec c i status = (c', after) ->
  code_inv (c' <| c_threads := T1 ++ (after ++ k) :: T2 |>).
Proof.
  intros Hc Hk Hcode Hev Hth Hex. pose proof Hc as Hc'. open_thread Hc' Hth.
  unfold events_bounded in Hev. pose proof (i_instrs _ Hcode) as Hi. rewrite Hth in Hi.
  apply Forall_app in Hi as [_ [[Hi _]%Forall_cons_iff _]%Forall_cons_iff].
  destruct i; cbn [exec w_backing w_result w_transport w_finish] in *.
  - injection Hex as <- <-. apply (code_step c T1 call_prepare k T2 (c_tx c)); try done;
      unfold start_after_prepare, is_transaction_fail_rdma_submission; destruct (status =? 0); cbn;
      repeat constructor; intros; cbn; lia.
  - injection Hex as <- <-. apply (code_step c T1 call_start_backing k T2 (c_tx c)); try done;
      destruct (backing_claim (c_tx c)); cbn; repeat constructor; intros; cbn; lia.
  - destruct (status =? 0); cbn in Hex; injection Hex as <- <-;
      apply (code_step c T1 call_submit_backing k T2 (c_tx c)); try done;
      cbn; repeat constructor; intros; cbn; lia.
  - destruct (status =? 0); cbn in Hex; injection Hex as <- <-;
      apply (code_step c T1 call_submit_rdma k T2 (c_tx c)); try done;
      cbn; repeat constructor; intros; cbn; lia.
  - held Hib. destruct (backing_completed_char (c_engine c) (c_tx c) status0) as
      [[_ Heq]|(p' & a & Hpa & Ha & Hl' & Hr' & Heq)]; try done; try lia;
      rewrite Heq in Hex; injection Hex as <- <-.
    + apply (code_step c T1 (call_backing_completed status0) k T2); try done;
        cbn; repeat constructor; intros; cbn; lia.
    + by eapply (code_action c T1 (call_backing_completed status0) k T2).
  - cbn in Hi. subst generation. held Hir.
    destruct (rdma_completed_char (c_tx c) status0 cancelled) as (p' & a & Ha & Hr' & Hl' & Heq);
      try done; try lia. rewrite Heq in Hex; injection Hex as <- <-.
    by eapply (code_action c T1 (call_rdma_completed _ status0 cancelled) k T2).
  - cbn in Hi. subst generation. held Hit. rewrite rdma_released_char in Hex by (done || lia).
    injection Hex as <- <-. eapply (code_step c T1 (call_rdma_released _) k T2); try done;
      cbn; repeat constructor; intros; cbn; lia.
  - replace (active_events (c_tx c) =? 0) with false in Hist by lia. cbn [andb] in Hist.
    rewrite finish_event_char in Hex by (done || lia). injection Hex as <- <-.
    apply (code_step c T1 (call_finish_event event) k T2); try done;
      destruct (_ && negb (rdma_transport_claim (c_tx c))); cbn; repeat constructor; done.
  - injection Hex as <- <-. by eapply code_call.
  - injection Hex as <- <-. pose proof (code_step c T1 call_counter_decrement k T2 (c_tx c) []
      (owed_backing c) (owed_result c) (owed_transport c)) as Hs.
    destruct Hs as [? ? ? ? ? ?]; try done.
Qed.
