(* ===== verification/IoTransactionSpec.v ===== *)
(** * What a remote I/O transaction guarantees

    Safety over every interleaving of the starting thread with the adapter
    callbacks, termination, and the synchronous failures of a start. *)
From S2P Require Import Prelude IoPolicy IoTransaction IoTransactionInv IoTransactionSteps.

(** ** The invariant holds everywhere *)

(** A callback starts a thread. *)
Lemma inv_spawn base c k ob orr ot :
  inv base c ->
  (owed_backing c = ob + sum_list_with (w_backing (backs (c_tx c))) k)%nat ->
  (owed_result c = orr + sum_list_with w_result k)%nat ->
  (owed_transport c = ot + sum_list_with w_transport k)%nat ->
  sum_list_with w_finish k = 0%nat -> sum_list_with w_decrement k = 0%nat ->
  (forall f, sum_list_with (on_adapter f) k = 0%nat) ->
  protected (backs (c_tx c)) k -> marks_first k -> backing_first k ->
  Forall (instr_ok (c_tx c)) k ->
  inv base (c <| owed_backing := ob |> <| owed_result := orr |> <| owed_transport := ot |>
              <| c_threads := k :: c_threads c |>).
Proof.
  intros (Hc & Hk & Hcode) Hb Hr Ht Hf Hd Hcall Hp Hm Hbf Hi.
  destruct Hc as [Hib Hir Hit Hia Hip Hil Hirm Hig Hist Hirep].
  destruct Hk as [Hkc Hkm Hkd Hkr Hks Hki Hkn Hkdec Hkb]. unfold emitted in *.
  destruct Hcode as [? ? ? ? ? ?].
  split_and!; constructor; unfold emitted; cbn -[total]; rewrite ?total_cons, ?Forall_cons_iff,
    ?Hcall, ?Hf, ?Hd; auto; unfold backs in *; try lia.
Qed.

Lemma inv_step base c c' : inv base c -> events_bounded c -> step c c' -> inv base c'.
Proof.
  intros Hinv Hev Hstep. destruct Hstep as [c T1 i k T2 status c' after Hth Hex|c n s Ho|c n s x Ho|c n Ho].
  - destruct Hinv as (Hc & Hk & Hcode). split_and!.
    + by eapply claims_exec.
    + by eapply calls_exec.
    + by eapply code_exec.
  - pose proof (inv_spawn base c [call_backing_completed s] n (owed_result c) (owed_transport c)) as H.
    apply H; cbn; try done; try lia; repeat constructor; cbn; lia.
  - pose proof (inv_spawn base c [call_rdma_completed (spec_generation (tx_spec (c_tx c))) s x]
      (owed_backing c) n (owed_transport c)) as H.
    apply H; cbn; try done; try lia; repeat constructor; cbn; lia.
  - pose proof (inv_spawn base c [call_rdma_released (spec_generation (tx_spec (c_tx c)))]
      (owed_backing c) (owed_result c) n) as H.
    apply H; cbn; try done; try lia; repeat constructor; cbn; lia.
Qed.

(** A callback of another generation is counted and nothing else. *)
Lemma inv_stale base c c' : inv base c -> events_bounded c -> stale_step c c' -> inv base c'.
Proof.
  intros (Hc & Hk & Hcode) Hev Hstep. unfold events_bounded in Hev.
  assert (Hact : 0 <= active_events (c_tx c)) by (rewrite (i_active c Hc); lia).
  assert (exists ev, (0 < owed_result c + owed_transport c)%nat /\
    c' = c <| c_tx := (c_tx c) <| active_events := active_events (c_tx c) + 1 |> |>
           <| c_threads := [call_finish_event ev] :: c_threads c |>) as (ev & Ho & ->).
  { destruct Hstep as [c g s x t after Hg Ho Hex|c g t after Hg Ho Hex].
    - rewrite (proj1 (stale_char (c_tx c) g s x Hact Hev Hg)) in Hex. injection Hex as <- <-.
      by eexists.
    - rewrite (proj2 (stale_char (c_tx c) g 0 false Hact Hev Hg)) in Hex. injection Hex as <- <-.
      by eexists. }
  destruct Hc as [Hib Hir Hit Hia Hip Hil Hirm Hig Hist Hirep].
  destruct Hk as [Hkc Hkm Hkd Hkr Hks Hki Hkn Hkdec Hkb]. unfold emitted in *.
  destruct Hcode as [? ? ? ? ? ?].
  split_and!; constructor; unfold emitted; cbn -[total]; rewrite ?total_cons, ?Forall_cons_iff; cbn -[total];
    auto; try lia.
  replace (active_events (c_tx c) + 1 =? 0) with false by lia. rewrite Hist.
  destruct (rdma_result_claim (c_tx c)) eqn:Er, (rdma_transport_claim (c_tx c)) eqn:Et;
    rewrite ?andb_false_r; try done. cbn in *. lia.
Qed.

Lemma inv_initial c : initial c -> exists base, inv base c /\
  c_trace c = [] /\ active_transactions (c_engine c) = base + 1.
Proof.
  intros [engine spec alloc lock e' t Hu H0 Hst]. exists (active_transactions engine).
  unfold is_remote_io_transaction_start in Hst. destruct (initialized engine); [|done].
  cbn [negb] in Hst. destruct (is_transaction_spec_valid spec); [|done]. destruct alloc as [st sto].
  cbn [negb] in Hst. destruct (negb (st =? 0) || (sto =? 0)); [done|].
  destruct (negb (lock =? 0)); [done|]. unfold is_transaction_init_policy in Hst.
  rewrite wrap_small in Hst by done. cbn -[policy_kind is_io_policy_init_write is_io_policy_init_remote] in Hst.
  destruct (policy_kind _ _) as [k|]; [|done]. injection Hst as <- <-.
  pose proof (init_policy_inv k (spec_generation spec)) as Hp. unfold in_u in Hu.
  destruct k; split_and!; try done; constructor; cbn; try done; try lia;
    repeat constructor; intros; cbn; try lia; try done;
    intros pre post s Heq; by destruct pre.
Qed.

Lemma reachable_inv c0 c :
  reachable c0 c -> inv (active_transactions (c_engine c0) - 1) c.
Proof.
  induction 1 as [Hi|c c' _ IH Hev [Hs|Hs]].
  - destruct (inv_initial c0 Hi) as (base & Hinv & _ & ->). by rewrite Z.add_simpl_r.
  - by eapply inv_step.
  - by eapply inv_stale.
Qed.

Definition traced (f : adapter_call -> nat) (c : config) : nat := sum_list_with f (c_trace c).

Lemma traced_emitted f c n : emitted f c = n -> (traced f c <= n)%nat.
Proof. unfold emitted, traced. lia. Qed.

(** Pending marks come with pending completions. *)
Lemma marks_pending ts :
  Forall marks_first ts -> total (on_adapter is_complete) ts = 0%nat ->
  total (on_adapter is_mark) ts = 0%nat.
Proof.
  induction ts as [|k ts IH]; [done|]. intros [Hk Hts]%Forall_cons_iff.
  rewrite !total_cons. intros Hz. rewrite IH by (done || lia).
  assert (Hc : sum_list_with (on_adapter is_complete) k = 0%nat) by lia. rewrite Nat.add_0_r. clear -Hk Hc.
  induction k as [|i k IH]; [done|]. destruct Hk as [Hi Hk]. cbn in Hc |- *.
  rewrite IH by (done || lia). destruct i; try done. destruct call; try done.
  destruct k as [|[] k]; try done. destruct call; try done.
Qed.

Lemma count_in l : (0 < sum_list_with is_mark l)%nat -> In adapter_mark_local_only l.
Proof.
  induction l as [|a l IH]; cbn; [lia|]. intros H. destruct a; try (right; apply IH; exact H).
  by left.
Qed.

(** ** Safety *)

(** C4.  Over every interleaving of the starting thread with the callbacks of
    the adapters (stale callbacks included): the block request completes at
    most once, and with the status its policy prescribes from the results that
    are in; the transaction is released and settled at most once; and none of
    the lifecycle invariants the code checks is ever reported. *)
Theorem transaction_safe c0 c :
  reachable c0 c ->
  (traced is_complete c <= 1)%nat /\ (traced is_release c <= 1)%nat /\
  (traced is_settle c <= 1)%nat /\ traced is_invariant c = 0%nat /\
  (forall s, In (adapter_complete s) (c_trace c) -> completion_ok (tx_policy (c_tx c)) s).
Proof.
  intros Hr. destruct (reachable_inv _ _ Hr) as (_ & Hk & Hcode).
  split_and!.
  - eapply Nat.le_trans; [apply (traced_emitted _ _ _ (i_complete _ _ Hk))|apply b2n_le].
  - eapply Nat.le_trans; [apply (traced_emitted _ _ _ (i_release _ _ Hk))|apply b2n_le].
  - eapply Nat.le_trans; [apply (traced_emitted _ _ _ (i_settle _ _ Hk))|apply b2n_le].
  - pose proof (traced_emitted _ _ _ (i_invariant _ _ Hk)). lia.
  - intros s Hs. pose proof (i_calls _ Hcode) as Hc. rewrite Forall_forall in Hc. by apply (Hc _ Hs).
Qed.

Lemma protected_weight bk k :
  protected bk k -> sum_list_with (w_live bk) k = 0%nat -> Forall (fun i => touches i = false) k.
Proof.
  induction k as [|i k IH]; [constructor|]. intros [Hi Hk] Hw.
  constructor.
  - destruct (touches i); [|done]. specialize (Hi eq_refl). lia.
  - apply IH; [done|]. cbn in Hw. lia.
Qed.

Lemma total_live bk ts :
  total (w_live bk) ts = (total (w_backing bk) ts + total w_result ts + total w_transport ts +
                          total w_finish ts)%nat.
Proof.
  unfold total. induction ts as [|k ts IH]; [done|]. cbn. rewrite IH.
  assert (Hk : sum_list_with (w_live bk) k = (sum_list_with (w_backing bk) k +
    sum_list_with w_result k + sum_list_with w_transport k + sum_list_with w_finish k)%nat).
  { induction k as [|i k IHk]; [done|]. cbn. rewrite IHk. unfold w_live. lia. }
  lia.
Qed.

(** No use after release: once the transaction's memory is given back, no
    thread reads or writes the transaction any more and no adapter still owes
    it a callback. *)
Theorem no_use_after_release c0 c :
  reachable c0 c -> In adapter_release (c_trace c) ->
  Forall (Forall (fun i => touches i = false)) (c_threads c) /\
  owed_backing c = 0%nat /\ owed_result c = 0%nat /\ owed_transport c = 0%nat.
Proof.
  intros Hr Hin. destruct (reachable_inv _ _ Hr) as (Hc & Hk & Hcode).
  assert (Hset : settling (c_tx c) = true).
  { pose proof (traced_emitted _ _ _ (i_release _ _ Hk)) as Hle. unfold traced in Hle.
    apply in_split in Hin as (l1 & l2 & Heq). rewrite Heq, sum_list_with_app in Hle. cbn in Hle.
    destruct (settling (c_tx c)); [done|]. cbn in Hle. lia. }
  rewrite (i_settling _ Hc) in Hset. apply not_settled in Hset as (Ha & Hb & Hres & Ht).
  pose proof (i_backing _ Hc) as H1. pose proof (i_result _ Hc) as H2.
  pose proof (i_transport _ Hc) as H3. pose proof (i_active _ Hc) as H4.
  rewrite Hb in H1. rewrite Hres in H2. rewrite Ht in H3. cbn [b2n] in *.
  split_and!; try lia.
  pose proof (total_live (backs (c_tx c)) (c_threads c)) as Hl.
  assert (Hz : total (w_live (backs (c_tx c))) (c_threads c) = 0%nat) by lia. clear -Hz Hcode.
  pose proof (i_protected _ Hcode) as Hp. revert Hz Hp. generalize (c_threads c).
  induction l as [|k ts IH]; [constructor|]. intros Hz [Hk Hts]%Forall_cons_iff.
  rewrite total_cons in Hz. constructor; [|apply IH; [lia|done]].
  eapply protected_weight; [done|lia].
Qed.

(** When the data of a backed write is safe only in the Backing Store, the
    range is marked local-only before the request completes, never after. *)
Theorem marked_before_complete c0 c pre post s :
  reachable c0 c -> c_trace c = pre ++ adapter_complete s :: post ->
  must_mark_local_only (tx_policy (c_tx c)) = true ->
  In adapter_mark_local_only pre /\ ~ In adapter_mark_local_only post.
Proof.
  intros Hr Htr Hm. destruct (reachable_inv _ _ Hr) as (_ & Hk & Hcode).
  pose proof (i_ordered _ Hcode pre post s Htr) as Hpost. split; [|done].
  pose proof (i_mark _ _ Hk) as Hmark. rewrite Hm in Hmark. unfold emitted in Hmark.
  pose proof (i_complete _ _ Hk) as Hcomp. unfold emitted in Hcomp.
  pose proof (b2n_le (pol_request_complete (tx_policy (c_tx c)))) as Hle.
  assert (Hpend : total (on_adapter is_complete) (c_threads c) = 0%nat).
  { rewrite Htr, sum_list_with_app in Hcomp. cbn in Hcomp. lia. }
  assert (Hmp : total (on_adapter is_mark) (c_threads c) = 0%nat)
    by (eapply marks_pending; [apply Hcode|done]).
  rewrite Hmp, Htr, sum_list_with_app in Hmark. cbn in Hmark.
  destruct (sum_list_with is_mark pre) eqn:E.
  - exfalso. apply Hpost. apply count_in. lia.
  - apply count_in. lia.
Qed.

(** ** Termination *)

(** An upper bound on the steps an instruction can still cause. *)
Definition cost (i : instr) : nat :=
  match i with
  | call_prepare => 44
  | call_start_backing => 11
  | call_submit_backing => 10
  | call_submit_rdma => 28
  | call_backing_completed _ => 8
  | call_rdma_completed _ _ _ => 19
  | call_rdma_released _ => 6
  | call_finish_event _ => 4
  | call_adapter _ | call_counter_decrement => 1
  end.

(** One retry of the Backing Store copy is left until [backing_retries] says
    otherwise. *)
Definition measure (c : config) : nat :=
  (total cost (c_threads c) + 9 * owed_backing c + 20 * owed_result c + 7 * owed_transport c +
   if Z.eqb (backing_retries (c_tx c)) 0 then 10 else 0)%nat.

Lemma note_invariant_cost t ev :
  (sum_list_with cost (report_instr (is_transaction_note_invariant t).2 ev) <= 1)%nat /\
  backing_retries (is_transaction_note_invariant t).1 = backing_retries t.
Proof. unfold is_transaction_note_invariant. by destruct (invariant_reported t); split; cbn; lia. Qed.

Lemma apply_action_cost a s :
  (sum_list_with cost (is_transaction_apply_action a s)
   <= 3 + 10 * b2n (has_action a IS_IO_SUBMIT_LOCAL))%nat.
Proof. rewrite apply_action_sum. repeat case_match; cbn; lia. Qed.

Lemma finish_write_submit p :
  has_action (is_io_policy_finish_write p).2 IS_IO_SUBMIT_LOCAL = false.
Proof.
  unfold is_io_policy_finish_write, is_io_policy_complete_request.
  repeat (case_match; simplify_eq; cbn [snd]); done.
Qed.

(** The Backing Store result never asks for another submission. *)
Lemma local_complete_submit p s :
  has_action (is_io_policy_local_complete p s).2 IS_IO_SUBMIT_LOCAL = false.
Proof.
  unfold is_io_policy_local_complete. case_match; [done|].
  set (q := p <| pol_local_pending := false |> <| pol_local_done := true |> <| pol_local_status := s |>).
  assert (H2 : forall q' a, has_action a IS_IO_SUBMIT_LOCAL = false ->
    has_action (let '(st, f) := is_io_policy_finish_write q' in (st, Z.lor a f)).2
      IS_IO_SUBMIT_LOCAL = false).
  { intros q' a Ha. pose proof (finish_write_submit q') as Hf.
    destruct (is_io_policy_finish_write q') as [st f]. cbn [snd] in *. revert Ha Hf.
    unfold has_action. rewrite !negb_false_iff, !Z.eqb_eq, Z.land_lor_distr_l. by intros -> ->. }
  assert (H3 : forall q' a, has_action a IS_IO_SUBMIT_LOCAL = false ->
    has_action (let '(st, f) := is_io_policy_complete_request q' s in (st, Z.lor a f)).2
      IS_IO_SUBMIT_LOCAL = false).
  { intros q' a Ha. unfold is_io_policy_complete_request. revert Ha. unfold has_action.
    rewrite !negb_false_iff, !Z.eqb_eq.
    destruct (pol_request_complete q'); [|destruct (s =? 0)]; cbn [snd];
      rewrite Z.land_lor_distr_l; by intros ->. }
  destruct (negb (s =? 0)); repeat (case_match; [|try done]); try done; auto.
Qed.

Definition retry_cost (t : is_remote_io_transaction) : nat :=
  if backing_retries t =? 0 then 10 else 0.

Lemma backing_completed_cost e t s t' l :
  is_remote_io_transaction_backing_completed e t s = (t', l) ->
  (sum_list_with cost l + retry_cost t' < 8 + retry_cost t)%nat.
Proof.
  unfold is_remote_io_transaction_backing_completed, retry_cost. cbn -[is_io_policy_local_complete
    is_transaction_apply_action is_transaction_note_invariant].
  set (t1 := is_transaction_begin_event t). change (backing_claim t) with (backing_claim t1).
  destruct (negb (backing_claim t1)).
  - pose proof (note_invariant_cost t1 IS_REMOTE_IO_TRANSACTION_EVENT_BACKING_COMPLETED) as [H1 H2].
    destruct (is_transaction_note_invariant t1) as [t2 r]. intros [= <- <-].
    cbn [fst snd] in *. rewrite H2, !sum_list_with_app.
    change (backing_retries t1) with (backing_retries t).
    change (is_transaction_apply_action IS_IO_NO_ACTION s) with (@nil instr). cbn. lia.
  - destruct (_ && (backing_retries t =? 0)) eqn:E.
    + apply andb_prop in E as [_ E]. rewrite E. apply Z.eqb_eq in E. rewrite E.
      intros [= <- <-]. change (u32 (0 + 1)) with 1. cbn. lia.
    + pose proof (local_complete_submit (tx_policy t) s) as Hs.
      destruct (is_io_policy_local_complete (tx_policy t) s) as [p a]. intros [= <- <-].
      cbn [snd] in Hs. rewrite sum_list_with_app.
      match goal with |- context [is_transaction_apply_action a ?st] =>
        pose proof (apply_action_cost a st) as Hc end.
      rewrite Hs in Hc. cbn [sum_list_with cost b2n] in *. cbn. lia.
Qed.

Lemma rdma_completed_cost t g s x t' l :
  is_remote_io_transaction_rdma_completed t g s x = (t', l) ->
  (sum_list_with cost l < 19)%nat /\ backing_retries t' = backing_retries t.
Proof.
  unfold is_remote_io_transaction_rdma_completed.
  set (t1 := is_transaction_begin_event t). change (backing_retries t) with (backing_retries t1).
  destruct (if negb (g =? _) then _ else _) as [[[t2 r] a] st] eqn:E. intros [= <- <-].
  pose proof (apply_action_cost a st) as Hc. pose proof (b2n_le (has_action a IS_IO_SUBMIT_LOCAL)).
  rewrite !sum_list_with_app. cbn [sum_list_with cost]. split.
  - assert (sum_list_with cost (report_instr r IS_REMOTE_IO_TRANSACTION_EVENT_RDMA_COMPLETED) <= 1)%nat
      by (destruct r; cbn; lia). lia.
  - unfold is_transaction_note_invariant in E. repeat (case_match; simplify_eq; try done).
Qed.

Lemma rdma_released_cost t g t' l :
  is_remote_io_transaction_rdma_released t g = (t', l) ->
  (sum_list_with cost l < 6)%nat /\ backing_retries t' = backing_retries t.
Proof.
  unfold is_remote_io_transaction_rdma_released, is_transaction_note_invariant.
  intros E. repeat (case_match; simplify_eq); cbn; split; done || lia.
Qed.

Lemma finish_event_cost t ev t' l :
  is_transaction_finish_event t ev = (t', l) ->
  (sum_list_with cost l < 4)%nat /\ backing_retries t' = backing_retries t.
Proof.
  unfold is_transaction_finish_event, is_transaction_note_invariant.
  intros E. repeat (case_match; simplify_eq); cbn; split; done || lia.
Qed.

Lemma step_measure c c' : step c c' -> (measure c' < measure c)%nat.
Proof.
  intros [c1 T1 i k T2 status c2 after Hth Hex|c1 n s Ho|c1 n s x Ho|c1 n Ho];
    unfold measure; cbn -[total Nat.mul]; rewrite ?total_cons, ?Ho; cbn -[total Nat.mul]; try lia.
  rewrite Hth, !total_split, sum_list_with_app. cbn [sum_list_with].
  fold (retry_cost (c_tx c1)) (retry_cost (c_tx c2)).
  destruct i; cbn [exec cost] in *.
  - injection Hex as <- <-. unfold start_after_prepare. destruct (status =? 0); cbn; lia.
  - injection Hex as <- <-. destruct (backing_claim (c_tx c1)); cbn; lia.
  - destruct (status =? 0); cbn in Hex; injection Hex as <- <-; cbn; lia.
  - destruct (status =? 0); cbn in Hex; injection Hex as <- <-; cbn; lia.
  - destruct (is_remote_io_transaction_backing_completed _ _ _) as [t' l] eqn:E.
    injection Hex as <- <-. apply backing_completed_cost in E. cbn. lia.
  - destruct (is_remote_io_transaction_rdma_completed _ _ _ _) as [t' l] eqn:E.
    injection Hex as <- <-. apply rdma_completed_cost in E as [E Er]. cbn. unfold retry_cost.
    rewrite Er. lia.
  - destruct (is_remote_io_transaction_rdma_released _ _) as [t' l] eqn:E.
    injection Hex as <- <-. apply rdma_released_cost in E as [E Er]. cbn. unfold retry_cost.
    rewrite Er. lia.
  - destruct (is_transaction_finish_event _ _) as [t' l] eqn:E.
    injection Hex as <- <-. apply finish_event_cost in E as [E Er]. cbn. unfold retry_cost.
    rewrite Er. lia.
  - injection Hex as <- <-. cbn. lia.
  - injection Hex as <- <-. cbn. lia.
Qed.

Lemma measure_initial c : initial c -> measure c = 54%nat.
Proof.
  intros [engine spec alloc lock e' t _ _ Hst]. unfold is_remote_io_transaction_start in Hst.
  repeat (case_match; simplify_eq; try done). unfold is_transaction_init_policy in *.
  repeat (case_match; simplify_eq; try done).
Qed.

Lemma step_progress c : ~ quiescent c -> exists c', step c c'.
Proof.
  intros Hq. destruct (owed_backing c) eqn:Hb; [|by eexists; eapply (step_backing _ _ 0)].
  destruct (owed_result c) eqn:Hr; [|by eexists; eapply (step_result _ _ 0 false)].
  destruct (owed_transport c) eqn:Ht; [|by eexists; eapply step_transport].
  destruct (decide (Forall (fun k : list instr => k = []) (c_threads c))) as [Hf|Hn].
  { exfalso. by apply Hq. }
  apply not_Forall_Exists, Exists_exists in Hn as (k & Hin & Hk); [|tc_solve].
  apply in_split in Hin as (T1 & T2 & Hth). destruct k as [|i k]; [by destruct (Hk eq_refl)|].
  destruct (exec c i 0) as [c' after] eqn:E. eexists. by eapply step_thread.
Qed.

Lemma quiescent_no_step c c' : quiescent c -> ~ step c c'.
Proof.
  intros (Hf & Hb & Hr & Ht) Hs.
  inversion Hs as [c1 T1 i k T2 st c2 l Hth Hex|c1 n s Ho|c1 n s x Ho|c1 n Ho]; try congruence.
  rewrite Hth in Hf. apply Forall_app in Hf as [_ [? _]%Forall_cons_iff]. done.
Qed.

(** Runs without stale callbacks stay far from the bound on events. *)
Lemma total_finish_cost ts : (total w_finish ts <= total cost ts)%nat.
Proof.
  induction ts as [|k ts IH]; [done|]. rewrite !total_cons.
  assert (sum_list_with w_finish k <= sum_list_with cost k)%nat; [|lia].
  induction k as [|i k IHk]; [done|]. cbn. destruct i; cbn; lia.
Qed.

Lemma run_reachable c0 n c :
  initial c0 -> nsteps step n c0 c -> reachable c0 c /\ (n + measure c <= 54)%nat.
Proof.
  intros Hi. revert c. induction n as [|n IH]; intros c Hn.
  - inversion Hn; subst. rewrite measure_initial by done. split; [by constructor|lia].
  - apply nsteps_inv_r in Hn as (c1 & Hn & Hs). destruct (IH c1 Hn) as [Hr Hm].
    pose proof (step_measure _ _ Hs). split; [|lia].
    eapply reachable_step; [done| |by left]. unfold events_bounded.
    destruct (reachable_inv _ _ Hr) as (Hc & _ & _). rewrite (i_active _ Hc).
    pose proof (total_finish_cost (c_threads c1)). unfold measure in Hm. lia.
Qed.

Lemma quiescent_dec c : quiescent c \/ ~ quiescent c.
Proof.
  unfold quiescent. destruct (decide (Forall (fun k : list instr => k = []) (c_threads c)));
    destruct (decide (owed_backing c = 0%nat)), (decide (owed_result c = 0%nat)),
      (decide (owed_transport c = 0%nat)); tauto.
Qed.

Lemma complete_in l : (0 < sum_list_with is_complete l)%nat -> exists s, In (adapter_complete s) l.
Proof.
  induction l as [|a l IH]; cbn; [lia|]. intros H.
  destruct a as [s| | | | |]; try (destruct (IH H) as [s Hs]; exists s; by right).
  exists s. by left.
Qed.

Lemma total_nil w ts : Forall (fun k : list instr => k = []) ts -> total w ts = 0%nat.
Proof. induction 1 as [|k ts -> _ IH]; [done|]. by rewrite total_cons, IH. Qed.

Lemma quiescent_counts base c :
  claims_inv c -> calls_inv base c -> quiescent c ->
  pol_request_complete (tx_policy (c_tx c)) = true /\ settling (c_tx c) = true /\
  (forall f, total (on_adapter f) (c_threads c) = 0%nat) /\
  total w_decrement (c_threads c) = 0%nat.
Proof.
  intros [Hib Hir Hit Hia Hip Hil Hirm Hig Hist Hirep] _ (Hf & Hb & Hr & Ht).
  rewrite !total_nil in * by done. rewrite Hb in Hib. rewrite Hr in Hir. rewrite Ht in Hit.
  assert (Hz : forall b, b2n b = 0%nat -> b = false) by (by intros []).
  apply Hz in Hib, Hir, Hit. split_and!.
  - rewrite Hib in Hil. rewrite Hir in Hirm.
    pose proof (all_results_releasable _ Hip Hil Hirm) as Hrel. unfold is_io_policy_releasable in Hrel.
    by apply andb_prop in Hrel as [[? _]%andb_prop _].
  - by rewrite Hist, Hia, Hib, Hir, Hit.
  - intros f. by apply total_nil.
  - done.
Qed.

(** C5.  Every run terminates, and completely: from a started transaction the
    threads and the owed callbacks take at most 54 steps in any order and with
    any results; where they can go no further, the request has completed
    exactly once with the status of its policy, the transaction was released
    and settled exactly once, the engine's count of active transactions is back
    to its value before the start, the range was marked local-only exactly when
    only the Backing Store has the data, and the device was reported degraded
    exactly when the Backing Store failed. *)
Theorem transaction_terminates c0 n c :
  initial c0 -> nsteps step n c0 c ->
  (n <= 54)%nat /\
  ((forall c', ~ step c c') ->
   (exists s, In (adapter_complete s) (c_trace c) /\ completion_ok (tx_policy (c_tx c)) s) /\
   traced is_complete c = 1%nat /\ traced is_release c = 1%nat /\ traced is_settle c = 1%nat /\
   traced is_mark c = b2n (must_mark_local_only (tx_policy (c_tx c))) /\
   traced is_degraded c = b2n (pol_backing_degraded (tx_policy (c_tx c))) /\
   active_transactions (c_engine c) = active_transactions (c_engine c0) - 1).
Proof.
  intros Hi Hn. destruct (run_reachable _ _ _ Hi Hn) as [Hr Hm]. split; [lia|]. intros Hstuck.
  assert (Hq : quiescent c).
  { destruct (quiescent_dec c) as [|Hnq]; [done|]. destruct (step_progress c Hnq) as [c' Hs].
    by destruct (Hstuck c'). }
  destruct (reachable_inv _ _ Hr) as (Hc & Hk & Hcode).
  destruct (quiescent_counts _ _ Hc Hk Hq) as (Hrc & Hset & Htot & Hd).
  destruct Hk as [Hkc Hkm Hkd Hkr Hks Hki Hkn Hkdec Hkb]. unfold emitted in *. unfold traced.
  rewrite Htot in *. rewrite Hset, Hd in *. rewrite Hrc in *. cbn [b2n] in *.
  split_and!; try lia.
  destruct (complete_in (c_trace c)) as [s Hs]; [lia|]. exists s. split; [done|].
  pose proof (i_calls _ Hcode) as Hcalls. rewrite Forall_forall in Hcalls. by apply (Hcalls _ Hs).
Qed.

(** ** Synchronous failures *)

(** A start consumes the payload on every path: either the transaction is
    started, with the count of active transactions one higher and no call made
    yet, or the request is completed exactly once with an error, settled exactly
    once and last, and the count of active transactions is what it was. *)
Theorem start_consumes engine spec allocation lock_status engine' calls r :
  is_u32 (active_transactions engine + 1) -> 0 <= active_transactions engine ->
  is_remote_io_transaction_start engine spec allocation lock_status = (engine', calls, r) ->
  match r with
  | Some t => calls = [] /\ tx_spec t = spec /\ initialized engine = true /\
      engine' = engine <| active_transactions := active_transactions engine + 1 |>
  | None => engine' = engine /\
      exists pre s, calls = pre ++ [adapter_complete s; adapter_settle] /\ s <> 0 /\
        (pre = [] \/ pre = [adapter_release])
  end.
Proof.
  intros Hu H0. unfold is_remote_io_transaction_start.
  assert (Hback : (engine <| active_transactions := u32 (active_transactions engine + 1) |>)
    <| active_transactions := u32 (u32 (active_transactions engine + 1) - 1) |> = engine).
  { rewrite (wrap_small 32 (_ + 1)) by done. rewrite wrap_small by (unfold in_u in *; lia).
    rewrite Z.add_simpl_r. by destruct engine. }
  destruct (initialized engine) eqn:Hin; cbn [negb].
  2: { intros [= <- <- <-]. split; [done|]. exists [], (- ESHUTDOWN). auto. }
  destruct (is_transaction_spec_valid spec); cbn [negb].
  2: { intros [= <- <- <-]. split; [done|]. exists [], (- EINVAL). auto. }
  destruct allocation as [st sto]. destruct (st =? 0) eqn:Est; cbn [negb orb].
  2: { intros [= <- <- <-]. split; [done|]. exists [], st. split_and!; auto. lia. }
  destruct (sto =? 0).
  { intros [= <- <- <-]. split; [done|]. exists [], (- ENOMEM). auto. }
  destruct (lock_status =? 0) eqn:El; cbn [negb].
  2: { intros [= <- <- <-]. split; [done|]. exists [adapter_release], lock_status. split_and!; auto. lia. }
  unfold is_transaction_init_policy. cbn -[policy_kind]. destruct (policy_kind _ _) as [k|].
  - intros [= <- <- <-]. rewrite wrap_small by done. split_and!; try done. by destruct k.
  - intros [= <- <- <-]. split; [done|]. exists [adapter_release], (- EINVAL). auto.
Qed.

(** ** Running concrete schedules *)

Inductive choice :=
| run_thread (n : nat) (status : Z)
| run_backing (status : Z)
| run_result (status : Z) (cancelled : bool)
| run_transport.

Definition run_choice (c : config) (ch : choice) : option config :=
  match ch with
  | run_thread n status =>
      match c_threads c !! n with
      | Some (i :: k) =>
          let '(c', after) := exec c i status in
          Some (c' <| c_threads := take n (c_threads c) ++ (after ++ k) :: drop (S n) (c_threads c) |>)
      | _ => None
      end
  | run_backing status =>
      match owed_backing c with
      | S n => Some (c <| owed_backing := n |>
                       <| c_threads := [call_backing_completed status] :: c_threads c |>)
      | O => None
      end
  | run_result status cancelled =>
      match owed_result c with
      | S n => Some (c <| owed_result := n |>
                       <| c_threads :=
                            [call_rdma_completed (spec_generation (tx_spec (c_tx c))) status cancelled]
                            :: c_threads c |>)
      | O => None
      end
  | run_transport =>
      match owed_transport c with
      | S n => Some (c <| owed_transport := n |>
                       <| c_threads := [call_rdma_released (spec_generation (tx_spec (c_tx c)))]
                                       :: c_threads c |>)
      | O => None
      end
  end.

Fixpoint run (c : config) (chs : list choice) : option config :=
  match chs with
  | [] => Some c
  | ch :: chs => match run_choice c ch with Some c' => run c' chs | None => None end
  end.

Lemma run_choice_step c ch c' : run_choice c ch = Some c' -> step c c'.
Proof.
  destruct ch as [n status|status|status x|]; cbn.
  - destruct (c_threads c !! n) as [[|i k]|] eqn:E; try done.
    destruct (exec c i status) as [c1 after] eqn:Ex. intros [= <-].
    eapply step_thread; [|done]. symmetry. by apply take_drop_middle.
  - destruct (owed_backing c) eqn:E; [done|]. intros [= <-]. by apply step_backing.
  - destruct (owed_result c) eqn:E; [done|]. intros [= <-]. by apply step_result.
  - destruct (owed_transport c) eqn:E; [done|]. intros [= <-]. by apply step_transport.
Qed.

Lemma run_nsteps c chs c' : run c chs = Some c' -> nsteps step (length chs) c c'.
Proof.
  revert c. induction chs as [|ch chs IH]; intros c; cbn; [intros [= <-]; constructor|].
  destruct (run_choice c ch) as [c1|] eqn:E; [|done]. intros Hr.
  eapply nsteps_l; [by apply run_choice_step in E|by apply IH].
Qed.

(** A strict write whose copy succeeds and whose RDMA write fails. *)
Definition example_engine : is_remote_io_transaction_engine :=
  {| active_transactions := 4; mode := IS_REMOTE_IO_TRANSACTION_BACKED_STRICT; initialized := true |}.
Definition example_spec : is_remote_io_transaction_spec :=
  {| spec_direction := IS_REMOTE_IO_TRANSACTION_WRITE; spec_sector := 16; spec_bytes := 4096;
     spec_generation := 9; spec_payload := 0x1000 |}.
Definition example_start : config :=
  match is_remote_io_transaction_start example_engine example_spec (0, 0x2000) 0 with
  | (e, _, Some t) => started e t
  | (e, _, None) => started e {|
      tx_spec := example_spec; tx_policy := is_io_policy_init_remote_read 0; active_events := 0;
      backing_retries := 0; backing_claim := false; rdma_result_claim := false;
      rdma_transport_claim := false; invariant_reported := false; settling := false |}
  end.
Definition example_schedule : list choice :=
  replicate 4 (run_thread 0 0) ++ [run_backing 0] ++ replicate 2 (run_thread 0 0) ++
  [run_result (- EIO) false] ++ replicate 4 (run_thread 0 0) ++
  [run_transport] ++ replicate 2 (run_thread 0 0) ++ replicate 4 (run_thread 3 0).
Definition example_end : config :=
  match run example_start example_schedule with Some c => c | None => example_start end.

Lemma example_initial : initial example_start.
Proof. apply (initial_intro example_engine example_spec (0, 0x2000) 0); [done|done|reflexivity]. Defined.

Lemma example_run : nsteps step 19 example_start example_end.
Proof. apply (run_nsteps example_start example_schedule). vm_compute. reflexivity. Defined.

Lemma example_stuck c' : ~ step example_end c'.
Proof. apply quiescent_no_step. vm_compute. repeat constructor. Defined.

Lemma transaction_safe_witness :
  completion_ok (tx_policy (c_tx example_end)) 0 /\ traced is_invariant example_end = 0%nat.
Proof.
  pose proof (transaction_safe example_start example_end
    (proj1 (run_reachable _ _ _ example_initial example_run))) as (_ & _ & _ & Hi & Hs).
  split; [|exact Hi]. apply Hs. vm_compute. auto 10.
Defined.

Lemma no_use_after_release_witness :
  Forall (Forall (fun i => touches i = false)) (c_threads example_end).
Proof.
  refine (proj1 (no_use_after_release example_start example_end
    (proj1 (run_reachable _ _ _ example_initial example_run)) _)). vm_compute. auto 10.
Defined.

Lemma marked_before_complete_witness :
  In adapter_mark_local_only [adapter_mark_local_only] /\
  ~ In adapter_mark_local_only [adapter_release; adapter_settle].
Proof.
  refine (marked_before_complete example_start example_end [adapter_mark_local_only]
    [adapter_release; adapter_settle] 0
    (proj1 (run_reachable _ _ _ example_initial example_run)) _ _); vm_compute; reflexivity.
Defined.

Lemma transaction_terminates_witness :
  traced is_complete example_end = 1%nat /\ traced is_settle example_end = 1%nat.
Proof.
  destruct (transaction_terminates example_start 19 example_end example_initial example_run)
    as [_ Hend].
  destruct (Hend example_stuck) as (_ & H1 & _ & H2 & _). exact (conj H1 H2).
Defined.

Lemma start_consumes_witness :
  exists pre s, [adapter_complete (- ENOMEM); adapter_settle]
      = pre ++ [adapter_complete s; adapter_settle] /\ s <> 0 /\
    (pre = [] \/ pre = [adapter_release]).
Proof.
  refine (proj2 (start_consumes example_engine example_spec (- ENOMEM, 0) 0 example_engine
    [adapter_complete (- ENOMEM); adapter_settle] None _ _ _)).
  - done.
  - done.
  - vm_compute. reflexivity.
Defined.
