(* ===== verification/OperationOwner.v ===== *)
(** * Owner of one posted RDMA operation: infiniswap_bd/is_rdma_operation_owner.c

    The poster, the completion handler and the provider deadline timer share
    an owner.  As in [IoTransaction] a thread is the list of what it still has
    to do, each locked section and each adapter call being one instruction; the
    environment decides whether the post succeeds, when the completion arrives
    and when the armed timer fires. *)
From S2P Require Import Prelude.

(** ** Data *)

Inductive is_rdma_operation_owner_event :=
| IS_RDMA_OPERATION_EVENT_POST_SUCCEEDED
| IS_RDMA_OPERATION_EVENT_POST_FAILED
| IS_RDMA_OPERATION_EVENT_PROVIDER_DEADLINE
| IS_RDMA_OPERATION_EVENT_RDMA_COMPLETED.

Inductive is_rdma_operation_terminal :=
| IS_RDMA_OPERATION_TERMINAL_NONE
| IS_RDMA_OPERATION_TERMINAL_COMPLETION
| IS_RDMA_OPERATION_TERMINAL_DEADLINE.

#[export] Instance is_rdma_operation_terminal_eq_dec : EqDecision is_rdma_operation_terminal.
Proof. solve_decision. Defined.

Inductive is_owner_post_state :=
| IS_OWNER_POST_PENDING
| IS_OWNER_POST_SUCCEEDED
| IS_OWNER_POST_FAILED.

#[export] Instance is_owner_post_state_eq_dec : EqDecision is_owner_post_state.
Proof. solve_decision. Defined.

Inductive is_owner_deadline_state :=
| IS_OWNER_DEADLINE_UNARMED
| IS_OWNER_DEADLINE_ARMING
| IS_OWNER_DEADLINE_ARMED
| IS_OWNER_DEADLINE_CANCELLING
| IS_OWNER_DEADLINE_CANCELLED
| IS_OWNER_DEADLINE_FIRED.

#[export] Instance is_owner_deadline_state_eq_dec : EqDecision is_owner_deadline_state.
Proof. solve_decision. Defined.

Record is_rdma_operation_owner := {
  owner_active_events : Z;
  submit_claim : bool;
  completion_claim : bool;
  deadline_claim : bool;
  post_state : is_owner_post_state;
  deadline_state : is_owner_deadline_state;
  completion_seen : bool;
  deadline_seen : bool;
  owner_invariant_reported : bool;
  destroying : bool;
  terminal : is_rdma_operation_terminal
}.

#[export] Instance owner_eta : Eta is_rdma_operation_owner := fun o =>
  {| owner_active_events := owner_active_events o; submit_claim := submit_claim o;
     completion_claim := completion_claim o; deadline_claim := deadline_claim o;
     post_state := post_state o; deadline_state := deadline_state o;
     completion_seen := completion_seen o; deadline_seen := deadline_seen o;
     owner_invariant_reported := owner_invariant_reported o; destroying := destroying o;
     terminal := terminal o |}.

(** Adapter calls with an effect outside of the owner; arming and cancelling
    the timer act on the environment's timer instead. *)
Inductive owner_call :=
| owner_retire_posted (status : Z) (late_completion : bool)
| owner_abort_unposted
| owner_publish_terminal (t : is_rdma_operation_terminal) (status : Z)
| owner_release_transferred_io
| owner_destroy
| owner_invariant (event : is_rdma_operation_owner_event).

Inductive owner_instr :=
| o_post_succeeded
| o_post_failed
| o_provider_deadline
| o_rdma_completed (status : Z)
| o_arm_deadline
| o_after_arm
| o_cancel_submit
| o_cancelled_submit
| o_cancel_complete (status : Z) (publish late_completion : bool)
| o_cancelled_complete (status : Z) (publish late_completion : bool)
| o_finish_event (release_submit release_completion release_deadline : bool)
| o_call (call : owner_call).

(** ** Routines *)

(** [lock_status] is the result of [is_owner_lock_init]. *)
Definition is_rdma_operation_owner_init (lock_status : Z) : Z + is_rdma_operation_owner :=
  if negb (lock_status =? 0) then inl lock_status
  else inr {| owner_active_events := 0; submit_claim := true; completion_claim := true;
              deadline_claim := true; post_state := IS_OWNER_POST_PENDING;
              deadline_state := IS_OWNER_DEADLINE_UNARMED; completion_seen := false;
              deadline_seen := false; owner_invariant_reported := false; destroying := false;
              terminal := IS_RDMA_OPERATION_TERMINAL_NONE |}.

Definition is_owner_begin_event (o : is_rdma_operation_owner) : is_rdma_operation_owner :=
  o <| owner_active_events := u32 (owner_active_events o + 1) |>.

Definition is_owner_note_invariant (o : is_rdma_operation_owner) :
    is_rdma_operation_owner * bool :=
  if owner_invariant_reported o then (o, false)
  else (o <| owner_invariant_reported := true |>, true).

Definition owner_report (report : bool) (event : is_rdma_operation_owner_event) :
    list owner_instr :=
  if report then [o_call (owner_invariant event)] else [].

Definition is_owner_finish_event (o : is_rdma_operation_owner)
    (release_submit release_completion release_deadline : bool) :
    is_rdma_operation_owner * list owner_instr :=
  let o := if release_submit then o <| submit_claim := false |> else o in
  let o := if release_completion then o <| completion_claim := false |> else o in
  let o := if release_deadline then o <| deadline_claim := false |> else o in
  let o := if negb (owner_active_events o =? 0)
           then o <| owner_active_events := owner_active_events o - 1 |> else o in
  if (owner_active_events o =? 0) && negb (submit_claim o) && negb (completion_claim o) &&
     negb (deadline_claim o) && negb (destroying o)
  then (o <| destroying := true |>, [o_call owner_destroy])
  else (o, []).

(** The first locked section, then the continuation: arming, or the end of the
    routine. *)
Definition is_rdma_operation_owner_post_succeeded (o : is_rdma_operation_owner) :
    is_rdma_operation_owner * list owner_instr :=
  let o := is_owner_begin_event o in
  if negb (bool_decide (post_state o = IS_OWNER_POST_PENDING)) then
    let '(o, report) := is_owner_note_invariant o in
    (o, owner_report report IS_RDMA_OPERATION_EVENT_POST_SUCCEEDED ++
        [o_finish_event false false false])
  else
    let o := o <| post_state := IS_OWNER_POST_SUCCEEDED |> in
    if completion_seen o then
      (o <| deadline_state := IS_OWNER_DEADLINE_CANCELLED |>, [o_finish_event true false true])
    else (o <| deadline_state := IS_OWNER_DEADLINE_ARMING |>, [o_arm_deadline]).

(** The second locked section of [post_succeeded], after arming. *)
Definition owner_after_arm (o : is_rdma_operation_owner) :
    is_rdma_operation_owner * list owner_instr :=
  if deadline_seen o then
    (o <| deadline_state := IS_OWNER_DEADLINE_FIRED |>, [o_finish_event true false false])
  else if completion_seen o then
    (o <| deadline_state := IS_OWNER_DEADLINE_CANCELLING |>, [o_cancel_submit])
  else (o <| deadline_state := IS_OWNER_DEADLINE_ARMED |>, [o_finish_event true false false]).

(** Its third locked section, after a cancellation that succeeded. *)
Definition owner_cancelled_submit (o : is_rdma_operation_owner) :
    is_rdma_operation_owner * list owner_instr :=
  if negb (deadline_seen o) then
    (o <| deadline_state := IS_OWNER_DEADLINE_CANCELLED |>, [o_finish_event true false true])
  else (o, [o_finish_event true false false]).

Definition is_rdma_operation_owner_post_failed (o : is_rdma_operation_owner) :
    is_rdma_operation_owner * list owner_instr :=
  let o := is_owner_begin_event o in
  if negb (bool_decide (post_state o = IS_OWNER_POST_PENDING)) then
    let '(o, report) := is_owner_note_invariant o in
    (o, owner_report report IS_RDMA_OPERATION_EVENT_POST_FAILED ++
        [o_finish_event false false false])
  else
    let o := o <| post_state := IS_OWNER_POST_FAILED |>
               <| deadline_state := IS_OWNER_DEADLINE_CANCELLED |> in
    if completion_seen o then
      let '(o, report) := is_owner_note_invariant o in
      (o, owner_report report IS_RDMA_OPERATION_EVENT_POST_FAILED ++
          [o_finish_event true true true])
    else (o, [o_call owner_abort_unposted; o_finish_event true true true]).

Definition is_rdma_operation_owner_provider_deadline (o : is_rdma_operation_owner) :
    is_rdma_operation_owner * list owner_instr :=
  let o := is_owner_begin_event o in
  if deadline_seen o || negb (bool_decide (post_state o = IS_OWNER_POST_SUCCEEDED)) ||
     bool_decide (deadline_state o = IS_OWNER_DEADLINE_CANCELLED)
  then
    let '(o, report) := is_owner_note_invariant o in
    (o, owner_report report IS_RDMA_OPERATION_EVENT_PROVIDER_DEADLINE ++
        [o_finish_event false false false])
  else if completion_seen o then
    (o <| deadline_seen := true |> <| deadline_state := IS_OWNER_DEADLINE_FIRED |>,
     [o_finish_event false false true])
  else
    let o := o <| deadline_seen := true |> <| deadline_state := IS_OWNER_DEADLINE_FIRED |> in
    if decide (terminal o = IS_RDMA_OPERATION_TERMINAL_NONE) then
      (o <| terminal := IS_RDMA_OPERATION_TERMINAL_DEADLINE |>,
       [o_call (owner_publish_terminal IS_RDMA_OPERATION_TERMINAL_DEADLINE (- ETIMEDOUT));
        o_finish_event false false true])
    else (o, [o_finish_event false false true]).

(** The calls after the cancellation attempt of a completion. *)
Definition owner_complete (status : Z) (publish late_completion deadline_cancelled : bool) :
    list owner_instr :=
  [o_call (owner_retire_posted status late_completion)] ++
  (if publish
   then [o_call (owner_publish_terminal IS_RDMA_OPERATION_TERMINAL_COMPLETION status)] else []) ++
  [o_call owner_release_transferred_io; o_finish_event false true deadline_cancelled].

Definition is_rdma_operation_owner_rdma_completed (o : is_rdma_operation_owner) (status : Z) :
    is_rdma_operation_owner * list owner_instr :=
  let o := is_owner_begin_event o in
  if completion_seen o || bool_decide (post_state o = IS_OWNER_POST_FAILED) then
    let '(o, report) := is_owner_note_invariant o in
    (o, owner_report report IS_RDMA_OPERATION_EVENT_RDMA_COMPLETED ++
        [o_finish_event false false false])
  else
    let o := o <| completion_seen := true |> in
    let '(o, publish, late_completion) :=
      if decide (terminal o = IS_RDMA_OPERATION_TERMINAL_NONE)
      then (o <| terminal := IS_RDMA_OPERATION_TERMINAL_COMPLETION |>, true, false)
      else (o, false, bool_decide (terminal o = IS_RDMA_OPERATION_TERMINAL_DEADLINE)) in
    (o, if bool_decide (deadline_state o = IS_OWNER_DEADLINE_ARMED)
        then [o_cancel_complete status publish late_completion]
        else owner_complete status publish late_completion false).

(** ** Interleavings

    [post_open]: the poster has not yet been told whether the post succeeded;
    [owed_completion]: posted operations whose completion is still to come;
    [timer]: the deadline timer is armed.  Cancelling the timer succeeds
    exactly when it is armed, and a timer that fired or was cancelled does not
    fire. *)
Record owner_config := {
  oc_owner : is_rdma_operation_owner;
  oc_threads : list (list owner_instr);
  post_open : bool;
  owed_completion : nat;
  timer : bool;
  oc_trace : list owner_call
}.

#[export] Instance owner_config_eta : Eta owner_config := fun c =>
  {| oc_owner := oc_owner c; oc_threads := oc_threads c; post_open := post_open c;
     owed_completion := owed_completion c; timer := timer c; oc_trace := oc_trace c |}.

Definition owner_exec (c : owner_config) (i : owner_instr) : owner_config * list owner_instr :=
  let o := oc_owner c in
  match i with
  | o_post_succeeded =>
      let '(o, after) := is_rdma_operation_owner_post_succeeded o in (c <| oc_owner := o |>, after)
  | o_post_failed =>
      let '(o, after) := is_rdma_operation_owner_post_failed o in (c <| oc_owner := o |>, after)
  | o_provider_deadline =>
      let '(o, after) := is_rdma_operation_owner_provider_deadline o in
      (c <| oc_owner := o |>, after)
  | o_rdma_completed status =>
      let '(o, after) := is_rdma_operation_owner_rdma_completed o status in
      (c <| oc_owner := o |>, after)
  | o_arm_deadline => (c <| timer := true |>, [o_after_arm])
  | o_after_arm => let '(o, after) := owner_after_arm o in (c <| oc_owner := o |>, after)
  | o_cancel_submit =>
      if timer c then (c <| timer := false |>, [o_cancelled_submit])
      else (c, [o_finish_event true false false])
  | o_cancelled_submit =>
      let '(o, after) := owner_cancelled_submit o in (c <| oc_owner := o |>, after)
  | o_cancel_complete status publish late =>
      if timer c then (c <| timer := false |>, [o_cancelled_complete status publish late])
      else (c, owner_complete status publish late false)
  | o_cancelled_complete status publish late =>
      (c <| oc_owner := o <| deadline_state := IS_OWNER_DEADLINE_CANCELLED |> |>,
       owner_complete status publish late true)
  | o_finish_event rs rc rd =>
      let '(o, after) := is_owner_finish_event o rs rc rd in (c <| oc_owner := o |>, after)
  | o_call call => (c <| oc_trace := oc_trace c ++ [call] |>, [])
  end.

Inductive owner_step : owner_config -> owner_config -> Prop :=
| owner_step_thread c T1 i k T2 c' after :
    oc_threads c = T1 ++ (i :: k) :: T2 ->
    owner_exec c i = (c', after) ->
    owner_step c (c' <| oc_threads := T1 ++ (after ++ k) :: T2 |>)
| owner_step_posted c :
    post_open c = true ->
    owner_step c (c <| post_open := false |> <| owed_completion := S (owed_completion c) |>
                    <| oc_threads := [o_post_succeeded] :: oc_threads c |>)
| owner_step_not_posted c :
    post_open c = true ->
    owner_step c (c <| post_open := false |>
                    <| oc_threads := [o_post_failed] :: oc_threads c |>)
| owner_step_completion c n status :
    owed_completion c = S n ->
    owner_step c (c <| owed_completion := n |>
                    <| oc_threads := [o_rdma_completed status] :: oc_threads c |>)
| owner_step_fire c :
    timer c = true ->
    owner_step c (c <| timer := false |>
                    <| oc_threads := [o_provider_deadline] :: oc_threads c |>).

Definition owner_started (o : is_rdma_operation_owner) : owner_config :=
  {| oc_owner := o; oc_threads := []; post_open := true; owed_completion := 0;
     timer := false; oc_trace := [] |}.

(** The runs of an initialised owner. *)
Inductive owner_reachable : nat -> owner_config -> Prop :=
| owner_reachable_start o :
    is_rdma_operation_owner_init 0 = inr o -> owner_reachable 0 (owner_started o)
| owner_reachable_step n c c' :
    owner_reachable n c -> owner_step c c' -> owner_reachable (S n) c'.
