(* ===== verification/OperationOwnerInv.v ===== *)
(** * The invariant of an RDMA operation owner *)
From S2P Require Import Prelude OperationOwner.

(** ** Weights: who will still release a claim *)

Definition ow_submit (i : owner_instr) : nat :=
  match i with
  | o_post_succeeded | o_post_failed | o_arm_deadline | o_after_arm
  | o_cancel_submit | o_cancelled_submit => 1
  | o_finish_event rs _ _ => b2n rs
  | _ => 0
  end.
Definition ow_completion (i : owner_instr) : nat :=
  match i with
  | o_post_failed | o_rdma_completed _ | o_cancel_complete _ _ _ | o_cancelled_complete _ _ _ => 1
  | o_finish_event _ rc _ => b2n rc
  | _ => 0
  end.
Definition ow_deadline (i : owner_instr) : nat :=
  match i with
  | o_post_succeeded | o_post_failed | o_provider_deadline | o_arm_deadline
  | o_cancelled_submit | o_cancelled_complete _ _ _ => 1
  | o_finish_event _ _ rd => b2n rd
  | _ => 0
  end.

(** An event that began has one instruction that leads to its finish. *)
Definition ow_active (i : owner_instr) : nat :=
  match i with
  | o_arm_deadline | o_after_arm | o_cancel_submit | o_cancelled_submit
  | o_cancel_complete _ _ _ | o_cancelled_complete _ _ _ | o_finish_event _ _ _ => 1
  | _ => 0
  end.

(** ** Tokens: each of the three things happens once *)

Definition tk_post (i : owner_instr) : nat :=
  match i with o_post_succeeded | o_post_failed => 1 | _ => 0 end.
Definition tk_completion (i : owner_instr) : nat :=
  match i with o_post_failed | o_rdma_completed _ => 1 | _ => 0 end.
Definition tk_deadline (i : owner_instr) : nat :=
  match i with
  | o_post_succeeded | o_post_failed | o_arm_deadline | o_provider_deadline
  | o_cancelled_submit | o_cancelled_complete _ _ _ => 1
  | _ => 0
  end.
(** The thread that will look at the timer after arming it, and the threads
    that try to cancel it. *)
Definition tk_arming (i : owner_instr) : nat :=
  match i with o_arm_deadline | o_after_arm => 1 | _ => 0 end.
Definition tk_fire (i : owner_instr) : nat :=
  match i with o_provider_deadline => 1 | _ => 0 end.
Definition tk_cancel_submit (i : owner_instr) : nat :=
  match i with o_cancel_submit | o_cancelled_submit => 1 | _ => 0 end.
Definition tk_cancel_complete (i : owner_instr) : nat :=
  match i with o_cancel_complete _ _ _ | o_cancelled_complete _ _ _ => 1 | _ => 0 end.

Definition oc_publish (a : owner_call) : nat :=
  match a with owner_publish_terminal _ _ => 1 | _ => 0 end.
Definition oc_retire (a : owner_call) : nat :=
  match a with owner_retire_posted _ _ => 1 | _ => 0 end.
Definition oc_abort (a : owner_call) : nat :=
  match a with owner_abort_unposted => 1 | _ => 0 end.
Definition oc_release_io (a : owner_call) : nat :=
  match a with owner_release_transferred_io => 1 | _ => 0 end.
Definition oc_destroy (a : owner_call) : nat :=
  match a with owner_destroy => 1 | _ => 0 end.
Definition oc_invariant (a : owner_call) : nat :=
  match a with owner_invariant _ => 1 | _ => 0 end.

(** Calls still ahead: those in the code, and those that the completion makes
    after its cancellation attempt. *)
Definition ahead (f : owner_call -> nat) (i : owner_instr) : nat :=
  match i with
  | o_call a => f a
  | o_cancel_complete s p l | o_cancelled_complete s p l =>
      (f (owner_retire_posted s l) +
       (if p then f (owner_publish_terminal IS_RDMA_OPERATION_TERMINAL_COMPLETION s) else 0) +
       f owner_release_transferred_io)%nat
  | _ => 0
  end.

Definition ototal (w : owner_instr -> nat) (ts : list (list owner_instr)) : nat :=
  sum_list_with (sum_list_with w) ts.

Definition oemitted (f : owner_call -> nat) (c : owner_config) : nat :=
  (ototal (ahead f) (oc_threads c) + sum_list_with f (oc_trace c))%nat.

Lemma ototal_split w T1 k T2 :
  ototal w (T1 ++ k :: T2) = (ototal w T1 + sum_list_with w k + ototal w T2)%nat.
Proof. unfold ototal. rewrite sum_list_with_app. cbn. lia. Qed.

Lemma ototal_cons w k T : ototal w (k :: T) = (sum_list_with w k + ototal w T)%nat.
Proof. done. Qed.

(** ** Protection of the owner's memory *)

Definition otouches (i : owner_instr) : bool :=
  match i with o_call owner_destroy => false | _ => true end.

Definition ow_live (i : owner_instr) : nat :=
  (ow_submit i + ow_completion i + ow_deadline i + ow_active i)%nat.

Fixpoint oprotected (k : list owner_instr) : Prop :=
  match k with
  | [] => True
  | i :: k' => (otouches i = true -> (0 < sum_list_with ow_live k)%nat) /\ oprotected k'
  end.

Lemma oprotected_app l k : oprotected l -> oprotected k -> oprotected (l ++ k).
Proof.
  intros Hl Hk. induction l as [|i l IH]; [done|]. destruct Hl as [Hi Hl]. split; [|auto].
  intros Ht. specialize (Hi Ht). change ((i :: l) ++ k) with (i :: l ++ k).
  cbn [sum_list_with] in *. rewrite sum_list_with_app. lia.
Qed.

(** What a published result may say. *)
Definition ocall_ok (o : is_rdma_operation_owner) (a : owner_call) : Prop :=
  match a with
  | owner_publish_terminal t s => t = terminal o /\
      match t with
      | IS_RDMA_OPERATION_TERMINAL_NONE => False
      | IS_RDMA_OPERATION_TERMINAL_COMPLETION => completion_seen o = true
      | IS_RDMA_OPERATION_TERMINAL_DEADLINE => deadline_seen o = true /\ s = - ETIMEDOUT
      end
  | owner_retire_posted s late => completion_seen o = true /\
      late = bool_decide (terminal o = IS_RDMA_OPERATION_TERMINAL_DEADLINE)
  | owner_abort_unposted => post_state o = IS_OWNER_POST_FAILED
  | _ => True
  end.

Definition oinstr_ok (o : is_rdma_operation_owner) (i : owner_instr) : Prop :=
  match i with
  | o_call a => ocall_ok o a
  | o_cancel_complete _ p l | o_cancelled_complete _ p l =>
      completion_seen o = true /\ l = bool_decide (terminal o = IS_RDMA_OPERATION_TERMINAL_DEADLINE) /\
      (p = true -> terminal o = IS_RDMA_OPERATION_TERMINAL_COMPLETION)
  | o_finish_event rs rc rd => rs || rc || rd = true
  | _ => True
  end.

(** ** The invariant *)

Record owner_inv (c : owner_config) : Prop := {
  v_submit : b2n (submit_claim (oc_owner c))
    = (b2n (post_open c) + ototal ow_submit (oc_threads c))%nat;
  v_completion : b2n (completion_claim (oc_owner c))
    = (b2n (post_open c) + owed_completion c + ototal ow_completion (oc_threads c))%nat;
  v_deadline : b2n (deadline_claim (oc_owner c))
    = (b2n (post_open c) + b2n (timer c) + ototal ow_deadline (oc_threads c))%nat;
  v_active : owner_active_events (oc_owner c) = Z.of_nat (ototal ow_active (oc_threads c));
  v_destroying : destroying (oc_owner c) = (owner_active_events (oc_owner c) =? 0) &&
    negb (submit_claim (oc_owner c)) && negb (completion_claim (oc_owner c)) &&
    negb (deadline_claim (oc_owner c));
  v_reported : owner_invariant_reported (oc_owner c) = false;
  v_tpost : (b2n (post_open c) + ototal tk_post (oc_threads c) +
    b2n (negb (bool_decide (post_state (oc_owner c) = IS_OWNER_POST_PENDING))) = 1)%nat;
  v_tcompletion : (b2n (post_open c) + owed_completion c + ototal tk_completion (oc_threads c) +
    b2n (completion_seen (oc_owner c)) +
    b2n (bool_decide (post_state (oc_owner c) = IS_OWNER_POST_FAILED)) = 1)%nat;
  v_tdeadline : (b2n (post_open c) + b2n (timer c) + ototal tk_deadline (oc_threads c) +
    b2n (deadline_seen (oc_owner c)) +
    b2n (bool_decide (deadline_state (oc_owner c) = IS_OWNER_DEADLINE_CANCELLED)) = 1)%nat;
  v_arming : (0 < ototal tk_arming (oc_threads c))%nat ->
    (deadline_state (oc_owner c) = IS_OWNER_DEADLINE_ARMING \/
     deadline_state (oc_owner c) = IS_OWNER_DEADLINE_FIRED) /\
    ototal tk_arming (oc_threads c) = 1%nat /\
    ototal tk_cancel_submit (oc_threads c) = 0%nat /\
    ototal tk_cancel_complete (oc_threads c) = 0%nat;
  v_failed : post_state (oc_owner c) = IS_OWNER_POST_FAILED ->
    deadline_state (oc_owner c) = IS_OWNER_DEADLINE_CANCELLED;
  v_terminal : bool_decide (terminal (oc_owner c) = IS_RDMA_OPERATION_TERMINAL_NONE)
    = negb (completion_seen (oc_owner c) || deadline_seen (oc_owner c));
  v_published : terminal (oc_owner c) = IS_RDMA_OPERATION_TERMINAL_COMPLETION ->
    completion_seen (oc_owner c) = true;
  v_late : terminal (oc_owner c) = IS_RDMA_OPERATION_TERMINAL_DEADLINE ->
    deadline_seen (oc_owner c) = true
}.

Record owner_calls (c : owner_config) : Prop := {
  v_publish : oemitted oc_publish c
    = b2n (negb (bool_decide (terminal (oc_owner c) = IS_RDMA_OPERATION_TERMINAL_NONE)));
  v_retire : oemitted oc_retire c = b2n (completion_seen (oc_owner c));
  v_release : oemitted oc_release_io c = b2n (completion_seen (oc_owner c));
  v_abort : oemitted oc_abort c
    = b2n (bool_decide (post_state (oc_owner c) = IS_OWNER_POST_FAILED));
  v_destroy : oemitted oc_destroy c = b2n (destroying (oc_owner c));
  v_invariant : oemitted oc_invariant c = 0%nat;
  v_protected : Forall oprotected (oc_threads c);
  v_instrs : Forall (Forall (oinstr_ok (oc_owner c))) (oc_threads c);
  v_calls : Forall (ocall_ok (oc_owner c)) (oc_trace c)
}.

(** ** Relations between the weights *)

Lemma ototal_le w w' ts :
  (forall i, (w i <= w' i)%nat) -> (ototal w ts <= ototal w' ts)%nat.
Proof.
  intros H. unfold ototal. induction ts as [|k ts IH]; [done|]. cbn.
  assert (sum_list_with w k <= sum_list_with w' k)%nat; [|lia].
  clear IH. induction k as [|i k IH]; [done|]. cbn. specialize (H i). lia.
Qed.

Lemma ototal_add w w' ts :
  ototal (fun i => (w i + w' i)%nat) ts = (ototal w ts + ototal w' ts)%nat.
Proof.
  unfold ototal. induction ts as [|k ts IH]; [done|]. cbn. rewrite IH.
  assert (sum_list_with (fun i => (w i + w' i)%nat) k
    = (sum_list_with w k + sum_list_with w' k)%nat) as ->; [|lia].
  clear IH. induction k as [|i k IH]; [done|]. cbn. lia.
Qed.

Lemma ototal_active_le o ts :
  Forall (Forall (oinstr_ok o)) ts ->
  (ototal ow_active ts <= ototal ow_submit ts + ototal ow_completion ts + ototal ow_deadline ts)%nat.
Proof.
  intros H. induction ts as [|k ts IH]; [done|]. apply Forall_cons_iff in H as [Hk Hts].
  rewrite !ototal_cons. specialize (IH Hts).
  assert (sum_list_with ow_active k <=
    sum_list_with ow_submit k + sum_list_with ow_completion k + sum_list_with ow_deadline k)%nat; [|lia].
  clear IH Hts. induction k as [|i k IH]; [done|]. apply Forall_cons_iff in Hk as [Hi Hk].
  specialize (IH Hk). cbn. destruct i; cbn in *; try lia.
  destruct release_submit, release_completion, release_deadline; cbn in *; done || lia.
Qed.

(** The facts about totals that the proofs below use. *)
Lemma token_facts ts :
  (ototal tk_post ts + ototal tk_arming ts + ototal tk_cancel_submit ts <= ototal ow_submit ts)%nat /\
  (ototal tk_post ts + ototal tk_fire ts <= ototal tk_deadline ts)%nat /\
  (ototal tk_deadline ts <= ototal ow_deadline ts)%nat /\
  (ototal tk_completion ts + ototal tk_cancel_complete ts <= ototal ow_completion ts)%nat.
Proof.
  rewrite <- !ototal_add. split_and!; apply ototal_le; intros []; cbn; lia.
Qed.

(** ** What the locked sections do under the invariant *)

Definition begun (o : is_rdma_operation_owner) : is_rdma_operation_owner :=
  o <| owner_active_events := owner_active_events o + 1 |>.

Lemma begin_event_begun o : 0 <= owner_active_events o <= 3 -> is_owner_begin_event o = begun o.
Proof.
  intros Ha. unfold is_owner_begin_event, begun. rewrite wrap_small; [done|]. unfold in_u. pow_lia.
Qed.

Lemma post_succeeded_char o :
  0 <= owner_active_events o <= 3 -> post_state o = IS_OWNER_POST_PENDING ->
  is_rdma_operation_owner_post_succeeded o =
    ((begun o) <| post_state := IS_OWNER_POST_SUCCEEDED |>
       <| deadline_state := if completion_seen o then IS_OWNER_DEADLINE_CANCELLED
                            else IS_OWNER_DEADLINE_ARMING |>,
     if completion_seen o then [o_finish_event true false true] else [o_arm_deadline]).
Proof.
  intros Ha Hp. unfold is_rdma_operation_owner_post_succeeded. rewrite begin_event_begun by done.
  cbn. rewrite Hp. cbn. by destruct (completion_seen o).
Qed.

Lemma post_failed_char o :
  0 <= owner_active_events o <= 3 -> post_state o = IS_OWNER_POST_PENDING ->
  completion_seen o = false ->
  is_rdma_operation_owner_post_failed o =
    ((begun o) <| post_state := IS_OWNER_POST_FAILED |>
       <| deadline_state := IS_OWNER_DEADLINE_CANCELLED |>,
     [o_call owner_abort_unposted; o_finish_event true true true]).
Proof.
  intros Ha Hp Hc. unfold is_rdma_operation_owner_post_failed. rewrite begin_event_begun by done.
  destruct o; cbn in *. by subst.
Qed.

Lemma provider_deadline_char o :
  0 <= owner_active_events o <= 3 -> post_state o = IS_OWNER_POST_SUCCEEDED ->
  deadline_seen o = false -> deadline_state o <> IS_OWNER_DEADLINE_CANCELLED ->
  bool_decide (terminal o = IS_RDMA_OPERATION_TERMINAL_NONE) = negb (completion_seen o) ->
  is_rdma_operation_owner_provider_deadline o =
    ((begun o) <| deadline_seen := true |> <| deadline_state := IS_OWNER_DEADLINE_FIRED |>
       <| terminal := if completion_seen o then terminal o
                      else IS_RDMA_OPERATION_TERMINAL_DEADLINE |>,
     (if completion_seen o then []
      else [o_call (owner_publish_terminal IS_RDMA_OPERATION_TERMINAL_DEADLINE (- ETIMEDOUT))]) ++
     [o_finish_event false false true]).
Proof.
  intros Ha Hp Hd Hs Ht. unfold is_rdma_operation_owner_provider_deadline.
  rewrite begin_event_begun by done.
  destruct o as [a sc cc dc ps [] [] dl rep des []]; cbn in *; subst; done.
Qed.

Lemma owner_completed_char o s :
  0 <= owner_active_events o <= 3 -> completion_seen o = false ->
  post_state o <> IS_OWNER_POST_FAILED ->
  bool_decide (terminal o = IS_RDMA_OPERATION_TERMINAL_NONE) = negb (deadline_seen o) ->
  (terminal o = IS_RDMA_OPERATION_TERMINAL_DEADLINE -> deadline_seen o = true) ->
  (deadline_seen o = true -> terminal o = IS_RDMA_OPERATION_TERMINAL_DEADLINE) ->
  is_rdma_operation_owner_rdma_completed o s =
    ((begun o) <| completion_seen := true |>
       <| terminal := if deadline_seen o then terminal o
                      else IS_RDMA_OPERATION_TERMINAL_COMPLETION |>,
     if bool_decide (deadline_state o = IS_OWNER_DEADLINE_ARMED)
     then [o_cancel_complete s (negb (deadline_seen o)) (deadline_seen o)]
     else owner_complete s (negb (deadline_seen o)) (deadline_seen o) false).
Proof.
  intros Ha Hc Hp Ht Hl Hl'. unfold is_rdma_operation_owner_rdma_completed.
  rewrite begin_event_begun by done.
  destruct o as [a sc cc dc [] [] cs [] rep des []]; cbn in *; subst;
    try (by specialize (Hl eq_refl)); try (by specialize (Hl' eq_refl)); done.
Qed.

Lemma owner_finish_char o rs rc rd :
  0 < owner_active_events o -> destroying o = false ->
  let sc := submit_claim o && negb rs in
  let cc := completion_claim o && negb rc in
  let dc := deadline_claim o && negb rd in
  let last := (owner_active_events o - 1 =? 0) && negb sc && negb cc && negb dc in
  is_owner_finish_event o rs rc rd =
    (o <| submit_claim := sc |> <| completion_claim := cc |> <| deadline_claim := dc |>
       <| owner_active_events := owner_active_events o - 1 |> <| destroying := last |>,
     if last then [o_call owner_destroy] else []).
Proof.
  intros Ha Hd. destruct o as [a sc cc dc ps ds cs dl rep des tt]. cbn in *. subst des.
  unfold is_owner_finish_event.
  destruct rs, rc, rd; cbn; replace (a =? 0) with false by lia; cbn;
    rewrite ?andb_true_r, ?andb_false_r; cbn; rewrite ?andb_true_r;
    by destruct (a - 1 =? 0), sc, cc, dc.
Qed.

(** * Every step of an RDMA operation owner preserves its invariant *)

Ltac ocbn := cbn -[ototal].
Ltac ocount :=
  cbn -[ototal]; rewrite ?ototal_split, ?ototal_cons, ?sum_list_with_app; cbn -[ototal].

(** The counts of the configuration, with the moving thread split off. *)
Ltac open_owner Hv Hk Hth :=
  match type of Hv with owner_inv ?c =>
    pose proof (token_facts (oc_threads c)) as (F1 & F2 & F3 & F4);
    pose proof (ototal_active_le _ _ (v_instrs _ Hk)) as F5;
    pose proof (b2n_le (submit_claim (oc_owner c))) as B1;
    pose proof (b2n_le (completion_claim (oc_owner c))) as B2;
    pose proof (b2n_le (deadline_claim (oc_owner c))) as B3;
    destruct Hv as [Vs Vc Vd Va Vdes Vrep Vtp Vtc Vtd Varm Vf Vt Vp Vl];
    assert (Hact : 0 <= owner_active_events (oc_owner c) <= 3) by lia
  end;
  rewrite Hth in *; rewrite !ototal_split in *;
  cbn [sum_list_with ow_submit ow_completion ow_deadline ow_active tk_post tk_completion
    tk_deadline tk_arming tk_fire tk_cancel_submit tk_cancel_complete] in *.

Lemma b2n_1 b : b2n b = 1%nat -> b = true.
Proof. by destruct b. Qed.
Lemma b2n_0 b : b2n b = 0%nat -> b = false.
Proof. by destruct b. Qed.

(** A positive count of one side of a claim keeps the owner alive. *)
Lemma not_destroying a s c d :
  (0 < b2n s + b2n c + b2n d)%nat \/ 0 < a ->
  (a =? 0) && negb s && negb c && negb d = false.
Proof.
  intros [H|H]; [|by replace (a =? 0) with false by lia].
  destruct s, c, d; cbn in *; rewrite ?andb_false_r; done || lia.
Qed.

(** Decide closed comparisons of enumerated states. *)
Ltac eval_states :=
  repeat match goal with
  | |- context [@bool_decide ?P ?d] =>
      let v := eval vm_compute in (@bool_decide P d) in
      match v with true => idtac | false => idtac end; change (@bool_decide P d) with v
  | H : context [@bool_decide ?P ?d] |- _ =>
      let v := eval vm_compute in (@bool_decide P d) in
      match v with true => idtac | false => idtac end; change (@bool_decide P d) with v in H
  end; cbn [b2n negb andb orb] in *.

(** Case analysis of a state inside the counts. *)
Ltac cases_state s := destruct s eqn:?; eval_states.

Ltac close_owner :=
  try done; try lia; try congruence;
  match goal with
  | |- destroying _ = _ => rewrite not_destroying by (right; lia); congruence
  | |- _ -> _ => intros; try (exfalso; lia); split_and!; auto; try lia; try congruence
  | _ => idtac
  end.

(** What the invariant says when an event is about to begin. *)
Lemma head_post c T1 i k T2 :
  owner_inv c -> owner_calls c -> oc_threads c = T1 ++ (i :: k) :: T2 ->
  i = o_post_succeeded \/ i = o_post_failed ->
  0 <= owner_active_events (oc_owner c) <= 3 /\ destroying (oc_owner c) = false /\
  post_state (oc_owner c) = IS_OWNER_POST_PENDING /\
  (i = o_post_failed -> completion_seen (oc_owner c) = false).
Proof.
  intros Hv Hk Hth [-> | ->]; open_owner Hv Hk Hth; rewrite not_destroying in Vdes by (left; lia).
  all: split_and!; try done; try lia; try (intros; apply b2n_0; lia).
  all: cases_state (post_state (oc_owner c)); [done|lia..].
Qed.

Lemma head_deadline c T1 k T2 :
  owner_inv c -> owner_calls c -> oc_threads c = T1 ++ (o_provider_deadline :: k) :: T2 ->
  0 <= owner_active_events (oc_owner c) <= 3 /\ destroying (oc_owner c) = false /\
  post_state (oc_owner c) = IS_OWNER_POST_SUCCEEDED /\ deadline_seen (oc_owner c) = false /\
  deadline_state (oc_owner c) <> IS_OWNER_DEADLINE_CANCELLED /\
  bool_decide (terminal (oc_owner c) = IS_RDMA_OPERATION_TERMINAL_NONE)
    = negb (completion_seen (oc_owner c)).
Proof.
  intros Hv Hk Hth. open_owner Hv Hk Hth.
  assert (Hd : deadline_seen (oc_owner c) = false) by (apply b2n_0; lia).
  assert (Hs : deadline_state (oc_owner c) <> IS_OWNER_DEADLINE_CANCELLED).
  { intros E. rewrite E in *. eval_states. lia. }
  rewrite not_destroying in Vdes by (left; lia). rewrite Hd, orb_false_r in Vt.
  split_and!; try done; try lia.
  cases_state (post_state (oc_owner c)); [lia|done|]. by destruct Hs; apply Vf.
Qed.

Lemma head_completed c T1 s k T2 :
  owner_inv c -> owner_calls c -> oc_threads c = T1 ++ (o_rdma_completed s :: k) :: T2 ->
  0 <= owner_active_events (oc_owner c) <= 3 /\ destroying (oc_owner c) = false /\
  completion_seen (oc_owner c) = false /\ post_state (oc_owner c) <> IS_OWNER_POST_FAILED /\
  bool_decide (terminal (oc_owner c) = IS_RDMA_OPERATION_TERMINAL_NONE)
    = negb (deadline_seen (oc_owner c)) /\
  (deadline_seen (oc_owner c) = true ->
    terminal (oc_owner c) = IS_RDMA_OPERATION_TERMINAL_DEADLINE) /\
  (bool_decide (deadline_state (oc_owner c) = IS_OWNER_DEADLINE_ARMED) = true ->
    (ototal tk_arming T1 + sum_list_with tk_arming k + ototal tk_arming T2 = 0)%nat).
Proof.
  intros Hv Hk Hth. open_owner Hv Hk Hth.
  assert (Hc : completion_seen (oc_owner c) = false) by (apply b2n_0; lia).
  rewrite not_destroying in Vdes by (left; lia). rewrite Hc in Vt. cbn [orb] in Vt.
  split_and!; try done; try lia.
  - intros E. rewrite E in *. eval_states. lia.
  - intros Hd. rewrite Hd in Vt. cases_state (terminal (oc_owner c)); try done.
    specialize (Vp eq_refl). congruence.
  - intros E%bool_decide_eq_true_1.
    destruct (Nat.eq_0_gt_0_cases (ototal tk_arming T1 + sum_list_with tk_arming k + ototal tk_arming T2))
      as [?|Hpos]; [done|]. destruct Varm as ([?|?] & _); [lia|congruence..].
Qed.

Lemma inv_post_succeeded c T1 k T2 :
  owner_inv c -> owner_calls c -> oc_threads c = T1 ++ (o_post_succeeded :: k) :: T2 ->
  let '(o, after) := is_rdma_operation_owner_post_succeeded (oc_owner c) in
  owner_inv (c <| oc_owner := o |> <| oc_threads := T1 ++ (after ++ k) :: T2 |>).
Proof.
  intros Hv Hk Hth. destruct (head_post _ _ _ _ _ Hv Hk Hth) as (Ha & Hdes & Hp & _); [by left|].
  rewrite post_succeeded_char by done. open_owner Hv Hk Hth. rewrite Hp in *. eval_states.
  constructor; destruct (completion_seen (oc_owner c)) eqn:Hc; ocount; rewrite ?Hc; eval_states;
    close_owner.
Qed.

Lemma inv_post_failed c T1 k T2 :
  owner_inv c -> owner_calls c -> oc_threads c = T1 ++ (o_post_failed :: k) :: T2 ->
  let '(o, after) := is_rdma_operation_owner_post_failed (oc_owner c) in
  owner_inv (c <| oc_owner := o |> <| oc_threads := T1 ++ (after ++ k) :: T2 |>).
Proof.
  intros Hv Hk Hth. destruct (head_post _ _ _ _ _ Hv Hk Hth) as (Ha & Hdes & Hp & Hc); [by right|].
  rewrite post_failed_char by auto. specialize (Hc eq_refl). open_owner Hv Hk Hth.
  rewrite Hp, Hc in *. eval_states. constructor; ocount; rewrite ?Hc; eval_states; close_owner.
Qed.

Lemma inv_provider_deadline c T1 k T2 :
  owner_inv c -> owner_calls c -> oc_threads c = T1 ++ (o_provider_deadline :: k) :: T2 ->
  let '(o, after) := is_rdma_operation_owner_provider_deadline (oc_owner c) in
  owner_inv (c <| oc_owner := o |> <| oc_threads := T1 ++ (after ++ k) :: T2 |>).
Proof.
  intros Hv Hk Hth. destruct (head_deadline _ _ _ _ Hv Hk Hth) as (Ha & Hdes & Hp & Hd & Hs & Ht).
  rewrite provider_deadline_char by done. open_owner Hv Hk Hth.
  rewrite (bool_decide_eq_false_2 _ Hs) in *. rewrite Hp, Hd in *. eval_states.
  constructor; destruct (completion_seen (oc_owner c)) eqn:Hc; ocount; rewrite ?Hc, ?Hp; eval_states;
    close_owner.
Qed.

Lemma inv_rdma_completed c T1 s k T2 :
  owner_inv c -> owner_calls c -> oc_threads c = T1 ++ (o_rdma_completed s :: k) :: T2 ->
  let '(o, after) := is_rdma_operation_owner_rdma_completed (oc_owner c) s in
  owner_inv (c <| oc_owner := o |> <| oc_threads := T1 ++ (after ++ k) :: T2 |>).
Proof.
  intros Hv Hk Hth.
  destruct (head_completed _ _ _ _ _ Hv Hk Hth) as (Ha & Hdes & Hc & Hp & Ht & Hl' & Hna).
  rewrite owner_completed_char by (done || apply Hv). open_owner Hv Hk Hth. rewrite Hc in *.
  destruct (deadline_seen (oc_owner c)) eqn:Hd; [rewrite Hl' in * by done|];
    destruct (bool_decide (deadline_state (oc_owner c) = IS_OWNER_DEADLINE_ARMED)) eqn:Har;
    try specialize (Hna eq_refl); constructor; ocount; rewrite ?Hd; eval_states; close_owner.
Qed.

Lemma inv_finish_event c T1 rs rc rd k T2 :
  owner_inv c -> owner_calls c -> oc_threads c = T1 ++ (o_finish_event rs rc rd :: k) :: T2 ->
  let '(o, after) := is_owner_finish_event (oc_owner c) rs rc rd in
  owner_inv (c <| oc_owner := o |> <| oc_threads := T1 ++ (after ++ k) :: T2 |>).
Proof.
  intros Hv Hk Hth. open_owner Hv Hk Hth. rewrite not_destroying in Vdes by (right; lia).
  rewrite owner_finish_char by (done || lia).
  assert (Hz : forall w (l : bool), w (o_call owner_destroy) = 0%nat ->
    sum_list_with w (if l then [o_call owner_destroy] else []) = 0%nat).
  { intros w l Hw. destruct l; cbn; lia. }
  assert (Hsub : forall b r n, b2n b = (n + b2n r)%nat -> b2n (b && negb r) = n).
  { intros [] [] n; cbn; lia. }
  constructor; ocount; rewrite ?Hz by done; ocbn; try done; try lia; try (apply Hsub; lia).
Qed.

Lemma inv_timer c T1 i k T2 c' after :
  owner_inv c -> owner_calls c -> oc_threads c = T1 ++ (i :: k) :: T2 ->
  match i with
  | o_arm_deadline | o_after_arm | o_cancel_submit | o_cancelled_submit
  | o_cancel_complete _ _ _ | o_cancelled_complete _ _ _ | o_call _ => True
  | _ => False
  end ->
  owner_exec c i = (c', after) ->
  owner_inv (c' <| oc_threads := T1 ++ (after ++ k) :: T2 |>).
Proof.
  intros Hv Hk Hth Hi Hex. destruct i; try done; clear Hi; cbn [owner_exec] in Hex; open_owner Hv Hk Hth.
  - injection Hex as <- <-. rewrite not_destroying in Vdes by (right; lia).
    assert (Htm : timer c = false) by (apply b2n_0; lia). rewrite Htm in *. eval_states.
    constructor; ocount; close_owner.
  - unfold owner_after_arm in Hex. destruct Varm as (Hst & Hone & Hc1 & Hc2); [lia|].
    rewrite not_destroying in Vdes by (right; lia).
    assert (Hnc : b2n (bool_decide (deadline_state (oc_owner c) = IS_OWNER_DEADLINE_CANCELLED)) = 0%nat)
      by (by destruct Hst as [-> | ->]).
    assert (Hnf : post_state (oc_owner c) <> IS_OWNER_POST_FAILED).
    { intros E. rewrite (Vf E) in Hst. by destruct Hst. }
    destruct (deadline_seen (oc_owner c)) eqn:Hd; [|destruct (completion_seen (oc_owner c)) eqn:Hc];
      injection Hex as <- <-; constructor; ocount; rewrite ?Hd, ?Hc; eval_states; close_owner.
  - rewrite not_destroying in Vdes by (right; lia).
    destruct (timer c) eqn:Htm; injection Hex as <- <-; constructor; ocount; rewrite ?Htm; eval_states;
      close_owner.
  - rewrite not_destroying in Vdes by (right; lia). unfold owner_cancelled_submit in Hex.
    assert (Hd : deadline_seen (oc_owner c) = false) by (apply b2n_0; lia). rewrite Hd in Hex.
    injection Hex as <- <-. constructor; ocount; eval_states; close_owner.
  - rewrite not_destroying in Vdes by (right; lia).
    destruct (timer c) eqn:Htm, publish; injection Hex as <- <-; constructor; ocount; rewrite ?Htm;
      eval_states; close_owner.
  - rewrite not_destroying in Vdes by (right; lia).
    injection Hex as <- <-. destruct publish; constructor; ocount; eval_states; close_owner.
  - injection Hex as <- <-. constructor; ocount; close_owner.
Qed.

(** ** Calls *)

Definition owner_le (o o' : is_rdma_operation_owner) : Prop :=
  (terminal o <> IS_RDMA_OPERATION_TERMINAL_NONE -> terminal o' = terminal o) /\
  (completion_seen o = true -> completion_seen o' = true) /\
  (deadline_seen o = true -> deadline_seen o' = true) /\
  (post_state o = IS_OWNER_POST_FAILED -> post_state o' = IS_OWNER_POST_FAILED).

Lemma ocall_stable o o' a :
  owner_le o o' -> (completion_seen o = true -> terminal o <> IS_RDMA_OPERATION_TERMINAL_NONE) ->
  ocall_ok o a -> ocall_ok o' a.
Proof.
  intros (Ht & Hc & Hd & Hp) Hn. destruct a as [s l| |t s| | |ev]; cbn; auto.
  - intros [H1 ->]. split; [auto|]. by rewrite Ht by auto.
  - intros [-> H]. rewrite Ht; [|by intros E; rewrite E in H]. split; [done|].
    destruct (terminal o); intuition.
Qed.

Lemma oinstr_stable o o' i :
  owner_le o o' -> (completion_seen o = true -> terminal o <> IS_RDMA_OPERATION_TERMINAL_NONE) ->
  oinstr_ok o i -> oinstr_ok o' i.
Proof.
  intros Hle Hn. destruct i; cbn; auto.
  - intros (H1 & -> & H2). destruct Hle as (Ht & Hc & _ & _). rewrite Ht by auto. auto.
  - intros (H1 & -> & H2). destruct Hle as (Ht & Hc & _ & _). rewrite Ht by auto. auto.
  - by apply ocall_stable.
Qed.

(** The flag that says whether a call of the class has been decided. *)
Definition decided_publish (o : is_rdma_operation_owner) : nat :=
  b2n (negb (bool_decide (terminal o = IS_RDMA_OPERATION_TERMINAL_NONE))).
Definition decided_abort (o : is_rdma_operation_owner) : nat :=
  b2n (bool_decide (post_state o = IS_OWNER_POST_FAILED)).

Lemma owner_calls_step c T1 i k T2 o' l tm :
  owner_inv c -> owner_calls c -> oc_threads c = T1 ++ (i :: k) :: T2 ->
  owner_le (oc_owner c) o' -> oprotected l -> Forall (oinstr_ok o') l ->
  (sum_list_with (ahead oc_publish) l + decided_publish (oc_owner c)
    = ahead oc_publish i + decided_publish o')%nat ->
  (sum_list_with (ahead oc_retire) l + b2n (completion_seen (oc_owner c))
    = ahead oc_retire i + b2n (completion_seen o'))%nat ->
  (sum_list_with (ahead oc_release_io) l + b2n (completion_seen (oc_owner c))
    = ahead oc_release_io i + b2n (completion_seen o'))%nat ->
  (sum_list_with (ahead oc_abort) l + decided_abort (oc_owner c)
    = ahead oc_abort i + decided_abort o')%nat ->
  (sum_list_with (ahead oc_destroy) l + b2n (destroying (oc_owner c))
    = ahead oc_destroy i + b2n (destroying o'))%nat ->
  sum_list_with (ahead oc_invariant) l = ahead oc_invariant i ->
  owner_calls (c <| oc_owner := o' |> <| timer := tm |> <| oc_threads := T1 ++ (l ++ k) :: T2 |>).
Proof.
  intros Hv [K1 K2 K3 K4 K5 K6 Kp Ki Kc] Hth Hle Hp Hi E1 E2 E3 E4 E5 E6.
  assert (Hn : completion_seen (oc_owner c) = true ->
    terminal (oc_owner c) <> IS_RDMA_OPERATION_TERMINAL_NONE).
  { intros Hc Ht. pose proof (v_terminal _ Hv) as E. rewrite Hc, Ht in E. done. }
  unfold oemitted, decided_publish, decided_abort in *. rewrite Hth in *.
  rewrite !ototal_split in *. cbn [sum_list_with] in *.
  rewrite !Forall_app, !Forall_cons_iff in *. destruct_and!. cbn [oprotected] in *. destruct_and!.
  assert (Hmono : forall T, Forall (Forall (oinstr_ok (oc_owner c))) T -> Forall (Forall (oinstr_ok o')) T).
  { intros T HT. eapply Forall_impl; [|exact HT]. intros l' Hl'. eapply Forall_impl; [|exact Hl'].
    intros i' Hi'. by apply (oinstr_stable (oc_owner c)). }
  constructor; unfold oemitted; ocount; rewrite ?Forall_app, ?Forall_cons_iff, ?Forall_app; try lia;
    split_and?; auto.
  - by apply oprotected_app.
  - eapply Forall_impl; [|eassumption]. intros i' Hi'. by apply (oinstr_stable (oc_owner c)).
  - eapply Forall_impl; [|exact Kc]. intros a Ha. by apply (ocall_stable (oc_owner c)).
Qed.

(** Use what is known about the flags of the owner. *)
Ltac rewrite_flags :=
  repeat match goal with
  | H : ?f (oc_owner ?c) = _ |- context [?f (oc_owner ?c)] => rewrite H
  end.

Ltac solve_calls :=
  unfold owner_complete;
  match goal with
  | |- owner_le _ _ => split_and!; ocbn; rewrite_flags; intros; try done; try congruence
  | |- oprotected _ => repeat split; intros; cbn; lia
  | |- Forall _ _ => repeat constructor; ocbn; rewrite_flags; try done; try congruence
  | _ => unfold decided_publish, decided_abort; ocbn; rewrite_flags; eval_states; try done; try lia
  end.

Lemma owner_calls_events c T1 i k T2 c' after :
  owner_inv c -> owner_calls c -> oc_threads c = T1 ++ (i :: k) :: T2 ->
  (0 < tk_post i + tk_completion i + tk_fire i)%nat -> owner_exec c i = (c', after) ->
  owner_calls (c' <| oc_threads := T1 ++ (after ++ k) :: T2 |>).
Proof.
  intros Hv Hk Hth Hw Hex. destruct i; cbn in Hw; try lia; clear Hw; cbn [owner_exec] in Hex.
  - destruct (head_post _ _ _ _ _ Hv Hk Hth) as (Ha & Hdes & Hp & _); [by left|].
    rewrite post_succeeded_char in Hex by done. injection Hex as <- <-.
    destruct (completion_seen (oc_owner c)) eqn:Hc;
      apply (owner_calls_step c T1 o_post_succeeded k T2 _ _ (timer c)); try done; solve_calls.
  - destruct (head_post _ _ _ _ _ Hv Hk Hth) as (Ha & Hdes & Hp & Hc); [by right|].
    specialize (Hc eq_refl). rewrite post_failed_char in Hex by done. injection Hex as <- <-.
    apply (owner_calls_step c T1 o_post_failed k T2 _ _ (timer c)); try done; solve_calls.
  - destruct (head_deadline _ _ _ _ Hv Hk Hth) as (Ha & Hdes & Hp & Hd & Hs & Ht).
    rewrite provider_deadline_char in Hex by done. injection Hex as <- <-.
    destruct (completion_seen (oc_owner c)) eqn:Hc.
    + apply (owner_calls_step c T1 o_provider_deadline k T2 _ _ (timer c)); try done; solve_calls.
    + apply bool_decide_eq_true_1 in Ht.
      apply (owner_calls_step c T1 o_provider_deadline k T2 _ _ (timer c)); try done; solve_calls.
  - destruct (head_completed _ _ _ _ _ Hv Hk Hth) as (Ha & Hdes & Hc & Hp & Ht & Hl' & Hna).
    rewrite owner_completed_char in Hex by (done || apply Hv). injection Hex as <- <-.
    destruct (deadline_seen (oc_owner c)) eqn:Hd.
    + specialize (Hl' eq_refl).
      destruct (bool_decide (deadline_state (oc_owner c) = IS_OWNER_DEADLINE_ARMED));
        apply (owner_calls_step c T1 (o_rdma_completed status) k T2 _ _ (timer c)); try done; solve_calls.
    + apply bool_decide_eq_true_1 in Ht.
      destruct (bool_decide (deadline_state (oc_owner c) = IS_OWNER_DEADLINE_ARMED));
        apply (owner_calls_step c T1 (o_rdma_completed status) k T2 _ _ (timer c)); try done; solve_calls.
Qed.

Lemma owner_calls_exec c T1 i k T2 c' after :
  owner_inv c -> owner_calls c -> oc_threads c = T1 ++ (i :: k) :: T2 ->
  owner_exec c i = (c', after) ->
  owner_calls (c' <| oc_threads := T1 ++ (after ++ k) :: T2 |>).
Proof.
  intros Hv Hk Hth Hex.
  pose proof (v_instrs _ Hk) as Hi. rewrite Hth in Hi.
  apply Forall_app in Hi as [_ [[Hi _]%Forall_cons_iff _]%Forall_cons_iff].
  destruct (decide (0 < tk_post i + tk_completion i + tk_fire i)%nat) as [Hw|Hw];
    [by eapply owner_calls_events|].
  destruct i; cbn in Hw; try lia; clear Hw; cbn [owner_exec] in Hex.
  - injection Hex as <- <-.
    apply (owner_calls_step c T1 o_arm_deadline k T2 (oc_owner c) _ true); try done; solve_calls.
  - unfold owner_after_arm in Hex.
    destruct (deadline_seen (oc_owner c)); [|destruct (completion_seen (oc_owner c))];
      injection Hex as <- <-;
      apply (owner_calls_step c T1 o_after_arm k T2 _ _ (timer c)); try done; solve_calls.
  - destruct (timer c); injection Hex as <- <-.
    + apply (owner_calls_step c T1 o_cancel_submit k T2 (oc_owner c) _ false); try done; solve_calls.
    + apply (owner_calls_step c T1 o_cancel_submit k T2 (oc_owner c) _ (timer c)); try done; solve_calls.
  - unfold owner_cancelled_submit in Hex.
    destruct (negb (deadline_seen (oc_owner c))); injection Hex as <- <-;
      apply (owner_calls_step c T1 o_cancelled_submit k T2 _ _ (timer c)); try done; solve_calls.
  - destruct Hi as (H1 & -> & H3). destruct (timer c) eqn:Htm; injection Hex as <- <-.
    + eapply (owner_calls_step c T1 _ k T2 (oc_owner c) _ false); [exact Hv|exact Hk|exact Hth|..];
        try done; solve_calls.
    + eapply (owner_calls_step c T1 _ k T2 (oc_owner c) _ (timer c)); [exact Hv|exact Hk|exact Hth|..];
        try done; destruct publish; solve_calls; by rewrite H3.
  - destruct Hi as (H1 & -> & H3). injection Hex as <- <-.
    eapply (owner_calls_step c T1 _ k T2 _ _ (timer c)); [exact Hv|exact Hk|exact Hth|..];
      try done; destruct publish; solve_calls; by rewrite H3.
  - rewrite owner_finish_char in Hex; [|open_owner Hv Hk Hth; lia|].
    2: { open_owner Hv Hk Hth. rewrite not_destroying in Vdes by (right; lia). done. }
    assert (Hdes : destroying (oc_owner c) = false).
    { open_owner Hv Hk Hth. rewrite not_destroying in Vdes by (right; lia). done. }
    injection Hex as <- <-. destruct (_ && negb (deadline_claim (oc_owner c) && _));
      eapply (owner_calls_step c T1 _ k T2 _ _ (timer c)); [exact Hv|exact Hk|exact Hth|..]; try done; solve_calls.
  - injection Hex as <- <-. destruct Hk as [K1 K2 K3 K4 K5 K6 Kp Ki Kc].
    unfold oemitted in *. rewrite Hth in *. rewrite !ototal_split in *. cbn [sum_list_with ahead] in *.
    rewrite !Forall_app, !Forall_cons_iff in *. destruct_and!. cbn [oprotected] in *. destruct_and!.
    constructor; unfold oemitted; ocount; rewrite ?Forall_app, ?Forall_cons_iff; try lia;
      split_and?; auto.
Qed.
