(* ===== verification/OperationOwnerSpec.v ===== *)
(** * What an RDMA operation owner guarantees *)
From S2P Require Import Prelude OperationOwner OperationOwnerInv.

(** ** The invariant holds everywhere *)

Lemma exec_inv c T1 i k T2 c' after :
  owner_inv c -> owner_calls c -> oc_threads c = T1 ++ (i :: k) :: T2 ->
  owner_exec c i = (c', after) ->
  owner_inv (c' <| oc_threads := T1 ++ (after ++ k) :: T2 |>).
Proof.
  intros Hv Hk Hth Hex. destruct i; try (by eapply inv_timer); cbn [owner_exec] in Hex.
  - pose proof (inv_post_succeeded _ _ _ _ Hv Hk Hth) as H.
    destruct (is_rdma_operation_owner_post_succeeded _). by injection Hex as <- <-.
  - pose proof (inv_post_failed _ _ _ _ Hv Hk Hth) as H.
    destruct (is_rdma_operation_owner_post_failed _). by injection Hex as <- <-.
  - pose proof (inv_provider_deadline _ _ _ _ Hv Hk Hth) as H.
    destruct (is_rdma_operation_owner_provider_deadline _). by injection Hex as <- <-.
  - pose proof (inv_rdma_completed _ _ _ _ _ Hv Hk Hth) as H.
    destruct (is_rdma_operation_owner_rdma_completed _ _). by injection Hex as <- <-.
  - pose proof (inv_finish_event _ _ _ _ _ _ _ Hv Hk Hth) as H.
    destruct (is_owner_finish_event _ _ _ _). by injection Hex as <- <-.
Qed.

(** A callback of the environment starts a thread. *)
Lemma step_inv c c' :
  owner_step c c' -> owner_inv c -> owner_calls c -> owner_inv c' /\ owner_calls c'.
Proof.
  intros Hs Hv Hk.
  destruct Hs as [c T1 i k T2 c' after Hth Hex|c Ho|c Ho|c n s Ho|c Ho].
  - split; [by eapply exec_inv|by eapply owner_calls_exec].
  - destruct Hv, Hk; unfold oemitted in *; rewrite Ho in *; cbn [b2n] in *.
    split; constructor; unfold oemitted; ocount; try done; try lia.
    all: repeat constructor; intros; cbn; try lia; auto.
  - destruct Hv, Hk; unfold oemitted in *; rewrite Ho in *; cbn [b2n] in *.
    split; constructor; unfold oemitted; ocount; try done; try lia.
    all: repeat constructor; intros; cbn; try lia; auto.
  - destruct Hv, Hk; unfold oemitted in *; rewrite Ho in *.
    split; constructor; unfold oemitted; ocount; try done; try lia.
    all: repeat constructor; intros; cbn; try lia; auto.
  - destruct Hv, Hk; unfold oemitted in *; rewrite Ho in *; cbn [b2n] in *.
    split; constructor; unfold oemitted; ocount; try done; try lia.
    all: repeat constructor; intros; cbn; try lia; auto.
Qed.

Lemma owner_reachable_inv n c : owner_reachable n c -> owner_inv c /\ owner_calls c.
Proof.
  induction 1 as [o Ho|n c c' _ [Hv Hk] Hs]; [|by eapply step_inv].
  injection Ho as <-. split; constructor; cbn; done || lia || constructor.
Qed.

(** ** Safety *)

Definition otraced (f : owner_call -> nat) (c : owner_config) : nat :=
  sum_list_with f (oc_trace c).

Lemma otraced_le f c n : oemitted f c = n -> (otraced f c <= n)%nat.
Proof. unfold oemitted, otraced. lia. Qed.

(** C6.  For every outcome of the post and every interleaving of the poster, the
    completion and the deadline: the terminal result is published at most once,
    and it is the result the owner recorded, a deadline always as a timeout;
    the posted operation is retired at most once, flagged late exactly when the
    deadline had won; an operation that was not posted is aborted at most once
    and never published; the owner is destroyed at most once; and none of the
    lifecycle invariants the code checks is reported. *)
Theorem owner_safe n c :
  owner_reachable n c ->
  (otraced oc_publish c <= 1)%nat /\ (otraced oc_retire c <= 1)%nat /\
  (otraced oc_release_io c <= 1)%nat /\ (otraced oc_abort c <= 1)%nat /\
  (otraced oc_destroy c <= 1)%nat /\ otraced oc_invariant c = 0%nat /\
  (0 < otraced oc_abort c -> otraced oc_publish c = 0)%nat /\
  (forall t s, In (owner_publish_terminal t s) (oc_trace c) ->
     t = terminal (oc_owner c) /\
     (t = IS_RDMA_OPERATION_TERMINAL_DEADLINE -> s = - ETIMEDOUT)) /\
  (forall s late, In (owner_retire_posted s late) (oc_trace c) ->
     late = bool_decide (terminal (oc_owner c) = IS_RDMA_OPERATION_TERMINAL_DEADLINE)).
Proof.
  intros Hr. destruct (owner_reachable_inv n c Hr) as [Hv [K1 K2 K3 K4 K5 K6 _ _ Kc]].
  apply otraced_le in K1, K2, K3, K4, K5, K6. rewrite Forall_forall in Kc.
  assert (Hna : (0 < otraced oc_abort c -> otraced oc_publish c = 0)%nat).
  { intros Ha. cases_state (post_state (oc_owner c)); try lia.
    pose proof (v_tcompletion _ Hv) as Vtc. pose proof (v_tdeadline _ Hv) as Vtd.
    pose proof (v_terminal _ Hv) as Vt. pose proof (v_failed _ Hv Heqi) as Vf.
    rewrite Heqi in Vtc. rewrite Vf in Vtd. eval_states.
    destruct (completion_seen (oc_owner c)), (deadline_seen (oc_owner c)); cbn in *; try lia.
    rewrite Vt in K1. cbn in K1. lia. }
  repeat match goal with K : (_ <= b2n ?b)%nat |- _ =>
    pose proof (Nat.le_trans _ _ _ K (b2n_le b)); clear K end.
  split_and!; try done; try lia.
  - intros t s Hin. specialize (Kc _ Hin) as [-> Hs]. split; [done|].
    intros Ht. rewrite Ht in Hs. by destruct Hs.
  - intros s late Hin. by specialize (Kc _ Hin) as [_ Hs].
Qed.

Lemma oprotected_weight k :
  oprotected k -> sum_list_with ow_live k = 0%nat -> Forall (fun i => otouches i = false) k.
Proof.
  induction k as [|i k IH]; [constructor|]. intros [Hi Hk] Hw. constructor.
  - destruct (otouches i); [|done]. specialize (Hi eq_refl). lia.
  - apply IH; [done|]. cbn in Hw. lia.
Qed.

(** No use after destruction: once the owner is destroyed no thread will
    read or write it, the completion is not outstanding and the timer is not
    armed. *)
Theorem no_use_after_destroy n c :
  owner_reachable n c -> In owner_destroy (oc_trace c) ->
  Forall (Forall (fun i => otouches i = false)) (oc_threads c) /\
  post_open c = false /\ owed_completion c = 0%nat /\ timer c = false.
Proof.
  intros Hr Hin. destruct (owner_reachable_inv n c Hr) as [Hv Hk].
  assert (Hd : destroying (oc_owner c) = true).
  { pose proof (otraced_le _ _ _ (v_destroy _ Hk)) as Hle. unfold otraced in Hle.
    apply in_split in Hin as (l1 & l2 & Heq). rewrite Heq, sum_list_with_app in Hle. cbn in Hle.
    destruct (destroying (oc_owner c)); [done|]. cbn in Hle. lia. }
  rewrite (v_destroying _ Hv), !andb_true_iff, !negb_true_iff in Hd.
  destruct Hd as (((Ha & Hs) & Hc) & Hdl).
  pose proof (v_submit _ Hv) as Vs. pose proof (v_completion _ Hv) as Vc.
  pose proof (v_deadline _ Hv) as Vd. pose proof (v_active _ Hv) as Va.
  rewrite Hs in Vs. rewrite Hc in Vc. rewrite Hdl in Vd. cbn [b2n] in *.
  split_and!; try (apply b2n_0; lia); try lia.
  assert (Hz : ototal ow_live (oc_threads c) = 0%nat).
  { unfold ow_live. rewrite !ototal_add. lia. }
  pose proof (v_protected _ Hk) as Hp. revert Hz Hp. generalize (oc_threads c).
  induction l as [|k ts IH]; [constructor|]. intros Hz [Hk' Hts]%Forall_cons_iff.
  rewrite ototal_cons in Hz. constructor; [|apply IH; [lia|done]].
  apply oprotected_weight; [done|lia].
Qed.

(** ** Termination *)

(** An upper bound on the steps an instruction can still cause; an armed timer
    can still fire. *)
Definition ocost (i : owner_instr) : nat :=
  match i with
  | o_post_succeeded => 12
  | o_post_failed => 4
  | o_provider_deadline => 4
  | o_rdma_completed _ => 8
  | o_arm_deadline => 11
  | o_after_arm => 5
  | o_cancel_submit => 4
  | o_cancelled_submit => 3
  | o_cancel_complete _ _ _ => 7
  | o_cancelled_complete _ _ _ => 6
  | o_finish_event _ _ _ => 2
  | o_call _ => 1
  end.

Definition owner_measure (c : owner_config) : nat :=
  (ototal ocost (oc_threads c) + 22 * b2n (post_open c) + 9 * owed_completion c +
   5 * b2n (timer c))%nat.

Lemma exec_cost c i c' after :
  owner_exec c i = (c', after) ->
  (sum_list_with ocost after + 5 * b2n (timer c') < ocost i + 5 * b2n (timer c))%nat /\
  post_open c' = post_open c /\ owed_completion c' = owed_completion c.
Proof.
  destruct i; cbn -[Nat.mul]; unfold is_rdma_operation_owner_post_succeeded,
    is_rdma_operation_owner_post_failed, is_rdma_operation_owner_provider_deadline,
    is_rdma_operation_owner_rdma_completed, owner_after_arm, owner_cancelled_submit,
    is_owner_finish_event, is_owner_note_invariant, owner_report, owner_complete;
    intros E; repeat (case_match; simplify_eq); simplify_eq; cbn -[Nat.mul]; split_and!; try done; try lia.
  all: repeat match goal with |- context [b2n (timer ?x)] => destruct (timer x) end; cbn; lia.
Qed.

Lemma owner_step_measure c c' : owner_step c c' -> (owner_measure c' < owner_measure c)%nat.
Proof.
  intros [c1 T1 i k T2 c2 after Hth Hex|c1 Ho|c1 Ho|c1 n s Ho|c1 Ho];
    unfold owner_measure; cbn -[ototal Nat.mul]; rewrite ?ototal_cons, ?Ho; cbn -[ototal Nat.mul];
    try lia.
  apply exec_cost in Hex as (He & -> & ->). rewrite Hth, !ototal_split, sum_list_with_app.
  cbn [sum_list_with]. lia.
Qed.

Definition owner_quiescent (c : owner_config) : Prop :=
  Forall (fun k : list owner_instr => k = []) (oc_threads c) /\
  post_open c = false /\ owed_completion c = 0%nat /\ timer c = false.

Lemma owner_stuck_quiescent c : (forall c', ~ owner_step c c') -> owner_quiescent c.
Proof.
  intros Hs. split_and!.
  - destruct (decide (Forall (fun k : list owner_instr => k = []) (oc_threads c))) as [|Hn]; [done|].
    apply not_Forall_Exists, Exists_exists in Hn as (k & Hin & Hk); [|tc_solve].
    apply in_split in Hin as (T1 & T2 & Hth). destruct k as [|i k]; [by destruct (Hk eq_refl)|].
    destruct (owner_exec c i) as [c' after] eqn:E. destruct (Hs _ (owner_step_thread _ _ _ _ _ _ _ Hth E)).
  - destruct (post_open c) eqn:E; [|done]. destruct (Hs _ (owner_step_posted _ E)).
  - destruct (owed_completion c) eqn:E; [done|]. destruct (Hs _ (owner_step_completion _ _ 0 E)).
  - destruct (timer c) eqn:E; [|done]. destruct (Hs _ (owner_step_fire _ E)).
Qed.

Lemma owner_quiescent_no_step c c' : owner_quiescent c -> ~ owner_step c c'.
Proof.
  intros (Hf & Hp & Hc & Ht) Hs.
  inversion Hs as [c1 T1 i k T2 c2 l Hth Hex|c1 Ho|c1 Ho|c1 n s Ho|c1 Ho]; try congruence.
  rewrite Hth in Hf. apply Forall_app in Hf as [_ [? _]%Forall_cons_iff]. done.
Qed.

Lemma owner_reachable_measure n c : owner_reachable n c -> (n + owner_measure c <= 22)%nat.
Proof.
  induction 1 as [o Ho|n c c' _ IH Hs]; [by injection Ho as <-|].
  apply owner_step_measure in Hs. lia.
Qed.

Lemma ototal_nil w ts : Forall (fun k : list owner_instr => k = []) ts -> ototal w ts = 0%nat.
Proof. induction 1 as [|k ts -> _ IH]; [done|]. by rewrite ototal_cons, IH. Qed.

(** C7.  Every operation ends, and completely: an owner takes at most 22 steps
    whatever the outcome of the post, the order of the threads and the timer;
    where it can go no further, the owner was destroyed exactly once, and
    either the post succeeded, its result was published exactly once and the
    posted operation retired and its transferred I/O released exactly once, or
    the post failed and the operation was aborted exactly once. *)
Theorem owner_terminates n c :
  owner_reachable n c ->
  (n <= 22)%nat /\
  ((forall c', ~ owner_step c c') ->
   let failed := bool_decide (post_state (oc_owner c) = IS_OWNER_POST_FAILED) in
   otraced oc_destroy c = 1%nat /\ otraced oc_publish c = b2n (negb failed) /\
   otraced oc_retire c = b2n (negb failed) /\ otraced oc_release_io c = b2n (negb failed) /\
   otraced oc_abort c = b2n failed).
Proof.
  intros Hr. pose proof (owner_reachable_measure n c Hr). split; [lia|]. intros Hst failed.
  apply owner_stuck_quiescent in Hst as (Hf & Hp & Hc & Ht).
  destruct (owner_reachable_inv n c Hr) as [Hv [K1 K2 K3 K4 K5 _ _ _ _]].
  unfold oemitted in *. fold (otraced oc_publish c) (otraced oc_retire c) (otraced oc_release_io c)
    (otraced oc_abort c) (otraced oc_destroy c) in *. rewrite !ototal_nil in * by done.
  pose proof (v_submit _ Hv) as V1. pose proof (v_completion _ Hv) as V2.
  pose proof (v_deadline _ Hv) as V3. pose proof (v_active _ Hv) as V4.
  pose proof (v_tcompletion _ Hv) as V5. pose proof (v_tdeadline _ Hv) as V6.
  pose proof (v_failed _ Hv) as V7. pose proof (v_terminal _ Hv) as V8.
  rewrite (v_destroying _ Hv), V4 in K5. rewrite Hp, Ht, ?Hc, !ototal_nil in * by done.
  apply b2n_0 in V1, V2, V3. rewrite V1, V2, V3 in K5. cbn in K5.
  fold failed in V5. rewrite V8 in K1. split; [exact K5|]. cbn [Nat.add] in K1, K2, K3, K4.
  rewrite K1, K2, K3, K4. fold failed.
  destruct (decide (post_state (oc_owner c) = IS_OWNER_POST_FAILED)) as [E|E].
  - assert (failed = true) as Ef by (by apply bool_decide_eq_true). rewrite Ef in *.
    rewrite V7 in V6 by done. eval_states.
    destruct (completion_seen (oc_owner c)), (deadline_seen (oc_owner c)); cbn in *; lia.
  - assert (failed = false) as Ef by (by apply bool_decide_eq_false). rewrite Ef in *.
    destruct (completion_seen (oc_owner c)), (deadline_seen (oc_owner c)); cbn in *; lia.
Qed.

(** ** Running concrete schedules *)

Inductive owner_choice :=
| orun_thread (n : nat)
| orun_posted
| orun_not_posted
| orun_completion (status : Z)
| orun_fire.

Definition orun_choice (c : owner_config) (ch : owner_choice) : option owner_config :=
  match ch with
  | orun_thread n =>
      match oc_threads c !! n with
      | Some (i :: k) =>
          let '(c', after) := owner_exec c i in
          Some (c' <| oc_threads := take n (oc_threads c) ++ (after ++ k) :: drop (S n) (oc_threads c) |>)
      | _ => None
      end
  | orun_posted =>
      if post_open c then
        Some (c <| post_open := false |> <| owed_completion := S (owed_completion c) |>
                <| oc_threads := [o_post_succeeded] :: oc_threads c |>)
      else None
  | orun_not_posted =>
      if post_open c then
        Some (c <| post_open := false |> <| oc_threads := [o_post_failed] :: oc_threads c |>)
      else None
  | orun_completion status =>
      match owed_completion c with
      | S n => Some (c <| owed_completion := n |>
                       <| oc_threads := [o_rdma_completed status] :: oc_threads c |>)
      | O => None
      end
  | orun_fire =>
      if timer c then
        Some (c <| timer := false |> <| oc_threads := [o_provider_deadline] :: oc_threads c |>)
      else None
  end.

Fixpoint orun (c : owner_config) (chs : list owner_choice) : option owner_config :=
  match chs with
  | [] => Some c
  | ch :: chs => match orun_choice c ch with Some c' => orun c' chs | None => None end
  end.

Lemma orun_choice_step c ch c' : orun_choice c ch = Some c' -> owner_step c c'.
Proof.
  destruct ch as [n| | |status|]; cbn.
  - destruct (oc_threads c !! n) as [[|i k]|] eqn:E; try done.
    destruct (owner_exec c i) as [c1 after] eqn:Ex. intros [= <-].
    eapply owner_step_thread; [|done]. symmetry. by apply take_drop_middle.
  - destruct (post_open c) eqn:E; [|done]. intros [= <-]. by apply owner_step_posted.
  - destruct (post_open c) eqn:E; [|done]. intros [= <-]. by apply owner_step_not_posted.
  - destruct (owed_completion c) eqn:E; [done|]. intros [= <-]. by apply owner_step_completion.
  - destruct (timer c) eqn:E; [|done]. intros [= <-]. by apply owner_step_fire.
Qed.

Lemma orun_reachable n c chs c' :
  owner_reachable n c -> orun c chs = Some c' -> owner_reachable (length chs + n) c'.
Proof.
  revert n c. induction chs as [|ch chs IH]; intros n c Hr; cbn; [by intros [= <-]|].
  destruct (orun_choice c ch) as [c1|] eqn:E; [|done]. intros Ho.
  replace (S (length chs + n)) with (length chs + S n)%nat by lia.
  apply (IH _ c1); [|done]. eapply owner_reachable_step; [done|by apply orun_choice_step in E].
Qed.

(** A posted operation whose deadline fires before its completion arrives. *)
Definition owner_example_start : owner_config :=
  owner_started {| owner_active_events := 0; submit_claim := true; completion_claim := true;
    deadline_claim := true; post_state := IS_OWNER_POST_PENDING;
    deadline_state := IS_OWNER_DEADLINE_UNARMED; completion_seen := false;
    deadline_seen := false; owner_invariant_reported := false; destroying := false;
    terminal := IS_RDMA_OPERATION_TERMINAL_NONE |}.
Definition owner_example_schedule : list owner_choice :=
  [orun_posted] ++ replicate 3 (orun_thread 0) ++ [orun_fire] ++ replicate 2 (orun_thread 0) ++
  [orun_completion (- EIO)] ++ replicate 4 (orun_thread 0) ++ [orun_thread 2; orun_thread 1; orun_thread 1].
Definition owner_example_end : owner_config :=
  match orun owner_example_start owner_example_schedule with
  | Some c => c | None => owner_example_start end.

Lemma owner_example_reachable : owner_reachable 15 owner_example_end.
Proof.
  apply (orun_reachable 0 owner_example_start owner_example_schedule);
    [by apply owner_reachable_start|vm_compute; reflexivity].
Defined.

Lemma owner_safe_witness :
  otraced oc_invariant owner_example_end = 0%nat /\
  (true = bool_decide (terminal (oc_owner owner_example_end) = IS_RDMA_OPERATION_TERMINAL_DEADLINE)).
Proof.
  destruct (owner_safe 15 owner_example_end owner_example_reachable)
    as (_ & _ & _ & _ & _ & Hi & _ & _ & Hl).
  split; [exact Hi|]. apply (Hl (- EIO)). vm_compute. auto.
Defined.

Lemma no_use_after_destroy_witness : timer owner_example_end = false.
Proof.
  refine (proj2 (proj2 (proj2 (no_use_after_destroy 15 owner_example_end owner_example_reachable _)))).
  vm_compute. auto 10.
Defined.

Lemma owner_terminates_witness :
  otraced oc_destroy owner_example_end = 1%nat /\ otraced oc_publish owner_example_end = 1%nat.
Proof.
  destruct (owner_terminates 15 owner_example_end owner_example_reachable) as [_ Hend].
  assert (Hs : forall c', ~ owner_step owner_example_end c').
  { intros c'. apply owner_quiescent_no_step. vm_compute. repeat constructor. }
  destruct (Hend Hs) as (H1 & H2 & _). exact (conj H1 H2).
Defined.
