(* ===== verification/MemoryManager.v ===== *)
(** * The daemon's memory manager: infiniswap_daemon/infiniswap_memory_manager.c

    Every entry point runs under the manager's mutex, so an operation is a
    function of the manager and of the world its adapters act on.  A pointer is
    a [Z], 0 being NULL; a pointer to a chunk or a connection is its index. *)
From S2P Require Import Prelude.

(** ** Data *)

Definition IS_MEMORY_CHUNK_BYTES : Z := 1073741824.
Definition IS_MEMORY_MAX_RUNTIME_CHUNKS : Z := 128.
Definition IS_MEMORY_CONSUMER_ID_MAX : Z := 63.

Inductive is_memory_result :=
| IS_MEMORY_OK
| IS_MEMORY_INVALID_ARGUMENT
| IS_MEMORY_CONFIG_INVALID
| IS_MEMORY_ACCOUNTING_FAILED
| IS_MEMORY_ALLOCATION_FAILED
| IS_MEMORY_TOUCH_FAILED
| IS_MEMORY_REGISTRATION_FAILED
| IS_MEMORY_CLEANUP_FAILED
| IS_MEMORY_CONNECTION_LIMIT
| IS_MEMORY_QUOTA_EXCEEDED
| IS_MEMORY_POOL_EXHAUSTED
| IS_MEMORY_HOST_RESERVE
| IS_MEMORY_NOT_CONNECTED
| IS_MEMORY_NOT_FOUND
| IS_MEMORY_COMMITTED_PROTECTED.

#[export] Instance is_memory_result_eq_dec : EqDecision is_memory_result.
Proof. solve_decision. Defined.

Definition IS_MEMORY_POOL_OPPORTUNISTIC : Z := 1.
Definition IS_MEMORY_POOL_COMMITTED : Z := 2.

Definition IS_MEMORY_RELEASE_CONSUMER : Z := 1.
Definition IS_MEMORY_RELEASE_PRESSURE : Z := 2.
Definition IS_MEMORY_RELEASE_DISCONNECT : Z := 3.
Definition IS_MEMORY_RELEASE_SHUTDOWN : Z := 4.

Inductive is_memory_rejection_reason :=
| IS_MEMORY_REJECTION_NONE
| IS_MEMORY_REJECTION_INVALID_REQUEST
| IS_MEMORY_REJECTION_CONNECTION_LIMIT
| IS_MEMORY_REJECTION_CONSUMER_QUOTA
| IS_MEMORY_REJECTION_POOL_LIMIT
| IS_MEMORY_REJECTION_HOST_RESERVE
| IS_MEMORY_REJECTION_ACCOUNTING_FAILED
| IS_MEMORY_REJECTION_ALLOCATION_FAILED
| IS_MEMORY_REJECTION_TOUCH_FAILED
| IS_MEMORY_REJECTION_REGISTRATION_FAILED
| IS_MEMORY_REJECTION_CLEANUP_FAILED
| IS_MEMORY_REJECTION_COMMITTED_PROTECTED.

#[export] Instance is_memory_rejection_reason_eq_dec : EqDecision is_memory_rejection_reason.
Proof. solve_decision. Defined.

Record is_memory_manager_config := {
  host_reserve_gib : Z;
  max_opportunistic_gib : Z;
  max_committed_gib : Z
}.

(** A registration adapter is named by a non-zero [Z]; the adapter a chunk
    keeps is 0 when the structure is zeroed. *)
Record is_memory_chunk := {
  address : Z;
  registration : Z;
  owner : Z;
  registration_adapter : Z;
  pool : Z;
  quarantined : bool
}.

Definition empty_chunk : is_memory_chunk :=
  {| address := 0; registration := 0; owner := 0; registration_adapter := 0; pool := 0;
     quarantined := false |}.

Record is_memory_connection := {
  consumer_id : list Z;
  conn_owner : Z;
  max_connections : Z;
  max_opportunistic_chunks : Z;
  max_committed_chunks : Z;
  conn_assigned_opportunistic_chunks : Z;
  conn_assigned_committed_chunks : Z
}.

(** [connections] holds the [connection_count] entries in use. *)
Record is_memory_manager := {
  config : is_memory_manager_config;
  chunks : list is_memory_chunk;
  connections : list is_memory_connection;
  connection_capacity : Z;
  allocated_opportunistic_chunks : Z;
  assigned_opportunistic_chunks : Z;
  allocated_committed_chunks : Z;
  assigned_committed_chunks : Z;
  quarantined_chunks : Z;
  admissions : Z;
  rejections : Z;
  pressure_reclaims : Z;
  last_rejection : is_memory_rejection_reason;
  healthy : bool
}.

#[export] Instance is_memory_chunk_eta : Eta is_memory_chunk := fun c =>
  {| address := address c; registration := registration c; owner := owner c;
     registration_adapter := registration_adapter c; pool := pool c;
     quarantined := quarantined c |}.
#[export] Instance is_memory_connection_eta : Eta is_memory_connection := fun c =>
  {| consumer_id := consumer_id c; conn_owner := conn_owner c;
     max_connections := max_connections c;
     max_opportunistic_chunks := max_opportunistic_chunks c;
     max_committed_chunks := max_committed_chunks c;
     conn_assigned_opportunistic_chunks := conn_assigned_opportunistic_chunks c;
     conn_assigned_committed_chunks := conn_assigned_committed_chunks c |}.
#[export] Instance is_memory_manager_eta : Eta is_memory_manager := fun m =>
  {| config := config m; chunks := chunks m; connections := connections m;
     connection_capacity := connection_capacity m;
     allocated_opportunistic_chunks := allocated_opportunistic_chunks m;
     assigned_opportunistic_chunks := assigned_opportunistic_chunks m;
     allocated_committed_chunks := allocated_committed_chunks m;
     assigned_committed_chunks := assigned_committed_chunks m;
     quarantined_chunks := quarantined_chunks m; admissions := admissions m;
     rejections := rejections m; pressure_reclaims := pressure_reclaims m;
     last_rejection := last_rejection m; healthy := healthy m |}.

Record pending_chunk := {
  p_index : nat;
  p_address : Z;
  p_registration : Z;
  newly_allocated : bool;
  converted_from_opportunistic : bool
}.

#[export] Instance pending_chunk_eta : Eta pending_chunk := fun p =>
  {| p_index := p_index p; p_address := p_address p; p_registration := p_registration p;
     newly_allocated := newly_allocated p;
     converted_from_opportunistic := converted_from_opportunistic p |}.

Record is_memory_grant := {
  provider_chunk_id : Z;
  grant_address : Z;
  grant_registration : Z;
  grant_pool : Z
}.

Record is_memory_reconcile_result := {
  grown_opportunistic_chunks : Z;
  reclaimed_unassigned_chunks : Z;
  assigned_reclaim_needed : Z
}.

#[export] Instance is_memory_reconcile_result_eta : Eta is_memory_reconcile_result := fun r =>
  {| grown_opportunistic_chunks := grown_opportunistic_chunks r;
     reclaimed_unassigned_chunks := reclaimed_unassigned_chunks r;
     assigned_reclaim_needed := assigned_reclaim_needed r |}.

Record is_memory_manager_status := {
  st_host_reserve_chunks : Z;
  st_max_opportunistic_chunks : Z;
  st_max_committed_chunks : Z;
  st_allocated_opportunistic_chunks : Z;
  st_assigned_opportunistic_chunks : Z;
  st_allocated_committed_chunks : Z;
  st_assigned_committed_chunks : Z;
  st_quarantined_chunks : Z;
  available_opportunistic_chunks : Z;
  available_committed_chunks : Z;
  active_connections : Z;
  consumer_connections : Z;
  consumer_assigned_opportunistic_chunks : Z;
  consumer_assigned_committed_chunks : Z;
  st_admissions : Z;
  st_rejections : Z;
  st_pressure_reclaims : Z;
  st_last_rejection : is_memory_rejection_reason;
  st_healthy : bool
}.

#[export] Instance is_memory_manager_status_eta : Eta is_memory_manager_status := fun s =>
  {| st_host_reserve_chunks := st_host_reserve_chunks s;
     st_max_opportunistic_chunks := st_max_opportunistic_chunks s;
     st_max_committed_chunks := st_max_committed_chunks s;
     st_allocated_opportunistic_chunks := st_allocated_opportunistic_chunks s;
     st_assigned_opportunistic_chunks := st_assigned_opportunistic_chunks s;
     st_allocated_committed_chunks := st_allocated_committed_chunks s;
     st_assigned_committed_chunks := st_assigned_committed_chunks s;
     st_quarantined_chunks := st_quarantined_chunks s;
     available_opportunistic_chunks := available_opportunistic_chunks s;
     available_committed_chunks := available_committed_chunks s;
     active_connections := active_connections s;
     consumer_connections := consumer_connections s;
     consumer_assigned_opportunistic_chunks := consumer_assigned_opportunistic_chunks s;
     consumer_assigned_committed_chunks := consumer_assigned_committed_chunks s;
     st_admissions := st_admissions s; st_rejections := st_rejections s;
     st_pressure_reclaims := st_pressure_reclaims s; st_last_rejection := st_last_rejection s;
     st_healthy := st_healthy s |}.

(** ** Adapters

    The three adapter structures and the C heap, as operations on a world.
    [allocate] and [read_available_bytes] return their status and what they
    leave in the out parameter; [heap] is the success of a calloc or realloc. *)
Class MemoryAdapters (W : Type) := {
  read_available_bytes : W -> W * (Z * Z);
  allocate : W -> W * (Z * Z);
  touch : Z -> W -> W * Z;
  release : Z -> W -> W;
  register_chunk : Z -> Z -> W -> W * Z;
  deregister_chunk : Z -> Z -> W -> W * Z;
  heap : W -> W * bool
}.

(** ** Validation and lookup *)

Definition config_valid (c : is_memory_manager_config) : bool :=
  let capacity := max_opportunistic_gib c + max_committed_gib c in
  negb (capacity =? 0) && (capacity <=? IS_MEMORY_MAX_RUNTIME_CHUNKS).

Definition id_char_valid (value : Z) : bool :=
  ((97 <=? value) && (value <=? 122)) || ((65 <=? value) && (value <=? 90)) ||
  ((48 <=? value) && (value <=? 57)) || (value =? 46) || (value =? 95) || (value =? 45).

(** The scan of [consumer_id_valid] from one index; a C string is the list of
    the bytes before its terminator. *)
Fixpoint id_scan (s : list Z) (n : nat) : bool :=
  match n with
  | O => false
  | S n =>
      match s with
      | [] => true
      | value :: s => if id_char_valid value then id_scan s n else false
      end
  end.

Definition consumer_id_valid (s : list Z) : bool :=
  match s with
  | [] => false
  | _ => id_scan s (S (Z.to_nat IS_MEMORY_CONSUMER_ID_MAX))
  end.

Fixpoint find_connection_from (cs : list is_memory_connection) (own : Z) (index : nat) :
    option nat :=
  match cs with
  | [] => None
  | c :: cs => if conn_owner c =? own then Some index else find_connection_from cs own (S index)
  end.
Definition find_connection (m : is_memory_manager) (own : Z) : option nat :=
  find_connection_from (connections m) own 0.

Definition reject (m : is_memory_manager) (reason : is_memory_rejection_reason) :
    is_memory_manager :=
  let m := m <| last_rejection := reason |> <| rejections := u64 (rejections m + 1) |> in
  if decide (reason = IS_MEMORY_REJECTION_CLEANUP_FAILED) then m <| healthy := false |> else m.

Definition connection_count_for_consumer (m : is_memory_manager) (id : list Z) : Z :=
  fold_left (fun count c => if decide (consumer_id c = id) then u32 (count + 1) else count)
    (connections m) 0.

Definition assignments_for_consumer (m : is_memory_manager) (id : list Z) : Z * Z :=
  fold_left (fun '(opp, com) c =>
      if decide (consumer_id c = id)
      then (u32 (opp + conn_assigned_opportunistic_chunks c),
            u32 (com + conn_assigned_committed_chunks c))
      else (opp, com))
    (connections m) (0, 0).

Definition pending_contains (ps : list pending_chunk) (index : nat) : bool :=
  existsb (fun p => Nat.eqb (p_index p) index) ps.

(** Writes through a chunk or connection pointer. *)
Definition set_chunk (m : is_memory_manager) (k : nat) (c : is_memory_chunk) :
    is_memory_manager := m <| chunks := <[k := c]> (chunks m) |>.
Definition update_connection (m : is_memory_manager) (i : nat)
    (f : is_memory_connection -> is_memory_connection) : is_memory_manager :=
  m <| connections := alter f i (connections m) |>.

(** The loops of [is_memory_manager_acquire] that select chunks: from index
    [index] on, up to [want] chunks that satisfy [p]. *)
Fixpoint select_chunks (p : nat -> is_memory_chunk -> bool)
    (mk : nat -> is_memory_chunk -> pending_chunk)
    (cs : list is_memory_chunk) (index : nat) (want : nat) : list pending_chunk :=
  match want, cs with
  | S want', c :: cs =>
      if p index c then mk index c :: select_chunks p mk cs (S index) want'
      else select_chunks p mk cs (S index) want
  | _, _ => []
  end.

Definition unused_in (requested : Z) (c : is_memory_chunk) : bool :=
  negb ((address c =? 0) || negb (owner c =? 0) || negb (registration c =? 0) ||
        quarantined c || negb (pool c =? requested)).

Definition take_chunk (converted : bool) (index : nat) (c : is_memory_chunk) : pending_chunk :=
  {| p_index := index; p_address := address c; p_registration := 0; newly_allocated := false;
     converted_from_opportunistic := converted |}.
Definition new_chunk (index : nat) (c : is_memory_chunk) : pending_chunk :=
  {| p_index := index; p_address := 0; p_registration := 0; newly_allocated := true;
     converted_from_opportunistic := false |}.

Definition select_same (m : is_memory_manager) (requested : Z) (count : nat) :
    list pending_chunk :=
  select_chunks (fun _ => unused_in requested) (take_chunk false) (chunks m) 0 count.
Definition select_converted (m : is_memory_manager) (requested : Z) (want : nat) :
    list pending_chunk :=
  if requested =? IS_MEMORY_POOL_COMMITTED
  then select_chunks (fun _ => unused_in IS_MEMORY_POOL_OPPORTUNISTIC) (take_chunk true)
         (chunks m) 0 want
  else [].
(** [pending_contains] looks at the entries selected so far, those of this
    loop included; they are at smaller indices, so the earlier loops' entries
    decide. *)
Definition select_new (m : is_memory_manager) (ps : list pending_chunk) (want : nat) :
    list pending_chunk :=
  select_chunks (fun index c => negb (negb (address c =? 0) || pending_contains ps index))
    new_chunk (chunks m) 0 want.

Section operations.
Context {W : Type} {adapters : MemoryAdapters W}.

(** ** Creation *)

(** [lock_status] is the result of pthread_mutex_init. *)
Definition is_memory_manager_create (cfg : is_memory_manager_config) (lock_status : Z) (w : W) :
    W * option is_memory_manager :=
  if negb (config_valid cfg) then (w, None)
  else
    let '(w, ok) := heap w in
    if negb ok then (w, None)
    else
      let '(w, ok) := heap w in
      if negb ok then (w, None)
      else if negb (lock_status =? 0) then (w, None)
      else
        (w, Some {|
          config := cfg;
          chunks := replicate (Z.to_nat (max_opportunistic_gib cfg + max_committed_gib cfg))
                      empty_chunk;
          connections := []; connection_capacity := 0;
          allocated_opportunistic_chunks := 0; assigned_opportunistic_chunks := 0;
          allocated_committed_chunks := 0; assigned_committed_chunks := 0;
          quarantined_chunks := 0; admissions := 0; rejections := 0; pressure_reclaims := 0;
          last_rejection := IS_MEMORY_REJECTION_NONE; healthy := true |}).

(** ** Releasing *)

(** Deregistration of a chunk that may have no registration: success. *)
Definition deregister_if_registered (c : is_memory_chunk) (w : W) : W * bool :=
  if negb (registration c =? 0) then
    let '(w, status) := deregister_chunk (registration_adapter c) (registration c) w in
    (w, status =? 0)
  else (w, true).

Definition drop_assignment (m : is_memory_manager) (i : nat) (p : Z) : is_memory_manager :=
  if p =? IS_MEMORY_POOL_OPPORTUNISTIC then
    update_connection
      (m <| assigned_opportunistic_chunks := u32 (assigned_opportunistic_chunks m - 1) |>) i
      (fun c => c <| conn_assigned_opportunistic_chunks :=
                       u32 (conn_assigned_opportunistic_chunks c - 1) |>)
  else
    update_connection
      (m <| assigned_committed_chunks := u32 (assigned_committed_chunks m - 1) |>) i
      (fun c => c <| conn_assigned_committed_chunks :=
                       u32 (conn_assigned_committed_chunks c - 1) |>).

Definition release_chunk_locked (m : is_memory_manager) (w : W) (connection k : nat)
    (cause : Z) : is_memory_manager * W * is_memory_result :=
  match chunks m !! k with
  | None => (m, w, IS_MEMORY_OK)
  | Some chunk =>
      let p := pool chunk in
      let '(w, ok) := deregister_if_registered chunk w in
      if negb ok then
        (reject m IS_MEMORY_REJECTION_CLEANUP_FAILED, w, IS_MEMORY_CLEANUP_FAILED)
      else
        let chunk := chunk <| registration := 0 |> <| owner := 0 |>
                           <| registration_adapter := 0 |> in
        let m := drop_assignment (set_chunk m k chunk) connection p in
        if (cause =? IS_MEMORY_RELEASE_PRESSURE) || (p =? IS_MEMORY_POOL_COMMITTED) then
          let w := release (address chunk) w in
          let m := set_chunk m k (chunk <| address := 0 |> <| pool := 0 |>) in
          let m :=
            if p =? IS_MEMORY_POOL_OPPORTUNISTIC then
              let m := m <| allocated_opportunistic_chunks :=
                              u32 (allocated_opportunistic_chunks m - 1) |> in
              if cause =? IS_MEMORY_RELEASE_PRESSURE
              then m <| pressure_reclaims := u64 (pressure_reclaims m + 1) |> else m
            else m <| allocated_committed_chunks := u32 (allocated_committed_chunks m - 1) |> in
          (m, w, IS_MEMORY_OK)
        else (m, w, IS_MEMORY_OK)
  end.

(** Deregistration of every chunk; those that fail keep their owner. *)
Fixpoint destroy_registrations (cs : list is_memory_chunk) (w : W) :
    list is_memory_chunk * W * bool :=
  match cs with
  | [] => ([], w, false)
  | c :: cs =>
      let '(w, ok) := deregister_if_registered c w in
      let c := if ok then c <| registration := 0 |> <| owner := 0 |> else c in
      let '(cs, w, failed) := destroy_registrations cs w in
      (c :: cs, w, negb ok || failed)
  end.

Fixpoint destroy_addresses (cs : list is_memory_chunk) (w : W) : W :=
  match cs with
  | [] => w
  | c :: cs => destroy_addresses cs (if negb (address c =? 0) then release (address c) w else w)
  end.

(** The manager is gone ([None]) after a successful destruction. *)
Definition is_memory_manager_destroy (m : is_memory_manager) (w : W) :
    option is_memory_manager * W * is_memory_result :=
  let '(cs, w, cleanup_failed) := destroy_registrations (chunks m) w in
  let m := m <| chunks := cs |> in
  if cleanup_failed then
    (Some (m <| healthy := false |> <| last_rejection := IS_MEMORY_REJECTION_CLEANUP_FAILED |>
             <| rejections := u64 (rejections m + 1) |>), w, IS_MEMORY_CLEANUP_FAILED)
  else (None, destroy_addresses (chunks m) w, IS_MEMORY_OK).

(** ** Connections *)

Definition grow_connections (m : is_memory_manager) (w : W) : W * option is_memory_manager :=
  let capacity :=
    if connection_capacity m =? 0 then 4 else u64 (connection_capacity m * 2) in
  if capacity <? connection_capacity m then (w, None)
  else
    let '(w, ok) := heap w in
    if negb ok then (w, None) else (w, Some (m <| connection_capacity := capacity |>)).

Definition same_limits (c : is_memory_connection) (max_conn max_opp max_com : Z) : bool :=
  (max_connections c =? max_conn) && (max_opportunistic_chunks c =? max_opp) &&
  (max_committed_chunks c =? max_com).

Definition add_connection (m : is_memory_manager) (id : list Z)
    (own max_conn max_opp max_com : Z) : is_memory_manager :=
  m <| connections := connections m ++
         [{| consumer_id := id; conn_owner := own; max_connections := max_conn;
             max_opportunistic_chunks := max_opp; max_committed_chunks := max_com;
             conn_assigned_opportunistic_chunks := 0; conn_assigned_committed_chunks := 0 |}] |>.

Definition is_memory_manager_connect (m : is_memory_manager) (w : W) (id : list Z)
    (own max_conn max_opp max_com : Z) :
    is_memory_manager * W * is_memory_result * is_memory_rejection_reason :=
  if negb (consumer_id_valid id) || (own =? 0) || (max_conn =? 0) ||
     ((max_opp =? 0) && (max_com =? 0))
  then (m, w, IS_MEMORY_INVALID_ARGUMENT, IS_MEMORY_REJECTION_NONE)
  else if bool_decide (is_Some (find_connection m own)) then
    (reject m IS_MEMORY_REJECTION_INVALID_REQUEST, w, IS_MEMORY_INVALID_ARGUMENT,
     IS_MEMORY_REJECTION_INVALID_REQUEST)
  else if max_conn <=? connection_count_for_consumer m id then
    (reject m IS_MEMORY_REJECTION_CONNECTION_LIMIT, w, IS_MEMORY_CONNECTION_LIMIT,
     IS_MEMORY_REJECTION_CONNECTION_LIMIT)
  else if existsb (fun c => bool_decide (consumer_id c = id) &&
                            negb (same_limits c max_conn max_opp max_com)) (connections m)
  then
    (reject m IS_MEMORY_REJECTION_INVALID_REQUEST, w, IS_MEMORY_INVALID_ARGUMENT,
     IS_MEMORY_REJECTION_INVALID_REQUEST)
  else
    let '(w, grown) :=
      if Z.of_nat (length (connections m)) =? connection_capacity m
      then grow_connections m w else (w, Some m) in
    match grown with
    | None =>
        (reject m IS_MEMORY_REJECTION_ALLOCATION_FAILED, w, IS_MEMORY_ALLOCATION_FAILED,
         IS_MEMORY_REJECTION_ALLOCATION_FAILED)
    | Some m =>
        (add_connection m id own max_conn max_opp max_com, w, IS_MEMORY_OK,
         IS_MEMORY_REJECTION_NONE)
    end.

(** The loop of [disconnect_locked] over the chunks from index [k]. *)
Fixpoint release_owned (m : is_memory_manager) (w : W) (connection : nat) (own : Z)
    (ks : list nat) : is_memory_manager * W * is_memory_result :=
  match ks with
  | [] => (m, w, IS_MEMORY_OK)
  | k :: ks =>
      match chunks m !! k with
      | Some c =>
          if owner c =? own then
            let '(m, w, result) :=
              release_chunk_locked m w connection k IS_MEMORY_RELEASE_DISCONNECT in
            if decide (result = IS_MEMORY_OK) then release_owned m w connection own ks
            else (m, w, result)
          else release_owned m w connection own ks
      | None => (m, w, IS_MEMORY_OK)
      end
  end.

(** The last connection takes the place of the removed one. *)
Definition remove_connection (cs : list is_memory_connection) (i : nat) :
    list is_memory_connection :=
  let last := (length cs - 1)%nat in
  match cs !! last with
  | Some c => take last (if Nat.eqb i last then cs else <[i := c]> cs)
  | None => cs
  end.

Definition disconnect_locked (m : is_memory_manager) (w : W) (connection : nat) :
    is_memory_manager * W * is_memory_result :=
  match connections m !! connection with
  | None => (m, w, IS_MEMORY_OK)
  | Some c =>
      let '(m, w, result) :=
        release_owned m w connection (conn_owner c) (seq 0 (length (chunks m))) in
      if decide (result = IS_MEMORY_OK) then
        (m <| connections := remove_connection (connections m) connection |>, w, IS_MEMORY_OK)
      else (m, w, result)
  end.

Definition is_memory_manager_disconnect (m : is_memory_manager) (w : W) (own : Z) :
    is_memory_manager * W * is_memory_result :=
  if own =? 0 then (m, w, IS_MEMORY_INVALID_ARGUMENT)
  else
    match find_connection m own with
    | None => (m, w, IS_MEMORY_NOT_CONNECTED)
    | Some i => disconnect_locked m w i
    end.

(** ** Acquiring *)

Definition pool_counter_up (m : is_memory_manager) (p : Z) : is_memory_manager :=
  if p =? IS_MEMORY_POOL_OPPORTUNISTIC
  then m <| allocated_opportunistic_chunks := u32 (allocated_opportunistic_chunks m + 1) |>
  else m <| allocated_committed_chunks := u32 (allocated_committed_chunks m + 1) |>.

(** The rejection, if any. *)
Definition validate_acquire_locked (m : is_memory_manager) (c : is_memory_connection)
    (requested chunk_count : Z) : option (is_memory_result * is_memory_rejection_reason) :=
  let '(opp, com) := assignments_for_consumer m (consumer_id c) in
  let check assigned quota :=
    if (quota <? assigned) || (quota - assigned <? chunk_count)
    then Some (IS_MEMORY_QUOTA_EXCEEDED, IS_MEMORY_REJECTION_CONSUMER_QUOTA) else None in
  if requested =? IS_MEMORY_POOL_OPPORTUNISTIC then check opp (max_opportunistic_chunks c)
  else if requested =? IS_MEMORY_POOL_COMMITTED then check com (max_committed_chunks c)
  else Some (IS_MEMORY_INVALID_ARGUMENT, IS_MEMORY_REJECTION_INVALID_REQUEST).

(** Quarantine of a pending chunk whose deregistration failed. *)
Definition quarantine_pending (m : is_memory_manager) (p : pending_chunk) (requested reg : Z) :
    is_memory_manager :=
  match chunks m !! p_index p with
  | None => m
  | Some chunk =>
      let '(m, chunk) :=
        if newly_allocated p
        then (pool_counter_up m requested,
              chunk <| address := p_address p |> <| pool := requested |>)
        else (m, chunk) in
      let m := set_chunk m (p_index p)
        (chunk <| registration := p_registration p |> <| registration_adapter := reg |>
               <| quarantined := true |>) in
      m <| quarantined_chunks := u32 (quarantined_chunks m + 1) |>
  end.

(** The first loop of [rollback_pending]; the flag is [cleanup_failed]. *)
Fixpoint rollback_registrations (m : is_memory_manager) (w : W) (ps : list pending_chunk)
    (requested reg : Z) : is_memory_manager * W * list pending_chunk * bool :=
  match ps with
  | [] => (m, w, [], false)
  | p :: ps =>
      let '(m, w, p, failed) :=
        if p_registration p =? 0 then (m, w, p, false)
        else
          let '(w, status) := deregister_chunk reg (p_registration p) w in
          if negb (status =? 0) then (quarantine_pending m p requested reg, w, p, true)
          else (m, w, p <| p_registration := 0 |>, false) in
      let '(m, w, ps, failed') := rollback_registrations m w ps requested reg in
      (m, w, p :: ps, failed || failed')
  end.

Fixpoint rollback_addresses (w : W) (ps : list pending_chunk) : W :=
  match ps with
  | [] => w
  | p :: ps =>
      rollback_addresses
        (if negb (newly_allocated p) || (p_address p =? 0) || negb (p_registration p =? 0)
         then w else release (p_address p) w) ps
  end.

Definition rollback_pending (m : is_memory_manager) (w : W) (ps : list pending_chunk)
    (requested reg : Z) : is_memory_manager * W * bool :=
  let '(m, w, ps, failed) := rollback_registrations m w ps requested reg in
  (m, rollback_addresses w ps, failed).

(** The loop that allocates and touches, and what stopped it. *)
Fixpoint allocate_pending (w : W) (ps : list pending_chunk) :
    W * list pending_chunk * option (is_memory_result * is_memory_rejection_reason) :=
  match ps with
  | [] => (w, [], None)
  | p :: ps =>
      if negb (newly_allocated p) then
        let '(w, ps, stop) := allocate_pending w ps in (w, p :: ps, stop)
      else
        let '(w, (status, a)) := allocate w in
        let p := p <| p_address := a |> in
        if negb (status =? 0) then
          (w, p :: ps, Some (IS_MEMORY_ALLOCATION_FAILED, IS_MEMORY_REJECTION_ALLOCATION_FAILED))
        else
          let '(w, status) := touch a w in
          if negb (status =? 0) then
            (w, p :: ps, Some (IS_MEMORY_TOUCH_FAILED, IS_MEMORY_REJECTION_TOUCH_FAILED))
          else let '(w, ps, stop) := allocate_pending w ps in (w, p :: ps, stop)
  end.

Fixpoint register_pending (w : W) (ps : list pending_chunk) (reg : Z) :
    W * list pending_chunk * option (is_memory_result * is_memory_rejection_reason) :=
  match ps with
  | [] => (w, [], None)
  | p :: ps =>
      let '(w, r) := register_chunk reg (p_address p) w in
      let p := p <| p_registration := r |> in
      if r =? 0 then
        (w, p :: ps,
         Some (IS_MEMORY_REGISTRATION_FAILED, IS_MEMORY_REJECTION_REGISTRATION_FAILED))
      else let '(w, ps, stop) := register_pending w ps reg in (w, p :: ps, stop)
  end.

(** One iteration of the loop that assigns the pending chunks. *)
Definition assign_pending (m : is_memory_manager) (p : pending_chunk) (requested own reg : Z) :
    is_memory_manager * is_memory_grant :=
  let chunk := default empty_chunk (chunks m !! p_index p) in
  let chunk := if newly_allocated p then chunk <| address := p_address p |> else chunk in
  let m :=
    if converted_from_opportunistic p then
      m <| allocated_opportunistic_chunks := u32 (allocated_opportunistic_chunks m - 1) |>
        <| allocated_committed_chunks := u32 (allocated_committed_chunks m + 1) |>
    else if newly_allocated p then pool_counter_up m requested else m in
  let chunk := chunk <| pool := requested |> <| owner := own |>
                     <| registration := p_registration p |> <| registration_adapter := reg |> in
  (set_chunk m (p_index p) chunk,
   {| provider_chunk_id := u32 (Z.of_nat (p_index p)); grant_address := address chunk;
      grant_registration := registration chunk; grant_pool := requested |}).

Fixpoint assign_all (m : is_memory_manager) (ps : list pending_chunk) (requested own reg : Z) :
    is_memory_manager * list is_memory_grant :=
  match ps with
  | [] => (m, [])
  | p :: ps =>
      let '(m, g) := assign_pending m p requested own reg in
      let '(m, gs) := assign_all m ps requested own reg in
      (m, g :: gs)
  end.

Definition count_assignment (m : is_memory_manager) (connection : nat) (requested count : Z) :
    is_memory_manager :=
  let m :=
    if requested =? IS_MEMORY_POOL_OPPORTUNISTIC then
      update_connection
        (m <| assigned_opportunistic_chunks := u32 (assigned_opportunistic_chunks m + count) |>)
        connection
        (fun c => c <| conn_assigned_opportunistic_chunks :=
                         u32 (conn_assigned_opportunistic_chunks c + count) |>)
    else
      update_connection
        (m <| assigned_committed_chunks := u32 (assigned_committed_chunks m + count) |>)
        connection
        (fun c => c <| conn_assigned_committed_chunks :=
                         u32 (conn_assigned_committed_chunks c + count) |>) in
  m <| admissions := u64 (admissions m + count) |>.

(** The result of an acquisition: the grants are written only on success. *)
Record acquire_outcome := {
  out_manager : is_memory_manager;
  out_world : W;
  out_result : is_memory_result;
  out_rejection : is_memory_rejection_reason;
  out_grants : list is_memory_grant
}.

Definition acquire_failed (m : is_memory_manager) (w : W) (r : is_memory_result)
    (reason : is_memory_rejection_reason) : acquire_outcome :=
  {| out_manager := reject m reason; out_world := w; out_result := r; out_rejection := reason;
     out_grants := [] |}.

(** Rejection, rollback and the code at [rollback_out]. *)
Definition acquire_rollback (m : is_memory_manager) (w : W) (ps : list pending_chunk)
    (requested reg : Z) (stop : is_memory_result * is_memory_rejection_reason) :
    acquire_outcome :=
  let m := reject m stop.2 in
  let '(m, w, cleanup_failed) := rollback_pending m w ps requested reg in
  if cleanup_failed
  then acquire_failed m w IS_MEMORY_CLEANUP_FAILED IS_MEMORY_REJECTION_CLEANUP_FAILED
  else {| out_manager := m; out_world := w; out_result := stop.1; out_rejection := stop.2;
          out_grants := [] |}.

(** From the allocation loop on. *)
Definition acquire_pending (m : is_memory_manager) (w : W) (connection : nat)
    (ps : list pending_chunk) (requested own reg chunk_count : Z) : acquire_outcome :=
  let '(w, ps, stop) := allocate_pending w ps in
  match stop with
  | Some stop => acquire_rollback m w ps requested reg stop
  | None =>
      let '(w, ps, stop) := register_pending w ps reg in
      match stop with
      | Some stop => acquire_rollback m w ps requested reg stop
      | None =>
          let '(m, gs) := assign_all m ps requested own reg in
          {| out_manager := count_assignment m connection requested chunk_count;
             out_world := w; out_result := IS_MEMORY_OK;
             out_rejection := IS_MEMORY_REJECTION_NONE; out_grants := gs |}
      end
  end.

(** The pool limit: [additional] chunks on top of those of the same pool. *)
Definition pool_limit_exceeded (m : is_memory_manager) (requested additional : Z) : bool :=
  let '(allocated, limit) :=
    if requested =? IS_MEMORY_POOL_OPPORTUNISTIC
    then (allocated_opportunistic_chunks m, max_opportunistic_gib (config m))
    else (allocated_committed_chunks m, max_committed_gib (config m)) in
  (limit <? allocated) || (limit - allocated <? additional).

Definition acquire_selected (m : is_memory_manager) (w : W) (connection : nat)
    (ps : list pending_chunk) (same fresh : nat) (requested own reg chunk_count : Z) :
    acquire_outcome :=
  if negb (Z.of_nat (length ps) =? chunk_count) then
    acquire_failed m w IS_MEMORY_POOL_EXHAUSTED IS_MEMORY_REJECTION_POOL_LIMIT
  else if pool_limit_exceeded m requested (chunk_count - Z.of_nat same) then
    acquire_failed m w IS_MEMORY_POOL_EXHAUSTED IS_MEMORY_REJECTION_POOL_LIMIT
  else if negb (Nat.eqb fresh 0) then
    let '(w, (status, available_bytes)) := read_available_bytes w in
    if negb (status =? 0) then
      acquire_failed m w IS_MEMORY_ACCOUNTING_FAILED IS_MEMORY_REJECTION_ACCOUNTING_FAILED
    else if available_bytes / IS_MEMORY_CHUNK_BYTES
            <? u64 (host_reserve_gib (config m) + Z.of_nat fresh) then
      acquire_failed m w IS_MEMORY_HOST_RESERVE IS_MEMORY_REJECTION_HOST_RESERVE
    else acquire_pending m w connection ps requested own reg chunk_count
  else acquire_pending m w connection ps requested own reg chunk_count.

Definition is_memory_manager_acquire (m : is_memory_manager) (w : W)
    (own requested chunk_count reg grant_capacity : Z) : acquire_outcome :=
  let returns w r := {| out_manager := m; out_world := w; out_result := r;
                        out_rejection := IS_MEMORY_REJECTION_NONE; out_grants := [] |} in
  if (own =? 0) || (chunk_count =? 0) || (grant_capacity <? chunk_count)
  then returns w IS_MEMORY_INVALID_ARGUMENT
  else
    let '(w, ok) := heap w in
    if negb ok then returns w IS_MEMORY_ALLOCATION_FAILED
    else
      match find_connection m own with
      | None => returns w IS_MEMORY_NOT_CONNECTED
      | Some i =>
          match connections m !! i with
          | None => returns w IS_MEMORY_NOT_CONNECTED
          | Some c =>
              match validate_acquire_locked m c requested chunk_count with
              | Some (r, reason) => acquire_failed m w r reason
              | None =>
                  let count := Z.to_nat chunk_count in
                  let same := select_same m requested count in
                  let conv := select_converted m requested (count - length same) in
                  let fresh := select_new m (same ++ conv)
                                 (count - length same - length conv) in
                  acquire_selected m w i (same ++ conv ++ fresh) (length same) (length fresh)
                    requested own reg chunk_count
              end
          end
      end.

(** ** Release of listed chunks *)

(** The checks of [is_memory_manager_release]; [before] are the ids already
    accepted. *)
Fixpoint check_release (m : is_memory_manager) (own cause : Z) (before ids : list Z) :
    option (is_memory_manager * is_memory_result) :=
  match ids with
  | [] => None
  | id :: ids =>
      match chunks m !! Z.to_nat id with
      | None => Some (m, IS_MEMORY_NOT_FOUND)
      | Some c =>
          if negb (owner c =? own) then Some (m, IS_MEMORY_NOT_FOUND)
          else if (cause =? IS_MEMORY_RELEASE_PRESSURE) &&
                  (pool c =? IS_MEMORY_POOL_COMMITTED)
          then Some (reject m IS_MEMORY_REJECTION_COMMITTED_PROTECTED,
                     IS_MEMORY_COMMITTED_PROTECTED)
          else if existsb (Z.eqb id) before then Some (m, IS_MEMORY_INVALID_ARGUMENT)
          else check_release m own cause (before ++ [id]) ids
      end
  end.

Fixpoint release_listed (m : is_memory_manager) (w : W) (connection : nat) (ids : list Z)
    (cause : Z) : is_memory_manager * W * is_memory_result :=
  match ids with
  | [] => (m, w, IS_MEMORY_OK)
  | id :: ids =>
      let '(m, w, result) := release_chunk_locked m w connection (Z.to_nat id) cause in
      if decide (result = IS_MEMORY_OK) then release_listed m w connection ids cause
      else (m, w, result)
  end.

Definition is_memory_manager_release (m : is_memory_manager) (w : W) (own : Z)
    (ids : list Z) (cause : Z) : is_memory_manager * W * is_memory_result :=
  if (own =? 0) || Nat.eqb (length ids) 0 ||
     (negb (cause =? IS_MEMORY_RELEASE_CONSUMER) && negb (cause =? IS_MEMORY_RELEASE_PRESSURE) &&
      negb (cause =? IS_MEMORY_RELEASE_DISCONNECT) && negb (cause =? IS_MEMORY_RELEASE_SHUTDOWN))
  then (m, w, IS_MEMORY_INVALID_ARGUMENT)
  else
    match find_connection m own with
    | None => (m, w, IS_MEMORY_NOT_CONNECTED)
    | Some i =>
        match check_release m own cause [] ids with
        | Some (m, result) => (m, w, result)
        | None => release_listed m w i ids cause
        end
    end.

(** ** Reconciliation with the host's memory *)

(** [allocate_unassigned_opportunistic_locked]: the allocation loop stops at
    the first failure; every pending entry is newly allocated. *)
Fixpoint release_pending (w : W) (ps : list pending_chunk) : W :=
  match ps with
  | [] => w
  | p :: ps => release_pending (if p_address p =? 0 then w else release (p_address p) w) ps
  end.

Fixpoint adopt_pending (m : is_memory_manager) (ps : list pending_chunk) : is_memory_manager :=
  match ps with
  | [] => m
  | p :: ps =>
      let chunk := default empty_chunk (chunks m !! p_index p) in
      adopt_pending
        (set_chunk m (p_index p)
           (chunk <| address := p_address p |> <| pool := IS_MEMORY_POOL_OPPORTUNISTIC |>)) ps
  end.

Definition allocate_unassigned_opportunistic_locked (m : is_memory_manager) (w : W)
    (count : Z) : is_memory_manager * W * is_memory_result :=
  if count =? 0 then (m, w, IS_MEMORY_OK)
  else
    let '(w, ok) := heap w in
    if negb ok then
      (reject m IS_MEMORY_REJECTION_ALLOCATION_FAILED, w, IS_MEMORY_ALLOCATION_FAILED)
    else
      let ps := select_chunks (fun _ c => address c =? 0) new_chunk (chunks m) 0
                  (Z.to_nat count) in
      if negb (Z.of_nat (length ps) =? count) then
        (reject m IS_MEMORY_REJECTION_POOL_LIMIT, w, IS_MEMORY_POOL_EXHAUSTED)
      else
        let '(w, ps, stop) := allocate_pending w ps in
        match stop with
        | Some (result, reason) => (reject m reason, release_pending w ps, result)
        | None =>
            let m := adopt_pending m ps in
            (m <| allocated_opportunistic_chunks :=
                    u32 (allocated_opportunistic_chunks m + count) |>, w, IS_MEMORY_OK)
        end.

Definition reclaimable (c : is_memory_chunk) : bool :=
  negb ((address c =? 0) || negb (owner c =? 0) || quarantined c ||
        negb (pool c =? IS_MEMORY_POOL_OPPORTUNISTIC)).

(** The reclaim loop over the chunk indices. *)
Fixpoint reclaim_unassigned (m : is_memory_manager) (w : W) (reclaimed reclaim : Z)
    (ks : list nat) : is_memory_manager * W * Z :=
  match ks with
  | [] => (m, w, reclaimed)
  | k :: ks =>
      if reclaim =? 0 then (m, w, reclaimed)
      else
        match chunks m !! k with
        | Some c =>
            if reclaimable c then
              let w := release (address c) w in
              let m := set_chunk m k empty_chunk in
              let m := m <| allocated_opportunistic_chunks :=
                              u32 (allocated_opportunistic_chunks m - 1) |>
                         <| pressure_reclaims := u64 (pressure_reclaims m + 1) |> in
              reclaim_unassigned m w (u32 (reclaimed + 1)) (u32 (reclaim - 1)) ks
            else reclaim_unassigned m w reclaimed reclaim ks
        | None => (m, w, reclaimed)
        end
  end.

(** The number of opportunistic chunks the host can spare. *)
Definition reconcile_target (m : is_memory_manager) (available_bytes : Z) : Z :=
  let effective := u64 (available_bytes / IS_MEMORY_CHUNK_BYTES +
                        allocated_opportunistic_chunks m) in
  if effective <=? host_reserve_gib (config m) then 0
  else if max_opportunistic_gib (config m) <=? effective - host_reserve_gib (config m)
  then max_opportunistic_gib (config m)
  else u32 (effective - host_reserve_gib (config m)).

Definition is_memory_manager_reconcile (m : is_memory_manager) (w : W) :
    is_memory_manager * W * is_memory_result * is_memory_reconcile_result :=
  let none := {| grown_opportunistic_chunks := 0; reclaimed_unassigned_chunks := 0;
                 assigned_reclaim_needed := 0 |} in
  let '(w, (status, available_bytes)) := read_available_bytes w in
  if negb (status =? 0) then
    (reject m IS_MEMORY_REJECTION_ACCOUNTING_FAILED, w, IS_MEMORY_ACCOUNTING_FAILED, none)
  else
    let target := reconcile_target m available_bytes in
    if allocated_opportunistic_chunks m <? target then
      let growth := target - allocated_opportunistic_chunks m in
      let '(m, w, result) := allocate_unassigned_opportunistic_locked m w growth in
      (m, w, result,
       if decide (result = IS_MEMORY_OK)
       then none <| grown_opportunistic_chunks := growth |> else none)
    else
      let desired := if target <? assigned_opportunistic_chunks m
                     then assigned_opportunistic_chunks m else target in
      let reclaim := u32 (allocated_opportunistic_chunks m - desired) in
      let '(m, w, reclaimed) := reclaim_unassigned m w 0 reclaim (seq 0 (length (chunks m))) in
      let r := none <| reclaimed_unassigned_chunks := reclaimed |> in
      (m, w, IS_MEMORY_OK,
       if target <? assigned_opportunistic_chunks m
       then r <| assigned_reclaim_needed := assigned_opportunistic_chunks m - target |> else r).

(** ** Status *)

(** The availability figures of [is_memory_manager_get_status] before the
    Consumer's own limits are applied. *)
Definition quarantined_opportunistic (m : is_memory_manager) : Z :=
  fold_left (fun n c =>
      if quarantined c && (pool c =? IS_MEMORY_POOL_OPPORTUNISTIC) then u64 (n + 1) else n)
    (chunks m) 0.

Definition availability (m : is_memory_manager) (available_bytes : Z) : Z * Z :=
  let available := available_bytes / IS_MEMORY_CHUNK_BYTES in
  let safe_new := if host_reserve_gib (config m) <? available
                  then available - host_reserve_gib (config m) else 0 in
  let unassigned := u64 (u32 (allocated_opportunistic_chunks m - assigned_opportunistic_chunks m) -
                         quarantined_opportunistic m) in
  let opportunistic_room :=
    u32 (max_opportunistic_gib (config m) - allocated_opportunistic_chunks m) in
  let committed_room := u32 (max_committed_gib (config m) - allocated_committed_chunks m) in
  let available_opportunistic :=
    u64 (unassigned + (if safe_new <? opportunistic_room then safe_new else opportunistic_room)) in
  let available_committed := u64 (unassigned + safe_new) in
  (u32 available_opportunistic,
   u32 (if committed_room <? available_committed then committed_room else available_committed)).

Definition manager_status (m : is_memory_manager) (available_bytes : Z) :
    is_memory_manager_status :=
  let '(opp, com) := availability m available_bytes in
  {| st_host_reserve_chunks := host_reserve_gib (config m);
     st_max_opportunistic_chunks := max_opportunistic_gib (config m);
     st_max_committed_chunks := max_committed_gib (config m);
     st_allocated_opportunistic_chunks := allocated_opportunistic_chunks m;
     st_assigned_opportunistic_chunks := assigned_opportunistic_chunks m;
     st_allocated_committed_chunks := allocated_committed_chunks m;
     st_assigned_committed_chunks := assigned_committed_chunks m;
     st_quarantined_chunks := quarantined_chunks m;
     available_opportunistic_chunks := opp; available_committed_chunks := com;
     active_connections := u32 (Z.of_nat (length (connections m)));
     consumer_connections := 0; consumer_assigned_opportunistic_chunks := 0;
     consumer_assigned_committed_chunks := 0; st_admissions := admissions m;
     st_rejections := rejections m; st_pressure_reclaims := pressure_reclaims m;
     st_last_rejection := last_rejection m; st_healthy := healthy m |}.

(** What a connection's status adds. *)
Definition connection_status (m : is_memory_manager) (c : is_memory_connection)
    (s : is_memory_manager_status) : is_memory_manager_status :=
  let '(opp, com) := assignments_for_consumer m (consumer_id c) in
  let s := s <| consumer_connections := connection_count_for_consumer m (consumer_id c) |>
             <| consumer_assigned_opportunistic_chunks := opp |>
             <| consumer_assigned_committed_chunks := com |> in
  let remaining := u32 (max_opportunistic_chunks c - opp) in
  let s := if remaining <? available_opportunistic_chunks s
           then s <| available_opportunistic_chunks := remaining |> else s in
  let remaining := u32 (max_committed_chunks c - com) in
  if remaining <? available_committed_chunks s
  then s <| available_committed_chunks := remaining |> else s.

(** [own] 0 asks for the status of the manager alone. *)
Definition is_memory_manager_get_status (m : is_memory_manager) (w : W) (own : Z) :
    W * is_memory_result * option is_memory_manager_status :=
  let with_connection conn :=
    let '(w, (status, available_bytes)) := read_available_bytes w in
    if negb (status =? 0) then (w, IS_MEMORY_ACCOUNTING_FAILED, None)
    else
      let s := manager_status m available_bytes in
      (w, IS_MEMORY_OK,
       Some (match conn with Some c => connection_status m c s | None => s end)) in
  if negb (own =? 0) then
    match find_connection m own with
    | Some i =>
        match connections m !! i with
        | Some c => with_connection (Some c)
        | None => (w, IS_MEMORY_NOT_CONNECTED, None)
        end
    | None => (w, IS_MEMORY_NOT_CONNECTED, None)
    end
  else with_connection None.
End operations.
