(* ===== verification/MemoryConfig.v ===== *)
(** * The memory manager's configuration and accounting
      (src/infiniswap_daemon/infiniswap_memory_manager.c)

    The file that bounds the pools, the host's available memory as the kernel
    reports it, and the names of results. *)
From Stdlib Require Import Strings.String.
From S2P Require Import Prelude Text MemoryManager.

(** ** The configuration file *)

(** The bytes read from an open file, and [ferror] at their end. *)
Record config_file := {
  cf_bytes : list Z;
  cf_error : bool
}.

#[export] Instance is_memory_manager_config_eta : Eta is_memory_manager_config := fun c =>
  {| host_reserve_gib := host_reserve_gib c; max_opportunistic_gib := max_opportunistic_gib c;
     max_committed_gib := max_committed_gib c |}.

Definition zero_config : is_memory_manager_config :=
  {| host_reserve_gib := 0; max_opportunistic_gib := 0; max_committed_gib := 0 |}.

Definition config_field (key : list Z) : option Z :=
  if bool_decide (key = chars "version") then Some (2 ^ 0)
  else if bool_decide (key = chars "host_reserve_gib") then Some (2 ^ 1)
  else if bool_decide (key = chars "max_opportunistic_gib") then Some (2 ^ 2)
  else if bool_decide (key = chars "max_committed_gib") then Some (2 ^ 3)
  else None.

Definition store_setting (parsed : is_memory_manager_config) (field number : Z) :
    option is_memory_manager_config :=
  if field =? 2 ^ 0 then if negb (number =? 1) then None else Some parsed
  else if field =? 2 ^ 1 then Some (parsed <| host_reserve_gib := number |>)
  else if field =? 2 ^ 2 then Some (parsed <| max_opportunistic_gib := number |>)
  else Some (parsed <| max_committed_gib := number |>).

(** One buffer of [fgets]: the configuration and [seen]. *)
Definition config_line (s : is_memory_manager_config * Z) (buffer : list Z) :
    option (is_memory_manager_config * Z) :=
  let '(parsed, seen) := s in
  let line := trim (c_string buffer) in
  let first := byte_at line 0 in
  if (first =? 0) || (first =? 35) || (first =? 59) then Some (parsed, seen)
  else
    '(before, after) ← separate line;
    let key := trim before in
    let value := trim after in
    field ← config_field key;
    if negb (Z.land seen field =? 0) then None
    else
      number ← parse_u32 value;
      parsed ← store_setting parsed field number;
      Some (parsed, Z.lor seen field).

Fixpoint config_lines (s : is_memory_manager_config * Z) (buffers : list (list Z)) :
    option (is_memory_manager_config * Z) :=
  match buffers with
  | [] => Some s
  | buffer :: buffers => s ← config_line s buffer; config_lines s buffers
  end.

(** [file] is none when it cannot be opened. *)
Definition is_memory_manager_config_load (file : option config_file) :
    is_memory_result + is_memory_manager_config :=
  match file with
  | None => inl IS_MEMORY_CONFIG_INVALID
  | Some file =>
      match config_lines (zero_config, 0) (fgets_lines 255 [] (cf_bytes file)) with
      | None => inl IS_MEMORY_CONFIG_INVALID
      | Some (parsed, seen) =>
          if cf_error file || negb (seen =? 15) || negb (config_valid parsed)
          then inl IS_MEMORY_CONFIG_INVALID
          else inr parsed
      end
  end.

(** ** The host's available memory *)

(** [sscanf(buffer, "MemAvailable: %llu %15s", ...)] when it converts both; a
    number out of range is read as the largest, as [strtoull] returns it. *)
Definition scan_available (buffer : list Z) : option (Z * list Z) :=
  let line := c_string buffer in
  let prefix := chars "MemAvailable:" in
  if negb (bool_decide (take (length prefix) line = prefix)) then None
  else
    let rest := drop_while is_space (drop (length prefix) line) in
    let start := if (byte_at rest 0 =? 45) || (byte_at rest 0 =? 43) then drop 1 rest else rest in
    if negb (is_digit (byte_at start 0)) then None
    else
      let kib := match strtoull rest with Some (n, _) => n | None => UINT64_MAX end in
      let unit :=
        take 15 (take_while (fun c => negb (is_space c))
                   (drop_while is_space (drop_while is_digit start))) in
      if bool_decide (unit = []) then None else Some (kib, unit).

Fixpoint first_available (buffers : list (list Z)) : option Z :=
  match buffers with
  | [] => None
  | buffer :: buffers =>
      match scan_available buffer with
      | None => first_available buffers
      | Some (kib, unit) =>
          if negb (bool_decide (unit = chars "kB")) || (UINT64_MAX / 1024 <? kib) then None
          else Some (u64 (kib * 1024))
      end
  end.

(** The bytes available; [file] is /proc/meminfo, if it opens.  None for the
    result -1. *)
Definition linux_read_available_bytes (file : option (list Z)) : option Z :=
  match file with
  | None => None
  | Some bytes => first_available (fgets_lines 255 [] bytes)
  end.

(** ** Names *)

Definition is_memory_result_name (result : is_memory_result) : string :=
  match result with
  | IS_MEMORY_OK => "ok"
  | IS_MEMORY_INVALID_ARGUMENT => "invalid argument"
  | IS_MEMORY_CONFIG_INVALID => "invalid configuration"
  | IS_MEMORY_ACCOUNTING_FAILED => "memory accounting failed"
  | IS_MEMORY_ALLOCATION_FAILED => "chunk allocation failed"
  | IS_MEMORY_TOUCH_FAILED => "chunk touch failed"
  | IS_MEMORY_REGISTRATION_FAILED => "RDMA registration failed"
  | IS_MEMORY_CLEANUP_FAILED => "resource cleanup failed"
  | IS_MEMORY_CONNECTION_LIMIT => "connection limit exceeded"
  | IS_MEMORY_QUOTA_EXCEEDED => "Consumer quota exceeded"
  | IS_MEMORY_POOL_EXHAUSTED => "pool limit exceeded"
  | IS_MEMORY_HOST_RESERVE => "Host Reserve would be violated"
  | IS_MEMORY_NOT_CONNECTED => "connection is not registered"
  | IS_MEMORY_NOT_FOUND => "chunk assignment not found"
  | IS_MEMORY_COMMITTED_PROTECTED => "committed assignment is protected"
  end.

Definition is_memory_rejection_name (rejection : is_memory_rejection_reason) : string :=
  match rejection with
  | IS_MEMORY_REJECTION_NONE => "none"
  | IS_MEMORY_REJECTION_INVALID_REQUEST => "invalid_request"
  | IS_MEMORY_REJECTION_CONNECTION_LIMIT => "connection_limit"
  | IS_MEMORY_REJECTION_CONSUMER_QUOTA => "consumer_quota"
  | IS_MEMORY_REJECTION_POOL_LIMIT => "pool_limit"
  | IS_MEMORY_REJECTION_HOST_RESERVE => "host_reserve"
  | IS_MEMORY_REJECTION_ACCOUNTING_FAILED => "memory_accounting_failed"
  | IS_MEMORY_REJECTION_ALLOCATION_FAILED => "allocation_failed"
  | IS_MEMORY_REJECTION_TOUCH_FAILED => "touch_failed"
  | IS_MEMORY_REJECTION_REGISTRATION_FAILED => "registration_failed"
  | IS_MEMORY_REJECTION_CLEANUP_FAILED => "cleanup_failed"
  | IS_MEMORY_REJECTION_COMMITTED_PROTECTED => "committed_protected"
  end.
