(* ===== verification/Observability.v ===== *)
(** * What the provider reports
      (src/infiniswap_daemon/infiniswap_observability.c, .h)

    A snapshot of the daemon rendered as JSON and as OpenMetrics text, into a
    buffer of a given size. *)
From Stdlib Require Import Strings.String Strings.Ascii.
From S2P Require Import Prelude Protocol Text MemoryManager MemoryConfig.

Definition IS_PROVIDER_OBSERVABILITY_MAX_CONSUMERS : Z := 64.
Definition IS_PROVIDER_OBSERVABILITY_ID_MAX : Z := 63.
Definition INT_MAX : Z := 2 ^ 31 - 1.

(** ** Snapshots *)

Inductive is_observability_result :=
| IS_OBSERVABILITY_OK
| IS_OBSERVABILITY_INVALID
| IS_OBSERVABILITY_NO_SPACE.

#[export] Instance is_observability_result_eq_dec : EqDecision is_observability_result.
Proof. solve_decision. Defined.

Inductive is_provider_consumer_state :=
| IS_PROVIDER_CONSUMER_CONNECTING
| IS_PROVIDER_CONSUMER_READY
| IS_PROVIDER_CONSUMER_DEGRADED
| IS_PROVIDER_CONSUMER_CLOSED.

#[export] Instance is_provider_consumer_state_eq_dec : EqDecision is_provider_consumer_state.
Proof. solve_decision. Defined.

Record is_provider_consumer_snapshot := {
  oc_consumer_id : list Z;
  oc_state : is_provider_consumer_state;
  oc_mode : Z;
  oc_pool : Z;
  oc_failure_deadline_ms : Z;
  oc_connection_count : Z;
  oc_assigned_opportunistic_chunks : Z;
  oc_assigned_committed_chunks : Z;
  oc_inflight_control_requests : Z;
  oc_last_error_code : Z
}.

#[export] Instance consumer_snapshot_eta : Eta is_provider_consumer_snapshot := fun c =>
  {| oc_consumer_id := oc_consumer_id c; oc_state := oc_state c; oc_mode := oc_mode c;
     oc_pool := oc_pool c; oc_failure_deadline_ms := oc_failure_deadline_ms c;
     oc_connection_count := oc_connection_count c;
     oc_assigned_opportunistic_chunks := oc_assigned_opportunistic_chunks c;
     oc_assigned_committed_chunks := oc_assigned_committed_chunks c;
     oc_inflight_control_requests := oc_inflight_control_requests c;
     oc_last_error_code := oc_last_error_code c |}.

Definition zero_consumer : is_provider_consumer_snapshot :=
  {| oc_consumer_id := zeros 64; oc_state := IS_PROVIDER_CONSUMER_CONNECTING; oc_mode := 0;
     oc_pool := 0; oc_failure_deadline_ms := 0; oc_connection_count := 0;
     oc_assigned_opportunistic_chunks := 0; oc_assigned_committed_chunks := 0;
     oc_inflight_control_requests := 0; oc_last_error_code := 0 |}.

(** [os_consumers] is the array of 64 entries, [os_consumer_count] of them in
    use. *)
Record is_provider_observability_snapshot := {
  os_provider_id : list Z;
  os_healthy : bool;
  os_host_reserve_chunks : Z;
  os_max_opportunistic_chunks : Z;
  os_max_committed_chunks : Z;
  os_allocated_opportunistic_chunks : Z;
  os_assigned_opportunistic_chunks : Z;
  os_allocated_committed_chunks : Z;
  os_assigned_committed_chunks : Z;
  os_available_opportunistic_chunks : Z;
  os_available_committed_chunks : Z;
  os_quarantined_chunks : Z;
  os_active_connections : Z;
  os_admissions_total : Z;
  os_admission_rejections_total : Z;
  os_pressure_reclaims_total : Z;
  os_authentication_failures_total : Z;
  os_deadline_expiries_total : Z;
  os_connections_total : Z;
  os_disconnections_total : Z;
  os_control_errors_total : Z;
  os_last_rejection : is_memory_rejection_reason;
  os_consumer_count : Z;
  os_consumers : list is_provider_consumer_snapshot
}.

#[export] Instance snapshot_eta : Eta is_provider_observability_snapshot := fun s =>
  {| os_provider_id := os_provider_id s; os_healthy := os_healthy s;
     os_host_reserve_chunks := os_host_reserve_chunks s;
     os_max_opportunistic_chunks := os_max_opportunistic_chunks s;
     os_max_committed_chunks := os_max_committed_chunks s;
     os_allocated_opportunistic_chunks := os_allocated_opportunistic_chunks s;
     os_assigned_opportunistic_chunks := os_assigned_opportunistic_chunks s;
     os_allocated_committed_chunks := os_allocated_committed_chunks s;
     os_assigned_committed_chunks := os_assigned_committed_chunks s;
     os_available_opportunistic_chunks := os_available_opportunistic_chunks s;
     os_available_committed_chunks := os_available_committed_chunks s;
     os_quarantined_chunks := os_quarantined_chunks s;
     os_active_connections := os_active_connections s;
     os_admissions_total := os_admissions_total s;
     os_admission_rejections_total := os_admission_rejections_total s;
     os_pressure_reclaims_total := os_pressure_reclaims_total s;
     os_authentication_failures_total := os_authentication_failures_total s;
     os_deadline_expiries_total := os_deadline_expiries_total s;
     os_connections_total := os_connections_total s;
     os_disconnections_total := os_disconnections_total s;
     os_control_errors_total := os_control_errors_total s;
     os_last_rejection := os_last_rejection s; os_consumer_count := os_consumer_count s;
     os_consumers := os_consumers s |}.

Definition consumer_at (s : is_provider_observability_snapshot) (index : Z) :
    is_provider_consumer_snapshot := nth (Z.to_nat index) (os_consumers s) zero_consumer.

(** ** Formats *)

(** The characters of a C literal: an apostrophe stands for a double quote, and
    [\n] and [\r] are the escapes. *)
Fixpoint literal (s : string) : list Z :=
  match s with
  | EmptyString => []
  | String c s' =>
      let c := Z.of_nat (nat_of_ascii c) in
      if c =? 92 then
        match s' with
        | EmptyString => []
        | String e s'' => (if Z.of_nat (nat_of_ascii e) =? 110 then 10 else 13) :: literal s''
        end
      else (if c =? 39 then 34 else c) :: literal s'
  end.

Inductive argument := Text (s : list Z) | Number (n : Z).

Definition show (a : argument) : list Z :=
  match a with Text s => s | Number n => print_unsigned n end.

(** What [printf] makes of the conversions [%s], [%u], [%d], [%lu] and [%zu] of
    unsigned numbers: [conversion] is set after a [%]. *)
Fixpoint printf_from (conversion : bool) (format : list Z) (arguments : list argument) : list Z :=
  match format with
  | [] => []
  | c :: format =>
      if conversion then
        if (c =? 115) || (c =? 117) || (c =? 100) then
          match arguments with
          | [] => []
          | a :: arguments => show a ++ printf_from false format arguments
          end
        else printf_from true format arguments
      else if c =? 37 then printf_from true format arguments
      else c :: printf_from false format arguments
  end.

Definition printf (format : string) (arguments : list argument) : list Z :=
  printf_from false (literal format) arguments.

(** [vsnprintf(data + offset, size, ...)]: the text cut to [size - 1]
    characters and its NUL, and the number of characters of the whole text. *)
Definition vsnprintf (data : list Z) (offset size : Z) (text : list Z) : list Z * Z :=
  let length := Z.of_nat (length text) in
  if INT_MAX <? length then (data, -1)
  else if size =? 0 then (data, length)
  else (buf_write data offset (take (Z.to_nat (size - 1)) text ++ [0]), length).

Record output_buffer := {
  ob_data : list Z;
  ob_capacity : Z;
  ob_length : Z;
  ob_failed : bool
}.

#[export] Instance output_buffer_eta : Eta output_buffer := fun b =>
  {| ob_data := ob_data b; ob_capacity := ob_capacity b; ob_length := ob_length b;
     ob_failed := ob_failed b |}.

(** [append(buffer, format, ...)], with the text the format makes. *)
Definition append (b : output_buffer) (text : list Z) : output_buffer :=
  if ob_failed b then b
  else
    let '(data, written) := vsnprintf (ob_data b) (ob_length b) (ob_capacity b - ob_length b) text in
    let b := b <| ob_data := data |> in
    if (written <? 0) || (ob_capacity b - ob_length b <=? written)
    then b <| ob_failed := true |>
    else b <| ob_length := ob_length b + written |>.

(** ** Names *)

Definition identifier_valid (value : list Z) : bool :=
  if byte_at value 0 =? 0 then false
  else
    match for_err (Z.to_nat (IS_PROVIDER_OBSERVABILITY_ID_MAX + 1)) 0 (fun index _ =>
        let character := byte_at value index in
        if character =? 0 then inl true
        else if negb (((97 <=? character) && (character <=? 122)) ||
                      ((65 <=? character) && (character <=? 90)) ||
                      ((48 <=? character) && (character <=? 57)) ||
                      (character =? 46) || (character =? 95) || (character =? 45))
        then inl false
        else inr tt) tt with
    | inl valid => valid
    | inr _ => false
    end.

Definition consumer_state_name (state : is_provider_consumer_state) : list Z :=
  chars match state with
        | IS_PROVIDER_CONSUMER_CONNECTING => "connecting"
        | IS_PROVIDER_CONSUMER_READY => "ready"
        | IS_PROVIDER_CONSUMER_DEGRADED => "degraded"
        | IS_PROVIDER_CONSUMER_CLOSED => "closed"
        end.

Definition mode_name (mode : Z) : list Z :=
  chars (if mode =? IS_PROTOCOL_MODE_BACKED then "backed"
         else if mode =? IS_PROTOCOL_MODE_REMOTE_ONLY then "remote-only" else "unknown").

Definition pool_name (pool : Z) : list Z :=
  chars (if pool =? IS_PROTOCOL_POOL_OPPORTUNISTIC then "opportunistic"
         else if pool =? IS_PROTOCOL_POOL_COMMITTED then "committed" else "unknown").

Definition snapshot_valid (snapshot : is_provider_observability_snapshot) : bool :=
  if negb (identifier_valid (os_provider_id snapshot)) ||
     (IS_PROVIDER_OBSERVABILITY_MAX_CONSUMERS <? os_consumer_count snapshot)
  then false
  else negb (exists_below (os_consumer_count snapshot) (fun index =>
    negb (identifier_valid (oc_consumer_id (consumer_at snapshot index))))).

(** ** JSON *)

Definition append_pool_json (b : output_buffer) (name : string)
    (maximum allocated assigned available : Z) : output_buffer :=
  append b (printf
    "{'name':'%s','max_chunks':%u,'allocated_chunks':%u,'assigned_chunks':%u,'available_chunks':%u}"
    [Text (chars name); Number maximum; Number allocated; Number assigned; Number available]).

(** The consumer's object in the loop of [render_status]. *)
Definition append_consumer_json (b : output_buffer) (index : Z)
    (consumer : is_provider_consumer_snapshot) : output_buffer :=
  append b (printf
    "%s{'consumer_id':'%s','state':'%s','mode':'%s','pool':'%s','failure_deadline_ms':%u,'connection_count':%u,'assigned_opportunistic_chunks':%u,'assigned_committed_chunks':%u,'inflight_control_requests':%u,'last_error_code':%u}"
    [Text (if index =? 0 then [] else chars ","); Text (c_string (oc_consumer_id consumer));
     Text (consumer_state_name (oc_state consumer)); Text (mode_name (oc_mode consumer));
     Text (pool_name (oc_pool consumer)); Number (oc_failure_deadline_ms consumer);
     Number (oc_connection_count consumer); Number (oc_assigned_opportunistic_chunks consumer);
     Number (oc_assigned_committed_chunks consumer);
     Number (oc_inflight_control_requests consumer); Number (oc_last_error_code consumer)]).

Definition append_status (snapshot : is_provider_observability_snapshot) (b : output_buffer) :
    output_buffer :=
  let b := append b (printf
    "{'schema_version':1,'kind':'infiniswap.provider-status','provider':{'provider_id':'%s','state':'%s','active_connections':%u},'pools':["
    [Text (c_string (os_provider_id snapshot));
     Text (chars (if os_healthy snapshot then "healthy" else "degraded"));
     Number (os_active_connections snapshot)]) in
  let b := append_pool_json b "opportunistic" (os_max_opportunistic_chunks snapshot)
    (os_allocated_opportunistic_chunks snapshot) (os_assigned_opportunistic_chunks snapshot)
    (os_available_opportunistic_chunks snapshot) in
  let b := append b (printf "," []) in
  let b := append_pool_json b "committed" (os_max_committed_chunks snapshot)
    (os_allocated_committed_chunks snapshot) (os_assigned_committed_chunks snapshot)
    (os_available_committed_chunks snapshot) in
  let b := append b (printf
    "],'chunks':{'size_bytes':%lu,'host_reserve_chunks':%u,'allocated_chunks':%u,'assigned_chunks':%u,'quarantined_chunks':%u},'consumers':["
    [Number IS_MEMORY_CHUNK_BYTES; Number (os_host_reserve_chunks snapshot);
     Number (u32 (os_allocated_opportunistic_chunks snapshot + os_allocated_committed_chunks snapshot));
     Number (u32 (os_assigned_opportunistic_chunks snapshot + os_assigned_committed_chunks snapshot));
     Number (os_quarantined_chunks snapshot)]) in
  let b := for_loop (Z.to_nat (os_consumer_count snapshot)) 0
    (fun index b => append_consumer_json b index (consumer_at snapshot index)) b in
  let b := append b (printf
    "],'metrics':{'admissions_total':%lu,'admission_rejections_total':%lu,'pressure_reclaims_total':%lu,'authentication_failures_total':%lu,'deadline_expiries_total':%lu,'connections_total':%lu,'disconnections_total':%lu,'control_errors_total':%lu},"
    [Number (os_admissions_total snapshot); Number (os_admission_rejections_total snapshot);
     Number (os_pressure_reclaims_total snapshot);
     Number (os_authentication_failures_total snapshot);
     Number (os_deadline_expiries_total snapshot); Number (os_connections_total snapshot);
     Number (os_disconnections_total snapshot); Number (os_control_errors_total snapshot)]) in
  if bool_decide (os_last_rejection snapshot = IS_MEMORY_REJECTION_NONE)
  then append b (printf "'last_error':null}\n" [])
  else append b (printf "'last_error':{'code':'%s'}}\n"
         [Text (chars (is_memory_rejection_name (os_last_rejection snapshot)))]).

(** What the two renderers share: the checks, the empty output and the
    result. *)
Definition render (body : is_provider_observability_snapshot -> output_buffer -> output_buffer)
    (snapshot : option is_provider_observability_snapshot) (output : option (list Z))
    (output_size : Z) : option (list Z) * is_observability_result :=
  match output, snapshot with
  | Some data, Some snapshot =>
      if (output_size =? 0) || negb (snapshot_valid snapshot)
      then (output, IS_OBSERVABILITY_INVALID)
      else
        let b := body snapshot
          {| ob_data := buf_write data 0 [0]; ob_capacity := output_size; ob_length := 0;
             ob_failed := false |} in
        (Some (ob_data b), if ob_failed b then IS_OBSERVABILITY_NO_SPACE else IS_OBSERVABILITY_OK)
  | _, _ => (output, IS_OBSERVABILITY_INVALID)
  end.

Definition is_provider_observability_render_status :=
  render append_status.

(** ** OpenMetrics *)

Definition append_gauge (b : output_buffer) (name : string) (labels : list Z) (value : Z) :
    output_buffer :=
  append b (printf "%s%s %lu\n" [Text (chars name); Text labels; Number value]).

Definition append_counter (b : output_buffer) (name : string) (provider : list Z) (value : Z) :
    output_buffer :=
  append b (printf "# TYPE %s counter\n%s{provider='%s'} %lu\n"
    [Text (chars name); Text (chars name); Text provider; Number value]).

(** [snprintf(labels, sizeof(labels), ...)]: what the array of 256 characters
    holds, as a string. *)
Definition snprintf_labels (format : string) (arguments : list argument) : list Z :=
  take 255 (printf format arguments).

Definition metric_types : string :=
 ("# infiniswap_metrics_schema_version 1\n" ++
  "# TYPE infiniswap_provider_healthy gauge\n" ++
  "# TYPE infiniswap_provider_active_connections gauge\n" ++
  "# TYPE infiniswap_provider_pool_max_chunks gauge\n" ++
  "# TYPE infiniswap_provider_pool_allocated_chunks gauge\n" ++
  "# TYPE infiniswap_provider_pool_assigned_chunks gauge\n" ++
  "# TYPE infiniswap_provider_pool_available_chunks gauge\n" ++
  "# TYPE infiniswap_provider_quarantined_chunks gauge\n" ++
  "# TYPE infiniswap_provider_host_reserve_chunks gauge\n" ++
  "# TYPE infiniswap_provider_consumer_connected gauge\n" ++
  "# TYPE infiniswap_provider_consumer_failure_deadline_milliseconds gauge\n" ++
  "# TYPE infiniswap_provider_consumer_inflight_control_requests gauge\n" ++
  "# TYPE infiniswap_provider_consumer_assigned_chunks gauge\n")%string.

(** The four gauges of a pool. *)
Definition append_pool_gauges (b : output_buffer) (labels : list Z)
    (maximum allocated assigned available : Z) : output_buffer :=
  let b := append_gauge b "infiniswap_provider_pool_max_chunks" labels maximum in
  let b := append_gauge b "infiniswap_provider_pool_allocated_chunks" labels allocated in
  let b := append_gauge b "infiniswap_provider_pool_assigned_chunks" labels assigned in
  append_gauge b "infiniswap_provider_pool_available_chunks" labels available.

(** The consumer's gauges in the loop of [render_metrics]. *)
Definition append_consumer_gauges (b : output_buffer) (provider : list Z)
    (consumer : is_provider_consumer_snapshot) : output_buffer :=
  let names := [Text provider; Text (c_string (oc_consumer_id consumer))] in
  let labels := snprintf_labels "{provider='%s',consumer='%s'}" names in
  let b := append_gauge b "infiniswap_provider_consumer_connected" labels
    (if bool_decide (oc_state consumer = IS_PROVIDER_CONSUMER_READY) then 1 else 0) in
  let b := append_gauge b "infiniswap_provider_consumer_failure_deadline_milliseconds" labels
    (oc_failure_deadline_ms consumer) in
  let b := append_gauge b "infiniswap_provider_consumer_inflight_control_requests" labels
    (oc_inflight_control_requests consumer) in
  let labels := snprintf_labels "{provider='%s',consumer='%s',pool='opportunistic'}" names in
  let b := append_gauge b "infiniswap_provider_consumer_assigned_chunks" labels
    (oc_assigned_opportunistic_chunks consumer) in
  let labels := snprintf_labels "{provider='%s',consumer='%s',pool='committed'}" names in
  append_gauge b "infiniswap_provider_consumer_assigned_chunks" labels
    (oc_assigned_committed_chunks consumer).

Definition append_metrics (snapshot : is_provider_observability_snapshot) (b : output_buffer) :
    output_buffer :=
  let provider := c_string (os_provider_id snapshot) in
  let b := append b (printf metric_types []) in
  let labels := snprintf_labels "{provider='%s'}" [Text provider] in
  let b := append_gauge b "infiniswap_provider_healthy" labels
    (if os_healthy snapshot then 1 else 0) in
  let b := append_gauge b "infiniswap_provider_active_connections" labels
    (os_active_connections snapshot) in
  let labels := snprintf_labels "{provider='%s',pool='opportunistic'}" [Text provider] in
  let b := append_pool_gauges b labels (os_max_opportunistic_chunks snapshot)
    (os_allocated_opportunistic_chunks snapshot) (os_assigned_opportunistic_chunks snapshot)
    (os_available_opportunistic_chunks snapshot) in
  let labels := snprintf_labels "{provider='%s',pool='committed'}" [Text provider] in
  let b := append_pool_gauges b labels (os_max_committed_chunks snapshot)
    (os_allocated_committed_chunks snapshot) (os_assigned_committed_chunks snapshot)
    (os_available_committed_chunks snapshot) in
  let labels := snprintf_labels "{provider='%s'}" [Text provider] in
  let b := append_gauge b "infiniswap_provider_quarantined_chunks" labels
    (os_quarantined_chunks snapshot) in
  let b := append_gauge b "infiniswap_provider_host_reserve_chunks" labels
    (os_host_reserve_chunks snapshot) in
  let b := for_loop (Z.to_nat (os_consumer_count snapshot)) 0
    (fun index b => append_consumer_gauges b provider (consumer_at snapshot index)) b in
  let b := append_counter b "infiniswap_provider_admissions_total" provider
    (os_admissions_total snapshot) in
  let b := append_counter b "infiniswap_provider_admission_rejections_total" provider
    (os_admission_rejections_total snapshot) in
  let b := append_counter b "infiniswap_provider_pressure_reclaims_total" provider
    (os_pressure_reclaims_total snapshot) in
  let b := append_counter b "infiniswap_provider_authentication_failures_total" provider
    (os_authentication_failures_total snapshot) in
  let b := append_counter b "infiniswap_provider_deadline_expiries_total" provider
    (os_deadline_expiries_total snapshot) in
  let b := append_counter b "infiniswap_provider_connections_total" provider
    (os_connections_total snapshot) in
  let b := append_counter b "infiniswap_provider_disconnections_total" provider
    (os_disconnections_total snapshot) in
  let b := append_counter b "infiniswap_provider_control_errors_total" provider
    (os_control_errors_total snapshot) in
  append b (printf "# EOF\n" []).

Definition is_provider_observability_render_metrics :=
  render append_metrics.

(** * The server
      (src/infiniswap_daemon/infiniswap_observability_server.c, .h)

    A thread that answers one HTTP request per connection.  A client is what
    its socket will answer to each call; a call it never answers keeps the
    thread waiting, which is [None] below. *)

Definition IS_OBSERVABILITY_RESPONSE_MAX : Z := 262144.
Definition IS_OBSERVABILITY_REQUEST_MAX : Z := 1024.

(** [recv] fails with [EINTR], delivers bytes (none at the end of the stream),
    or fails; [send] fails with [EINTR], or returns a number. *)
Inductive incoming := RecvInterrupted | RecvBytes (bytes : list Z) | RecvFailed.
Inductive accepting := SendInterrupted | SendResult (n : Z).

Record client := {
  cl_incoming : list incoming;
  cl_accepting : list accepting;
  cl_sent : list Z
}.

#[export] Instance client_eta : Eta client := fun c =>
  {| cl_incoming := cl_incoming c; cl_accepting := cl_accepting c; cl_sent := cl_sent c |}.

(** The loop of [send_all], over the answers of [send]. *)
Fixpoint send_loop (calls : list accepting) (data : list Z) (c : client) : option (client * Z) :=
  match data with
  | [] => Some (c <| cl_accepting := calls |>, 0)
  | _ :: _ =>
      match calls with
      | [] => None
      | SendInterrupted :: calls => send_loop calls data c
      | SendResult n :: calls =>
          if n <=? 0 then Some (c <| cl_accepting := calls |>, -1)
          else send_loop calls (drop (Z.to_nat n) data)
                 (c <| cl_sent := cl_sent c ++ take (Z.to_nat n) data |>)
      end
  end.

Definition send_all (c : client) (data : list Z) : option (client * Z) :=
  send_loop (cl_accepting c) data c.

Definition http_header (status : Z) (content_type : string) (body_size : Z) : list Z :=
  printf
    "HTTP/1.1 %d %s\r\nContent-Type: %s\r\nContent-Length: %zu\r\nConnection: close\r\nCache-Control: no-store\r\n\r\n"
    [Number status;
     Text (chars (if status =? 200 then "OK"
                  else if status =? 404 then "Not Found" else "Service Unavailable"));
     Text (chars content_type); Number body_size].

Definition send_response (c : client) (status : Z) (content_type : string) (body : list Z) :
    option client :=
  let header := http_header status content_type (Z.of_nat (length body)) in
  let header_size := Z.of_nat (length header) in
  if (header_size <=? 0) || (512 <=? header_size) then Some c
  else
    match send_all c header with
    | None => None
    | Some (c, result) => if result =? 0 then fst <$> send_all c body else Some c
    end.

(** [strncmp(s, prefix, strlen(prefix)) == 0] *)
Definition starts_with (prefix : string) (s : list Z) : bool :=
  bool_decide (take (length (chars prefix)) (c_string s) = chars prefix).

(** [strstr(s, needle)] finds one. *)
Fixpoint strstr (s needle : list Z) : bool :=
  bool_decide (take (length needle) s = needle) ||
  match s with [] => false | _ :: s => strstr s needle end.

(** The loop of [read_request], over the answers of [recv]: the request, or
    none for the result -1. *)
Fixpoint read_loop (calls : list incoming) (request : list Z) : option (option (list Z)) :=
  let used := Z.of_nat (length request) in
  if IS_OBSERVABILITY_REQUEST_MAX <=? used + 1 then Some None
  else
    match calls with
    | [] => None
    | RecvInterrupted :: calls => read_loop calls request
    | RecvFailed :: _ => Some None
    | RecvBytes bytes :: calls =>
        let received := take (Z.to_nat (IS_OBSERVABILITY_REQUEST_MAX - used - 1)) bytes in
        if bool_decide (received = []) then Some None
        else
          let request := request ++ received in
          if strstr (c_string request) (literal "\r\n\r\n") then Some (Some request)
          else read_loop calls request
    end.

Definition read_request (c : client) : option (option (list Z)) := read_loop (cl_incoming c) [].

Section Serving.
Context {S : Type}.

(** [server->snapshot], on the state it reads. *)
Context (take_snapshot : S -> S * option is_provider_observability_snapshot).

Definition plain : string := "text/plain; charset=utf-8".

Definition send_rendered (c : client) (content_type : string)
    (rendered : option (list Z) * is_observability_result) : option client :=
  match rendered with
  | (Some body, IS_OBSERVABILITY_OK) => send_response c 200 content_type (c_string body)
  | _ => send_response c 503 plain (literal "render unavailable\n")
  end.

(** [body] is the array [malloc] returns. *)
Definition serve_client (body : option (list Z)) (s : S) (c : client) : option (S * client) :=
  match read_request c with
  | None => None
  | Some None => Some (s, c)
  | Some (Some request) =>
      if negb (starts_with "GET /" request)
      then pair s <$> send_response c 404 plain (literal "not found\n")
      else
        let '(s, snapshot) := take_snapshot s in
        pair s <$>
        match snapshot with
        | None => send_response c 503 plain (literal "snapshot unavailable\n")
        | Some snapshot =>
            if starts_with "GET /healthz HTTP/1." request
            then send_response c (if os_healthy snapshot then 200 else 503) plain
                   (if os_healthy snapshot then literal "healthy\n" else literal "degraded\n")
            else
              match body with
              | None => send_response c 503 plain (literal "render unavailable\n")
              | Some body =>
                  if starts_with "GET /status HTTP/1." request
                  then send_rendered c "application/json; charset=utf-8"
                         (is_provider_observability_render_status (Some snapshot) (Some body)
                            IS_OBSERVABILITY_RESPONSE_MAX)
                  else if starts_with "GET /metrics HTTP/1." request
                  then send_rendered c "application/openmetrics-text; version=1.0.0; charset=utf-8"
                         (is_provider_observability_render_metrics (Some snapshot) (Some body)
                            IS_OBSERVABILITY_RESPONSE_MAX)
                  else send_response c 404 plain (literal "not found\n")
              end
        end
  end.

(** What [accept] returns: a client and the outcome of the [malloc] of its
    body, or an error and whether it is [EINTR]. *)
Inductive accepted := Accepted (c : client) (body : option (list Z)) | AcceptError (interrupted : bool).

(** The thread: each turn with [running] as the loop reads it, what [accept]
    returns and [running] as read after an error.  The clients served, closed
    in this order. *)
Fixpoint run_server (turns : list (bool * accepted * bool)) (s : S) (served : list client) :
    option (S * list client) :=
  match turns with
  | [] => None
  | (running, connection, still_running) :: turns =>
      if negb running then Some (s, served)
      else
        match connection with
        | AcceptError interrupted =>
            if interrupted then run_server turns s served
            else if negb still_running then Some (s, served)
            else run_server turns s served
        | Accepted c body =>
            match serve_client body s c with
            | None => None
            | Some (s, c) => run_server turns s (served ++ [c])
            end
        end
  end.
End Serving.

(** ** Starting and stopping *)

Record is_observability_server := {
  sv_listen_fd : Z;
  sv_running : bool;
  sv_port : Z;
  sv_thread : bool
}.

#[export] Instance server_eta : Eta is_observability_server := fun s =>
  {| sv_listen_fd := sv_listen_fd s; sv_running := sv_running s; sv_port := sv_port s;
     sv_thread := sv_thread s |}.

(** What the calls of [is_observability_server_start] return. *)
Record server_calls := {
  sc_socket : Z;
  sc_setsockopt : Z;
  sc_inet_pton : Z;
  sc_bind : Z;
  sc_listen : Z;
  sc_getsockname : Z;
  sc_port : Z;
  sc_pthread_create : Z
}.

(** The server, the descriptors closed and the result; [server] is what the
    caller's structure held. *)
Definition is_observability_server_start (server : is_observability_server) (address : list Z)
    (calls : server_calls) : is_observability_server * list Z * Z :=
  if negb (bool_decide (c_string address = chars "127.0.0.1")) then (server, [], -1)
  else
    let server :=
      {| sv_listen_fd := sc_socket calls; sv_running := false; sv_port := 0; sv_thread := false |} in
    let failed (server : is_observability_server) :=
      (server <| sv_listen_fd := -1 |>, [sv_listen_fd server], -1) in
    if sv_listen_fd server <? 0 then (server, [], -1)
    else if negb (sc_setsockopt calls =? 0) then failed server
    else if negb (sc_inet_pton calls =? 1) || negb (sc_bind calls =? 0) ||
            negb (sc_listen calls =? 0) || negb (sc_getsockname calls =? 0)
    then failed server
    else
      let server := server <| sv_port := sc_port calls |> <| sv_running := true |> in
      if negb (sc_pthread_create calls =? 0) then failed server
      else (server <| sv_thread := true |>, [], 0).

(** Returns once [run_server] has. *)
Definition is_observability_server_stop (server : is_observability_server) :
    is_observability_server * list Z :=
  if sv_listen_fd server <? 0 then (server, [])
  else (server <| sv_running := false |> <| sv_listen_fd := -1 |> <| sv_thread := false |>,
        [sv_listen_fd server]).
