(* ===== verification/ObservabilityText.v ===== *)
(** * The text the provider reports

    Appending to the output buffer is appending to the text: the renderers
    leave exactly their text in the buffer, or as much of it as it holds.  The
    status is the compact form of a JSON value, which a reader recovers. *)
From Stdlib Require Import Strings.String Strings.Ascii.
From S2P Require Import Prelude Protocol Text MemoryManager MemoryConfig Observability.

(** ** Buffers *)

(** The output of [size] characters into which [text] has been appended: all
    of it, or what fits of it if that is not all. *)
Record holds (data : list Z) (size : Z) (text : list Z) (b : output_buffer) : Prop := {
  hl_capacity : ob_capacity b = size;
  hl_data : ob_data b = buf_write data 0 (take (Z.to_nat (size - 1)) text ++ [0]);
  hl_failed : ob_failed b = (size <=? Z.of_nat (length text));
  hl_length : Z.of_nat (length text) < size -> ob_length b = Z.of_nat (length text)
}.

Lemma buf_write_within data text x more :
  (length text + 1 <= length data)%nat -> (length more <= length data - length text)%nat ->
  (1 <= length more)%nat ->
  buf_write (buf_write data 0 (text ++ [x])) (Z.of_nat (length text)) more = buf_write data 0 (text ++ more).
Proof.
  intros H1 H2 H3. rewrite !buf_write_0 by (rewrite length_app; cbn; lia). unfold buf_write. rewrite Nat2Z.id.
  replace (length text) with (length text + 0)%nat at 1 by lia. rewrite <- !app_assoc.
  rewrite list_inserts_app_r. f_equal. change 0%nat with (Z.to_nat 0).
  change (list_inserts (Z.to_nat 0) more ([x] ++ drop (length (text ++ [x])) data))
    with (buf_write ([x] ++ drop (length (text ++ [x])) data) 0 more).
  rewrite buf_write_0 by (rewrite length_app, length_drop, length_app; cbn; lia).
  f_equal. destruct more as [|c more]; [cbn in H3; lia|]. cbn [length drop app].
  rewrite drop_drop, !length_app. cbn. f_equal. lia.
Qed.

Lemma holds_append data size text more b :
  size <= Z.of_nat (length data) -> Z.of_nat (length (text ++ more)) <= INT_MAX ->
  holds data size text b -> 0 < size -> holds data size (text ++ more) (append b more).
Proof.
  intros Hs Hm [E1 E2 E3 E4] Hp. rewrite length_app in Hm. unfold append. rewrite E3.
  destruct (Z.leb_spec size (Z.of_nat (length text))) as [Hf|Hf].
  { constructor; [done| | |].
    - by rewrite E2, take_app_le by lia.
    - rewrite E3, length_app, !(proj2 (Z.leb_le _ _)) by lia. done.
    - rewrite length_app. lia. }
  rewrite (E4 Hf) in *. unfold vsnprintf.
  replace (INT_MAX <? Z.of_nat (length more)) with false by lia.
  replace (ob_capacity b - Z.of_nat (length text) =? 0) with false by lia. cbn.
  replace (Z.of_nat (length more) <? 0) with false by lia. cbn.
  assert (Ed : buf_write (ob_data b) (Z.of_nat (length text))
     (take (Z.to_nat (ob_capacity b - Z.of_nat (length text) - 1)) more ++ [0]) =
     buf_write data 0 (take (Z.to_nat (size - 1)) (text ++ more) ++ [0])).
  { rewrite E2, E1, (take_ge text) by lia. rewrite buf_write_within.
    - rewrite take_app, (take_ge text) by lia. rewrite <- app_assoc.
      do 4 f_equal. lia.
    - lia.
    - rewrite length_app, length_take. cbn. lia.
    - rewrite length_app. cbn. lia. }
  cbn. rewrite (E4 Hf). destruct (Z.leb_spec (ob_capacity b - Z.of_nat (length text)) (Z.of_nat (length more))).
  - constructor; cbn; [done|exact Ed| |]; rewrite length_app; [by rewrite (proj2 (Z.leb_le _ _)) by lia|lia].
  - constructor; cbn; [done|exact Ed| |rewrite length_app; lia]. rewrite E3, length_app.
    by rewrite !(proj2 (Z.leb_gt _ _)) by lia.
Qed.

(** [f] appends [text]. *)
Definition written (f : output_buffer -> output_buffer) (text : list Z) : Prop :=
  forall data size before b,
    0 < size <= Z.of_nat (length data) -> Z.of_nat (length (before ++ text)) <= INT_MAX ->
    holds data size before b -> holds data size (before ++ text) (f b).

Lemma written_id : written (fun b => b) [].
Proof. intros data size before b Hs Hl Hb. by rewrite app_nil_r. Qed.

Lemma written_then f g t u : written f t -> written g u -> written (fun b => g (f b)) (t ++ u).
Proof.
  intros Hf Hg data size before b Hs Hl Hb. rewrite app_assoc. apply Hg; [done| |].
  - by rewrite <- app_assoc.
  - apply Hf; [done| |done]. revert Hl. rewrite !length_app. lia.
Qed.

Lemma written_append f t u : written f t -> written (fun b => append (f b) u) (t ++ u).
Proof.
  intros Hf. apply (written_then f (fun b => append b u)); [done|].
  intros data size before b Hs Hl Hb. apply holds_append; [lia|done|done|lia].
Qed.

(** The texts of a loop from [i] on. *)
Fixpoint texts (n : nat) (i : Z) (text : Z -> list Z) : list Z :=
  match n with
  | O => []
  | S n => text i ++ texts n (i + 1) text
  end.

Lemma written_loop n body text f t :
  (forall i, 0 <= i < Z.of_nat n -> written (body i) (text i)) -> written f t ->
  written (fun b => for_loop n 0 body (f b)) (t ++ texts n 0 text).
Proof.
  intros Hb Hf. apply (written_then f (fun b => for_loop n 0 body b)); [done|].
  assert (E : forall m i, (forall j, i <= j < i + Z.of_nat m -> written (body j) (text j)) ->
    written (fun b => for_loop m i body b) (texts m i text)).
  { induction m as [|m IH]; intros i Hi; cbn; [apply written_id|].
    apply (written_then (body i) (fun b => for_loop m (i + 1) body b)); [apply Hi; lia|].
    apply IH. intros j Hj. apply Hi. lia. }
  by apply E.
Qed.

Ltac writes :=
  repeat match goal with
  | |- written (fun b => append (@?f b) ?u) _ => apply (written_append f)
  | |- written (fun b => for_loop ?n 0 ?body (@?f b)) _ => eapply (written_loop n body _ f); [intros ? ?|]
  | |- written (fun b => b) _ => apply written_id
  end.

(** ** JSON *)

Inductive json :=
| JNull
| JNumber (n : Z)
| JString (s : list Z)
| JArray (items : list json)
| JObject (members : list (string * json)).

(** The compact form, followed by [k]. *)
Fixpoint print_json (j : json) (k : list Z) : list Z :=
  match j with
  | JNull => chars "null" ++ k
  | JNumber n => print_unsigned n ++ k
  | JString s => 34 :: s ++ 34 :: k
  | JArray items =>
      91 :: (fix print_items (separator : list Z) (l : list json) : list Z :=
               match l with
               | [] => 93 :: k
               | j :: l => separator ++ print_json j (print_items [44] l)
               end) [] items
  | JObject members =>
      123 :: (fix print_members (separator : list Z) (l : list (string * json)) : list Z :=
                match l with
                | [] => 125 :: k
                | (name, j) :: l =>
                    separator ++ 34 :: chars name ++ 34 :: 58 :: print_json j (print_members [44] l)
                end) [] members
  end.

Definition text_json (s : string) : json := JString (chars s).

Definition pool_json (name : string) (maximum allocated assigned available : Z) : json :=
  JObject [("name", text_json name); ("max_chunks", JNumber maximum);
           ("allocated_chunks", JNumber allocated); ("assigned_chunks", JNumber assigned);
           ("available_chunks", JNumber available)]%string.

Definition consumer_json (c : is_provider_consumer_snapshot) : json :=
  JObject [("consumer_id", JString (c_string (oc_consumer_id c)));
           ("state", JString (consumer_state_name (oc_state c)));
           ("mode", JString (mode_name (oc_mode c)));
           ("pool", JString (pool_name (oc_pool c)));
           ("failure_deadline_ms", JNumber (oc_failure_deadline_ms c));
           ("connection_count", JNumber (oc_connection_count c));
           ("assigned_opportunistic_chunks", JNumber (oc_assigned_opportunistic_chunks c));
           ("assigned_committed_chunks", JNumber (oc_assigned_committed_chunks c));
           ("inflight_control_requests", JNumber (oc_inflight_control_requests c));
           ("last_error_code", JNumber (oc_last_error_code c))]%string.

(** The consumers of a snapshot that are in use. *)
Definition consumers (s : is_provider_observability_snapshot) : list is_provider_consumer_snapshot :=
  (fun i => consumer_at s (Z.of_nat i)) <$> seq 0 (Z.to_nat (os_consumer_count s)).

Definition rejection_json (r : is_memory_rejection_reason) : json :=
  if bool_decide (r = IS_MEMORY_REJECTION_NONE) then JNull
  else JObject [("code", text_json (is_memory_rejection_name r))]%string.

Definition status_json (s : is_provider_observability_snapshot) : json :=
  JObject [("schema_version", JNumber 1);
    ("kind", text_json "infiniswap.provider-status");
    ("provider", JObject [("provider_id", JString (c_string (os_provider_id s)));
       ("state", text_json (if os_healthy s then "healthy" else "degraded"));
       ("active_connections", JNumber (os_active_connections s))]);
    ("pools", JArray [
       pool_json "opportunistic" (os_max_opportunistic_chunks s) (os_allocated_opportunistic_chunks s)
         (os_assigned_opportunistic_chunks s) (os_available_opportunistic_chunks s);
       pool_json "committed" (os_max_committed_chunks s) (os_allocated_committed_chunks s)
         (os_assigned_committed_chunks s) (os_available_committed_chunks s)]);
    ("chunks", JObject [("size_bytes", JNumber IS_MEMORY_CHUNK_BYTES);
       ("host_reserve_chunks", JNumber (os_host_reserve_chunks s));
       ("allocated_chunks",
         JNumber (u32 (os_allocated_opportunistic_chunks s + os_allocated_committed_chunks s)));
       ("assigned_chunks",
         JNumber (u32 (os_assigned_opportunistic_chunks s + os_assigned_committed_chunks s)));
       ("quarantined_chunks", JNumber (os_quarantined_chunks s))]);
    ("consumers", JArray (consumer_json <$> consumers s));
    ("metrics", JObject [("admissions_total", JNumber (os_admissions_total s));
       ("admission_rejections_total", JNumber (os_admission_rejections_total s));
       ("pressure_reclaims_total", JNumber (os_pressure_reclaims_total s));
       ("authentication_failures_total", JNumber (os_authentication_failures_total s));
       ("deadline_expiries_total", JNumber (os_deadline_expiries_total s));
       ("connections_total", JNumber (os_connections_total s));
       ("disconnections_total", JNumber (os_disconnections_total s));
       ("control_errors_total", JNumber (os_control_errors_total s))]);
    ("last_error", rejection_json (os_last_rejection s))]%string.

Definition status_text (s : is_provider_observability_snapshot) : list Z :=
  print_json (status_json s) [10].

(** [printf] before [k], over the shown arguments. *)
Fixpoint printf_onto (conversion : bool) (format : list Z) (arguments : list (list Z)) (k : list Z) :
    list Z :=
  match format with
  | [] => k
  | c :: format =>
      if conversion then
        if (c =? 115) || (c =? 117) || (c =? 100) then
          match arguments with
          | [] => k
          | a :: arguments => a ++ printf_onto false format arguments k
          end
        else printf_onto true format arguments k
      else if c =? 37 then printf_onto true format arguments k
      else c :: printf_onto false format arguments k
  end.

Lemma printf_before format arguments k :
  printf format arguments ++ k = printf_onto false (literal format) (show <$> arguments) k.
Proof.
  unfold printf. generalize (literal format) as f, false as conversion. clear format. intros f.
  revert arguments. induction f as [|c f IH]; intros arguments conversion; [done|]. cbn.
  destruct conversion; [|destruct (c =? 37); cbn; by rewrite IH].
  destruct (_ || _); [|apply IH]. destruct arguments as [|a arguments]; [done|]. cbn.
  by rewrite <- app_assoc, IH.
Qed.

Fixpoint print_items (separator : list Z) (l : list json) (k : list Z) : list Z :=
  match l with
  | [] => 93 :: k
  | j :: l => separator ++ print_json j (print_items [44] l k)
  end.

Lemma print_array l k : print_json (JArray l) k = 91 :: print_items [] l k.
Proof.
  cbn. f_equal. match goal with |- ?f [] l = _ => enough (E : forall sep, f sep l = print_items sep l k) by apply E end.
  induction l as [|j l IH]; intros sep; [done|]. cbn. by rewrite IH.
Qed.

Ltac formats :=
  rewrite ?printf_before; cbn [fmap list_fmap show print_json text_json];
  repeat match goal with
  | |- context [print_unsigned ?n] => generalize (print_unsigned n); intros ?
  | |- context [c_string ?x] => generalize (c_string x); intros ?
  | |- context [is_memory_rejection_name ?x] => generalize (chars (is_memory_rejection_name x)); intros ?
  end.

Lemma written_consumer s index :
  written (fun b => append_consumer_json b index (consumer_at s index))
    ((if index =? 0 then [] else [44]) ++ print_json (consumer_json (consumer_at s index)) []).
Proof.
  unfold append_consumer_json.
  assert (E : forall t u, t = u -> written (fun b => append b t) u).
  { intros t u <-. apply (written_append (fun b => b) []), written_id. }
  apply E. generalize (consumer_at s index). intros c.
  rewrite <- (app_nil_r (printf _ _)). unfold consumer_json. formats.
  generalize (consumer_state_name (oc_state c)), (mode_name (oc_mode c)), (pool_name (oc_pool c)).
  intros. destruct (index =? 0); vm_compute; reflexivity.
Qed.

Fixpoint print_members (separator : list Z) (l : list (string * json)) (k : list Z) : list Z :=
  match l with
  | [] => 125 :: k
  | (name, j) :: l => separator ++ 34 :: chars name ++ 34 :: 58 :: print_json j (print_members [44] l k)
  end.

Lemma print_object l k : print_json (JObject l) k = 123 :: print_members [] l k.
Proof.
  cbn. f_equal. match goal with |- ?f [] l = _ => enough (E : forall sep, f sep l = print_members sep l k) by apply E end.
  induction l as [|[name j] l IH]; intros sep; [done|]. cbn. by rewrite IH.
Qed.

(** The number of values in a value. *)
Fixpoint json_size (j : json) : nat :=
  match j with
  | JArray items => S (sum_list_with json_size items)
  | JObject members => S (sum_list_with (fun m => json_size m.2) members)
  | _ => 1
  end.

Lemma json_size_pos j : (0 < json_size j)%nat.
Proof. destruct j; cbn; lia. Qed.

Lemma print_json_app n j k l : (json_size j <= n)%nat -> print_json j k ++ l = print_json j (k ++ l).
Proof.
  revert j k. induction n as [|n IH]; intros j k Hn; [pose proof (json_size_pos j); lia|].
  destruct j as [|x|s|items|members].
  - done.
  - cbn. by rewrite app_assoc.
  - cbn. by rewrite <- app_assoc.
  - rewrite !print_array. cbn [app]. f_equal. generalize (@nil Z) as sep. cbn in Hn.
    induction items as [|j items IHi]; intros sep; [done|]. cbn in *.
    by rewrite <- app_assoc, IH, IHi by lia.
  - rewrite !print_object. cbn [app]. f_equal. generalize (@nil Z) as sep. cbn in Hn.
    induction members as [|[name j] members IHm]; intros sep; [done|]. cbn in *.
    rewrite <- app_assoc. cbn. rewrite <- app_assoc. cbn. by rewrite IH, IHm by lia.
Qed.

Lemma consumers_text s n i k :
  0 <= i ->
  texts n i (fun i => (if i =? 0 then [] else [44]) ++ print_json (consumer_json (consumer_at s i)) []) ++ 93 :: k
  = print_items (if i =? 0 then [] else [44])
      (consumer_json <$> ((fun i => consumer_at s (Z.of_nat i)) <$> seq (Z.to_nat i) n)) k.
Proof.
  revert i. induction n as [|n IH]; intros i Hi; [done|]. cbn [texts seq fmap list_fmap print_items].
  rewrite <- !app_assoc, IH, Z2Nat.id by lia. rewrite (print_json_app _ _ _ _ (le_n _)). cbn [app].
  replace (i + 1 =? 0) with false by lia. by replace (Z.to_nat (i + 1)) with (S (Z.to_nat i)) by lia.
Qed.

Lemma written_eq f t u : written f t -> t = u -> written f u.
Proof. by intros ? <-. Qed.

Lemma status_written s : written (append_status s) (status_text s).
Proof.
  unfold append_status, append_pool_json, status_text, status_json, rejection_json, pool_json.
  assert (E : forall k, 91 :: texts (Z.to_nat (os_consumer_count s)) 0
    (fun i => (if i =? 0 then [] else [44]) ++ print_json (consumer_json (consumer_at s i)) []) ++ 93 :: k =
    print_json (JArray (consumer_json <$> consumers s)) k).
  { intros k. rewrite print_array. f_equal. by apply (consumers_text s _ 0). }
  revert E. generalize (JArray (consumer_json <$> consumers s)) as J. intros J E.
  case_bool_decide; (eapply written_eq; [writes; apply written_consumer|]; revert E; set (T := texts _ _ _);
    clearbody T; intros E; rewrite <- (app_nil_r (_ ++ printf _ _)), <- !app_assoc;
    cbn [print_json text_json]; rewrite <- E; change (print_unsigned 1) with [49]; formats; destruct (os_healthy s); vm_compute; reflexivity).
Qed.

(** ** Sizes *)

(** At least the length of the compact form. *)
Fixpoint json_cost (j : json) : nat :=
  match j with
  | JNull => 4
  | JNumber _ => 20
  | JString s => (2 + length s)%nat
  | JArray items => (2 + sum_list_with (fun j => 1 + json_cost j) items)%nat
  | JObject members => (2 + sum_list_with (fun m => 4 + length (chars m.1) + json_cost m.2) members)%nat
  end.

Lemma length_print_digits fuel n : (length (print_digits fuel n) <= fuel)%nat.
Proof.
  revert n. induction fuel as [|fuel IH]; intros n; [done|]. cbn. destruct (n <? 10); [cbn; lia|].
  rewrite length_app. specialize (IH (n / 10)). cbn. lia.
Qed.

Lemma length_print_json n j k :
  (json_size j <= n)%nat -> (length (print_json j k) <= json_cost j + length k)%nat.
Proof.
  revert j k. induction n as [|n IH]; intros j k Hn; [pose proof (json_size_pos j); lia|].
  destruct j as [|x|s|items|members].
  - cbn. lia.
  - cbn [print_json json_cost]. rewrite length_app. pose proof (length_print_digits 20 x).
    unfold print_unsigned. lia.
  - cbn. rewrite length_app. cbn. lia.
  - rewrite print_array. cbn in *. enough (E : forall sep, (length sep <= 1)%nat ->
      (length (print_items sep items k) <= 1 + sum_list_with (fun j => 1 + json_cost j) items + length k)%nat).
    { specialize (E [] ltac:(cbn; lia)). cbn in E. lia. }
    induction items as [|j items IHi]; intros sep Hs; [cbn; lia|]. cbn in *. rewrite length_app.
    specialize (IHi ltac:(lia) [44] ltac:(cbn; lia)). specialize (IH j (print_items [44] items k) ltac:(lia)). lia.
  - rewrite print_object. cbn in *. enough (E : forall sep, (length sep <= 1)%nat ->
      (length (print_members sep members k) <=
         1 + sum_list_with (fun m => 4 + length (chars m.1) + json_cost m.2) members + length k)%nat).
    { specialize (E [] ltac:(cbn; lia)). cbn in E. lia. }
    induction members as [|[name j] members IHm]; intros sep Hs; [cbn; lia|]. cbn in *.
    rewrite length_app. cbn. rewrite length_app. cbn.
    specialize (IHm ltac:(lia) [44] ltac:(cbn; lia)). specialize (IH j (print_members [44] members k) ltac:(lia)). lia.
Qed.

(** ** Identifiers *)

Lemma identifier_valid_exact v :
  identifier_valid v = (0 <? Z.of_nat (length (c_string v))) && (Z.of_nat (length (c_string v)) <=? 63) &&
                       forallb identifier_char (c_string v).
Proof.
  unfold identifier_valid. assert (E0 : forall l, (byte_at l 0 =? 0) = bool_decide (c_string l = [])).
  { intros [|c l]; [done|]. change (byte_at (c :: l) 0) with c. cbn [c_string]. destruct (Z.eqb_spec c 0); symmetry; [by apply bool_decide_eq_true_2|by apply bool_decide_eq_false_2]. }
  rewrite E0. case_bool_decide as Ee; [by rewrite Ee|].
  set (body := fun index _ => _).
  assert (E : forall n i, 0 <= i -> match for_err n i body tt with inl b => b | inr _ => false end =
    (Z.of_nat (length (c_string (drop (Z.to_nat i) v))) <? Z.of_nat n) &&
    forallb identifier_char (c_string (drop (Z.to_nat i) v))).
  { induction n as [|n IH]; intros i Hi; [cbn -[Z.ltb]; by rewrite (proj2 (Z.ltb_ge _ _)) by lia|].
    cbn [for_err]. unfold body at 1.
    assert (Ed : byte_at v i = byte_at (drop (Z.to_nat i) v) 0) by (rewrite byte_at_drop by lia; f_equal; lia).
    specialize (IH (i + 1) ltac:(lia)). replace (Z.to_nat (i + 1)) with (1 + Z.to_nat i)%nat in IH by lia.
    rewrite Nat.add_comm, <- drop_drop in IH. rewrite Ed.
    destruct (drop (Z.to_nat i) v) as [|c l]; [done|]. change (byte_at (c :: l) 0) with c. cbn [drop c_string] in *.
    destruct (Z.eqb_spec c 0) as [->|]; [done|]. fold (identifier_char c). cbn [forallb length].
    destruct (identifier_char c); cbn -[Z.of_nat Z.ltb]; [|by rewrite andb_false_r].
    rewrite IH, drop_0. f_equal. destruct (Z.ltb_spec (Z.of_nat (length (c_string l))) (Z.of_nat n)); symmetry;
      [apply Z.ltb_lt|apply Z.ltb_ge]; lia. }
  rewrite E by lia. change (drop (Z.to_nat 0) v) with v. destruct (c_string v) as [|c l]; [done|].
  rewrite (proj2 (Z.ltb_lt 0 _)) by (cbn; lia). cbn [andb]. f_equal. change (Z.of_nat (Z.to_nat _)) with 64.
  destruct (Z.ltb_spec (Z.of_nat (length (c :: l))) 64); symmetry; [apply Z.leb_le|apply Z.leb_gt]; lia.
Qed.

(** An identifier of at most 63 characters. *)
Definition named (v : list Z) : Prop :=
  0 < Z.of_nat (length (c_string v)) <= 63 /\ Forall (fun c => identifier_char c = true) (c_string v).

Lemma identifier_valid_named v : identifier_valid v = true <-> named v.
Proof.
  rewrite identifier_valid_exact, !andb_true_iff, forallb_forall. unfold named.
  rewrite list.Forall_forall. setoid_rewrite list_elem_of_In.
  rewrite Z.ltb_lt, Z.leb_le. tauto.
Qed.

Record reportable (s : is_provider_observability_snapshot) : Prop := {
  rp_provider : named (os_provider_id s);
  rp_count : os_consumer_count s <= 64;
  rp_consumers : Forall (fun c => named (oc_consumer_id c)) (consumers s)
}.

Lemma snapshot_valid_reportable s : snapshot_valid s = true <-> reportable s.
Proof.
  unfold snapshot_valid. change IS_PROVIDER_OBSERVABILITY_MAX_CONSUMERS with 64.
  destruct (identifier_valid (os_provider_id s)) eqn:E1; cbn [negb orb].
  - apply identifier_valid_named in E1. destruct (Z.ltb_spec 64 (os_consumer_count s)).
    { split; [done|]. intros [_ ? _]. lia. }
    rewrite negb_true_iff, exists_below_false. split.
    + intros Hv. constructor; [done|lia|]. unfold consumers. apply list.Forall_fmap, list.Forall_forall. cbn.
      intros i Hi. apply identifier_valid_named. apply elem_of_seq in Hi.
      specialize (Hv (Z.of_nat i) ltac:(lia)). by apply negb_false_iff in Hv.
    + intros [_ _ Hc] i Hi. apply negb_false_iff, identifier_valid_named.
      unfold consumers in Hc. rewrite list.Forall_fmap, list.Forall_forall in Hc. cbn in Hc.
      specialize (Hc (Z.to_nat i)). rewrite Z2Nat.id in Hc by lia. apply Hc, elem_of_seq. lia.
  - split; [done|]. intros [Hp _ _]. apply identifier_valid_named in Hp. congruence.
Qed.

Lemma consumers_length s : os_consumer_count s <= 64 -> (length (consumers s) <= 64)%nat.
Proof. intros H. unfold consumers. rewrite length_fmap, length_seq. lia. Qed.

Ltac lengths :=
  repeat match goal with
  | |- context [length (chars ?s)] =>
      let n := eval vm_compute in (length (chars s)) in change (length (chars s)) with n
  end.

Lemma consumer_cost c : named (oc_consumer_id c) -> (json_cost (consumer_json c) <= 600)%nat.
Proof.
  intros [Hn _]. cbn [json_cost consumer_json sum_list_with fst snd]. lengths.
  assert (length (consumer_state_name (oc_state c)) <= 10)%nat by (destruct (oc_state c); cbn; lia).
  assert (length (mode_name (oc_mode c)) <= 11)%nat by (unfold mode_name; repeat case_match; cbn; lia).
  assert (length (pool_name (oc_pool c)) <= 13)%nat by (unfold pool_name; repeat case_match; cbn; lia).
  lia.
Qed.

Lemma sum_bound {A} (f : A -> nat) l n : Forall (fun x => (f x <= n)%nat) l -> (sum_list_with f l <= length l * n)%nat.
Proof. induction 1; cbn; lia. Qed.

Lemma rejection_cost r : (json_cost (rejection_json r) <= 40)%nat.
Proof. apply Nat.leb_le. destruct r; vm_compute; reflexivity. Qed.

Lemma status_length s : reportable s -> Z.of_nat (length (status_text s)) <= 45000.
Proof.
  intros [Hp Hc Hs]. unfold status_text. pose proof (length_print_json _ (status_json s) [10] (le_n _)) as Hl.
  enough (Z.of_nat (json_cost (status_json s)) <= 44999) by (cbn [length] in Hl; lia). clear Hl.
  assert (Hcs : (sum_list_with (fun j => 1 + json_cost j) (consumer_json <$> consumers s) <= 64 * 601)%nat).
  { pose proof (consumers_length s Hc). etrans; [apply (sum_bound _ _ 601)|].
    - apply list.Forall_fmap. eapply list.Forall_impl; [exact Hs|]. intros c Hn. cbn -[json_cost].
      pose proof (consumer_cost c Hn). lia.
    - rewrite length_fmap. lia. }
  destruct Hp as [Hp _]. pose proof (rejection_cost (os_last_rejection s)) as Hr.
  unfold status_json, pool_json, text_json.
  cbn [json_cost sum_list_with fst snd].
  assert (Hh : (length (chars (if os_healthy s then "healthy" else "degraded")) <= 8)%nat)
    by (destruct (os_healthy s); cbn; lia).
  revert Hh. generalize (length (chars (if os_healthy s then "healthy" else "degraded"))). intros h Hh.
  lengths. lia.
Qed.

(** ** Reading JSON *)

(** A character a string holds as itself. *)
Definition plain_char (c : Z) : bool := (32 <=? c) && negb (c =? 34) && negb (c =? 92).

Fixpoint text_of (l : list Z) : string :=
  match l with
  | [] => EmptyString
  | c :: l => String (ascii_of_nat (Z.to_nat c)) (text_of l)
  end.

(** A reader of compact JSON, without escapes, fractions or signs: the value
    and the rest of the input. *)
Fixpoint parse_json (fuel : nat) (input : list Z) : option (json * list Z) :=
  match fuel, input with
  | S fuel, c :: rest =>
      if c =? 34 then
        match drop_while plain_char rest with
        | q :: after => if q =? 34 then Some (JString (take_while plain_char rest), after) else None
        | [] => None
        end
      else if is_digit c then Some (JNumber (decimal (take_while is_digit input)), drop_while is_digit input)
      else if c =? 91 then
        match rest with
        | d :: after => if d =? 93 then Some (JArray [], after) else parse_items fuel [] rest
        | [] => None
        end
      else if c =? 123 then
        match rest with
        | d :: after => if d =? 125 then Some (JObject [], after) else parse_members fuel [] rest
        | [] => None
        end
      else if bool_decide (take 4 input = chars "null") then Some (JNull, drop 4 input)
      else None
  | _, _ => None
  end
with parse_items (fuel : nat) (items : list json) (input : list Z) : option (json * list Z) :=
  match fuel with
  | O => None
  | S fuel =>
      match parse_json fuel input with
      | Some (j, c :: after) =>
          if c =? 44 then parse_items fuel (items ++ [j]) after
          else if c =? 93 then Some (JArray (items ++ [j]), after)
          else None
      | _ => None
      end
  end
with parse_members (fuel : nat) (members : list (string * json)) (input : list Z) :
    option (json * list Z) :=
  match fuel with
  | O => None
  | S fuel =>
      match parse_json fuel input with
      | Some (JString name, c :: value) =>
          if c =? 58 then
            match parse_json fuel value with
            | Some (j, d :: after) =>
                let members := members ++ [(text_of name, j)] in
                if d =? 44 then parse_members fuel members after
                else if d =? 125 then Some (JObject members, after)
                else None
            | _ => None
            end
          else None
      | _ => None
      end
  end.

(** Numbers are unsigned, and no string needs escapes. *)
Fixpoint json_plain (j : json) : bool :=
  match j with
  | JNull => true
  | JNumber n => (0 <=? n) && (n <=? UINT64_MAX)
  | JString s => forallb plain_char s
  | JArray items => forallb json_plain items
  | JObject members => forallb (fun m => forallb plain_char (chars m.1) && json_plain m.2) members
  end.

Lemma text_of_chars s : text_of (chars s) = s.
Proof.
  induction s as [|c s IH]; [done|]. cbn [chars text_of]. by rewrite Nat2Z.id, ascii_nat_embedding, IH.
Qed.

(** What follows a value: nothing that continues it. *)
Definition follows (k : list Z) : Prop := forall c, head k = Some c -> is_digit c = false.

Lemma parse_string fuel s k :
  forallb plain_char s = true -> parse_json (S fuel) (34 :: s ++ 34 :: k) = Some (JString s, k).
Proof.
  intros Hs. cbn -[plain_char]. destruct (take_while_all plain_char s (34 :: k)) as [-> ->]; [| |done].
  - apply list.Forall_forall. intros c Hc. rewrite forallb_forall in Hs. by apply Hs, list_elem_of_In.
  - by intros c [= <-].
Qed.

Lemma parse_number fuel n k :
  is_u64 n -> follows k -> parse_json (S fuel) (print_unsigned n ++ k) = Some (JNumber n, k).
Proof.
  intros Hn Hk. destruct (print_unsigned_spec n Hn) as (Ed & Hd & Hl).
  destruct (take_while_all is_digit _ k Hd Hk) as [E1 E2].
  destruct (print_unsigned n) as [|c l]; [cbn in Hl; lia|].
  apply Forall_cons_1 in Hd as [Hc _]. cbn [app parse_json]. rewrite Hc.
  replace (c =? 34) with false by (unfold is_digit in Hc; lia).
  change (c :: l ++ k) with ((c :: l) ++ k). by rewrite E1, E2, Ed.
Qed.

Lemma print_json_head j k :
  json_plain j = true -> exists c r, print_json j k = c :: r /\ c <> 93 /\ c <> 125.
Proof.
  intros Hj. destruct j as [|n|s|items|members]; cbn [print_json]; [do 2 eexists; split; [reflexivity|by split]| |do 2 eexists; split; [reflexivity|by split]..].
  cbn in Hj. destruct (print_unsigned_spec n) as (_ & Hd & Hl); [unfold in_u, UINT64_MAX in *; lia|].
  destruct (print_unsigned n) as [|c l]; [cbn in Hl; lia|]. exists c, (l ++ k). split; [done|].
  apply Forall_cons_1 in Hd as [Hc _]. unfold is_digit in Hc. lia.
Qed.

Section Parsing.
Context (fuel : nat).
Context (IH : forall j k, json_plain j = true -> follows k -> (json_cost j <= fuel)%nat ->
  parse_json fuel (print_json j k) = Some (j, k)).

Lemma parse_item j items more k :
  json_plain j = true -> (json_cost j <= fuel)%nat -> follows (print_items [44] more k) ->
  parse_items (S fuel) items (print_json j (print_items [44] more k)) =
    match more with
    | [] => Some (JArray (items ++ [j]), k)
    | j' :: more' => parse_items fuel (items ++ [j]) (print_json j' (print_items [44] more' k))
    end.
Proof. intros Hj Hc Hf. cbn. rewrite IH by done. by destruct more. Qed.

Lemma parse_member name j members more k :
  forallb plain_char (chars name) = true -> (2 + length (chars name) <= fuel)%nat ->
  json_plain j = true -> (json_cost j <= fuel)%nat ->
  parse_members (S fuel) members (34 :: chars name ++ 34 :: 58 :: print_json j (print_members [44] more k)) =
    match more with
    | [] => Some (JObject (members ++ [(name, j)]), k)
    | (name', j') :: more' =>
        parse_members fuel (members ++ [(name, j)])
          (34 :: chars name' ++ 34 :: 58 :: print_json j' (print_members [44] more' k))
    end.
Proof.
  intros Hn Hl Hj Hc. cbn [parse_members]. destruct fuel as [|f] eqn:Ef; [lia|].
  rewrite (parse_string f (chars name)) by done. cbn [Z.eqb Pos.eqb]. rewrite IH; [|done| |done].
  - rewrite text_of_chars. by destruct more as [|[? ?] ?].
  - intros c. destruct more as [|[? ?] ?]; by intros [= <-].
Qed.
End Parsing.

Lemma parse_print fuel :
  (forall j k, json_plain j = true -> follows k -> (json_cost j <= fuel)%nat ->
     parse_json fuel (print_json j k) = Some (j, k)) /\
  (forall j l items k, json_plain j = true -> forallb json_plain l = true -> follows k ->
     (1 + sum_list_with (fun j => 1 + json_cost j) (j :: l) <= fuel)%nat ->
     parse_items fuel items (print_json j (print_items [44] l k)) = Some (JArray (items ++ j :: l), k)) /\
  (forall name j l members k,
     forallb (fun m => forallb plain_char (chars m.1) && json_plain m.2) ((name, j) :: l) = true -> follows k ->
     (1 + sum_list_with (fun m => 4 + length (chars m.1) + json_cost m.2) ((name, j) :: l) <= fuel)%nat ->
     parse_members fuel members (34 :: chars name ++ 34 :: 58 :: print_json j (print_members [44] l k)) =
       Some (JObject (members ++ (name, j) :: l), k)).
Proof.
  induction fuel as [|fuel (IH1 & IH2 & IH3)].
  { split_and!; intros; exfalso; [destruct j; cbn in *; lia|lia|lia]. }
  split_and!.
  - intros j k Hj Hk Hc. destruct j as [|n|s|items|members].
    + done.
    + apply parse_number; [|done]. cbn in Hj. unfold in_u, UINT64_MAX in *. lia.
    + by apply parse_string.
    + rewrite print_array. destruct items as [|j l]; [done|]. cbn [print_items app].
      cbn [json_plain forallb] in Hj. apply andb_prop in Hj as [Hj Hl].
      destruct (print_json_head j (print_items [44] l k) Hj) as (c & r & Er & Hn & _).
      pose proof (IH2 j l [] k Hj Hl Hk ltac:(cbn in *; lia)) as E. rewrite Er in *. cbn.
      by replace (c =? 93) with false by lia.
    + rewrite print_object. destruct members as [|[name j] l]; [done|].
      pose proof (IH3 name j l [] k Hj Hk ltac:(cbn in *; lia)) as E. by cbn in *.
  - intros j l items k Hj Hl Hk Hc. rewrite (parse_item fuel IH1); [|done|cbn in *; lia|].
    + destruct l as [|j' l]; [done|]. cbn in Hl. apply andb_prop in Hl as [Hj' Hl].
      rewrite IH2; [by rewrite <- app_assoc|done|done|done|cbn in *; lia].
    + intros c. destruct l as [|? ?]; by intros [= <-].
  - intros name j l members k Hl Hk Hc. cbn [forallb fst snd] in Hl. apply andb_prop in Hl as [Hj Hl].
    apply andb_prop in Hj as [Hn Hj].
    rewrite (parse_member fuel IH1); [|done|cbn in *; lia|done|cbn in *; lia].
    destruct l as [|[name' j'] l]; [done|].
    rewrite IH3; [by rewrite <- app_assoc|done|done|cbn in *; lia].
Qed.

(** The numbers of a snapshot. *)
Definition consumer_numbers (c : is_provider_consumer_snapshot) : list Z :=
  [oc_failure_deadline_ms c; oc_connection_count c; oc_assigned_opportunistic_chunks c;
   oc_assigned_committed_chunks c; oc_inflight_control_requests c; oc_last_error_code c].

Definition snapshot_numbers (s : is_provider_observability_snapshot) : list Z :=
  [os_host_reserve_chunks s; os_max_opportunistic_chunks s; os_max_committed_chunks s;
   os_allocated_opportunistic_chunks s; os_assigned_opportunistic_chunks s;
   os_allocated_committed_chunks s; os_assigned_committed_chunks s;
   os_available_opportunistic_chunks s; os_available_committed_chunks s;
   os_quarantined_chunks s; os_active_connections s; os_admissions_total s;
   os_admission_rejections_total s; os_pressure_reclaims_total s;
   os_authentication_failures_total s; os_deadline_expiries_total s; os_connections_total s;
   os_disconnections_total s; os_control_errors_total s] ++
  concat (consumer_numbers <$> consumers s).

Lemma named_plain v : named v -> forallb plain_char (c_string v) = true.
Proof.
  intros [_ Hc]. apply forallb_forall. intros c Hi. apply list_elem_of_In in Hi.
  rewrite list.Forall_forall in Hc. specialize (Hc c Hi). unfold identifier_char in Hc. unfold plain_char. lia.
Qed.

Lemma number_plain n : is_u64 n -> (0 <=? n) && (n <=? UINT64_MAX) = true.
Proof. unfold in_u, UINT64_MAX. lia. Qed.

Lemma consumer_plain c :
  named (oc_consumer_id c) -> Forall is_u64 (consumer_numbers c) -> json_plain (consumer_json c) = true.
Proof.
  intros Hn Hf. unfold consumer_numbers in Hf. rewrite !list.Forall_cons in Hf.
  destruct Hf as (H1 & H2 & H3 & H4 & H5 & H6 & _). cbn [consumer_json json_plain forallb fst snd].
  rewrite (named_plain _ Hn), !number_plain by done.
  unfold mode_name, pool_name. destruct (oc_state c), (oc_mode c =? IS_PROTOCOL_MODE_BACKED),
    (oc_mode c =? IS_PROTOCOL_MODE_REMOTE_ONLY), (oc_pool c =? IS_PROTOCOL_POOL_OPPORTUNISTIC),
    (oc_pool c =? IS_PROTOCOL_POOL_COMMITTED); vm_compute; reflexivity.
Qed.

Lemma rejection_plain r : json_plain (rejection_json r) = true.
Proof. by destruct r. Qed.

Lemma status_plain s : reportable s -> Forall is_u64 (snapshot_numbers s) -> json_plain (status_json s) = true.
Proof.
  intros [Hp _ Hs] Hf. unfold snapshot_numbers in Hf. apply list.Forall_app in Hf as [Hf Hc].
  rewrite !list.Forall_cons in Hf.
  destruct Hf as (H1 & H2 & H3 & H4 & H5 & H6 & H7 & H8 & H9 & H10 & H11 & H12 & H13 & H14 & H15 & H16 & H17 & H18 & H19 & _).
  assert (Hcs : forallb json_plain (consumer_json <$> consumers s) = true).
  { apply forallb_forall. intros j Hj. apply list_elem_of_In, list_elem_of_fmap in Hj as (c & -> & Hi).
    rewrite list.Forall_forall in Hs. rewrite List.Forall_concat, list.Forall_fmap, list.Forall_forall in Hc.
    apply consumer_plain; [by apply Hs|by apply Hc]. }
  unfold status_json, pool_json, text_json. cbn [json_plain forallb fst snd].
  rewrite Hcs, (named_plain _ Hp), rejection_plain.
  assert (Hw : forall x, is_u64 (u32 x)) by (intros x; pose proof (wrap_in_u 32 x); unfold in_u in *; pow_lia).
  rewrite !number_plain by (done || apply Hw || (split; reflexivity || lia)).
  by destruct (os_healthy s).
Qed.

(** ** OpenMetrics *)

Inductive metric_line :=
| Comment (text : string)
| Sample (name : string) (labels : list (string * list Z)) (value : Z).

Fixpoint print_labels (separator : list Z) (labels : list (string * list Z)) (k : list Z) : list Z :=
  match labels with
  | [] => 125 :: k
  | (name, value) :: labels =>
      separator ++ chars name ++ 61 :: 34 :: value ++ 34 :: print_labels [44] labels k
  end.

(** The line, followed by [k]. *)
Definition print_line (l : metric_line) (k : list Z) : list Z :=
  match l with
  | Comment text => 35 :: 32 :: chars text ++ 10 :: k
  | Sample name labels value =>
      chars name ++ 123 :: print_labels [] labels (32 :: print_unsigned value ++ 10 :: k)
  end.

Definition gauge_types : list string :=
  ["healthy"; "active_connections"; "pool_max_chunks"; "pool_allocated_chunks";
   "pool_assigned_chunks"; "pool_available_chunks"; "quarantined_chunks"; "host_reserve_chunks";
   "consumer_connected"; "consumer_failure_deadline_milliseconds";
   "consumer_inflight_control_requests"; "consumer_assigned_chunks"]%string.

Definition metric (name : string) : string := ("infiniswap_provider_" ++ name)%string.

Definition pool_samples (labels : list (string * list Z)) (maximum allocated assigned available : Z) :
    list metric_line :=
  [Sample (metric "pool_max_chunks") labels maximum;
   Sample (metric "pool_allocated_chunks") labels allocated;
   Sample (metric "pool_assigned_chunks") labels assigned;
   Sample (metric "pool_available_chunks") labels available].

Definition consumer_samples (provider : string * list Z) (c : is_provider_consumer_snapshot) :
    list metric_line :=
  let labels := [provider; ("consumer"%string, c_string (oc_consumer_id c))] in
  [Sample (metric "consumer_connected") labels
     (if bool_decide (oc_state c = IS_PROVIDER_CONSUMER_READY) then 1 else 0);
   Sample (metric "consumer_failure_deadline_milliseconds") labels (oc_failure_deadline_ms c);
   Sample (metric "consumer_inflight_control_requests") labels (oc_inflight_control_requests c);
   Sample (metric "consumer_assigned_chunks") (labels ++ [("pool"%string, chars "opportunistic")])
     (oc_assigned_opportunistic_chunks c);
   Sample (metric "consumer_assigned_chunks") (labels ++ [("pool"%string, chars "committed")])
     (oc_assigned_committed_chunks c)].

Definition counter_lines (provider : string * list Z) (name : string) (value : Z) : list metric_line :=
  [Comment ("TYPE " ++ metric name ++ " counter"); Sample (metric name) [provider] value].

Definition metric_lines (s : is_provider_observability_snapshot) : list metric_line :=
  let provider := ("provider"%string, c_string (os_provider_id s)) in
  [Comment "infiniswap_metrics_schema_version 1"] ++
  ((fun name => Comment ("TYPE " ++ metric name ++ " gauge")%string) <$> gauge_types) ++
  [Sample (metric "healthy") [provider] (if os_healthy s then 1 else 0);
   Sample (metric "active_connections") [provider] (os_active_connections s)] ++
  pool_samples [provider; ("pool"%string, chars "opportunistic")] (os_max_opportunistic_chunks s)
    (os_allocated_opportunistic_chunks s) (os_assigned_opportunistic_chunks s)
    (os_available_opportunistic_chunks s) ++
  pool_samples [provider; ("pool"%string, chars "committed")] (os_max_committed_chunks s)
    (os_allocated_committed_chunks s) (os_assigned_committed_chunks s)
    (os_available_committed_chunks s) ++
  [Sample (metric "quarantined_chunks") [provider] (os_quarantined_chunks s);
   Sample (metric "host_reserve_chunks") [provider] (os_host_reserve_chunks s)] ++
  concat (consumer_samples provider <$> consumers s) ++
  counter_lines provider "admissions_total" (os_admissions_total s) ++
  counter_lines provider "admission_rejections_total" (os_admission_rejections_total s) ++
  counter_lines provider "pressure_reclaims_total" (os_pressure_reclaims_total s) ++
  counter_lines provider "authentication_failures_total" (os_authentication_failures_total s) ++
  counter_lines provider "deadline_expiries_total" (os_deadline_expiries_total s) ++
  counter_lines provider "connections_total" (os_connections_total s) ++
  counter_lines provider "disconnections_total" (os_disconnections_total s) ++
  counter_lines provider "control_errors_total" (os_control_errors_total s) ++
  [Comment "EOF"].

Definition print_lines (l : list metric_line) : list Z := concat ((fun x => print_line x []) <$> l).
Definition metrics_text (s : is_provider_observability_snapshot) : list Z := print_lines (metric_lines s).

Lemma print_labels_app sep labels k : print_labels sep labels k = print_labels sep labels [] ++ k.
Proof.
  revert sep. induction labels as [|[name v] labels IH]; intros sep; [done|]. cbn.
  rewrite IH. rewrite <- !app_assoc. cbn. by rewrite <- app_assoc.
Qed.

Lemma print_lines_app l m : print_lines (l ++ m) = print_lines l ++ print_lines m.
Proof. unfold print_lines. by rewrite fmap_app, concat_app. Qed.

Definition label_set (labels : list (string * list Z)) : list Z := 123 :: print_labels [] labels [].

Lemma gauge_lines f l name labels text v :
  written f (print_lines l) -> text = label_set labels ->
  written (fun b => append_gauge (f b) name text v) (print_lines (l ++ [Sample name labels v])).
Proof.
  intros Hf ->. rewrite print_lines_app. unfold append_gauge. eapply written_eq; [by apply written_append|].
  f_equal. rewrite <- (app_nil_r (printf _ _)), printf_before.
  cbn [print_lines fmap list_fmap concat print_line show]. rewrite print_labels_app.
  unfold label_set. generalize (chars name), (print_labels [] labels []), (print_unsigned v). intros a b c.
  rewrite app_nil_r. vm_compute. reflexivity.
Qed.

Lemma chars_app a b : chars (a ++ b)%string = chars a ++ chars b.
Proof.
  induction a as [|c a IH]; [done|]. change (String.append (String c a) b) with (String c (String.append a b)).
  cbn. by rewrite IH.
Qed.

Lemma counter_lines_written f l name provider v :
  written f (print_lines l) ->
  written (fun b => append_counter (f b) (metric name) provider v)
    (print_lines (l ++ counter_lines ("provider"%string, provider) name v)).
Proof.
  intros Hf. rewrite print_lines_app. unfold append_counter. eapply written_eq; [by apply written_append|].
  f_equal. rewrite <- (app_nil_r (printf _ _)), printf_before. unfold counter_lines.
  cbn [print_lines fmap list_fmap concat print_line show print_labels].
  rewrite !chars_app. generalize (chars (metric name)), (print_unsigned v). intros a c.
  rewrite !app_nil_r. rewrite <- !app_assoc. cbn [app]. rewrite <- !app_assoc. vm_compute. reflexivity.
Qed.

Lemma length_labels sep labels :
  (length sep <= 1)%nat ->
  (length (print_labels sep labels []) <= 1 + sum_list_with (fun l => 4 + length (chars l.1) + length l.2) labels)%nat.
Proof.
  revert sep. induction labels as [|[name v] labels IH]; intros sep Hs;
    cbn [print_labels sum_list_with fst snd length]; [lia|].
  rewrite !length_app. cbn [length]. rewrite length_app. cbn [length].
  specialize (IH [44] ltac:(cbn; lia)). lia.
Qed.

(** The labels fit their array. *)
Lemma labels_whole format arguments labels :
  printf format arguments = label_set labels ->
  (sum_list_with (fun l => 4 + length (chars l.1) + length l.2) labels <= 250)%nat ->
  snprintf_labels format arguments = label_set labels.
Proof.
  intros E Hl. unfold snprintf_labels. rewrite E, take_ge; [done|]. unfold label_set. cbn [length].
  pose proof (length_labels [] labels ltac:(cbn; lia)). lia.
Qed.

Ltac whole_labels :=
  apply labels_whole;
  [rewrite <- (app_nil_r (printf _ _)), printf_before; formats; vm_compute; reflexivity
  |cbn [sum_list_with fst snd]; lengths; lia].

Section Labels.
Context (provider : list Z) (Hp : (length provider <= 63)%nat).

Lemma provider_labels :
  snprintf_labels "{provider='%s'}" [Observability.Text provider] = label_set [("provider"%string, provider)].
Proof. whole_labels. Qed.
Lemma opportunistic_labels :
  snprintf_labels "{provider='%s',pool='opportunistic'}" [Observability.Text provider] =
    label_set [("provider"%string, provider); ("pool"%string, chars "opportunistic")].
Proof. whole_labels. Qed.
Lemma committed_labels :
  snprintf_labels "{provider='%s',pool='committed'}" [Observability.Text provider] =
    label_set [("provider"%string, provider); ("pool"%string, chars "committed")].
Proof. whole_labels. Qed.

Context (consumer : list Z) (Hc : (length consumer <= 63)%nat).

Lemma consumer_labels :
  snprintf_labels "{provider='%s',consumer='%s'}" [Observability.Text provider; Observability.Text consumer] =
    label_set [("provider"%string, provider); ("consumer"%string, consumer)].
Proof. whole_labels. Qed.
Lemma consumer_opportunistic_labels :
  snprintf_labels "{provider='%s',consumer='%s',pool='opportunistic'}"
    [Observability.Text provider; Observability.Text consumer] =
    label_set [("provider"%string, provider); ("consumer"%string, consumer);
               ("pool"%string, chars "opportunistic")].
Proof. whole_labels. Qed.
Lemma consumer_committed_labels :
  snprintf_labels "{provider='%s',consumer='%s',pool='committed'}"
    [Observability.Text provider; Observability.Text consumer] =
    label_set [("provider"%string, provider); ("consumer"%string, consumer);
               ("pool"%string, chars "committed")].
Proof. whole_labels. Qed.
End Labels.

Lemma pool_gauges_written f l labels text a b c d :
  written f (print_lines l) -> text = label_set labels ->
  written (fun o => append_pool_gauges (f o) text a b c d) (print_lines (l ++ pool_samples labels a b c d)).
Proof.
  intros Hf Ht. unfold append_pool_gauges, pool_samples.
  eapply written_eq; [do 4 (eapply gauge_lines; [|exact Ht]); exact Hf|]. by rewrite <- !app_assoc.
Qed.

Lemma consumer_gauges_written f l provider c :
  (length provider <= 63)%nat -> named (oc_consumer_id c) -> written f (print_lines l) ->
  written (fun o => append_consumer_gauges (f o) provider c)
    (print_lines (l ++ consumer_samples ("provider"%string, provider) c)).
Proof.
  intros Hp [Hc _] Hf. unfold append_consumer_gauges, consumer_samples.
  rewrite consumer_labels, consumer_opportunistic_labels, consumer_committed_labels by lia.
  eapply written_eq; [do 5 (eapply gauge_lines; [|reflexivity]); exact Hf|]. by rewrite <- !app_assoc.
Qed.

Lemma texts_lines n i (lines : Z -> list metric_line) :
  0 <= i ->
  texts n i (fun j => print_lines (lines j)) =
    print_lines (concat ((fun j => lines (Z.of_nat j)) <$> seq (Z.to_nat i) n)).
Proof.
  revert i. induction n as [|n IH]; intros i Hi; [done|]. cbn [texts seq fmap list_fmap concat].
  rewrite print_lines_app, IH, Z2Nat.id by lia. by replace (Z.to_nat (i + 1)) with (S (Z.to_nat i)) by lia.
Qed.

Lemma consumers_written s f l provider :
  reportable s -> (length provider <= 63)%nat -> written f (print_lines l) ->
  written (fun b => for_loop (Z.to_nat (os_consumer_count s)) 0
      (fun index b => append_consumer_gauges b provider (consumer_at s index)) (f b))
    (print_lines (l ++ concat (consumer_samples ("provider"%string, provider) <$> consumers s))).
Proof.
  intros [_ _ Hs] Hp Hf. eapply written_eq; [apply written_loop; [|exact Hf]|].
  - intros i Hi. apply (consumer_gauges_written (fun b => b) []); [done| |apply written_id].
    unfold consumers in Hs. rewrite list.Forall_fmap, list.Forall_forall in Hs.
    specialize (Hs (Z.to_nat i)). cbn in Hs. rewrite Z2Nat.id in Hs by lia. apply Hs, elem_of_seq. lia.
  - cbn [app]. rewrite texts_lines, print_lines_app by lia. unfold consumers.
    by rewrite <- list_fmap_compose.
Qed.

Lemma metrics_written s : reportable s -> written (append_metrics s) (metrics_text s).
Proof.
  intros Hs. assert (Hp : (length (c_string (os_provider_id s)) <= 63)%nat) by (destruct Hs as [[? _] _ _]; lia).
  unfold append_metrics, metrics_text, metric_lines.
  rewrite provider_labels, opportunistic_labels, committed_labels by done.
  eapply written_eq.
  { apply written_append.
    eapply (counter_lines_written _ _ "control_errors_total").
    eapply (counter_lines_written _ _ "disconnections_total").
    eapply (counter_lines_written _ _ "connections_total").
    eapply (counter_lines_written _ _ "deadline_expiries_total").
    eapply (counter_lines_written _ _ "authentication_failures_total").
    eapply (counter_lines_written _ _ "pressure_reclaims_total").
    eapply (counter_lines_written _ _ "admission_rejections_total").
    eapply (counter_lines_written _ _ "admissions_total").
    apply consumers_written; [done|done|].
    do 2 (eapply gauge_lines; [|reflexivity]). do 2 (eapply pool_gauges_written; [|reflexivity]).
    do 2 (eapply gauge_lines; [|reflexivity]).
    apply (written_eq _ (print_lines ([Comment "infiniswap_metrics_schema_version 1"] ++
      ((fun name => Comment ("TYPE " ++ metric name ++ " gauge")%string) <$> gauge_types)))).
    2: reflexivity.
    eapply written_eq; [apply (written_append (fun b => b)), written_id|]. vm_compute. reflexivity. }
  set (E := printf _ _).
  assert (Ee : E = print_lines [Comment "EOF"]) by (vm_compute; reflexivity). rewrite Ee, <- print_lines_app.
  f_equal. by rewrite <- !app_assoc.
Qed.

(** At least the length of a line. *)
Definition line_cost (l : metric_line) : nat :=
  match l with
  | Comment text => (3 + length (chars text))%nat
  | Sample name labels _ =>
      (24 + length (chars name) + sum_list_with (fun l => 4 + length (chars l.1) + length l.2) labels)%nat
  end.

Lemma length_lines l : (length (print_lines l) <= sum_list_with line_cost l)%nat.
Proof.
  induction l as [|x l IH]; [done|]. change (x :: l) with ([x] ++ l). rewrite print_lines_app, length_app.
  cbn [app sum_list_with]. enough (length (print_lines [x]) <= line_cost x)%nat by lia.
  unfold print_lines. cbn [fmap list_fmap concat]. rewrite app_nil_r.
  destruct x as [text|name labels v]; cbn [print_line line_cost length]; rewrite length_app; cbn [length]; [lia|].
  rewrite print_labels_app, length_app. cbn [length]. rewrite length_app. cbn [length].
  pose proof (length_print_digits 20 v). pose proof (length_labels [] labels ltac:(cbn; lia)).
  unfold print_unsigned. lia.
Qed.

Lemma sum_list_with_concat {A} (f : A -> nat) l :
  sum_list_with f (concat l) = sum_list_with (fun x => sum_list_with f x) l.
Proof. induction l as [|x l IH]; [done|]. cbn. by rewrite sum_list_with_app, IH. Qed.

Lemma metrics_length s : reportable s -> Z.of_nat (length (metrics_text s)) <= 110000.
Proof.
  intros [[Hp _] Hc Hs]. pose proof (length_lines (metric_lines s)) as Hl. unfold metrics_text.
  enough (Z.of_nat (sum_list_with line_cost (metric_lines s)) <= 110000) by lia. clear Hl.
  assert (Hcs : (sum_list_with line_cost (concat (consumer_samples ("provider"%string, c_string (os_provider_id s)) <$> consumers s))
    <= 64 * 1500)%nat).
  { pose proof (consumers_length s Hc). rewrite sum_list_with_concat. etrans; [apply (sum_bound _ _ 1500)|].
    - apply list.Forall_fmap. eapply list.Forall_impl; [exact Hs|]. intros c [Hn _].
      unfold consumer_samples. cbn [compose sum_list_with line_cost fst snd app]. lengths. lia.
    - rewrite length_fmap. lia. }
  revert Hcs. unfold metric_lines. generalize (concat (consumer_samples ("provider"%string, c_string (os_provider_id s)) <$> consumers s)).
  intros cs Hcs. unfold pool_samples, counter_lines, gauge_types. cbn [fmap list_fmap app].
  cbn [sum_list_with line_cost fst snd]. rewrite sum_list_with_app. cbn [sum_list_with line_cost fst snd]. lengths. lia.
Qed.

(** ** What the reader of the buffer sees *)

Lemma c_string_text text rest : Forall (fun c => c <> 0) text -> c_string (text ++ 0 :: rest) = text.
Proof.
  intros H. induction H as [|c l Hc _ IH]; [done|]. cbn. replace (c =? 0) with false by lia. by rewrite IH.
Qed.

Lemma plain_nonzero l : forallb plain_char l = true -> Forall (fun c => c <> 0) l.
Proof.
  intros H. apply list.Forall_forall. intros c Hc. rewrite forallb_forall in H.
  specialize (H c (proj1 (list_elem_of_In _ _) Hc)). unfold plain_char in H. lia.
Qed.

Lemma number_nonzero n : (0 <=? n) && (n <=? UINT64_MAX) = true -> Forall (fun c => c <> 0) (print_unsigned n).
Proof.
  intros H. destruct (print_unsigned_spec n) as (_ & Hd & _); [unfold in_u, UINT64_MAX in *; lia|].
  eapply list.Forall_impl; [exact Hd|]. intros c. unfold is_digit. lia.
Qed.

Lemma json_nonzero n j k :
  (json_size j <= n)%nat -> json_plain j = true -> Forall (fun c => c <> 0) k ->
  Forall (fun c => c <> 0) (print_json j k).
Proof.
  revert j k. induction n as [|n IH]; intros j k Hn Hj Hk; [pose proof (json_size_pos j); lia|].
  destruct j as [|x|s|items|members].
  - repeat constructor; done.
  - cbn [print_json]. apply list.Forall_app. split; [by apply number_nonzero|done].
  - cbn [print_json]. constructor; [done|]. apply list.Forall_app. split; [by apply plain_nonzero|by constructor].
  - rewrite print_array. constructor; [done|]. cbn in Hn, Hj.
    enough (E : forall sep, Forall (fun c => c <> 0) sep -> Forall (fun c => c <> 0) (print_items sep items k)) by by apply E.
    induction items as [|j items IHi]; intros sep Hs; cbn [print_items]; [by constructor|].
    cbn in Hn, Hj. apply andb_prop in Hj as [Hj Hi]. apply list.Forall_app. split; [done|].
    apply IH; [lia|done|]. apply IHi; [lia|done|]. by repeat constructor.
  - rewrite print_object. constructor; [done|]. cbn in Hn, Hj.
    enough (E : forall sep, Forall (fun c => c <> 0) sep -> Forall (fun c => c <> 0) (print_members sep members k)) by by apply E.
    induction members as [|[name j] members IHm]; intros sep Hs; cbn [print_members]; [by constructor|].
    cbn in Hn, Hj. apply andb_prop in Hj as [Hj Hm]. apply andb_prop in Hj as [Hname Hj].
    apply list.Forall_app. split; [done|]. constructor; [done|]. apply list.Forall_app. split; [by apply plain_nonzero|].
    do 2 (constructor; [done|]). apply IH; [lia|done|]. apply IHm; [lia|done|]. by repeat constructor.
Qed.

Definition line_plain (l : metric_line) : bool :=
  match l with
  | Comment text => forallb plain_char (chars text)
  | Sample name labels v =>
      forallb plain_char (chars name) &&
      forallb (fun l => forallb plain_char (chars l.1) && forallb plain_char l.2) labels &&
      ((0 <=? v) && (v <=? UINT64_MAX))
  end.

Lemma labels_nonzero sep labels :
  Forall (fun c => c <> 0) sep ->
  forallb (fun l => forallb plain_char (chars l.1) && forallb plain_char l.2) labels = true ->
  Forall (fun c => c <> 0) (print_labels sep labels []).
Proof.
  revert sep. induction labels as [|[name v] labels IH]; intros sep Hs Hl; cbn [print_labels]; [by repeat constructor|].
  cbn [forallb fst snd] in Hl. apply andb_prop in Hl as [Hv Hl]. apply andb_prop in Hv as [Hn Hv].
  apply list.Forall_app. split; [done|]. apply list.Forall_app. split; [by apply plain_nonzero|].
  do 2 (constructor; [done|]). apply list.Forall_app. split; [by apply plain_nonzero|].
  constructor; [done|]. apply IH; [by repeat constructor|done].
Qed.

Lemma lines_nonzero l : forallb line_plain l = true -> Forall (fun c => c <> 0) (print_lines l).
Proof.
  induction l as [|x l IH]; [constructor|]. cbn [forallb]. intros H. apply andb_prop in H as [Hx Hl].
  change (x :: l) with ([x] ++ l). rewrite print_lines_app. apply list.Forall_app. split; [|by apply IH].
  unfold print_lines. cbn [fmap list_fmap concat]. rewrite app_nil_r.
  destruct x as [text|name labels v]; cbn [print_line line_plain] in *.
  - do 2 (constructor; [done|]). apply list.Forall_app. split; [by apply plain_nonzero|by repeat constructor].
  - apply andb_prop in Hx as [Hx Hv]. apply andb_prop in Hx as [Hn Hb].
    apply list.Forall_app. split; [by apply plain_nonzero|]. constructor; [done|]. rewrite print_labels_app.
    apply list.Forall_app. split; [by apply labels_nonzero|]. constructor; [done|].
    apply list.Forall_app. split; [by apply number_nonzero|by repeat constructor].
Qed.

Lemma consumer_samples_plain provider c :
  forallb plain_char provider = true -> named (oc_consumer_id c) -> Forall is_u64 (consumer_numbers c) ->
  forallb line_plain (consumer_samples ("provider"%string, provider) c) = true.
Proof.
  intros Hp Hs Hc. apply named_plain in Hs. unfold consumer_numbers in Hc.
  rewrite !list.Forall_cons in Hc. destruct Hc as (C1 & C2 & C3 & C4 & C5 & C6 & _).
  unfold consumer_samples. cbn [line_plain forallb fst snd app].
  rewrite Hp, Hs, !number_plain by (done || by destruct (bool_decide _)). reflexivity.
Qed.

Lemma metrics_plain s :
  reportable s -> Forall is_u64 (snapshot_numbers s) -> forallb line_plain (metric_lines s) = true.
Proof.
  intros [Hp _ Hs] Hf. unfold snapshot_numbers in Hf. apply list.Forall_app in Hf as [Hf Hc].
  rewrite !list.Forall_cons in Hf.
  destruct Hf as (H1 & H2 & H3 & H4 & H5 & H6 & H7 & H8 & H9 & H10 & H11 & H12 & H13 & H14 & H15 & H16 & H17 & H18 & H19 & _).
  apply named_plain in Hp. unfold metric_lines.
  assert (Hcs : forallb line_plain (concat (consumer_samples ("provider"%string, c_string (os_provider_id s)) <$> consumers s)) = true).
  { rewrite List.Forall_concat, list.Forall_fmap, list.Forall_forall in Hc. rewrite list.Forall_forall in Hs.
    revert Hs Hc. generalize (consumers s). induction l as [|c l IH]; intros Hs Hc; [done|].
    cbn [fmap list_fmap concat]. rewrite forallb_app, consumer_samples_plain, IH; [done|..].
    - intros x Hx. apply Hs. by constructor.
    - intros x Hx. apply Hc. by constructor.
    - done.
    - apply Hs. constructor.
    - apply Hc. constructor. }
  revert Hcs. generalize (concat (consumer_samples ("provider"%string, c_string (os_provider_id s)) <$> consumers s)).
  intros cs Hcs. unfold pool_samples, counter_lines. rewrite !forallb_app, Hcs.
  cbn [line_plain forallb fst snd app]. rewrite Hp, !number_plain by (done || by destruct (os_healthy s)).
  vm_compute. reflexivity.
Qed.

(** ** Rendering *)

Lemma render_written body text s data size :
  reportable s -> written (body s) text -> Z.of_nat (length text) <= INT_MAX ->
  0 < size <= Z.of_nat (length data) ->
  render body (Some s) (Some data) size =
    (Some (buf_write data 0 (take (Z.to_nat (size - 1)) text ++ [0])),
     if size <=? Z.of_nat (length text) then IS_OBSERVABILITY_NO_SPACE else IS_OBSERVABILITY_OK).
Proof.
  intros Hr Hw Hl Hs. unfold render. replace (size =? 0) with false by lia.
  rewrite (proj2 (snapshot_valid_reportable s) Hr). cbn [negb orb].
  destruct (Hw data size [] {| ob_data := buf_write data 0 [0]; ob_capacity := size; ob_length := 0; ob_failed := false |})
    as [_ E1 E2 _]; [done|done| |].
  - constructor; cbn; [done|by rewrite take_nil| |done]. symmetry. apply Z.leb_gt. lia.
  - by rewrite E1, E2.
Qed.

(** A large enough buffer holds the text as a C string. *)
Lemma rendered_string data size text :
  Forall (fun c => c <> 0) text -> Z.of_nat (length text) < size <= Z.of_nat (length data) ->
  c_string (buf_write data 0 (take (Z.to_nat (size - 1)) text ++ [0])) = text.
Proof.
  intros Hn Hs. rewrite take_ge by lia. rewrite buf_write_0 by (rewrite length_app; cbn; lia).
  rewrite <- app_assoc. by apply c_string_text.
Qed.
