(* ===== verification/ObservabilitySpec.v ===== *)
(** * Theorems about what the provider reports *)
From Stdlib Require Import Strings.String Strings.Ascii.
From S2P Require Import Prelude Protocol Text MemoryManager MemoryConfig Observability ObservabilityText.

(** ** Rendering *)

(** The renderers and the texts they render. *)
Definition renders (body : is_provider_observability_snapshot -> output_buffer -> output_buffer)
    (s : is_provider_observability_snapshot) (text : list Z) : Prop :=
  (body = append_status /\ text = status_text s) \/ (body = append_metrics /\ text = metrics_text s).

Lemma renders_written body s text :
  reportable s -> renders body s text -> written (body s) text /\ Z.of_nat (length text) <= 110000.
Proof.
  intros Hs [[-> ->]|[-> ->]]; (split; [by apply status_written || by apply metrics_written|]).
  - pose proof (status_length s Hs). lia.
  - by apply metrics_length.
Qed.

Lemma renders_nonzero body s text :
  reportable s -> Forall is_u64 (snapshot_numbers s) -> renders body s text -> Forall (fun c => c <> 0) text.
Proof.
  intros Hs Hn [[_ ->]|[_ ->]].
  - eapply json_nonzero; [done|by apply status_plain|by repeat constructor].
  - by apply lines_nonzero, metrics_plain.
Qed.

(** C38. The renderers never write past the buffer they are given, and the buffer
    of the server always suffices.  For every snapshot the checks let through
    and every size, the bytes past the size stay as they were, a NUL is within
    it, and the result is NO_SPACE exactly when the text and its NUL do not
    fit, which never happens with 262144 bytes. *)
Theorem render_in_bounds body text s data size :
  renders body s text -> snapshot_valid s = true -> 0 < size <= Z.of_nat (length data) ->
  exists out result, render body (Some s) (Some data) size = (Some out, result) /\
    length out = length data /\ drop (Z.to_nat size) out = drop (Z.to_nat size) data /\
    0 ∈ take (Z.to_nat size) out /\
    (result = IS_OBSERVABILITY_NO_SPACE <-> size <= Z.of_nat (length text)) /\
    (IS_OBSERVABILITY_RESPONSE_MAX <= size -> result = IS_OBSERVABILITY_OK).
Proof.
  intros Hr Hv Hs. apply snapshot_valid_reportable in Hv. destruct (renders_written _ _ _ Hv Hr) as [Hw Hl].
  rewrite (render_written _ text) by (done || unfold INT_MAX; lia). do 2 eexists. split; [done|].
  set (cut := take (Z.to_nat (size - 1)) text).
  assert (Hc : (length cut < Z.to_nat size)%nat) by (unfold cut; rewrite length_take; lia).
  rewrite length_buf_write, buf_write_0 by (rewrite length_app; cbn; lia). rewrite length_app. cbn [length].
  split_and!; [done| | | |].
  - rewrite <- app_assoc, drop_app_ge by lia. cbn [app]. destruct (Z.to_nat size - length cut)%nat as [|n] eqn:En; [lia|].
    cbn [drop]. rewrite drop_drop. f_equal. lia.
  - apply list_elem_of_lookup. exists (length cut). rewrite lookup_take, <- app_assoc.
    rewrite lookup_app_r, Nat.sub_diag by lia. by rewrite decide_True.
  - destruct (Z.leb_spec size (Z.of_nat (length text))); split; try done; lia.
  - unfold IS_OBSERVABILITY_RESPONSE_MAX. intros Hm. by rewrite (proj2 (Z.leb_gt _ _)) by lia.
Qed.

(** C39. The status is JSON that says exactly what the snapshot holds.  For every
    snapshot the checks let through whose numbers fit 64 bits, rendered into
    more than 45000 bytes, a JSON reader of the string in the buffer recovers
    the object of the snapshot's fields, to the last character. *)
Theorem status_roundtrip s data size :
  snapshot_valid s = true -> Forall is_u64 (snapshot_numbers s) ->
  45000 < size <= Z.of_nat (length data) ->
  exists out fuel, is_provider_observability_render_status (Some s) (Some data) size =
      (Some out, IS_OBSERVABILITY_OK) /\
    parse_json fuel (c_string out) = Some (status_json s, [10]).
Proof.
  intros Hv Hn Hs. apply snapshot_valid_reportable in Hv. pose proof (status_length s Hv) as Hl.
  unfold is_provider_observability_render_status.
  rewrite (render_written _ (status_text s)); [|done|apply status_written|unfold INT_MAX; lia|lia].
  rewrite (proj2 (Z.leb_gt _ _)) by lia. exists (buf_write data 0 (take (Z.to_nat (size - 1)) (status_text s) ++ [0])).
  exists (json_cost (status_json s)). split; [done|]. rewrite rendered_string; [|by eapply renders_nonzero; [| |left]|lia].
  apply (parse_print (json_cost (status_json s))); [by apply status_plain| |done].
  by intros c [= <-].
Qed.

(** ** Serving *)

(** The socket takes [n] bytes, however few at a time and however often it is
    interrupted. *)
Definition takes_some (call : accepting) : Prop :=
  match call with SendInterrupted => True | SendResult n => 0 < n end.
Definition result_calls (calls : list accepting) : nat :=
  count (fun call => match call with SendInterrupted => false | SendResult _ => true end) calls.
Definition willing (c : client) (n : nat) : Prop :=
  Forall takes_some (cl_accepting c) /\ (n <= result_calls (cl_accepting c))%nat.

Lemma send_loop_all calls data c n :
  Forall takes_some calls -> (length data + n <= result_calls calls)%nat ->
  exists c', send_loop calls data c = Some (c', 0) /\ cl_sent c' = cl_sent c ++ data /\ willing c' n.
Proof.
  revert data c. induction calls as [|call calls IH]; intros data c Hc Hn.
  { destruct data as [|x data]; [|unfold result_calls, count in Hn; cbn in Hn; lia].
    eexists. split; [done|]. cbn in *. rewrite app_nil_r. split; [done|]. split; [done|cbn; lia]. }
  destruct data as [|x data].
  { eexists. split; [done|]. cbn -[result_calls] in *. rewrite app_nil_r. split; [done|]. split; [done|cbn -[result_calls]; lia]. }
  apply list.Forall_cons in Hc as [Hx Hc]. unfold result_calls, count in Hn. cbn [sum_list_with] in Hn.
  change (sum_list_with _ calls) with (result_calls calls) in Hn.
  destruct call as [|m]; cbn [send_loop].
  - apply IH; [done|]. cbn [b2n] in Hn. lia.
  - cbn in Hx. replace (m <=? 0) with false by lia.
    destruct (IH (drop (Z.to_nat m) (x :: data)) (c <| cl_sent := cl_sent c ++ take (Z.to_nat m) (x :: data) |>) Hc)
      as (c' & E & Es & Hw).
    { rewrite length_drop. cbn [length b2n] in *. lia. }
    exists c'. rewrite E. split; [done|]. split; [|done]. rewrite Es. cbn [cl_sent update client_eta].
    change (cl_sent (c <| cl_sent := ?t |>)) with t. rewrite <- app_assoc. by rewrite take_drop.
Qed.

(** A complete response. *)
Definition response (status : Z) (content_type : string) (body : list Z) : list Z :=
  http_header status content_type (Z.of_nat (length body)) ++ body.

Definition content_types : list string :=
  [plain; "application/json; charset=utf-8";
   "application/openmetrics-text; version=1.0.0; charset=utf-8"]%string.

Lemma length_printf conversion format arguments k :
  (length (printf_onto conversion format arguments k) <=
     length format + sum_list_with length arguments + length k)%nat.
Proof.
  revert conversion arguments. induction format as [|c format IH]; intros conversion arguments; cbn; [lia|].
  destruct conversion.
  - destruct (_ || _); [|specialize (IH true arguments); lia]. destruct arguments as [|a arguments]; cbn; [lia|].
    rewrite length_app. specialize (IH false arguments). lia.
  - destruct (c =? 37); [specialize (IH true arguments); lia|]. cbn. specialize (IH false arguments). lia.
Qed.

(** The header fits its array, so that a response is sent. *)
Lemma header_fits status content_type body_size :
  content_type ∈ content_types -> (0 < length (http_header status content_type body_size) < 512)%nat.
Proof.
  intros Hc. unfold http_header. rewrite <- (app_nil_r (printf _ _)), printf_before. cbn [fmap list_fmap show].
  pose proof (length_print_digits 20 status) as H1. pose proof (length_print_digits 20 body_size) as H2.
  assert (H3 : (length (chars (if (status =? 200)%Z then "OK" else if (status =? 404)%Z then "Not Found"
    else "Service Unavailable")) <= 19)%nat) by (repeat case_match; cbn; lia).
  assert (H4 : (length (chars content_type) <= 60)%nat).
  { unfold content_types in Hc. repeat (apply elem_of_cons in Hc as [->|Hc]; [vm_compute; lia|]). by apply elem_of_nil in Hc. }
  unfold print_unsigned. set (f := literal _). set (args := [_; _; _; _]).
  pose proof (length_printf false f args []) as Hl. assert (Hf : (length f <= 130)%nat) by (apply Nat.leb_le; vm_compute; reflexivity).
  assert (Hh : head f = Some 72) by (vm_compute; reflexivity). clearbody f.
  destruct f as [|x g]; [done|]. injection Hh as ->. split; [cbn [printf_onto Z.eqb Pos.eqb length]; lia|].
  unfold args in *. cbn [sum_list_with length] in Hl, Hf |- *. lia.
Qed.

Lemma send_response_all c status content_type body :
  content_type ∈ content_types -> willing c (length (response status content_type body)) ->
  exists c', send_response c status content_type body = Some c' /\
    cl_sent c' = cl_sent c ++ response status content_type body.
Proof.
  intros Ht. pose proof (header_fits status content_type (Z.of_nat (length body)) Ht) as Hf. revert Hf.
  unfold send_response, response, send_all. generalize (http_header status content_type (Z.of_nat (length body))).
  intros header Hf [Hw Hn]. rewrite length_app in Hn. replace (_ || _) with false by lia.
  destruct (send_loop_all _ _ c _ Hw Hn) as (c1 & -> & E1 & Hw1 & Hn1). cbn [Z.eqb].
  destruct (send_loop_all (cl_accepting c1) body c1 0 Hw1 ltac:(lia)) as (c2 & E & E2 & _).
  rewrite E. exists c2. split; [done|]. by rewrite E2, E1, <- app_assoc.
Qed.

(** What a request is answered. *)
Definition not_found : list Z := response 404 plain (literal "not found\n").

Definition report (request : list Z) (snapshot : is_provider_observability_snapshot) (allocated : bool) :
    list Z :=
  if starts_with "GET /healthz HTTP/1." request
  then if os_healthy snapshot then response 200 plain (literal "healthy\n")
       else response 503 plain (literal "degraded\n")
  else if negb allocated then response 503 plain (literal "render unavailable\n")
  else if starts_with "GET /status HTTP/1." request
  then response 200 "application/json; charset=utf-8" (status_text snapshot)
  else if starts_with "GET /metrics HTTP/1." request
  then response 200 "application/openmetrics-text; version=1.0.0; charset=utf-8" (metrics_text snapshot)
  else not_found.

Definition answer (request : list Z) (snapshot : option is_provider_observability_snapshot)
    (allocated : bool) : list Z :=
  if negb (starts_with "GET /" request) then not_found
  else match snapshot with
       | None => response 503 plain (literal "snapshot unavailable\n")
       | Some snapshot => report request snapshot allocated
       end.

Lemma willing_less c m n : (m <= n)%nat -> willing c n -> willing c m.
Proof. intros Hl [H1 H2]. split; [done|lia]. Qed.

(** No answer is longer than this. *)
Lemma answer_length request snapshot allocated :
  (forall x, snapshot = Some x -> reportable x) ->
  (length (answer request snapshot allocated) <= Z.to_nat 120000)%nat.
Proof.
  intros Hs. assert (Hr : forall status content_type body, content_type ∈ content_types ->
    Z.of_nat (length body) <= 110000 -> (length (response status content_type body) <= Z.to_nat 120000)%nat).
  { intros status content_type body Ht Hl. pose proof (header_fits status content_type (Z.of_nat (length body)) Ht).
    unfold response. rewrite length_app. lia. }
  assert (Hplain : plain ∈ content_types) by (unfold content_types; constructor).
  unfold answer, report, not_found.
  repeat case_match; (apply Hr; [done || unfold content_types; by repeat constructor|]).
  all: match goal with
       | |- context [status_text] => pose proof (status_length _ (Hs _ eq_refl)); lia
       | |- context [metrics_text] => by apply metrics_length, Hs
       | _ => apply Z.leb_le; vm_compute; reflexivity
       end.
Qed.

#[local] Opaque response literal status_text metrics_text render.

Section Serving.
Context {S : Type} (take_snapshot : S -> S * option is_provider_observability_snapshot).

Lemma send_rendered_text body text content_type c s data :
  reportable s -> Forall is_u64 (snapshot_numbers s) -> renders body s text -> content_type ∈ content_types ->
  length data = Z.to_nat IS_OBSERVABILITY_RESPONSE_MAX -> willing c (length (response 200 content_type text)) ->
  exists c', send_rendered c content_type (render body (Some s) (Some data) IS_OBSERVABILITY_RESPONSE_MAX) = Some c' /\
    cl_sent c' = cl_sent c ++ response 200 content_type text.
Proof.
  intros Hr Hn Ht Hc Hd Hw. destruct (renders_written _ _ _ Hr Ht) as [Hb Hl].
  assert (Hm : 110000 < IS_OBSERVABILITY_RESPONSE_MAX <= Z.of_nat (length data)).
  { rewrite Hd. unfold IS_OBSERVABILITY_RESPONSE_MAX. lia. }
  rewrite (render_written _ text); [|done|done|unfold INT_MAX; lia|lia].
  rewrite (proj2 (Z.leb_gt _ _)) by lia. cbn [send_rendered].
  rewrite rendered_string; [|by eapply renders_nonzero|lia]. by apply send_response_all.
Qed.

Lemma sends_pair (s : S) (o : option client) c text :
  (exists c', o = Some c' /\ cl_sent c' = cl_sent c ++ text) ->
  exists c', pair s <$> o = Some (s, c') /\ cl_sent c' = cl_sent c ++ text.
Proof. intros (c' & -> & E). by exists c'. Qed.

(** Every request gets exactly its answer.  Once the client has sent a
    request the server can read, and its socket takes the bytes of the answer,
    however few at a time, the server sends one complete response and nothing
    else: 404 outside of the three resources, the health of the daemon, the
    JSON status or the metrics of the snapshot, and 503 when there is no
    snapshot or no memory.  A status or metrics response is never refused for
    its size. *)
Theorem request_answered body s c request :
  let '(s', snapshot) := take_snapshot s in
  let expected := answer request snapshot (bool_decide (is_Some body)) in
  read_request c = Some (Some request) ->
  (forall x, snapshot = Some x -> snapshot_valid x = true /\ Forall is_u64 (snapshot_numbers x)) ->
  (forall data, body = Some data -> length data = Z.to_nat IS_OBSERVABILITY_RESPONSE_MAX) ->
  willing c (length expected) ->
  exists c', serve_client take_snapshot body s c =
      Some (if starts_with "GET /" request then s' else s, c') /\
    cl_sent c' = cl_sent c ++ expected.
Proof.
  unfold serve_client. destruct (take_snapshot s) as [s' snapshot]. intros -> Hs Hb Hw. unfold answer, not_found in *.
  assert (Hplain : plain ∈ content_types) by (unfold content_types; constructor).
  destruct (starts_with "GET /" request); cbn [negb] in *;
    [|apply sends_pair, send_response_all; [exact Hplain|exact Hw]].
  apply sends_pair. destruct snapshot as [x|]; [|apply send_response_all; [exact Hplain|exact Hw]].
  destruct (Hs x eq_refl) as [Hv Hn]. apply snapshot_valid_reportable in Hv. unfold report, not_found in *.
  destruct (starts_with "GET /healthz HTTP/1." request).
  { destruct (os_healthy x); (apply send_response_all; [exact Hplain|exact Hw]). }
  destruct body as [data|];
    [rewrite bool_decide_eq_true_2 in * by done
    |rewrite bool_decide_eq_false_2 in * by apply is_Some_None]; cbn [negb] in *;
    [|apply send_response_all; [exact Hplain|exact Hw]].
  destruct (starts_with "GET /status HTTP/1." request).
  { apply (send_rendered_text append_status); [exact Hv|exact Hn|by left| |exact (Hb data eq_refl)|exact Hw].
    unfold content_types. do 2 constructor. }
  destruct (starts_with "GET /metrics HTTP/1." request); [|apply send_response_all; [exact Hplain|exact Hw]].
  apply (send_rendered_text append_metrics); [exact Hv|exact Hn|by right| |exact (Hb data eq_refl)|exact Hw].
  unfold content_types. do 3 constructor.
Qed.
End Serving.

(** A client that has connected and never completes a request keeps the only
    thread of the server: no later client is served, and the loop does not
    see [running] change. *)
Lemma silent_client_keeps_server {S} (take_snapshot : S -> S * option is_provider_observability_snapshot)
    c body still_running turns s served :
  read_request c = None ->
  run_server take_snapshot ((true, Accepted c body, still_running) :: turns) s served = None.
Proof. intros Hr. cbn [run_server negb]. unfold serve_client. by rewrite Hr. Qed.

Lemma half_request_waits bytes :
  strstr (c_string bytes) (literal "\r\n\r\n") = false -> (length bytes < 1023)%nat ->
  read_request {| cl_incoming := [RecvBytes bytes]; cl_accepting := []; cl_sent := [] |} = None \/ bytes = [].
Proof.
  intros Hf Hl. destruct bytes as [|x bytes]; [by right|left]. unfold read_request. cbn [cl_incoming read_loop].
  change (IS_OBSERVABILITY_REQUEST_MAX <=? Z.of_nat (length []) + 1) with false.
  rewrite take_ge by (cbn [length] in *; change (Z.to_nat _) with 1023%nat; lia).
  rewrite bool_decide_eq_false_2 by done. cbn [app]. rewrite Hf.
  destruct (Z.leb_spec IS_OBSERVABILITY_REQUEST_MAX (Z.of_nat (length (x :: bytes)) + 1)); [|done].
  unfold IS_OBSERVABILITY_REQUEST_MAX in *. lia.
Qed.

(** ** The snapshot of the repository's contract test *)

Definition ex_consumer : is_provider_consumer_snapshot :=
  {| oc_consumer_id := buf_write (zeros 64) 0 (chars "consumer-a");
     oc_state := IS_PROVIDER_CONSUMER_READY; oc_mode := IS_PROTOCOL_MODE_BACKED;
     oc_pool := IS_PROTOCOL_POOL_OPPORTUNISTIC; oc_failure_deadline_ms := 2000;
     oc_connection_count := 0; oc_assigned_opportunistic_chunks := 6;
     oc_assigned_committed_chunks := 0; oc_inflight_control_requests := 1;
     oc_last_error_code := 0 |}.

Definition ex_snapshot : is_provider_observability_snapshot :=
  {| os_provider_id := buf_write (zeros 64) 0 (chars "provider-a"); os_healthy := true;
     os_host_reserve_chunks := 8; os_max_opportunistic_chunks := 24; os_max_committed_chunks := 8;
     os_allocated_opportunistic_chunks := 10; os_assigned_opportunistic_chunks := 6;
     os_allocated_committed_chunks := 0; os_assigned_committed_chunks := 0;
     os_available_opportunistic_chunks := 12; os_available_committed_chunks := 4;
     os_quarantined_chunks := 0; os_active_connections := 1; os_admissions_total := 9;
     os_admission_rejections_total := 2; os_pressure_reclaims_total := 0;
     os_authentication_failures_total := 1; os_deadline_expiries_total := 3;
     os_connections_total := 0; os_disconnections_total := 0; os_control_errors_total := 0;
     os_last_rejection := IS_MEMORY_REJECTION_HOST_RESERVE; os_consumer_count := 1;
     os_consumers := ex_consumer :: replicate 63 zero_consumer |}.

Lemma ex_snapshot_numbers : Forall is_u64 (snapshot_numbers ex_snapshot).
Proof. repeat (constructor; [by split|]). constructor. Qed.

Lemma ex_valid : snapshot_valid ex_snapshot = true.
Proof. by vm_compute. Qed.

(** src/infiniswap_daemon/tests/provider-status-v1.json is what the model
    renders. *)
Lemma golden_status :
  (fun r => (c_string <$> r.1, r.2))
    (is_provider_observability_render_status (Some ex_snapshot) (Some (zeros (Z.to_nat 32768))) 32768) =
  (Some (literal
  ("{'schema_version':1,'kind':'infiniswap.provider-status'," ++
   "'provider':{'provider_id':'provider-a','state':'healthy','active_connections':1}," ++
   "'pools':[{'name':'opportunistic','max_chunks':24,'allocated_chunks':10," ++
   "'assigned_chunks':6,'available_chunks':12},{'name':'committed','max_chunks':8," ++
   "'allocated_chunks':0,'assigned_chunks':0,'available_chunks':4}]," ++
   "'chunks':{'size_bytes':1073741824,'host_reserve_chunks':8,'allocated_chunks':10," ++
   "'assigned_chunks':6,'quarantined_chunks':0},'consumers':[{'consumer_id':'consumer-a'," ++
   "'state':'ready','mode':'backed','pool':'opportunistic','failure_deadline_ms':2000," ++
   "'connection_count':0,'assigned_opportunistic_chunks':6,'assigned_committed_chunks':0," ++
   "'inflight_control_requests':1,'last_error_code':0}],'metrics':{'admissions_total':9," ++
   "'admission_rejections_total':2,'pressure_reclaims_total':0," ++
   "'authentication_failures_total':1,'deadline_expiries_total':3,'connections_total':0," ++
   "'disconnections_total':0,'control_errors_total':0}," ++
   "'last_error':{'code':'host_reserve'}}\n")%string), IS_OBSERVABILITY_OK).
Proof. vm_compute. reflexivity. Qed.

Definition ex_output : list Z := zeros (Z.to_nat 50000).

Lemma ex_output_length n : 0 < n <= 50000 -> n <= Z.of_nat (length ex_output).
Proof. unfold ex_output, zeros. rewrite length_replicate. lia. Qed.

#[local] Opaque ex_output.

(** Twenty bytes are too few, and none past them is written. *)
Lemma render_in_bounds_witness :
  exists out, render append_status (Some ex_snapshot) (Some ex_output) 20 = (Some out, IS_OBSERVABILITY_NO_SPACE) /\
    drop 20 out = drop 20 ex_output.
Proof.
  destruct (render_in_bounds append_status (status_text ex_snapshot) ex_snapshot ex_output 20)
    as (out & result & E & _ & Ed & _ & Hn & _).
  - by left.
  - exact ex_valid.
  - split; [done|]. by apply ex_output_length.
  - exists out. rewrite E. split; [|exact Ed]. f_equal. apply Hn. apply Z.leb_le. by vm_compute.
Defined.

Lemma status_roundtrip_witness :
  exists out fuel, is_provider_observability_render_status (Some ex_snapshot) (Some ex_output) 50000 =
      (Some out, IS_OBSERVABILITY_OK) /\
    parse_json fuel (c_string out) = Some (status_json ex_snapshot, [10]).
Proof.
  apply (status_roundtrip ex_snapshot ex_output 50000).
  - exact ex_valid.
  - exact ex_snapshot_numbers.
  - split; [done|]. by apply ex_output_length.
Defined.

Definition ex_request : list Z := literal "GET /status HTTP/1.1\r\n\r\n".

(** The request arrives in two pieces; the response leaves ten bytes at a
    time. *)
Definition ex_client : client :=
  {| cl_incoming := [RecvBytes (take 9 ex_request); RecvInterrupted; RecvBytes (drop 9 ex_request)];
     cl_accepting := SendInterrupted :: replicate 2000 (SendResult 10); cl_sent := [] |}.

Definition ex_body : list Z := zeros (Z.to_nat IS_OBSERVABILITY_RESPONSE_MAX).

Lemma ex_body_length : length ex_body = Z.to_nat IS_OBSERVABILITY_RESPONSE_MAX.
Proof. unfold ex_body, zeros. by rewrite length_replicate. Qed.

#[local] Opaque ex_body.

Lemma ex_client_willing :
  willing ex_client (length (answer ex_request (Some ex_snapshot) true)).
Proof.
  split; [|apply Nat.leb_le; vm_compute; reflexivity].
  constructor; [done|]. cbn [ex_client cl_accepting]. apply list.Forall_forall. intros x Hx.
  by apply elem_of_replicate in Hx as [-> _].
Qed.

Lemma ex_answer :
  answer ex_request (Some ex_snapshot) true =
    response 200 "application/json; charset=utf-8" (status_text ex_snapshot).
Proof.
  unfold answer, report. rewrite (eq_refl : starts_with "GET /" ex_request = true).
  rewrite (eq_refl : starts_with "GET /healthz HTTP/1." ex_request = false).
  by rewrite (eq_refl : starts_with "GET /status HTTP/1." ex_request = true).
Qed.

Lemma ex_reads : read_request ex_client = Some (Some ex_request).
Proof. by vm_compute. Qed.

Lemma ex_gets : starts_with "GET /" ex_request = true.
Proof. by vm_compute. Qed.

#[local] Opaque answer ex_request ex_snapshot ex_client.

Lemma request_answered_witness :
  exists c', serve_client (fun s : unit => (s, Some ex_snapshot)) (Some ex_body) tt ex_client = Some (tt, c') /\
    cl_sent c' = cl_sent ex_client ++ response 200 "application/json; charset=utf-8" (status_text ex_snapshot).
Proof.
  pose proof (request_answered (fun s : unit => (s, Some ex_snapshot)) (Some ex_body) tt ex_client ex_request) as H.
  cbv beta iota zeta in H. rewrite bool_decide_eq_true_2 in H by done.
  destruct H as (c' & E & Es).
  - exact ex_reads.
  - intros x Hx. injection Hx as <-. split; [exact ex_valid|exact ex_snapshot_numbers].
  - intros data Hd. injection Hd as <-. exact ex_body_length.
  - exact ex_client_willing.
  - rewrite ex_gets in E. exists c'. rewrite E. split; [reflexivity|]. rewrite Es, ex_answer. reflexivity.
Defined.
