(* ===== verification/MemoryManagerInv.v ===== *)
(** * The invariant of the memory manager

    A chunk has one of four shapes; the manager's counters are the numbers of
    chunks of each shape; the connections' counters are the numbers of chunks
    they own, within the limits of their Consumer; and the memory blocks and
    registrations the manager holds are exactly those of its chunks. *)
From S2P Require Import Prelude MemoryManager.

(** ** Shapes of a chunk *)

Definition pool_ok (p : Z) : Prop :=
  p = IS_MEMORY_POOL_OPPORTUNISTIC \/ p = IS_MEMORY_POOL_COMMITTED.

Inductive chunk_ok : is_memory_chunk -> Prop :=
| chunk_empty : chunk_ok empty_chunk
| chunk_free a : a <> 0 ->
    chunk_ok {| address := a; registration := 0; owner := 0; registration_adapter := 0;
                pool := IS_MEMORY_POOL_OPPORTUNISTIC; quarantined := false |}
| chunk_assigned a r o g p : a <> 0 -> r <> 0 -> o <> 0 -> pool_ok p ->
    chunk_ok {| address := a; registration := r; owner := o; registration_adapter := g;
                pool := p; quarantined := false |}
| chunk_quarantined a r g p : a <> 0 -> r <> 0 -> pool_ok p ->
    chunk_ok {| address := a; registration := r; owner := 0; registration_adapter := g;
                pool := p; quarantined := true |}.

(** ** Counting chunks *)

Definition allocated_in (p : Z) (c : is_memory_chunk) : bool :=
  negb (address c =? 0) && (pool c =? p).
Definition assigned_in (p : Z) (c : is_memory_chunk) : bool :=
  negb (owner c =? 0) && (pool c =? p).
Definition held_by (own p : Z) (c : is_memory_chunk) : bool := (owner c =? own) && (pool c =? p).
Definition at_address (a : Z) (c : is_memory_chunk) : bool := address c =? a.
Definition at_registration (g r : Z) (c : is_memory_chunk) : bool :=
  (registration_adapter c =? g) && (registration c =? r).

Arguments allocated_in p c /.
Arguments assigned_in p c /.
Arguments held_by own p c /.
Arguments at_address a c /.
Arguments at_registration g r c /.

(** ** Connections *)

(** Sum over the connections of one Consumer. *)
Definition consumer_total (f : is_memory_connection -> Z) (conns : list is_memory_connection)
    (id : list Z) : Z :=
  foldr (fun c t => if decide (consumer_id c = id) then f c + t else t) 0 conns.

Definition limits (c : is_memory_connection) : Z * Z * Z :=
  (max_connections c, max_opportunistic_chunks c, max_committed_chunks c).

Record conn_ok (cs : list is_memory_chunk) (conns : list is_memory_connection)
    (c : is_memory_connection) : Prop := {
  c_owner : conn_owner c <> 0;
  c_limits : is_u32 (max_connections c) /\ is_u32 (max_opportunistic_chunks c) /\
             is_u32 (max_committed_chunks c);
  c_opportunistic : conn_assigned_opportunistic_chunks c
    = Z.of_nat (count (held_by (conn_owner c) IS_MEMORY_POOL_OPPORTUNISTIC) cs);
  c_committed : conn_assigned_committed_chunks c
    = Z.of_nat (count (held_by (conn_owner c) IS_MEMORY_POOL_COMMITTED) cs);
  c_quota_opportunistic :
    consumer_total conn_assigned_opportunistic_chunks conns (consumer_id c)
      <= max_opportunistic_chunks c;
  c_quota_committed :
    consumer_total conn_assigned_committed_chunks conns (consumer_id c)
      <= max_committed_chunks c;
  c_connections : consumer_total (fun _ => 1) conns (consumer_id c) <= max_connections c;
  c_same : forall c', c' ∈ conns -> consumer_id c' = consumer_id c -> limits c' = limits c
}.

Record conns_ok (cs : list is_memory_chunk) (conns : list is_memory_connection) : Prop := {
  cs_nodup : NoDup (conn_owner <$> conns);
  cs_each : forall c, c ∈ conns -> conn_ok cs conns c;
  cs_owned : forall o p, o <> 0 -> (0 < count (held_by o p) cs)%nat ->
    exists c, c ∈ conns /\ conn_owner c = o
}.

(** ** The manager *)

Record cfg_ok (c : is_memory_manager_config) : Prop := {
  g_reserve : is_u32 (host_reserve_gib c);
  g_opportunistic : is_u32 (max_opportunistic_gib c);
  g_committed : is_u32 (max_committed_gib c);
  g_valid : config_valid c = true
}.

Record accounting (m : is_memory_manager) : Prop := {
  a_opportunistic : allocated_opportunistic_chunks m
    = Z.of_nat (count (allocated_in IS_MEMORY_POOL_OPPORTUNISTIC) (chunks m));
  a_committed : allocated_committed_chunks m
    = Z.of_nat (count (allocated_in IS_MEMORY_POOL_COMMITTED) (chunks m));
  a_assigned_opportunistic : assigned_opportunistic_chunks m
    = Z.of_nat (count (assigned_in IS_MEMORY_POOL_OPPORTUNISTIC) (chunks m));
  a_assigned_committed : assigned_committed_chunks m
    = Z.of_nat (count (assigned_in IS_MEMORY_POOL_COMMITTED) (chunks m));
  a_quarantined : quarantined_chunks m = Z.of_nat (count quarantined (chunks m))
}.

Record manager_inv (m : is_memory_manager) : Prop := {
  m_config : cfg_ok (config m);
  m_length : Z.of_nat (length (chunks m))
    = max_opportunistic_gib (config m) + max_committed_gib (config m);
  m_chunks : Forall chunk_ok (chunks m);
  m_accounting : accounting m;
  m_limit_opportunistic : allocated_opportunistic_chunks m <= max_opportunistic_gib (config m);
  m_limit_committed : allocated_committed_chunks m <= max_committed_gib (config m);
  m_connections : conns_ok (chunks m) (connections m);
  m_capacity : Z.of_nat (length (connections m)) <= connection_capacity m < 2 ^ 64
}.

Lemma chunk_capacity_small m : manager_inv m -> (length (chunks m) <= 128)%nat.
Proof.
  intros H. pose proof (m_length _ H). pose proof (g_valid _ (m_config _ H)) as Hv.
  unfold config_valid, IS_MEMORY_MAX_RUNTIME_CHUNKS in Hv. lia.
Qed.

(** ** What the adapters promise

    [blocks w a] counts the live memory blocks at [a], [regs w g r] the live
    registrations [r] of the adapter [g].  A failed allocation leaves the out
    parameter alone (posix_memalign), which is NULL there; a failed
    registration returns NULL. *)
Class MemoryAdapterLaws (W : Type) {adapters : MemoryAdapters W} := {
  blocks : W -> Z -> nat;
  regs : W -> Z -> Z -> nat;
  read_frame w : blocks (read_available_bytes w).1 = blocks w /\
    regs (read_available_bytes w).1 = regs w;
  read_bytes w : is_u64 (read_available_bytes w).2.2;
  heap_frame w : blocks (heap w).1 = blocks w /\ regs (heap w).1 = regs w;
  touch_frame a w : blocks (touch a w).1 = blocks w /\ regs (touch a w).1 = regs w;
  allocate_ok w w' a : allocate w = (w', (0, a)) ->
    a <> 0 /\ regs w' = regs w /\ forall x, blocks w' x = (blocks w x + b2n (Z.eqb a x))%nat;
  allocate_fail w w' status a : allocate w = (w', (status, a)) -> status <> 0 ->
    a = 0 /\ regs w' = regs w /\ blocks w' = blocks w;
  release_ok a w : (0 < blocks w a)%nat ->
    regs (release a w) = regs w /\
    forall x, (blocks (release a w) x + b2n (Z.eqb a x) = blocks w x)%nat;
  register_ok g a w w' r : register_chunk g a w = (w', r) -> r <> 0 ->
    blocks w' = blocks w /\
    forall h x, regs w' h x = (regs w h x + b2n (Z.eqb g h && Z.eqb r x))%nat;
  register_fail g a w w' : register_chunk g a w = (w', 0) ->
    blocks w' = blocks w /\ regs w' = regs w;
  deregister_ok g r w w' : deregister_chunk g r w = (w', 0) -> (0 < regs w g r)%nat ->
    blocks w' = blocks w /\
    forall h x, (regs w' h x + b2n (Z.eqb g h && Z.eqb r x) = regs w h x)%nat;
  deregister_fail g r w w' status : deregister_chunk g r w = (w', status) -> status <> 0 ->
    blocks w' = blocks w /\ regs w' = regs w
}.

(** The manager holds the blocks and registrations of its chunks, besides
    those ([B], [R]) that are not its own. *)
Definition owns {W} {adapters : MemoryAdapters W} {laws : MemoryAdapterLaws W}
    (B : Z -> nat) (R : Z -> Z -> nat) (cs : list is_memory_chunk) (w : W) : Prop :=
  (forall a, a <> 0 -> blocks w a = (B a + count (at_address a) cs)%nat) /\
  (forall g r, r <> 0 -> regs w g r = (R g r + count (at_registration g r) cs)%nat).

(** * The memory manager's operations preserve its invariant *)

Lemma alter_insert {A} (f : A -> A) i (l : list A) x :
  l !! i = Some x -> alter f i l = <[i := f x]> l.
Proof. intros H. rewrite list_insert_alter. apply list_alter_ext; [|done]. naive_solver. Qed.

(** ** Connections *)

Lemma consumer_total_insert f conns i c c' id :
  conns !! i = Some c -> consumer_id c' = consumer_id c ->
  consumer_total f (<[i := c']> conns) id
    = consumer_total f conns id + if decide (consumer_id c = id) then f c' - f c else 0.
Proof.
  intros Hi Hid. unfold consumer_total. rewrite insert_take_drop by (by eapply lookup_lt_Some).
  rewrite <- (take_drop_middle conns i c Hi) at 3. rewrite !foldr_app. cbn. rewrite Hid.
  case_decide.
  - generalize (foldr (fun c t => if decide (consumer_id c = id) then f c + t else t) 0
      (drop (S i) conns)) as t. intros t. induction (take i conns) as [|x l IH]; cbn; [lia|].
    case_decide; rewrite IH; lia.
  - lia.
Qed.

Lemma owner_unique conns c c' :
  NoDup (conn_owner <$> conns) -> c ∈ conns -> c' ∈ conns -> conn_owner c = conn_owner c' ->
  c = c'.
Proof.
  intros Hnd [i Hi]%list_elem_of_lookup [j Hj]%list_elem_of_lookup Ho.
  assert (i = j) as ->; [|congruence].
  eapply NoDup_lookup; [exact Hnd| |]; rewrite list_lookup_fmap; [by rewrite Hi|].
  by rewrite Hj, Ho.
Qed.

(** One connection's counters change with the chunks it owns. *)
Lemma conns_ok_update cs cs' conns i c c' :
  conns_ok cs conns -> conns !! i = Some c ->
  consumer_id c' = consumer_id c -> conn_owner c' = conn_owner c -> limits c' = limits c ->
  (forall o p, o <> 0 -> o <> conn_owner c -> count (held_by o p) cs' = count (held_by o p) cs) ->
  conn_assigned_opportunistic_chunks c'
    = Z.of_nat (count (held_by (conn_owner c) IS_MEMORY_POOL_OPPORTUNISTIC) cs') ->
  conn_assigned_committed_chunks c'
    = Z.of_nat (count (held_by (conn_owner c) IS_MEMORY_POOL_COMMITTED) cs') ->
  consumer_total conn_assigned_opportunistic_chunks conns (consumer_id c) +
    (conn_assigned_opportunistic_chunks c' - conn_assigned_opportunistic_chunks c)
    <= max_opportunistic_chunks c ->
  consumer_total conn_assigned_committed_chunks conns (consumer_id c) +
    (conn_assigned_committed_chunks c' - conn_assigned_committed_chunks c)
    <= max_committed_chunks c ->
  conns_ok cs' (<[i := c']> conns).
Proof.
  intros [Hnd Heach Hown] Hi Hid Ho Hlim Hcount Hopp Hcom Hqo Hqc.
  assert (Hfmap : conn_owner <$> <[i := c']> conns = conn_owner <$> conns).
  { rewrite list_fmap_insert, Ho. apply list_insert_id. by rewrite list_lookup_fmap, Hi. }
  assert (Hc : c ∈ conns) by (by eapply list_elem_of_lookup_2).
  assert (Hlen := lookup_lt_Some _ _ _ Hi).
  assert (Hin : forall x, x ∈ <[i := c']> conns ->
    x = c' \/ (x ∈ conns /\ x <> c /\ conn_owner x <> conn_owner c)).
  { intros x [j Hj]%list_elem_of_lookup. apply list_lookup_insert_Some in Hj
      as [(-> & <- & _)|[Hne Hj]]; [by left|]. right.
    assert (conn_owner x <> conn_owner c); [|naive_solver eauto using list_elem_of_lookup_2].
    intros E. apply Hne. eapply NoDup_lookup; [exact Hnd| |]; rewrite list_lookup_fmap;
      [by rewrite Hi|]. rewrite Hj. cbn. by rewrite E. }
  pose proof (Heach c Hc) as [Hc1 Hc2 Hc3 Hc4 Hc5 Hc6 Hc7 Hc8].
  assert (Hlim' : forall x y, limits x = limits y -> max_connections x = max_connections y /\
    max_opportunistic_chunks x = max_opportunistic_chunks y /\
    max_committed_chunks x = max_committed_chunks y) by (unfold limits; naive_solver).
  constructor.
  - by rewrite Hfmap.
  - intros x Hx. destruct (Hin x Hx) as [->|(Hx' & _ & Hxo)].
    + destruct (Hlim' _ _ Hlim) as (L1 & L2 & L3).
      constructor; rewrite ?L1, ?L2, ?L3, ?Ho, ?Hid; try done.
      * rewrite (consumer_total_insert _ _ _ c) by done. case_decide; [lia|done].
      * rewrite (consumer_total_insert _ _ _ c) by done. case_decide; [lia|done].
      * rewrite (consumer_total_insert _ _ _ c) by done. case_decide; lia.
      * intros x Hx2 Hxid. rewrite Hlim. destruct (Hin x Hx2) as [->|(? & _)]; auto.
    + destruct (Heach x Hx') as [Hx1 Hx2 Hx3 Hx4 Hx5 Hx6 Hx7 Hx8].
      constructor; rewrite ?Hcount by done; try done.
      * rewrite (consumer_total_insert _ _ _ c) by done. case_decide as E; [|lia].
        destruct (Hlim' _ _ (Hx8 c Hc E)) as (_ & L & _). rewrite <- E. lia.
      * rewrite (consumer_total_insert _ _ _ c) by done. case_decide as E; [|lia].
        destruct (Hlim' _ _ (Hx8 c Hc E)) as (_ & _ & L). rewrite <- E. lia.
      * rewrite (consumer_total_insert _ _ _ c) by done. case_decide; lia.
      * intros y Hy Hyid. destruct (Hin y Hy) as [->|(? & _)]; [|auto]. rewrite Hlim.
        rewrite Hid in Hyid. auto.
  - intros o p Ho0 Hpos. destruct (decide (o = conn_owner c)) as [->|Hne].
    + exists c'. split; [|done]. apply list_elem_of_lookup. exists i. by apply list_lookup_insert_eq.
    + rewrite Hcount in Hpos by done. destruct (Hown o p Ho0 Hpos) as (x & Hx & Hxo).
      exists x. split; [|done]. apply list_elem_of_lookup in Hx as [j Hj].
      apply list_elem_of_lookup. exists j. rewrite list_lookup_insert_ne; [done|].
      intros ->. naive_solver.
Qed.

(** Chunks whose owners do not change. *)
Lemma conns_ok_chunks cs cs' conns :
  conns_ok cs conns ->
  (forall o p, o <> 0 -> count (held_by o p) cs' = count (held_by o p) cs) ->
  conns_ok cs' conns.
Proof.
  intros [Hnd Heach Hown] Hc. constructor; [done| |].
  - intros c Hin. destruct (Heach c Hin). constructor; rewrite ?Hc; done.
  - intros o p Ho Hp. rewrite Hc in Hp by done. eauto.
Qed.

(** ** Counting after one chunk changed *)

Ltac eqb_neq :=
  repeat match goal with
  | H : ?a <> ?b |- context [?a =? ?b] => rewrite (proj2 (Z.eqb_neq a b) H)
  | H : ?a <> ?b |- context [?b =? ?a] =>
      rewrite (proj2 (Z.eqb_neq b a) (fun e => H (eq_sym e)))
  | H : ?a <> ?b, K : context [?a =? ?b] |- _ => rewrite (proj2 (Z.eqb_neq a b) H) in K
  | H : ?a <> ?b, K : context [?b =? ?a] |- _ =>
      rewrite (proj2 (Z.eqb_neq b a) (fun e => H (eq_sym e))) in K
  | |- context [?a =? ?a] => rewrite (Z.eqb_refl a)
  | K : context [?a =? ?a] |- _ => rewrite (Z.eqb_refl a) in K
  end.

Ltac eval_pools :=
  change (IS_MEMORY_POOL_OPPORTUNISTIC =? IS_MEMORY_POOL_COMMITTED) with false in *;
  change (IS_MEMORY_POOL_COMMITTED =? IS_MEMORY_POOL_OPPORTUNISTIC) with false in *;
  change (0 =? IS_MEMORY_POOL_OPPORTUNISTIC) with false in *;
  change (0 =? IS_MEMORY_POOL_COMMITTED) with false in *.
(** [simpl_counts] evaluates the tests of the counted predicates. *)
Ltac simpl_counts :=
  cbn -[count Z.eqb] in *; eqb_neq; eval_pools; cbn -[count Z.eqb] in *.

Lemma reject_inv m reason : manager_inv m -> manager_inv (reject m reason).
Proof.
  intros [H1 H2 H3 [A1 A2 A3 A4 A5] H5 H6 H7 H8]. unfold reject.
  case_decide; (constructor; [done|done|done| |done|done|done|done]); by constructor.
Qed.

Lemma reject_fields m reason :
  config (reject m reason) = config m /\ chunks (reject m reason) = chunks m /\
  connections (reject m reason) = connections m.
Proof. unfold reject. by case_decide. Qed.

Lemma u32_pred x n : x = Z.of_nat n -> (0 < n <= 1000)%nat -> u32 (x - 1) = Z.of_nat (n - 1).
Proof. intros -> H. rewrite wrap_small by (unfold in_u; pow_lia). lia. Qed.

Lemma u32_add x n k : x = Z.of_nat n -> 0 <= k -> Z.of_nat n + k <= 1000 ->
  u32 (x + k) = Z.of_nat n + k.
Proof. intros -> Hk H. apply wrap_small. unfold in_u. pow_lia. Qed.

Lemma drop_assignment_fields m i p :
  config (drop_assignment m i p) = config m /\ chunks (drop_assignment m i p) = chunks m /\
  allocated_opportunistic_chunks (drop_assignment m i p) = allocated_opportunistic_chunks m /\
  allocated_committed_chunks (drop_assignment m i p) = allocated_committed_chunks m /\
  quarantined_chunks (drop_assignment m i p) = quarantined_chunks m /\
  connection_capacity (drop_assignment m i p) = connection_capacity m /\
  assigned_opportunistic_chunks (drop_assignment m i p)
    = (if p =? IS_MEMORY_POOL_OPPORTUNISTIC then u32 (assigned_opportunistic_chunks m - 1)
       else assigned_opportunistic_chunks m) /\
  assigned_committed_chunks (drop_assignment m i p)
    = (if p =? IS_MEMORY_POOL_OPPORTUNISTIC then assigned_committed_chunks m
       else u32 (assigned_committed_chunks m - 1)).
Proof. unfold drop_assignment. by destruct (p =? IS_MEMORY_POOL_OPPORTUNISTIC). Qed.

Definition drop_conn (p : Z) (c : is_memory_connection) : is_memory_connection :=
  if p =? IS_MEMORY_POOL_OPPORTUNISTIC
  then c <| conn_assigned_opportunistic_chunks := u32 (conn_assigned_opportunistic_chunks c - 1) |>
  else c <| conn_assigned_committed_chunks := u32 (conn_assigned_committed_chunks c - 1) |>.

Lemma drop_assignment_connections m i p c :
  connections m !! i = Some c ->
  connections (drop_assignment m i p) = <[i := drop_conn p c]> (connections m).
Proof.
  intros Hi. unfold drop_assignment, drop_conn.
  destruct (p =? IS_MEMORY_POOL_OPPORTUNISTIC); cbn;
    match goal with |- alter ?f _ _ = _ => exact (alter_insert f i _ c Hi) end.
Qed.

(** The connection of a chunk that it loses. *)
Lemma drop_conn_ok cs conns i c k ch y :
  conns_ok cs conns -> (length cs <= 128)%nat -> conns !! i = Some c -> cs !! k = Some ch ->
  owner ch = conn_owner c -> owner ch <> 0 -> pool_ok (pool ch) -> owner y = 0 ->
  conns_ok (<[k := y]> cs) (<[i := drop_conn (pool ch) c]> conns).
Proof.
  intros Hok Hlen Hi Hk Ho Ho0 Hp Hy.
  assert (Hc : c ∈ conns) by (by eapply list_elem_of_lookup_2).
  pose proof (cs_each _ _ Hok c Hc) as [_ _ Hco Hcc Hqo Hqc _ _].
  assert (Hself : forall p, (count (held_by (conn_owner c) p) (<[k := y]> cs) + b2n (Z.eqb (pool ch) p)
    = count (held_by (conn_owner c) p) cs)%nat).
  { intros p. pose proof (count_insert (held_by (conn_owner c) p) k ch y cs Hk) as H.
    unfold held_by in H at 2 4. rewrite Ho, Hy, Z.eqb_refl in H. rewrite Ho in Ho0. eqb_neq.
    cbn -[b2n count] in H. change (b2n false) with 0%nat in H. lia. }
  assert (Hle : forall p, (count (held_by (conn_owner c) p) cs <= 128)%nat).
  { intros p. pose proof (count_le_length (held_by (conn_owner c) p) cs). lia. }
  pose proof (Hself IS_MEMORY_POOL_OPPORTUNISTIC) as S1.
  pose proof (Hself IS_MEMORY_POOL_COMMITTED) as S2.
  pose proof (Hle IS_MEMORY_POOL_OPPORTUNISTIC) as L1. pose proof (Hle IS_MEMORY_POOL_COMMITTED) as L2.
  apply (conns_ok_update cs _ _ _ c); try done; try (by unfold drop_conn; destruct (_ =? _)).
  - intros o p Hoz Hne. pose proof (count_insert (held_by o p) k ch y cs Hk) as H.
    unfold held_by in H at 2 4. rewrite Ho, Hy in H. eqb_neq. cbn in H. lia.
  - unfold drop_conn. destruct Hp as [Hp|Hp]; rewrite Hp in *; cbn -[count held_by] in *; [|lia].
    rewrite (u32_pred _ _ Hco) by lia. lia.
  - unfold drop_conn. destruct Hp as [Hp|Hp]; rewrite Hp in *; cbn -[count held_by] in *; [lia|].
    rewrite (u32_pred _ _ Hcc) by lia. lia.
  - unfold drop_conn. destruct Hp as [Hp|Hp]; rewrite Hp in *; cbn -[count held_by] in *; [|lia].
    rewrite (u32_pred _ _ Hco) by lia. lia.
  - unfold drop_conn. destruct Hp as [Hp|Hp]; rewrite Hp in *; cbn -[count held_by] in *; [lia|].
    rewrite (u32_pred _ _ Hcc) by lia. lia.
Qed.

(** ** Releasing an assigned chunk *)

Definition released (cause : Z) (ch : is_memory_chunk) : is_memory_chunk :=
  if (cause =? IS_MEMORY_RELEASE_PRESSURE) || (pool ch =? IS_MEMORY_POOL_COMMITTED)
  then empty_chunk
  else {| address := address ch; registration := 0; owner := 0; registration_adapter := 0;
          pool := pool ch; quarantined := quarantined ch |}.

(** The manager after a successful release, up to the reclaim statistics. *)
Record after_release (cause : Z) (i k : nat) (ch : is_memory_chunk) (c : is_memory_connection)
    (m m' : is_memory_manager) : Prop := {
  r_config : config m' = config m;
  r_chunks : chunks m' = <[k := released cause ch]> (chunks m);
  r_connections : connections m' = <[i := drop_conn (pool ch) c]> (connections m);
  r_capacity : connection_capacity m' = connection_capacity m;
  r_quarantined : quarantined_chunks m' = quarantined_chunks m;
  r_assigned_opportunistic : assigned_opportunistic_chunks m' =
    if pool ch =? IS_MEMORY_POOL_OPPORTUNISTIC then u32 (assigned_opportunistic_chunks m - 1)
    else assigned_opportunistic_chunks m;
  r_assigned_committed : assigned_committed_chunks m' =
    if pool ch =? IS_MEMORY_POOL_OPPORTUNISTIC then assigned_committed_chunks m
    else u32 (assigned_committed_chunks m - 1);
  r_allocated_opportunistic : allocated_opportunistic_chunks m' =
    if (cause =? IS_MEMORY_RELEASE_PRESSURE) && (pool ch =? IS_MEMORY_POOL_OPPORTUNISTIC)
    then u32 (allocated_opportunistic_chunks m - 1) else allocated_opportunistic_chunks m;
  r_allocated_committed : allocated_committed_chunks m' =
    if pool ch =? IS_MEMORY_POOL_OPPORTUNISTIC then allocated_committed_chunks m
    else u32 (allocated_committed_chunks m - 1)
}.

Lemma after_release_inv cause i k ch c m m' :
  manager_inv m -> chunks m !! k = Some ch -> connections m !! i = Some c ->
  owner ch = conn_owner c -> owner ch <> 0 -> after_release cause i k ch c m m' ->
  manager_inv m'.
Proof.
  intros Hm Hk Hi Ho Ho0 [R1 R2 R3 R4 R5 R6 R7 R8 R9].
  pose proof (chunk_capacity_small _ Hm) as Hlen.
  destruct Hm as [M1 M2 M3 [A1 A2 A3 A4 A5] M5 M6 M7 M8].
  assert (Hch : chunk_ok ch) by (eapply Forall_lookup_1; eauto).
  assert (Hy : chunk_ok (released cause ch) /\ owner (released cause ch) = 0 /\ pool_ok (pool ch)).
  { unfold released. inversion Hch; subst ch; cbn in *; try done.
    destruct H2; subst p; cbn; destruct (cause =? _); cbn; split_and!;
      solve [by constructor|done|by left|by right]. }
  destruct Hy as (Hy & Hyo & Hp).
  assert (Hsmall : forall f, (count f (chunks m) <= 128)%nat).
  { intros f. pose proof (count_le_length f (chunks m)). lia. }
  assert (Hacc : accounting m' /\ allocated_opportunistic_chunks m' <= allocated_opportunistic_chunks m
    /\ allocated_committed_chunks m' <= allocated_committed_chunks m).
  { assert (Hins := fun f => count_insert f k ch (released cause ch) (chunks m) Hk).
    pose proof (Hins (allocated_in IS_MEMORY_POOL_OPPORTUNISTIC)) as I1.
    pose proof (Hins (allocated_in IS_MEMORY_POOL_COMMITTED)) as I2.
    pose proof (Hins (assigned_in IS_MEMORY_POOL_OPPORTUNISTIC)) as I3.
    pose proof (Hins (assigned_in IS_MEMORY_POOL_COMMITTED)) as I4.
    pose proof (Hins quarantined) as I5.
    pose proof (Hsmall (allocated_in IS_MEMORY_POOL_OPPORTUNISTIC)).
    pose proof (Hsmall (allocated_in IS_MEMORY_POOL_COMMITTED)).
    pose proof (Hsmall (assigned_in IS_MEMORY_POOL_OPPORTUNISTIC)).
    pose proof (Hsmall (assigned_in IS_MEMORY_POOL_COMMITTED)).
    rewrite <- R2 in I1, I2, I3, I4, I5. unfold released in I1, I2, I3, I4, I5.
    inversion Hch; subst ch; cbn -[count Z.eqb] in *; try done.
    destruct Hp; subst p; simpl_counts;
      destruct (cause =? IS_MEMORY_RELEASE_PRESSURE); simpl_counts;
      rewrite ?(u32_pred _ _ A1), ?(u32_pred _ _ A2), ?(u32_pred _ _ A3), ?(u32_pred _ _ A4) in * by lia;
      (split; [constructor|split]; lia). }
  destruct Hacc as (Hacc & L1 & L2). constructor; rewrite ?R1; try done; try lia.
  - by rewrite R2, length_insert.
  - rewrite R2. by apply Forall_insert.
  - rewrite R2, R3. by apply drop_conn_ok.
  - by rewrite R3, length_insert, R4.
Qed.

Section with_laws.
Context {W : Type} {adapters : MemoryAdapters W} {laws : MemoryAdapterLaws W}.
Context (B : Z -> nat) (R : Z -> Z -> nat).

Lemma owns_address cs w k c :
  owns B R cs w -> cs !! k = Some c -> address c <> 0 -> (0 < blocks w (address c))%nat.
Proof.
  intros [Hb _] Hk Ha. rewrite Hb by done. pose proof (count_lookup (at_address (address c)) _ _ _ Hk) as H.
  cbn -[count Z.eqb] in H. rewrite Z.eqb_refl in H. cbn in H. lia.
Qed.

Lemma owns_registration cs w k c :
  owns B R cs w -> cs !! k = Some c -> registration c <> 0 ->
  (0 < regs w (registration_adapter c) (registration c))%nat.
Proof.
  intros [_ Hr] Hk Ha. rewrite Hr by done.
  pose proof (count_lookup (at_registration (registration_adapter c) (registration c)) _ _ _ Hk) as H.
  cbn -[count Z.eqb] in H. rewrite !Z.eqb_refl in H. cbn in H. lia.
Qed.

(** The blocks and registrations of one chunk change with it. *)
Lemma owns_insert cs w w' k c y :
  owns B R cs w -> cs !! k = Some c ->
  (forall a, a <> 0 -> (blocks w' a + b2n (at_address a c) = blocks w a + b2n (at_address a y))%nat) ->
  (forall g r, r <> 0 -> (regs w' g r + b2n (at_registration g r c)
     = regs w g r + b2n (at_registration g r y))%nat) ->
  owns B R (<[k := y]> cs) w'.
Proof.
  intros [Hb Hr] Hk Hb' Hr'. split.
  - intros a Ha. specialize (Hb a Ha). specialize (Hb' a Ha).
    pose proof (count_insert (at_address a) k c y cs Hk). lia.
  - intros g r Hr0. specialize (Hr g r Hr0). specialize (Hr' g r Hr0).
    pose proof (count_insert (at_registration g r) k c y cs Hk). lia.
Qed.

(** Deregistering a chunk of the manager. *)
Lemma deregister_chunk_spec cs w k c w' ok :
  owns B R cs w -> cs !! k = Some c -> deregister_if_registered c w = (w', ok) ->
  if ok then owns B R (<[k := c <| registration := 0 |>]> cs) w' /\ blocks w' = blocks w
  else blocks w' = blocks w /\ regs w' = regs w.
Proof.
  intros Ho Hk. unfold deregister_if_registered. destruct (registration c =? 0) eqn:E; cbn [negb].
  - intros [= <- <-]. apply Z.eqb_eq in E. split; [|done].
    replace (c <| registration := 0 |>) with c by (destruct c; cbn in E; by subst).
    by rewrite list_insert_id.
  - apply Z.eqb_neq in E. pose proof (owns_registration _ _ _ _ Ho Hk E) as Hpos.
    destruct (deregister_chunk _ _ w) as [w1 st] eqn:Ed. intros [= <- <-].
    destruct (Z.eqb_spec st 0) as [->|Hst]; [|by eapply deregister_fail].
    destruct (deregister_ok _ _ _ _ Ed Hpos) as [Hbl Hreg]. split; [|done].
    apply (owns_insert cs w w1 k c); try done.
    + intros a Ha. rewrite Hbl. cbn -[Z.eqb]. lia.
    + intros g r Hr. specialize (Hreg g r). cbn -[Z.eqb b2n] in *.
      rewrite (proj2 (Z.eqb_neq 0 r)), andb_false_r by congruence. cbn [b2n] in *. lia.
Qed.

Lemma owns_ext cs w w' :
  owns B R cs w -> blocks w' = blocks w -> regs w' = regs w -> owns B R cs w'.
Proof. intros [Hb Hr] E1 E2. split; intros; rewrite ?E1, ?E2; auto. Qed.

(** The block is given back. *)
Lemma give_back_after m i k cause ch c :
  let y := (ch <| registration := 0 |>) <| owner := 0 |> <| registration_adapter := 0 |> in
  let m1 := set_chunk (drop_assignment (set_chunk m k y) i (pool ch)) k
              (y <| address := 0 |> <| pool := 0 |>) in
  let m2 := m1 <| allocated_opportunistic_chunks := u32 (allocated_opportunistic_chunks m1 - 1) |> in
  connections m !! i = Some c -> chunk_ok ch -> owner ch <> 0 ->
  (cause =? IS_MEMORY_RELEASE_PRESSURE) || (pool ch =? IS_MEMORY_POOL_COMMITTED) = true ->
  after_release cause i k ch c m
    (if pool ch =? IS_MEMORY_POOL_OPPORTUNISTIC then
       if cause =? IS_MEMORY_RELEASE_PRESSURE
       then m2 <| pressure_reclaims := u64 (pressure_reclaims m2 + 1) |> else m2
     else m1 <| allocated_committed_chunks := u32 (allocated_committed_chunks m1 - 1) |>).
Proof.
  intros y m1 m2 Hi Hch Ho0 Ec.
  destruct (drop_assignment_fields (set_chunk m k y) i (pool ch))
    as (D1 & D2 & D3 & D4 & D5 & D6 & D7 & D8).
  pose proof (drop_assignment_connections (set_chunk m k y) i (pool ch) c Hi) as D9.
  assert (Hrel : released cause ch = empty_chunk) by (unfold released; by rewrite Ec).
  assert (Hch2 : pool_ok (pool ch) /\ y <| address := 0 |> <| pool := 0 |> = empty_chunk).
  { unfold y. inversion Hch; subst ch; done. }
  destruct Hch2 as [Hp Hy]. unfold m2, m1. clear m2 m1. rewrite Hy.
  destruct Hp as [Hp|Hp]; rewrite Hp in *; eval_pools; rewrite ?Z.eqb_refl, ?orb_false_r in *;
    [rewrite Ec in *|]; (constructor; cbn; rewrite ?Hp, ?Hrel; eval_pools;
    rewrite ?Z.eqb_refl, ?andb_false_r, ?Ec;
    rewrite ?D1, ?D2, ?D3, ?D4, ?D5, ?D6, ?D7, ?D8, ?D9; cbn; rewrite ?list_insert_insert_eq; done).
Qed.

(** Two ways to release: keep the block, or give it back. *)
Lemma release_chunk_spec m w i k cause ch c m' w' r :
  manager_inv m -> owns B R (chunks m) w -> chunks m !! k = Some ch ->
  connections m !! i = Some c -> owner ch = conn_owner c -> owner ch <> 0 ->
  release_chunk_locked m w i k cause = (m', w', r) ->
  owns B R (chunks m') w' /\
  ((r = IS_MEMORY_OK /\ after_release cause i k ch c m m') \/
   (r = IS_MEMORY_CLEANUP_FAILED /\ m' = reject m IS_MEMORY_REJECTION_CLEANUP_FAILED)).
Proof.
  intros Hm Hown Hk Hi Ho Ho0. unfold release_chunk_locked. rewrite Hk.
  destruct (deregister_if_registered ch w) as [w1 ok] eqn:Ed.
  pose proof (deregister_chunk_spec _ _ _ _ _ _ Hown Hk Ed) as Hd.
  destruct ok; cbn [negb].
  2: { intros [= <- <- <-]. destruct Hd as [Hd1 Hd2]. split; [|by right].
       rewrite (proj1 (proj2 (reject_fields _ _))). by eapply owns_ext. }
  destruct Hd as [Hown1 Hbl].
  assert (Hch : chunk_ok ch) by (eapply Forall_lookup_1; [apply (m_chunks _ Hm)|done]).
  set (y := (ch <| registration := 0 |>) <| owner := 0 |> <| registration_adapter := 0 |>).
  assert (Hl := lookup_lt_Some _ _ _ Hk).
  assert (Hown2 : owns B R (<[k := y]> (chunks m)) w1).
  { rewrite <- (list_insert_insert_eq (chunks m) k y (ch <| registration := 0 |>)).
    eapply owns_insert; [done|by apply list_lookup_insert_eq| |]; intros; cbn -[Z.eqb]; [lia|].
    rewrite (proj2 (Z.eqb_neq 0 r0)), !andb_false_r by congruence. lia. }
  destruct ((cause =? IS_MEMORY_RELEASE_PRESSURE) || (pool ch =? IS_MEMORY_POOL_COMMITTED)) eqn:Ec.
  - intros [= <- <- <-]. split.
    + assert (Ha : address ch <> 0) by (by inversion Hch; subst; cbn in *).
      assert (Hpos : (0 < blocks w1 (address ch))%nat) by (rewrite Hbl; by eapply owns_address).
      destruct (release_ok _ _ Hpos) as [Hr Hb].
      replace (chunks _) with (<[k := y <| address := 0 |> <| pool := 0 |>]> (<[k := y]> (chunks m))).
      2: { unfold drop_assignment. by repeat (case_match; cbn). }
      eapply owns_insert; [exact Hown2|by apply list_lookup_insert_eq| |]; intros;
        cbn -[Z.eqb b2n]; rewrite ?Hr; [|done].
      rewrite (proj2 (Z.eqb_neq 0 a)) by congruence. specialize (Hb a). cbn [b2n]. lia.
    + left. split; [done|]. by apply give_back_after.
  - intros [= <- <- <-]. split.
    + by destruct (drop_assignment_fields (set_chunk m k y) i (pool ch)) as (_ & -> & _).
    + left. split; [done|]. apply orb_false_iff in Ec as [Ec1 Ec2].
      destruct (drop_assignment_fields (set_chunk m k y) i (pool ch))
        as (D1 & D2 & D3 & D4 & D5 & D6 & D7 & D8).
      assert (Hp : pool ch = IS_MEMORY_POOL_OPPORTUNISTIC).
      { apply Z.eqb_neq in Ec2. inversion Hch; subst; cbn in *; try done.
        by match goal with H : pool_ok _ |- _ => destruct H end. }
      constructor; rewrite ?D1, ?D2, ?D3, ?D4, ?D5, ?D6, ?D7, ?D8; try done.
      * unfold released. rewrite Ec1, Ec2. by destruct ch.
      * exact (drop_assignment_connections (set_chunk m k y) i (pool ch) c Hi).
      * by rewrite Ec1.
      * by rewrite Hp.
Qed.
End with_laws.
