(* ===== verification/MemoryManagerConn.v ===== *)
(** * Connections and releases preserve the memory manager's invariant *)
From S2P Require Import Prelude MemoryManager MemoryManagerInv.

(** ** The order of the connections does not matter *)

#[export] Instance consumer_total_perm f :
  Proper ((≡ₚ) ==> eq ==> eq) (consumer_total f).
Proof.
  intros l l' Hp id ? <-. induction Hp as [|c l l' _ IH|c c' l|l1 l2 l3 _ IH1 _ IH2]; cbn.
  - done.
  - unfold consumer_total in IH. by rewrite IH.
  - repeat case_decide; lia.
  - congruence.
Qed.

#[export] Instance conns_ok_perm cs : Proper ((≡ₚ) ==> iff) (conns_ok cs).
Proof.
  assert (H : forall l l', l ≡ₚ l' -> conns_ok cs l -> conns_ok cs l').
  { intros l l' Hp [Hnd Heach Hown]. constructor.
    - by rewrite <- Hp.
    - intros c Hc. rewrite <- Hp in Hc. destruct (Heach c Hc). constructor; try done; rewrite <- ?Hp; try done.
      intros c' Hc'. rewrite <- Hp in Hc'. auto.
    - intros o p Ho Hpos. destruct (Hown o p Ho Hpos) as (c & Hc & ?). exists c. by rewrite <- Hp. }
  intros l l' Hp. split; apply H; by rewrite Hp.
Qed.

Lemma remove_connection_perm conns i c :
  conns !! i = Some c -> conns ≡ₚ c :: remove_connection conns i.
Proof.
  intros Hi. pose proof (lookup_lt_Some _ _ _ Hi) as Hlt. unfold remove_connection.
  destruct (conns !! (length conns - 1)%nat) as [z|] eqn:Hz.
  2: { apply lookup_ge_None in Hz. lia. }
  destruct (Nat.eqb_spec i (length conns - 1)) as [->|Hne].
  - rewrite <- (take_drop (length conns - 1) conns) at 1.
    rewrite (drop_S _ c) by done. rewrite (drop_ge _ (S _)) by lia. by rewrite Permutation_app_comm.
  - rewrite <- (take_drop (length conns - 1) conns) at 1.
    rewrite (drop_S _ z) by done. rewrite (drop_ge _ (S _)) by lia.
    rewrite take_insert_lt by lia. rewrite insert_take_drop by (rewrite length_take; lia).
    rewrite <- (take_drop_middle (take (length conns - 1) conns) i c) at 1
      by (rewrite lookup_take_lt; [done|lia]).
    set (A := take i _). set (D := drop (S i) _).
    change (c :: A ++ z :: D) with ([c] ++ A ++ [z] ++ D).
    replace ((A ++ c :: D) ++ [z]) with (A ++ [c] ++ D ++ [z]) by (cbn; by rewrite <- app_assoc).
    rewrite (Permutation_app_comm D [z]). rewrite !app_assoc.
    by rewrite (Permutation_app_comm A [c]).
Qed.

(** A connection without chunks can be removed. *)
Lemma conns_ok_remove cs c conns :
  conns_ok cs (c :: conns) ->
  (forall p, count (held_by (conn_owner c) p) cs = 0%nat) -> conns_ok cs conns.
Proof.
  intros [Hnd Heach Hown] Hz. inversion Hnd as [|? ? Hni Hnd']; subst. constructor; [done| |].
  - destruct (Heach c (list_elem_of_here _ _)) as [_ _ Ho Hc _ _ _ _]. rewrite Hz in Ho, Hc.
    intros x Hx. destruct (Heach x (list_elem_of_further _ _ _ Hx)) as [X1 X2 X3 X4 X5 X6 X7 X8].
    constructor; try done.
    + unfold consumer_total in *. cbn in X5. case_decide; lia.
    + unfold consumer_total in *. cbn in X6. case_decide; lia.
    + unfold consumer_total in *. cbn in X7. case_decide; lia.
    + intros y Hy. apply X8. by apply list_elem_of_further.
  - intros o p Ho Hp. destruct (Hown o p Ho Hp) as (x & [->|Hx]%elem_of_cons & Hxo); [|eauto].
    rewrite Hxo in Hz. rewrite Hz in Hp. lia.
Qed.

(** A new connection within the limits of its Consumer. *)
Lemma conns_ok_add cs conns c :
  conns_ok cs conns -> conn_owner c <> 0 ->
  is_u32 (max_connections c) /\ is_u32 (max_opportunistic_chunks c) /\ is_u32 (max_committed_chunks c) ->
  conn_assigned_opportunistic_chunks c = 0 -> conn_assigned_committed_chunks c = 0 ->
  (forall x, x ∈ conns -> conn_owner x <> conn_owner c) ->
  (forall x, x ∈ conns -> consumer_id x = consumer_id c -> limits x = limits c) ->
  consumer_total (fun _ => 1) conns (consumer_id c) < max_connections c ->
  conns_ok cs (conns ++ [c]).
Proof.
  intros [Hnd Heach Hown] Ho Hu Hao Hac Hfresh Hlim Hcount. rewrite Permutation_app_comm. cbn.
  assert (Htot : forall f id, (forall x, x ∈ conns -> consumer_id x <> id) -> consumer_total f conns id = 0).
  { intros f id. clear. induction conns as [|x l IH]; [done|]. intros H. cbn.
    rewrite decide_False by (apply H; constructor). apply IH. intros y Hy. apply H. by constructor. }
  assert (Hheld : forall p, count (held_by (conn_owner c) p) cs = 0%nat).
  { intros p. destruct (decide (0 < count (held_by (conn_owner c) p) cs)%nat) as [Hp|]; [|lia].
    destruct (Hown _ _ Ho Hp) as (x & Hx & Hxo). by destruct (Hfresh x Hx). }
  constructor.
  - constructor; [|done]. intros (x & Hxo & Hx)%list_elem_of_fmap. by apply (Hfresh x Hx).
  - intros x [->|Hx]%elem_of_cons.
    + assert (Hq : consumer_total conn_assigned_opportunistic_chunks conns (consumer_id c)
          <= max_opportunistic_chunks c /\
        consumer_total conn_assigned_committed_chunks conns (consumer_id c) <= max_committed_chunks c).
      { destruct (decide (Exists (fun x => consumer_id x = consumer_id c) conns)) as [He|Hne].
        - apply Exists_exists in He as (x & Hx & Hid). apply list_elem_of_In in Hx.
          pose proof (Hlim x Hx Hid) as Hl. unfold limits in Hl.
          destruct (Heach x Hx) as [_ _ _ _ Q1 Q2 _ _]. rewrite Hid in Q1, Q2.
          injection Hl as _ L1 L2. lia.
        - rewrite !Htot; [|intros x Hx E; apply Hne, Exists_exists; exists x; by rewrite <- list_elem_of_In..].
          destruct Hu as (_ & [? _] & [? _]). lia. }
      unfold consumer_total in *.
      constructor; try done; cbn; rewrite ?Hheld, ?decide_True by done; try lia.
      intros y [->|Hy]%elem_of_cons; auto.
    + destruct (Heach x Hx) as [X1 X2 X3 X4 X5 X6 X7 X8].
      unfold consumer_total in *.
      constructor; try done; cbn; try (case_decide; lia).
      * case_decide as E; [|lia]. pose proof (Hlim x Hx (eq_sym E)) as Hl. unfold limits in Hl.
        injection Hl as L0 _ _. rewrite <- E. lia.
      * intros y [->|Hy]%elem_of_cons; [|auto]. intros E. symmetry. auto.
  - intros o p Hoz Hp. destruct (Hown o p Hoz Hp) as (x & Hx & ?). exists x. split; [|done]. by constructor.
Qed.

Lemma find_connection_spec m own i :
  find_connection m own = Some i ->
  exists c, connections m !! i = Some c /\ conn_owner c = own.
Proof.
  unfold find_connection. enough (H : forall l n, find_connection_from l own n = Some i ->
    (n <= i)%nat /\ exists c, l !! (i - n)%nat = Some c /\ conn_owner c = own).
  { intros Hf. destruct (H _ _ Hf) as [_ Hc]. by rewrite Nat.sub_0_r in Hc. }
  induction l as [|c l IH]; intros n; cbn; [done|].
  destruct (Z.eqb_spec (conn_owner c) own) as [E|_].
  - intros [= ->]. rewrite Nat.sub_diag. eauto.
  - intros Hf. destruct (IH _ Hf) as [Hle Hc]. split; [lia|].
    replace (i - n)%nat with (S (i - S n)) by lia. done.
Qed.

Lemma find_connection_none m own :
  find_connection m own = None -> forall c, c ∈ connections m -> conn_owner c <> own.
Proof.
  unfold find_connection. generalize 0%nat. induction (connections m) as [|x l IH]; intros n; cbn.
  - intros _ c Hc. by apply elem_of_nil in Hc.
  - destruct (Z.eqb_spec (conn_owner x) own) as [|Hne]; [done|].
    intros Hf c [->|Hc]%elem_of_cons; eauto.
Qed.

Lemma find_connection_some m own c :
  c ∈ connections m -> conn_owner c = own -> is_Some (find_connection m own).
Proof.
  intros Hc Ho. destruct (find_connection m own) eqn:E; [done|].
  by destruct (find_connection_none m own E c Hc).
Qed.

(** Two managers of the same Consumers: the connections keep their order,
    identity and limits. *)
Definition identity (c : is_memory_connection) : list Z * Z * (Z * Z * Z) :=
  (consumer_id c, conn_owner c, limits c).

Section with_laws.
Context {W : Type} {adapters : MemoryAdapters W} {laws : MemoryAdapterLaws W}.
Context (B : Z -> nat) (R : Z -> Z -> nat).

Definition good (m : is_memory_manager) (w : W) : Prop := manager_inv m /\ owns B R (chunks m) w.

(** A run of releases on behalf of one owner. *)
Record releases (own : Z) (m m' : is_memory_manager) : Prop := {
  l_config : config m' = config m;
  l_identity : identity <$> connections m' = identity <$> connections m;
  l_others : forall k ch, chunks m !! k = Some ch -> owner ch <> own -> chunks m' !! k = Some ch;
  l_own : forall k ch', chunks m' !! k = Some ch' ->
    chunks m !! k = Some ch' \/ owner ch' = 0
}.

Lemma releases_refl own m m' :
  config m' = config m -> connections m' = connections m -> chunks m' = chunks m ->
  releases own m m'.
Proof. intros E1 E2 E3. constructor; rewrite ?E2, ?E3; auto. Qed.

Lemma releases_trans own m1 m2 m3 :
  own <> 0 -> releases own m1 m2 -> releases own m2 m3 -> releases own m1 m3.
Proof.
  intros Hz [A1 A2 A3 A4] [B1 B2 B3 B4]. constructor; try congruence.
  - eauto.
  - intros k ch Hk. destruct (B4 k ch Hk) as [H|H]; eauto.
Qed.

(** One released chunk. *)
Lemma release_chunk_good m w i k cause ch c m' w' r :
  good m w -> chunks m !! k = Some ch -> connections m !! i = Some c -> owner ch = conn_owner c ->
  release_chunk_locked m w i k cause = (m', w', r) ->
  good m' w' /\ releases (conn_owner c) m m' /\
  ((r = IS_MEMORY_OK /\ after_release cause i k ch c m m') \/
   (r = IS_MEMORY_CLEANUP_FAILED /\ m' = reject m IS_MEMORY_REJECTION_CLEANUP_FAILED)).
Proof.
  intros [Hm Hown] Hk Hi Ho Hrel.
  assert (Ho0 : owner ch <> 0).
  { rewrite Ho. apply (c_owner (chunks m) (connections m)), (cs_each _ _ (m_connections _ Hm)).
    by eapply list_elem_of_lookup_2. }
  destruct (release_chunk_spec B R _ _ _ _ _ _ _ _ _ _ Hm Hown Hk Hi Ho Ho0 Hrel) as [Hown' Hr].
  assert (Hl := lookup_lt_Some _ _ _ Hk).
  destruct Hr as [[Hr Ha]|[Hr ->]].
  - split_and!; [split; [|done]| |auto]; [by eapply after_release_inv|].
    destruct Ha as [A1 A2 A3 _ _ _ _ _ _]. constructor; [done| | |].
    + rewrite A3, list_fmap_insert. apply list_insert_id. rewrite list_lookup_fmap, Hi. cbn.
      unfold identity, drop_conn. by destruct (_ =? _).
    + intros k' ch' Hk' Hne. rewrite A2. rewrite list_lookup_insert_ne; [done|]. intros ->. congruence.
    + intros k' ch'. rewrite A2. intros [(-> & <- & _)|[_ ?]]%list_lookup_insert_Some; [|by left].
      right. unfold released. by destruct (_ || _).
  - pose proof (reject_fields m IS_MEMORY_REJECTION_CLEANUP_FAILED) as (E1 & E2 & E3).
    split_and!; [split; [by apply reject_inv|done]| |auto]. by apply releases_refl.
Qed.

Lemma identity_lookup m m' i c :
  identity <$> connections m' = identity <$> connections m -> connections m !! i = Some c ->
  exists c', connections m' !! i = Some c' /\ identity c' = identity c.
Proof.
  intros E Hi. assert (H : (identity <$> connections m') !! i = Some (identity c)).
  { by rewrite E, list_lookup_fmap, Hi. }
  rewrite list_lookup_fmap in H. destruct (connections m' !! i) as [c'|] eqn:Hc; [|done].
  injection H as Hid Ho Hl. exists c'. split; [done|]. unfold identity, limits. congruence.
Qed.

(** The loop of a disconnection. *)
Lemma release_owned_good ks m w i c m' w' r :
  good m w -> connections m !! i = Some c -> (forall k, k ∈ ks -> (k < length (chunks m))%nat) ->
  release_owned m w i (conn_owner c) ks = (m', w', r) ->
  good m' w' /\ releases (conn_owner c) m m' /\ (r = IS_MEMORY_OK \/ r = IS_MEMORY_CLEANUP_FAILED) /\
  (r = IS_MEMORY_OK -> forall k ch, k ∈ ks -> chunks m' !! k = Some ch -> owner ch <> conn_owner c).
Proof.
  revert m w c. induction ks as [|k ks IH]; intros m w c Hg Hi Hks; cbn.
  { intros [= <- <- <-]. split_and!; auto using releases_refl. intros _ k ch Hk.
    by apply elem_of_nil in Hk. }
  assert (Hz : conn_owner c <> 0).
  { apply (c_owner (chunks m) (connections m)), (cs_each _ _ (m_connections _ (proj1 Hg))).
    by eapply list_elem_of_lookup_2. }
  destruct (lookup_lt_is_Some_2 (chunks m) k) as [ch Hk]; [apply Hks; constructor|]. rewrite Hk.
  assert (Hlen : forall m1 w1, good m1 w1 -> config m1 = config m -> length (chunks m1) = length (chunks m)).
  { intros m1 w1 [H1 _] E. pose proof (m_length _ H1). pose proof (m_length _ (proj1 Hg)).
    rewrite E in *. lia. }
  destruct (Z.eqb_spec (owner ch) (conn_owner c)) as [Ho|Hne].
  - destruct (release_chunk_locked m w i k _) as [[m1 w1] r1] eqn:E1.
    destruct (release_chunk_good _ _ _ _ _ _ _ _ _ _ Hg Hk Hi Ho E1) as (Hg1 & Hrel1 & Hr1).
    destruct (identity_lookup _ m1 _ _ (l_identity _ _ _ Hrel1) Hi) as (c1 & Hi1 & Hid).
    assert (Hco : conn_owner c1 = conn_owner c) by (unfold identity in Hid; congruence).
    case_decide as Hok.
    + rewrite <- Hco. intros Hloop. apply IH in Hloop as (Hg2 & Hrel2 & Hr2 & Hfree); [|done|done|].
      2: { intros k' Hk'. rewrite (Hlen m1 w1) by (done || apply Hrel1). apply Hks. by constructor. }
      rewrite Hco in *. split_and!; [done|by eapply releases_trans|done|].
      intros Hr k' ch' [->|Hk']%elem_of_cons; [|by apply Hfree].
      destruct Hr1 as [[_ Ha]|[? _]]; [|congruence]. intros Hl.
      destruct (l_own _ _ _ Hrel2 k ch' Hl) as [Hm1|]; [|congruence].
      rewrite (r_chunks _ _ _ _ _ _ _ Ha), list_lookup_insert_eq in Hm1 by (by eapply lookup_lt_Some).
      injection Hm1 as <-. unfold released. destruct (_ || _); cbn; congruence.
    + intros [= <- <- <-]. split_and!; try done. destruct Hr1 as [[? _]|[? _]]; auto.
  - intros Hloop. apply IH in Hloop as (Hg2 & Hrel2 & Hr2 & Hfree); [|done|done|].
    2: { intros k' Hk'. apply Hks. by constructor. }
    split_and!; try done. intros Hr k' ch' [->|Hk']%elem_of_cons; [|by apply Hfree].
    rewrite (l_others _ _ _ Hrel2 _ _ Hk) by done. by intros [= <-].
Qed.

(** ** Disconnection *)

Lemma manager_inv_connections m conns :
  manager_inv m -> conns_ok (chunks m) conns -> (length conns <= length (connections m))%nat ->
  manager_inv (m <| connections := conns |>).
Proof.
  intros [M1 M2 M3 [A1 A2 A3 A4 A5] M5 M6 M7 M8] Hc Hl. constructor; cbn; try done; lia.
Qed.

(** The connections that remain are those of other owners. *)
Lemma disconnect_good m w own m' w' r :
  good m w -> is_memory_manager_disconnect m w own = (m', w', r) ->
  good m' w' /\
  (forall k ch, chunks m !! k = Some ch -> owner ch <> own -> chunks m' !! k = Some ch) /\
  (r = IS_MEMORY_OK -> own <> 0 /\ (forall k ch, chunks m' !! k = Some ch -> owner ch <> own) /\
     exists c, identity <$> connections m ≡ₚ identity c :: (identity <$> connections m') /\
       conn_owner c = own).
Proof.
  intros Hg. unfold is_memory_manager_disconnect.
  destruct (Z.eqb_spec own 0) as [|Hz]; [intros [= <- <- <-]; by split_and!|].
  destruct (find_connection m own) as [i|] eqn:Ef; [|intros [= <- <- <-]; by split_and!].
  destruct (find_connection_spec _ _ _ Ef) as (c & Hi & Ho). unfold disconnect_locked. rewrite Hi.
  destruct (release_owned m w i (conn_owner c) _) as [[m1 w1] r1] eqn:E.
  apply release_owned_good in E as (Hg1 & Hrel & Hr & Hfree); [|done|done|].
  2: { intros k Hk%elem_of_seq. lia. }
  rewrite Ho in *. case_decide as Hok.
  2: { intros [= <- <- <-]. split_and!; try done. apply Hrel. }
  intros [= <- <- <-]. specialize (Hfree Hok).
  destruct (identity_lookup _ m1 _ _ (l_identity _ _ _ Hrel) Hi) as (c1 & Hi1 & Hid).
  assert (Hc1 : conn_owner c1 = own) by (unfold identity in Hid; congruence).
  pose proof (remove_connection_perm _ _ _ Hi1) as Hperm.
  assert (Hfree' : forall k ch, chunks m1 !! k = Some ch -> owner ch <> own).
  { intros k ch Hk. apply (Hfree k); [|done]. apply elem_of_seq.
    pose proof (m_length _ (proj1 Hg)). pose proof (m_length _ (proj1 Hg1)).
    pose proof (lookup_lt_Some _ _ _ Hk). rewrite (l_config _ _ _ Hrel) in *. lia. }
  split_and!.
  - split; [|apply Hg1]. apply manager_inv_connections; [apply Hg1| |].
    + apply conns_ok_remove with c1.
      * rewrite <- Hperm. apply (m_connections _ (proj1 Hg1)).
      * intros p. apply count_zero. intros ch [k Hk]%list_elem_of_lookup. unfold held_by.
        rewrite Hc1. apply andb_false_intro1, Z.eqb_neq. by apply (Hfree' k).
    + apply Permutation_length in Hperm. cbn in Hperm. lia.
  - apply Hrel.
  - intros _. split_and!; [done|done|]. exists c1. split; [|done].
    rewrite <- (l_identity _ _ _ Hrel). by rewrite Hperm at 1.
Qed.

(** ** Connection *)

Lemma consumer_count_spec conns id :
  0 <= consumer_total (fun _ => 1) conns id <= Z.of_nat (length conns).
Proof. unfold consumer_total. induction conns as [|c l IH]; cbn; [lia|]. case_decide; lia. Qed.

(** The count of [connection_count_for_consumer] does not wrap. *)
Lemma connection_count_exact m id :
  manager_inv m ->
  connection_count_for_consumer m id = consumer_total (fun _ => 1) (connections m) id.
Proof.
  intros Hm.
  assert (Hsmall : consumer_total (fun _ => 1) (connections m) id < 2 ^ 32).
  { destruct (decide (Exists (fun x => consumer_id x = id) (connections m))) as [He|Hne].
    - apply Exists_exists in He as (x & Hx%list_elem_of_In & <-).
      destruct (cs_each _ _ (m_connections _ Hm) x Hx) as [_ (Hu & _) _ _ _ _ Hc _].
      unfold in_u in Hu. lia.
    - revert Hne. unfold consumer_total.
      induction (connections m) as [|c l IH]; cbn; [done|].
      rewrite Exists_cons. intros Hn. rewrite decide_False by tauto. apply IH. tauto. }
  unfold connection_count_for_consumer.
  enough (H : forall n, 0 <= n -> n + consumer_total (fun _ => 1) (connections m) id < 2 ^ 32 ->
    fold_left (fun count c => if decide (consumer_id c = id) then u32 (count + 1) else count)
      (connections m) n = n + consumer_total (fun _ => 1) (connections m) id).
  { rewrite H; lia. }
  clear Hsmall. induction (connections m) as [|c l IH]; cbn -[Z.pow]; [lia|].
  intros n Hn Hlt. pose proof (consumer_count_spec l id). unfold consumer_total in *.
  case_decide; [|by apply IH]. rewrite wrap_small by (unfold in_u; lia). rewrite IH; lia.
Qed.

Lemma existsb_limits conns id mc mo mm :
  existsb (fun c => bool_decide (consumer_id c = id) && negb (same_limits c mc mo mm)) conns = false ->
  forall x, x ∈ conns -> consumer_id x = id -> limits x = (mc, mo, mm).
Proof.
  intros H x Hx Hid. rewrite <- not_true_iff_false, existsb_exists in H.
  destruct (same_limits x mc mo mm) eqn:E.
  - unfold same_limits in E. unfold limits. repeat f_equal; lia.
  - destruct H. exists x. split; [by apply list_elem_of_In|]. rewrite E.
    by rewrite bool_decide_eq_true_2.
Qed.

Lemma reject_good m w reason : good m w -> good (reject m reason) w.
Proof.
  intros [Hm Ho]. split; [by apply reject_inv|].
  by rewrite (proj1 (proj2 (reject_fields m reason))).
Qed.

(** What a connection attempt leaves. *)
Definition connect_post (id : list Z) (own mc mo mm : Z) (m m' : is_memory_manager) (w' : W)
    (r : is_memory_result) : Prop :=
  good m' w' /\ chunks m' = chunks m /\
  (r = IS_MEMORY_OK ->
     connections m' = connections (add_connection m id own mc mo mm) /\ own <> 0 /\
     (forall c, c ∈ connections m -> conn_owner c <> own)) /\
  (r <> IS_MEMORY_OK -> connections m' = connections m).

Lemma connect_rejected id own mc mo mm m w r reason :
  good m w -> r <> IS_MEMORY_OK -> connect_post id own mc mo mm m (reject m reason) w r.
Proof.
  intros Hg Hr. pose proof (reject_fields m reason) as (_ & E2 & E3).
  unfold connect_post. split_and!; [by apply reject_good|done|done|by rewrite E3].
Qed.

Lemma connect_added id own mc mo mm m m0 w0 :
  good m0 w0 -> chunks m0 = chunks m -> connections m0 = connections m ->
  Z.of_nat (length (connections m)) < connection_capacity m0 -> own <> 0 ->
  is_u32 mc -> is_u32 mo -> is_u32 mm ->
  (forall c, c ∈ connections m -> conn_owner c <> own) ->
  (forall x, x ∈ connections m -> consumer_id x = id -> limits x = (mc, mo, mm)) ->
  consumer_total (fun _ => 1) (connections m) id < mc ->
  connect_post id own mc mo mm m (add_connection m0 id own mc mo mm) w0 IS_MEMORY_OK.
Proof.
  intros [Hm0 Ho0] E1 E2 Hcap Hown Hc Ho Hm Hfresh Hlim Hcount. unfold connect_post.
  split_and!; [split; [|done]|done| |done].
  - destruct Hm0 as [M1 M2 M3 [A1 A2 A3 A4 A5] M5 M6 M7 M8]. constructor; cbn; try done.
    + apply conns_ok_add; rewrite ?E2; try done. by rewrite <- E2.
    + rewrite length_app, E2. cbn. lia.
  - intros _. cbn. by rewrite E2.
Qed.

(** Growing makes room for one more connection. *)
Lemma grow_connections_good m w w' g :
  good m w -> Z.of_nat (length (connections m)) = connection_capacity m ->
  grow_connections m w = (w', g) ->
  match g with
  | None => good m w'
  | Some m' => good m' w' /\ chunks m' = chunks m /\ connections m' = connections m /\
      Z.of_nat (length (connections m)) < connection_capacity m'
  end.
Proof.
  intros Hg Ecap. unfold grow_connections. set (cap := if connection_capacity m =? 0 then 4 else _).
  destruct (Z.ltb_spec cap (connection_capacity m)) as [Elt|Elt]; [by intros [= <- <-]|].
  pose proof (heap_frame w) as [F1 F2]. destruct (heap w) as [w1 ok]. cbn [fst] in F1, F2.
  assert (Hg1 : good m w1) by (split; [apply Hg|by eapply owns_ext; [apply Hg| |]]).
  destruct ok; cbn [negb]; intros [= <- <-]; [|done].
  pose proof (m_capacity _ (proj1 Hg)) as Hcap.
  assert (Hroom : connection_capacity m < cap < 2 ^ 64).
  { unfold cap in *. destruct (Z.eqb_spec (connection_capacity m) 0); [pow_lia|].
    unfold wrap in *. destruct (decide (connection_capacity m * 2 < 2 ^ 64)).
    - rewrite Z.mod_small in * by lia. lia.
    - assert (E : (connection_capacity m * 2) mod 2 ^ 64 = connection_capacity m * 2 - 2 ^ 64)
        by (symmetry; apply (Z.mod_unique _ _ 1); lia). rewrite E in *. lia. }
  split_and!; try done; [|cbn; lia]. split; [|apply Hg1].
  destruct Hg1 as [[M1 M2 M3 [A1 A2 A3 A4 A5] M5 M6 M7 M8] Ho1].
  constructor; cbn; try done. lia.
Qed.

Lemma connect_good m w id own mc mo mm m' w' r reason :
  good m w -> is_u32 mc -> is_u32 mo -> is_u32 mm ->
  is_memory_manager_connect m w id own mc mo mm = (m', w', r, reason) ->
  connect_post id own mc mo mm m m' w' r.
Proof.
  intros Hg Hc Ho Hm. unfold is_memory_manager_connect.
  destruct (negb (consumer_id_valid id) || _ || _ || _) eqn:Eargs.
  { intros [= <- <- <- <-]. unfold connect_post. by split_and!. }
  apply orb_false_iff in Eargs as [[[Eid Eown]%orb_false_iff Emc]%orb_false_iff _].
  apply Z.eqb_neq in Eown.
  case_bool_decide as Hf; [intros [= <- <- <- <-]; by apply connect_rejected|].
  rewrite connection_count_exact by apply Hg.
  destruct (Z.leb_spec mc (consumer_total (fun _ => 1) (connections m) id));
    [intros [= <- <- <- <-]; by apply connect_rejected|].
  destruct (existsb _ _) eqn:Ee; [intros [= <- <- <- <-]; by apply connect_rejected|].
  pose proof (existsb_limits _ _ _ _ _ Ee) as Hlim.
  assert (Hfresh : forall c, c ∈ connections m -> conn_owner c <> own).
  { intros c Hin E. apply Hf. by eapply find_connection_some. }
  destruct (Z.eqb_spec (Z.of_nat (length (connections m))) (connection_capacity m)) as [Ecap|Ecap].
  - destruct (grow_connections m w) as [w1 g] eqn:Eg.
    apply grow_connections_good in Eg; [|done|done]. destruct g as [m1|].
    + destruct Eg as (Hg1 & E1 & E2 & Hroom). intros [= <- <- <- <-]. by apply connect_added.
    + intros [= <- <- <- <-]. by apply connect_rejected.
  - intros [= <- <- <- <-]. pose proof (m_capacity _ (proj1 Hg)). apply connect_added; done || lia.
Qed.

(** ** Release of listed chunks *)

Lemma check_release_spec m own cause before ids :
  match check_release m own cause before ids with
  | None => (forall id, id ∈ ids -> exists ch, chunks m !! Z.to_nat id = Some ch /\ owner ch = own /\
       (cause = IS_MEMORY_RELEASE_PRESSURE -> pool ch <> IS_MEMORY_POOL_COMMITTED)) /\
      NoDup ids /\ (forall id, id ∈ ids -> id ∉ before)
  | Some (m', r) => r <> IS_MEMORY_OK /\ (m' = m \/ m' = reject m IS_MEMORY_REJECTION_COMMITTED_PROTECTED)
  end.
Proof.
  revert before. induction ids as [|id ids IH]; intros before; cbn.
  { split_and!; [|constructor|]; intros id Hid; by apply elem_of_nil in Hid. }
  destruct (chunks m !! Z.to_nat id) as [ch|] eqn:Hk; [|auto].
  destruct (Z.eqb_spec (owner ch) own) as [Ho|]; cbn [negb]; [|auto].
  destruct ((cause =? _) && _) eqn:Ep; [auto|]. destruct (existsb (Z.eqb id) before) eqn:Eb; [auto|].
  specialize (IH (before ++ [id])). destruct (check_release _ _ _ (before ++ [id]) ids) as [[]|]; [done|].
  destruct IH as (H1 & H2 & H3). split_and!.
  - intros id' [->|Hin]%elem_of_cons; [|auto]. exists ch. split_and!; auto. intros -> E.
    rewrite E in Ep. done.
  - constructor; [|done]. intros Hin. apply (H3 _ Hin). apply elem_of_app. right. by constructor.
  - intros id' [->|Hin]%elem_of_cons Hb.
    + rewrite <- not_true_iff_false, existsb_exists in Eb. apply Eb. exists id.
      split; [by apply list_elem_of_In|apply Z.eqb_refl].
    + apply (H3 _ Hin). apply elem_of_app. by left.
Qed.

Lemma release_listed_good ids m w i c cause m' w' r :
  good m w -> connections m !! i = Some c -> NoDup ids ->
  (forall id, id ∈ ids -> 0 <= id /\ exists ch, chunks m !! Z.to_nat id = Some ch /\ owner ch = conn_owner c) ->
  release_listed m w i ids cause = (m', w', r) ->
  good m' w' /\ releases (conn_owner c) m m' /\ (r = IS_MEMORY_OK \/ r = IS_MEMORY_CLEANUP_FAILED) /\
  (forall k ch, chunks m !! k = Some ch -> Z.of_nat k ∉ ids -> chunks m' !! k = Some ch) /\
  (r = IS_MEMORY_OK -> forall id ch, id ∈ ids -> chunks m !! Z.to_nat id = Some ch ->
     chunks m' !! Z.to_nat id = Some (released cause ch)).
Proof.
  revert m w c. induction ids as [|id ids IH]; intros m w c Hg Hi Hnd Hids; cbn.
  { intros [= <- <- <-]. split_and!; auto using releases_refl. intros _ id ch Hid.
    by apply elem_of_nil in Hid. }
  inversion Hnd as [|? ? Hni Hnd']; subst.
  destruct (Hids id (list_elem_of_here _ _)) as (Hid0 & ch & Hk & Ho).
  assert (Hz : conn_owner c <> 0).
  { apply (c_owner (chunks m) (connections m)), (cs_each _ _ (m_connections _ (proj1 Hg))).
    by eapply list_elem_of_lookup_2. }
  destruct (release_chunk_locked m w i (Z.to_nat id) cause) as [[m1 w1] r1] eqn:E1.
  destruct (release_chunk_good _ _ _ _ _ _ _ _ _ _ Hg Hk Hi Ho E1) as (Hg1 & Hrel1 & Hr1).
  destruct Hr1 as [[-> Ha]|[-> Hm1]].
  2: { rewrite decide_False by done. intros [= <- <- <-]. split_and!; auto; [|done].
       intros k ch' Hk' _. rewrite Hm1. by rewrite (proj1 (proj2 (reject_fields _ _))). }
  rewrite decide_True by done. pose proof (r_chunks _ _ _ _ _ _ _ Ha) as Hch.
  destruct (identity_lookup _ m1 _ _ (l_identity _ _ _ Hrel1) Hi) as (c1 & Hi1 & Hidc).
  assert (Hco : conn_owner c1 = conn_owner c) by (unfold identity in Hidc; congruence).
  assert (Hsame : forall k, k <> Z.to_nat id -> chunks m1 !! k = chunks m !! k).
  { intros k Hne. rewrite Hch. by apply list_lookup_insert_ne. }
  assert (Hne : forall id', id' ∈ ids -> Z.to_nat id' <> Z.to_nat id).
  { intros id' Hin E. destruct (Hids id' (list_elem_of_further _ _ _ Hin)) as [? _].
    assert (id' = id) by lia. by subst. }
  intros Hloop. apply IH with (c := c1) in Hloop as (Hg2 & Hrel2 & Hr2 & Hkeep & Hdone); [|done..|].
  2: { intros id' Hin. destruct (Hids id' (list_elem_of_further _ _ _ Hin)) as [? (ch' & ? & ?)].
       split; [done|]. exists ch'. by rewrite Hsame, Hco by auto. }
  rewrite Hco in *. split_and!; [done|by eapply releases_trans|done| |].
  - intros k ch' Hk' Hnk. rewrite not_elem_of_cons in Hnk. destruct Hnk as [Hn1 Hn2].
    apply Hkeep; [|done]. rewrite Hsame; [done|lia].
  - intros Hr id' ch' [->|Hin]%elem_of_cons Hk'.
    + assert (ch' = ch) as -> by congruence. apply Hkeep.
      * rewrite Hch. apply list_lookup_insert_eq. by eapply lookup_lt_Some.
      * rewrite Z2Nat.id by done. done.
    + apply Hdone; [done..|]. by rewrite Hsame by auto.
Qed.
End with_laws.
