(* ===== verification/MemoryManagerSelect.v ===== *)
(** * Selected chunks and what happens to them

    The chunks an acquisition or a reconciliation selects, as changes to apply
    to the chunk table, and the blocks and registrations in flight. *)
From S2P Require Import Prelude MemoryManager MemoryManagerInv MemoryManagerConn.

(** ** Several chunks replaced at once *)

Definition put_all (l : list (nat * is_memory_chunk)) (cs : list is_memory_chunk) :
    list is_memory_chunk :=
  foldl (fun cs ky => <[ky.1 := ky.2]> cs) cs l.

Definition replaces (cs : list is_memory_chunk) (old : nat * is_memory_chunk -> is_memory_chunk)
    (l : list (nat * is_memory_chunk)) : Prop :=
  NoDup l.*1 /\ forall ky, ky ∈ l -> cs !! ky.1 = Some (old ky).

Lemma replaces_cons cs old ky l :
  replaces cs old (ky :: l) -> cs !! ky.1 = Some (old ky) /\ replaces (<[ky.1 := ky.2]> cs) old l.
Proof.
  intros [Hnd Hl]. inversion Hnd as [|? ? Hni Hnd']; subst. split; [apply Hl; constructor|].
  split; [done|]. intros x Hx. rewrite list_lookup_insert_ne; [apply Hl; by constructor|].
  intros E. apply Hni. rewrite E. by apply list_elem_of_fmap_2.
Qed.

Lemma count_put_all f l cs old :
  replaces cs old l ->
  (count f (put_all l cs) + sum_list_with (fun ky => b2n (f (old ky))) l
   = count f cs + sum_list_with (fun ky => b2n (f ky.2)) l)%nat.
Proof.
  revert cs. induction l as [|ky l IH]; intros cs Hr; cbn -[b2n put_all]; [done|].
  apply replaces_cons in Hr as [Hk Hr]. specialize (IH _ Hr).
  change (put_all (ky :: l) cs) with (put_all l (<[ky.1 := ky.2]> cs)).
  pose proof (count_insert f _ _ ky.2 _ Hk). lia.
Qed.

Lemma length_put_all l cs : length (put_all l cs) = length cs.
Proof.
  unfold put_all. revert cs. induction l as [|ky l IH]; intros cs; cbn; [done|].
  by rewrite IH, length_insert.
Qed.

Lemma lookup_put_all_ne l cs k : k ∉ l.*1 -> put_all l cs !! k = cs !! k.
Proof.
  revert cs. induction l as [|ky l IH]; intros cs; cbn; [done|].
  rewrite not_elem_of_cons. intros [Hne Hn]. unfold put_all in IH. rewrite IH by done.
  by rewrite list_lookup_insert_ne.
Qed.

Lemma lookup_put_all l cs old k y :
  replaces cs old l -> (k, y) ∈ l -> put_all l cs !! k = Some y.
Proof.
  revert cs. induction l as [|ky l IH]; intros cs Hr Hin; [by apply elem_of_nil in Hin|].
  pose proof Hr as [Hnd _]. apply replaces_cons in Hr as [Hk Hr]. cbn in Hnd |- *.
  inversion Hnd as [|? ? Hni Hnd']; subst. apply elem_of_cons in Hin as [<-|Hin].
  - pose proof (lookup_put_all_ne l (<[k := y]> cs) k Hni) as H. unfold put_all in H.
    cbn in *. rewrite H. apply list_lookup_insert_eq. by eapply lookup_lt_Some.
  - unfold put_all in IH. by apply IH.
Qed.

Lemma Forall_put_all (P : is_memory_chunk -> Prop) l cs :
  Forall P cs -> Forall (fun ky => P ky.2) l -> Forall P (put_all l cs).
Proof.
  unfold put_all. revert cs. induction l as [|ky l IH]; intros cs Hc Hl; cbn; [done|].
  apply Forall_cons_iff in Hl as [H1 H2]. apply IH; [by apply Forall_insert|done].
Qed.

(** ** Selection *)

Lemma select_chunks_spec p mk cs index want :
  (forall i c, p_index (mk i c) = i) ->
  let ps := select_chunks p mk cs index want in
  (length ps <= want)%nat /\ NoDup (p_index <$> ps) /\
  forall x, x ∈ ps -> (index <= p_index x)%nat /\
    exists c, cs !! (p_index x - index)%nat = Some c /\ p (p_index x) c = true /\
      x = mk (p_index x) c.
Proof.
  intros Hmk. revert index want. induction cs as [|c cs IH]; intros index [|want]; cbn;
    try (split_and!; [lia|constructor|intros x Hx; by apply elem_of_nil in Hx]).
  assert (Hshift : forall w x, x ∈ select_chunks p mk cs (S index) w ->
    (index <= p_index x)%nat /\ exists c0, (c :: cs) !! (p_index x - index)%nat = Some c0 /\
      p (p_index x) c0 = true /\ x = mk (p_index x) c0).
  { intros w x Hx. destruct (IH (S index) w) as (_ & _ & H). destruct (H x Hx) as (Hle & Hc).
    split; [lia|]. by replace (p_index x - index)%nat with (S (p_index x - S index)) by lia. }
  destruct (p index c) eqn:Hp.
  - destruct (IH (S index) want) as (H1 & H2 & H3). split_and!; cbn; [lia| |].
    + constructor; [|done]. rewrite Hmk. intros (x & Hx & Hin)%list_elem_of_fmap.
      destruct (H3 x Hin) as [Hle _]. lia.
    + intros x [->|Hx]%elem_of_cons; [|by eapply Hshift]. rewrite Hmk. split; [lia|].
      exists c. by rewrite Nat.sub_diag.
  - destruct (IH (S index) (S want)) as (H1 & H2 & H3). split_and!; [done|done|].
    intros x Hx. by eapply Hshift.
Qed.

Lemma select_chunks_ext p q mk cs index want :
  (forall k c, cs !! k = Some c -> p (index + k)%nat c = q c) ->
  select_chunks p mk cs index want = select_chunks (fun _ => q) mk cs index want.
Proof.
  revert index want. induction cs as [|c cs IH]; intros index [|want] H; cbn; try done.
  pose proof (H 0%nat c eq_refl) as H0. rewrite Nat.add_0_r in H0. rewrite H0.
  assert (Hs : forall w, select_chunks p mk cs (S index) w = select_chunks (fun _ => q) mk cs (S index) w).
  { intros w. apply IH. intros k c' Hk. rewrite <- (H (S k) c' Hk). f_equal. lia. }
  by rewrite !Hs.
Qed.

(** As many as wanted, or all there are. *)
Lemma length_select_chunks q mk cs index want :
  length (select_chunks (fun _ => q) mk cs index want) = (want `min` count q cs)%nat.
Proof.
  unfold count. revert index want. induction cs as [|c cs IH]; intros index [|want]; cbn -[b2n Nat.min]; try lia.
  destruct (q c); cbn -[Nat.min]; rewrite IH; lia.
Qed.

(** ** Pending chunks *)

Definition free_chunk (a : Z) : is_memory_chunk :=
  {| address := a; registration := 0; owner := 0; registration_adapter := 0;
     pool := IS_MEMORY_POOL_OPPORTUNISTIC; quarantined := false |}.

(** The chunk a pending entry was selected from. *)
Definition pend_old (p : pending_chunk) : is_memory_chunk :=
  if newly_allocated p then empty_chunk else free_chunk (p_address p).

Record pend_ok (cs : list is_memory_chunk) (requested : Z) (p : pending_chunk) : Prop := {
  pd_lookup : cs !! p_index p = Some (pend_old p);
  pd_reused : newly_allocated p = false -> p_address p <> 0;
  pd_converted : converted_from_opportunistic p
    = negb (newly_allocated p) && (requested =? IS_MEMORY_POOL_COMMITTED)
}.

Definition pends_ok (cs : list is_memory_chunk) (requested : Z) (ps : list pending_chunk) : Prop :=
  NoDup (p_index <$> ps) /\ Forall (pend_ok cs requested) ps.

Lemma unused_free requested c :
  chunk_ok c -> pool_ok requested -> unused_in requested c = true ->
  requested = IS_MEMORY_POOL_OPPORTUNISTIC /\ c = free_chunk (address c) /\ address c <> 0.
Proof.
  intros Hc Hp. unfold unused_in. inversion Hc; cbn -[Z.eqb]; try done.
  - destruct (Z.eqb_spec a 0); [done|]. cbn -[Z.eqb].
    destruct (Z.eqb_spec IS_MEMORY_POOL_OPPORTUNISTIC requested); [|done]. by subst.
  - destruct (Z.eqb_spec a 0), (Z.eqb_spec o 0); done.
  - by destruct (Z.eqb_spec a 0), (Z.eqb_spec r 0).
Qed.

Lemma chunk_ok_empty c : chunk_ok c -> address c = 0 -> c = empty_chunk.
Proof. intros Hc. by inversion Hc; cbn. Qed.

Definition is_new (p : pending_chunk) : nat := b2n (newly_allocated p).

(** What the three selection loops find. *)
Record selection (m : is_memory_manager) (requested : Z) (count_wanted : nat)
    (same conv fresh : list pending_chunk) : Prop := {
  s_ok : pends_ok (chunks m) requested (same ++ conv ++ fresh);
  s_registrations : Forall (fun p => p_registration p = 0) (same ++ conv ++ fresh);
  s_fresh : Forall (fun p => newly_allocated p = true -> p_address p = 0) (same ++ conv ++ fresh);
  s_new : sum_list_with is_new (same ++ conv ++ fresh) = length fresh;
  s_committed : requested = IS_MEMORY_POOL_COMMITTED -> same = [];
  s_opportunistic : requested = IS_MEMORY_POOL_OPPORTUNISTIC -> conv = [];
  s_reused : (length same + length conv
    = count_wanted `min` count (unused_in IS_MEMORY_POOL_OPPORTUNISTIC) (chunks m))%nat;
  s_length : (length fresh
    = (count_wanted - length same - length conv) `min` count (fun c => Z.eqb (address c) 0) (chunks m))%nat
}.

Lemma select_reused m requested converted want p :
  manager_inv m ->
  p ∈ select_chunks (fun _ => unused_in IS_MEMORY_POOL_OPPORTUNISTIC) (take_chunk converted) (chunks m) 0 want ->
  converted = (requested =? IS_MEMORY_POOL_COMMITTED) ->
  pend_ok (chunks m) requested p /\ p_registration p = 0 /\ newly_allocated p = false.
Proof.
  intros Hm Hin Hconv.
  destruct (select_chunks_spec (fun _ => unused_in IS_MEMORY_POOL_OPPORTUNISTIC) (take_chunk converted)
    (chunks m) 0 want) as (_ & _ & H); [done|].
  destruct (H p Hin) as (_ & c & Hk & Hp & Hx). rewrite Nat.sub_0_r in Hk.
  assert (Hc : chunk_ok c) by (eapply Forall_lookup_1; [apply (m_chunks _ Hm)|done]).
  destruct (unused_free _ _ Hc (or_introl eq_refl) Hp) as (_ & Hfree & Ha).
  rewrite Hx. cbn. split_and!; try done. constructor; cbn; try done.
  unfold pend_old. cbn. by rewrite <- Hfree.
Qed.

Lemma select_fresh m requested want p :
  manager_inv m ->
  p ∈ select_chunks (fun _ c => address c =? 0) new_chunk (chunks m) 0 want ->
  pend_ok (chunks m) requested p /\ p_registration p = 0 /\ newly_allocated p = true /\ p_address p = 0.
Proof.
  intros Hm Hin.
  destruct (select_chunks_spec (fun _ c => address c =? 0) new_chunk (chunks m) 0 want) as (_ & _ & H); [done|].
  destruct (H p Hin) as (_ & c & Hk & Hp & Hx). rewrite Nat.sub_0_r in Hk.
  assert (Hc : chunk_ok c) by (eapply Forall_lookup_1; [apply (m_chunks _ Hm)|done]).
  apply Z.eqb_eq, (chunk_ok_empty _ Hc) in Hp. rewrite Hx. cbn. split_and!; try done.
  constructor; cbn; [|done|done]. unfold pend_old. cbn. by rewrite <- Hp.
Qed.

(** The loop over empty slots need not look at the entries of reused chunks. *)
Lemma select_new_eq m requested ps want :
  pends_ok (chunks m) requested ps -> Forall (fun p => newly_allocated p = false) ps ->
  select_new m ps want = select_chunks (fun _ c => address c =? 0) new_chunk (chunks m) 0 want.
Proof.
  intros [_ Hok] Hold. unfold select_new. apply select_chunks_ext. intros k c Hk.
  destruct (Z.eqb_spec (address c) 0) as [Ha|]; cbn; [|done]. apply negb_true_iff.
  destruct (pending_contains ps k) eqn:E; [|done]. exfalso. unfold pending_contains in E.
  apply existsb_exists in E as (p & Hp%list_elem_of_In & Hi%Nat.eqb_eq).
  rewrite Forall_forall in Hok, Hold. apply list_elem_of_In in Hp. specialize (Hok p Hp). specialize (Hold p Hp).
  destruct Hok as [Hl Hr _]. rewrite Hi, Hk in Hl. injection Hl as Hl. unfold pend_old in Hl.
  rewrite Hold in Hl. subst c. by apply (Hr Hold).
Qed.

Lemma sum_list_with_zero {A} (f : A -> nat) l : (forall x, x ∈ l -> f x = 0%nat) -> sum_list_with f l = 0%nat.
Proof.
  induction l as [|x l IH]; intros H; cbn; [done|].
  rewrite (H x (list_elem_of_here _ _)), IH; [done|]. intros y Hy. apply H. by constructor.
Qed.

Lemma sum_list_with_one {A} (f : A -> nat) l : (forall x, x ∈ l -> f x = 1%nat) -> sum_list_with f l = length l.
Proof.
  induction l as [|x l IH]; intros H; cbn; [done|].
  rewrite (H x (list_elem_of_here _ _)), IH; [done|]. intros y Hy. apply H. by constructor.
Qed.

Lemma Forall_elem {A} (P : A -> Prop) l : (forall x, x ∈ l -> P x) -> Forall P l.
Proof. intros H. apply Forall_forall. intros x Hx. apply H. by apply list_elem_of_In. Qed.

Section build.
Context (m : is_memory_manager) (requested : Z) (n : nat) (converted : bool).
Context (Hm : manager_inv m) (Hconv : converted = (requested =? IS_MEMORY_POOL_COMMITTED)).
Let reused := select_chunks (fun _ => unused_in IS_MEMORY_POOL_OPPORTUNISTIC) (take_chunk converted)
  (chunks m) 0 n.
Let fresh want := select_chunks (fun _ c => address c =? 0) new_chunk (chunks m) 0 want.

Lemma reused_facts p : p ∈ reused ->
  pend_ok (chunks m) requested p /\ p_registration p = 0 /\ newly_allocated p = false.
Proof. intros Hp. by eapply select_reused. Qed.

Lemma fresh_facts want p : p ∈ fresh want ->
  pend_ok (chunks m) requested p /\ p_registration p = 0 /\ newly_allocated p = true /\ p_address p = 0.
Proof. intros Hp. by eapply select_fresh. Qed.

Lemma reused_pends_ok : pends_ok (chunks m) requested reused.
Proof.
  split; [|apply Forall_elem; intros p Hp; by apply reused_facts].
  by destruct (select_chunks_spec (fun _ => unused_in IS_MEMORY_POOL_OPPORTUNISTIC) (take_chunk converted)
    (chunks m) 0 n) as (_ & H & _).
Qed.

Lemma build_ok want : pends_ok (chunks m) requested (reused ++ fresh want) /\
  Forall (fun p => p_registration p = 0) (reused ++ fresh want) /\
  Forall (fun p => newly_allocated p = true -> p_address p = 0) (reused ++ fresh want) /\
  sum_list_with is_new (reused ++ fresh want) = length (fresh want).
Proof.
  destruct reused_pends_ok as [Hnd1 Hok1].
  destruct (select_chunks_spec (fun _ c => address c =? 0) new_chunk (chunks m) 0 want) as (_ & Hnd2 & _); [done|].
  split_and!.
  - split; [|apply Forall_app; split; [done|apply Forall_elem; intros p Hp; by eapply fresh_facts]].
    rewrite fmap_app. apply list_relations.list.NoDup_app. split_and!; [done| |done].
    intros k (p & -> & Hp)%list_elem_of_fmap (q & Hpq & Hq)%list_elem_of_fmap.
    destruct (reused_facts p Hp) as ([L1 R1 _] & _ & N1).
    destruct (fresh_facts want q Hq) as ([L2 _ _] & _ & N2 & _).
    rewrite Hpq, L2 in L1. unfold pend_old in L1. rewrite N1, N2 in L1.
    injection L1 as L1. by apply (R1 N1).
  - apply Forall_elem. intros p [Hp|Hp]%elem_of_app; [by apply reused_facts|by eapply fresh_facts].
  - apply Forall_elem. intros p [Hp|Hp]%elem_of_app; [|intros; by eapply fresh_facts].
    intros E. destruct (reused_facts p Hp) as (_ & _ & N). congruence.
  - rewrite sum_list_with_app, (sum_list_with_zero _ reused), (sum_list_with_one _ (fresh want)); [done| |].
    + intros p Hp. unfold is_new. by destruct (fresh_facts want p Hp) as (_ & _ & -> & _).
    + intros p Hp. unfold is_new. by destruct (reused_facts p Hp) as (_ & _ & ->).
Qed.
End build.

Lemma selection_spec m requested n :
  manager_inv m -> pool_ok requested ->
  let same := select_same m requested n in
  let conv := select_converted m requested (n - length same) in
  let fresh := select_new m (same ++ conv) (n - length same - length conv) in
  selection m requested n same conv fresh.
Proof.
  intros Hm Hp same conv fresh. destruct Hp as [->| ->].
  - pose proof (reused_pends_ok m IS_MEMORY_POOL_OPPORTUNISTIC n false Hm eq_refl) as Hr.
    pose proof (build_ok m IS_MEMORY_POOL_OPPORTUNISTIC n false Hm eq_refl (n - length same)%nat) as Hb.
    fold (select_same m IS_MEMORY_POOL_OPPORTUNISTIC n) in Hr, Hb.
    fold same in Hr, Hb. change conv with (@nil pending_chunk) in *.
    assert (Hf : fresh = select_chunks (fun _ c => address c =? 0) new_chunk (chunks m) 0 (n - length same)).
    { unfold fresh. rewrite app_nil_r. cbn [length]. rewrite Nat.sub_0_r.
      eapply select_new_eq; [done|]. apply Forall_elem. intros p Hp'.
      by apply (reused_facts m IS_MEMORY_POOL_OPPORTUNISTIC n false Hm eq_refl p Hp'). }
    cbv beta in Hb. rewrite <- Hf in Hb. destruct Hb as (B1 & B2 & B3 & B4).
    constructor; cbn [app]; try done; cbn [length]; rewrite ?Nat.add_0_r, ?Nat.sub_0_r.
    + apply length_select_chunks.
    + rewrite Hf. apply length_select_chunks.
  - assert (Hs : same = []).
    { unfold same, select_same. apply length_zero_iff_nil. rewrite length_select_chunks.
      rewrite (count_zero (unused_in _)); [lia|]. intros c Hc. destruct (unused_in _ c) eqn:E; [|done].
      apply list_elem_of_lookup in Hc as [k Hk].
      apply unused_free in E as [E _]; [done| |by right].
      eapply Forall_lookup_1; [apply (m_chunks _ Hm)|done]. }
    pose proof (reused_pends_ok m IS_MEMORY_POOL_COMMITTED n true Hm eq_refl) as Hr.
    assert (Hcv : conv = select_chunks (fun _ => unused_in IS_MEMORY_POOL_OPPORTUNISTIC) (take_chunk true)
      (chunks m) 0 n).
    { unfold conv. rewrite Hs. cbn [length]. by rewrite Nat.sub_0_r. }
    rewrite <- Hcv in Hr.
    pose proof (build_ok m IS_MEMORY_POOL_COMMITTED n true Hm eq_refl (n - length conv)%nat) as Hb.
    rewrite <- Hcv in Hb. clearbody same. subst same.
    assert (Hf : fresh = select_chunks (fun _ c => address c =? 0) new_chunk (chunks m) 0 (n - length conv)).
    { unfold fresh. cbn [app length]. rewrite Nat.sub_0_r.
      eapply select_new_eq; [done|]. apply Forall_elem. intros p Hp'. rewrite Hcv in Hp'.
      by apply (reused_facts m IS_MEMORY_POOL_COMMITTED n true Hm eq_refl p Hp'). }
    cbv beta in Hb. rewrite <- Hf in Hb. destruct Hb as (B1 & B2 & B3 & B4).
    constructor; cbn [app]; try done; cbn [length]; rewrite ?Nat.add_0_l, ?Nat.sub_0_r.
    + rewrite Hcv. apply length_select_chunks.
    + rewrite Hf. apply length_select_chunks.
Qed.

(** * Acquisition: resources in flight, rollback and assignment *)

(** Blocks and registrations that pending entries hold. *)
Definition pblocks (ps : list pending_chunk) (a : Z) : nat :=
  sum_list_with (fun p => b2n (newly_allocated p && Z.eqb (p_address p) a)) ps.
Definition pregs (reg : Z) (ps : list pending_chunk) (g r : Z) : nat :=
  sum_list_with (fun p => b2n (Z.eqb reg g && Z.eqb (p_registration p) r)) ps.
(** Blocks still to be released after the registrations were undone. *)
Definition rblocks (ps : list pending_chunk) (a : Z) : nat :=
  sum_list_with (fun p =>
    b2n (newly_allocated p && Z.eqb (p_registration p) 0 && Z.eqb (p_address p) a)) ps.

(** An entry before and after allocation, before and after registration. *)
Record allocated_from (p p' : pending_chunk) : Prop := {
  af_index : p_index p' = p_index p;
  af_new : newly_allocated p' = newly_allocated p;
  af_converted : converted_from_opportunistic p' = converted_from_opportunistic p;
  af_reused : newly_allocated p = false -> p_address p' = p_address p
}.

Lemma allocated_from_refl ps : Forall2 allocated_from ps ps.
Proof. induction ps; constructor; [by constructor|done]. Qed.

Lemma allocated_from_trans ps1 ps2 ps3 :
  Forall2 allocated_from ps1 ps2 -> Forall2 allocated_from ps2 ps3 -> Forall2 allocated_from ps1 ps3.
Proof.
  intros H12. revert ps3. induction H12 as [|p1 p2 l1 l2 [A1 A2 A3 A4] _ IH]; intros ps3 H23.
  - by inversion H23.
  - inversion H23 as [|? p3 ? l3 [B1 B2 B3 B4] HF]; subst. constructor; [|by apply IH].
    constructor; try congruence. intros E. rewrite B4 by congruence. auto.
Qed.

Lemma allocated_from_fmap ps ps' :
  Forall2 allocated_from ps ps' -> p_index <$> ps' = p_index <$> ps /\
  sum_list_with is_new ps' = sum_list_with is_new ps /\ length ps' = length ps.
Proof.
  induction 1 as [|p p' l l' [A1 A2 _ _] _ (IH1 & IH2 & IH3)]; [done|]. cbn.
  unfold is_new at 1 3. by rewrite A1, A2, IH1, IH2, IH3.
Qed.

Lemma allocated_from_pends cs requested ps ps' :
  Forall2 allocated_from ps ps' -> pends_ok cs requested ps -> pends_ok cs requested ps'.
Proof.
  intros HF [Hnd Hok]. pose proof (allocated_from_fmap _ _ HF) as (E & _ & _).
  split; [by rewrite E|]. clear Hnd E. revert Hok.
  induction HF as [|p p' l l' [A1 A2 A3 A4] _ IH]; [done|].
  intros [[H1 H2 H3] Hl]%Forall_cons_iff. apply Forall_cons_iff. split; [|by apply IH].
  constructor; rewrite ?A1, ?A2, ?A3; try done.
  - rewrite H1. unfold pend_old. rewrite A2. destruct (newly_allocated p) eqn:E; [done|].
    by rewrite A4.
  - intros E. rewrite A4 by done. auto.
Qed.

Section with_laws.
Context {W : Type} {adapters : MemoryAdapters W} {laws : MemoryAdapterLaws W}.

Lemma pblocks_fresh ps a :
  Forall (fun p => newly_allocated p = true -> p_address p = 0) ps -> a <> 0 -> pblocks ps a = 0%nat.
Proof.
  intros H Ha. apply sum_list_with_zero. rewrite Forall_forall in H. intros p Hp%list_elem_of_In.
  specialize (H p Hp). destruct (newly_allocated p); [|done]. rewrite H by done.
  by rewrite (proj2 (Z.eqb_neq 0 a)) by congruence.
Qed.

Lemma pregs_none reg ps g r :
  Forall (fun p => p_registration p = 0) ps -> r <> 0 -> pregs reg ps g r = 0%nat.
Proof.
  intros H Hr. apply sum_list_with_zero. rewrite Forall_forall in H. intros p Hp%list_elem_of_In.
  rewrite (H p Hp), (proj2 (Z.eqb_neq 0 r)) by congruence. by rewrite andb_false_r.
Qed.

(** The allocation loop: what it holds when it stops. *)
Lemma allocate_pending_spec ps w w' ps' stop :
  Forall (fun p => newly_allocated p = true -> p_address p = 0) ps ->
  Forall (fun p => p_registration p = 0) ps ->
  allocate_pending w ps = (w', ps', stop) ->
  Forall2 allocated_from ps ps' /\ Forall (fun p => p_registration p = 0) ps' /\
  regs w' = regs w /\ (forall a, a <> 0 -> blocks w' a = (blocks w a + pblocks ps' a)%nat) /\
  (stop = None -> Forall (fun p => newly_allocated p = true -> p_address p <> 0) ps') /\
  (forall r reason, stop = Some (r, reason) -> r <> IS_MEMORY_OK /\
     r <> IS_MEMORY_CLEANUP_FAILED /\ r <> IS_MEMORY_POOL_EXHAUSTED).
Proof.
  revert w w' ps' stop. induction ps as [|p ps IH]; intros w w' ps' stop Hz Hr; cbn.
  { intros [= <- <- <-]. by split_and!. }
  apply Forall_cons_iff in Hz as [Hz1 Hz]. apply Forall_cons_iff in Hr as [Hr1 Hr].
  assert (Hrest : forall (q : pending_chunk) a, a <> 0 ->
    pblocks (q :: ps) a = b2n (newly_allocated q && Z.eqb (p_address q) a)).
  { intros q a Ha. cbn. pose proof (pblocks_fresh ps a Hz Ha). unfold pblocks in *. lia. }
  destruct (newly_allocated p) eqn:En; cbn [negb].
  2: { destruct (allocate_pending w ps) as [[w1 ps1] stop1] eqn:E. intros [= <- <- <-].
       destruct (IH _ _ _ _ Hz Hr E) as (F1 & F2 & F3 & F4 & F5 & F6). split_and!; try done.
       - constructor; [by constructor|done].
       - by constructor.
       - intros a Ha. rewrite F4 by done. cbn -[Z.eqb]. by rewrite En.
       - intros Es. constructor; [congruence|auto]. }
  destruct (allocate w) as [w1 [st a0]] eqn:Ea.
  assert (Hp : Forall2 allocated_from (p :: ps) (p <| p_address := a0 |> :: ps)).
  { constructor; [constructor; cbn; try done; congruence|apply allocated_from_refl]. }
  destruct (Z.eqb_spec st 0) as [->|Hst]; cbn [negb].
  2: { intros [= <- <- <-]. destruct (allocate_fail _ _ _ _ Ea Hst) as (-> & G1 & G2).
       split_and!; try done; [by constructor| |by intros ? ? [= <- <-]].
       intros a Ha. rewrite Hrest, G2 by done. cbn -[Z.eqb]. rewrite En.
       rewrite (proj2 (Z.eqb_neq 0 a)) by congruence. cbn. lia. }
  destruct (allocate_ok _ _ _ Ea) as (Ha0 & G1 & G2).
  pose proof (touch_frame a0 w1) as [T1 T2]. destruct (touch a0 w1) as [w2 st2]. cbn [fst] in *.
  assert (Hblock : forall a, blocks w2 a = (blocks w a + b2n (Z.eqb a0 a))%nat)
    by (intros a; by rewrite T1, G2).
  destruct (Z.eqb_spec st2 0) as [->|Hst2]; cbn [negb].
  2: { intros [= <- <- <-]. split_and!; try done; [by constructor|congruence| |by intros ? ? [= <- <-]].
       intros a Ha. rewrite Hrest, Hblock by done. cbn -[Z.eqb]. by rewrite En. }
  destruct (allocate_pending w2 ps) as [[w3 ps3] stop3] eqn:E. intros [= <- <- <-].
  destruct (IH _ _ _ _ Hz Hr E) as (F1 & F2 & F3 & F4 & F5 & F6). split_and!; try done.
  - constructor; [by inversion Hp|done].
  - by constructor.
  - congruence.
  - intros a Ha. rewrite F4, Hblock by done. cbn -[Z.eqb]. rewrite En. cbn -[Z.eqb]. unfold pblocks. lia.
  - intros Es. constructor; [done|auto].
Qed.

Lemma register_pending_spec reg ps w w' ps' stop :
  Forall (fun p => p_registration p = 0) ps ->
  register_pending w ps reg = (w', ps', stop) ->
  Forall2 (fun p p' => allocated_from p p' /\ p_address p' = p_address p) ps ps' /\
  blocks w' = blocks w /\ (forall g r, r <> 0 -> regs w' g r = (regs w g r + pregs reg ps' g r)%nat) /\
  (stop = None -> Forall (fun p => p_registration p <> 0) ps') /\
  (forall r reason, stop = Some (r, reason) -> r <> IS_MEMORY_OK /\
     r <> IS_MEMORY_CLEANUP_FAILED /\ r <> IS_MEMORY_POOL_EXHAUSTED).
Proof.
  revert w w' ps' stop. induction ps as [|p ps IH]; intros w w' ps' stop Hr; cbn.
  { intros [= <- <- <-]. by split_and!. }
  apply Forall_cons_iff in Hr as [Hr1 Hr].
  destruct (register_chunk reg (p_address p) w) as [w1 r0] eqn:Ea.
  destruct (Z.eqb_spec r0 0) as [->|Hr0].
  - intros [= <- <- <-]. destruct (register_fail _ _ _ _ Ea) as [G1 G2].
    split_and!; try done; [| |by intros ? ? [= <- <-]].
    + constructor; [by split; [constructor|]|]. clear. induction ps; constructor; [|done].
      by split; [constructor|].
    + intros g r Hr0. rewrite G2. cbn -[Z.eqb]. pose proof (pregs_none reg ps g r Hr Hr0) as H. unfold pregs in H.
      rewrite H, (proj2 (Z.eqb_neq 0 r)), andb_false_r by congruence. cbn. lia.
  - destruct (register_ok _ _ _ _ _ Ea Hr0) as [G1 G2].
    destruct (register_pending w1 ps reg) as [[w3 ps3] stop3] eqn:E. intros [= <- <- <-].
    destruct (IH _ _ _ _ Hr E) as (F1 & F2 & F3 & F4 & F5). split_and!; try done.
    + constructor; [by split; [constructor|]|done].
    + congruence.
    + intros g r Hz. rewrite F3, G2 by done. cbn -[Z.eqb]. unfold pregs. lia.
    + intros Es. constructor; [done|auto].
Qed.
End with_laws.

(** ** Quarantine *)

Definition alloc_of (q : Z) (m : is_memory_manager) : Z :=
  if q =? IS_MEMORY_POOL_OPPORTUNISTIC then allocated_opportunistic_chunks m
  else allocated_committed_chunks m.
Definition limit_of (q : Z) (m : is_memory_manager) : Z :=
  if q =? IS_MEMORY_POOL_OPPORTUNISTIC then max_opportunistic_gib (config m)
  else max_committed_gib (config m).

Definition quarantined_from (requested reg : Z) (p : pending_chunk) : is_memory_chunk :=
  {| address := p_address p; registration := p_registration p; owner := 0;
     registration_adapter := reg;
     pool := if newly_allocated p then requested else IS_MEMORY_POOL_OPPORTUNISTIC;
     quarantined := true |}.

(** Chunks nobody owns before and after. *)
Lemma conns_ok_unowned cs conns k x y :
  conns_ok cs conns -> cs !! k = Some x -> owner x = 0 -> owner y = 0 ->
  conns_ok (<[k := y]> cs) conns.
Proof.
  intros Hc Hk Hx Hy. eapply conns_ok_chunks; [done|]. intros o p Ho.
  pose proof (count_insert (held_by o p) k x y cs Hk) as H. cbn -[count Z.eqb] in H.
  rewrite Hx, Hy, (proj2 (Z.eqb_neq 0 o)) in H by congruence. cbn -[count] in H. lia.
Qed.

Lemma pend_old_owner p : owner (pend_old p) = 0.
Proof. unfold pend_old. by destruct (newly_allocated p). Qed.

Lemma quarantine_pending_char m p requested reg :
  pend_ok (chunks m) requested p ->
  let cs := <[p_index p := quarantined_from requested reg p]> (chunks m) in
  quarantine_pending m p requested reg =
    (if newly_allocated p then pool_counter_up (m <| chunks := cs |>) requested else m <| chunks := cs |>)
      <| quarantined_chunks := u32 (quarantined_chunks m + 1) |>.
Proof.
  intros [Hk _ _]. unfold quarantine_pending, pool_counter_up, quarantined_from. rewrite Hk.
  unfold pend_old. destruct (newly_allocated p); [|done]. by destruct (requested =? _).
Qed.

Lemma quarantine_pending_spec m p requested reg :
  manager_inv m -> pend_ok (chunks m) requested p -> pool_ok requested ->
  p_registration p <> 0 -> p_address p <> 0 ->
  alloc_of requested m + Z.of_nat (is_new p) <= limit_of requested m ->
  let m' := quarantine_pending m p requested reg in
  manager_inv m' /\ chunks m' = <[p_index p := quarantined_from requested reg p]> (chunks m) /\
  config m' = config m /\ connections m' = connections m /\
  alloc_of requested m' = alloc_of requested m + Z.of_nat (is_new p).
Proof.
  intros Hm Hpok Hp Hr Ha Hlim. cbv zeta. rewrite quarantine_pending_char by done.
  destruct Hpok as [Hk _ _].
  pose proof (chunk_capacity_small _ Hm) as Hlen.
  assert (Hsmall : forall f, (count f (chunks m) <= 128)%nat).
  { intros f. pose proof (count_le_length f (chunks m)). lia. }
  destruct Hm as [M1 M2 M3 [A1 A2 A3 A4 A5] M5 M6 M7 M8].
  assert (Hins := fun f => count_insert f _ _ (quarantined_from requested reg p) _ Hk).
  pose proof (Hins (allocated_in IS_MEMORY_POOL_OPPORTUNISTIC)) as I1.
  pose proof (Hins (allocated_in IS_MEMORY_POOL_COMMITTED)) as I2.
  pose proof (Hins (assigned_in IS_MEMORY_POOL_OPPORTUNISTIC)) as I3.
  pose proof (Hins (assigned_in IS_MEMORY_POOL_COMMITTED)) as I4.
  pose proof (Hins quarantined) as I5.
  pose proof (Hsmall (allocated_in IS_MEMORY_POOL_OPPORTUNISTIC)).
  pose proof (Hsmall (allocated_in IS_MEMORY_POOL_COMMITTED)).
  pose proof (Hsmall quarantined).
  assert (Hconn : conns_ok (<[p_index p := quarantined_from requested reg p]> (chunks m)) (connections m)).
  { eapply conns_ok_unowned; [done|done|apply pend_old_owner|done]. }
  assert (Hok : Forall chunk_ok (<[p_index p := quarantined_from requested reg p]> (chunks m))).
  { apply Forall_insert; [done|]. constructor; [done|done|].
    destruct (newly_allocated p); [done|by left]. }
  set (y := quarantined_from requested reg p) in *.
  assert (Hy : address y = p_address p /\ owner y = 0 /\ quarantined y = true /\
    pool y = if newly_allocated p then requested else IS_MEMORY_POOL_OPPORTUNISTIC) by done.
  destruct Hy as (Y1 & Y2 & Y3 & Y4). clearbody y.
  cbn -[count Z.eqb b2n] in I1, I2, I3, I4, I5. rewrite Y1, Y4 in I1, I2. rewrite Y2 in I3, I4. rewrite Y3 in I5.
  unfold pend_old, alloc_of, limit_of, is_new in *.
  destruct (newly_allocated p), Hp; subst requested; unfold pool_counter_up;
    cbn -[count Z.eqb] in *; eqb_neq; eval_pools; cbn -[count Z.eqb] in *;
    (split_and!; [constructor; cbn -[count Z.eqb]; try done|done|done|done|]);
    rewrite ?length_insert; try done;
    rewrite ?(u32_add _ _ 1 A1), ?(u32_add _ _ 1 A2) by lia; try (constructor; cbn -[count Z.eqb]);
    rewrite ?(u32_add _ _ 1 A1), ?(u32_add _ _ 1 A2), ?(u32_add _ _ 1 A5) by lia; lia.
Qed.

(** ** Rollback *)

Section rollback.
Context {W : Type} {adapters : MemoryAdapters W} {laws : MemoryAdapterLaws W}.

Lemma rollback_addresses_spec ps B R cs w :
  owns (fun a => B a + rblocks ps a)%nat R cs w -> owns B R cs (rollback_addresses w ps).
Proof.
  revert B w. induction ps as [|p ps IH]; intros B w [Hb Hr]; cbn [rollback_addresses].
  { split; [|done]. intros a Ha. rewrite Hb by done. cbn. lia. }
  apply IH. assert (Hcons : forall a, rblocks (p :: ps) a = (b2n (newly_allocated p &&
    Z.eqb (p_registration p) 0 && Z.eqb (p_address p) a) + rblocks ps a)%nat) by done.
  destruct (newly_allocated p); cbn [negb orb andb] in *.
  2: { split; [|done]. intros a Ha. rewrite Hb, Hcons by done. cbn. lia. }
  destruct (Z.eqb_spec (p_registration p) 0) as [Er|Er]; cbn [negb orb andb] in *.
  2: { rewrite orb_true_r. split; [|done]. intros a Ha. rewrite Hb, Hcons by done. cbn. lia. }
  rewrite orb_false_r. destruct (Z.eqb_spec (p_address p) 0) as [E0|E0].
  { split; [|done]. intros a Ha. rewrite Hb, Hcons, E0 by done.
    rewrite (proj2 (Z.eqb_neq 0 a)) by congruence. cbn. lia. }
  assert (Hpos : (0 < blocks w (p_address p))%nat).
  { rewrite Hb, Hcons, Z.eqb_refl by done. cbn. lia. }
  destruct (release_ok _ _ Hpos) as [Hreg Hblk]. split.
  - intros a Ha. specialize (Hblk a). rewrite Hb, Hcons in Hblk by done. lia.
  - intros g r Hrz. rewrite Hreg. by apply Hr.
Qed.

(** The chunks that changed were pending, and stay without an owner. *)
Definition quarantines (ps : list pending_chunk) (m m' : is_memory_manager) : Prop :=
  config m' = config m /\ connections m' = connections m /\
  (forall k, k ∉ p_index <$> ps -> chunks m' !! k = chunks m !! k) /\
  (forall k ch, k ∈ p_index <$> ps -> chunks m' !! k = Some ch -> owner ch = 0).

Lemma pends_ok_insert cs requested p ps y :
  pends_ok cs requested (p :: ps) -> pends_ok (<[p_index p := y]> cs) requested ps.
Proof.
  intros [Hnd Hok]. cbn in Hnd. inversion Hnd as [|? ? Hni Hnd']; subst.
  apply Forall_cons_iff in Hok as [_ Hok]. split; [done|]. apply Forall_elem. intros q Hq.
  rewrite Forall_forall in Hok. destruct (Hok q) as [H1 H2 H3]; [by apply list_elem_of_In|].
  constructor; try done. rewrite list_lookup_insert_ne; [done|]. intros E. apply Hni. rewrite E.
  by apply list_elem_of_fmap_2.
Qed.

Lemma quarantines_cons p ps m m1 m' :
  p_index p ∉ p_index <$> ps ->
  config m1 = config m -> connections m1 = connections m ->
  (forall k, k <> p_index p -> chunks m1 !! k = chunks m !! k) ->
  (forall ch, chunks m1 !! p_index p = Some ch -> owner ch = 0) ->
  quarantines ps m1 m' -> quarantines (p :: ps) m m'.
Proof.
  intros Hni E1 E2 E3 E4 (Q1 & Q2 & Q3 & Q4). split_and!; try congruence.
  - intros k. cbn. rewrite not_elem_of_cons. intros [Hne Hk]. rewrite Q3, E3 by done. done.
  - intros k ch. cbn. rewrite elem_of_cons. intros [->|Hk]; [|by apply Q4].
    rewrite Q3 by done. apply E4.
Qed.

Lemma rollback_registrations_spec requested reg ps B R m w m' w' ps' failed :
  manager_inv m -> pends_ok (chunks m) requested ps -> pool_ok requested ->
  Forall (fun p => p_registration p <> 0 -> p_address p <> 0) ps ->
  alloc_of requested m + Z.of_nat (sum_list_with is_new ps) <= limit_of requested m ->
  owns (fun a => B a + pblocks ps a)%nat (fun g r => R g r + pregs reg ps g r)%nat (chunks m) w ->
  rollback_registrations m w ps requested reg = (m', w', ps', failed) ->
  manager_inv m' /\ owns (fun a => B a + rblocks ps' a)%nat R (chunks m') w' /\
  quarantines ps m m' /\ (failed = false -> m' = m).
Proof.
  revert B m w m' w' ps' failed.
  induction ps as [|p ps IH]; intros B m w m' w' ps' failed Hm Hok Hp Haddr Hlim Hown; cbn.
  { intros [= <- <- <- <-]. split_and!; try done; [|by split_and!; try (intros ? ? ?%elem_of_nil)].
    destruct Hown as [Hb Hr]. split; [exact Hb|]. intros g r Hz. rewrite Hr by done. cbn. lia. }
  pose proof Hok as [Hnd HokF]. cbn in Hnd. inversion Hnd as [|? ? Hni Hnd']; subst.
  apply Forall_cons_iff in HokF as [Hpok HokF]. apply Forall_cons_iff in Haddr as [Ha Haddr].
  cbn [sum_list_with] in Hlim. destruct Hown as [Hb Hr]. unfold pblocks, pregs in Hb, Hr.
  cbn [sum_list_with] in Hb, Hr.
  (* the entry without registration: its block stays to be released *)
  assert (Hskip : forall w1 p1, p_registration p1 = 0 -> newly_allocated p1 = newly_allocated p ->
    p_address p1 = p_address p -> blocks w1 = blocks w ->
    (forall g r, r <> 0 -> regs w1 g r = (R g r + count (at_registration g r) (chunks m) + pregs reg ps g r)%nat) ->
    (let '(m, w, ps, failed') := rollback_registrations m w1 ps requested reg in
     (m, w, p1 :: ps, failed')) = (m', w', ps', failed) ->
    manager_inv m' /\ owns (fun a => B a + rblocks ps' a)%nat R (chunks m') w' /\
    quarantines (p :: ps) m m' /\ (failed = false -> m' = m)).
  { intros w1 p1 Hp1 Hn1 Ha1 Hb1 Hr1.
    destruct (rollback_registrations m w1 ps requested reg) as [[[m2 w2] ps2] f2] eqn:E.
    intros [= <- <- <- <-].
    apply (IH (fun a => B a + b2n (newly_allocated p && Z.eqb (p_address p) a))%nat) in E
      as (F1 & F2 & F3 & F4); [|done|by split|done|done|lia|].
    2: { split; [|intros g r Hz; rewrite Hr1 by done; lia]. intros a Hz. rewrite Hb1, Hb by done.
         unfold pblocks. lia. }
    split_and!; try done.
    - destruct F2 as [G1 G2]. split; [|done]. intros a Hz. rewrite G1 by done. unfold rblocks.
      cbn [sum_list_with]. rewrite Hp1, Hn1, Ha1, andb_true_r. cbn -[Z.eqb]. lia.
    - eapply quarantines_cons; [done..| |done].
      intros ch Hch. destruct Hpok as [Hl _ _]. rewrite Hl in Hch. injection Hch as <-.
      apply pend_old_owner. }
  destruct (Z.eqb_spec (p_registration p) 0) as [Er|Er].
  { apply Hskip; try done. intros g r Hz. rewrite Hr by done.
    rewrite Er, (proj2 (Z.eqb_neq 0 r)), andb_false_r by congruence. cbn. unfold pregs. lia. }
  assert (Hpos : (0 < regs w reg (p_registration p))%nat).
  { rewrite Hr, !Z.eqb_refl by done. cbn. lia. }
  destruct (deregister_chunk reg (p_registration p) w) as [w1 st] eqn:Ed.
  destruct (Z.eqb_spec st 0) as [->|Hst]; cbn [negb].
  { destruct (deregister_ok _ _ _ _ Ed Hpos) as [G1 G2]. apply Hskip; try done.
    intros g r Hz. specialize (G2 g r). rewrite Hr in G2 by done. unfold pregs. lia. }
  destruct (deregister_fail _ _ _ _ _ Ed Hst) as [G1 G2].
  destruct (quarantine_pending_spec m p requested reg) as (Q1 & Q2 & Q3 & Q4 & Q5); auto; [lia|].
  set (m1 := quarantine_pending m p requested reg) in *.
  destruct (rollback_registrations m1 w1 ps requested reg) as [[[m2 w2] ps2] f2] eqn:E.
  intros [= <- <- <- <-]. assert (Hlt := lookup_lt_Some _ _ _ (pd_lookup _ _ _ Hpok)).
  apply (IH B) in E as (F1 & F2 & F3 & F4); [|done|rewrite Q2; by eapply pends_ok_insert|done|done| |].
  - split_and!; try done.
    + destruct F2 as [K1 K2]. split; [|done]. intros a Hz. rewrite K1 by done. unfold rblocks.
      cbn [sum_list_with]. rewrite (proj2 (Z.eqb_neq _ _) Er), andb_false_r. cbn -[Z.eqb]. lia.
    + eapply quarantines_cons; [done..| | |done].
      * intros k Hk. rewrite Q2. by apply list_lookup_insert_ne.
      * intros ch. rewrite Q2, list_lookup_insert_eq by done. by intros [= <-].
  - unfold limit_of in *. rewrite Q3, Q5. lia.
  - split.
    + intros a Hz. rewrite G1, Hb, Q2 by done.
      pose proof (count_insert (at_address a) _ _ (quarantined_from requested reg p) _ (pd_lookup _ _ _ Hpok)) as I.
      unfold pend_old, quarantined_from in I |- *. cbn -[count Z.eqb b2n] in I |- *.
      destruct (newly_allocated p); cbn -[count Z.eqb b2n] in I |- *; unfold pblocks;
        rewrite ?(proj2 (Z.eqb_neq 0 a)) in I by congruence; cbn [b2n] in *; lia.
    + intros g r Hz. rewrite G2, Hr, Q2 by done.
      pose proof (count_insert (at_registration g r) _ _ (quarantined_from requested reg p) _ (pd_lookup _ _ _ Hpok)) as I.
      unfold pend_old, quarantined_from in I |- *. cbn -[count Z.eqb b2n] in I |- *.
      destruct (newly_allocated p); cbn -[count Z.eqb b2n] in I |- *; unfold pregs;
        rewrite ?(proj2 (Z.eqb_neq 0 r)), ?andb_false_r in I by congruence; cbn [b2n] in *; lia.
Qed.
End rollback.
