(* ===== verification/MemoryManagerAssign.v ===== *)
(** * Acquisition: assignment of the pending chunks, and the whole operation *)
From S2P Require Import Prelude MemoryManager MemoryManagerInv MemoryManagerConn MemoryManagerSelect.

(** ** Assignment *)

Definition assigned_from (requested own reg : Z) (p : pending_chunk) : is_memory_chunk :=
  {| address := p_address p; registration := p_registration p; owner := own;
     registration_adapter := reg; pool := requested; quarantined := false |}.

Definition grant_from (requested : Z) (p : pending_chunk) : is_memory_grant :=
  {| provider_chunk_id := Z.of_nat (p_index p); grant_address := p_address p;
     grant_registration := p_registration p; grant_pool := requested |}.

(** The counters of allocated chunks agree with the chunk table. *)
Definition allocation_counts (m : is_memory_manager) : Prop :=
  allocated_opportunistic_chunks m
    = Z.of_nat (count (allocated_in IS_MEMORY_POOL_OPPORTUNISTIC) (chunks m)) /\
  allocated_committed_chunks m
    = Z.of_nat (count (allocated_in IS_MEMORY_POOL_COMMITTED) (chunks m)).

(** The fields that an assignment leaves alone. *)
Record same_rest (m m' : is_memory_manager) : Prop := {
  e_config : config m' = config m;
  e_connections : connections m' = connections m;
  e_capacity : connection_capacity m' = connection_capacity m;
  e_opportunistic : assigned_opportunistic_chunks m' = assigned_opportunistic_chunks m;
  e_committed : assigned_committed_chunks m' = assigned_committed_chunks m;
  e_quarantined : quarantined_chunks m' = quarantined_chunks m
}.

Lemma same_rest_trans m1 m2 m3 : same_rest m1 m2 -> same_rest m2 m3 -> same_rest m1 m3.
Proof. intros [] []. constructor; congruence. Qed.

Lemma assign_pending_char m p requested own reg :
  pend_ok (chunks m) requested p -> (length (chunks m) <= 128)%nat ->
  let m1 := m <| chunks := <[p_index p := assigned_from requested own reg p]> (chunks m) |> in
  assign_pending m p requested own reg =
    (if converted_from_opportunistic p then
       m1 <| allocated_opportunistic_chunks := u32 (allocated_opportunistic_chunks m - 1) |>
          <| allocated_committed_chunks := u32 (allocated_committed_chunks m + 1) |>
     else if newly_allocated p then pool_counter_up m1 requested else m1,
     grant_from requested p).
Proof.
  intros [Hk _ Hconv] Hlen. unfold assign_pending, grant_from. rewrite Hk. cbn [default].
  assert (Hlt := lookup_lt_Some _ _ _ Hk). rewrite Hconv.
  assert (u32 (Z.of_nat (p_index p)) = Z.of_nat (p_index p)) as ->.
  { apply wrap_small. unfold in_u. pow_lia. }
  unfold pend_old, pool_counter_up. destruct (newly_allocated p); cbn -[Z.eqb].
  - by destruct (requested =? IS_MEMORY_POOL_OPPORTUNISTIC).
  - by destruct (requested =? IS_MEMORY_POOL_COMMITTED).
Qed.

Lemma assign_pending_spec m p requested own reg m' g :
  allocation_counts m -> (length (chunks m) <= 128)%nat -> pend_ok (chunks m) requested p ->
  pool_ok requested -> p_address p <> 0 ->
  assign_pending m p requested own reg = (m', g) ->
  allocation_counts m' /\ same_rest m m' /\
  chunks m' = <[p_index p := assigned_from requested own reg p]> (chunks m) /\
  g = grant_from requested p.
Proof.
  intros [A1 A2] Hlen Hpok Hp Ha. rewrite assign_pending_char by done.
  destruct Hpok as [Hk _ Hconv]. rewrite Hconv. unfold allocation_counts.
  assert (Hsmall : forall f, (count f (chunks m) <= 128)%nat).
  { intros f. pose proof (count_le_length f (chunks m)). lia. }
  pose proof (Hsmall (allocated_in IS_MEMORY_POOL_OPPORTUNISTIC)).
  pose proof (Hsmall (allocated_in IS_MEMORY_POOL_COMMITTED)).
  set (y := assigned_from requested own reg p).
  pose proof (count_insert (allocated_in IS_MEMORY_POOL_OPPORTUNISTIC) _ _ y _ Hk) as I1.
  pose proof (count_insert (allocated_in IS_MEMORY_POOL_COMMITTED) _ _ y _ Hk) as I2.
  assert (Hy : address y = p_address p /\ pool y = requested) by done. destruct Hy as [Y1 Y2].
  clearbody y. cbn -[count Z.eqb b2n] in I1, I2. rewrite Y1, Y2 in I1, I2.
  unfold pend_old in *. destruct (newly_allocated p); cbn -[count Z.eqb b2n] in *;
    destruct Hp; subst requested; unfold pool_counter_up; eqb_neq; eval_pools;
    cbn -[count Z.eqb] in *; intros [= <- <-]; (split_and!; [| |done|done|done]);
    cbn -[count Z.eqb];
    rewrite ?(u32_add _ _ 1 A1), ?(u32_add _ _ 1 A2), ?(u32_pred _ _ A1) by lia; lia.
Qed.

Definition changes (requested own reg : Z) (ps : list pending_chunk) : list (nat * is_memory_chunk) :=
  (fun p => (p_index p, assigned_from requested own reg p)) <$> ps.

Lemma assign_all_spec requested own reg ps m m' gs :
  allocation_counts m -> (length (chunks m) <= 128)%nat -> pends_ok (chunks m) requested ps ->
  pool_ok requested -> Forall (fun p => p_address p <> 0) ps ->
  assign_all m ps requested own reg = (m', gs) ->
  allocation_counts m' /\ same_rest m m' /\
  chunks m' = put_all (changes requested own reg ps) (chunks m) /\
  gs = grant_from requested <$> ps.
Proof.
  revert m m' gs. induction ps as [|p ps IH]; intros m m' gs Hacc Hlen Hok Hp Ha; cbn [assign_all].
  { intros [= <- <-]. by split_and!. }
  destruct (assign_pending m p requested own reg) as [m1 g1] eqn:E1.
  destruct (assign_all m1 ps requested own reg) as [m2 gs2] eqn:E2. intros [= <- <-].
  apply Forall_cons_iff in Ha as [Ha1 Ha]. pose proof Hok as [_ HokF].
  apply Forall_cons_iff in HokF as [Hpok _].
  apply assign_pending_spec in E1 as (B1 & B2 & B3 & B4); try done.
  apply IH in E2 as (C1 & C2 & C3 & C4); try done.
  - split_and!; [done|by eapply same_rest_trans| |by rewrite C4, B4]. by rewrite C3, B3.
  - by rewrite B3, length_insert.
  - rewrite B3. by eapply pends_ok_insert.
Qed.

(** Counting through the changes: what every predicate gains and loses. *)
Lemma changes_replace cs requested own reg ps :
  pends_ok cs requested ps ->
  exists old, replaces cs old (changes requested own reg ps) /\
    forall f, sum_list_with (fun ky => b2n (f (old ky))) (changes requested own reg ps)
      = sum_list_with (fun p => b2n (f (pend_old p))) ps.
Proof.
  intros [Hnd Hok]. exists (fun ky => default empty_chunk (cs !! ky.1)). split.
  - split.
    + unfold changes. rewrite <- list_fmap_compose. exact Hnd.
    + intros ky (p & -> & Hp)%list_elem_of_fmap. rewrite Forall_forall in Hok.
      apply list_elem_of_In in Hp. cbn. by rewrite (pd_lookup _ _ _ (Hok p Hp)).
  - intros f. clear Hnd. unfold changes. induction Hok as [|p ps Hp Hok IH]; [done|]. cbn [fmap list_fmap sum_list_with].
    rewrite IH. f_equal. cbn. by rewrite (pd_lookup _ _ _ Hp).
Qed.

Lemma count_changes f cs requested own reg ps :
  pends_ok cs requested ps ->
  (count f (put_all (changes requested own reg ps) cs) + sum_list_with (fun p => b2n (f (pend_old p))) ps
   = count f cs + sum_list_with (fun p => b2n (f (assigned_from requested own reg p))) ps)%nat.
Proof.
  intros Hok. destruct (changes_replace cs requested own reg ps Hok) as (old & Hr & Hold).
  rewrite <- Hold, (count_put_all f _ _ old Hr). f_equal. clear. unfold changes.
  induction ps as [|p ps IH]; [done|]. cbn [fmap list_fmap sum_list_with]. by rewrite IH.
Qed.

Lemma sum_list_with_ext {A} (f g : A -> nat) l :
  (forall x, x ∈ l -> f x = g x) -> sum_list_with f l = sum_list_with g l.
Proof.
  induction l as [|x l IH]; intros H; cbn; [done|].
  rewrite (H x (list_elem_of_here _ _)), IH; [done|]. intros y Hy. apply H. by constructor.
Qed.

Lemma sum_list_with_const {A} (n : nat) (l : list A) :
  sum_list_with (fun _ => n) l = (length l * n)%nat.
Proof. induction l as [|x l IH]; cbn; lia. Qed.

(** ** What the changes do to each counter *)

Section counts.
Context (cs : list is_memory_chunk) (requested own reg : Z) (ps : list pending_chunk).
Context (Hok : pends_ok cs requested ps) (Hown : own <> 0).
Context (Haddr : Forall (fun p => p_address p <> 0) ps).
Let cs' := put_all (changes requested own reg ps) cs.

Lemma changed_unowned (f : is_memory_chunk -> bool) :
  (forall ch, owner ch = 0 -> f ch = false) ->
  (forall p, f (assigned_from requested own reg p) = f (assigned_from requested own reg (new_chunk 0 empty_chunk))) ->
  (count f cs' = count f cs
     + length ps * b2n (f (assigned_from requested own reg (new_chunk 0 empty_chunk))))%nat.
Proof.
  intros H0 H1. pose proof (count_changes f cs requested own reg ps Hok) as H. fold cs' in H.
  rewrite (sum_list_with_zero (fun p => b2n (f (pend_old p)))) in H
    by (intros p _; by rewrite H0 by apply pend_old_owner).
  rewrite (sum_list_with_ext _ (fun _ => b2n (f (assigned_from requested own reg (new_chunk 0 empty_chunk)))))
    in H by (intros p _; by rewrite H1).
  rewrite sum_list_with_const in H. lia.
Qed.

Lemma changed_assigned q :
  (count (assigned_in q) cs' = count (assigned_in q) cs + length ps * b2n (Z.eqb requested q))%nat.
Proof.
  rewrite changed_unowned; [| |done].
  - cbn -[Z.eqb]. by rewrite (proj2 (Z.eqb_neq own 0)).
  - intros ch E. cbn -[Z.eqb]. by rewrite E.
Qed.

Lemma changed_held o q : o <> 0 ->
  (count (held_by o q) cs' = count (held_by o q) cs + length ps * b2n (Z.eqb own o && Z.eqb requested q))%nat.
Proof.
  intros Ho. rewrite changed_unowned; [done| |done].
  intros ch E. cbn -[Z.eqb]. by rewrite E, (proj2 (Z.eqb_neq 0 o)) by congruence.
Qed.

Lemma changed_quarantined : count quarantined cs' = count quarantined cs.
Proof.
  pose proof (count_changes quarantined cs requested own reg ps Hok) as H. fold cs' in H. cbn in H.
  rewrite !sum_list_with_const in H.
  rewrite (sum_list_with_zero (fun p => b2n (quarantined (pend_old p)))) in H; [lia|].
  intros p _. unfold pend_old. by destruct (newly_allocated p).
Qed.

(** Reused chunks were opportunistic. *)
Lemma reused_opportunistic :
  (sum_list_with (fun p => b2n (allocated_in IS_MEMORY_POOL_OPPORTUNISTIC (pend_old p))) ps
   + sum_list_with is_new ps = length ps)%nat.
Proof.
  clear Hown. destruct Hok as [_ H]. clear Hok cs'. revert Haddr. induction H as [|p l [_ Hr _] _ IH]; [done|].
  intros [Ha Hl]%Forall_cons_iff. cbn [sum_list_with length]. rewrite <- IH by done.
  unfold pend_old, is_new. destruct (newly_allocated p); [cbn; lia|].
  cbn -[Z.eqb]. rewrite (proj2 (Z.eqb_neq _ _) Ha). cbn. lia.
Qed.

Lemma changed_allocated q :
  (count (allocated_in q) cs'
   + sum_list_with (fun p => b2n (allocated_in q (pend_old p))) ps
   = count (allocated_in q) cs + length ps * b2n (Z.eqb requested q))%nat.
Proof.
  pose proof (count_changes (allocated_in q) cs requested own reg ps Hok) as H. fold cs' in H.
  rewrite H. f_equal. rewrite <- sum_list_with_const. apply sum_list_with_ext. intros p Hp.
  rewrite Forall_forall in Haddr. apply list_elem_of_In in Hp. cbn -[Z.eqb].
  by rewrite (proj2 (Z.eqb_neq _ _) (Haddr p Hp)).
Qed.

Lemma old_committed :
  sum_list_with (fun p => b2n (allocated_in IS_MEMORY_POOL_COMMITTED (pend_old p))) ps = 0%nat.
Proof.
  apply sum_list_with_zero. intros p _. unfold pend_old. destruct (newly_allocated p); [done|].
  cbn. by rewrite andb_false_r.
Qed.

Lemma changed_address a : a <> 0 ->
  (count (at_address a) cs' = count (at_address a) cs + pblocks ps a)%nat.
Proof.
  intros Ha. pose proof (count_changes (at_address a) cs requested own reg ps Hok) as H. fold cs' in H.
  assert (E : (sum_list_with (fun p => b2n (at_address a (assigned_from requested own reg p))) ps
    = sum_list_with (fun p => b2n (at_address a (pend_old p))) ps + pblocks ps a)%nat); [|lia].
  unfold pblocks. clear -Ha. induction ps as [|p l IH]; [done|]. cbn [sum_list_with]. rewrite IH.
  unfold pend_old. destruct (newly_allocated p); cbn -[Z.eqb b2n]; [|cbn [b2n]; lia].
  rewrite (proj2 (Z.eqb_neq 0 a)) by congruence. cbn [b2n]. lia.
Qed.

Lemma changed_registration g r : r <> 0 ->
  (count (at_registration g r) cs' = count (at_registration g r) cs + pregs reg ps g r)%nat.
Proof.
  intros Hr. pose proof (count_changes (at_registration g r) cs requested own reg ps Hok) as H.
  fold cs' in H. rewrite (sum_list_with_zero (fun p => b2n (at_registration g r (pend_old p)))) in H.
  - unfold pregs. cbn -[Z.eqb b2n] in H. lia.
  - intros p _. unfold pend_old. destruct (newly_allocated p); cbn -[Z.eqb b2n];
      rewrite (proj2 (Z.eqb_neq 0 r)), andb_false_r by congruence; done.
Qed.
End counts.

(** ** The quota check *)

Lemma consumer_total_nonneg f conns id :
  (forall c, c ∈ conns -> 0 <= f c) -> 0 <= consumer_total f conns id.
Proof.
  unfold consumer_total. induction conns as [|c l IH]; intros H; cbn; [lia|].
  assert (Hl : forall x, x ∈ l -> 0 <= f x) by (intros x Hx; apply H; by constructor).
  specialize (IH Hl). specialize (H c (list_elem_of_here _ _)). case_decide; lia.
Qed.

Lemma assignments_fold conns id a b :
  (forall x, x ∈ conns ->
     0 <= conn_assigned_opportunistic_chunks x /\ 0 <= conn_assigned_committed_chunks x) ->
  0 <= a -> 0 <= b ->
  a + consumer_total conn_assigned_opportunistic_chunks conns id < 2 ^ 32 ->
  b + consumer_total conn_assigned_committed_chunks conns id < 2 ^ 32 ->
  fold_left (fun '(opp, com) c =>
      if decide (consumer_id c = id)
      then (u32 (opp + conn_assigned_opportunistic_chunks c),
            u32 (com + conn_assigned_committed_chunks c))
      else (opp, com)) conns (a, b) =
    (a + consumer_total conn_assigned_opportunistic_chunks conns id,
     b + consumer_total conn_assigned_committed_chunks conns id).
Proof.
  revert a b. induction conns as [|c l IH]; intros a b Hp Ha Hb; cbn -[Z.pow].
  { intros. by rewrite !Z.add_0_r. }
  assert (Hl : forall x, x ∈ l ->
    0 <= conn_assigned_opportunistic_chunks x /\ 0 <= conn_assigned_committed_chunks x).
  { intros x Hx. apply Hp. by constructor. }
  destruct (Hp c (list_elem_of_here _ _)) as [P1 P2].
  pose proof (consumer_total_nonneg conn_assigned_opportunistic_chunks l id (fun x Hx => proj1 (Hl x Hx))).
  pose proof (consumer_total_nonneg conn_assigned_committed_chunks l id (fun x Hx => proj2 (Hl x Hx))).
  unfold consumer_total in *. case_decide; [|by apply IH]. intros L1 L2.
  rewrite !wrap_small by (unfold in_u; lia). rewrite IH by (done || lia). f_equal; lia.
Qed.

(** The sums of [assignments_for_consumer] do not wrap. *)
Lemma assignments_exact m c :
  manager_inv m -> c ∈ connections m ->
  assignments_for_consumer m (consumer_id c) =
    (consumer_total conn_assigned_opportunistic_chunks (connections m) (consumer_id c),
     consumer_total conn_assigned_committed_chunks (connections m) (consumer_id c)).
Proof.
  intros Hm Hc. pose proof (m_connections _ Hm) as Hconns.
  destruct (cs_each _ _ Hconns c Hc) as [_ (_ & [_ U1] & [_ U2]) _ _ Q1 Q2 _ _].
  unfold assignments_for_consumer. rewrite assignments_fold; [done| |lia..].
  intros x Hx. destruct (cs_each _ _ Hconns x Hx) as [_ _ -> -> _ _ _ _]. lia.
Qed.

(** What a connection has of a pool, and may have. *)
Definition consumer_assigned (q : Z) (m : is_memory_manager) (c : is_memory_connection) : Z :=
  consumer_total (if q =? IS_MEMORY_POOL_OPPORTUNISTIC then conn_assigned_opportunistic_chunks
                  else conn_assigned_committed_chunks) (connections m) (consumer_id c).
Definition quota_of (q : Z) (c : is_memory_connection) : Z :=
  if q =? IS_MEMORY_POOL_OPPORTUNISTIC then max_opportunistic_chunks c else max_committed_chunks c.

Lemma validate_spec m c requested n :
  manager_inv m -> c ∈ connections m ->
  match validate_acquire_locked m c requested n with
  | Some (r, _) => r <> IS_MEMORY_OK
  | None => pool_ok requested /\ consumer_assigned requested m c + n <= quota_of requested c
  end.
Proof.
  intros Hm Hc. unfold validate_acquire_locked, consumer_assigned, quota_of.
  rewrite assignments_exact by done.
  destruct (Z.eqb_spec requested IS_MEMORY_POOL_OPPORTUNISTIC) as [->|H1]; cbn -[Z.eqb Z.ltb].
  - destruct (_ || _) eqn:E; [done|]. split; [by left|]. lia.
  - destruct (Z.eqb_spec requested IS_MEMORY_POOL_COMMITTED) as [->|]; [|done].
    destruct (_ || _) eqn:E; [done|]. split; [by right|]. lia.
Qed.

(** ** The assigned chunks, counted *)

Definition add_conn (q n : Z) (c : is_memory_connection) : is_memory_connection :=
  if q =? IS_MEMORY_POOL_OPPORTUNISTIC
  then c <| conn_assigned_opportunistic_chunks := u32 (conn_assigned_opportunistic_chunks c + n) |>
  else c <| conn_assigned_committed_chunks := u32 (conn_assigned_committed_chunks c + n) |>.

Lemma count_assignment_connections m i q n c :
  connections m !! i = Some c ->
  connections (count_assignment m i q n) = <[i := add_conn q n c]> (connections m).
Proof.
  intros Hi. unfold count_assignment, add_conn. destruct (q =? IS_MEMORY_POOL_OPPORTUNISTIC); cbn;
    match goal with |- alter ?f _ _ = _ => exact (alter_insert f i _ c Hi) end.
Qed.

Lemma commit_conns cs conns i c requested own reg ps :
  conns_ok cs conns -> (length cs <= 128)%nat -> conns !! i = Some c -> conn_owner c = own ->
  pends_ok cs requested ps -> pool_ok requested -> (length ps <= 128)%nat ->
  consumer_total (if requested =? IS_MEMORY_POOL_OPPORTUNISTIC then conn_assigned_opportunistic_chunks
                  else conn_assigned_committed_chunks) conns (consumer_id c) + Z.of_nat (length ps)
    <= quota_of requested c ->
  conns_ok (put_all (changes requested own reg ps) cs)
    (<[i := add_conn requested (Z.of_nat (length ps)) c]> conns).
Proof.
  intros Hok Hlen Hi Ho Hps Hp Hn Hq.
  assert (Hc : c ∈ conns) by (by eapply list_elem_of_lookup_2).
  pose proof (cs_each _ _ Hok c Hc) as [Hz _ Hco Hcc Hqo Hqc _ _]. rewrite Ho in Hz.
  assert (Hself : forall q, (count (held_by own q) (put_all (changes requested own reg ps) cs)
    = count (held_by own q) cs + length ps * b2n (Z.eqb requested q))%nat).
  { intros q. rewrite changed_held by done. by rewrite Z.eqb_refl. }
  pose proof (count_le_length (held_by own IS_MEMORY_POOL_OPPORTUNISTIC) cs).
  pose proof (count_le_length (held_by own IS_MEMORY_POOL_COMMITTED) cs).
  rewrite Ho in *. unfold quota_of in Hq.
  apply (conns_ok_update cs _ _ _ c); try done; try (by unfold add_conn; destruct (_ =? _)); rewrite ?Ho.
  - intros o q Hoz Hne. rewrite changed_held by done.
    rewrite (proj2 (Z.eqb_neq own o)) by congruence. cbn. lia.
  - rewrite Hself. unfold add_conn. destruct Hp as [-> | ->]; cbn -[count held_by u32] in *; [|lia].
    rewrite (u32_add _ _ _ Hco) by lia. lia.
  - rewrite Hself. unfold add_conn. destruct Hp as [-> | ->]; cbn -[count held_by u32] in *; [lia|].
    rewrite (u32_add _ _ _ Hcc) by lia. lia.
  - unfold add_conn. destruct Hp as [-> | ->]; cbn -[count held_by u32] in *; [|lia].
    rewrite (u32_add _ _ _ Hco) by lia. lia.
  - unfold add_conn. destruct Hp as [-> | ->]; cbn -[count held_by u32] in *; [lia|].
    rewrite (u32_add _ _ _ Hcc) by lia. lia.
Qed.

Lemma pends_length cs requested ps : pends_ok cs requested ps -> (length ps <= length cs)%nat.
Proof.
  intros [Hnd Hok]. rewrite <- (length_fmap p_index ps), <- (length_seq (length cs) 0) at 1.
  apply submseteq_length, NoDup_submseteq; [done|].
  intros k (p & -> & Hp)%list_elem_of_fmap. rewrite Forall_forall in Hok.
  apply list_elem_of_In in Hp. pose proof (lookup_lt_Some _ _ _ (pd_lookup _ _ _ (Hok p Hp))).
  apply elem_of_seq. lia.
Qed.

(** How many chunks the pool of the request gains. *)
Definition pool_growth (requested : Z) (ps : list pending_chunk) : Z :=
  if requested =? IS_MEMORY_POOL_OPPORTUNISTIC then Z.of_nat (sum_list_with is_new ps)
  else Z.of_nat (length ps).

Lemma commit_inv m i c requested own reg ps m1 gs :
  manager_inv m -> connections m !! i = Some c -> conn_owner c = own ->
  pends_ok (chunks m) requested ps -> pool_ok requested ->
  Forall (fun p => p_address p <> 0) ps -> Forall (fun p => p_registration p <> 0) ps ->
  consumer_assigned requested m c + Z.of_nat (length ps) <= quota_of requested c ->
  alloc_of requested m + pool_growth requested ps <= limit_of requested m ->
  assign_all m ps requested own reg = (m1, gs) ->
  manager_inv (count_assignment m1 i requested (Z.of_nat (length ps))).
Proof.
  intros Hm Hi Ho Hps Hp Ha Hr Hq Hlim E.
  pose proof (chunk_capacity_small _ Hm) as Hlen. pose proof (pends_length _ _ _ Hps) as Hn.
  assert (Hz : own <> 0).
  { rewrite <- Ho. apply (c_owner (chunks m) (connections m)), (cs_each _ _ (m_connections _ Hm)).
    by eapply list_elem_of_lookup_2. }
  destruct Hm as [M1 M2 M3 [A1 A2 A3 A4 A5] M5 M6 M7 M8].
  apply assign_all_spec in E as ((D1 & D2) & [S1 S2 S3 S4 S5 S6] & Hcs & Hgs); try done.
  pose proof (changed_assigned (chunks m) requested own reg ps Hps Hz IS_MEMORY_POOL_OPPORTUNISTIC) as C1.
  pose proof (changed_assigned (chunks m) requested own reg ps Hps Hz IS_MEMORY_POOL_COMMITTED) as C2.
  pose proof (changed_quarantined (chunks m) requested own reg ps Hps) as C3.
  pose proof (changed_allocated (chunks m) requested own reg ps Hps Ha IS_MEMORY_POOL_OPPORTUNISTIC) as C4.
  pose proof (changed_allocated (chunks m) requested own reg ps Hps Ha IS_MEMORY_POOL_COMMITTED) as C5.
  rewrite (old_committed ps) in C5. pose proof (reused_opportunistic _ _ _ Hps Ha) as C6.
  rewrite <- Hcs in C1, C2, C3, C4, C5.
  pose proof (count_le_length (assigned_in IS_MEMORY_POOL_OPPORTUNISTIC) (chunks m)).
  pose proof (count_le_length (assigned_in IS_MEMORY_POOL_COMMITTED) (chunks m)).
  assert (Hconns : connections (count_assignment m1 i requested (Z.of_nat (length ps)))
    = <[i := add_conn requested (Z.of_nat (length ps)) c]> (connections m)).
  { rewrite count_assignment_connections with (c := c); by rewrite S2. }
  assert (Hfields : config (count_assignment m1 i requested (Z.of_nat (length ps))) = config m /\
    chunks (count_assignment m1 i requested (Z.of_nat (length ps))) = chunks m1 /\
    connection_capacity (count_assignment m1 i requested (Z.of_nat (length ps))) = connection_capacity m).
  { unfold count_assignment. by destruct (requested =? _). }
  destruct Hfields as (F1 & F2 & F3). unfold pool_growth, alloc_of, limit_of in Hlim.
  constructor; rewrite ?F1, ?F2, ?F3, ?Hconns.
  - done.
  - by rewrite Hcs, length_put_all.
  - rewrite Hcs. apply Forall_put_all; [done|]. apply Forall_elem.
    intros ky (p & -> & Hin)%list_elem_of_fmap. rewrite Forall_forall in Ha, Hr.
    apply list_elem_of_In in Hin. constructor; auto.
  - unfold count_assignment. destruct Hp as [-> | ->]; cbn -[count u32] in *;
      constructor; cbn -[count u32]; rewrite ?S4, ?S5, ?S6, ?(u32_add _ _ _ A3), ?(u32_add _ _ _ A4) by lia; lia.
  - unfold count_assignment. destruct Hp as [-> | ->]; cbn -[count u32] in *; rewrite D1; lia.
  - unfold count_assignment. destruct Hp as [-> | ->]; cbn -[count u32] in *; rewrite D2; lia.
  - rewrite Hcs. apply commit_conns; try done. lia.
  - by rewrite length_insert.
Qed.
