(* ===== verification/MemoryManagerOps.v ===== *)
(** * The memory manager's operations as a whole *)
From S2P Require Import Prelude MemoryManager MemoryManagerInv MemoryManagerConn MemoryManagerSelect MemoryManagerAssign.

(** Two managers that differ only in the statistics of rejections. *)
Definition unchanged (m m' : is_memory_manager) : Prop :=
  config m' = config m /\ chunks m' = chunks m /\ connections m' = connections m /\
  connection_capacity m' = connection_capacity m /\
  allocated_opportunistic_chunks m' = allocated_opportunistic_chunks m /\
  assigned_opportunistic_chunks m' = assigned_opportunistic_chunks m /\
  allocated_committed_chunks m' = allocated_committed_chunks m /\
  assigned_committed_chunks m' = assigned_committed_chunks m /\
  quarantined_chunks m' = quarantined_chunks m /\ admissions m' = admissions m /\
  pressure_reclaims m' = pressure_reclaims m.

Lemma reject_unchanged m reason : unchanged m (reject m reason).
Proof. unfold unchanged, reject. case_decide; by split_and!. Qed.

Section with_laws.
Context {W : Type} {adapters : MemoryAdapters W} {laws : MemoryAdapterLaws W}.
Context (B : Z -> nat) (R : Z -> Z -> nat).

(** What an acquisition leaves: everything granted, or nothing changed, or,
    when an undo failed, unowned chunks in quarantine. *)
Definition acquire_post (own requested n : Z) (fresh : nat) (m : is_memory_manager) (o : @acquire_outcome W) : Prop :=
  let m' := out_manager o in
  good B R m' (out_world o) /\ config m' = config m /\
  identity <$> connections m' = identity <$> connections m /\
  match out_result o with
  | IS_MEMORY_OK => exists ps reg,
      pends_ok (chunks m) requested ps /\ Z.of_nat (length ps) = n /\
      sum_list_with is_new ps = fresh /\
      Forall (fun p => p_address p <> 0 /\ p_registration p <> 0) ps /\
      out_grants o = grant_from requested <$> ps /\
      chunks m' = put_all (changes requested own reg ps) (chunks m)
  | IS_MEMORY_CLEANUP_FAILED => out_grants o = [] /\
      exists ps, NoDup (p_index <$> ps) /\ quarantines ps m m' /\
        forall k ch, k ∈ p_index <$> ps -> chunks m !! k = Some ch -> owner ch = 0
  | _ => out_grants o = [] /\ unchanged m m'
  end.

Lemma acquire_failed_post own requested n fresh m w r reason :
  good B R m w -> r <> IS_MEMORY_OK -> r <> IS_MEMORY_CLEANUP_FAILED ->
  acquire_post own requested n fresh m (acquire_failed m w r reason).
Proof.
  intros Hg H1 H2. unfold acquire_post, acquire_failed. cbn.
  pose proof (reject_fields m reason) as (E1 & E2 & E3).
  split_and!; [by apply reject_good|done|by rewrite E3|].
  pose proof (reject_unchanged m reason). by destruct r.
Qed.

(** Rollback from any state of the two loops. *)
Lemma acquire_rollback_post own requested n fresh reg m w ps stop :
  manager_inv m -> pends_ok (chunks m) requested ps -> pool_ok requested ->
  Forall (fun p => p_registration p <> 0 -> p_address p <> 0) ps ->
  alloc_of requested m + Z.of_nat (sum_list_with is_new ps) <= limit_of requested m ->
  owns (fun a => B a + pblocks ps a)%nat (fun g r => R g r + pregs reg ps g r)%nat (chunks m) w ->
  stop.1 <> IS_MEMORY_OK -> stop.1 <> IS_MEMORY_CLEANUP_FAILED ->
  acquire_post own requested n fresh m (acquire_rollback m w ps requested reg stop).
Proof.
  intros Hm Hps Hp Ha Hlim Hown H1 H2. unfold acquire_rollback, rollback_pending.
  pose proof (reject_fields m stop.2) as (E1 & E2 & E3). pose proof (reject_unchanged m stop.2) as Hun.
  destruct (rollback_registrations (reject m stop.2) w ps requested reg) as [[[m2 w2] ps2] f] eqn:E.
  apply (rollback_registrations_spec requested reg ps B R) in E as (F1 & F2 & (Q1 & Q2 & Q3 & Q4) & F4);
    [|by apply reject_inv|by rewrite E2|done|done| |by rewrite E2].
  2: { unfold alloc_of, limit_of in *. rewrite E1.
       destruct Hun as (_ & _ & _ & _ & U1 & _ & U2 & _). by rewrite U1, U2. }
  apply rollback_addresses_spec in F2. unfold acquire_post. destruct f.
  - unfold acquire_failed. cbn.
    pose proof (reject_fields m2 IS_MEMORY_REJECTION_CLEANUP_FAILED) as (G1 & G2 & G3).
    split_and!; [by apply reject_good|congruence|by rewrite G3, Q2, E3|done|].
    exists ps. split_and!; [apply Hps|unfold quarantines; split_and!|].
    + congruence.
    + congruence.
    + intros k Hk. rewrite G2, Q3 by done. by rewrite E2.
    + intros k ch Hk. rewrite G2. by apply Q4.
    + intros k ch (p & -> & Hin)%list_elem_of_fmap Hk. destruct Hps as [_ HF].
      rewrite Forall_forall in HF. apply list_elem_of_In in Hin.
      rewrite (pd_lookup _ _ _ (HF p Hin)) in Hk. injection Hk as <-. apply pend_old_owner.
  - rewrite F4 in * by done. cbn. split_and!; [by split|done|by rewrite E3|].
    by destruct (stop.1).
Qed.

Lemma register_from_fmap ps ps' :
  Forall2 (fun p p' => allocated_from p p' /\ p_address p' = p_address p) ps ps' ->
  Forall2 allocated_from ps ps' /\ (forall a, pblocks ps' a = pblocks ps a) /\
  (Forall (fun p => p_address p <> 0) ps -> Forall (fun p => p_address p <> 0) ps').
Proof.
  induction 1 as [|p p' l l' [Hf Ha] _ (IH1 & IH2 & IH3)]; [done|]. split_and!.
  - by constructor.
  - intros a. unfold pblocks in *. cbn [sum_list_with]. rewrite IH2, Ha.
    by destruct Hf as [_ -> _ _].
  - intros [H1 H2]%Forall_cons_iff. constructor; [by rewrite Ha|auto].
Qed.

Lemma acquire_pending_post own requested n reg m w i c ps :
  good B R m w -> connections m !! i = Some c -> conn_owner c = own ->
  pends_ok (chunks m) requested ps -> pool_ok requested ->
  Forall (fun p => newly_allocated p = true -> p_address p = 0) ps ->
  Forall (fun p => p_registration p = 0) ps -> Z.of_nat (length ps) = n ->
  consumer_assigned requested m c + n <= quota_of requested c ->
  alloc_of requested m + pool_growth requested ps <= limit_of requested m ->
  acquire_post own requested n (sum_list_with is_new ps) m (acquire_pending m w i ps requested own reg n).
Proof.
  intros [Hm [Hb Hr]] Hi Ho Hps Hp Hz Hreg Hn Hq Hlim. unfold acquire_pending.
  assert (Hnew : alloc_of requested m + Z.of_nat (sum_list_with is_new ps) <= limit_of requested m).
  { unfold pool_growth in Hlim. destruct (requested =? _); [done|].
    assert (sum_list_with is_new ps <= length ps)%nat; [|lia]. clear.
    induction ps as [|p l IH]; [done|]. cbn. pose proof (b2n_le (newly_allocated p)).
    unfold is_new at 1. lia. }
  destruct (allocate_pending w ps) as [[w1 ps1] stop] eqn:E1.
  apply allocate_pending_spec in E1 as (A1 & A2 & A3 & A4 & A5 & A6); [|done..].
  pose proof (allocated_from_pends _ _ _ _ A1 Hps) as Hps1.
  pose proof (allocated_from_fmap _ _ A1) as (_ & N1 & L1).
  destruct stop as [[r reason]|].
  { apply acquire_rollback_post; try done.
    - clear -A2. induction A2; constructor; [done|done].
    - by rewrite N1.
    - split; [intros a Ha; rewrite A4, Hb by done; lia|]. intros g r0 Hr0. rewrite A3, Hr by done.
      rewrite pregs_none by done. lia.
    - by eapply A6.
    - by eapply A6. }
  destruct (register_pending w1 ps1 reg) as [[w2 ps2] stop] eqn:E2.
  apply register_pending_spec in E2 as (C1 & C2 & C3 & C4 & C5); [|done].
  apply register_from_fmap in C1 as (C1 & Cb & Ca).
  pose proof (allocated_from_pends _ _ _ _ C1 Hps1) as Hps2.
  pose proof (allocated_from_fmap _ _ C1) as (_ & N2 & L2).
  assert (Haddr : Forall (fun p => p_address p <> 0) ps1).
  { destruct Hps1 as [_ HF]. specialize (A5 eq_refl). clear -HF A5.
    induction HF as [|p l [_ Hre _] _ IH]; [done|]. apply Forall_cons_iff in A5 as [A5 A6].
    constructor; [|auto]. destruct (newly_allocated p); auto. }
  specialize (Ca Haddr).
  assert (Hown2 : owns (fun a => B a + pblocks ps2 a)%nat (fun g r => R g r + pregs reg ps2 g r)%nat (chunks m) w2).
  { split; [intros a Ha; rewrite C2, A4, Hb, Cb by done; lia|].
    intros g r0 Hr0. rewrite C3, A3, Hr by done. lia. }
  destruct stop as [[r reason]|].
  { apply acquire_rollback_post; try done.
    - clear -Ca. induction Ca; constructor; [done|done].
    - by rewrite N2, N1.
    - by eapply C5.
    - by eapply C5. }
  destruct (assign_all m ps2 requested own reg) as [m1 gs] eqn:E3.
  assert (Hlen2 : Z.of_nat (length ps2) = n) by (rewrite L2, L1; done).
  assert (Hinv : manager_inv (count_assignment m1 i requested n)).
  { rewrite <- Hlen2. eapply commit_inv; try done; [by apply C4|by rewrite Hlen2|].
    unfold pool_growth in *. by rewrite N2, N1, L2, L1. }
  assert (Hown0 : own <> 0).
  { rewrite <- Ho. apply (c_owner (chunks m) (connections m)), (cs_each _ _ (m_connections _ Hm)).
    by eapply list_elem_of_lookup_2. }
  pose proof (chunk_capacity_small _ Hm) as Hlen.
  apply assign_all_spec in E3 as (_ & [S1 S2 _ _ _ _] & Hcs & Hgs); try done.
  2: { destruct (m_accounting _ Hm). by split. }
  assert (Hfields : config (count_assignment m1 i requested n) = config m /\
    chunks (count_assignment m1 i requested n) = chunks m1).
  { unfold count_assignment. by destruct (requested =? _). }
  destruct Hfields as [F1 F2]. unfold acquire_post. cbn -[count_assignment].
  split_and!; [split; [done|]|done| |].
  - rewrite F2, Hcs. destruct Hown2 as [K1 K2]. split.
    + intros a Ha. rewrite K1, changed_address by done. lia.
    + intros g r Hr0. rewrite K2, changed_registration by done. lia.
  - rewrite count_assignment_connections with (c := c) by (by rewrite S2).
    rewrite list_fmap_insert, S2. apply list_insert_id. rewrite list_lookup_fmap, Hi. cbn.
    unfold identity, add_conn. by destruct (_ =? _).
  - exists ps2, reg. split_and!; try done; [by rewrite N2| |by rewrite F2].
    specialize (C4 eq_refl). by apply Forall_and.
Qed.

(** New blocks are taken only while the host keeps its reserve. *)
Definition reserve_kept (m : is_memory_manager) (w : W) (fresh : Z) : Prop :=
  fresh = 0 \/
  exists bytes, (read_available_bytes w).2 = (0, bytes) /\
    host_reserve_gib (config m) + fresh <= bytes / IS_MEMORY_CHUNK_BYTES.

Lemma owns_frame cs w w' :
  owns B R cs w -> blocks w' = blocks w /\ regs w' = regs w -> owns B R cs w'.
Proof. intros Ho [E1 E2]. by eapply owns_ext. Qed.

Lemma acquire_selected_post own requested n reg m w i c same conv fresh :
  good B R m w -> connections m !! i = Some c -> conn_owner c = own -> pool_ok requested -> 0 < n ->
  consumer_assigned requested m c + n <= quota_of requested c ->
  selection m requested (Z.to_nat n) same conv fresh ->
  let o := acquire_selected m w i (same ++ conv ++ fresh) (length same) (length fresh)
             requested own reg n in
  acquire_post own requested n (length fresh) m o /\
  (out_result o = IS_MEMORY_OK -> reserve_kept m w (Z.of_nat (length fresh))).
Proof.
  intros Hg Hi Ho Hp Hn Hq [S1 S2 S3 S4 S5 S6 S7 S8]. cbv zeta. unfold acquire_selected.
  assert (Hfail : forall w' r reason, owns B R (chunks m) w' -> r <> IS_MEMORY_OK ->
    r <> IS_MEMORY_CLEANUP_FAILED ->
    acquire_post own requested n (length fresh) m (acquire_failed m w' r reason) /\
    (out_result (acquire_failed m w' r reason) = IS_MEMORY_OK -> reserve_kept m w (Z.of_nat (length fresh)))).
  { intros w' r reason Hw H1 H2. split; [|done]. apply acquire_failed_post; try done.
    by split; [apply Hg|]. }
  destruct (Z.eqb_spec (Z.of_nat (length (same ++ conv ++ fresh))) n) as [Hlen|]; cbn [negb];
    [|apply Hfail; try done; apply Hg].
  destruct (pool_limit_exceeded m requested (n - Z.of_nat (length same))) eqn:El;
    [apply Hfail; try done; apply Hg|].
  assert (Hgrow : alloc_of requested m + pool_growth requested (same ++ conv ++ fresh) <= limit_of requested m).
  { unfold pool_limit_exceeded, alloc_of, limit_of, pool_growth in *. rewrite !length_app in Hlen.
    destruct Hp as [-> | ->]; cbn -[Z.sub Z.ltb sum_list_with] in *; rewrite ?S4; try rewrite !length_app;
      [rewrite (S6 eq_refl) in Hlen|rewrite (S5 eq_refl) in *]; cbn [length] in *;
      apply orb_false_iff in El as [_ El%Z.ltb_ge]; clear -Hlen El; lia. }
  assert (Hrun : forall w', owns B R (chunks m) w' ->
    acquire_post own requested n (length fresh) m (acquire_pending m w' i (same ++ conv ++ fresh) requested own reg n)).
  { intros w' Hw. rewrite <- S4. apply (acquire_pending_post own requested n reg m w' i c); try done.
    by split; [apply Hg|]. }
  destruct (Nat.eqb_spec (length fresh) 0) as [Ef|Ef]; cbn [negb].
  { split; [apply Hrun, Hg|]. intros _. left. lia. }
  pose proof (read_frame w) as Hfr. pose proof (read_bytes w) as Hby.
  destruct (read_available_bytes w) as [w1 [st bytes]] eqn:Er. cbn [fst snd] in *.
  assert (Hw1 : owns B R (chunks m) w1) by (eapply owns_frame; [apply Hg|done]).
  destruct (Z.eqb_spec st 0) as [->|]; cbn [negb]; [|by apply Hfail].
  assert (Hu : u64 (host_reserve_gib (config m) + Z.of_nat (length fresh))
    = host_reserve_gib (config m) + Z.of_nat (length fresh)).
  { apply wrap_small. pose proof (g_reserve _ (m_config _ (proj1 Hg))) as [? ?].
    pose proof (pends_length _ _ _ S1) as Hl. rewrite !length_app in Hl.
    pose proof (chunk_capacity_small _ (proj1 Hg)). unfold in_u in *. pow_lia. }
  rewrite Hu. destruct (Z.ltb_spec (bytes / IS_MEMORY_CHUNK_BYTES)
    (host_reserve_gib (config m) + Z.of_nat (length fresh))); [by apply Hfail|].
  split; [by apply Hrun|]. intros _. right. exists bytes. by rewrite Er.
Qed.

Lemma unchanged_refl m : unchanged m m.
Proof. by unfold unchanged. Qed.

(** The whole acquisition, with the chunks it selects. *)
Lemma acquire_good m w own requested n reg capacity :
  good B R m w -> 0 <= n ->
  let o := is_memory_manager_acquire m w own requested n reg capacity in
  exists fresh, acquire_post own requested n fresh m o /\
  (out_result o = IS_MEMORY_OK ->
     0 < n /\ own <> 0 /\ pool_ok requested /\ reserve_kept m (heap w).1 (Z.of_nat fresh)).
Proof.
  intros Hg Hn0. cbv zeta. unfold is_memory_manager_acquire.
  assert (Hret : forall w' r, owns B R (chunks m) w' -> r <> IS_MEMORY_OK -> r <> IS_MEMORY_CLEANUP_FAILED ->
    acquire_post own requested n 0 m {| out_manager := m; out_world := w'; out_result := r;
      out_rejection := IS_MEMORY_REJECTION_NONE; out_grants := [] |}).
  { intros w' r Hw H1 H2. unfold acquire_post. cbn. split_and!; try done; [by split; [apply Hg|]|].
    pose proof (unchanged_refl m). by destruct r. }
  destruct ((own =? 0) || (n =? 0) || (capacity <? n)) eqn:Eargs; cbn [out_result].
  { exists 0%nat. split; [by apply Hret; [apply Hg|..]|done]. }
  pose proof (heap_frame w) as Hf. destruct (heap w) as [w1 ok]. cbn [fst] in *.
  assert (Hw1 : owns B R (chunks m) w1) by (eapply owns_frame; [apply Hg|done]).
  assert (Hg1 : good B R m w1) by (by split; [apply Hg|]).
  destruct ok; cbn [negb]; [|exists 0%nat; by split; [apply Hret|]].
  destruct (find_connection m own) as [i|] eqn:Ec; [|exists 0%nat; by split; [apply Hret|]].
  destruct (find_connection_spec _ _ _ Ec) as (c & Hi & Ho). rewrite Hi.
  assert (Hc : c ∈ connections m) by (by eapply list_elem_of_lookup_2).
  pose proof (validate_spec m c requested n (proj1 Hg) Hc) as Hv.
  assert (Hv2 : forall r reason, validate_acquire_locked m c requested n = Some (r, reason) ->
    r <> IS_MEMORY_CLEANUP_FAILED).
  { unfold validate_acquire_locked. intros r reason. destruct (assignments_for_consumer _ _).
    repeat case_match; intros; simplify_eq; done. }
  destruct (validate_acquire_locked m c requested n) as [[r reason]|].
  { exists 0%nat. split; [|done]. apply acquire_failed_post; eauto. }
  destruct Hv as [Hp Hq]. pose proof (selection_spec m requested (Z.to_nat n) (proj1 Hg) Hp) as Hsel.
  cbv zeta in Hsel. assert (Hpos : 0 < n) by lia.
  set (same := select_same m requested (Z.to_nat n)) in *.
  set (conv := select_converted m requested (Z.to_nat n - length same)) in *.
  set (fresh := select_new m (same ++ conv) (Z.to_nat n - length same - length conv)) in *.
  destruct (acquire_selected_post own requested n reg m w1 i c same conv fresh) as [P1 P2]; try done.
  exists (length fresh). split; [done|]. intros Hr. split_and!; [done|lia|done|by apply P2].
Qed.
End with_laws.

(** * Reconciliation with the host's memory preserves the invariant *)

(** ** Growth *)

Definition adoptions (ps : list pending_chunk) : list (nat * is_memory_chunk) :=
  (fun p => (p_index p, free_chunk (p_address p))) <$> ps.

(** The opportunistic chunks that nobody owns change; the connections do not. *)
Lemma unowned_inv m cs n :
  manager_inv m -> length cs = length (chunks m) -> Forall chunk_ok cs ->
  (forall o p, o <> 0 -> count (held_by o p) cs = count (held_by o p) (chunks m)) ->
  (forall p, count (assigned_in p) cs = count (assigned_in p) (chunks m)) ->
  count (allocated_in IS_MEMORY_POOL_COMMITTED) cs
    = count (allocated_in IS_MEMORY_POOL_COMMITTED) (chunks m) ->
  count quarantined cs = count quarantined (chunks m) ->
  n = Z.of_nat (count (allocated_in IS_MEMORY_POOL_OPPORTUNISTIC) cs) ->
  n <= max_opportunistic_gib (config m) ->
  manager_inv (m <| chunks := cs |> <| allocated_opportunistic_chunks := n |>).
Proof.
  intros [M1 M2 M3 [A1 A2 A3 A4 A5] M5 M6 M7 M8] Hl Hok Hheld Hasg Hcom Hq Hn Hlim.
  constructor; cbn -[count]; try done.
  - by rewrite Hl.
  - constructor; cbn -[count]; rewrite ?Hasg, ?Hcom, ?Hq; done.
  - by eapply conns_ok_chunks.
Qed.

Lemma adopt_pending_spec ps m :
  pends_ok (chunks m) IS_MEMORY_POOL_OPPORTUNISTIC ps -> Forall (fun p => newly_allocated p = true) ps ->
  adopt_pending m ps = m <| chunks := put_all (adoptions ps) (chunks m) |>.
Proof.
  revert m. induction ps as [|p ps IH]; intros m Hok Hnew; cbn [adopt_pending]; [by destruct m|].
  pose proof Hok as [_ HF]. apply Forall_cons_iff in HF as [[Hk _ _] _].
  apply Forall_cons_iff in Hnew as [Hn Hnew]. unfold pend_old in Hk. rewrite Hn in Hk. rewrite Hk. cbn [default].
  rewrite IH; [done| |done]. cbn. by eapply pends_ok_insert.
Qed.

Lemma count_adoptions f cs ps :
  pends_ok cs IS_MEMORY_POOL_OPPORTUNISTIC ps -> Forall (fun p => newly_allocated p = true) ps ->
  (count f (put_all (adoptions ps) cs) + length ps * b2n (f empty_chunk)
   = count f cs + sum_list_with (fun p => b2n (f (free_chunk (p_address p)))) ps)%nat.
Proof.
  intros [Hnd Hok] Hnew.
  assert (Hr : replaces cs (fun _ => empty_chunk) (adoptions ps)).
  { split; [unfold adoptions; rewrite <- list_fmap_compose; exact Hnd|].
    intros ky (p & -> & Hp)%list_elem_of_fmap. rewrite Forall_forall in Hok, Hnew.
    apply list_elem_of_In in Hp. cbn. rewrite (pd_lookup _ _ _ (Hok p Hp)). unfold pend_old.
    by rewrite (Hnew p Hp). }
  pose proof (count_put_all f _ _ _ Hr) as H. cbv beta in H. rewrite sum_list_with_const in H.
  unfold adoptions in H at 2. rewrite length_fmap in H. rewrite H. f_equal. clear.
  unfold adoptions. induction ps as [|p l IH]; [done|]. cbn [fmap list_fmap sum_list_with]. by rewrite IH.
Qed.

Section with_laws.
Context {W : Type} {adapters : MemoryAdapters W} {laws : MemoryAdapterLaws W}.
Context (B : Z -> nat) (R : Z -> Z -> nat).

Lemma release_pending_spec ps B0 cs w :
  owns (fun a => B0 a + pblocks ps a)%nat R cs w -> Forall (fun p => newly_allocated p = true) ps ->
  owns B0 R cs (release_pending w ps).
Proof.
  revert B0 w. induction ps as [|p ps IH]; intros B0 w [Hb Hr] Hn; cbn [release_pending].
  { split; [|done]. intros a Ha. rewrite Hb by done. cbn. lia. }
  apply Forall_cons_iff in Hn as [Hn1 Hn]. apply IH; [|done].
  assert (Hcons : forall a, pblocks (p :: ps) a = (b2n (Z.eqb (p_address p) a) + pblocks ps a)%nat)
    by (intros a; unfold pblocks; cbn [sum_list_with]; by rewrite Hn1).
  destruct (Z.eqb_spec (p_address p) 0) as [E0|E0].
  { split; [|done]. intros a Ha. rewrite Hb, Hcons, E0 by done.
    rewrite (proj2 (Z.eqb_neq 0 a)) by congruence. cbn. lia. }
  assert (Hpos : (0 < blocks w (p_address p))%nat).
  { rewrite Hb, Hcons, Z.eqb_refl by done. cbn. lia. }
  destruct (release_ok _ _ Hpos) as [Hreg Hblk]. split.
  - intros a Ha. specialize (Hblk a). rewrite Hb, Hcons in Hblk by done. lia.
  - intros g r Hrz. rewrite Hreg. by apply Hr.
Qed.

(** Free slots suffice for any growth within the pool's limit. *)
Lemma empty_slots m :
  manager_inv m ->
  Z.of_nat (count (fun c => Z.eqb (address c) 0) (chunks m))
    = Z.of_nat (length (chunks m)) - allocated_opportunistic_chunks m - allocated_committed_chunks m.
Proof.
  intros [_ _ M3 [A1 A2 _ _ _] _ _ _ _]. rewrite A1, A2. clear A1 A2. unfold count.
  induction M3 as [|c l Hc _ IH]; [done|]. cbn [sum_list_with length].
  assert (b2n (Z.eqb (address c) 0) + b2n (allocated_in IS_MEMORY_POOL_OPPORTUNISTIC c) +
    b2n (allocated_in IS_MEMORY_POOL_COMMITTED c) = 1)%nat; [|lia].
  inversion Hc; try done; cbn -[Z.eqb b2n];
    try match goal with H : pool_ok _ |- _ => destruct H; subst end; eqb_neq; eval_pools; done.
Qed.

(** The new chunks enter the pool without an owner. *)
Lemma adopt_good m w ps :
  manager_inv m -> pends_ok (chunks m) IS_MEMORY_POOL_OPPORTUNISTIC ps ->
  Forall (fun p => newly_allocated p = true) ps -> Forall (fun p => p_address p <> 0) ps ->
  allocated_opportunistic_chunks m + Z.of_nat (length ps) <= max_opportunistic_gib (config m) ->
  owns (fun a => B a + pblocks ps a)%nat R (chunks m) w ->
  good B R (m <| chunks := put_all (adoptions ps) (chunks m) |>
              <| allocated_opportunistic_chunks := allocated_opportunistic_chunks m + Z.of_nat (length ps) |>) w.
Proof.
  intros Hm Hps Hnew Ha Hlim [Hb Hr].
  assert (Hcount := fun f => count_adoptions f _ _ Hps Hnew).
  assert (Hsame : forall f, f empty_chunk = false -> (forall a, f (free_chunk a) = false) ->
    count f (put_all (adoptions ps) (chunks m)) = count f (chunks m)).
  { intros f H0 H1. specialize (Hcount f). rewrite H0, Nat.mul_0_r in Hcount.
    rewrite sum_list_with_zero in Hcount; [lia|]. intros p _. by rewrite H1. }
  assert (Hone : forall f, f empty_chunk = false -> (forall a, a <> 0 -> f (free_chunk a) = true) ->
    count f (put_all (adoptions ps) (chunks m)) = (count f (chunks m) + length ps)%nat).
  { intros f H0 H1. specialize (Hcount f). rewrite H0, Nat.mul_0_r in Hcount.
    rewrite sum_list_with_one in Hcount; [lia|]. intros p Hp. rewrite Forall_forall in Ha.
    rewrite H1; [done|]. apply Ha. by apply list_elem_of_In. }
  split.
  - apply unowned_inv; try done; cbn.
    + apply length_put_all.
    + apply Forall_put_all; [apply Hm|]. apply Forall_elem. intros ky (p & -> & Hp)%list_elem_of_fmap.
      rewrite Forall_forall in Ha. apply list_elem_of_In in Hp. constructor. auto.
    + intros o p Ho. apply Hsame; cbn -[Z.eqb]; [|intros a];
        by rewrite (proj2 (Z.eqb_neq 0 o)) by congruence.
    + intros p. by apply Hsame.
    + apply Hsame; [done|]. intros a. cbn -[Z.eqb]. eval_pools. by rewrite andb_false_r.
    + by apply Hsame.
    + rewrite Hone; [|done|]. { rewrite (a_opportunistic _ (m_accounting _ Hm)). lia. }
      intros a Hz. cbn -[Z.eqb]. by rewrite (proj2 (Z.eqb_neq a 0)).
  - cbn. split.
    + intros a Hz. rewrite Hb by done. specialize (Hcount (at_address a)). cbn -[Z.eqb count b2n] in Hcount.
      rewrite (proj2 (Z.eqb_neq 0 a)), Nat.mul_0_r in Hcount by congruence.
      assert (pblocks ps a = sum_list_with (fun p => b2n (p_address p =? a)%Z) ps) as E; [|lia].
      unfold pblocks. apply sum_list_with_ext. intros p Hp. rewrite Forall_forall in Hnew.
      apply list_elem_of_In in Hp. by rewrite (Hnew p Hp).
    + intros g r Hz. rewrite Hr by done. rewrite Hsame; [done| |intros a]; cbn -[Z.eqb];
        by rewrite (proj2 (Z.eqb_neq 0 r)), andb_false_r by congruence.
Qed.

(** A reconciliation that grows the pool: all of it, or nothing. *)
Lemma allocate_unassigned_good m w n m' w' r :
  good B R m w -> 0 < n -> allocated_opportunistic_chunks m + n <= max_opportunistic_gib (config m) ->
  allocate_unassigned_opportunistic_locked m w n = (m', w', r) ->
  good B R m' w' /\ connections m' = connections m /\
  if decide (r = IS_MEMORY_OK) then
    allocated_opportunistic_chunks m' = allocated_opportunistic_chunks m + n /\
    (forall k ch, chunks m !! k = Some ch -> address ch <> 0 -> chunks m' !! k = Some ch)
  else unchanged m m' /\ r <> IS_MEMORY_POOL_EXHAUSTED.
Proof.
  intros Hg Hn Hlim. unfold allocate_unassigned_opportunistic_locked.
  rewrite (proj2 (Z.eqb_neq n 0)) by lia.
  pose proof (heap_frame w) as Hf. destruct (heap w) as [w1 ok]. cbn [fst] in Hf.
  assert (Hw1 : owns B R (chunks m) w1) by (eapply owns_frame; [apply Hg|done]).
  assert (Hg1 : good B R m w1) by (by split; [apply Hg|]).
  assert (Hrej : forall reason w2 r2, owns B R (chunks m) w2 -> r2 <> IS_MEMORY_OK ->
    r2 <> IS_MEMORY_POOL_EXHAUSTED ->
    good B R (reject m reason) w2 /\ connections (reject m reason) = connections m /\
    if decide (r2 = IS_MEMORY_OK) then
      allocated_opportunistic_chunks (reject m reason) = allocated_opportunistic_chunks m + n /\
      (forall k ch, chunks m !! k = Some ch -> address ch <> 0 -> chunks (reject m reason) !! k = Some ch)
    else unchanged m (reject m reason) /\ r2 <> IS_MEMORY_POOL_EXHAUSTED).
  { intros reason w2 r2 Hw2 H1 H2. rewrite decide_False by done.
    split_and!; [apply reject_good; by split; [apply Hg|]|apply reject_fields|apply reject_unchanged|done]. }
  destruct ok; cbn [negb]; [|intros [= <- <- <-]; by apply Hrej].
  set (ps := select_chunks (fun _ c => address c =? 0) new_chunk (chunks m) 0 (Z.to_nat n)).
  assert (Hfacts : forall p, p ∈ ps -> pend_ok (chunks m) IS_MEMORY_POOL_OPPORTUNISTIC p /\
    p_registration p = 0 /\ newly_allocated p = true /\ p_address p = 0)
    by (intros p Hp; by eapply select_fresh; [apply Hg|]).
  assert (Hlen : Z.of_nat (length ps) = n).
  { pose proof (length_select_chunks (fun c => address c =? 0) new_chunk (chunks m) 0 (Z.to_nat n)) as HL.
    fold ps in HL. pose proof (empty_slots m (proj1 Hg)) as He. pose proof (m_length _ (proj1 Hg)).
    pose proof (m_limit_committed _ (proj1 Hg)). lia. }
  rewrite Hlen, Z.eqb_refl. cbn [negb].
  assert (Hps : pends_ok (chunks m) IS_MEMORY_POOL_OPPORTUNISTIC ps).
  { split; [|apply Forall_elem; intros p Hp; by apply Hfacts].
    by destruct (select_chunks_spec (fun _ c => address c =? 0) new_chunk (chunks m) 0 (Z.to_nat n)) as (_ & ? & _). }
  destruct (allocate_pending w1 ps) as [[w2 ps2] stop] eqn:E.
  apply allocate_pending_spec in E as (A1 & A2 & A3 & A4 & A5 & A6);
    [|apply Forall_elem; intros p Hp _; by apply Hfacts|apply Forall_elem; intros p Hp; by apply Hfacts].
  assert (Hnew2 : Forall (fun p => newly_allocated p = true) ps2).
  { clear -A1 Hfacts. induction A1 as [|p p' l l' [_ E2 _ _] _ IH]; [done|]. constructor.
    - rewrite E2. apply Hfacts. constructor.
    - apply IH. intros q Hq. apply Hfacts. by constructor. }
  assert (Hown2 : owns (fun a => B a + pblocks ps2 a)%nat R (chunks m) w2).
  { destruct Hw1 as [K1 K2]. split; [intros a Ha; rewrite A4, K1 by done; lia|].
    intros g r0 Hr0. rewrite A3. by apply K2. }
  destruct stop as [[r0 reason]|].
  { intros [= <- <- <-]. destruct (A6 r0 reason eq_refl) as (H1 & _ & H2).
    apply Hrej; [by apply release_pending_spec|done|done]. }
  assert (Hps2 := allocated_from_pends _ _ _ _ A1 Hps).
  destruct (allocated_from_fmap _ _ A1) as (Hidx & _ & Hlen2).
  rewrite adopt_pending_spec by done. cbn [allocated_opportunistic_chunks].
  assert (Hu : u32 (allocated_opportunistic_chunks m + n) = allocated_opportunistic_chunks m + Z.of_nat (length ps2)).
  { rewrite Hlen2, Hlen. apply wrap_small. pose proof (g_opportunistic _ (m_config _ (proj1 Hg))) as [_ Hu].
    rewrite (a_opportunistic _ (m_accounting _ (proj1 Hg))) in *. unfold in_u. lia. }
  assert (Ha2 : Forall (fun p => p_address p <> 0) ps2).
  { specialize (A5 eq_refl). clear -A5 Hnew2. induction A5; [done|].
    apply Forall_cons_iff in Hnew2 as [? ?]. constructor; auto. }
  intros [= <- <- <-]. cbn. rewrite Hu. split_and!; [apply adopt_good; try done; [apply Hg|lia]|done|].
  rewrite decide_True by done. split; [lia|]. intros k ch Hk Ha.
  destruct (decide (k ∈ p_index <$> ps2)) as [(p & -> & Hp)%list_elem_of_fmap|Hni].
  - destruct Hps2 as [_ HF]. rewrite Forall_forall in HF, Hnew2. apply list_elem_of_In in Hp.
    rewrite (pd_lookup _ _ _ (HF p Hp)) in Hk. unfold pend_old in Hk. rewrite (Hnew2 p Hp) in Hk.
    by injection Hk as <-.
  - rewrite lookup_put_all_ne; [done|]. unfold adoptions. by rewrite <- list_fmap_compose.
Qed.

(** ** Reclaim *)

Lemma reclaimable_free c : chunk_ok c -> reclaimable c = true -> c = free_chunk (address c) /\ address c <> 0.
Proof.
  intros Hc. unfold reclaimable. inversion Hc; cbn -[Z.eqb]; try done.
  - by destruct (Z.eqb_spec a 0), (Z.eqb_spec o 0).
  - by destruct (Z.eqb_spec a 0).
Qed.

Definition reclaimed_manager (m : is_memory_manager) (k : nat) : is_memory_manager :=
  (set_chunk m k empty_chunk) <| allocated_opportunistic_chunks := u32 (allocated_opportunistic_chunks m - 1) |>
    <| pressure_reclaims := u64 (pressure_reclaims m + 1) |>.

(** One reclaimed chunk. *)
Lemma reclaim_one m w k c :
  good B R m w -> chunks m !! k = Some c -> reclaimable c = true ->
  good B R (reclaimed_manager m k) (release (address c) w) /\
  allocated_opportunistic_chunks (reclaimed_manager m k) = allocated_opportunistic_chunks m - 1 /\
  0 < allocated_opportunistic_chunks m.
Proof.
  intros [Hm Hown] Hk Hrec.
  assert (Hc : chunk_ok c) by (eapply Forall_lookup_1; [apply (m_chunks _ Hm)|done]).
  destruct (reclaimable_free _ Hc Hrec) as [Hfree Ha]. rewrite Hfree in Hk. clear Hc Hrec Hfree.
  generalize dependent (address c). intros a Hk Ha. clear c.
  assert (Hins := fun f => count_insert f k _ empty_chunk _ Hk).
  pose proof (a_opportunistic _ (m_accounting _ Hm)) as A1. pose proof (chunk_capacity_small _ Hm).
  pose proof (count_le_length (allocated_in IS_MEMORY_POOL_OPPORTUNISTIC) (chunks m)).
  assert (HO : (count (allocated_in IS_MEMORY_POOL_OPPORTUNISTIC) (<[k := empty_chunk]> (chunks m)) + 1
    = count (allocated_in IS_MEMORY_POOL_OPPORTUNISTIC) (chunks m))%nat).
  { specialize (Hins (allocated_in IS_MEMORY_POOL_OPPORTUNISTIC)). cbn -[Z.eqb count b2n] in Hins.
    rewrite (proj2 (Z.eqb_neq a 0)) in Hins by done. cbn -[count] in Hins. lia. }
  assert (Hu : u32 (allocated_opportunistic_chunks m - 1) = allocated_opportunistic_chunks m - 1).
  { rewrite (u32_pred _ _ A1); lia. }
  assert (Hsame : forall f, f (free_chunk a) = f empty_chunk ->
    count f (<[k := empty_chunk]> (chunks m)) = count f (chunks m)).
  { intros f Hf. specialize (Hins f). rewrite Hf in Hins. lia. }
  unfold reclaimed_manager. rewrite Hu. split_and!; [|done|lia]. split.
  - assert (Hinv : manager_inv (m <| chunks := <[k := empty_chunk]> (chunks m) |>
      <| allocated_opportunistic_chunks := allocated_opportunistic_chunks m - 1 |>)).
    { pose proof (m_limit_opportunistic _ Hm). apply unowned_inv; try done; try lia; cbn -[count].
      - by rewrite length_insert.
      - apply Forall_insert; [apply Hm|constructor].
      - intros o p Ho. apply Hsame. cbn -[Z.eqb]. by rewrite (proj2 (Z.eqb_neq 0 o)) by congruence.
      - intros p. by apply Hsame.
      - apply Hsame. cbn -[Z.eqb]. eval_pools. by rewrite !andb_false_r.
      - by apply Hsame. }
    destruct Hinv as [M1 M2 M3 [] M5 M6 M7 M8]. by constructor.
  - cbn -[Z.eqb]. destruct (release_ok a w) as [F1 F2]; [exact (owns_address B R _ _ _ (free_chunk a) Hown Hk Ha)|].
    eapply owns_insert; [done|done| |]; intros; cbn -[Z.eqb b2n]; rewrite ?F1; [|done].
    specialize (F2 a0). rewrite (proj2 (Z.eqb_neq 0 a0)) by congruence. cbn [b2n]. lia.
Qed.

(** How many of the chunks at [ks] can be reclaimed. *)
Definition reclaimable_at (cs : list is_memory_chunk) (ks : list nat) : nat :=
  sum_list_with (fun k => b2n (from_option reclaimable false (cs !! k))) ks.

Lemma reclaimable_at_all cs : reclaimable_at cs (seq 0 (length cs)) = count reclaimable cs.
Proof.
  unfold reclaimable_at, count. induction cs as [|c cs IH]; [done|]. cbn [length seq sum_list_with].
  rewrite <- IH, <- fmap_S_seq. cbn [lookup list_lookup from_option]. f_equal.
  generalize (seq 0 (length cs)). induction l as [|k l IHl]; [done|]. cbn [fmap list_fmap sum_list_with].
  by rewrite <- IHl.
Qed.

Lemma reclaim_unassigned_spec ks m w reclaimed n m' w' r :
  good B R m w -> NoDup ks -> (forall k, k ∈ ks -> (k < length (chunks m))%nat) ->
  0 <= n < 2 ^ 32 -> 0 <= reclaimed -> reclaimed + n < 2 ^ 32 ->
  reclaim_unassigned m w reclaimed n ks = (m', w', r) ->
  good B R m' w' /\ config m' = config m /\ connections m' = connections m /\
  r - reclaimed = n `min` Z.of_nat (reclaimable_at (chunks m) ks) /\
  allocated_opportunistic_chunks m' = allocated_opportunistic_chunks m - (r - reclaimed) /\
  assigned_opportunistic_chunks m' = assigned_opportunistic_chunks m /\
  (forall k c, chunks m !! k = Some c -> owner c <> 0 \/ quarantined c = true -> chunks m' !! k = Some c).
Proof.
  revert m w reclaimed n. induction ks as [|k ks IH]; intros m w reclaimed n Hg Hnd Hks Hn Hr Hrn; cbn [reclaim_unassigned].
  { intros [= <- <- <-]. cbn. split_and!; try done; lia. }
  inversion Hnd as [|? ? Hni Hnd']; subst. unfold reclaimable_at. cbn [sum_list_with].
  fold (reclaimable_at (chunks m) ks).
  destruct (Z.eqb_spec n 0) as [->|Hn0]; [intros [= <- <- <-]; split_and!; try done; lia|].
  destruct (lookup_lt_is_Some_2 (chunks m) k) as [c Hk]; [apply Hks; constructor|]. rewrite Hk. cbn [from_option].
  destruct (reclaimable c) eqn:Ec.
  2: { intros E. apply IH in E as (F1 & F2 & F3 & F4 & F5 & F6 & F7); try done.
       intros k' Hk'. apply Hks. by constructor. }
  destruct (reclaim_one m w k c Hg Hk Ec) as (Hg1 & Ha1 & Hpos).
  intros E. change (reclaim_unassigned (reclaimed_manager m k) (release (address c) w)
    (u32 (reclaimed + 1)) (u32 (n - 1)) ks = (m', w', r)) in E.
  rewrite !wrap_small in E by (unfold in_u; lia).
  assert (Hat : reclaimable_at (chunks (reclaimed_manager m k)) ks = reclaimable_at (chunks m) ks).
  { unfold reclaimable_at. apply sum_list_with_ext. intros j Hj. cbn.
    rewrite list_lookup_insert_ne; [done|]. intros ->. done. }
  apply IH in E as (F1 & F2 & F3 & F4 & F5 & F6 & F7); try done; try lia.
  - rewrite Hat in F4. split_and!; try done.
    + cbn [b2n]. lia.
    + rewrite F5, Ha1. lia.
    + intros k' c' Hk' Hc'. apply F7; [|done]. cbn. rewrite list_lookup_insert_ne; [done|].
      intros ->. assert (c' = c) as -> by congruence.
      apply reclaimable_free in Ec as [E1 _]; [rewrite E1 in Hc'; by destruct Hc'|].
      eapply Forall_lookup_1; [apply (m_chunks _ (proj1 Hg))|done].
  - intros k' Hk'. cbn. rewrite length_insert. apply Hks. by constructor.
Qed.

(** ** The whole reconciliation *)

Definition quarantined_free (m : is_memory_manager) : Z :=
  Z.of_nat (count (fun c => quarantined c && Z.eqb (pool c) IS_MEMORY_POOL_OPPORTUNISTIC) (chunks m)).

(** The opportunistic chunks are assigned, in quarantine, or free. *)
Lemma free_chunks m :
  manager_inv m ->
  Z.of_nat (count reclaimable (chunks m))
    = allocated_opportunistic_chunks m - assigned_opportunistic_chunks m - quarantined_free m /\
  count (unused_in IS_MEMORY_POOL_OPPORTUNISTIC) (chunks m) = count reclaimable (chunks m).
Proof.
  intros [_ _ M3 [A1 _ A3 _ _] _ _ _ _]. unfold quarantined_free. rewrite A1, A3. clear A1 A3.
  unfold count. induction M3 as [|c l Hc _ [IH1 IH2]]; [done|]. cbn [sum_list_with].
  assert ((b2n (reclaimable c) + b2n (assigned_in IS_MEMORY_POOL_OPPORTUNISTIC c)
    + b2n (quarantined c && Z.eqb (pool c) IS_MEMORY_POOL_OPPORTUNISTIC)
    = b2n (allocated_in IS_MEMORY_POOL_OPPORTUNISTIC c))%nat /\
    unused_in IS_MEMORY_POOL_OPPORTUNISTIC c = reclaimable c) as [H1 H2]; [|rewrite H2; lia].
  unfold reclaimable, unused_in. inversion Hc; try done; cbn -[Z.eqb b2n];
    try match goal with H : pool_ok _ |- _ => destruct H; subst end; eqb_neq; eval_pools; done.
Qed.

Lemma reconcile_target_exact m bytes :
  manager_inv m -> is_u64 bytes ->
  reconcile_target m bytes
    = 0 `max` (max_opportunistic_gib (config m) `min`
        (bytes / IS_MEMORY_CHUNK_BYTES + allocated_opportunistic_chunks m - host_reserve_gib (config m))).
Proof.
  intros Hm [Hb1 Hb2]. unfold reconcile_target.
  pose proof (chunk_capacity_small _ Hm) as Hlen.
  pose proof (a_opportunistic _ (m_accounting _ Hm)) as A1.
  pose proof (count_le_length (allocated_in IS_MEMORY_POOL_OPPORTUNISTIC) (chunks m)).
  pose proof (m_length _ Hm) as Hl. destruct (m_config _ Hm) as [[G1 G2] [G3 G4] [G5 G6] _].
  assert (Hd : 0 <= bytes / IS_MEMORY_CHUNK_BYTES < 2 ^ 34).
  { unfold IS_MEMORY_CHUNK_BYTES. pow2_norm. Z.div_mod_to_equations. lia. }
  rewrite (wrap_small 64) by (unfold in_u; pow_lia).
  destruct (Z.leb_spec (bytes / IS_MEMORY_CHUNK_BYTES + allocated_opportunistic_chunks m) (host_reserve_gib (config m)));
    [lia|].
  destruct (Z.leb_spec (max_opportunistic_gib (config m))
    (bytes / IS_MEMORY_CHUNK_BYTES + allocated_opportunistic_chunks m - host_reserve_gib (config m))); [lia|].
  rewrite wrap_small by (unfold in_u; lia). lia.
Qed.

(** The three outcomes: no accounting, growth up to the target, or reclaim
    down to it as far as assigned and quarantined chunks allow. *)
Lemma reconcile_good m w m' w' r res :
  good B R m w -> is_memory_manager_reconcile m w = (m', w', r, res) ->
  good B R m' w' /\ connections m' = connections m /\
  (forall k c, chunks m !! k = Some c -> owner c <> 0 \/ quarantined c = true -> chunks m' !! k = Some c) /\
  let status := (read_available_bytes w).2.1 in
  let available := (read_available_bytes w).2.2 / IS_MEMORY_CHUNK_BYTES in
  let allocated := allocated_opportunistic_chunks m in
  let target := 0 `max` (max_opportunistic_gib (config m) `min`
                  (available + allocated - host_reserve_gib (config m))) in
  if negb (status =? 0) then r = IS_MEMORY_ACCOUNTING_FAILED /\ unchanged m m'
  else if allocated <? target then
    if decide (r = IS_MEMORY_OK)
    then allocated_opportunistic_chunks m' = target /\ grown_opportunistic_chunks res = target - allocated
    else unchanged m m' /\ r <> IS_MEMORY_POOL_EXHAUSTED
  else r = IS_MEMORY_OK /\
    allocated_opportunistic_chunks m' = target `max` (assigned_opportunistic_chunks m + quarantined_free m) /\
    reclaimed_unassigned_chunks res = allocated - allocated_opportunistic_chunks m' /\
    assigned_reclaim_needed res = 0 `max` (assigned_opportunistic_chunks m - target).
Proof.
  intros Hg. unfold is_memory_manager_reconcile.
  pose proof (read_frame w) as Hfr. pose proof (read_bytes w) as Hby.
  destruct (read_available_bytes w) as [w1 [st bytes]]. cbn [fst snd] in *. cbv zeta.
  assert (Hw1 : owns B R (chunks m) w1) by (eapply owns_frame; [apply Hg|done]).
  assert (Hg1 : good B R m w1) by (by split; [apply Hg|]).
  destruct (Z.eqb_spec st 0) as [->|Hst]; cbn [negb].
  2: { intros [= <- <- <- <-]. pose proof (reject_fields m IS_MEMORY_REJECTION_ACCOUNTING_FAILED) as (_ & E2 & E3).
       split_and!; [by apply reject_good|done| |done|apply reject_unchanged]. intros k c. by rewrite E2. }
  rewrite reconcile_target_exact by (done || apply Hg).
  set (target := 0 `max` _). pose proof (m_limit_opportunistic _ (proj1 Hg)) as Hlim.
  destruct (free_chunks m (proj1 Hg)) as [Hfree _].
  destruct (m_accounting _ (proj1 Hg)) as [A1 _ A3 _ _].
  destruct (Z.ltb_spec (allocated_opportunistic_chunks m) target) as [Hlt|Hge].
  - destruct (allocate_unassigned_opportunistic_locked m w1 _) as [[m1 w2] r1] eqn:E.
    apply allocate_unassigned_good in E as (F1 & F2 & F3); [|done|lia|unfold target in *; lia].
    intros [= <- <- <- <-]. case_decide as Hr; cbn [grown_opportunistic_chunks].
    + destruct F3 as [F3 F4]. split_and!; try done; [|lia]. intros k c Hk Hc. apply F4; [done|].
      assert (Hok : chunk_ok c) by (eapply Forall_lookup_1; [apply (m_chunks _ (proj1 Hg))|done]).
      intros Ha. apply chunk_ok_empty in Hok; [|done]. subst c. by destruct Hc.
    + destruct F3 as [F3 F4]. split_and!; try done. intros k c. by rewrite (proj1 (proj2 F3)).
  - set (n := u32 _). destruct (reclaim_unassigned m w1 0 n _) as [[m1 w2] got] eqn:E.
    intros [= <- <- <- <-].
    assert (Hn : n = allocated_opportunistic_chunks m - target `max` assigned_opportunistic_chunks m).
    { unfold n. pose proof (chunk_capacity_small _ (proj1 Hg)).
      pose proof (count_le_length (allocated_in IS_MEMORY_POOL_OPPORTUNISTIC) (chunks m)).
      rewrite wrap_small by (unfold in_u; pow2_norm; destruct (Z.ltb_spec target (assigned_opportunistic_chunks m));
        unfold quarantined_free in *; lia).
      destruct (Z.ltb_spec target (assigned_opportunistic_chunks m)); lia. }
    apply reclaim_unassigned_spec in E as (F1 & F2 & F3 & F4 & F5 & F6 & F7); [|done|apply NoDup_seq|..].
    + rewrite reclaimable_at_all in F4. rewrite F6. split_and!; try done.
      * rewrite F5. unfold quarantined_free in *. lia.
      * destruct (target <? assigned_opportunistic_chunks m); cbn; lia.
      * destruct (Z.ltb_spec target (assigned_opportunistic_chunks m)); cbn; lia.
    + intros k Hk%elem_of_seq. lia.
    + unfold quarantined_free in *. pose proof (wrap_in_u 32 (allocated_opportunistic_chunks m -
        (if target <? assigned_opportunistic_chunks m then assigned_opportunistic_chunks m else target)) ltac:(lia)) as Hw.
      exact Hw.
    + lia.
    + pose proof (wrap_in_u 32 (allocated_opportunistic_chunks m -
        (if target <? assigned_opportunistic_chunks m then assigned_opportunistic_chunks m else target)) ltac:(lia)) as [_ Hw].
      exact Hw.
Qed.
End with_laws.

(** * The memory manager's status is exact and can be relied on *)

(** Chunks a new block could be found for without touching the reserve. *)
Definition safe_new (m : is_memory_manager) (bytes : Z) : Z :=
  0 `max` (bytes / IS_MEMORY_CHUNK_BYTES - host_reserve_gib (config m)).
(** Opportunistic chunks without an owner, outside of the quarantine. *)
Definition unassigned (m : is_memory_manager) : Z :=
  Z.of_nat (count (unused_in IS_MEMORY_POOL_OPPORTUNISTIC) (chunks m)).

Lemma quarantined_opportunistic_exact m :
  manager_inv m -> quarantined_opportunistic m = quarantined_free m.
Proof.
  intros Hm. pose proof (chunk_capacity_small _ Hm) as Hlen. unfold quarantined_opportunistic, quarantined_free.
  enough (H : forall cs n, 0 <= n -> n + Z.of_nat (length cs) <= 1000 ->
    fold_left (fun n c => if quarantined c && (pool c =? IS_MEMORY_POOL_OPPORTUNISTIC) then u64 (n + 1) else n) cs n
    = n + Z.of_nat (count (fun c => quarantined c && Z.eqb (pool c) IS_MEMORY_POOL_OPPORTUNISTIC) cs)).
  { rewrite H by lia. lia. }
  clear. induction cs as [|c cs IH]; intros n Hl Hn; [cbn; lia|]. cbn [fold_left length] in *.
  unfold count in *. cbn [sum_list_with]. destruct (quarantined c && _).
  - rewrite wrap_small by (unfold in_u; pow_lia). rewrite IH by lia. cbn. lia.
  - rewrite IH by lia. cbn. lia.
Qed.

(** No subtraction of the status wraps. *)
Lemma availability_exact m bytes :
  manager_inv m -> is_u64 bytes ->
  availability m bytes =
    (unassigned m + safe_new m bytes `min` (max_opportunistic_gib (config m) - allocated_opportunistic_chunks m),
     (max_committed_gib (config m) - allocated_committed_chunks m) `min` (unassigned m + safe_new m bytes)).
Proof.
  intros Hm [Hb1 Hb2]. unfold availability. rewrite quarantined_opportunistic_exact by done.
  destruct (free_chunks m Hm) as [Hf1 Hf2]. unfold unassigned, safe_new. rewrite Hf2.
  pose proof (chunk_capacity_small _ Hm) as Hlen. pose proof (m_length _ Hm) as Hl.
  destruct (m_accounting _ Hm) as [A1 A2 A3 A4 A5].
  pose proof (count_le_length (allocated_in IS_MEMORY_POOL_OPPORTUNISTIC) (chunks m)).
  pose proof (count_le_length (allocated_in IS_MEMORY_POOL_COMMITTED) (chunks m)).
  pose proof (m_limit_opportunistic _ Hm). pose proof (m_limit_committed _ Hm).
  destruct (m_config _ Hm) as [[G1 G2] [G3 G4] [G5 G6] _].
  assert (Hd : 0 <= bytes / IS_MEMORY_CHUNK_BYTES < 2 ^ 34).
  { unfold IS_MEMORY_CHUNK_BYTES. pow2_norm. Z.div_mod_to_equations. lia. }
  assert (Hq : 0 <= quarantined_free m) by (unfold quarantined_free; lia).
  rewrite (wrap_small 32 (allocated_opportunistic_chunks m - _)) by (unfold in_u; pow_lia).
  rewrite (wrap_small 64 (_ - _ - _)) by (unfold in_u; pow_lia).
  rewrite (wrap_small 32 (max_opportunistic_gib _ - _)) by (unfold in_u; pow_lia).
  rewrite (wrap_small 32 (max_committed_gib _ - _)) by (unfold in_u; pow_lia).
  set (sn := if host_reserve_gib (config m) <? _ then _ else _).
  assert (Hsn : sn = 0 `max` (bytes / IS_MEMORY_CHUNK_BYTES - host_reserve_gib (config m))).
  { unfold sn. destruct (Z.ltb_spec (host_reserve_gib (config m)) (bytes / IS_MEMORY_CHUNK_BYTES)); lia. }
  rewrite Hsn, !(wrap_small 64) by (unfold in_u; repeat case_match; pow_lia).
  f_equal; (rewrite wrap_small; [|unfold in_u; repeat case_match; pow_lia]);
    repeat match goal with |- context [?a <? ?b] => destruct (Z.ltb_spec a b) end; lia.
Qed.

(** What a connection is told it can still acquire. *)
Definition available_to (q : Z) (s : is_memory_manager_status) : Z :=
  if q =? IS_MEMORY_POOL_OPPORTUNISTIC then available_opportunistic_chunks s
  else available_committed_chunks s.

Lemma connection_status_bounds m c bytes q :
  manager_inv m -> is_u64 bytes -> c ∈ connections m -> pool_ok q ->
  let s := connection_status m c (manager_status m bytes) in
  available_to q s <= quota_of q c - consumer_assigned q m c /\
  available_to q s <= unassigned m + safe_new m bytes /\
  available_to q s <= (if q =? IS_MEMORY_POOL_OPPORTUNISTIC
    then unassigned m + (max_opportunistic_gib (config m) - allocated_opportunistic_chunks m)
    else max_committed_gib (config m) - allocated_committed_chunks m).
Proof.
  intros Hm Hb Hc Hq s. unfold s, connection_status, manager_status, available_to.
  rewrite assignments_exact, availability_exact by done.
  destruct (cs_each _ _ (m_connections _ Hm) c Hc) as [_ (_ & [L1 L2] & [L3 L4]) _ _ Q1 Q2 _ _].
  assert (Hpos : forall f, (forall x, x ∈ connections m -> 0 <= f x) ->
    0 <= consumer_total f (connections m) (consumer_id c)) by (intros f; apply consumer_total_nonneg).
  assert (P1 := Hpos conn_assigned_opportunistic_chunks). assert (P2 := Hpos conn_assigned_committed_chunks).
  assert (Hnn : forall x, x ∈ connections m ->
    0 <= conn_assigned_opportunistic_chunks x /\ 0 <= conn_assigned_committed_chunks x).
  { intros x Hx. destruct (cs_each _ _ (m_connections _ Hm) x Hx) as [_ _ -> -> _ _ _ _]. lia. }
  specialize (P1 (fun x Hx => proj1 (Hnn x Hx))). specialize (P2 (fun x Hx => proj2 (Hnn x Hx))).
  unfold consumer_assigned, quota_of. cbn -[Z.min Z.max Z.ltb].
  rewrite !wrap_small by (unfold in_u; lia).
  destruct Hq as [-> | ->]; cbn -[Z.min Z.max Z.ltb];
    repeat (case_match; cbn -[Z.min Z.max Z.ltb] in *); lia.
Qed.

Section with_laws.
Context {W : Type} {adapters : MemoryAdapters W} {laws : MemoryAdapterLaws W}.

(** Adapters that do not fail. *)
Record reliable : Prop := {
  rel_heap : forall w, (heap w).2 = true;
  rel_allocate : forall w, (allocate w).2.1 = 0;
  rel_touch : forall a w, (touch a w).2 = 0;
  rel_register : forall g a w, (register_chunk g a w).2 <> 0
}.

Lemma allocate_pending_reliable ps w : reliable -> (allocate_pending w ps).2 = None.
Proof.
  intros Hr. revert w. induction ps as [|p ps IH]; intros w; cbn; [done|].
  destruct (newly_allocated p); cbn [negb].
  - pose proof (rel_allocate Hr w) as H. destruct (allocate w) as [w1 [st a]]. cbn in H. subst st.
    pose proof (rel_touch Hr a w1) as H. destruct (touch a w1) as [w2 st]. cbn in H. subst st. cbn.
    specialize (IH w2). by destruct (allocate_pending w2 ps) as [[] ?].
  - specialize (IH w). by destruct (allocate_pending w ps) as [[] ?].
Qed.

Lemma register_pending_reliable ps reg w : reliable -> (register_pending w ps reg).2 = None.
Proof.
  intros Hr. revert w. induction ps as [|p ps IH]; intros w; cbn; [done|].
  pose proof (rel_register Hr reg (p_address p) w) as H. destruct (register_chunk _ _ w) as [w1 r].
  cbn in H. rewrite (proj2 (Z.eqb_neq r 0)) by done. specialize (IH w1).
  by destruct (register_pending w1 ps reg) as [[] ?].
Qed.

Lemma acquire_pending_reliable m w i ps requested own reg n :
  reliable -> out_result (acquire_pending m w i ps requested own reg n) = IS_MEMORY_OK.
Proof.
  intros Hr. unfold acquire_pending. pose proof (allocate_pending_reliable ps w Hr) as H.
  destruct (allocate_pending w ps) as [[w1 ps1] stop]. cbn in H. subst stop.
  pose proof (register_pending_reliable ps1 reg w1 Hr) as H.
  destruct (register_pending w1 ps1 reg) as [[w2 ps2] stop]. cbn in H. subst stop.
  by destruct (assign_all m ps2 requested own reg).
Qed.

(** With room in every limit and reliable adapters an acquisition succeeds. *)
Lemma acquire_succeeds m w own c requested n reg capacity bytes :
  manager_inv m -> reliable -> c ∈ connections m -> conn_owner c = own ->
  pool_ok requested -> 0 < n -> n <= capacity -> is_u64 bytes ->
  (read_available_bytes (heap w).1).2 = (0, bytes) ->
  n <= quota_of requested c - consumer_assigned requested m c ->
  n <= unassigned m + safe_new m bytes ->
  n <= (if requested =? IS_MEMORY_POOL_OPPORTUNISTIC
    then unassigned m + (max_opportunistic_gib (config m) - allocated_opportunistic_chunks m)
    else max_committed_gib (config m) - allocated_committed_chunks m) ->
  out_result (is_memory_manager_acquire m w own requested n reg capacity) = IS_MEMORY_OK.
Proof.
  intros Hm Hrel Hc Ho Hp Hn Hcap Hb Hread Hquota Hnew Hroom. unfold is_memory_manager_acquire.
  destruct (cs_each _ _ (m_connections _ Hm) c Hc) as [Hz _ _ _ _ _ _ _]. rewrite Ho in Hz.
  rewrite (proj2 (Z.eqb_neq own 0)), (proj2 (Z.eqb_neq n 0)), (proj2 (Z.ltb_ge capacity n)) by lia. cbn [orb].
  pose proof (rel_heap Hrel w) as Hh. destruct (heap w) as [w1 ok]. cbn [fst snd] in *. subst ok. cbn [negb].
  destruct (find_connection m own) as [i|] eqn:Ef; [|by destruct (find_connection_none _ _ Ef c Hc)].
  destruct (find_connection_spec _ _ _ Ef) as (c' & Hi & Ho'). rewrite Hi.
  assert (c' = c) as ->.
  { eapply owner_unique; [apply (m_connections _ Hm)|by eapply list_elem_of_lookup_2|done|congruence]. }
  assert (Hval : validate_acquire_locked m c requested n = None).
  { unfold validate_acquire_locked, consumer_assigned, quota_of in *. rewrite assignments_exact by done.
    destruct Hp as [-> | ->]; cbn -[Z.ltb] in *.
    all: match goal with |- context [?a <? ?b] => rewrite (proj2 (Z.ltb_ge a b)) by lia end; cbn [orb].
    all: match goal with |- context [?a <? ?b] => rewrite (proj2 (Z.ltb_ge a b)) by lia end; done. }
  rewrite Hval. pose proof (selection_spec m requested (Z.to_nat n) Hm Hp) as Hsel. cbv zeta in Hsel.
  set (same := select_same m requested (Z.to_nat n)) in *.
  set (conv := select_converted m requested (Z.to_nat n - length same)) in *.
  set (fresh := select_new m (same ++ conv) (Z.to_nat n - length same - length conv)) in *.
  clearbody same conv fresh. destruct Hsel as [S1 S2 S3 S4 S5 S6 S7 S8].
  pose proof (empty_slots m Hm) as Hslots. pose proof (m_length _ Hm) as Hl.
  pose proof (m_limit_opportunistic _ Hm). pose proof (m_limit_committed _ Hm).
  unfold unassigned, safe_new in *. unfold acquire_selected.
  assert (Hlen : Z.of_nat (length (same ++ conv ++ fresh)) = n).
  { rewrite !length_app. destruct Hp as [-> | ->]; cbn -[Z.min Z.max] in Hroom; lia. }
  rewrite Hlen, Z.eqb_refl. cbn [negb].
  assert (Hpool : pool_limit_exceeded m requested (n - Z.of_nat (length same)) = false).
  { unfold pool_limit_exceeded. destruct Hp as [-> | ->]; cbn -[Z.ltb Z.sub Z.min Z.max] in *;
      [rewrite (S6 eq_refl) in *|rewrite (S5 eq_refl) in *]; cbn [length] in *;
      apply orb_false_iff; split; apply Z.ltb_ge; lia. }
  rewrite Hpool. destruct (Nat.eqb_spec (length fresh) 0) as [|Hf]; cbn [negb]; [by apply acquire_pending_reliable|].
  destruct (read_available_bytes w1) as [w2 [st bytes']]. cbn [fst snd] in Hread. injection Hread as -> ->.
  cbn [Z.eqb negb]. rewrite wrap_small.
  - rewrite (proj2 (Z.ltb_ge _ _)) by (destruct Hp as [-> | ->]; cbn -[Z.min Z.max] in Hroom; lia).
    by apply acquire_pending_reliable.
  - pose proof (chunk_capacity_small _ Hm). pose proof (g_reserve _ (m_config _ Hm)) as [G1 G2].
    unfold in_u in *. rewrite !length_app in Hlen. pose proof (pends_length _ _ _ S1) as Hps.
    rewrite !length_app in Hps. pow_lia.
Qed.
End with_laws.
