(* ===== verification/MemoryManagerSpec.v ===== *)
(** * What the memory manager guarantees *)
From S2P Require Import Prelude MemoryManager MemoryManagerInv MemoryManagerConn MemoryManagerSelect MemoryManagerAssign MemoryManagerOps.

(** ** A host of finite memory

    An instance of the adapters that satisfies their laws: blocks and
    registrations are numbered; [fails] says which of the coming
    deregistrations fail. *)
Module Host.
Record host := {
  bytes_available : Z;
  next_id : nat;
  host_blocks : list Z;
  host_regs : list (Z * Z);
  fails : list bool
}.

Fixpoint remove_one {A} `{EqDecision A} (x : A) (l : list A) : list A :=
  match l with
  | [] => []
  | y :: l => if decide (x = y) then l else y :: remove_one x l
  end.

Fixpoint occurrences {A} `{EqDecision A} (x : A) (l : list A) : nat :=
  match l with
  | [] => 0
  | y :: l => (if decide (y = x) then 1 else 0) + occurrences x l
  end.

Lemma remove_one_occurrences {A} `{EqDecision A} (x y : A) l :
  (0 < occurrences x l)%nat ->
  (occurrences y (remove_one x l) + (if decide (x = y) then 1 else 0) = occurrences y l)%nat.
Proof.
  induction l as [|z l IH]; cbn; [lia|]. intros H. destruct (decide (x = z)) as [->|Hne].
  - lia.
  - rewrite decide_False in H by congruence. specialize (IH H). cbn. lia.
Qed.

#[export] Instance host_adapters : MemoryAdapters host := {
  read_available_bytes w := (w, (0, u64 (bytes_available w)));
  allocate w :=
    let a := Z.of_nat (S (next_id w)) in
    ({| bytes_available := bytes_available w; next_id := S (next_id w);
        host_blocks := a :: host_blocks w; host_regs := host_regs w; fails := fails w |}, (0, a));
  touch a w := (w, 0);
  release a w :=
    {| bytes_available := bytes_available w; next_id := next_id w;
       host_blocks := remove_one a (host_blocks w); host_regs := host_regs w; fails := fails w |};
  register_chunk g a w :=
    let r := Z.of_nat (S (next_id w)) in
    ({| bytes_available := bytes_available w; next_id := S (next_id w);
        host_blocks := host_blocks w; host_regs := (g, r) :: host_regs w; fails := fails w |}, r);
  deregister_chunk g r w :=
    let w' := {| bytes_available := bytes_available w; next_id := next_id w;
                 host_blocks := host_blocks w; host_regs := host_regs w; fails := tail (fails w) |} in
    match fails w with
    | true :: _ => (w', -1)
    | _ => ({| bytes_available := bytes_available w; next_id := next_id w;
               host_blocks := host_blocks w; host_regs := remove_one (g, r) (host_regs w);
               fails := tail (fails w) |}, 0)
    end;
  heap w := (w, true)
}.

Lemma decide_eqb (a x : Z) : (if decide (a = x) then 1%nat else 0%nat) = b2n (Z.eqb a x).
Proof. destruct (Z.eqb_spec a x); case_decide; done. Qed.

Lemma decide_eqb_pair (g r h x : Z) :
  (if decide ((g, r) = (h, x)) then 1%nat else 0%nat) = b2n (Z.eqb g h && Z.eqb r x).
Proof. destruct (Z.eqb_spec g h), (Z.eqb_spec r x); case_decide; cbn; congruence. Qed.

#[export, refine] Instance host_laws : MemoryAdapterLaws host := {
  blocks w a := occurrences a (host_blocks w);
  regs w g r := occurrences (g, r) (host_regs w)
}.
Proof.
  all: cbn.
  - done.
  - intros w. apply wrap_in_u. lia.
  - done.
  - done.
  - intros w w' a [= <- <-]. split_and!; [lia|done|]. intros x. cbn. rewrite decide_eqb. lia.
  - intros w w' st a [= <- <- _] H. done.
  - intros a w Hpos. split; [done|]. intros x. rewrite <- decide_eqb. by apply remove_one_occurrences.
  - intros g a w w' r [= <- <-] _. split; [done|]. intros h x. cbn. rewrite decide_eqb_pair. lia.
  - intros g a w w' [= _ H].
  - intros g r w w' H Hpos. destruct (fails w) as [|[] ?]; simplify_eq; (split; [done|]);
      intros h x; rewrite <- decide_eqb_pair; by apply remove_one_occurrences.
  - intros g r w w' st H Hst. destruct (fails w) as [|[] ?]; simplify_eq; done.
Defined.
End Host.

(** ** Runs of the manager *)

Section with_laws.
Context {W : Type} {adapters : MemoryAdapters W} {laws : MemoryAdapterLaws W}.

Inductive memory_step : is_memory_manager * W -> is_memory_manager * W -> Prop :=
| step_connect m w id own mc mo mm m' w' r reason :
    is_u32 mc -> is_u32 mo -> is_u32 mm ->
    is_memory_manager_connect m w id own mc mo mm = (m', w', r, reason) ->
    memory_step (m, w) (m', w')
| step_disconnect m w own m' w' r :
    is_memory_manager_disconnect m w own = (m', w', r) -> memory_step (m, w) (m', w')
| step_acquire m w own requested n reg capacity :
    is_u32 n ->
    let o := is_memory_manager_acquire m w own requested n reg capacity in
    memory_step (m, w) (out_manager o, out_world o)
| step_release m w own ids cause m' w' r :
    Forall is_u32 ids -> is_memory_manager_release m w own ids cause = (m', w', r) ->
    memory_step (m, w) (m', w')
| step_reconcile m w m' w' r res :
    is_memory_manager_reconcile m w = (m', w', r, res) -> memory_step (m, w) (m', w').

Inductive memory_reachable (w0 : W) : is_memory_manager * W -> Prop :=
| memory_created cfg lock_status w m :
    is_u32 (host_reserve_gib cfg) -> is_u32 (max_opportunistic_gib cfg) ->
    is_u32 (max_committed_gib cfg) ->
    is_memory_manager_create cfg lock_status w0 = (w, Some m) -> memory_reachable w0 (m, w)
| memory_stepped s s' : memory_reachable w0 s -> memory_step s s' -> memory_reachable w0 s'.

Lemma create_good cfg lock_status w0 w m :
  is_u32 (host_reserve_gib cfg) -> is_u32 (max_opportunistic_gib cfg) ->
  is_u32 (max_committed_gib cfg) ->
  is_memory_manager_create cfg lock_status w0 = (w, Some m) -> good (blocks w0) (regs w0) m w.
Proof.
  intros H1 H2 H3. unfold is_memory_manager_create. destruct (config_valid cfg) eqn:Hv; [|done].
  pose proof (heap_frame w0) as [F1 F2]. destruct (heap w0) as [w1 ok1]. destruct ok1; [|done]. cbn [fst negb] in *.
  pose proof (heap_frame w1) as [F3 F4]. destruct (heap w1) as [w2 ok2]. destruct ok2; [|done]. cbn [fst negb] in *.
  destruct (lock_status =? 0); [|done]. cbn [negb]. intros [= <- <-].
  set (n := Z.to_nat _).
  assert (Hz : forall f, f empty_chunk = false -> count f (replicate n empty_chunk) = 0%nat).
  { intros f Hf. apply count_zero. intros c [-> _]%elem_of_replicate. done. }
  split; cbn -[count].
  - unfold in_u in *. constructor; cbn -[count]; try done; try lia.
    + rewrite length_replicate. unfold n. lia.
    + by apply Forall_replicate, chunk_empty.
    + constructor; cbn -[count]; by rewrite Hz.
    + constructor; [constructor|intros c Hc; by apply elem_of_nil in Hc|].
      intros o p Ho. rewrite Hz; [lia|]. cbn -[Z.eqb]. by rewrite (proj2 (Z.eqb_neq 0 o)) by congruence.
  - split; [intros a Ha|intros g r Hr]; rewrite Hz, ?F3, ?F4, ?F1, ?F2, ?Nat.add_0_r; try done; cbn -[Z.eqb].
    + by rewrite (proj2 (Z.eqb_neq 0 a)) by congruence.
    + by rewrite (proj2 (Z.eqb_neq 0 r)), andb_false_r by congruence.
Qed.

(** A release by its owner: what is listed, all of it checked first. *)
Lemma release_good B R m w own ids cause m' w' r :
  good B R m w -> Forall is_u32 ids ->
  is_memory_manager_release m w own ids cause = (m', w', r) ->
  good B R m' w' /\ config m' = config m /\
  identity <$> connections m' = identity <$> connections m /\
  match r with
  | IS_MEMORY_OK | IS_MEMORY_CLEANUP_FAILED =>
      (forall id, id ∈ ids -> exists ch, chunks m !! Z.to_nat id = Some ch /\ owner ch = own /\
         (cause = IS_MEMORY_RELEASE_PRESSURE -> pool ch <> IS_MEMORY_POOL_COMMITTED)) /\
      (forall k ch, chunks m !! k = Some ch -> Z.of_nat k ∉ ids -> chunks m' !! k = Some ch) /\
      (r = IS_MEMORY_OK -> forall id ch, id ∈ ids -> chunks m !! Z.to_nat id = Some ch ->
         chunks m' !! Z.to_nat id = Some (released cause ch))
  | _ => unchanged m m'
  end.
Proof.
  intros Hg Hu. unfold is_memory_manager_release.
  destruct ((own =? 0) || _ || _); [intros [= <- <- <-]; split_and!; try done; apply Hg|].
  destruct (find_connection m own) as [i|] eqn:Ef; [|intros [= <- <- <-]; split_and!; try done; apply Hg].
  destruct (find_connection_spec _ _ _ Ef) as (c & Hi & Ho).
  pose proof (check_release_spec m own cause [] ids) as Hc.
  destruct (check_release m own cause [] ids) as [[m1 r1]|] eqn:Ec.
  - intros [= <- <- <-]. destruct Hc as [Hr Hm1].
    assert (Hr2 : r1 <> IS_MEMORY_CLEANUP_FAILED).
    { clear -Ec. revert Ec. generalize (@nil Z). induction ids as [|id ids IH]; intros before; cbn; [done|].
      repeat (case_match; try (intros; simplify_eq; done)). apply IH. }
    assert (Hun : unchanged m m1) by (destruct Hm1 as [-> | ->]; [apply unchanged_refl|apply reject_unchanged]).
    pose proof Hun as (U1 & U2 & U3 & _).
    split_and!; [destruct Hm1 as [-> | ->]; [done|by apply reject_good]|done|by rewrite U3|by destruct r1].
  - destruct Hc as (H1 & H2 & H3). intros E. rewrite Forall_forall in Hu.
    apply (release_listed_good B R) with (c := c) in E as (F1 & F2 & F3 & F4 & F5); try done.
    + split_and!; [done|apply F2|apply F2|]. destruct F3 as [-> | ->]; by split_and!.
    + intros id Hin. destruct (H1 id Hin) as (ch & Hk & Hoc & _). split; [|exists ch; by rewrite Ho].
      apply list_elem_of_In in Hin. by destruct (Hu id Hin).
Qed.

Lemma memory_reachable_good w0 s : memory_reachable w0 s -> good (blocks w0) (regs w0) s.1 s.2.
Proof.
  induction 1 as [cfg ls w m H1 H2 H3 Hc|s s' _ IH Hs]; [by eapply create_good|].
  destruct Hs as [m w id own mc mo mm m' w' r reason U1 U2 U3 E|m w own m' w' r E|m w own rq n reg cap Hn o
    |m w own ids cause m' w' r Hu E|m w m' w' r res E]; cbn [fst snd] in *.
  - by eapply connect_good in E as [? _].
  - by eapply disconnect_good in E as [? _].
  - destruct Hn as [Hn _]. by destruct (acquire_good _ _ m w own rq n reg cap IH Hn) as (fresh & [? _] & _).
  - by eapply release_good in E as [? _].
  - by eapply reconcile_good in E as [? _].
Qed.

(** C8.  Accounting and ownership: in every run from creation, with any
    results of the adapters that their laws allow, the manager's counters are
    the numbers of chunks in each state and within the pools' limits, each
    connection's counters are the chunks it owns and each Consumer's total is
    within its quota and connection limit, every chunk is empty, free,
    assigned or in quarantine, and the live memory blocks and registrations
    are those of the chunks and those that were there before: nothing leaks
    and nothing is freed twice. *)
Theorem memory_manager_invariant w0 m w :
  memory_reachable w0 (m, w) ->
  manager_inv m /\ owns (blocks w0) (regs w0) (chunks m) w.
Proof. intros H. exact (memory_reachable_good w0 (m, w) H). Qed.

(** The grants of a successful acquisition. *)
Lemma acquired_chunks B R m w own requested n reg capacity :
  good B R m w -> 0 <= n ->
  let o := is_memory_manager_acquire m w own requested n reg capacity in
  out_result o = IS_MEMORY_OK ->
  Z.of_nat (length (out_grants o)) = n /\ NoDup (provider_chunk_id <$> out_grants o) /\
  (forall g, g ∈ out_grants o ->
     grant_address g <> 0 /\ grant_registration g <> 0 /\ grant_pool g = requested /\
     (exists ch, chunks m !! Z.to_nat (provider_chunk_id g) = Some ch /\ owner ch = 0 /\
        quarantined ch = false) /\
     exists reg', chunks (out_manager o) !! Z.to_nat (provider_chunk_id g) =
       Some {| address := grant_address g; registration := grant_registration g; owner := own;
               registration_adapter := reg'; pool := requested; quarantined := false |}) /\
  (forall k, Z.of_nat k ∉ provider_chunk_id <$> out_grants o ->
     chunks (out_manager o) !! k = chunks m !! k).
Proof.
  intros Hg Hn o Hr. destruct (acquire_good B R m w own requested n reg capacity Hg Hn) as (fresh & Hpost & _).
  fold o in Hpost. destruct Hpost as (_ & _ & _ & Hres). rewrite Hr in Hres.
  destruct Hres as (ps & reg' & [Hnd Hok] & Hlen & _ & HF & Hgr & Hcs). rewrite Hgr, Hcs.
  assert (Hids : provider_chunk_id <$> (grant_from requested <$> ps) = Z.of_nat <$> (p_index <$> ps))
    by (by rewrite <- !list_fmap_compose).
  destruct (changes_replace (chunks m) requested own reg' ps) as (old & Hrep & _); [by split|].
  split_and!.
  + by rewrite length_fmap.
  + rewrite Hids. by apply (NoDup_fmap_2 Z.of_nat).
  + intros g (p & -> & Hp)%list_elem_of_fmap. rewrite Forall_forall in HF, Hok.
    pose proof Hp as Hp'. apply list_elem_of_In in Hp'. destruct (HF p Hp') as [F1 F2].
    pose proof (pd_lookup _ _ _ (Hok p Hp')) as Hk. cbn. rewrite Nat2Z.id. split_and!; try done.
    * exists (pend_old p). split_and!; [done|apply pend_old_owner|]. unfold pend_old.
      by destruct (newly_allocated p).
    * exists reg'. eapply lookup_put_all; [exact Hrep|]. apply list_elem_of_fmap. by exists p.
  + intros k Hk. apply lookup_put_all_ne. rewrite Hids in Hk. unfold changes.
    rewrite <- list_fmap_compose. intros Hin. apply Hk. by apply list_elem_of_fmap_2.
Qed.

(** C9.  An acquisition is all or nothing.  When it succeeds it returns the
    requested number of grants for distinct chunks that nobody owned, each
    with a memory block and a registration, now owned by the caller; every
    other chunk is as it was.  When it fails, nothing is granted, and the
    chunks, connections, counters, blocks and registrations are those before
    the call, unless undoing a registration failed: then still no chunk with
    an owner has changed. *)
Theorem acquire_atomic w0 m w own requested n reg capacity :
  memory_reachable w0 (m, w) -> is_u32 n ->
  let o := is_memory_manager_acquire m w own requested n reg capacity in
  match out_result o with
  | IS_MEMORY_OK =>
      Z.of_nat (length (out_grants o)) = n /\ NoDup (provider_chunk_id <$> out_grants o) /\
      (forall g, g ∈ out_grants o ->
         grant_address g <> 0 /\ grant_registration g <> 0 /\ grant_pool g = requested /\
         (exists ch, chunks m !! Z.to_nat (provider_chunk_id g) = Some ch /\ owner ch = 0 /\
            quarantined ch = false) /\
         exists reg', chunks (out_manager o) !! Z.to_nat (provider_chunk_id g) =
           Some {| address := grant_address g; registration := grant_registration g; owner := own;
                   registration_adapter := reg'; pool := requested; quarantined := false |}) /\
      (forall k, Z.of_nat k ∉ provider_chunk_id <$> out_grants o ->
         chunks (out_manager o) !! k = chunks m !! k)
  | IS_MEMORY_CLEANUP_FAILED => out_grants o = [] /\
      forall k ch, chunks m !! k = Some ch -> owner ch <> 0 -> chunks (out_manager o) !! k = Some ch
  | _ => out_grants o = [] /\ unchanged m (out_manager o) /\
      (forall a, a <> 0 -> blocks (out_world o) a = blocks w a) /\
      (forall g r, r <> 0 -> regs (out_world o) g r = regs w g r)
  end.
Proof.
  intros Hr [Hn _] o. pose proof (memory_reachable_good _ _ Hr) as Hg. cbn [fst snd] in Hg.
  destruct (acquire_good _ _ m w own requested n reg capacity Hg Hn) as (fresh & Hpost & _). fold o in Hpost.
  destruct Hpost as (Hg' & _ & _ & Hres).
  assert (Hsame : unchanged m (out_manager o) ->
    (forall a, a <> 0 -> blocks (out_world o) a = blocks w a) /\
    (forall g r, r <> 0 -> regs (out_world o) g r = regs w g r)).
  { intros (_ & E & _). destruct Hg as [_ [B1 R1]], Hg' as [_ [B2 R2]]. rewrite E in *.
    split; intros; [by rewrite B1, B2|by rewrite R1, R2]. }
  destruct (out_result o) eqn:Er;
    try (destruct Hres as [Hgr Hun]; specialize (Hsame Hun); destruct Hsame; by split_and!).
  - exact (acquired_chunks _ _ m w own requested n reg capacity Hg Hn Er).
  - destruct Hres as (Hgr & ps & Hnd & (_ & _ & Q3 & Q4) & Hold). split; [done|].
    intros k ch Hk Ho. rewrite Q3; [done|]. intros Hin. by apply Ho, (Hold k).
Qed.

(** C10.  The Host Reserve is kept: a successful acquisition takes as many new
    memory blocks as the pools grow by, and only when the memory the host
    reports as available covers them on top of the reserve. *)
Theorem acquire_keeps_reserve w0 m w own requested n reg capacity :
  memory_reachable w0 (m, w) -> is_u32 n ->
  let o := is_memory_manager_acquire m w own requested n reg capacity in
  out_result o = IS_MEMORY_OK ->
  let fresh := allocated_opportunistic_chunks (out_manager o) + allocated_committed_chunks (out_manager o)
    - (allocated_opportunistic_chunks m + allocated_committed_chunks m) in
  0 <= fresh <= n /\ reserve_kept m (heap w).1 fresh.
Proof.
  intros Hr [Hn _] o Hres. pose proof (memory_reachable_good _ _ Hr) as Hg. cbn [fst snd] in Hg.
  destruct (acquire_good _ _ m w own requested n reg capacity Hg Hn) as (fresh & Hpost & Hok). fold o in Hpost, Hok.
  destruct (Hok Hres) as (_ & Hown & Hp & Hreserve). destruct Hpost as (Hg' & _ & _ & Hmatch).
  rewrite Hres in Hmatch. destruct Hmatch as (ps & reg' & Hps & Hlen & Hfresh & HF & _ & Hcs).
  assert (Ha : Forall (fun p => p_address p <> 0) ps) by (eapply Forall_impl; [|exact HF]; by intros p []).
  pose proof (changed_allocated (chunks m) requested own reg' ps Hps Ha IS_MEMORY_POOL_OPPORTUNISTIC) as C4.
  pose proof (changed_allocated (chunks m) requested own reg' ps Hps Ha IS_MEMORY_POOL_COMMITTED) as C5.
  rewrite (old_committed ps) in C5. pose proof (reused_opportunistic _ _ _ Hps Ha) as C6.
  rewrite <- Hcs in C4, C5.
  destruct (m_accounting _ (proj1 Hg)) as [A1 A2 _ _ _], (m_accounting _ (proj1 Hg')) as [A1' A2' _ _ _].
  assert (E : allocated_opportunistic_chunks (out_manager o) + allocated_committed_chunks (out_manager o)
    - (allocated_opportunistic_chunks m + allocated_committed_chunks m) = Z.of_nat fresh).
  { rewrite A1, A2, A1', A2'. destruct Hp as [-> | ->]; eval_pools; rewrite ?Z.eqb_refl in *; cbn [b2n] in *; lia. }
  cbv zeta. rewrite E. split; [lia|done].
Qed.

(** The status is a promise: when the status of a connection says that
    [n] more chunks of a pool are available, an acquisition of [n] chunks with
    the same available memory succeeds, if the adapters do not fail. *)
Theorem status_honest w0 m w own requested n reg capacity w' s bytes :
  memory_reachable w0 (m, w) -> reliable -> own <> 0 -> pool_ok requested ->
  is_memory_manager_get_status m w own = (w', IS_MEMORY_OK, Some s) ->
  (read_available_bytes w).2 = (0, bytes) ->
  (read_available_bytes (heap w').1).2 = (0, bytes) ->
  0 < n <= available_to requested s -> n <= capacity ->
  out_result (is_memory_manager_acquire m w' own requested n reg capacity) = IS_MEMORY_OK.
Proof.
  intros Hr Hrel Hz Hp. pose proof (memory_reachable_good _ _ Hr) as [Hm _]. cbn [fst snd] in Hm.
  pose proof (read_bytes w) as Hb. unfold is_memory_manager_get_status.
  rewrite (proj2 (Z.eqb_neq own 0)) by done. cbn [negb].
  destruct (find_connection m own) as [i|] eqn:Ef; [|done].
  destruct (find_connection_spec _ _ _ Ef) as (c & Hi & Ho). rewrite Hi.
  destruct (read_available_bytes w) as [w1 [st by']]. cbn [fst snd] in *.
  destruct (Z.eqb_spec st 0) as [->|]; cbn [negb]; [|done]. intros [= <- <-] [= ->] Hread Hn Hcap.
  assert (Hc : c ∈ connections m) by (by eapply list_elem_of_lookup_2).
  destruct (connection_status_bounds m c bytes requested Hm Hb Hc Hp) as (L1 & L2 & L3).
  eapply acquire_succeeds; try done; lia.
Qed.

(** C11.  A release gives back what is listed, and only that.  It fails before
    changing anything unless every listed chunk is the caller's; under
    pressure a committed assignment is never released, whoever asks.  When the
    result is OK every listed chunk is free or empty, and all others are
    unchanged; a failed deregistration stops it, and still only listed chunks
    have changed. *)
Theorem release_exact w0 m w own ids cause m' w' r :
  memory_reachable w0 (m, w) -> Forall is_u32 ids ->
  is_memory_manager_release m w own ids cause = (m', w', r) ->
  (forall k ch, chunks m !! k = Some ch ->
     Z.of_nat k ∉ ids \/ owner ch <> own \/
     (cause = IS_MEMORY_RELEASE_PRESSURE /\ pool ch = IS_MEMORY_POOL_COMMITTED) ->
     chunks m' !! k = Some ch) /\
  (r = IS_MEMORY_OK -> forall id, id ∈ ids -> exists ch, chunks m !! Z.to_nat id = Some ch /\
     owner ch = own /\ chunks m' !! Z.to_nat id = Some (released cause ch)) /\
  (r <> IS_MEMORY_OK -> r <> IS_MEMORY_CLEANUP_FAILED -> unchanged m m').
Proof.
  intros Hr Hu E. pose proof (memory_reachable_good _ _ Hr) as Hg. cbn [fst snd] in Hg.
  destruct (release_good _ _ _ _ _ _ _ _ _ _ Hg Hu E) as (_ & _ & _ & Hres).
  assert (Hsame : unchanged m m' -> forall k ch, chunks m !! k = Some ch -> chunks m' !! k = Some ch).
  { intros (_ & Ec & _). by rewrite Ec. }
  assert (Hcase : forall A : Prop,
    ((forall id, id ∈ ids -> exists ch, chunks m !! Z.to_nat id = Some ch /\ owner ch = own /\
       (cause = IS_MEMORY_RELEASE_PRESSURE -> pool ch <> IS_MEMORY_POOL_COMMITTED)) /\
     (forall k ch, chunks m !! k = Some ch -> Z.of_nat k ∉ ids -> chunks m' !! k = Some ch) /\ A) ->
    forall k ch, chunks m !! k = Some ch ->
      Z.of_nat k ∉ ids \/ owner ch <> own \/
      (cause = IS_MEMORY_RELEASE_PRESSURE /\ pool ch = IS_MEMORY_POOL_COMMITTED) ->
      chunks m' !! k = Some ch).
  { intros A (H1 & H2 & _) k ch Hk Hc. destruct (decide (Z.of_nat k ∈ ids)) as [Hin|]; [|by apply H2].
    destruct (H1 _ Hin) as (ch' & Hk' & Ho & Hp). rewrite Nat2Z.id, Hk in Hk'. injection Hk' as <-.
    destruct Hc as [|[|[-> Hpc]]]; [done|done|]. by destruct (Hp eq_refl). }
  destruct r; try (split_and!; [by intros; apply Hsame|done|done]).
  - split_and!; [by eapply Hcase| |done]. destruct Hres as (H1 & _ & H3). intros _ id Hin.
    destruct (H1 id Hin) as (ch & Hk & Ho & _). exists ch. split_and!; try done. by apply H3.
  - split_and!; [by eapply Hcase|done|done].
Qed.

(** Disconnecting releases everything the owner had and nothing else:
    after a successful disconnection no chunk belongs to the owner, the
    connections that remain are exactly the others, and in every case the
    chunks of others are untouched. *)
Theorem disconnect_exact w0 m w own m' w' r :
  memory_reachable w0 (m, w) -> is_memory_manager_disconnect m w own = (m', w', r) ->
  (forall k ch, chunks m !! k = Some ch -> owner ch <> own -> chunks m' !! k = Some ch) /\
  (r = IS_MEMORY_OK ->
     (forall k ch, chunks m' !! k = Some ch -> owner ch <> own) /\
     exists c, conn_owner c = own /\
       identity <$> connections m ≡ₚ identity c :: (identity <$> connections m')).
Proof.
  intros Hr E. pose proof (memory_reachable_good _ _ Hr) as Hg.
  destruct (disconnect_good _ _ _ _ _ _ _ _ Hg E) as (_ & H1 & H2). split; [done|].
  intros Hok. destruct (H2 Hok) as (_ & H3 & c & H4 & H5). eauto.
Qed.

(** C12.  Reconciliation reaches the number of opportunistic chunks the host
    can spare beyond its reserve: it grows the pool to that target, all or
    nothing and never short of chunk slots, or reclaims free chunks down to it
    as far as assigned and quarantined chunks allow, reporting exactly how
    many assigned chunks are in the way; assigned chunks are not touched. *)
Theorem reconcile_exact w0 m w m' w' r res :
  memory_reachable w0 (m, w) -> is_memory_manager_reconcile m w = (m', w', r, res) ->
  (forall k ch, chunks m !! k = Some ch -> owner ch <> 0 -> chunks m' !! k = Some ch) /\
  let available := (read_available_bytes w).2.2 / IS_MEMORY_CHUNK_BYTES in
  let allocated := allocated_opportunistic_chunks m in
  let target := 0 `max` (max_opportunistic_gib (config m) `min`
                  (available + allocated - host_reserve_gib (config m))) in
  if negb ((read_available_bytes w).2.1 =? 0) then
    r = IS_MEMORY_ACCOUNTING_FAILED /\ unchanged m m'
  else if allocated <? target then
    if decide (r = IS_MEMORY_OK)
    then allocated_opportunistic_chunks m' = target /\ grown_opportunistic_chunks res = target - allocated
    else unchanged m m' /\ r <> IS_MEMORY_POOL_EXHAUSTED
  else r = IS_MEMORY_OK /\
    allocated_opportunistic_chunks m' = target `max` (assigned_opportunistic_chunks m + quarantined_free m) /\
    reclaimed_unassigned_chunks res = allocated - allocated_opportunistic_chunks m' /\
    assigned_reclaim_needed res = 0 `max` (assigned_opportunistic_chunks m - target).
Proof.
  intros Hr E. pose proof (memory_reachable_good _ _ Hr) as Hg.
  destruct (reconcile_good _ _ _ _ _ _ _ _ Hg E) as (_ & _ & H1 & H2). split; [|exact H2].
  intros k ch Hk Ho. apply H1; auto.
Qed.

(** ** Destruction *)

Lemma owns_cons B R c cs w :
  owns B R (c :: cs) w <->
  owns (fun a => B a + b2n (at_address a c))%nat (fun g r => R g r + b2n (at_registration g r c))%nat cs w.
Proof.
  unfold owns, count. cbn [sum_list_with]. split; (intros [H1 H2]; split; intros; [rewrite H1 by done|rewrite H2 by done]; lia).
Qed.

Lemma destroy_registrations_spec cs B R w cs' w' failed :
  owns B R cs w -> destroy_registrations cs w = (cs', w', failed) ->
  owns B R cs' w' /\ address <$> cs' = address <$> cs /\
  (failed = false -> Forall (fun c => registration c = 0 /\ owner c = 0) cs').
Proof.
  revert B R w cs' w' failed. induction cs as [|c cs IH]; intros B R w cs' w' failed Hown; cbn [destroy_registrations].
  { intros [= <- <- <-]. by split_and!. }
  destruct (deregister_if_registered c w) as [w1 ok] eqn:Ed.
  pose proof (deregister_chunk_spec B R (c :: cs) w 0 c w1 ok Hown eq_refl Ed) as Hd.
  destruct (destroy_registrations cs w1) as [[cs2 w2] f2] eqn:E. intros [= <- <- <-].
  set (c' := if ok then c <| registration := 0 |> <| owner := 0 |> else c).
  assert (Hown1 : owns B R (c' :: cs) w1).
  { unfold c'. destruct ok.
    - destruct Hd as [Hd _]. cbn in Hd. apply owns_cons. apply owns_cons in Hd. exact Hd.
    - destruct Hd as [H1 H2]. by eapply owns_ext. }
  apply owns_cons in Hown1. destruct (IH _ _ _ _ _ _ Hown1 E) as (F1 & F2 & F3). split_and!.
  - by apply owns_cons.
  - cbn [fmap list_fmap]. rewrite F2. unfold c'. by destruct ok.
  - intros [Hok Hf]%orb_false_iff. apply negb_false_iff in Hok. constructor; [|auto].
    unfold c'. by rewrite Hok.
Qed.

Lemma destroy_addresses_spec cs B R w :
  owns B R cs w -> owns B R ((fun c => c <| address := 0 |>) <$> cs) (destroy_addresses cs w).
Proof.
  revert B R w. induction cs as [|c cs IH]; intros B R w Hown; [done|]. cbn [destroy_addresses fmap list_fmap].
  apply owns_cons. apply IH. destruct (Z.eqb_spec (address c) 0) as [Ha|Ha]; cbn [negb].
  - apply owns_cons in Hown. destruct Hown as [H1 H2]. split; [|done]. intros a Hz. rewrite H1 by done.
    cbn -[Z.eqb b2n]. by rewrite Ha.
  - pose proof (owns_address B R _ _ 0 c Hown eq_refl Ha) as Hpos. destruct (release_ok _ _ Hpos) as [F1 F2].
    apply owns_cons in Hown. destruct Hown as [H1 H2]. split; [|intros g r Hr; rewrite F1; by apply H2].
    intros a Hz. specialize (F2 a). rewrite H1 in F2 by done. cbn -[Z.eqb b2n] in F2 |- *.
    rewrite (proj2 (Z.eqb_neq 0 a)) by congruence. cbn [b2n]. lia.
Qed.

Lemma destroy_good B R m w m' w' r :
  good B R m w -> is_memory_manager_destroy m w = (m', w', r) ->
  match m' with
  | None => r = IS_MEMORY_OK /\ (forall a, a <> 0 -> blocks w' a = B a) /\
      (forall g rg, rg <> 0 -> regs w' g rg = R g rg)
  | Some m' => r = IS_MEMORY_CLEANUP_FAILED /\ healthy m' = false /\
      owns B R (chunks m') w' /\ address <$> chunks m' = address <$> chunks m
  end.
Proof.
  intros [Hm Hown].
  unfold is_memory_manager_destroy. destruct (destroy_registrations (chunks m) w) as [[cs w1] failed] eqn:E.
  apply (destroy_registrations_spec _ B R) in E as (F1 & F2 & F3); [|done].
  destruct failed; intros [= <- <- <-]; [by split_and!|]. specialize (F3 eq_refl).
  destruct (destroy_addresses_spec _ _ _ _ F1) as [H1 H2]. cbn [chunks update]. split_and!; [done| |].
  - intros a Ha. rewrite H1 by done. rewrite count_zero; [lia|].
    intros c (x & -> & _)%list_elem_of_fmap. cbn -[Z.eqb]. apply Z.eqb_neq. congruence.
  - intros g rg Hrg. rewrite H2 by done. rewrite count_zero; [lia|].
    intros c (x & -> & Hx)%list_elem_of_fmap. cbn -[Z.eqb]. rewrite Forall_forall in F3.
    apply list_elem_of_In in Hx. destruct (F3 x Hx) as [-> _]. apply andb_false_intro2, Z.eqb_neq. congruence.
Qed.

(** C13.  Destruction gives everything back: a successful destruction leaves
    exactly the blocks and registrations that were there before the manager
    was created, whatever was assigned or in quarantine; a failed one keeps
    the manager, which still holds exactly the blocks of all its chunks and
    the registrations that could not be undone. *)
Theorem destroy_returns_everything w0 m w m' w' r :
  memory_reachable w0 (m, w) -> is_memory_manager_destroy m w = (m', w', r) ->
  match m' with
  | None => r = IS_MEMORY_OK /\ (forall a, a <> 0 -> blocks w' a = blocks w0 a) /\
      (forall g rg, rg <> 0 -> regs w' g rg = regs w0 g rg)
  | Some m' => r = IS_MEMORY_CLEANUP_FAILED /\ healthy m' = false /\
      owns (blocks w0) (regs w0) (chunks m') w' /\ address <$> chunks m' = address <$> chunks m
  end.
Proof.
  intros Hr Hd. apply (destroy_good _ _ _ _ _ _ _ (memory_reachable_good _ _ Hr) Hd).
Qed.
End with_laws.

(** ** A concrete run

    A host with 12 GiB, a reserve of 2, one Consumer with two connections. *)
Module Example.
Import Host.
Definition cfg : is_memory_manager_config :=
  {| host_reserve_gib := 2; max_opportunistic_gib := 4; max_committed_gib := 2 |}.
Definition fresh_host (failures : list bool) : host :=
  {| bytes_available := 12 * IS_MEMORY_CHUNK_BYTES; next_id := 0; host_blocks := []; host_regs := [];
     fails := failures |}.
Definition no_manager : is_memory_manager :=
  {| config := cfg; chunks := []; connections := []; connection_capacity := 0;
     allocated_opportunistic_chunks := 0; assigned_opportunistic_chunks := 0;
     allocated_committed_chunks := 0; assigned_committed_chunks := 0; quarantined_chunks := 0;
     admissions := 0; rejections := 0; pressure_reclaims := 0;
     last_rejection := IS_MEMORY_REJECTION_NONE; healthy := true |}.
Definition created (failures : list bool) : is_memory_manager * host :=
  match is_memory_manager_create cfg 0 (fresh_host failures) with
  | (w, Some m) => (m, w)
  | (w, None) => (no_manager, w)
  end.
Definition connected (failures : list bool) : is_memory_manager * host :=
  let '(m, w) := created failures in
  let '(m, w, _, _) := is_memory_manager_connect m w [99; 49] 7 2 3 1 in (m, w).
(** Two opportunistic chunks, then one committed chunk. *)
Definition acquired_two (failures : list bool) : is_memory_manager * host :=
  let '(m, w) := connected failures in
  let o := is_memory_manager_acquire m w 7 IS_MEMORY_POOL_OPPORTUNISTIC 2 9 2 in
  (out_manager o, out_world o).
Definition acquired (failures : list bool) : is_memory_manager * host :=
  let '(m, w) := acquired_two failures in
  let o := is_memory_manager_acquire m w 7 IS_MEMORY_POOL_COMMITTED 1 9 1 in
  (out_manager o, out_world o).

Lemma reachable_two : memory_reachable (fresh_host []) (acquired_two []).
Proof.
  eapply memory_stepped with (connected []).
  - eapply memory_stepped with (created []).
    + apply (memory_created _ cfg 0 (created []).2 (created []).1); by vm_compute; split.
    + apply (step_connect (created []).1 (created []).2 [99; 49] 7 2 3 1 (connected []).1 (connected []).2
        IS_MEMORY_OK IS_MEMORY_REJECTION_NONE); by vm_compute; split.
  - apply (step_acquire (connected []).1 (connected []).2 7 IS_MEMORY_POOL_OPPORTUNISTIC 2 9 2).
    by vm_compute.
Defined.

Lemma reachable : memory_reachable (fresh_host []) (acquired []).
Proof.
  eapply memory_stepped with (acquired_two []); [exact reachable_two|].
  apply (step_acquire (acquired_two []).1 (acquired_two []).2 7 IS_MEMORY_POOL_COMMITTED 1 9 1).
  by vm_compute.
Defined.

Lemma host_reliable : reliable (W := host).
Proof. by constructor. Defined.
End Example.
Import Host.

Lemma memory_manager_invariant_witness : manager_inv (Example.acquired []).1.
Proof.
  exact (proj1 (memory_manager_invariant (Example.fresh_host []) (Example.acquired []).1
    (Example.acquired []).2 Example.reachable)).
Defined.

Lemma acquire_atomic_witness :
  let o := is_memory_manager_acquire (Example.acquired_two []).1 (Example.acquired_two []).2
    7 IS_MEMORY_POOL_COMMITTED 1 9 1 in
  out_result o = IS_MEMORY_OK /\ length (out_grants o) = 1%nat /\
  (forall k, Z.of_nat k ∉ provider_chunk_id <$> out_grants o ->
     chunks (out_manager o) !! k = chunks (Example.acquired_two []).1 !! k).
Proof.
  pose proof (acquire_atomic (Example.fresh_host []) (Example.acquired_two []).1
    (Example.acquired_two []).2 7 IS_MEMORY_POOL_COMMITTED 1 9 1 Example.reachable_two) as H.
  specialize (H ltac:(vm_compute; split; done)). cbv zeta in H |- *.
  assert (Hres : out_result (is_memory_manager_acquire (Example.acquired_two []).1
    (Example.acquired_two []).2 7 IS_MEMORY_POOL_COMMITTED 1 9 1) = IS_MEMORY_OK) by (vm_compute; reflexivity).
  rewrite Hres in H. destruct H as (H1 & _ & _ & H4). split; [exact Hres|split; [lia|exact H4]].
Defined.

Lemma acquire_keeps_reserve_witness :
  reserve_kept (Example.connected []).1 (heap (Example.connected []).2).1 2.
Proof.
  assert (Hr : memory_reachable (Example.fresh_host []) ((Example.connected []).1, (Example.connected []).2)).
  { eapply memory_stepped with (Example.created []).
    - apply (memory_created _ Example.cfg 0 (Example.created []).2 (Example.created []).1);
        by vm_compute; split.
    - apply (step_connect (Example.created []).1 (Example.created []).2 [99; 49] 7 2 3 1
        (Example.connected []).1 (Example.connected []).2 IS_MEMORY_OK IS_MEMORY_REJECTION_NONE);
        by vm_compute; split. }
  pose proof (acquire_keeps_reserve (Example.fresh_host []) _ _ 7 IS_MEMORY_POOL_OPPORTUNISTIC 2 9 2 Hr
    ltac:(vm_compute; split; done) ltac:(vm_compute; reflexivity)) as [_ H].
  exact H.
Defined.

Lemma status_honest_witness :
  out_result (is_memory_manager_acquire (Example.acquired_two []).1 (Example.acquired_two []).2
    7 IS_MEMORY_POOL_OPPORTUNISTIC 1 9 1) = IS_MEMORY_OK.
Proof.
  eapply (status_honest (Example.fresh_host []) (Example.acquired_two []).1 (Example.acquired_two []).2
    7 IS_MEMORY_POOL_OPPORTUNISTIC 1 9 1 _ _ (12 * IS_MEMORY_CHUNK_BYTES)
    Example.reachable_two Example.host_reliable); [done|by left|vm_compute; reflexivity|
    vm_compute; reflexivity|vm_compute; reflexivity|vm_compute; done|done].
Defined.

(** Under pressure the committed chunk 2 stays. *)
Lemma release_exact_witness :
  let r := is_memory_manager_release (Example.acquired []).1 (Example.acquired []).2 7 [2]
             IS_MEMORY_RELEASE_PRESSURE in
  r.2 = IS_MEMORY_COMMITTED_PROTECTED /\ unchanged (Example.acquired []).1 r.1.1.
Proof.
  intros r. pose proof (release_exact (Example.fresh_host []) (Example.acquired []).1
    (Example.acquired []).2 7 [2] IS_MEMORY_RELEASE_PRESSURE r.1.1 r.1.2 r.2 Example.reachable
    ltac:(constructor; [vm_compute; split; done|constructor]) ltac:(vm_compute; reflexivity)) as (_ & _ & H).
  split; [vm_compute; reflexivity|]. apply H; vm_compute; discriminate.
Defined.

Lemma disconnect_exact_witness :
  let r := is_memory_manager_disconnect (Example.acquired []).1 (Example.acquired []).2 7 in
  r.2 = IS_MEMORY_OK /\ (forall k ch, chunks r.1.1 !! k = Some ch -> owner ch <> 7).
Proof.
  intros r. pose proof (disconnect_exact (Example.fresh_host []) (Example.acquired []).1
    (Example.acquired []).2 7 r.1.1 r.1.2 r.2 Example.reachable ltac:(vm_compute; reflexivity)) as (_ & H).
  assert (Hr : r.2 = IS_MEMORY_OK) by (vm_compute; reflexivity).
  split; [exact Hr|exact (proj1 (H Hr))].
Defined.

Lemma reconcile_exact_witness :
  let r := is_memory_manager_reconcile (Example.acquired []).1 (Example.acquired []).2 in
  chunks r.1.1.1 !! 0%nat = chunks (Example.acquired []).1 !! 0%nat /\
  default 0 (owner <$> chunks r.1.1.1 !! 0%nat) = 7.
Proof.
  intros r. pose proof (proj1 (reconcile_exact (Example.fresh_host []) (Example.acquired []).1
    (Example.acquired []).2 r.1.1.1 r.1.1.2 r.1.2 r.2 Example.reachable ltac:(vm_compute; reflexivity)) 0%nat) as H.
  destruct (chunks (Example.acquired []).1 !! 0%nat) as [ch|] eqn:Ech; [|vm_compute in Ech; discriminate].
  assert (Ho : owner ch = 7) by (vm_compute in Ech; injection Ech as <-; reflexivity).
  pose proof (H ch eq_refl ltac:(rewrite Ho; discriminate)) as H1.
  split; [exact H1|rewrite H1; exact Ho].
Defined.

Lemma destroy_returns_everything_witness :
  let r := is_memory_manager_destroy (Example.acquired []).1 (Example.acquired []).2 in
  r.2 = IS_MEMORY_OK /\ forall a, a <> 0 -> blocks r.1.2 a = 0%nat.
Proof.
  intros r. pose proof (destroy_returns_everything (Example.fresh_host []) (Example.acquired []).1
    (Example.acquired []).2 None r.1.2 r.2 Example.reachable ltac:(vm_compute; reflexivity)) as (H1 & H2 & _).
  split; [exact H1|exact H2].
Defined.

(** After a failed destruction the manager is still in use but its
    counters are not those of its chunks: with two chunks assigned, a failed
    deregistration of the first clears the owner of the second and leaves both
    counted as assigned. *)
Theorem failed_destroy_drifts :
  let '(m, w) := Example.acquired_two [true] in
  match is_memory_manager_destroy m w with
  | (Some m', _, r) => r = IS_MEMORY_CLEANUP_FAILED /\
      assigned_opportunistic_chunks m' = 2 /\
      count (assigned_in IS_MEMORY_POOL_OPPORTUNISTIC) (chunks m') = 1%nat /\
      conn_assigned_opportunistic_chunks <$> connections m' = [2]
  | _ => False
  end.
Proof. vm_compute. done. Qed.

(** * Who owns a chunk

    What each operation of the memory manager does to the owners of the
    chunks, for the clients that keep their own view of them. *)

Definition chunk_owner (m : is_memory_manager) (k : nat) : Z := default 0 (owner <$> chunks m !! k).

(** Chunks may lose the owner [own]; no other owner changes. *)
Definition only_frees (own : Z) (m m' : is_memory_manager) : Prop :=
  forall k, chunk_owner m' k = chunk_owner m k \/ (chunk_owner m k = own /\ chunk_owner m' k = 0).

Lemma owner_ext m m' : chunks m' = chunks m -> forall k, chunk_owner m' k = chunk_owner m k.
Proof. intros E k. unfold chunk_owner. by rewrite E. Qed.

Lemma releases_only_frees own m m' : releases own m m' -> only_frees own m m'.
Proof.
  intros [_ _ H3 H4] k. unfold chunk_owner.
  destruct (chunks m !! k) as [ch|] eqn:E.
  - destruct (decide (owner ch = own)) as [Ho|Ho]; [|left; by rewrite (H3 _ _ E Ho)].
    destruct (chunks m' !! k) as [ch'|] eqn:E'; [|by right].
    destruct (H4 _ _ E') as [H|H]; [left; congruence|right; by split].
  - destruct (chunks m' !! k) as [ch'|] eqn:E'; [|by left].
    destruct (H4 _ _ E') as [H|H]; [congruence|left; cbn; by rewrite H].
Qed.

(** [own] is given the chunks [ids], which were free. *)
Record gives (own : Z) (ids : list Z) (m m' : is_memory_manager) : Prop := {
  gv_distinct : NoDup ids;
  gv_range : Forall (fun i => 0 <= i < 128) ids;
  gv_free : forall k, Z.of_nat k ∈ ids -> chunk_owner m k = 0;
  gv_owner : forall k, chunk_owner m' k = if decide (Z.of_nat k ∈ ids) then own else chunk_owner m k
}.

Lemma gives_none own m m' : (forall k, chunk_owner m' k = chunk_owner m k) -> gives own [] m m'.
Proof.
  intros Hsame. constructor; [constructor|constructor| |].
  - intros k Hk. by apply elem_of_nil in Hk.
  - intros k. rewrite decide_False; [done|]. apply not_elem_of_nil.
Qed.

Lemma gives_assigned own requested reg ps m m' :
  (length (chunks m) <= 128)%nat -> pends_ok (chunks m) requested ps ->
  chunks m' = put_all (changes requested own reg ps) (chunks m) ->
  gives own (Z.of_nat <$> (p_index <$> ps)) m m'.
Proof.
  intros Hlen [Hnd Hok] Hcs. rewrite list.Forall_forall in Hok.
  assert (Hrep : replaces (chunks m) (fun ky => default empty_chunk (chunks m !! ky.1))
    (changes requested own reg ps)).
  { split; unfold changes; [by rewrite <- list_fmap_compose|]. intros ky (p & -> & Hp)%list_elem_of_fmap.
    cbn. by rewrite (pd_lookup _ _ _ (Hok p Hp)). }
  assert (Hin : forall k, Z.of_nat k ∈ Z.of_nat <$> (p_index <$> ps) <-> k ∈ p_index <$> ps).
  { intros k. rewrite list_elem_of_fmap. split; [intros (x & E & Hx)|eauto]. by apply Nat2Z.inj in E as ->. }
  constructor.
  - apply NoDup_fmap_2; [typeclasses eauto|done].
  - rewrite list.Forall_forall. intros i (k & -> & (p & -> & Hp)%list_elem_of_fmap)%list_elem_of_fmap.
    pose proof (lookup_lt_Some _ _ _ (pd_lookup _ _ _ (Hok p Hp))). lia.
  - intros k (p & -> & Hp)%Hin%list_elem_of_fmap. unfold chunk_owner.
    rewrite (pd_lookup _ _ _ (Hok p Hp)). apply pend_old_owner.
  - intros k. unfold chunk_owner. rewrite Hcs. destruct (decide _) as [Hk|Hk].
    + apply Hin, list_elem_of_fmap in Hk as (p & -> & Hp).
      rewrite (lookup_put_all _ _ _ _ (assigned_from requested own reg p) Hrep); [done|].
      unfold changes. by apply (list_elem_of_fmap_2 (fun p => (p_index p, assigned_from requested own reg p))).
    + rewrite lookup_put_all_ne; [done|]. unfold changes. rewrite <- list_fmap_compose.
      intros Hk'. apply Hk, Hin. exact Hk'.
Qed.

Section Owners.
Context {W : Type} `{laws : MemoryAdapterLaws W} (B : Z -> nat) (R : Z -> Z -> nat).

(** An acquisition gives [own] free chunks, those of the grants. *)
Lemma acquire_owners m w own requested n reg capacity :
  good B R m w -> 0 <= n ->
  let o := is_memory_manager_acquire m w own requested n reg capacity in
  let ids := provider_chunk_id <$> out_grants o in
  good B R (out_manager o) (out_world o) /\
  identity <$> connections (out_manager o) = identity <$> connections m /\
  gives own ids m (out_manager o) /\
  (out_result o = IS_MEMORY_OK -> Z.of_nat (length ids) = n) /\
  (out_result o <> IS_MEMORY_OK -> out_grants o = []).
Proof.
  intros Hg Hn o ids. destruct (acquire_good B R m w own requested n reg capacity Hg Hn)
    as (fresh & (Hg' & _ & Hid & Hpost) & _). fold o in Hg', Hid, Hpost. do 2 (split; [done|]).
  destruct (decide (out_result o = IS_MEMORY_OK)) as [Hr|Hr].
  - rewrite Hr in Hpost. destruct Hpost as (ps & reg' & Hps & Hlen & _ & _ & Hgr & Hcs).
    assert (Hids : ids = Z.of_nat <$> (p_index <$> ps)).
    { unfold ids. rewrite Hgr, <- !list_fmap_compose. done. }
    rewrite Hids. split_and!; [|by rewrite !length_fmap|done].
    eapply gives_assigned; [by apply chunk_capacity_small, Hg|done|done].
  - assert (Hs : out_grants o = [] /\ forall k, chunk_owner (out_manager o) k = chunk_owner m k).
    { destruct (out_result o); try done;
        try (destruct Hpost as [Hnil (_ & Hcs & _)]; split; [done|by apply owner_ext]).
      destruct Hpost as (Hnil & ps & _ & (_ & _ & Q3 & Q4) & Q5). split; [done|]. intros k. unfold chunk_owner.
      destruct (decide (k ∈ p_index <$> ps)) as [Hk|Hk]; [|by rewrite Q3].
      destruct (chunks m !! k) as [ch|] eqn:E1, (chunks (out_manager o) !! k) as [ch'|] eqn:E2; cbn;
        rewrite ?(Q4 _ _ Hk E2), ?(Q5 _ _ Hk E1); done. }
    destruct Hs as [Hnil Hsame]. unfold ids. rewrite Hnil. split_and!; [by apply gives_none|done|done].
Qed.

Lemma owner_of_id m i ch : 0 <= i -> chunks m !! Z.to_nat i = Some ch -> chunk_owner m (Z.to_nat i) = owner ch.
Proof. intros Hi Hk. unfold chunk_owner. by rewrite Hk. Qed.

(** A release frees chunks of [own]: exactly the listed ones when it
    succeeds. *)
Lemma release_owners m w own ids cause m' w' r :
  good B R m w -> Forall is_u32 ids ->
  is_memory_manager_release m w own ids cause = (m', w', r) ->
  good B R m' w' /\ identity <$> connections m' = identity <$> connections m /\
  only_frees own m m' /\
  (r = IS_MEMORY_OK -> forall k, chunk_owner m' k =
     if decide (Z.of_nat k ∈ ids) then 0 else chunk_owner m k) /\
  (r <> IS_MEMORY_OK -> r <> IS_MEMORY_CLEANUP_FAILED -> chunks m' = chunks m).
Proof.
  intros Hg Hu Hrun. pose proof (release_good B R m w own ids cause m' w' r Hg Hu Hrun) as (Hg' & _ & Hid & Hpost).
  assert (Hof : only_frees own m m' /\ (r = IS_MEMORY_OK \/ r = IS_MEMORY_CLEANUP_FAILED \/ chunks m' = chunks m)).
  { unfold is_memory_manager_release in Hrun.
    assert (Href : only_frees own m m) by (by left).
    destruct ((own =? 0) || _ || _); [by injection Hrun as <- <- <-; auto|].
    destruct (find_connection m own) as [i|] eqn:Ef; [|by injection Hrun as <- <- <-; auto].
    destruct (find_connection_spec _ _ _ Ef) as (c & Hi & Ho).
    pose proof (check_release_spec m own cause [] ids) as Hc.
    destruct (check_release m own cause [] ids) as [[m1 r1]|].
    - injection Hrun as <- <- <-. destruct Hc as [_ [-> | ->]]; [by auto|].
      pose proof (reject_fields m IS_MEMORY_REJECTION_COMMITTED_PROTECTED) as (_ & E2 & _).
      split; [intros k; left; by apply owner_ext|auto].
    - destruct Hc as (H1 & H2 & _). rewrite list.Forall_forall in Hu.
      apply (release_listed_good B R) with (c := c) in Hrun as (_ & F2 & F3 & _); try done.
      + split; [rewrite <- Ho; by apply releases_only_frees|]. destruct F3; auto.
      + intros id Hin. destruct (H1 id Hin) as (ch & Hk & Hoc & _). split; [|exists ch; by rewrite Ho].
        by destruct (Hu id Hin). }
  destruct Hof as [Hof Hcase]. split_and!; [done|done|done| |naive_solver].
  intros -> k. destruct Hpost as (P1 & P2 & P3). specialize (P3 eq_refl). destruct (decide _) as [Hk|Hk].
  - destruct (P1 _ Hk) as (ch & Hl & _). pose proof (P3 _ _ Hk Hl) as Hl'.
    rewrite Nat2Z.id in Hl'. unfold chunk_owner. rewrite Hl'. cbn. unfold released. by destruct (_ || _).
  - destruct (chunks m !! k) as [ch|] eqn:E.
    + unfold chunk_owner. by rewrite E, (P2 _ _ E Hk).
    + destruct (Hof k) as [|[_ H]]; [done|]. rewrite H. unfold chunk_owner. by rewrite E.
Qed.

Lemma disconnect_owners m w own m' w' r :
  good B R m w -> is_memory_manager_disconnect m w own = (m', w', r) ->
  good B R m' w' /\ only_frees own m m'.
Proof.
  intros Hg Hrun. split; [by apply (disconnect_good B R) in Hrun as [? _]|].
  unfold is_memory_manager_disconnect in Hrun.
  destruct (Z.eqb_spec own 0) as [|Hz]; [injection Hrun as <- <- <-; by left|].
  destruct (find_connection m own) as [i|] eqn:Ef; [|injection Hrun as <- <- <-; by left].
  destruct (find_connection_spec _ _ _ Ef) as (c & Hi & Ho). unfold disconnect_locked in Hrun. rewrite Hi in Hrun.
  destruct (release_owned m w i (conn_owner c) _) as [[m1 w1] r1] eqn:E.
  apply (release_owned_good B R) in E as (_ & Hrel & _ & _); [|done|done|].
  2: { intros k Hk%elem_of_seq. lia. }
  rewrite Ho in Hrel. apply releases_only_frees in Hrel.
  case_decide; injection Hrun as <- <- <-; exact Hrel.
Qed.

(** After a disconnection the manager does not know [own]; it learns of no
    one. *)
Lemma disconnect_connections m w own m' w' r :
  good B R m w -> is_memory_manager_disconnect m w own = (m', w', r) ->
  (forall o, o ∈ conn_owner <$> connections m' -> o ∈ conn_owner <$> connections m) /\
  (r = IS_MEMORY_OK \/ r = IS_MEMORY_NOT_CONNECTED -> own ∉ conn_owner <$> connections m').
Proof.
  intros Hg Hrun. pose proof (disconnect_good B R m w own m' w' r Hg Hrun) as (_ & _ & Hok).
  assert (Hperm : r = IS_MEMORY_OK -> conn_owner <$> connections m ≡ₚ own :: (conn_owner <$> connections m')).
  { intros Hr. destruct (Hok Hr) as (_ & _ & c & Hp & Hc). rewrite <- Hc.
    assert (Hmap : forall l : list is_memory_connection, conn_owner <$> l =
      (fun x : list Z * Z * (Z * Z * Z) => x.1.2) <$> (identity <$> l)).
    { intros l. rewrite <- list_fmap_compose. done. }
    rewrite !Hmap, Hp. done. }
  destruct (decide (r = IS_MEMORY_OK)) as [Hr|Hr].
  - specialize (Hperm Hr). split.
    + intros o Ho. rewrite Hperm. by constructor.
    + intros _. pose proof (cs_nodup _ _ (m_connections _ (proj1 Hg))) as Hnd.
      rewrite Hperm in Hnd. by apply list.NoDup_cons in Hnd as [? _].
  - unfold is_memory_manager_disconnect in Hrun.
    destruct (own =? 0); [injection Hrun as <- <- <-; split; [done|by intros [?|?]]|].
    destruct (find_connection m own) as [i|] eqn:Ef.
    + destruct (find_connection_spec _ _ _ Ef) as (c & Hi & Ho). unfold disconnect_locked in Hrun. rewrite Hi in Hrun.
      destruct (release_owned m w i (conn_owner c) _) as [[m1 w1] r1] eqn:E.
      apply (release_owned_good B R) in E as (_ & Hrel & Hres & _); [|done|done|].
      2: { intros k Hk%elem_of_seq. lia. }
      case_decide; injection Hrun as <- <- <-; [done|]. split; [|destruct Hres as [-> | ->]; by intros [?|?]].
      intros o (x & -> & Hx)%list_elem_of_fmap. pose proof (l_identity _ _ _ Hrel) as Hid.
      assert (Hin : identity x ∈ identity <$> connections m) by (rewrite <- Hid; by apply list_elem_of_fmap_2).
      apply list_elem_of_fmap in Hin as (y & Hy & Hin). apply list_elem_of_fmap. exists y. split; [|done].
      unfold identity in Hy. congruence.
    + injection Hrun as <- <- <-. split; [done|]. intros _ (x & Hx & Hin)%list_elem_of_fmap.
      by apply (find_connection_none _ _ Ef x Hin).
Qed.

(** Reconciliation with the host gives no chunk an owner. *)
Definition owners_drop (m m' : is_memory_manager) : Prop :=
  forall k, chunk_owner m' k = chunk_owner m k \/ chunk_owner m' k = 0.

Lemma owners_drop_trans m1 m2 m3 : owners_drop m1 m2 -> owners_drop m2 m3 -> owners_drop m1 m3.
Proof. intros H1 H2 k. destruct (H1 k), (H2 k); [left|right|right|right]; congruence. Qed.

Lemma owners_drop_set m k ch :
  owner ch = 0 \/ owner ch = chunk_owner m k -> owners_drop m (set_chunk m k ch).
Proof.
  intros Ho j. unfold chunk_owner, set_chunk in *. cbn.
  destruct (decide (j = k)) as [->|Hne]; [|left; by rewrite list_lookup_insert_ne].
  destruct (decide (k < length (chunks m))%nat) as [Hk|Hk].
  - rewrite list_lookup_insert_eq by done. cbn. destruct Ho; auto.
  - rewrite list_insert_ge by lia. by left.
Qed.

Lemma adopt_pending_owners ps m : owners_drop m (adopt_pending m ps).
Proof.
  revert m. induction ps as [|p ps IH]; intros m; [by left|]. cbn [adopt_pending].
  eapply owners_drop_trans; [|apply IH]. apply owners_drop_set. right. cbn. unfold chunk_owner.
  by destruct (chunks m !! p_index p).
Qed.

Lemma reclaim_unassigned_owners ks m w reclaimed n : owners_drop m (reclaim_unassigned m w reclaimed n ks).1.1.
Proof.
  revert m w reclaimed n. induction ks as [|k ks IH]; intros m w reclaimed n; [by left|].
  cbn [reclaim_unassigned]. destruct (n =? 0); [by left|]. destruct (chunks m !! k) as [ch|]; [|by left].
  destruct (reclaimable ch); [|apply IH]. eapply owners_drop_trans; [|apply IH].
  intros j. apply (owners_drop_set m k empty_chunk). by left.
Qed.

Lemma reconcile_owners m w m' w' r res :
  good B R m w -> is_memory_manager_reconcile m w = (m', w', r, res) ->
  good B R m' w' /\ forall k, chunk_owner m' k = chunk_owner m k.
Proof.
  intros Hg Hrun. pose proof (reconcile_good B R m w m' w' r res Hg Hrun) as (Hg' & _ & Hkeep & _).
  split; [done|]. assert (Hd : owners_drop m m').
  { unfold is_memory_manager_reconcile in Hrun. destruct (read_available_bytes w) as [w1 [st bytes]].
    assert (Hrej : forall reason, owners_drop m (reject m reason)).
    { intros reason k. left. apply owner_ext, reject_fields. }
    destruct (negb (st =? 0)); [by injection Hrun as <- <- <- <-|]. destruct (_ <? _).
    - destruct (allocate_unassigned_opportunistic_locked _ _ _) as [[m1 w2] r1] eqn:E.
      injection Hrun as <- <- <- <-. unfold allocate_unassigned_opportunistic_locked in E.
      destruct (_ =? 0); [injection E as <- <- <-; by left|]. destruct (heap w1) as [w3 ok].
      destruct (negb ok); [by injection E as <- <- <-|].
      destruct (negb _); [by injection E as <- <- <-|].
      destruct (allocate_pending _ _) as [[w4 ps] [[r2 reason]|]]; [by injection E as <- <- <-|].
      injection E as <- <- <-. apply (adopt_pending_owners ps m).
    - destruct (reclaim_unassigned _ _ _ _ _) as [[m1 w2] n] eqn:E. injection Hrun as <- <- <- <-.
      pose proof (reclaim_unassigned_owners (seq 0 (length (chunks m))) m w1 0
        (u32 (allocated_opportunistic_chunks m - (if reconcile_target m bytes <? assigned_opportunistic_chunks m
           then assigned_opportunistic_chunks m else reconcile_target m bytes)))) as Hr.
      rewrite E in Hr. exact Hr. }
  intros k. destruct (Hd k) as [|H0]; [done|]. rewrite H0. unfold chunk_owner in *.
  destruct (chunks m !! k) as [ch|] eqn:E; [|done]. cbn.
  destruct (decide (owner ch = 0)) as [|Hne]; [done|].
  rewrite (Hkeep _ _ E (or_introl Hne)) in H0. by cbn in H0.
Qed.
End Owners.
