(* ===== verification/RemoteChunkData.v ===== *)
(** * Remote chunks: the data of infiniswap_bd/is_remote_chunk.h and .c

    Constants, enumerations and structures of the remote chunk module.  An
    enumeration whose values the code validates is a [Z], one it only produces
    is inductive.  The caller-owned claims and leases are opaque 64-byte
    unions into which the code copies a structure of exactly 64 bytes; they
    are that structure here, all zeroes before their first use.  A field
    carries a prefix for its structure. *)
From S2P Require Import Prelude.

Definition IS_REMOTE_CHUNK_MAX_CHUNKS : Z := 128.
Definition IS_REMOTE_CHUNK_MAX_PROVIDERS : Z := 64.
Definition IS_REMOTE_CHUNK_PROVIDER_ID_MAX : Z := 63.
Definition IS_REMOTE_CHUNK_PLACEMENT_WEIGHT_MIN : Z := 1.
Definition IS_REMOTE_CHUNK_PLACEMENT_WEIGHT_MAX : Z := 1000.
Definition IS_REMOTE_CHUNK_HOT_WEIGHT_MAX : Z := 1000000.
Definition IS_REMOTE_CHUNK_SECTOR_BYTES : Z := 512.
Definition IS_REMOTE_CHUNK_SECTORS_PER_CHUNK : Z := 2097152.
Definition IS_REMOTE_CHUNK_ID_MAX : Z := 18446744073709551615.
Definition IS_REMOTE_CHUNK_CLAIM_MAGIC : Z := 0x49534348434c4149.
Definition IS_REMOTE_CHUNK_EVICTION_MAGIC : Z := 0x4953434845564943.
Definition IS_REMOTE_CHUNK_LEASE_MAGIC : Z := 0x495343484c454153.
Definition IS_REMOTE_CHUNK_ACTIVITY_MAX : Z := 9223372036854775807.
Definition IS_REMOTE_CHUNK_DIGEST_OFFSET : Z := 1469598103934665603.
Definition IS_REMOTE_CHUNK_DIGEST_PRIME : Z := 1099511628211.
Definition IS_REMOTE_CHUNK_BITS_PER_WORD : Z := 64.
Definition IS_REMOTE_CHUNK_LEASE_RESOLVED : Z := 1.
Definition IS_REMOTE_CHUNK_LEASE_RELEASED : Z := 2.
Definition IS_REMOTE_CHUNK_U32_MAX : Z := 4294967295.

Definition IS_REMOTE_CHUNK_MODE_BACKED : Z := 1.
Definition IS_REMOTE_CHUNK_MODE_REMOTE_ONLY : Z := 2.

Definition IS_REMOTE_CHUNK_ACTIVITY_READ : Z := 1.
Definition IS_REMOTE_CHUNK_ACTIVITY_WRITE : Z := 2.

Definition IS_REMOTE_CHUNK_IO_READ : Z := 1.
Definition IS_REMOTE_CHUNK_IO_WRITE : Z := 2.

Definition IS_REMOTE_CHUNK_IO_SUCCESS : Z := 1.
Definition IS_REMOTE_CHUNK_IO_FAILURE : Z := 2.
Definition IS_REMOTE_CHUNK_IO_CANCELLED : Z := 3.
Definition IS_REMOTE_CHUNK_IO_SUBMISSION_FAILURE : Z := 4.

Definition IS_REMOTE_CHUNK_MAPPING_POOL_OPPORTUNISTIC : Z := 1.
Definition IS_REMOTE_CHUNK_MAPPING_POOL_COMMITTED : Z := 2.

Definition IS_REMOTE_CHUNK_MAPPING_FINISH_COMMIT : Z := 1.
Definition IS_REMOTE_CHUNK_MAPPING_FINISH_ABORT : Z := 2.

Definition IS_REMOTE_CHUNK_PROVIDER_EXCLUDE_NONE : Z := 0.
Definition IS_REMOTE_CHUNK_PROVIDER_EXCLUDE_UNHEALTHY : Z := 1.
Definition IS_REMOTE_CHUNK_PROVIDER_EXCLUDE_ZERO_CAPACITY : Z := 7.

Inductive is_remote_chunk_io_resolve_result :=
| IS_REMOTE_CHUNK_IO_RESOLVE_NONE
| IS_REMOTE_CHUNK_IO_RESOLVE_CURRENT
| IS_REMOTE_CHUNK_IO_RESOLVE_STALE.

Inductive is_remote_chunk_invariant_event :=
| IS_REMOTE_CHUNK_INVARIANT_NONE
| IS_REMOTE_CHUNK_INVARIANT_LEASE_RELEASE_BEFORE_RESOLVE
| IS_REMOTE_CHUNK_INVARIANT_LEASE_DUPLICATE_RESOLVE
| IS_REMOTE_CHUNK_INVARIANT_LEASE_DUPLICATE_RELEASE
| IS_REMOTE_CHUNK_INVARIANT_EVICTION_FINISH_ACTIVE_LEASES
| IS_REMOTE_CHUNK_INVARIANT_MODULE_DUPLICATE_QUIESCE
| IS_REMOTE_CHUNK_INVARIANT_MODULE_DESTROY_ACTIVE.

Inductive is_remote_chunk_next_mapping_result :=
| IS_REMOTE_CHUNK_NEXT_MAPPING_REQUEST
| IS_REMOTE_CHUNK_NEXT_MAPPING_NO_HOT_RANGE
| IS_REMOTE_CHUNK_NEXT_MAPPING_PENDING_PROVIDER_FACTS
| IS_REMOTE_CHUNK_NEXT_MAPPING_NO_ELIGIBLE_CAPACITY
| IS_REMOTE_CHUNK_NEXT_MAPPING_INSUFFICIENT_CAPACITY
| IS_REMOTE_CHUNK_NEXT_MAPPING_COMPLETE
| IS_REMOTE_CHUNK_NEXT_MAPPING_CLAIM_ACTIVE
| IS_REMOTE_CHUNK_NEXT_MAPPING_SHUTDOWN
| IS_REMOTE_CHUNK_NEXT_MAPPING_INVALID_INPUT.

Inductive is_remote_chunk_mapping_finish_result :=
| IS_REMOTE_CHUNK_MAPPING_FINISH_COMMITTED
| IS_REMOTE_CHUNK_MAPPING_FINISH_ABORTED
| IS_REMOTE_CHUNK_MAPPING_FINISH_DUPLICATE
| IS_REMOTE_CHUNK_MAPPING_FINISH_STALE
| IS_REMOTE_CHUNK_MAPPING_FINISH_CONFLICT
| IS_REMOTE_CHUNK_MAPPING_FINISH_INVALID
| IS_REMOTE_CHUNK_MAPPING_FINISH_INVALID_GRANT
| IS_REMOTE_CHUNK_MAPPING_FINISH_EXHAUSTED
| IS_REMOTE_CHUNK_MAPPING_FINISH_SHUTDOWN.

Inductive is_remote_chunk_provider_observation_result :=
| IS_REMOTE_CHUNK_PROVIDER_OBSERVATION_APPLIED
| IS_REMOTE_CHUNK_PROVIDER_OBSERVATION_STALE
| IS_REMOTE_CHUNK_PROVIDER_OBSERVATION_DUPLICATE
| IS_REMOTE_CHUNK_PROVIDER_OBSERVATION_CONFLICT
| IS_REMOTE_CHUNK_PROVIDER_OBSERVATION_INVALID
| IS_REMOTE_CHUNK_PROVIDER_OBSERVATION_STALE_EPOCH
| IS_REMOTE_CHUNK_PROVIDER_OBSERVATION_SHUTDOWN.

Inductive is_remote_chunk_provider_failure_result :=
| IS_REMOTE_CHUNK_PROVIDER_FAILURE_APPLIED
| IS_REMOTE_CHUNK_PROVIDER_FAILURE_DUPLICATE
| IS_REMOTE_CHUNK_PROVIDER_FAILURE_STALE_EPOCH
| IS_REMOTE_CHUNK_PROVIDER_FAILURE_INVALID
| IS_REMOTE_CHUNK_PROVIDER_FAILURE_EXHAUSTED.

Inductive is_remote_chunk_state :=
| IS_REMOTE_CHUNK_UNMAPPED
| IS_REMOTE_CHUNK_MAPPING
| IS_REMOTE_CHUNK_MAPPED
| IS_REMOTE_CHUNK_EVICTING.

Inductive is_remote_chunk_mapping_terminal_action :=
| IS_REMOTE_CHUNK_MAPPING_TERMINAL_NONE
| IS_REMOTE_CHUNK_MAPPING_TERMINAL_COMMIT
| IS_REMOTE_CHUNK_MAPPING_TERMINAL_ABORT
| IS_REMOTE_CHUNK_MAPPING_TERMINAL_PROVIDER_FAILURE.

#[export] Instance is_remote_chunk_state_eq_dec : EqDecision is_remote_chunk_state.
Proof. solve_decision. Defined.
#[export] Instance is_remote_chunk_mapping_terminal_action_eq_dec :
  EqDecision is_remote_chunk_mapping_terminal_action.
Proof. solve_decision. Defined.
#[export] Instance is_remote_chunk_mapping_finish_result_eq_dec :
  EqDecision is_remote_chunk_mapping_finish_result.
Proof. solve_decision. Defined.
#[export] Instance is_remote_chunk_provider_failure_result_eq_dec :
  EqDecision is_remote_chunk_provider_failure_result.
Proof. solve_decision. Defined.
#[export] Instance is_remote_chunk_next_mapping_result_eq_dec :
  EqDecision is_remote_chunk_next_mapping_result.
Proof. solve_decision. Defined.
#[export] Instance is_remote_chunk_io_resolve_result_eq_dec :
  EqDecision is_remote_chunk_io_resolve_result.
Proof. solve_decision. Defined.

(** ** Structures *)

Record is_remote_chunk_hot_policy := {
  threshold : Z;
  read_weight : Z;
  write_weight : Z
}.

(** The identifier is the whole character array. *)
Record is_remote_chunk_provider_config := {
  pc_identifier : list Z;
  pc_placement_weight : Z
}.

Record is_remote_chunk_config := {
  cf_mode : Z;
  cf_chunk_count : Z;
  cf_hot_policy : is_remote_chunk_hot_policy;
  cf_providers : option (list is_remote_chunk_provider_config);
  cf_provider_count : Z;
  cf_placement_sample_size : Z;
  cf_placement_seed : Z
}.

Record is_remote_chunk_provider_handle := { opaque0 : Z; opaque1 : Z }.

#[export] Instance is_remote_chunk_provider_handle_eq_dec :
  EqDecision is_remote_chunk_provider_handle.
Proof. solve_decision. Defined.

Definition zero_handle : is_remote_chunk_provider_handle := {| opaque0 := 0; opaque1 := 0 |}.

Record is_remote_chunk_io_request := {
  rq_direction : Z;
  rq_sector : Z;
  rq_bytes : Z
}.

Record is_remote_chunk_transport_mapping := {
  tm_provider : is_remote_chunk_provider_handle;
  tm_remote_address : Z;
  tm_remote_key : Z;
  tm_provider_chunk : Z;
  tm_logical_chunk : Z
}.

Definition zero_transport_mapping : is_remote_chunk_transport_mapping :=
  {| tm_provider := zero_handle; tm_remote_address := 0; tm_remote_key := 0;
     tm_provider_chunk := 0; tm_logical_chunk := 0 |}.

Record is_remote_chunk_mapping_grant := {
  gr_logical_chunk : Z;
  gr_provider_chunk : Z;
  gr_remote_address : Z;
  gr_remote_key : Z
}.

Definition zero_grant : is_remote_chunk_mapping_grant :=
  {| gr_logical_chunk := 0; gr_provider_chunk := 0; gr_remote_address := 0; gr_remote_key := 0 |}.

Record is_remote_chunk_provider_activity := {
  pa_provider_chunk : Z;
  pa_activity : Z
}.

Record is_remote_chunk_provider_observation := {
  ob_sequence : Z;
  ob_available_chunks : Z;
  ob_exclusion : Z;
  ob_placement_eligible : bool
}.

Record is_remote_chunk_provider_failure_facts := {
  ff_affected_chunks : Z;
  ff_assigned_chunks : Z;
  ff_usable_chunks : Z;
  ff_mapping_chunks : Z;
  ff_evicting_chunks : Z;
  ff_active_io_leases : Z
}.

Definition zero_facts : is_remote_chunk_provider_failure_facts :=
  {| ff_affected_chunks := 0; ff_assigned_chunks := 0; ff_usable_chunks := 0;
     ff_mapping_chunks := 0; ff_evicting_chunks := 0; ff_active_io_leases := 0 |}.

Record is_remote_chunk := {
  ck_state : is_remote_chunk_state;
  ck_provider : is_remote_chunk_provider_handle;
  ck_provider_chunk : Z;
  ck_remote_address : Z;
  ck_remote_key : Z;
  ck_activity : Z;
  ck_mapping_generation : Z;
  ck_mapping_claim_id : Z;
  ck_eviction_claim_id : Z;
  ck_transition_generation : Z;
  ck_active_io_leases : Z
}.

Definition zero_chunk : is_remote_chunk :=
  {| ck_state := IS_REMOTE_CHUNK_UNMAPPED; ck_provider := zero_handle; ck_provider_chunk := 0;
     ck_remote_address := 0; ck_remote_key := 0; ck_activity := 0; ck_mapping_generation := 0;
     ck_mapping_claim_id := 0; ck_eviction_claim_id := 0; ck_transition_generation := 0;
     ck_active_io_leases := 0 |}.

Record is_remote_chunk_provider := {
  pr_handle : is_remote_chunk_provider_handle;
  pr_failure_facts : is_remote_chunk_provider_failure_facts;
  pr_identifier : list Z;
  pr_placement_weight : Z;
  pr_reported_available_chunks : Z;
  pr_observation_assigned_chunks : Z;
  pr_observation_debited_chunks : Z;
  pr_observation_sequence : Z;
  pr_exclusion : Z;
  pr_placement_eligible : bool;
  pr_has_observation : bool;
  pr_failed : bool
}.

Definition zero_provider : is_remote_chunk_provider :=
  {| pr_handle := zero_handle; pr_failure_facts := zero_facts; pr_identifier := [];
     pr_placement_weight := 0; pr_reported_available_chunks := 0;
     pr_observation_assigned_chunks := 0; pr_observation_debited_chunks := 0;
     pr_observation_sequence := 0; pr_exclusion := 0; pr_placement_eligible := false;
     pr_has_observation := false; pr_failed := false |}.

Record is_remote_chunk_mapping_claim_internal := {
  mc_magic : Z;
  mc_module_identity : Z;
  mc_provider : is_remote_chunk_provider_handle;
  mc_claim_id : Z;
  mc_transition_generation : Z;
  mc_batch_digest : Z;
  mc_chunk_count : Z;
  mc_capacity_debit : Z
}.

Definition zero_mapping_claim : is_remote_chunk_mapping_claim_internal :=
  {| mc_magic := 0; mc_module_identity := 0; mc_provider := zero_handle; mc_claim_id := 0;
     mc_transition_generation := 0; mc_batch_digest := 0; mc_chunk_count := 0;
     mc_capacity_debit := 0 |}.

Record is_remote_chunk_eviction_claim_internal := {
  ec_magic : Z;
  ec_module_identity : Z;
  ec_provider : is_remote_chunk_provider_handle;
  ec_claim_id : Z;
  ec_transition_generation : Z;
  ec_batch_digest : Z;
  ec_chunk_count : Z
}.

Definition zero_eviction_claim : is_remote_chunk_eviction_claim_internal :=
  {| ec_magic := 0; ec_module_identity := 0; ec_provider := zero_handle; ec_claim_id := 0;
     ec_transition_generation := 0; ec_batch_digest := 0; ec_chunk_count := 0 |}.

Record is_remote_chunk_io_lease_internal := {
  ls_magic : Z;
  ls_module_identity : Z;
  ls_storage_identity : Z;
  ls_lease_id : Z;
  ls_mapping_generation : Z;
  ls_sector : Z;
  ls_sector_count : Z;
  ls_logical_chunk : Z;
  ls_direction : Z;
  ls_state : Z
}.

Definition zero_lease : is_remote_chunk_io_lease_internal :=
  {| ls_magic := 0; ls_module_identity := 0; ls_storage_identity := 0; ls_lease_id := 0;
     ls_mapping_generation := 0; ls_sector := 0; ls_sector_count := 0; ls_logical_chunk := 0;
     ls_direction := 0; ls_state := 0 |}.

Record is_remote_chunk_mapping_request := {
  mr_provider : is_remote_chunk_provider_handle;
  mr_pool : Z;
  mr_logical_chunk : Z;
  mr_claim : is_remote_chunk_mapping_claim_internal
}.

(** The lock and the wait queue have no fields: an operation is one atomic
    step.  [valid_sectors] is the zero-allocated array of 64-bit words; a word
    never written reads 0. *)
Record is_remote_chunk_module := {
  chunks : list is_remote_chunk;
  providers : list is_remote_chunk_provider;
  placement_candidate_indices : list Z;
  placement_sample_indices : list Z;
  valid_sectors : gmap Z Z;
  mode : Z;
  chunk_count : Z;
  provider_count : Z;
  placement_sample_size : Z;
  placement_seed : Z;
  placement_rng_state : Z;
  hot_policy : is_remote_chunk_hot_policy;
  identity : Z;
  next_mapping_claim_id : Z;
  next_eviction_claim_id : Z;
  next_transition_generation : Z;
  next_mapping_generation : Z;
  next_io_lease_id : Z;
  invariant_count : Z;
  active_mapping_claim : is_remote_chunk_mapping_claim_internal;
  last_mapping_terminal_claim : is_remote_chunk_mapping_claim_internal;
  last_mapping_terminal_action : is_remote_chunk_mapping_terminal_action;
  latest_invariant : is_remote_chunk_invariant_event;
  active_mapping_claims : Z;
  active_eviction_claims : Z;
  active_eviction_waits : Z;
  active_io_leases : Z;
  assigned_chunks : Z;
  usable_chunks : Z;
  quiescing : bool
}.

#[export] Instance is_remote_chunk_eta : Eta is_remote_chunk := fun c =>
  {| ck_state := ck_state c; ck_provider := ck_provider c; ck_provider_chunk :=
     ck_provider_chunk c; ck_remote_address := ck_remote_address c; ck_remote_key :=
     ck_remote_key c; ck_activity := ck_activity c; ck_mapping_generation :=
     ck_mapping_generation c; ck_mapping_claim_id := ck_mapping_claim_id c; ck_eviction_claim_id
     := ck_eviction_claim_id c; ck_transition_generation := ck_transition_generation c;
     ck_active_io_leases := ck_active_io_leases c |}.
#[export] Instance is_remote_chunk_provider_eta : Eta is_remote_chunk_provider := fun p =>
  {| pr_handle := pr_handle p; pr_failure_facts := pr_failure_facts p; pr_identifier :=
     pr_identifier p; pr_placement_weight := pr_placement_weight p; pr_reported_available_chunks
     := pr_reported_available_chunks p; pr_observation_assigned_chunks :=
     pr_observation_assigned_chunks p; pr_observation_debited_chunks :=
     pr_observation_debited_chunks p; pr_observation_sequence := pr_observation_sequence p;
     pr_exclusion := pr_exclusion p; pr_placement_eligible := pr_placement_eligible p;
     pr_has_observation := pr_has_observation p; pr_failed := pr_failed p |}.
#[export] Instance is_remote_chunk_io_lease_internal_eta : Eta is_remote_chunk_io_lease_internal := fun l =>
  {| ls_magic := ls_magic l; ls_module_identity := ls_module_identity l; ls_storage_identity :=
     ls_storage_identity l; ls_lease_id := ls_lease_id l; ls_mapping_generation :=
     ls_mapping_generation l; ls_sector := ls_sector l; ls_sector_count := ls_sector_count l;
     ls_logical_chunk := ls_logical_chunk l; ls_direction := ls_direction l; ls_state :=
     ls_state l |}.
#[export] Instance is_remote_chunk_provider_failure_facts_eta : Eta is_remote_chunk_provider_failure_facts := fun f =>
  {| ff_affected_chunks := ff_affected_chunks f; ff_assigned_chunks := ff_assigned_chunks f;
     ff_usable_chunks := ff_usable_chunks f; ff_mapping_chunks := ff_mapping_chunks f;
     ff_evicting_chunks := ff_evicting_chunks f; ff_active_io_leases := ff_active_io_leases f
     |}.
#[export] Instance is_remote_chunk_module_eta : Eta is_remote_chunk_module := fun m =>
  {| chunks := chunks m; providers := providers m; placement_candidate_indices :=
     placement_candidate_indices m; placement_sample_indices := placement_sample_indices m;
     valid_sectors := valid_sectors m; mode := mode m; chunk_count := chunk_count m;
     provider_count := provider_count m; placement_sample_size := placement_sample_size m;
     placement_seed := placement_seed m; placement_rng_state := placement_rng_state m;
     hot_policy := hot_policy m; identity := identity m; next_mapping_claim_id :=
     next_mapping_claim_id m; next_eviction_claim_id := next_eviction_claim_id m;
     next_transition_generation := next_transition_generation m; next_mapping_generation :=
     next_mapping_generation m; next_io_lease_id := next_io_lease_id m; invariant_count :=
     invariant_count m; active_mapping_claim := active_mapping_claim m;
     last_mapping_terminal_claim := last_mapping_terminal_claim m; last_mapping_terminal_action
     := last_mapping_terminal_action m; latest_invariant := latest_invariant m;
     active_mapping_claims := active_mapping_claims m; active_eviction_claims :=
     active_eviction_claims m; active_eviction_waits := active_eviction_waits m;
     active_io_leases := active_io_leases m; assigned_chunks := assigned_chunks m; usable_chunks
     := usable_chunks m; quiescing := quiescing m |}.
