(* ===== verification/RemoteChunk.v ===== *)
(** * Remote chunks: the operations of infiniswap_bd/is_remote_chunk.c

    One definition per function.  Every entry point holds the module's lock
    from its first to its last access of the module, so it is a function from
    the module to the module and its result; the sleep in
    [is_remote_chunk_eviction_wait], which drops the lock, splits that
    function in atomic parts.  An [int] status is a [Z], 0 or a negated error
    number.  The module and the output pointers are never NULL here; an input
    pointer that may be NULL is an [option].  *)
From S2P Require Import Prelude RemoteChunkData.

(** ** Validation of the configuration *)

Definition is_remote_chunk_mode_valid (md : Z) : bool :=
  (md =? IS_REMOTE_CHUNK_MODE_BACKED) || (md =? IS_REMOTE_CHUNK_MODE_REMOTE_ONLY).

Definition is_remote_chunk_hot_policy_valid (policy : option is_remote_chunk_hot_policy) : bool :=
  match policy with
  | None => false
  | Some policy =>
      negb (threshold policy =? 0) &&
      (threshold policy <=? IS_REMOTE_CHUNK_ACTIVITY_MAX) &&
      negb (read_weight policy =? 0) &&
      (read_weight policy <=? IS_REMOTE_CHUNK_HOT_WEIGHT_MAX) &&
      negb (write_weight policy =? 0) &&
      (write_weight policy <=? IS_REMOTE_CHUNK_HOT_WEIGHT_MAX)
  end.

Definition is_remote_chunk_identifier_character_valid (character : Z) (first : bool) : bool :=
  let alpha_numeric := ((97 <=? character) && (character <=? 122)) ||
                       ((65 <=? character) && (character <=? 90)) ||
                       ((48 <=? character) && (character <=? 57)) in
  alpha_numeric ||
  (negb first && ((character =? 46) || (character =? 95) || (character =? 45))).

(** The scan of [is_remote_chunk_provider_identifier_valid] from [index], over
    the at most [n] characters left. *)
Fixpoint identifier_scan (n : nat) (index : Z) (identifier : list Z) : bool :=
  match n with
  | O => false
  | S n' =>
      let character := byte_at identifier index in
      if character =? 0 then true
      else if negb (is_remote_chunk_identifier_character_valid character (index =? 0)) then false
      else identifier_scan n' (index + 1) identifier
  end.

Definition is_remote_chunk_provider_identifier_valid (identifier : list Z) : bool :=
  if byte_at identifier 0 =? 0 then false
  else identifier_scan (Z.to_nat (IS_REMOTE_CHUNK_PROVIDER_ID_MAX + 1)) 0 identifier.

Definition provider_config_at (l : list is_remote_chunk_provider_config) (i : Z) :
    is_remote_chunk_provider_config :=
  nth (Z.to_nat i) l {| pc_identifier := []; pc_placement_weight := 0 |}.

Definition is_remote_chunk_roster_validate (config : is_remote_chunk_config) : Z :=
  if (IS_REMOTE_CHUNK_MAX_PROVIDERS <? cf_provider_count config) ||
     (negb (cf_provider_count config =? 0) && bool_decide (cf_providers config = None))
  then - EINVAL
  else if (cf_placement_sample_size config =? 0) ||
          (IS_REMOTE_CHUNK_MAX_PROVIDERS <? cf_placement_sample_size config)
  then - ERANGE
  else if cf_provider_count config =? 0 then
    if cf_mode config =? IS_REMOTE_CHUNK_MODE_REMOTE_ONLY then - EINVAL else 0
  else if cf_provider_count config <? cf_placement_sample_size config then - ERANGE
  else
    let roster := default [] (cf_providers config) in
    match for_err (Z.to_nat (cf_provider_count config)) 0 (fun index (_ : unit) =>
      let provider := provider_config_at roster index in
      if negb (is_remote_chunk_provider_identifier_valid (pc_identifier provider))
      then inl (- EINVAL)
      else if (pc_placement_weight provider <? IS_REMOTE_CHUNK_PLACEMENT_WEIGHT_MIN) ||
              (IS_REMOTE_CHUNK_PLACEMENT_WEIGHT_MAX <? pc_placement_weight provider)
      then inl (- ERANGE)
      else if exists_below index (fun previous =>
                bool_decide (c_string (pc_identifier (provider_config_at roster previous)) =
                             c_string (pc_identifier provider)))
      then inl (- EINVAL)
      else inr tt) tt
    with inl e => e | inr _ => 0 end.

(** ** Provider handles *)

Definition is_remote_chunk_provider_handle_equal
    (left right : is_remote_chunk_provider_handle) : bool :=
  (opaque0 left =? opaque0 right) && (opaque1 left =? opaque1 right).

Definition is_remote_chunk_provider_handle_well_formed
    (provider : is_remote_chunk_provider_handle) : bool :=
  negb (opaque0 provider =? 0) && negb (opaque1 provider =? 0).

Definition provider_at (m : is_remote_chunk_module) (i : Z) : is_remote_chunk_provider :=
  nth (Z.to_nat i) (providers m) zero_provider.

Definition chunk_at (m : is_remote_chunk_module) (i : Z) : is_remote_chunk :=
  nth (Z.to_nat i) (chunks m) zero_chunk.

Definition set_chunk (m : is_remote_chunk_module) (i : Z) (c : is_remote_chunk) :
    is_remote_chunk_module :=
  m <| chunks := set_at (chunks m) i c |>.

Definition set_provider (m : is_remote_chunk_module) (i : Z) (p : is_remote_chunk_provider) :
    is_remote_chunk_module :=
  m <| providers := set_at (providers m) i p |>.

(** The index, or [inl] the status. *)
Definition is_remote_chunk_provider_roster_index_locked (m : is_remote_chunk_module)
    (provider : is_remote_chunk_provider_handle) : Z + Z :=
  match find_below (provider_count m) (fun index =>
    is_remote_chunk_provider_handle_equal (pr_handle (provider_at m index)) provider)
  with
  | Some index => inr index
  | None => inl (- ESTALE)
  end.

Definition is_remote_chunk_provider_index_locked (m : is_remote_chunk_module)
    (provider : is_remote_chunk_provider_handle) : Z + Z :=
  let! index := is_remote_chunk_provider_roster_index_locked m provider in
  if pr_failed (provider_at m index) then inl (- ESTALE) else inr index.

Definition is_remote_chunk_provider_valid_locked (m : is_remote_chunk_module)
    (provider : is_remote_chunk_provider_handle) : bool :=
  match is_remote_chunk_provider_index_locked m provider with inr _ => true | inl _ => false end.

(** ** Batches of chunks

    [selected] is the local array [bool selected[IS_REMOTE_CHUNK_MAX_CHUNKS]]. *)

Definition no_chunk_selected : list bool :=
  replicate (Z.to_nat IS_REMOTE_CHUNK_MAX_CHUNKS) false.

Definition selected_at (selected : list bool) (i : Z) : bool := nth (Z.to_nat i) selected false.

Definition is_remote_chunk_batch_digest (selected : list bool) (count : Z) : Z :=
  for_loop (Z.to_nat count) 0 (fun index digest =>
    if negb (selected_at selected index) then digest
    else u64 (Z.lxor digest (index + 1) * IS_REMOTE_CHUNK_DIGEST_PRIME))
    IS_REMOTE_CHUNK_DIGEST_OFFSET.

(** ** Sector validity *)

(** [~x] and [1 << n] on [unsigned long]. *)
Definition not_ulong (x : Z) : Z := Z.lxor x (Z.ones 64).

Definition is_remote_chunk_low_bits (bit_count : Z) : Z :=
  if IS_REMOTE_CHUNK_BITS_PER_WORD <=? bit_count then not_ulong 0
  else u64 (u64 (Z.shiftl 1 bit_count) - 1).

Definition is_remote_chunk_word_range_mask (first_bit last_bit : Z) : Z :=
  Z.land (is_remote_chunk_low_bits last_bit) (not_ulong (is_remote_chunk_low_bits first_bit)).

Inductive is_remote_chunk_validity_operation :=
| IS_REMOTE_CHUNK_VALIDITY_TEST
| IS_REMOTE_CHUNK_VALIDITY_CLEAR
| IS_REMOTE_CHUNK_VALIDITY_SET.

Definition word_of (validity : gmap Z Z) (word : Z) : Z := default 0 (validity !! word).

(** The loop of [is_remote_chunk_validity_apply] over [n] words from [word];
    [inl] is the early [return false]. *)
Fixpoint validity_words (n : nat) (word first_sector last_sector : Z)
    (operation : is_remote_chunk_validity_operation) (validity : gmap Z Z) :
    gmap Z Z * bool :=
  match n with
  | O => (validity, true)
  | S n' =>
      let word_first := u64 (word * IS_REMOTE_CHUNK_BITS_PER_WORD) in
      let first_bit := if word_first <? first_sector
                       then u32 (u64 (first_sector - word_first)) else 0 in
      let last_bit := if last_sector <? u64 (word_first + IS_REMOTE_CHUNK_BITS_PER_WORD)
                      then u32 (u64 (last_sector - word_first))
                      else IS_REMOTE_CHUNK_BITS_PER_WORD in
      let mask := is_remote_chunk_word_range_mask first_bit last_bit in
      match operation with
      | IS_REMOTE_CHUNK_VALIDITY_TEST =>
          if negb (Z.land (word_of validity word) mask =? mask) then (validity, false)
          else validity_words n' (word + 1) first_sector last_sector operation validity
      | IS_REMOTE_CHUNK_VALIDITY_SET =>
          validity_words n' (word + 1) first_sector last_sector operation
            (<[word := Z.lor (word_of validity word) mask]> validity)
      | IS_REMOTE_CHUNK_VALIDITY_CLEAR =>
          validity_words n' (word + 1) first_sector last_sector operation
            (<[word := Z.land (word_of validity word) (not_ulong mask)]> validity)
      end
  end.

Definition is_remote_chunk_validity_apply (validity : gmap Z Z) (first_sector sector_count : Z)
    (operation : is_remote_chunk_validity_operation) : gmap Z Z * bool :=
  let last_sector := u64 (first_sector + sector_count) in
  let first_word := first_sector / IS_REMOTE_CHUNK_BITS_PER_WORD in
  let last_word := u64 (last_sector - 1) / IS_REMOTE_CHUNK_BITS_PER_WORD in
  validity_words (Z.to_nat (last_word - first_word + 1)) first_word first_sector last_sector
    operation validity.

Definition is_remote_chunk_validity_update (validity : gmap Z Z)
    (first_sector sector_count : Z) (valid : bool) : gmap Z Z :=
  (is_remote_chunk_validity_apply validity first_sector sector_count
     (if valid then IS_REMOTE_CHUNK_VALIDITY_SET else IS_REMOTE_CHUNK_VALIDITY_CLEAR)).1.

Definition is_remote_chunk_validity_test (validity : gmap Z Z)
    (first_sector sector_count : Z) : bool :=
  (is_remote_chunk_validity_apply validity first_sector sector_count
     IS_REMOTE_CHUNK_VALIDITY_TEST).2.

(** ** Claims and leases *)

Definition is_remote_chunk_claim_decode
    (claim : option is_remote_chunk_mapping_claim_internal) : is_remote_chunk_mapping_claim_internal :=
  default zero_mapping_claim claim.

Definition is_remote_chunk_eviction_claim_decode
    (claim : option is_remote_chunk_eviction_claim_internal) : is_remote_chunk_eviction_claim_internal :=
  default zero_eviction_claim claim.

(** [lease] is the address of the caller's storage, the value
    [is_remote_chunk_lease_storage_identity] gives. *)
Definition is_remote_chunk_lease_validate_locked (m : is_remote_chunk_module) (lease : Z)
    (internal : is_remote_chunk_io_lease_internal) : Z :=
  if negb (ls_magic internal =? IS_REMOTE_CHUNK_LEASE_MAGIC) ||
     (ls_lease_id internal =? 0) || (ls_mapping_generation internal =? 0) ||
     (ls_sector_count internal =? 0) ||
     negb (ls_storage_identity internal =? lease)
  then - EINVAL
  else if negb (ls_module_identity internal =? identity m) then - ESTALE
  else if (next_io_lease_id m <? ls_lease_id internal) ||
          (next_mapping_generation m <? ls_mapping_generation internal) ||
          (chunk_count m <=? ls_logical_chunk internal) ||
          negb (ls_sector internal / IS_REMOTE_CHUNK_SECTORS_PER_CHUNK =?
                ls_logical_chunk internal) ||
          (IS_REMOTE_CHUNK_SECTORS_PER_CHUNK -
             ls_sector internal mod IS_REMOTE_CHUNK_SECTORS_PER_CHUNK <?
           ls_sector_count internal) ||
          (negb (ls_direction internal =? IS_REMOTE_CHUNK_IO_READ) &&
           negb (ls_direction internal =? IS_REMOTE_CHUNK_IO_WRITE)) ||
          negb (Z.ldiff (ls_state internal)
                  (Z.lor IS_REMOTE_CHUNK_LEASE_RESOLVED IS_REMOTE_CHUNK_LEASE_RELEASED) =? 0) ||
          (negb (Z.land (ls_state internal) IS_REMOTE_CHUNK_LEASE_RELEASED =? 0) &&
           (Z.land (ls_state internal) IS_REMOTE_CHUNK_LEASE_RESOLVED =? 0))
  then - EINVAL
  else 0.

Definition is_remote_chunk_note_invariant_locked (m : is_remote_chunk_module)
    (event : is_remote_chunk_invariant_event) : is_remote_chunk_module :=
  (if negb (invariant_count m =? IS_REMOTE_CHUNK_ID_MAX)
   then m <| invariant_count := u64 (invariant_count m + 1) |> else m)
    <| latest_invariant := event |>.

Definition is_remote_chunk_mapping_claim_well_formed
    (claim : is_remote_chunk_mapping_claim_internal) : bool :=
  (mc_magic claim =? IS_REMOTE_CHUNK_CLAIM_MAGIC) &&
  negb (mc_module_identity claim =? 0) &&
  is_remote_chunk_provider_handle_well_formed (mc_provider claim) &&
  negb (mc_claim_id claim =? 0) && negb (mc_transition_generation claim =? 0) &&
  negb (mc_chunk_count claim =? 0) &&
  (mc_capacity_debit claim =? mc_chunk_count claim).

Definition is_remote_chunk_mapping_claim_equal
    (left right : is_remote_chunk_mapping_claim_internal) : bool :=
  (mc_magic left =? mc_magic right) &&
  (mc_module_identity left =? mc_module_identity right) &&
  is_remote_chunk_provider_handle_equal (mc_provider left) (mc_provider right) &&
  (mc_claim_id left =? mc_claim_id right) &&
  (mc_transition_generation left =? mc_transition_generation right) &&
  (mc_batch_digest left =? mc_batch_digest right) &&
  (mc_chunk_count left =? mc_chunk_count right) &&
  (mc_capacity_debit left =? mc_capacity_debit right).

(** The loop both claim validations share: it visits the chunks that carry the
    claim, leaves when one of them is not in the claimed transition, and
    otherwise gives their set and their number. *)
Definition claim_members (m : is_remote_chunk_module) (member : is_remote_chunk -> bool)
    (in_transition : is_remote_chunk -> bool) : option (list bool * Z) :=
  match for_err (Z.to_nat (chunk_count m)) 0 (fun index '(selected, member_count) =>
    let chunk := chunk_at m index in
    if negb (member chunk) then inr (selected, member_count)
    else if negb (in_transition chunk) then inl tt
    else inr (set_at selected index true, u32 (member_count + 1))) (no_chunk_selected, 0)
  with
  | inl _ => None
  | inr r => Some r
  end.

Definition is_remote_chunk_mapping_claim_active_locked (m : is_remote_chunk_module)
    (claim : is_remote_chunk_mapping_claim_internal) : bool :=
  if negb (is_remote_chunk_mapping_claim_equal claim (active_mapping_claim m)) ||
     negb (is_remote_chunk_provider_valid_locked m (mc_provider claim)) ||
     (chunk_count m <? mc_chunk_count claim)
  then false
  else
    match claim_members m
      (fun chunk => ck_mapping_claim_id chunk =? mc_claim_id claim)
      (fun chunk => bool_decide (ck_state chunk = IS_REMOTE_CHUNK_MAPPING) &&
         (ck_transition_generation chunk =? mc_transition_generation claim) &&
         is_remote_chunk_provider_handle_equal (ck_provider chunk) (mc_provider claim))
    with
    | None => false
    | Some (selected, member_count) =>
        (member_count =? mc_chunk_count claim) &&
        (is_remote_chunk_batch_digest selected (chunk_count m) =? mc_batch_digest claim)
    end.

Definition is_remote_chunk_eviction_claim_validate_locked (m : is_remote_chunk_module)
    (claim : is_remote_chunk_eviction_claim_internal) : Z :=
  if negb (ec_magic claim =? IS_REMOTE_CHUNK_EVICTION_MAGIC) || (ec_claim_id claim =? 0) ||
     (ec_transition_generation claim =? 0) || (ec_chunk_count claim =? 0)
  then - EINVAL
  else if negb (ec_module_identity claim =? identity m) then - ESTALE
  else if negb (is_remote_chunk_provider_valid_locked m (ec_provider claim)) then - ESTALE
  else if chunk_count m <? ec_chunk_count claim then - EINVAL
  else
    match claim_members m
      (fun chunk => ck_eviction_claim_id chunk =? ec_claim_id claim)
      (fun chunk => bool_decide (ck_state chunk = IS_REMOTE_CHUNK_EVICTING) &&
         (ck_transition_generation chunk =? ec_transition_generation claim) &&
         is_remote_chunk_provider_handle_equal (ck_provider chunk) (ec_provider claim))
    with
    | None => - ESTALE
    | Some (selected, member_count) =>
        if negb (member_count =? ec_chunk_count claim) ||
           negb (is_remote_chunk_batch_digest selected (chunk_count m) =? ec_batch_digest claim)
        then - ESTALE else 0
    end.

Definition is_remote_chunk_eviction_claim_active_locked (m : is_remote_chunk_module)
    (claim : option is_remote_chunk_eviction_claim_internal) : bool :=
  is_remote_chunk_eviction_claim_validate_locked m
    (is_remote_chunk_eviction_claim_decode claim) =? 0.

Definition is_remote_chunk_mapping_terminal_supersede_locked (m : is_remote_chunk_module) :
    is_remote_chunk_module :=
  m <| last_mapping_terminal_claim := zero_mapping_claim |>
    <| last_mapping_terminal_action := IS_REMOTE_CHUNK_MAPPING_TERMINAL_NONE |>.

Definition is_remote_chunk_mapping_terminal_record_locked (m : is_remote_chunk_module)
    (claim : is_remote_chunk_mapping_claim_internal)
    (action : is_remote_chunk_mapping_terminal_action) : is_remote_chunk_module :=
  m <| last_mapping_terminal_claim := claim |>
    <| last_mapping_terminal_action := action |>
    <| active_mapping_claim := zero_mapping_claim |>.

Definition is_remote_chunk_mapping_claim_create_locked (m : is_remote_chunk_module)
    (provider : is_remote_chunk_provider_handle) (logical_chunk : Z) :
    is_remote_chunk_module * (Z + is_remote_chunk_mapping_claim_internal) :=
  if quiescing m then (m, inl (- ESHUTDOWN))
  else if negb (is_remote_chunk_provider_valid_locked m provider) then (m, inl (- ESTALE))
  else if negb (active_mapping_claims m =? 0) then (m, inl (- EBUSY))
  else if chunk_count m <=? logical_chunk then (m, inl (- ERANGE))
  else
    let chunk := chunk_at m logical_chunk in
    if negb (bool_decide (ck_state chunk = IS_REMOTE_CHUNK_UNMAPPED)) then (m, inl (- EBUSY))
    else if (next_mapping_claim_id m =? IS_REMOTE_CHUNK_ID_MAX) ||
            (next_transition_generation m =? IS_REMOTE_CHUNK_ID_MAX)
    then (m, inl (- EOVERFLOW))
    else
      let selected := set_at no_chunk_selected logical_chunk true in
      let m := m <| next_mapping_claim_id := u64 (next_mapping_claim_id m + 1) |>
                 <| next_transition_generation := u64 (next_transition_generation m + 1) |> in
      let claim :=
        {| mc_magic := IS_REMOTE_CHUNK_CLAIM_MAGIC;
           mc_module_identity := identity m;
           mc_provider := provider;
           mc_claim_id := next_mapping_claim_id m;
           mc_transition_generation := next_transition_generation m;
           mc_batch_digest := is_remote_chunk_batch_digest selected (chunk_count m);
           mc_chunk_count := 1;
           mc_capacity_debit := 1 |} in
      let m := is_remote_chunk_mapping_terminal_supersede_locked m in
      let m := m <| active_mapping_claim := claim |> in
      let m := set_chunk m logical_chunk
                 (chunk <| ck_state := IS_REMOTE_CHUNK_MAPPING |>
                        <| ck_provider := provider |>
                        <| ck_mapping_claim_id := mc_claim_id claim |>
                        <| ck_transition_generation := mc_transition_generation claim |>) in
      (m <| active_mapping_claims := u32 (active_mapping_claims m + 1) |>, inr claim).

(** ** Creation, quiescing and destruction *)

(** What creation takes from its environment: which allocations succeed, the
    status of the lock and wait queue initialisation, the clock, and the
    counter [is_remote_chunk_next_module_identity]. *)
Record create_environment := {
  allocates_module : bool;
  allocates_chunks : bool;
  allocates_providers : bool;
  allocates_candidate_indices : bool;
  allocates_sample_indices : bool;
  allocates_validity : bool;
  lock_init : Z;
  wait_init : Z;
  monotonic_ns : Z;
  next_module_identity : Z
}.

(** The compare-and-exchange loop as one atomic step: the identity, 0 when the
    counter is exhausted, and the counter it leaves. *)
Definition is_remote_chunk_allocate_module_identity (previous : Z) : Z * Z :=
  if IS_REMOTE_CHUNK_ID_MAX - 1 <=? previous then (0, previous)
  else (u64 (previous + 1), u64 (previous + 1)).

Definition initial_providers (module_identity : Z) (count : Z)
    (roster : list is_remote_chunk_provider_config) : list is_remote_chunk_provider :=
  map (fun index =>
    zero_provider <| pr_handle := {| opaque0 := module_identity; opaque1 := u64 (index + 1) |} |>
                  <| pr_identifier := c_string (pc_identifier (provider_config_at roster index)) |>
                  <| pr_placement_weight :=
                       pc_placement_weight (provider_config_at roster index) |>)
    (seqZ 0 count).

(** The status, the module when it is 0, and the identity counter left behind;
    [handle_capacity] is [None] when the handle output is NULL.  The handles
    published are those of the module's providers. *)
Definition is_remote_chunk_module_create (env : create_environment)
    (config : option is_remote_chunk_config) (handle_capacity : option Z) :
    (Z + is_remote_chunk_module) * Z :=
  let counter := next_module_identity env in
  match config with
  | None => (inl (- EINVAL), counter)
  | Some config =>
    if negb (is_remote_chunk_mode_valid (cf_mode config)) || (cf_chunk_count config =? 0) ||
       (IS_REMOTE_CHUNK_MAX_CHUNKS <? cf_chunk_count config)
    then (inl (- EINVAL), counter)
    else if negb (is_remote_chunk_hot_policy_valid (Some (cf_hot_policy config)))
    then (inl (- ERANGE), counter)
    else
      let status := is_remote_chunk_roster_validate config in
      if negb (status =? 0) then (inl status, counter)
      else if negb (cf_provider_count config =? 0) &&
              match handle_capacity with
              | None => true
              | Some capacity => capacity <? cf_provider_count config
              end
      then (inl (- ENOSPC), counter)
      else if negb (allocates_module env) then (inl (- ENOMEM), counter)
      else if negb (allocates_chunks env) then (inl (- ENOMEM), counter)
      else if negb (cf_provider_count config =? 0) &&
              (negb (allocates_providers env) || negb (allocates_candidate_indices env) ||
               negb (allocates_sample_indices env))
      then (inl (- ENOMEM), counter)
      else if negb (allocates_validity env) then (inl (- ENOMEM), counter)
      else if negb (lock_init env =? 0) then
        (inl (if lock_init env <? 0 then lock_init env else - lock_init env), counter)
      else if negb (wait_init env =? 0) then (inl (wait_init env), counter)
      else
        let '(module_identity, counter) := is_remote_chunk_allocate_module_identity counter in
        if (module_identity =? 0) || (module_identity =? IS_REMOTE_CHUNK_ID_MAX)
        then (inl (- EOVERFLOW), counter)
        else
          let rng := if negb (cf_placement_seed config =? 0) then cf_placement_seed config
                     else Z.lxor module_identity (monotonic_ns env) in
          let rng := if rng =? 0 then module_identity else rng in
          (inr {| chunks := replicate (Z.to_nat (cf_chunk_count config)) zero_chunk;
                  providers := initial_providers module_identity (cf_provider_count config)
                                 (default [] (cf_providers config));
                  placement_candidate_indices := zeros (Z.to_nat (cf_provider_count config));
                  placement_sample_indices := zeros (Z.to_nat (cf_provider_count config));
                  valid_sectors := ∅;
                  mode := cf_mode config;
                  chunk_count := cf_chunk_count config;
                  provider_count := cf_provider_count config;
                  placement_sample_size := cf_placement_sample_size config;
                  placement_seed := cf_placement_seed config;
                  placement_rng_state := rng;
                  hot_policy := cf_hot_policy config;
                  identity := module_identity;
                  next_mapping_claim_id := 0; next_eviction_claim_id := 0;
                  next_transition_generation := 0; next_mapping_generation := 0;
                  next_io_lease_id := 0; invariant_count := 0;
                  active_mapping_claim := zero_mapping_claim;
                  last_mapping_terminal_claim := zero_mapping_claim;
                  last_mapping_terminal_action := IS_REMOTE_CHUNK_MAPPING_TERMINAL_NONE;
                  latest_invariant := IS_REMOTE_CHUNK_INVARIANT_NONE;
                  active_mapping_claims := 0; active_eviction_claims := 0;
                  active_eviction_waits := 0; active_io_leases := 0; assigned_chunks := 0;
                  usable_chunks := 0; quiescing := false |}, counter)
  end.

Definition is_remote_chunk_module_quiesce (m : is_remote_chunk_module) :
    is_remote_chunk_module * Z :=
  if quiescing m then
    (is_remote_chunk_note_invariant_locked m
       IS_REMOTE_CHUNK_INVARIANT_MODULE_DUPLICATE_QUIESCE, - EALREADY)
  else (m <| quiescing := true |>, 0).

(** [None] is the module freed. *)
Definition is_remote_chunk_module_destroy (m : is_remote_chunk_module) :
    option is_remote_chunk_module * Z :=
  let m := m <| quiescing := true |> in
  if negb (active_mapping_claims m =? 0) || negb (active_eviction_claims m =? 0) ||
     negb (active_eviction_waits m =? 0) || negb (active_io_leases m =? 0)
  then (Some (is_remote_chunk_note_invariant_locked m
                IS_REMOTE_CHUNK_INVARIANT_MODULE_DESTROY_ACTIVE), - EBUSY)
  else (None, 0).

(** ** Capacity of a provider *)

(** The chunks assigned to a provider and those being mapped to it. *)
Definition is_remote_chunk_provider_debits_locked (m : is_remote_chunk_module)
    (provider : is_remote_chunk_provider_handle) : Z * Z :=
  for_loop (Z.to_nat (chunk_count m)) 0 (fun index '(assigned, mapping) =>
    let chunk := chunk_at m index in
    if bool_decide (ck_state chunk = IS_REMOTE_CHUNK_UNMAPPED) ||
       negb (is_remote_chunk_provider_handle_equal (ck_provider chunk) provider)
    then (assigned, mapping)
    else if bool_decide (ck_state chunk = IS_REMOTE_CHUNK_MAPPING)
    then (assigned, u32 (mapping + 1))
    else (u32 (assigned + 1), mapping)) (0, 0).

Definition is_remote_chunk_reconcile_available
    (reported_available observed_debits current_debits : Z) : Z :=
  if observed_debits <=? current_debits then
    let new_debits := u32 (current_debits - observed_debits) in
    if new_debits <? reported_available then u32 (reported_available - new_debits) else 0
  else if u32 (IS_REMOTE_CHUNK_U32_MAX - u32 (observed_debits - current_debits)) <?
          reported_available
  then IS_REMOTE_CHUNK_U32_MAX
  else u32 (u32 (reported_available + observed_debits) - current_debits).

Definition is_remote_chunk_provider_effective_available_locked (m : is_remote_chunk_module)
    (provider : is_remote_chunk_provider) : Z :=
  if pr_failed provider || negb (pr_has_observation provider) ||
     negb (pr_placement_eligible provider)
  then 0
  else
    let '(assigned, mapping) :=
      is_remote_chunk_provider_debits_locked m (pr_handle provider) in
    is_remote_chunk_reconcile_available (pr_reported_available_chunks provider)
      (pr_observation_debited_chunks provider) (u32 (assigned + mapping)).

Definition is_remote_chunk_provider_diagnostic_available_locked (m : is_remote_chunk_module)
    (provider : is_remote_chunk_provider) : Z :=
  if pr_failed provider || negb (pr_has_observation provider) ||
     negb (pr_placement_eligible provider)
  then 0
  else
    let '(assigned, _) := is_remote_chunk_provider_debits_locked m (pr_handle provider) in
    is_remote_chunk_reconcile_available (pr_reported_available_chunks provider)
      (pr_observation_assigned_chunks provider) assigned.

(** ** Placement *)

(** The build and the values [get_random_u32] will return; the rejection loop
    of the kernel build without a seed takes values until one is accepted. *)
Record random_environment := {
  kernel_build : bool;
  random_u32 : list Z
}.

Fixpoint random_accept (threshold limit : Z) (values : list Z) : Z * list Z :=
  match values with
  | [] => (0, [])
  | value :: values' =>
      if value <? threshold then random_accept threshold limit values'
      else (value mod limit, values')
  end.

Definition is_remote_chunk_random_below_locked (env : random_environment)
    (m : is_remote_chunk_module) (limit : Z) : random_environment * is_remote_chunk_module * Z :=
  if limit =? 0 then (env, m, 0)
  else if kernel_build env && (placement_seed m =? 0) then
    let '(value, values) := random_accept (u32 (- limit) mod limit) limit (random_u32 env) in
    ({| kernel_build := true; random_u32 := values |}, m, value)
  else
    let m := m <| placement_rng_state :=
      u64 (u64 (placement_rng_state m * 6364136223846793005) + 1) |> in
    (env, m, u32 (Z.shiftr (placement_rng_state m) 33 mod limit)).

Definition candidate_at (m : is_remote_chunk_module) (i : Z) : Z :=
  word_at (placement_candidate_indices m) i.
Definition sample_at (m : is_remote_chunk_module) (i : Z) : Z :=
  word_at (placement_sample_indices m) i.

(** The inner loop that turns a pick below the total weight into an index. *)
Fixpoint weighted_select (m : is_remote_chunk_module) (n : nat) (index cursor pick : Z) : Z :=
  match n with
  | O => 0
  | S n' =>
      let cursor := u32 (cursor + pr_placement_weight (provider_at m (candidate_at m index))) in
      if pick <? cursor then index else weighted_select m n' (index + 1) cursor pick
  end.

Definition candidates_weight (m : is_remote_chunk_module) (remaining_count : Z) : Z :=
  for_loop (Z.to_nat remaining_count) 0 (fun index total_weight =>
    u32 (total_weight + pr_placement_weight (provider_at m (candidate_at m index)))) 0.

(** The sampling loop, [n] draws without replacement. *)
Fixpoint sample_providers (n : nat) (env : random_environment) (m : is_remote_chunk_module)
    (sampled_count remaining_count : Z) : random_environment * is_remote_chunk_module :=
  match n with
  | O => (env, m)
  | S n' =>
      let total_weight := candidates_weight m remaining_count in
      let '(env, m, pick) := is_remote_chunk_random_below_locked env m total_weight in
      let selected := weighted_select m (Z.to_nat remaining_count) 0 0 pick in
      let m := m <| placement_sample_indices :=
        set_at (placement_sample_indices m) sampled_count (candidate_at m selected) |> in
      let m := m <| placement_candidate_indices :=
        set_at (placement_candidate_indices m) selected
          (candidate_at m (remaining_count - 1)) |> in
      sample_providers n' env m (sampled_count + 1) (remaining_count - 1)
  end.

Definition is_remote_chunk_choose_provider_locked (env : random_environment)
    (m : is_remote_chunk_module) (eligible_count : Z) :
    random_environment * is_remote_chunk_module * Z :=
  let sample_size := if eligible_count <? placement_sample_size m
                     then eligible_count else placement_sample_size m in
  let '(env, m) := sample_providers (Z.to_nat sample_size) env m 0 eligible_count in
  let available index :=
    is_remote_chunk_provider_effective_available_locked m (provider_at m index) in
  let chosen := sample_at m 0 in
  let '(chosen, _) :=
    for_loop (Z.to_nat (sample_size - 1)) 1 (fun index '(chosen, best_available) =>
      let candidate := sample_at m index in
      if (best_available <? available candidate) ||
         ((available candidate =? best_available) && (candidate <? chosen))
      then (candidate, available candidate) else (chosen, best_available))
      (chosen, available chosen) in
  (env, m, chosen).

(** ** Observations *)

Definition is_remote_chunk_provider_observation_valid
    (observation : option is_remote_chunk_provider_observation) : bool :=
  match observation with
  | None => false
  | Some observation =>
      if (ob_exclusion observation <? IS_REMOTE_CHUNK_PROVIDER_EXCLUDE_NONE) ||
         (IS_REMOTE_CHUNK_PROVIDER_EXCLUDE_ZERO_CAPACITY <? ob_exclusion observation)
      then false
      else if ob_placement_eligible observation then
        (0 <? ob_available_chunks observation) &&
        (ob_exclusion observation =? IS_REMOTE_CHUNK_PROVIDER_EXCLUDE_NONE)
      else if ob_exclusion observation =? IS_REMOTE_CHUNK_PROVIDER_EXCLUDE_NONE then false
      else if ob_exclusion observation =? IS_REMOTE_CHUNK_PROVIDER_EXCLUDE_ZERO_CAPACITY
      then ob_available_chunks observation =? 0
      else true
  end.

Definition is_remote_chunk_provider_observation_equal (provider : is_remote_chunk_provider)
    (observation : is_remote_chunk_provider_observation) : bool :=
  (pr_observation_sequence provider =? ob_sequence observation) &&
  (pr_reported_available_chunks provider =? ob_available_chunks observation) &&
  (pr_exclusion provider =? ob_exclusion observation) &&
  eqb (pr_placement_eligible provider) (ob_placement_eligible observation).

Definition is_remote_chunk_provider_observe (m : is_remote_chunk_module)
    (provider_handle : is_remote_chunk_provider_handle)
    (observation : option is_remote_chunk_provider_observation) :
    is_remote_chunk_module * is_remote_chunk_provider_observation_result :=
  match observation with
  | None => (m, IS_REMOTE_CHUNK_PROVIDER_OBSERVATION_INVALID)
  | Some ob =>
    if negb (is_remote_chunk_provider_handle_well_formed provider_handle) ||
       negb (is_remote_chunk_provider_observation_valid observation)
    then (m, IS_REMOTE_CHUNK_PROVIDER_OBSERVATION_INVALID)
    else if quiescing m then (m, IS_REMOTE_CHUNK_PROVIDER_OBSERVATION_SHUTDOWN)
    else
      match is_remote_chunk_provider_index_locked m provider_handle with
      | inl _ => (m, IS_REMOTE_CHUNK_PROVIDER_OBSERVATION_STALE_EPOCH)
      | inr provider_index =>
        let provider := provider_at m provider_index in
        if pr_has_observation provider && (ob_sequence ob <? pr_observation_sequence provider)
        then (m, IS_REMOTE_CHUNK_PROVIDER_OBSERVATION_STALE)
        else if pr_has_observation provider &&
                (ob_sequence ob =? pr_observation_sequence provider)
        then (m, if is_remote_chunk_provider_observation_equal provider ob
                 then IS_REMOTE_CHUNK_PROVIDER_OBSERVATION_DUPLICATE
                 else IS_REMOTE_CHUNK_PROVIDER_OBSERVATION_CONFLICT)
        else
          let '(assigned, mapping) := is_remote_chunk_provider_debits_locked m provider_handle in
          (set_provider m provider_index
             (provider <| pr_reported_available_chunks := ob_available_chunks ob |>
                       <| pr_observation_assigned_chunks := assigned |>
                       <| pr_observation_debited_chunks := u32 (assigned + mapping) |>
                       <| pr_observation_sequence := ob_sequence ob |>
                       <| pr_exclusion := ob_exclusion ob |>
                       <| pr_placement_eligible := ob_placement_eligible ob |>
                       <| pr_has_observation := true |>),
           IS_REMOTE_CHUNK_PROVIDER_OBSERVATION_APPLIED)
      end
  end.

(** ** Activity *)

Definition is_remote_chunk_hot_policy_snapshot (m : is_remote_chunk_module) :
    is_remote_chunk_hot_policy := hot_policy m.

(** A chunk that is hot and not mapped. *)
Definition mapping_candidate (policy : is_remote_chunk_hot_policy) (chunk : is_remote_chunk) : bool :=
  bool_decide (ck_state chunk = IS_REMOTE_CHUNK_UNMAPPED) &&
  (threshold policy <=? ck_activity chunk).

(** The status and, when it is 0, whether a mapping is needed. *)
Definition is_remote_chunk_hot_policy_set (m : is_remote_chunk_module)
    (policy : option is_remote_chunk_hot_policy) : is_remote_chunk_module * Z * bool :=
  match policy with
  | None => (m, - ERANGE, false)
  | Some p =>
      if negb (is_remote_chunk_hot_policy_valid policy) then (m, - ERANGE, false)
      else if quiescing m then (m, - ESHUTDOWN, false)
      else
        let m := m <| hot_policy := p |> in
        (m, 0, (mode m =? IS_REMOTE_CHUNK_MODE_BACKED) &&
               exists_below (chunk_count m) (fun index => mapping_candidate p (chunk_at m index)))
  end.

Definition note_chunk_activity (weight : Z) (chunk : is_remote_chunk) : is_remote_chunk :=
  if IS_REMOTE_CHUNK_ACTIVITY_MAX - weight <? ck_activity chunk
  then chunk <| ck_activity := IS_REMOTE_CHUNK_ACTIVITY_MAX |>
  else chunk <| ck_activity := u64 (ck_activity chunk + weight) |>.

Definition is_remote_chunk_note_activity (m : is_remote_chunk_module)
    (logical_start count kind : Z) : is_remote_chunk_module * Z * bool :=
  if (count =? 0) || (negb (kind =? IS_REMOTE_CHUNK_ACTIVITY_READ) &&
                      negb (kind =? IS_REMOTE_CHUNK_ACTIVITY_WRITE))
  then (m, - EINVAL, false)
  else if (chunk_count m <=? logical_start) || (chunk_count m - logical_start <? count)
  then (m, - ERANGE, false)
  else if quiescing m then (m, - ESHUTDOWN, false)
  else if negb (mode m =? IS_REMOTE_CHUNK_MODE_BACKED) then (m, - EOPNOTSUPP, false)
  else
    let weight := if kind =? IS_REMOTE_CHUNK_ACTIVITY_WRITE
                  then write_weight (hot_policy m) else read_weight (hot_policy m) in
    let '(m, needed) :=
      for_loop (Z.to_nat count) logical_start (fun index '(m, needed) =>
        let chunk := note_chunk_activity weight (chunk_at m index) in
        (set_chunk m index chunk, needed || mapping_candidate (hot_policy m) chunk))
        (m, false) in
    (m, 0, needed).

(** ** The next mapping *)

(** The loop over the providers: it fills the candidates and counts them, the
    providers without facts yet, and the capacity available in all. *)
Definition collect_candidates (m : is_remote_chunk_module) :
    is_remote_chunk_module * Z * Z * Z :=
  for_loop (Z.to_nat (provider_count m)) 0
    (fun provider_index '(m, eligible_count, pending_count, aggregate_available) =>
      let provider := provider_at m provider_index in
      if pr_failed provider then (m, eligible_count, pending_count, aggregate_available)
      else if negb (pr_has_observation provider)
      then (m, eligible_count, u32 (pending_count + 1), aggregate_available)
      else
        let available := is_remote_chunk_provider_effective_available_locked m provider in
        let aggregate_available := u64 (aggregate_available + available) in
        if negb (available =? 0) then
          (m <| placement_candidate_indices :=
                  set_at (placement_candidate_indices m) eligible_count provider_index |>,
           u32 (eligible_count + 1), pending_count, aggregate_available)
        else (m, eligible_count, pending_count, aggregate_available))
    (m, 0, 0, 0).

Definition is_remote_chunk_next_mapping (env : random_environment) (m : is_remote_chunk_module) :
    is_remote_chunk_module *
    (is_remote_chunk_next_mapping_result + is_remote_chunk_mapping_request) :=
  let remote_only := mode m =? IS_REMOTE_CHUNK_MODE_REMOTE_ONLY in
  if quiescing m then (m, inl IS_REMOTE_CHUNK_NEXT_MAPPING_SHUTDOWN)
  else if negb (active_mapping_claims m =? 0)
  then (m, inl IS_REMOTE_CHUNK_NEXT_MAPPING_CLAIM_ACTIVE)
  else if remote_only && exists_below (provider_count m) (fun provider_index =>
            negb (pr_failed (provider_at m provider_index)) &&
            negb (pr_has_observation (provider_at m provider_index)))
  then (m, inl IS_REMOTE_CHUNK_NEXT_MAPPING_PENDING_PROVIDER_FACTS)
  else if remote_only && (usable_chunks m =? chunk_count m)
  then (m, inl IS_REMOTE_CHUNK_NEXT_MAPPING_COMPLETE)
  else
    match find_below (chunk_count m) (fun logical_chunk =>
      let chunk := chunk_at m logical_chunk in
      bool_decide (ck_state chunk = IS_REMOTE_CHUNK_UNMAPPED) &&
      (remote_only || (threshold (hot_policy m) <=? ck_activity chunk)))
    with
    | None => (m, inl (if remote_only then IS_REMOTE_CHUNK_NEXT_MAPPING_INVALID_INPUT
                       else IS_REMOTE_CHUNK_NEXT_MAPPING_NO_HOT_RANGE))
    | Some logical_chunk =>
      let '(m, eligible_count, pending_count, aggregate_available) := collect_candidates m in
      if remote_only && (assigned_chunks m =? 0) && (aggregate_available <? chunk_count m)
      then (m, inl IS_REMOTE_CHUNK_NEXT_MAPPING_INSUFFICIENT_CAPACITY)
      else if eligible_count =? 0 then
        (m, inl (if negb (pending_count =? 0)
                 then IS_REMOTE_CHUNK_NEXT_MAPPING_PENDING_PROVIDER_FACTS
                 else IS_REMOTE_CHUNK_NEXT_MAPPING_NO_ELIGIBLE_CAPACITY))
      else
        let '(_, m, provider_index) :=
          is_remote_chunk_choose_provider_locked env m eligible_count in
        let provider := pr_handle (provider_at m provider_index) in
        match is_remote_chunk_mapping_claim_create_locked m provider logical_chunk with
        | (m, inl status) =>
            (m, inl (if status =? - ESHUTDOWN then IS_REMOTE_CHUNK_NEXT_MAPPING_SHUTDOWN
                     else if status =? - EBUSY then IS_REMOTE_CHUNK_NEXT_MAPPING_CLAIM_ACTIVE
                     else IS_REMOTE_CHUNK_NEXT_MAPPING_INVALID_INPUT))
        | (m, inr claim) =>
            (m, inr {| mr_provider := provider;
                       mr_pool := if remote_only then IS_REMOTE_CHUNK_MAPPING_POOL_COMMITTED
                                  else IS_REMOTE_CHUNK_MAPPING_POOL_OPPORTUNISTIC;
                       mr_logical_chunk := logical_chunk;
                       mr_claim := claim |})
        end
    end.

(** ** Finishing a mapping

    [grants] is the array, [None] for NULL; reading past it gives a zero grant,
    which no check accepts. *)

Definition grant_at (grants : list is_remote_chunk_mapping_grant) (i : Z) :
    is_remote_chunk_mapping_grant := nth (Z.to_nat i) grants zero_grant.

Definition is_remote_chunk_mapping_grants_shape_valid (m : is_remote_chunk_module)
    (claim : is_remote_chunk_mapping_claim_internal)
    (grants : option (list is_remote_chunk_mapping_grant)) (grant_count : Z) : bool :=
  match grants with
  | None => false
  | Some grants =>
    if negb (grant_count =? mc_chunk_count claim) ||
       negb (grant_count =? mc_capacity_debit claim)
    then false
    else
      match for_err (Z.to_nat grant_count) 0 (fun index selected =>
        let grant := grant_at grants index in
        if (chunk_count m <=? gr_logical_chunk grant) ||
           (gr_remote_address grant =? 0) || (gr_remote_key grant =? 0) ||
           (IS_REMOTE_CHUNK_ID_MAX -
              (IS_REMOTE_CHUNK_SECTORS_PER_CHUNK * IS_REMOTE_CHUNK_SECTOR_BYTES - 1) <?
            gr_remote_address grant) ||
           selected_at selected (gr_logical_chunk grant)
        then inl tt
        else
          let selected := set_at selected (gr_logical_chunk grant) true in
          if exists_below index (fun other =>
               gr_provider_chunk (grant_at grants other) =? gr_provider_chunk grant)
          then inl tt else inr selected) no_chunk_selected
      with
      | inl _ => false
      | inr selected =>
          is_remote_chunk_batch_digest selected (chunk_count m) =? mc_batch_digest claim
      end
  end.

Definition chunk_assigned (chunk : is_remote_chunk) : bool :=
  bool_decide (ck_state chunk = IS_REMOTE_CHUNK_MAPPED) ||
  bool_decide (ck_state chunk = IS_REMOTE_CHUNK_EVICTING).

Definition is_remote_chunk_mapping_grants_available_locked (m : is_remote_chunk_module)
    (claim : is_remote_chunk_mapping_claim_internal)
    (grants : list is_remote_chunk_mapping_grant) (grant_count : Z) : bool :=
  negb (exists_below grant_count (fun index =>
    let grant := grant_at grants index in
    let chunk := chunk_at m (gr_logical_chunk grant) in
    negb (bool_decide (ck_state chunk = IS_REMOTE_CHUNK_MAPPING)) ||
    negb (ck_mapping_claim_id chunk =? mc_claim_id claim) ||
    negb (ck_transition_generation chunk =? mc_transition_generation claim) ||
    negb (is_remote_chunk_provider_handle_equal (ck_provider chunk) (mc_provider claim)) ||
    exists_below (chunk_count m) (fun other =>
      let assigned := chunk_at m other in
      chunk_assigned assigned &&
      (ck_provider_chunk assigned =? gr_provider_chunk grant) &&
      is_remote_chunk_provider_handle_equal (ck_provider assigned) (mc_provider claim)))).

Definition is_remote_chunk_mapping_grants_match_terminal_locked (m : is_remote_chunk_module)
    (claim : is_remote_chunk_mapping_claim_internal)
    (grants : list is_remote_chunk_mapping_grant) (grant_count : Z) : bool :=
  negb (exists_below grant_count (fun index =>
    let grant := grant_at grants index in
    let chunk := chunk_at m (gr_logical_chunk grant) in
    negb (bool_decide (ck_state chunk = IS_REMOTE_CHUNK_MAPPED)) ||
    negb (is_remote_chunk_provider_handle_equal (ck_provider chunk) (mc_provider claim)) ||
    negb (ck_provider_chunk chunk =? gr_provider_chunk grant) ||
    negb (ck_remote_address chunk =? gr_remote_address grant) ||
    negb (ck_remote_key chunk =? gr_remote_key grant))).

(** Every sector of a chunk becomes invalid. *)
Definition invalidate_chunk (validity : gmap Z Z) (logical_chunk : Z) : gmap Z Z :=
  is_remote_chunk_validity_update validity
    (u64 (logical_chunk * IS_REMOTE_CHUNK_SECTORS_PER_CHUNK))
    (u32 IS_REMOTE_CHUNK_SECTORS_PER_CHUNK) false.

(** The loop body that aborts the chunk at [index] when the claim has it. *)
Definition abort_chunk (claim_id : Z) (index : Z) (m : is_remote_chunk_module) :
    is_remote_chunk_module :=
  let chunk := chunk_at m index in
  if negb (ck_mapping_claim_id chunk =? claim_id) then m
  else set_chunk m index
         (chunk <| ck_provider := zero_handle |>
                <| ck_mapping_claim_id := 0 |>
                <| ck_transition_generation := 0 |>
                <| ck_state := IS_REMOTE_CHUNK_UNMAPPED |>).

(** The loop body that maps the chunk of a grant. *)
Definition commit_grant (grant : is_remote_chunk_mapping_grant) (m : is_remote_chunk_module) :
    is_remote_chunk_module :=
  let chunk := chunk_at m (gr_logical_chunk grant) in
  let m := m <| next_mapping_generation := u64 (next_mapping_generation m + 1) |> in
  let m := m <| valid_sectors := invalidate_chunk (valid_sectors m) (gr_logical_chunk grant) |> in
  set_chunk m (gr_logical_chunk grant)
    (chunk <| ck_provider_chunk := gr_provider_chunk grant |>
           <| ck_remote_address := gr_remote_address grant |>
           <| ck_remote_key := gr_remote_key grant |>
           <| ck_mapping_generation := next_mapping_generation m |>
           <| ck_mapping_claim_id := 0 |>
           <| ck_transition_generation := 0 |>
           <| ck_state := IS_REMOTE_CHUNK_MAPPED |>).

Definition is_remote_chunk_mapping_finish (m : is_remote_chunk_module)
    (claim_storage : option is_remote_chunk_mapping_claim_internal) (action : Z)
    (provider : is_remote_chunk_provider_handle)
    (grants : option (list is_remote_chunk_mapping_grant)) (grant_count : Z) :
    is_remote_chunk_module * is_remote_chunk_mapping_finish_result :=
  let commit := action =? IS_REMOTE_CHUNK_MAPPING_FINISH_COMMIT in
  let abort := action =? IS_REMOTE_CHUNK_MAPPING_FINISH_ABORT in
  let claim := is_remote_chunk_claim_decode claim_storage in
  let provider_failed_or_unknown :=
    if is_remote_chunk_provider_index_locked m provider is inl _ then true else false in
  if bool_decide (claim_storage = None) ||
     negb (is_remote_chunk_provider_handle_well_formed provider)
  then (m, IS_REMOTE_CHUNK_MAPPING_FINISH_INVALID)
  else if negb (is_remote_chunk_mapping_claim_well_formed claim) ||
          (chunk_count m <? mc_chunk_count claim)
  then (m, IS_REMOTE_CHUNK_MAPPING_FINISH_INVALID)
  else if abort && (bool_decide (is_Some grants) || negb (grant_count =? 0))
  then (m, IS_REMOTE_CHUNK_MAPPING_FINISH_INVALID)
  else if negb commit && negb abort then (m, IS_REMOTE_CHUNK_MAPPING_FINISH_INVALID)
  else if negb (mc_module_identity claim =? identity m) ||
          match is_remote_chunk_provider_roster_index_locked m (mc_provider claim) with
          | inl _ => true
          | inr provider_index => pr_failed (provider_at m provider_index)
          end
  then (m, IS_REMOTE_CHUNK_MAPPING_FINISH_STALE)
  else if is_remote_chunk_mapping_claim_equal claim (last_mapping_terminal_claim m) then
    if negb (is_remote_chunk_provider_handle_equal provider (mc_provider claim)) then
      (m, if provider_failed_or_unknown then IS_REMOTE_CHUNK_MAPPING_FINISH_STALE
          else IS_REMOTE_CHUNK_MAPPING_FINISH_CONFLICT)
    else if commit &&
            negb (is_remote_chunk_mapping_grants_shape_valid m claim grants grant_count)
    then (m, IS_REMOTE_CHUNK_MAPPING_FINISH_INVALID_GRANT)
    else
      let terminal_action := if commit then IS_REMOTE_CHUNK_MAPPING_TERMINAL_COMMIT
                             else IS_REMOTE_CHUNK_MAPPING_TERMINAL_ABORT in
      if negb (bool_decide (terminal_action = last_mapping_terminal_action m)) ||
         (bool_decide (terminal_action = IS_REMOTE_CHUNK_MAPPING_TERMINAL_COMMIT) &&
          negb (is_remote_chunk_mapping_grants_match_terminal_locked m claim
                  (default [] grants) grant_count))
      then (m, IS_REMOTE_CHUNK_MAPPING_FINISH_CONFLICT)
      else (m, IS_REMOTE_CHUNK_MAPPING_FINISH_DUPLICATE)
  else if (next_mapping_claim_id m <? mc_claim_id claim) ||
          (next_transition_generation m <? mc_transition_generation claim)
  then (m, IS_REMOTE_CHUNK_MAPPING_FINISH_INVALID)
  else if negb (is_remote_chunk_mapping_claim_active_locked m claim)
  then (m, IS_REMOTE_CHUNK_MAPPING_FINISH_STALE)
  else if negb (is_remote_chunk_provider_handle_equal provider (mc_provider claim)) then
    (m, if provider_failed_or_unknown then IS_REMOTE_CHUNK_MAPPING_FINISH_STALE
        else IS_REMOTE_CHUNK_MAPPING_FINISH_CONFLICT)
  else if commit && negb (is_remote_chunk_mapping_grants_shape_valid m claim grants grant_count)
  then (m, IS_REMOTE_CHUNK_MAPPING_FINISH_INVALID_GRANT)
  else if commit && quiescing m then (m, IS_REMOTE_CHUNK_MAPPING_FINISH_SHUTDOWN)
  else if active_mapping_claims m =? 0 then (m, IS_REMOTE_CHUNK_MAPPING_FINISH_INVALID)
  else if abort then
    let m := for_loop (Z.to_nat (chunk_count m)) 0 (abort_chunk (mc_claim_id claim)) m in
    let m := m <| active_mapping_claims := u32 (active_mapping_claims m - 1) |> in
    (is_remote_chunk_mapping_terminal_record_locked m claim
       IS_REMOTE_CHUNK_MAPPING_TERMINAL_ABORT, IS_REMOTE_CHUNK_MAPPING_FINISH_ABORTED)
  else
    let grants := default [] grants in
    if negb (is_remote_chunk_mapping_grants_available_locked m claim grants grant_count)
    then (m, IS_REMOTE_CHUNK_MAPPING_FINISH_INVALID_GRANT)
    else if (IS_REMOTE_CHUNK_ID_MAX - grant_count <? next_mapping_generation m) ||
            (IS_REMOTE_CHUNK_U32_MAX - mc_capacity_debit claim <? assigned_chunks m) ||
            (IS_REMOTE_CHUNK_U32_MAX - mc_capacity_debit claim <? usable_chunks m)
    then (m, IS_REMOTE_CHUNK_MAPPING_FINISH_EXHAUSTED)
    else
      let m := for_loop (Z.to_nat grant_count) 0 (fun index m =>
                 commit_grant (grant_at grants index) m) m in
      let m := m <| assigned_chunks := u32 (assigned_chunks m + mc_capacity_debit claim) |>
                 <| usable_chunks := u32 (usable_chunks m + mc_capacity_debit claim) |>
                 <| active_mapping_claims := u32 (active_mapping_claims m - 1) |> in
      (is_remote_chunk_mapping_terminal_record_locked m claim
         IS_REMOTE_CHUNK_MAPPING_TERMINAL_COMMIT, IS_REMOTE_CHUNK_MAPPING_FINISH_COMMITTED).

(** ** Provider chunks and their activity *)

Definition is_remote_chunk_find_provider_chunk_locked (m : is_remote_chunk_module)
    (provider : is_remote_chunk_provider_handle) (provider_chunk : Z) (require_usable : bool) :
    Z + Z :=
  match find_below (chunk_count m) (fun index =>
    let chunk := chunk_at m index in
    chunk_assigned chunk &&
    (negb require_usable || bool_decide (ck_state chunk = IS_REMOTE_CHUNK_MAPPED)) &&
    (ck_provider_chunk chunk =? provider_chunk) &&
    is_remote_chunk_provider_handle_equal (ck_provider chunk) provider)
  with
  | Some index => inr index
  | None => inl (- ENOENT)
  end.

(** The status or the activity of each chunk asked for. *)
Definition is_remote_chunk_provider_activity_query (m : is_remote_chunk_module)
    (provider : is_remote_chunk_provider_handle) (provider_chunks : option (list Z)) (count : Z) :
    Z + list is_remote_chunk_provider_activity :=
  match provider_chunks with
  | None => inl (- EINVAL)
  | Some provider_chunks =>
    if (count =? 0) || (chunk_count m <? count) then inl (- EINVAL)
    else if negb (mode m =? IS_REMOTE_CHUNK_MODE_BACKED) then inl (- EOPNOTSUPP)
    else if negb (is_remote_chunk_provider_valid_locked m provider) then inl (- ESTALE)
    else
      let! logical_chunks := for_err (Z.to_nat count) 0 (fun index logical_chunks =>
        if exists_below index (fun other =>
             word_at provider_chunks other =? word_at provider_chunks index)
        then inl (- EINVAL)
        else
          let! logical_chunk := is_remote_chunk_find_provider_chunk_locked m provider
                                  (word_at provider_chunks index) false in
          inr (set_at logical_chunks index (u8 logical_chunk)))
        (zeros (Z.to_nat IS_REMOTE_CHUNK_MAX_CHUNKS)) in
      inr (map (fun index =>
        {| pa_provider_chunk := word_at provider_chunks index;
           pa_activity := ck_activity (chunk_at m (word_at logical_chunks index)) |})
        (seqZ 0 count))
  end.

(** ** Eviction *)

(** The loop that selects the batch. *)
Definition eviction_select (m : is_remote_chunk_module)
    (provider : is_remote_chunk_provider_handle) (provider_chunks : list Z) (count : Z) :
    Z + list bool :=
  for_err (Z.to_nat count) 0 (fun index selected =>
    let! logical_chunk := is_remote_chunk_find_provider_chunk_locked m provider
                            (word_at provider_chunks index) true in
    if selected_at selected logical_chunk then inl (- EINVAL)
    else inr (set_at selected logical_chunk true)) no_chunk_selected.

Definition evict_chunk (selected : list bool) (claim_id generation : Z) (index : Z)
    (m : is_remote_chunk_module) : is_remote_chunk_module :=
  if negb (selected_at selected index) then m
  else set_chunk m index
         ((chunk_at m index) <| ck_state := IS_REMOTE_CHUNK_EVICTING |>
                             <| ck_eviction_claim_id := claim_id |>
                             <| ck_transition_generation := generation |>).

(** [claim_out] is the caller's claim storage before and, when the status is
    0, after the call. *)
Definition is_remote_chunk_eviction_begin (m : is_remote_chunk_module)
    (provider : is_remote_chunk_provider_handle) (provider_chunks : option (list Z)) (count : Z)
    (claim_out : is_remote_chunk_eviction_claim_internal) :
    is_remote_chunk_module * (Z + is_remote_chunk_eviction_claim_internal) :=
  match provider_chunks with
  | None => (m, inl (- EINVAL))
  | Some provider_chunks =>
    if (count =? 0) || (chunk_count m <? count) then (m, inl (- EINVAL))
    else if negb (mode m =? IS_REMOTE_CHUNK_MODE_BACKED) then (m, inl (- EOPNOTSUPP))
    else if quiescing m then (m, inl (- ESHUTDOWN))
    else if negb (is_remote_chunk_provider_valid_locked m provider) then (m, inl (- ESTALE))
    else if is_remote_chunk_eviction_claim_active_locked m (Some claim_out)
    then (m, inl (- EBUSY))
    else
      match eviction_select m provider provider_chunks count with
      | inl status => (m, inl status)
      | inr selected =>
        if (next_eviction_claim_id m =? IS_REMOTE_CHUNK_ID_MAX) ||
           (next_transition_generation m =? IS_REMOTE_CHUNK_ID_MAX) ||
           (usable_chunks m <? count) ||
           (active_eviction_claims m =? IS_REMOTE_CHUNK_U32_MAX)
        then (m, inl (- EOVERFLOW))
        else
          let m := m <| next_eviction_claim_id := u64 (next_eviction_claim_id m + 1) |>
                     <| next_transition_generation := u64 (next_transition_generation m + 1) |> in
          let claim :=
            {| ec_magic := IS_REMOTE_CHUNK_EVICTION_MAGIC;
               ec_module_identity := identity m;
               ec_provider := provider;
               ec_claim_id := next_eviction_claim_id m;
               ec_transition_generation := next_transition_generation m;
               ec_batch_digest := is_remote_chunk_batch_digest selected (chunk_count m);
               ec_chunk_count := count |} in
          let m := is_remote_chunk_mapping_terminal_supersede_locked m in
          let m := for_loop (Z.to_nat (chunk_count m)) 0
                     (evict_chunk selected (ec_claim_id claim) (ec_transition_generation claim)) m in
          (m <| usable_chunks := u32 (usable_chunks m - count) |>
             <| active_eviction_claims := u32 (active_eviction_claims m + 1) |>, inr claim)
      end
  end.

Definition is_remote_chunk_eviction_drained_locked (m : is_remote_chunk_module)
    (claim : is_remote_chunk_eviction_claim_internal) : bool :=
  negb (exists_below (chunk_count m) (fun index =>
    (ck_eviction_claim_id (chunk_at m index) =? ec_claim_id claim) &&
    negb (ck_active_io_leases (chunk_at m index) =? 0))).

Definition is_remote_chunk_eviction_wait_ready (m : is_remote_chunk_module)
    (claim_storage : option is_remote_chunk_eviction_claim_internal) : bool :=
  let claim := is_remote_chunk_eviction_claim_decode claim_storage in
  negb (is_remote_chunk_eviction_claim_validate_locked m claim =? 0) ||
  is_remote_chunk_eviction_drained_locked m claim.

(** [is_remote_chunk_eviction_wait] up to its loop: [inl] the status, or the
    module with the wait counted. *)
Definition eviction_wait_enter (m : is_remote_chunk_module)
    (claim_storage : option is_remote_chunk_eviction_claim_internal) (deadline : Z) :
    Z + is_remote_chunk_module :=
  let claim := is_remote_chunk_eviction_claim_decode claim_storage in
  if bool_decide (claim_storage = None) || (deadline =? 0) then inl (- EINVAL)
  else
    let status := is_remote_chunk_eviction_claim_validate_locked m claim in
    if negb (status =? 0) then inl status
    else if active_eviction_waits m =? IS_REMOTE_CHUNK_U32_MAX then inl (- EOVERFLOW)
    else inr (m <| active_eviction_waits := u32 (active_eviction_waits m + 1) |>).

(** One turn of the loop up to the sleep: [Some] the status it breaks with.
    [now] is the clock. *)
Definition eviction_wait_poll (m : is_remote_chunk_module)
    (claim : is_remote_chunk_eviction_claim_internal) (deadline now : Z) : option Z :=
  let status := is_remote_chunk_eviction_claim_validate_locked m claim in
  if negb (status =? 0) || is_remote_chunk_eviction_drained_locked m claim then Some status
  else if now =? IS_REMOTE_CHUNK_ID_MAX then Some (- EIO)
  else if deadline <=? now then Some (- ETIMEDOUT)
  else None.

(** After the loop. *)
Definition eviction_wait_leave (m : is_remote_chunk_module) : is_remote_chunk_module :=
  m <| active_eviction_waits := u32 (active_eviction_waits m - 1) |>.

(** The loop as one thread runs it: turn [i] of the loop sees the module
    [world i] and the clock [clock i], and the sleep after it fails with
    [sleep i] when that is not 0.  The status and the turn it is reached in,
    if the loop ends within [n] turns. *)
Fixpoint eviction_wait_loop (n : nat) (i : nat) (world : nat -> is_remote_chunk_module)
    (clock sleep : nat -> Z) (claim : is_remote_chunk_eviction_claim_internal) (deadline : Z) :
    option (nat * Z) :=
  match n with
  | O => None
  | S n' =>
      match eviction_wait_poll (world i) claim deadline (clock i) with
      | Some status => Some (i, status)
      | None =>
          if negb (sleep i =? 0) then Some (i, sleep i)
          else eviction_wait_loop n' (S i) world clock sleep claim deadline
      end
  end.

Definition is_remote_chunk_reset_mapping_locked (m : is_remote_chunk_module) (logical_chunk : Z)
    (reset_activity : bool) : is_remote_chunk_module :=
  let chunk := chunk_at m logical_chunk in
  let m := m <| valid_sectors := invalidate_chunk (valid_sectors m) logical_chunk |> in
  let m := m <| next_mapping_generation := u64 (next_mapping_generation m + 1) |> in
  set_chunk m logical_chunk
    (chunk <| ck_mapping_generation := next_mapping_generation m |>
           <| ck_provider := zero_handle |>
           <| ck_provider_chunk := 0 |>
           <| ck_remote_address := 0 |>
           <| ck_remote_key := 0 |>
           <| ck_mapping_claim_id := 0 |>
           <| ck_eviction_claim_id := 0 |>
           <| ck_transition_generation := 0 |>
           <| ck_activity := if reset_activity then 0 else ck_activity chunk |>
           <| ck_state := IS_REMOTE_CHUNK_UNMAPPED |>).

Definition is_remote_chunk_eviction_finish (m : is_remote_chunk_module)
    (claim_storage : option is_remote_chunk_eviction_claim_internal) :
    is_remote_chunk_module * Z :=
  let claim := is_remote_chunk_eviction_claim_decode claim_storage in
  if bool_decide (claim_storage = None) then (m, - EINVAL)
  else
    let status := is_remote_chunk_eviction_claim_validate_locked m claim in
    if negb (status =? 0) then (m, status)
    else if negb (is_remote_chunk_eviction_drained_locked m claim) then
      (is_remote_chunk_note_invariant_locked m
         IS_REMOTE_CHUNK_INVARIANT_EVICTION_FINISH_ACTIVE_LEASES, - EBUSY)
    else if (IS_REMOTE_CHUNK_ID_MAX - ec_chunk_count claim <? next_mapping_generation m) ||
            (assigned_chunks m <? ec_chunk_count claim) ||
            (active_eviction_claims m =? 0)
    then (m, - EOVERFLOW)
    else
      let m := for_loop (Z.to_nat (chunk_count m)) 0 (fun index m =>
        if ck_eviction_claim_id (chunk_at m index) =? ec_claim_id claim
        then is_remote_chunk_reset_mapping_locked m index true else m) m in
      (m <| assigned_chunks := u32 (assigned_chunks m - ec_chunk_count claim) |>
         <| active_eviction_claims := u32 (active_eviction_claims m - 1) |>, 0).

(** ** Failure of a provider *)

Definition chunk_of_provider (provider : is_remote_chunk_provider_handle)
    (chunk : is_remote_chunk) : bool :=
  negb (bool_decide (ck_state chunk = IS_REMOTE_CHUNK_UNMAPPED)) &&
  is_remote_chunk_provider_handle_equal (ck_provider chunk) provider.

(** The first loop: the facts, and the number of mapping and eviction claims
    of the provider, one per claim's first chunk. *)
Definition failure_facts (m : is_remote_chunk_module)
    (provider : is_remote_chunk_provider_handle) :
    is_remote_chunk_provider_failure_facts * Z * Z :=
  for_loop (Z.to_nat (chunk_count m)) 0
    (fun index '(facts, mapping_claims, eviction_claims) =>
      let chunk := chunk_at m index in
      if negb (chunk_of_provider provider chunk) then (facts, mapping_claims, eviction_claims)
      else
        let facts := facts <| ff_affected_chunks := u32 (ff_affected_chunks facts + 1) |>
                           <| ff_active_io_leases :=
                                u32 (ff_active_io_leases facts + ck_active_io_leases chunk) |> in
        if bool_decide (ck_state chunk = IS_REMOTE_CHUNK_MAPPING) then
          (facts <| ff_mapping_chunks := u32 (ff_mapping_chunks facts + 1) |>,
           if exists_below index (fun previous =>
                ck_mapping_claim_id (chunk_at m previous) =? ck_mapping_claim_id chunk)
           then mapping_claims else u32 (mapping_claims + 1), eviction_claims)
        else
          let facts := facts <| ff_assigned_chunks := u32 (ff_assigned_chunks facts + 1) |> in
          if bool_decide (ck_state chunk = IS_REMOTE_CHUNK_MAPPED) then
            (facts <| ff_usable_chunks := u32 (ff_usable_chunks facts + 1) |>,
             mapping_claims, eviction_claims)
          else
            (facts <| ff_evicting_chunks := u32 (ff_evicting_chunks facts + 1) |>,
             mapping_claims,
             if exists_below index (fun previous =>
                  ck_eviction_claim_id (chunk_at m previous) =? ck_eviction_claim_id chunk)
             then eviction_claims else u32 (eviction_claims + 1)))
    (zero_facts, 0, 0).

Definition is_remote_chunk_provider_failed (m : is_remote_chunk_module)
    (provider : is_remote_chunk_provider_handle) :
    is_remote_chunk_module * is_remote_chunk_provider_failure_facts *
    is_remote_chunk_provider_failure_result :=
  if negb (is_remote_chunk_provider_handle_well_formed provider)
  then (m, zero_facts, IS_REMOTE_CHUNK_PROVIDER_FAILURE_INVALID)
  else
    match is_remote_chunk_provider_roster_index_locked m provider with
    | inl _ => (m, zero_facts, IS_REMOTE_CHUNK_PROVIDER_FAILURE_STALE_EPOCH)
    | inr provider_index =>
      if pr_failed (provider_at m provider_index)
      then (m, pr_failure_facts (provider_at m provider_index),
            IS_REMOTE_CHUNK_PROVIDER_FAILURE_DUPLICATE)
      else
        let '(facts, mapping_claims, eviction_claims) := failure_facts m provider in
        if (IS_REMOTE_CHUNK_ID_MAX - ff_affected_chunks facts <? next_mapping_generation m) ||
           (assigned_chunks m <? ff_assigned_chunks facts) ||
           (usable_chunks m <? ff_usable_chunks facts) ||
           (active_mapping_claims m <? mapping_claims) ||
           (active_eviction_claims m <? eviction_claims) ||
           (next_transition_generation m =? IS_REMOTE_CHUNK_ID_MAX) ||
           (negb (mapping_claims =? 0) &&
            (negb (is_remote_chunk_mapping_claim_well_formed (active_mapping_claim m)) ||
             negb (is_remote_chunk_provider_handle_equal
                     (mc_provider (active_mapping_claim m)) provider)))
        then (m, zero_facts, IS_REMOTE_CHUNK_PROVIDER_FAILURE_EXHAUSTED)
        else
          let m := if negb (mapping_claims =? 0)
                   then is_remote_chunk_mapping_terminal_record_locked m (active_mapping_claim m)
                          IS_REMOTE_CHUNK_MAPPING_TERMINAL_PROVIDER_FAILURE
                   else m in
          let m := m <| next_transition_generation := u64 (next_transition_generation m + 1) |> in
          let m := for_loop (Z.to_nat (chunk_count m)) 0 (fun index m =>
            if chunk_of_provider provider (chunk_at m index)
            then is_remote_chunk_reset_mapping_locked m index false else m) m in
          let m := m <| assigned_chunks := u32 (assigned_chunks m - ff_assigned_chunks facts) |>
                     <| usable_chunks := u32 (usable_chunks m - ff_usable_chunks facts) |>
                     <| active_mapping_claims := u32 (active_mapping_claims m - mapping_claims) |>
                     <| active_eviction_claims :=
                          u32 (active_eviction_claims m - eviction_claims) |> in
          let m := set_provider m provider_index
            ((provider_at m provider_index)
               <| pr_failed := true |>
               <| pr_placement_eligible := false |>
               <| pr_exclusion := IS_REMOTE_CHUNK_PROVIDER_EXCLUDE_UNHEALTHY |>
               <| pr_failure_facts := facts |>) in
          (m, facts, IS_REMOTE_CHUNK_PROVIDER_FAILURE_APPLIED)
    end.

(** ** I/O leases

    [lease] is the address of the caller's storage and [storage] its contents;
    each operation gives the contents it leaves. *)

Definition is_remote_chunk_io_lease_acquire (m : is_remote_chunk_module)
    (request : option is_remote_chunk_io_request) (lease : Z)
    (storage : is_remote_chunk_io_lease_internal) :
    is_remote_chunk_module * is_remote_chunk_io_lease_internal *
    (Z + is_remote_chunk_transport_mapping) :=
  match request with
  | None => (m, storage, inl (- EINVAL))
  | Some request =>
    if (negb (rq_direction request =? IS_REMOTE_CHUNK_IO_READ) &&
        negb (rq_direction request =? IS_REMOTE_CHUNK_IO_WRITE)) ||
       (rq_bytes request =? 0) || negb (rq_bytes request mod IS_REMOTE_CHUNK_SECTOR_BYTES =? 0)
    then (m, storage, inl (- EINVAL))
    else
      let sector_count := rq_bytes request / IS_REMOTE_CHUNK_SECTOR_BYTES in
      if IS_REMOTE_CHUNK_ID_MAX - u32 (sector_count - 1) <? rq_sector request
      then (m, storage, inl (- ERANGE))
      else
        let last_sector := u64 (u64 (rq_sector request + sector_count) - 1) in
        let logical_chunk := u32 (rq_sector request / IS_REMOTE_CHUNK_SECTORS_PER_CHUNK) in
        if (chunk_count m <=? logical_chunk) ||
           negb (last_sector / IS_REMOTE_CHUNK_SECTORS_PER_CHUNK =? logical_chunk)
        then (m, storage, inl (- ERANGE))
        else if quiescing m then (m, storage, inl (- ESHUTDOWN))
        else if negb (ls_magic storage =? 0) &&
                negb (ls_magic storage =? IS_REMOTE_CHUNK_LEASE_MAGIC)
        then (m, storage, inl (- EINVAL))
        else if (ls_magic storage =? IS_REMOTE_CHUNK_LEASE_MAGIC) &&
                negb (ls_storage_identity storage =? lease)
        then (m, storage, inl (- EINVAL))
        else if ls_magic storage =? IS_REMOTE_CHUNK_LEASE_MAGIC then
          (m, storage,
           inl (if negb (Z.land (ls_state storage) IS_REMOTE_CHUNK_LEASE_RELEASED =? 0)
                then - EALREADY else - EBUSY))
        else
          let chunk := chunk_at m logical_chunk in
          if negb (bool_decide (ck_state chunk = IS_REMOTE_CHUNK_MAPPED))
          then (m, storage, inl (- ENXIO))
          else if (rq_direction request =? IS_REMOTE_CHUNK_IO_READ) &&
                  negb (is_remote_chunk_validity_test (valid_sectors m) (rq_sector request)
                          sector_count)
          then (m, storage, inl (- ENODATA))
          else if (next_io_lease_id m =? IS_REMOTE_CHUNK_ID_MAX) ||
                  (active_io_leases m =? IS_REMOTE_CHUNK_U32_MAX) ||
                  (ck_active_io_leases chunk =? IS_REMOTE_CHUNK_U32_MAX)
          then (m, storage, inl (- EOVERFLOW))
          else
            let m := m <| next_io_lease_id := u64 (next_io_lease_id m + 1) |> in
            let internal :=
              {| ls_magic := IS_REMOTE_CHUNK_LEASE_MAGIC;
                 ls_module_identity := identity m;
                 ls_storage_identity := lease;
                 ls_lease_id := next_io_lease_id m;
                 ls_mapping_generation := ck_mapping_generation chunk;
                 ls_sector := rq_sector request;
                 ls_sector_count := sector_count;
                 ls_logical_chunk := logical_chunk;
                 ls_direction := rq_direction request;
                 ls_state := 0 |} in
            let m := if rq_direction request =? IS_REMOTE_CHUNK_IO_WRITE
                     then m <| valid_sectors := is_remote_chunk_validity_update (valid_sectors m)
                                 (rq_sector request) sector_count false |>
                     else m in
            let m := set_chunk m logical_chunk
                       (chunk <| ck_active_io_leases := u32 (ck_active_io_leases chunk + 1) |>) in
            let m := m <| active_io_leases := u32 (active_io_leases m + 1) |> in
            let remote_offset :=
              rq_sector request mod IS_REMOTE_CHUNK_SECTORS_PER_CHUNK *
              IS_REMOTE_CHUNK_SECTOR_BYTES in
            (m, internal,
             inr {| tm_provider := ck_provider chunk;
                    tm_remote_address := u64 (ck_remote_address chunk + remote_offset);
                    tm_remote_key := ck_remote_key chunk;
                    tm_provider_chunk := ck_provider_chunk chunk;
                    tm_logical_chunk := logical_chunk |})
  end.

Definition is_remote_chunk_io_lease_resolve (m : is_remote_chunk_module) (lease : Z)
    (storage : is_remote_chunk_io_lease_internal) (outcome : Z) :
    is_remote_chunk_module * is_remote_chunk_io_lease_internal * Z *
    is_remote_chunk_io_resolve_result :=
  if negb (outcome =? IS_REMOTE_CHUNK_IO_SUCCESS) &&
     negb (outcome =? IS_REMOTE_CHUNK_IO_FAILURE) &&
     negb (outcome =? IS_REMOTE_CHUNK_IO_CANCELLED) &&
     negb (outcome =? IS_REMOTE_CHUNK_IO_SUBMISSION_FAILURE)
  then (m, storage, - EINVAL, IS_REMOTE_CHUNK_IO_RESOLVE_NONE)
  else
    let status := is_remote_chunk_lease_validate_locked m lease storage in
    if negb (status =? 0) then (m, storage, status, IS_REMOTE_CHUNK_IO_RESOLVE_NONE)
    else if negb (Z.land (ls_state storage) IS_REMOTE_CHUNK_LEASE_RESOLVED =? 0) then
      (is_remote_chunk_note_invariant_locked m
         IS_REMOTE_CHUNK_INVARIANT_LEASE_DUPLICATE_RESOLVE,
       storage, - EALREADY, IS_REMOTE_CHUNK_IO_RESOLVE_NONE)
    else
      let internal :=
        storage <| ls_state := Z.lor (ls_state storage) IS_REMOTE_CHUNK_LEASE_RESOLVED |> in
      let chunk := chunk_at m (ls_logical_chunk internal) in
      let mapping_current := ck_mapping_generation chunk =? ls_mapping_generation internal in
      let m := if mapping_current && (ls_direction internal =? IS_REMOTE_CHUNK_IO_WRITE)
               then m <| valid_sectors := is_remote_chunk_validity_update (valid_sectors m)
                           (ls_sector internal) (ls_sector_count internal)
                           (outcome =? IS_REMOTE_CHUNK_IO_SUCCESS) |>
               else m in
      (m, internal, 0, if mapping_current then IS_REMOTE_CHUNK_IO_RESOLVE_CURRENT
                       else IS_REMOTE_CHUNK_IO_RESOLVE_STALE).

Definition is_remote_chunk_io_lease_release (m : is_remote_chunk_module) (lease : Z)
    (storage : is_remote_chunk_io_lease_internal) :
    is_remote_chunk_module * is_remote_chunk_io_lease_internal * Z :=
  let status := is_remote_chunk_lease_validate_locked m lease storage in
  if negb (status =? 0) then (m, storage, status)
  else if negb (Z.land (ls_state storage) IS_REMOTE_CHUNK_LEASE_RELEASED =? 0) then
    (is_remote_chunk_note_invariant_locked m
       IS_REMOTE_CHUNK_INVARIANT_LEASE_DUPLICATE_RELEASE, storage, - EALREADY)
  else if Z.land (ls_state storage) IS_REMOTE_CHUNK_LEASE_RESOLVED =? 0 then
    (is_remote_chunk_note_invariant_locked m
       IS_REMOTE_CHUNK_INVARIANT_LEASE_RELEASE_BEFORE_RESOLVE, storage, - EPERM)
  else
    let chunk := chunk_at m (ls_logical_chunk storage) in
    if (ck_active_io_leases chunk =? 0) || (active_io_leases m =? 0)
    then (m, storage, - EINVAL)
    else
      let m := set_chunk m (ls_logical_chunk storage)
                 (chunk <| ck_active_io_leases := u32 (ck_active_io_leases chunk - 1) |>) in
      let m := m <| active_io_leases := u32 (active_io_leases m - 1) |> in
      (m, storage <| ls_state := Z.lor (ls_state storage) IS_REMOTE_CHUNK_LEASE_RELEASED |>, 0).

(** ** Snapshots *)

Record is_remote_chunk_provider_snapshot := {
  sp_provider : is_remote_chunk_provider_handle;
  sp_identifier : list Z;
  sp_placement_weight : Z;
  sp_assigned_chunks : Z;
  sp_usable_chunks : Z;
  sp_reported_available_chunks : Z;
  sp_diagnostic_available_chunks : Z;
  sp_observation_assigned_chunks : Z;
  sp_observation_sequence : Z;
  sp_exclusion : Z;
  sp_placement_eligible : bool;
  sp_has_observation : bool;
  sp_failed : bool
}.

Record is_remote_chunk_placement_snapshot := {
  pl_provider : is_remote_chunk_provider_handle;
  pl_logical_chunk : Z;
  pl_usable : bool
}.

(** The counters the scan of the chunks fills; the other fields of
    [struct is_remote_chunk_snapshot] are copies of the module's. *)
Record is_remote_chunk_snapshot := {
  sn_module : is_remote_chunk_module;
  sn_mapping_chunks : Z;
  sn_evicting_chunks : Z;
  sn_hot_ranges : Z;
  sn_mapping_candidates : Z;
  sn_providers : list is_remote_chunk_provider_snapshot;
  sn_placements : list is_remote_chunk_placement_snapshot;
  sn_derived_assigned : Z;
  sn_derived_usable : Z;
  sn_derived_active_io_leases : Z
}.

#[export] Instance is_remote_chunk_provider_snapshot_eta :
  Eta is_remote_chunk_provider_snapshot := fun s =>
  {| sp_provider := sp_provider s; sp_identifier := sp_identifier s;
     sp_placement_weight := sp_placement_weight s; sp_assigned_chunks := sp_assigned_chunks s;
     sp_usable_chunks := sp_usable_chunks s;
     sp_reported_available_chunks := sp_reported_available_chunks s;
     sp_diagnostic_available_chunks := sp_diagnostic_available_chunks s;
     sp_observation_assigned_chunks := sp_observation_assigned_chunks s;
     sp_observation_sequence := sp_observation_sequence s; sp_exclusion := sp_exclusion s;
     sp_placement_eligible := sp_placement_eligible s;
     sp_has_observation := sp_has_observation s; sp_failed := sp_failed s |}.
#[export] Instance is_remote_chunk_snapshot_eta : Eta is_remote_chunk_snapshot := fun s =>
  {| sn_module := sn_module s; sn_mapping_chunks := sn_mapping_chunks s;
     sn_evicting_chunks := sn_evicting_chunks s; sn_hot_ranges := sn_hot_ranges s;
     sn_mapping_candidates := sn_mapping_candidates s; sn_providers := sn_providers s;
     sn_placements := sn_placements s; sn_derived_assigned := sn_derived_assigned s;
     sn_derived_usable := sn_derived_usable s;
     sn_derived_active_io_leases := sn_derived_active_io_leases s |}.

Definition snapshot_provider (m : is_remote_chunk_module) (provider : is_remote_chunk_provider) :
    is_remote_chunk_provider_snapshot :=
  {| sp_provider := pr_handle provider;
     sp_identifier := pr_identifier provider;
     sp_placement_weight := pr_placement_weight provider;
     sp_assigned_chunks := 0;
     sp_usable_chunks := 0;
     sp_reported_available_chunks := pr_reported_available_chunks provider;
     sp_diagnostic_available_chunks :=
       is_remote_chunk_provider_diagnostic_available_locked m provider;
     sp_observation_assigned_chunks := pr_observation_assigned_chunks provider;
     sp_observation_sequence := pr_observation_sequence provider;
     sp_exclusion := pr_exclusion provider;
     sp_placement_eligible := pr_placement_eligible provider;
     sp_has_observation := pr_has_observation provider;
     sp_failed := pr_failed provider |}.

(** [None] is the C function's [snapshot->provider_count]. *)
Definition is_remote_chunk_snapshot_provider_index
    (snapshot_providers : list is_remote_chunk_provider_snapshot)
    (provider : is_remote_chunk_provider_handle) : option nat :=
  fst <$> list_find (fun p =>
    is_remote_chunk_provider_handle_equal (sp_provider p) provider = true) snapshot_providers.

(** The loop body over the chunks; [inl] leaves with [-EINVAL]. *)
Definition snapshot_chunk (m : is_remote_chunk_module) (index : Z)
    (s : is_remote_chunk_snapshot) : Z + is_remote_chunk_snapshot :=
  let chunk := chunk_at m index in
  let s := s <| sn_derived_active_io_leases :=
    u32 (sn_derived_active_io_leases s + ck_active_io_leases chunk) |> in
  let s := if threshold (hot_policy m) <=? ck_activity chunk then
             let s := s <| sn_hot_ranges := u32 (sn_hot_ranges s + 1) |> in
             if bool_decide (ck_state chunk = IS_REMOTE_CHUNK_UNMAPPED)
             then s <| sn_mapping_candidates := u32 (sn_mapping_candidates s + 1) |> else s
           else s in
  match ck_state chunk with
  | IS_REMOTE_CHUNK_MAPPING => inr (s <| sn_mapping_chunks := u32 (sn_mapping_chunks s + 1) |>)
  | IS_REMOTE_CHUNK_UNMAPPED => inr s
  | _ =>
      let usable := bool_decide (ck_state chunk = IS_REMOTE_CHUNK_MAPPED) in
      match is_remote_chunk_snapshot_provider_index (sn_providers s) (ck_provider chunk) with
      | None => inl (- EINVAL)
      | Some provider_index =>
          let s := s <| sn_placements := sn_placements s ++
            [{| pl_provider := ck_provider chunk; pl_logical_chunk := index;
                pl_usable := usable |}] |> in
          let s := s <| sn_providers := alter (fun p =>
            let p := p <| sp_assigned_chunks := u32 (sp_assigned_chunks p + 1) |> in
            if usable then p <| sp_usable_chunks := u32 (sp_usable_chunks p + 1) |> else p)
            provider_index (sn_providers s) |> in
          let s := if usable then s
                   else s <| sn_evicting_chunks := u32 (sn_evicting_chunks s + 1) |> in
          inr (s <| sn_derived_assigned := u32 (sn_derived_assigned s + 1) |>
                 <| sn_derived_usable := u32 (sn_derived_usable s + Z.b2z usable) |>)
      end
  end.

(** [allocated] is whether the three allocations succeed. *)
Definition is_remote_chunk_snapshot_take (allocated : bool) (m : is_remote_chunk_module) :
    Z + is_remote_chunk_snapshot :=
  if negb allocated then inl (- ENOMEM)
  else
    let s := {| sn_module := m; sn_mapping_chunks := 0; sn_evicting_chunks := 0;
                sn_hot_ranges := 0; sn_mapping_candidates := 0;
                sn_providers := map (snapshot_provider m) (providers m);
                sn_placements := []; sn_derived_assigned := 0; sn_derived_usable := 0;
                sn_derived_active_io_leases := 0 |} in
    let! s := for_err (Z.to_nat (chunk_count m)) 0 (snapshot_chunk m) s in
    if negb (sn_derived_assigned s =? assigned_chunks m) ||
       negb (sn_derived_usable s =? usable_chunks m) ||
       negb (sn_derived_active_io_leases s =? active_io_leases m)
    then inl (- EINVAL)
    else inr s.
