(* ===== verification/RemoteChunkValidity.v ===== *)
(** * Sector validity: the bitmap refines a set of sectors

    [sector_valid v] is the set of sectors the words of the bitmap [v] stand
    for.  The masks and word loops of is_remote_chunk_validity_apply test, add
    and remove exactly the sectors of their range, and touch no word outside
    of it. *)
From S2P Require Import Prelude RemoteChunkData RemoteChunk.

Definition sector_valid (v : gmap Z Z) (s : Z) : bool := Z.testbit (word_of v (s / 64)) (s mod 64).

Definition in_sectors (first count s : Z) : bool := (first <=? s) && (s <? first + count).

(** ** Masks *)

Lemma testbit_not_ulong x i : 0 <= i < 64 -> Z.testbit (not_ulong x) i = negb (Z.testbit x i).
Proof.
  intros Hi. unfold not_ulong. rewrite Z.lxor_spec, Z.ones_spec_low by lia. apply xorb_true_r.
Qed.

Lemma low_bits_ones n : 0 <= n <= 64 -> is_remote_chunk_low_bits n = Z.ones n.
Proof.
  intros Hn. unfold is_remote_chunk_low_bits, IS_REMOTE_CHUNK_BITS_PER_WORD.
  destruct (Z.leb_spec 64 n) as [H|H].
  - replace n with 64 by lia. done.
  - rewrite Z.shiftl_1_l. rewrite Z.ones_equiv.
    assert (0 < 2 ^ n < 2 ^ 64) by (split; [apply Z.pow_pos_nonneg|apply Z.pow_lt_mono_r]; lia).
    rewrite (wrap_small 64 (2 ^ n)) by (unfold in_u; lia).
    rewrite wrap_small by (unfold in_u; lia). lia.
Qed.

Lemma testbit_range_mask first last i :
  0 <= first <= 64 -> 0 <= last <= 64 -> 0 <= i < 64 ->
  Z.testbit (is_remote_chunk_word_range_mask first last) i = (first <=? i) && (i <? last).
Proof.
  intros Hf Hl Hi. unfold is_remote_chunk_word_range_mask.
  rewrite Z.land_spec, testbit_not_ulong, !low_bits_ones by lia.
  rewrite !Z.testbit_ones_nonneg by lia.
  destruct (Z.ltb_spec i last), (Z.ltb_spec i first), (Z.leb_spec first i); done || lia.
Qed.

Lemma range_mask_bounded first last :
  0 <= first <= 64 -> 0 <= last <= 64 -> is_u64 (is_remote_chunk_word_range_mask first last).
Proof.
  intros Hf Hl. unfold is_remote_chunk_word_range_mask. rewrite (low_bits_ones last) by lia.
  rewrite Z.land_comm, Z.land_ones by lia.
  assert (2 ^ last <= 2 ^ 64) by (apply Z.pow_le_mono_r; lia).
  assert (0 < 2 ^ last) by (apply Z.pow_pos_nonneg; lia).
  unfold in_u. pose proof (Z.mod_pos_bound (not_ulong (is_remote_chunk_low_bits first)) (2 ^ last)). lia.
Qed.

Lemma bounded_testbit x i : is_u64 x -> 64 <= i -> Z.testbit x i = false.
Proof.
  intros Hx Hi. unfold in_u in Hx. destruct (decide (x = 0)) as [->|]; [apply Z.testbit_0_l|].
  apply Z.bits_above_log2; [lia|]. apply Z.log2_lt_pow2; [lia|].
  enough (2 ^ 64 <= 2 ^ i) by lia. apply Z.pow_le_mono_r; lia.
Qed.

(** A word contains a mask when it has each of the mask's bits. *)
Lemma land_mask_eq x mask :
  is_u64 mask ->
  Z.land x mask = mask <-> forall i, 0 <= i < 64 -> Z.testbit mask i = true -> Z.testbit x i = true.
Proof.
  intros Hm. split.
  - intros E i Hi Hb. rewrite <- E, Z.land_spec in Hb. by apply andb_prop in Hb as [].
  - intros H. apply Z.bits_inj'. intros i Hi. rewrite Z.land_spec.
    destruct (Z.testbit mask i) eqn:Eb; [|apply andb_false_r].
    rewrite andb_true_r. destruct (decide (i < 64)); [apply H; [lia|done]|].
    rewrite bounded_testbit in Eb; [done|done|lia].
Qed.

(** ** One word *)

(** The mask the loop computes for a word, and the sectors it covers. *)
Definition word_mask (word first_sector last_sector : Z) : Z :=
  let word_first := u64 (word * IS_REMOTE_CHUNK_BITS_PER_WORD) in
  let first_bit := if word_first <? first_sector
                   then u32 (u64 (first_sector - word_first)) else 0 in
  let last_bit := if last_sector <? u64 (word_first + IS_REMOTE_CHUNK_BITS_PER_WORD)
                  then u32 (u64 (last_sector - word_first))
                  else IS_REMOTE_CHUNK_BITS_PER_WORD in
  is_remote_chunk_word_range_mask first_bit last_bit.

Lemma word_mask_bits word first last :
  0 <= first < last -> last <= 2 ^ 40 -> first / 64 <= word <= (last - 1) / 64 ->
  exists f l, 0 <= f <= 64 /\ 0 <= l <= 64 /\
    word_mask word first last = is_remote_chunk_word_range_mask f l /\
    forall i, 0 <= i < 64 -> (f <=? i) && (i <? l) = in_sectors first (last - first) (word * 64 + i).
Proof.
  intros Hf Hl Hw. change (2 ^ 40) with 1099511627776 in Hl.
  assert (Hwf : 0 <= word * 64 < 1099511627776).
  { Z.div_mod_to_equations. lia. }
  assert (Hw64 : first < word * 64 + 64 /\ word * 64 < last) by (Z.div_mod_to_equations; lia).
  unfold word_mask, IS_REMOTE_CHUNK_BITS_PER_WORD.
  assert (S64 : forall x, 0 <= x < 2199023255552 -> u64 x = x).
  { intros x Hx. apply wrap_small. unfold in_u. pow_lia. }
  assert (S32 : forall x, 0 <= x < 64 -> u32 x = x).
  { intros x Hx. apply wrap_small. unfold in_u. pow_lia. }
  rewrite (S64 (word * 64)), (S64 (word * 64 + 64)) by lia.
  eexists (if word * 64 <? first then first - word * 64 else 0),
    (if last <? word * 64 + 64 then last - word * 64 else 64).
  destruct (Z.ltb_spec (word * 64) first), (Z.ltb_spec last (word * 64 + 64)).
  all: rewrite ?S64, ?S32 by (rewrite ?S64 by lia; lia).
  all: repeat split; try lia.
  all: intros i Hi; unfold in_sectors; apply Bool.eq_iff_eq_true; lia.
Qed.

Lemma testbit_word_mask word first last i :
  0 <= first < last -> last <= 2 ^ 40 -> first / 64 <= word <= (last - 1) / 64 -> 0 <= i < 64 ->
  Z.testbit (word_mask word first last) i = in_sectors first (last - first) (word * 64 + i).
Proof.
  intros Hf Hl Hw Hi. destruct (word_mask_bits word first last) as (f & l & ? & ? & -> & <-); try done.
  by apply testbit_range_mask.
Qed.

Lemma word_mask_bounded word first last :
  0 <= first < last -> last <= 2 ^ 40 -> first / 64 <= word <= (last - 1) / 64 ->
  is_u64 (word_mask word first last).
Proof.
  intros Hf Hl Hw. destruct (word_mask_bits word first last) as (f & l & ? & ? & -> & _); try done.
  by apply range_mask_bounded.
Qed.

(** Setting and clearing a mask in one word. *)
Lemma sector_valid_insert v word x s :
  sector_valid (<[word := x]> v) s =
  if s / 64 =? word then Z.testbit x (s mod 64) else sector_valid v s.
Proof.
  unfold sector_valid, word_of. destruct (Z.eqb_spec (s / 64) word) as [<-|].
  - by rewrite lookup_insert_eq.
  - by rewrite lookup_insert_ne.
Qed.

Lemma word_of_split s : s = s / 64 * 64 + s mod 64 /\ 0 <= s mod 64 < 64.
Proof. Z.div_mod_to_equations. lia. Qed.

(** ** The loop over the words *)

Section words.
Context (first last : Z).
Hypothesis Hrange : 0 <= first < last.
Hypothesis Hlast : last <= 2 ^ 40.

(** The sectors of the range that lie in the words [w, w + n). *)
Definition in_words (w : Z) (n : nat) (s : Z) : bool :=
  (w <=? s / 64) && (s / 64 <? w + Z.of_nat n) && in_sectors first (last - first) s.

Lemma in_words_step w n s :
  in_words w (S n) s =
  ((s / 64 =? w) && in_sectors first (last - first) s) || in_words (w + 1) n s.
Proof.
  unfold in_words. rewrite Nat2Z.inj_succ. generalize (s / 64), (in_sectors first (last - first) s).
  intros k b. destruct b; rewrite ?andb_true_r, ?andb_false_r; [|done].
  destruct (Z.leb_spec w k), (Z.ltb_spec k (w + Z.succ (Z.of_nat n))), (Z.eqb_spec k w),
    (Z.leb_spec (w + 1) k), (Z.ltb_spec k (w + 1 + Z.of_nat n)); done || lia.
Qed.

Lemma in_words_other w n s : (s / 64 =? w) = true -> in_words (w + 1) n s = false.
Proof. unfold in_words. intros H%Z.eqb_eq. by replace (w + 1 <=? s / 64) with false by lia. Qed.

Lemma word_mask_at s w :
  first / 64 <= w <= (last - 1) / 64 -> s / 64 = w ->
  Z.testbit (word_mask w first last) (s mod 64) = in_sectors first (last - first) s.
Proof.
  intros Hw <-. destruct (word_of_split s) as [E ?].
  rewrite testbit_word_mask by done. by rewrite <- E.
Qed.

Lemma validity_words_set n w v s :
  first / 64 <= w -> w + Z.of_nat n <= (last - 1) / 64 + 1 ->
  sector_valid (validity_words n w first last IS_REMOTE_CHUNK_VALIDITY_SET v).1 s =
  in_words w n s || sector_valid v s.
Proof.
  revert w v. induction n as [|n IH]; intros w v Hw Hn.
  - unfold in_words. cbn [validity_words fst].
    destruct (Z.leb_spec w (s / 64)), (Z.ltb_spec (s / 64) (w + Z.of_nat 0)); done || lia.
  - cbn [validity_words]. fold (word_mask w first last). rewrite IH by lia.
    rewrite in_words_step, sector_valid_insert. destruct (s / 64 =? w) eqn:E; [|done].
    rewrite in_words_other by done. apply Z.eqb_eq in E. unfold sector_valid. rewrite E.
    rewrite Z.lor_spec, word_mask_at by (done || lia). cbn.
    rewrite orb_false_r. apply orb_comm.
Qed.

Lemma validity_words_clear n w v s :
  first / 64 <= w -> w + Z.of_nat n <= (last - 1) / 64 + 1 ->
  sector_valid (validity_words n w first last IS_REMOTE_CHUNK_VALIDITY_CLEAR v).1 s =
  negb (in_words w n s) && sector_valid v s.
Proof.
  revert w v. induction n as [|n IH]; intros w v Hw Hn.
  - unfold in_words. cbn [validity_words fst].
    destruct (Z.leb_spec w (s / 64)), (Z.ltb_spec (s / 64) (w + Z.of_nat 0)); done || lia.
  - cbn [validity_words]. fold (word_mask w first last). rewrite IH by lia.
    rewrite in_words_step, sector_valid_insert. destruct (s / 64 =? w) eqn:E; [|done].
    rewrite in_words_other by done. apply Z.eqb_eq in E. unfold sector_valid. rewrite E.
    destruct (word_of_split s) as [_ ?].
    rewrite Z.land_spec, testbit_not_ulong, word_mask_at by (done || lia). cbn.
    rewrite orb_false_r. apply andb_comm.
Qed.

Lemma validity_words_test n w v :
  first / 64 <= w -> w + Z.of_nat n <= (last - 1) / 64 + 1 ->
  let r := validity_words n w first last IS_REMOTE_CHUNK_VALIDITY_TEST v in
  r.1 = v /\ (r.2 = true <-> forall s, in_words w n s = true -> sector_valid v s = true).
Proof.
  revert w. induction n as [|n IH]; intros w Hw Hn; cbn zeta.
  - split; [done|]. split; [|done]. intros _ s. unfold in_words.
    destruct (Z.leb_spec w (s / 64)), (Z.ltb_spec (s / 64) (w + Z.of_nat 0)); done || lia.
  - cbn [validity_words]. fold (word_mask w first last).
    assert (Hm : is_u64 (word_mask w first last)) by (apply word_mask_bounded; done || lia).
    assert (Hword : Z.land (word_of v w) (word_mask w first last) = word_mask w first last <->
      forall s, s / 64 = w -> in_sectors first (last - first) s = true -> sector_valid v s = true).
    { rewrite land_mask_eq by done. unfold sector_valid. split.
      - intros H s E Hs. rewrite E. destruct (word_of_split s). apply H; [done|].
        by rewrite word_mask_at by (done || lia).
      - intros H i Hi Hb. rewrite testbit_word_mask in Hb by (done || lia).
        specialize (H (w * 64 + i)). replace ((w * 64 + i) / 64) with w in H
          by (clear Hm H; Z.div_mod_to_equations; lia).
        replace ((w * 64 + i) mod 64) with i in H by (clear Hm H; Z.div_mod_to_equations; lia). auto. }
    destruct (Z.eqb_spec (Z.land (word_of v w) (word_mask w first last)) (word_mask w first last))
      as [E|E]; cbn [negb].
    + destruct (IH (w + 1)) as [H1 H2]; [lia|lia|]. split; [done|]. rewrite H2. clear H1 H2.
      split; intros H s Hs.
      * rewrite in_words_step in Hs. apply orb_prop in Hs as [Hs|Hs]; [|by apply H].
        apply andb_prop in Hs as [Hs1%Z.eqb_eq Hs2]. by apply Hword.
      * apply H. rewrite in_words_step, Hs. apply orb_true_r.
    + split; [done|]. split; [done|]. intros H. exfalso. apply E, Hword. intros s E' Hs.
      apply H. rewrite in_words_step, Hs. replace (s / 64 =? w) with true by lia. done.
Qed.

(** The words written are those of the range, and a word stays 64 bits wide. *)
Lemma validity_words_dom n w op v k :
  is_Some ((validity_words n w first last op v).1 !! k) ->
  is_Some (v !! k) \/ w <= k < w + Z.of_nat n.
Proof.
  revert w v. induction n as [|n IH]; intros w v; cbn [validity_words]; [auto|].
  assert (Hi : forall x, is_Some (<[w := x]> v !! k) ->
    is_Some (v !! k) \/ w <= k < w + Z.of_nat (S n)).
  { intros x. destruct (decide (w = k)) as [->|]; [right; lia|].
    rewrite lookup_insert_ne by done. auto. }
  destruct op; cbn zeta.
  - case_match; cbn; [auto|]. intros [?|?]%IH; [auto|right; lia].
  - intros [?|?]%IH; [eauto|right; lia].
  - intros [?|?]%IH; [eauto|right; lia].
Qed.
End words.

(** ** The operations *)

Section operations.
Context (v : gmap Z Z) (first count : Z).
Hypothesis Hfirst : 0 <= first.
Hypothesis Hcount : 0 < count.
Hypothesis Hbound : first + count <= 2 ^ 40.

Lemma sector_end_small : u64 (first + count) = first + count /\ u64 (first + count - 1) = first + count - 1.
Proof. split; apply wrap_small; unfold in_u; revert Hbound; pow_lia. Qed.

Lemma in_words_all s :
  in_words first (first + count) (first / 64)
    (Z.to_nat ((first + count - 1) / 64 - first / 64 + 1)) s = in_sectors first count s.
Proof.
  unfold in_words, in_sectors.
  replace (first + (first + count - first)) with (first + count) by lia.
  destruct (Z.leb_spec first s), (Z.ltb_spec s (first + count)); cbn; try by rewrite andb_false_r.
  assert (first / 64 <= s / 64 <= (first + count - 1) / 64) by (split; apply Z.div_le_mono; lia).
  rewrite andb_true_r. apply andb_true_intro. split; [apply Z.leb_le|apply Z.ltb_lt]; lia.
Qed.

Lemma last_word_ge : first / 64 <= (first + count - 1) / 64.
Proof. apply Z.div_le_mono; lia. Qed.

Lemma validity_update_spec valid s :
  sector_valid (is_remote_chunk_validity_update v first count valid) s =
  if in_sectors first count s then valid else sector_valid v s.
Proof.
  unfold is_remote_chunk_validity_update, is_remote_chunk_validity_apply, IS_REMOTE_CHUNK_BITS_PER_WORD.
  destruct sector_end_small as [E1 E2]. rewrite E1, E2. pose proof last_word_ge.
  destruct valid.
  - rewrite validity_words_set by lia. rewrite in_words_all. by destruct (in_sectors first count s).
  - rewrite validity_words_clear by lia. rewrite in_words_all. by destruct (in_sectors first count s).
Qed.

Lemma validity_test_spec :
  is_remote_chunk_validity_test v first count = true <->
  forall s, first <= s < first + count -> sector_valid v s = true.
Proof.
  unfold is_remote_chunk_validity_test, is_remote_chunk_validity_apply, IS_REMOTE_CHUNK_BITS_PER_WORD.
  destruct sector_end_small as [E1 E2]. rewrite E1, E2. pose proof last_word_ge.
  destruct (validity_words_test first (first + count) ltac:(lia) ltac:(lia)
    (Z.to_nat ((first + count - 1) / 64 - first / 64 + 1)) (first / 64) v) as [_ ->]; [lia|lia|].
  split; intros Hs s; specialize (Hs s); rewrite in_words_all in *; unfold in_sectors in *; intros ?;
    apply Hs; lia.
Qed.

Lemma validity_update_dom valid k :
  is_Some (is_remote_chunk_validity_update v first count valid !! k) ->
  is_Some (v !! k) \/ first / 64 <= k <= (first + count - 1) / 64.
Proof.
  unfold is_remote_chunk_validity_update, is_remote_chunk_validity_apply, IS_REMOTE_CHUNK_BITS_PER_WORD.
  destruct sector_end_small as [E1 E2]. rewrite E1, E2. pose proof last_word_ge.
  intros [?|?]%validity_words_dom; [auto|]. right. lia.
Qed.
End operations.
