(* ===== verification/RemoteChunkInv.v ===== *)
(** * Remote chunks: the module invariant

    What the loops of is_remote_chunk.c compute, as counts and quantifiers
    over the chunks and the roster, and the invariant of the module: the
    counters count the chunks, every chunk is in a state its fields agree
    with, the mapping claim and the eviction batches are those of the chunks,
    no two chunks share provider memory, and no provider holds more chunks
    than it reported room for. *)
From S2P Require Import Prelude RemoteChunkData RemoteChunk RemoteChunkValidity.

Abbreviation UNMAPPED := IS_REMOTE_CHUNK_UNMAPPED.
Abbreviation MAPPING := IS_REMOTE_CHUNK_MAPPING.
Abbreviation MAPPED := IS_REMOTE_CHUNK_MAPPED.
Abbreviation EVICTING := IS_REMOTE_CHUNK_EVICTING.
Abbreviation SPC := IS_REMOTE_CHUNK_SECTORS_PER_CHUNK.
Abbreviation ID_MAX := IS_REMOTE_CHUNK_ID_MAX.

(** Evaluates the tests of a known state. *)
Ltac decide_constants :=
  repeat match goal with
  | |- context [bool_decide (?a = ?b)] =>
      first [ rewrite (bool_decide_eq_true_2 (a = b)) by done
            | rewrite (bool_decide_eq_false_2 (a = b)) by done ]
  | H : context [bool_decide (?a = ?b)] |- _ =>
      first [ rewrite (bool_decide_eq_true_2 (a = b)) in H by done
            | rewrite (bool_decide_eq_false_2 (a = b)) in H by done ]
  end.

Arguments count : simpl never.

Definition chunk_mapped (c : is_remote_chunk) : bool := bool_decide (ck_state c = MAPPED).
Definition chunk_mapping (c : is_remote_chunk) : bool := bool_decide (ck_state c = MAPPING).

(** ** Handles and the roster *)

Lemma handle_equal_eq a b : is_remote_chunk_provider_handle_equal a b = bool_decide (a = b).
Proof.
  destruct a as [a0 a1], b as [b0 b1]. unfold is_remote_chunk_provider_handle_equal. cbn.
  destruct (Z.eqb_spec a0 b0) as [->|], (Z.eqb_spec a1 b1) as [->|]; cbn; symmetry;
    first [by apply bool_decide_eq_true_2 | apply bool_decide_eq_false_2; congruence].
Qed.

Lemma handle_equal_refl a : is_remote_chunk_provider_handle_equal a a = true.
Proof. rewrite handle_equal_eq. by apply bool_decide_eq_true_2. Qed.

Record provider_typed (p : is_remote_chunk_provider) : Prop := {
  pt_weight : 1 <= pr_placement_weight p <= 1000;
  pt_reported : is_u32 (pr_reported_available_chunks p);
  pt_assigned : 0 <= pr_observation_assigned_chunks p <= 128;
  pt_debited : 0 <= pr_observation_debited_chunks p <= 128;
  pt_sequence : is_u64 (pr_observation_sequence p)
}.

Record roster_inv (m : is_remote_chunk_module) : Prop := {
  ri_length : Z.of_nat (length (providers m)) = provider_count m;
  ri_count : 0 <= provider_count m <= 64;
  ri_identity : 0 < identity m < ID_MAX;
  ri_handle : forall i p, providers m !! i = Some p ->
    pr_handle p = {| opaque0 := identity m; opaque1 := Z.of_nat i + 1 |};
  ri_typed : forall i p, providers m !! i = Some p -> provider_typed p
}.

(** A provider of the roster whose connection has not failed. *)
Definition provider_live (m : is_remote_chunk_module) (h : is_remote_chunk_provider_handle) : Prop :=
  exists i p, providers m !! i = Some p /\ pr_handle p = h /\ pr_failed p = false.

Lemma roster_handle_inj m i j p q :
  roster_inv m -> providers m !! i = Some p -> providers m !! j = Some q ->
  pr_handle p = pr_handle q -> i = j /\ p = q.
Proof.
  intros Hr Hi Hj E. rewrite (ri_handle m Hr i p Hi), (ri_handle m Hr j q Hj) in E.
  injection E as E. assert (i = j) as -> by lia. split; [done|congruence].
Qed.

Lemma roster_index_spec m h i :
  roster_inv m ->
  is_remote_chunk_provider_roster_index_locked m h = inr i <->
  0 <= i /\ exists p, providers m !! Z.to_nat i = Some p /\ pr_handle p = h.
Proof.
  intros Hr. unfold is_remote_chunk_provider_roster_index_locked, provider_at.
  pose proof (ri_length m Hr) as Hl. split.
  - case_match eqn:E; [|done]. intros [= ->]. apply find_below_Some in E as (Hi & Hp & _).
    split; [lia|]. eexists. split; [apply (lookup_at _ _ zero_provider); lia|].
    rewrite handle_equal_eq in Hp. by apply bool_decide_eq_true_1 in Hp.
  - intros (Hi & p & Hp & Hh). case_match eqn:E.
    + apply find_below_Some in E as (Hz & Hq & _). f_equal.
      rewrite handle_equal_eq in Hq. apply bool_decide_eq_true_1 in Hq.
      assert (Hlk : providers m !! Z.to_nat z = Some (nth (Z.to_nat z) (providers m) zero_provider))
        by (apply lookup_at; lia).
      destruct (roster_handle_inj m _ _ _ _ Hr Hlk Hp) as [Hij _]; [congruence|]. lia.
    + exfalso. apply lookup_lt_Some in Hp as Hlt.
      pose proof (proj1 (find_below_None _ _) E i ltac:(lia)) as Hf. cbn beta in Hf.
      rewrite (nth_lookup_Some _ _ _ _ Hp), handle_equal_eq in Hf.
      by apply bool_decide_eq_false_1 in Hf.
Qed.

Lemma provider_index_spec m h i :
  roster_inv m ->
  is_remote_chunk_provider_index_locked m h = inr i <->
  0 <= i /\ exists p, providers m !! Z.to_nat i = Some p /\ pr_handle p = h /\ pr_failed p = false.
Proof.
  intros Hr. unfold is_remote_chunk_provider_index_locked.
  destruct (is_remote_chunk_provider_roster_index_locked m h) as [e|j] eqn:E.
  - split; [done|]. intros (Hi & p & Hp & Hh & _).
    assert (is_remote_chunk_provider_roster_index_locked m h = inr i) by
      (apply roster_index_spec; eauto). congruence.
  - apply roster_index_spec in E as (Hj & q & Hq & Hh); [|done].
    unfold provider_at. rewrite (nth_lookup_Some _ _ _ _ Hq). split.
    + destruct (pr_failed q) eqn:Ef; [done|]. intros [= <-]. eauto.
    + intros (Hi & p & Hp & Hhp & Hf).
      destruct (roster_handle_inj m _ _ _ _ Hr Hp Hq) as [Hij ->]; [congruence|].
      rewrite Hf. f_equal. lia.
Qed.

Lemma provider_valid_spec m h :
  roster_inv m -> is_remote_chunk_provider_valid_locked m h = true <-> provider_live m h.
Proof.
  intros Hr. unfold is_remote_chunk_provider_valid_locked, provider_live.
  destruct (is_remote_chunk_provider_index_locked m h) as [e|i] eqn:E.
  - split; [done|]. intros (i & p & Hp & Hh & Hf).
    assert (is_remote_chunk_provider_index_locked m h = inr (Z.of_nat i)).
    { apply provider_index_spec; [done|]. rewrite Nat2Z.id. split; [lia|eauto]. }
    congruence.
  - split; [|done]. intros _. apply provider_index_spec in E as (_ & p & ?); eauto.
Qed.

(** ** What the loops over the chunks compute *)

Lemma u32_small x : 0 <= x < 4294967296 -> u32 x = x.
Proof. intros H. apply wrap_small. unfold in_u. pow_lia. Qed.

Lemma u64_small x : 0 <= x <= ID_MAX -> u64 x = x.
Proof. intros H. apply wrap_small. unfold in_u, ID_MAX in *. pow_lia. Qed.

Section loops.
Context (m : is_remote_chunk_module).
Hypothesis Hlen : Z.of_nat (length (chunks m)) = chunk_count m.
Hypothesis Hcount : 0 < chunk_count m <= 128.

Lemma chunk_at_lookup j : 0 <= j < chunk_count m -> chunks m !! Z.to_nat j = Some (chunk_at m j).
Proof. intros Hj. apply lookup_at. lia. Qed.

Lemma count_take_chunk f j :
  0 <= j < chunk_count m ->
  count f (take (Z.to_nat (j + 1)) (chunks m)) =
  (count f (take (Z.to_nat j) (chunks m)) + b2n (f (chunk_at m j)))%nat.
Proof.
  intros Hj. replace (Z.to_nat (j + 1)) with (S (Z.to_nat j)) by lia.
  by apply count_take_S, chunk_at_lookup.
Qed.

Lemma count_take_all f : count f (take (Z.to_nat (chunk_count m)) (chunks m)) = count f (chunks m).
Proof. rewrite take_ge by lia. done. Qed.

Lemma count_le_128 f : Z.of_nat (count f (chunks m)) <= 128.
Proof. pose proof (count_le_length f (chunks m)). lia. Qed.

Lemma count_take_le f j : (count f (take j (chunks m)) <= 128)%nat.
Proof. pose proof (count_le_length f (take j (chunks m))). rewrite length_take in H. lia. Qed.

Lemma provider_debits_spec h :
  is_remote_chunk_provider_debits_locked m h =
  (Z.of_nat (count (fun c => chunk_assigned c && chunk_of_provider h c) (chunks m)),
   Z.of_nat (count (fun c => chunk_mapping c && chunk_of_provider h c) (chunks m))).
Proof.
  unfold is_remote_chunk_provider_debits_locked.
  set (fa := fun c => chunk_assigned c && chunk_of_provider h c).
  set (fm := fun c => chunk_mapping c && chunk_of_provider h c).
  rewrite <- (count_take_all fa), <- (count_take_all fm).
  apply (for_loop_ind0 (fun j s => s = (Z.of_nat (count fa (take (Z.to_nat j) (chunks m))),
                                        Z.of_nat (count fm (take (Z.to_nat j) (chunks m)))))); [lia|done|].
  intros j s Hj ->. rewrite !count_take_chunk by done.
  pose proof (count_take_le fa (Z.to_nat j)). pose proof (count_take_le fm (Z.to_nat j)).
  revert H H0. generalize (count fa (take (Z.to_nat j) (chunks m))), (count fm (take (Z.to_nat j) (chunks m))).
  intros a b Ha Hb. unfold fa, fm, chunk_of_provider, chunk_assigned, chunk_mapping.
  destruct (ck_state (chunk_at m j)),
    (is_remote_chunk_provider_handle_equal (ck_provider (chunk_at m j)) h);
    decide_constants; cbn [negb orb andb b2n]; rewrite ?u32_small by lia; f_equal; lia.
Qed.

Lemma provider_debits_total h :
  Z.of_nat (count (fun c => chunk_assigned c && chunk_of_provider h c) (chunks m)) +
  Z.of_nat (count (fun c => chunk_mapping c && chunk_of_provider h c) (chunks m)) =
  Z.of_nat (count (chunk_of_provider h) (chunks m)).
Proof.
  rewrite (count_split (chunk_of_provider h) (fun c => chunk_assigned c && chunk_of_provider h c)
    (fun c => chunk_mapping c && chunk_of_provider h c)); [lia|].
  intros c _. unfold chunk_assigned, chunk_mapping, chunk_of_provider.
  destruct (ck_state c); decide_constants; by destruct (is_remote_chunk_provider_handle_equal (ck_provider c) h).
Qed.

(** ** Batches *)

Definition selects (selected : list bool) (member : is_remote_chunk -> bool) : Prop :=
  length selected = 128%nat /\
  forall j, 0 <= j < chunk_count m -> selected_at selected j = member (chunk_at m j).

Lemma selected_at_set selected i j b :
  length selected = 128%nat -> 0 <= i < 128 -> 0 <= j ->
  selected_at (set_at selected i b) j = if decide (j = i) then b else selected_at selected j.
Proof. intros Hl Hi Hj. unfold selected_at. rewrite nth_set_at by lia. done. Qed.

Lemma no_chunk_selected_at j : selected_at no_chunk_selected j = false.
Proof.
  unfold selected_at, no_chunk_selected. rewrite nth_lookup.
  destruct (_ !! _) eqn:E; [|done]. by apply lookup_replicate_1 in E as [-> _].
Qed.

Lemma batch_digest_ext s1 s2 :
  (forall j, 0 <= j < chunk_count m -> selected_at s1 j = selected_at s2 j) ->
  is_remote_chunk_batch_digest s1 (chunk_count m) = is_remote_chunk_batch_digest s2 (chunk_count m).
Proof.
  intros H. unfold is_remote_chunk_batch_digest. apply for_loop_ext. intros j d Hj.
  by rewrite H by lia.
Qed.

Lemma claim_members_Some member ok selected n :
  claim_members m member ok = Some (selected, n) ->
  selects selected member /\ n = Z.of_nat (count member (chunks m)) /\
  (forall k c, chunks m !! k = Some c -> member c = true -> ok c = true).
Proof.
  unfold claim_members. case_match eqn:E; [done|]. intros [= ->].
  pose (P := fun (j : Z) (s : list bool * Z) => length s.1 = 128%nat /\
    (forall i, 0 <= i < chunk_count m ->
      selected_at s.1 i = if decide (i < j) then member (chunk_at m i) else false) /\
    s.2 = Z.of_nat (count member (take (Z.to_nat j) (chunks m))) /\
    (forall i, 0 <= i < j -> member (chunk_at m i) = true -> ok (chunk_at m i) = true)).
  assert (HP : P (chunk_count m) (selected, n)).
  { refine (for_err_ind0 P _ _ _ _ _ _ _ E); [lia| |].
    - split; [apply length_replicate|]. split.
      + intros i Hi. rewrite decide_False by lia. apply no_chunk_selected_at.
      + split; [done|]. intros i Hi. lia.
    - intros j [sel c] s' Hj (H1 & H2 & H3 & H4). cbn [fst snd] in *. subst c.
      pose proof (count_take_le member (Z.to_nat j)).
      destruct (member (chunk_at m j)) eqn:Em; cbn [negb].
      + destruct (ok (chunk_at m j)) eqn:Eo; [|done]. cbn [negb]. intros [= <-].
        split; [|split; [|split]]; cbn [fst snd].
        * by rewrite length_set_at.
        * intros i Hi. rewrite selected_at_set by lia. destruct (decide (i = j)) as [->|].
          -- rewrite decide_True by lia. done.
          -- rewrite H2 by done. destruct (decide (i < j)), (decide (i < j + 1)); done || lia.
        * rewrite count_take_chunk, Em by done. cbn [b2n]. rewrite u32_small by lia. lia.
        * intros i Hi. destruct (decide (i = j)) as [->|]; [done|]. apply H4. lia.
      + intros [= <-]. split; [|split; [|split]]; cbn [fst snd].
        * done.
        * intros i Hi. rewrite H2 by done. destruct (decide (i < j)), (decide (i < j + 1)); try (done || lia).
          replace i with j by lia. done.
        * rewrite count_take_chunk, Em by done. cbn [b2n]. lia.
        * intros i Hi. destruct (decide (i = j)) as [->|]; [by rewrite Em|]. apply H4. lia. }
  destruct HP as (H1 & H2 & H3 & H4). cbn [fst snd] in *. rewrite count_take_all in H3.
  split; [|split; [done|]].
  - split; [done|]. intros j Hj. rewrite H2 by done. by rewrite decide_True by lia.
  - intros k c Hk Hm. apply lookup_lt_Some in Hk as Hlt.
    specialize (H4 (Z.of_nat k)). unfold chunk_at in H4. rewrite (nth_at _ _ _ _ Hk) in H4.
    apply H4; [lia|done].
Qed.

Lemma claim_members_complete member ok :
  (forall k c, chunks m !! k = Some c -> member c = true -> ok c = true) ->
  exists selected, claim_members m member ok = Some (selected, Z.of_nat (count member (chunks m))) /\
    selects selected member.
Proof.
  intros Hok. destruct (claim_members m member ok) as [[selected n]|] eqn:E.
  - destruct (claim_members_Some _ _ _ _ E) as (H1 & -> & _). eauto.
  - exfalso. unfold claim_members in E. case_match eqn:E1; [|done].
    apply (for_err_inl (fun _ _ => True)) in E1 as (j & [sel c] & Hj & _ & Hb); [|done|done].
    assert (0 <= j < chunk_count m) as Hj' by lia.
    specialize (Hok _ _ (chunk_at_lookup j Hj')).
    destruct (member (chunk_at m j)); [|done]. by rewrite Hok in Hb.
Qed.
End loops.

(** ** The invariant of the mappings *)

(** A provider region that can hold a whole chunk. *)
Definition region_ok (c : is_remote_chunk) : Prop :=
  0 < ck_remote_address c <= ID_MAX - (SPC * IS_REMOTE_CHUNK_SECTOR_BYTES - 1) /\
  0 < ck_remote_key c <= IS_REMOTE_CHUNK_U32_MAX /\ is_u32 (ck_provider_chunk c) /\
  0 < ck_mapping_generation c.

Definition chunk_ok (m : is_remote_chunk_module) (c : is_remote_chunk) : Prop :=
  0 <= ck_mapping_generation c <= next_mapping_generation m /\
  match ck_state c with
  | IS_REMOTE_CHUNK_UNMAPPED =>
      ck_provider c = zero_handle /\ ck_mapping_claim_id c = 0 /\ ck_eviction_claim_id c = 0
  | IS_REMOTE_CHUNK_MAPPING =>
      provider_live m (ck_provider c) /\ 0 < ck_mapping_claim_id c /\ ck_eviction_claim_id c = 0
  | IS_REMOTE_CHUNK_MAPPED =>
      provider_live m (ck_provider c) /\ ck_mapping_claim_id c = 0 /\
      ck_eviction_claim_id c = 0 /\ region_ok c
  | IS_REMOTE_CHUNK_EVICTING =>
      provider_live m (ck_provider c) /\ ck_mapping_claim_id c = 0 /\
      0 < ck_eviction_claim_id c <= next_eviction_claim_id m /\
      0 < ck_transition_generation c <= next_transition_generation m /\ region_ok c
  end.

(** The claim the module holds for a chunk being mapped. *)
Definition claim_of (m : is_remote_chunk_module) (k : nat) (c : is_remote_chunk) :
    is_remote_chunk_mapping_claim_internal :=
  {| mc_magic := IS_REMOTE_CHUNK_CLAIM_MAGIC;
     mc_module_identity := identity m;
     mc_provider := ck_provider c;
     mc_claim_id := ck_mapping_claim_id c;
     mc_transition_generation := ck_transition_generation c;
     mc_batch_digest :=
       is_remote_chunk_batch_digest (set_at no_chunk_selected (Z.of_nat k) true) (chunk_count m);
     mc_chunk_count := 1;
     mc_capacity_debit := 1 |}.

(** At most one chunk is being mapped, under the module's active claim. *)
Inductive claim_inv (m : is_remote_chunk_module) : Prop :=
| no_claim :
    active_mapping_claims m = 0 -> active_mapping_claim m = zero_mapping_claim ->
    (forall k c, chunks m !! k = Some c -> ck_state c <> MAPPING) -> claim_inv m
| one_claim k c :
    active_mapping_claims m = 1 -> chunks m !! k = Some c -> ck_state c = MAPPING ->
    active_mapping_claim m = claim_of m k c ->
    0 < ck_mapping_claim_id c <= next_mapping_claim_id m ->
    0 < ck_transition_generation c <= next_transition_generation m ->
    (forall k' c', chunks m !! k' = Some c' -> ck_state c' = MAPPING -> k' = k) -> claim_inv m.

(** The identifiers of the evictions in progress. *)
Definition eviction_ids (cs : list is_remote_chunk) : gset Z :=
  list_to_set (filter (fun x => x <> 0) (ck_eviction_claim_id <$> cs)).

Arguments eviction_ids : simpl never.

Lemma elem_of_eviction_ids cs x :
  x ∈ eviction_ids cs <-> x <> 0 /\ exists k c, cs !! k = Some c /\ ck_eviction_claim_id c = x.
Proof.
  unfold eviction_ids. rewrite elem_of_list_to_set, list_elem_of_filter, list_elem_of_fmap. split.
  - intros (H & c & -> & Hc). apply list_elem_of_lookup in Hc as [k Hk]. eauto.
  - intros (H & k & c & Hk & <-). split; [done|]. exists c. split; [done|].
    apply list_elem_of_lookup. eauto.
Qed.

Lemma eviction_ids_size cs : (size (eviction_ids cs) <= length cs)%nat.
Proof.
  unfold eviction_ids. induction cs as [|c cs IH]; [done|]. rewrite fmap_cons, filter_cons.
  destruct (decide _); [|cbn [length]; lia]. rewrite list_to_set_cons, size_union_alt, size_singleton.
  etrans; [|apply le_n_S, IH]. by apply le_n_S, subseteq_size, subseteq_difference_l.
Qed.

Record mapping_inv (m : is_remote_chunk_module) : Prop := {
  v_roster : roster_inv m;
  v_length : Z.of_nat (length (chunks m)) = chunk_count m;
  v_count : 0 < chunk_count m <= 128;
  v_sample : 0 < placement_sample_size m <= 64;
  v_ids : 0 <= next_mapping_claim_id m <= ID_MAX /\ 0 <= next_eviction_claim_id m <= ID_MAX /\
    0 <= next_transition_generation m <= ID_MAX /\ 0 <= next_mapping_generation m <= ID_MAX;
  v_assigned : assigned_chunks m = Z.of_nat (count chunk_assigned (chunks m));
  v_usable : usable_chunks m = Z.of_nat (count chunk_mapped (chunks m));
  v_chunk : forall k c, chunks m !! k = Some c -> chunk_ok m c;
  v_claim : claim_inv m;
  v_evictions : active_eviction_claims m = Z.of_nat (size (eviction_ids (chunks m)));
  v_batches : forall k k' c c', chunks m !! k = Some c -> chunks m !! k' = Some c' ->
    ck_eviction_claim_id c = ck_eviction_claim_id c' -> ck_eviction_claim_id c <> 0 ->
    ck_provider c = ck_provider c' /\ ck_transition_generation c = ck_transition_generation c';
  v_alias : forall k k' c c', chunks m !! k = Some c -> chunks m !! k' = Some c' ->
    chunk_assigned c = true -> chunk_assigned c' = true -> ck_provider c = ck_provider c' ->
    ck_provider_chunk c = ck_provider_chunk c' -> k = k';
  v_capacity : forall i p, providers m !! i = Some p ->
    Z.of_nat (count (chunk_of_provider (pr_handle p)) (chunks m)) <=
    pr_observation_debited_chunks p + pr_reported_available_chunks p
}.

(** ** The parts of the module the invariant reads

    [core] erases the rest, so an operation that leaves the core of the
    module alone preserves the invariant. *)

Definition chunk_core (c : is_remote_chunk) : is_remote_chunk :=
  c <| ck_activity := 0 |> <| ck_active_io_leases := 0 |>.

Definition core (m : is_remote_chunk_module) : is_remote_chunk_module :=
  m <| chunks := map chunk_core (chunks m) |>
    <| placement_candidate_indices := [] |> <| placement_sample_indices := [] |>
    <| valid_sectors := ∅ |> <| mode := 0 |> <| placement_seed := 0 |>
    <| placement_rng_state := 0 |>
    <| hot_policy := {| threshold := 0; read_weight := 0; write_weight := 0 |} |>
    <| next_io_lease_id := 0 |> <| invariant_count := 0 |>
    <| last_mapping_terminal_claim := zero_mapping_claim |>
    <| last_mapping_terminal_action := IS_REMOTE_CHUNK_MAPPING_TERMINAL_NONE |>
    <| latest_invariant := IS_REMOTE_CHUNK_INVARIANT_NONE |>
    <| active_eviction_waits := 0 |> <| active_io_leases := 0 |> <| quiescing := false |>.

Lemma lookup_core_1 m k c : chunks m !! k = Some c -> chunks (core m) !! k = Some (chunk_core c).
Proof. intros H. cbn. by rewrite list_lookup_fmap, H. Qed.

Lemma lookup_core_2 m k c' :
  chunks (core m) !! k = Some c' -> exists c, chunks m !! k = Some c /\ c' = chunk_core c.
Proof.
  cbn. rewrite list_lookup_fmap. destruct (chunks m !! k) as [c|]; [|done].
  intros [= <-]. eauto.
Qed.

Lemma count_core f m :
  (forall c, f (chunk_core c) = f c) -> count f (chunks (core m)) = count f (chunks m).
Proof.
  intros H. change (chunks (core m)) with (map chunk_core (chunks m)).
  induction (chunks m) as [|c cs IH]; [done|].
  change (b2n (f (chunk_core c)) + count f (map chunk_core cs) = b2n (f c) + count f cs)%nat.
  by rewrite H, IH.
Qed.

Lemma eviction_ids_core m : eviction_ids (chunks (core m)) = eviction_ids (chunks m).
Proof. unfold eviction_ids. cbn. f_equal. f_equal. rewrite <- list_fmap_compose. done. Qed.

Lemma chunk_ok_core m c : chunk_ok (core m) (chunk_core c) <-> chunk_ok m c.
Proof. done. Qed.

Lemma claim_inv_core m : claim_inv (core m) <-> claim_inv m.
Proof.
  split; intros [H1 H2 H3|k c H1 H2 H3 H4 H5 H6 H7].
  - apply no_claim; [done|done|]. intros k c Hk. exact (H3 _ _ (lookup_core_1 _ _ _ Hk)).
  - apply lookup_core_2 in H2 as (c0 & H2 & ->).
    apply (one_claim _ k c0); try done. intros k' c' Hk. exact (H7 _ _ (lookup_core_1 _ _ _ Hk)).
  - apply no_claim; [done|done|]. intros k c (c0 & Hk & ->)%lookup_core_2. exact (H3 _ _ Hk).
  - apply (one_claim _ k (chunk_core c)); try done; [by apply lookup_core_1|].
    intros k' c' (c0 & Hk & ->)%lookup_core_2. exact (H7 _ _ Hk).
Qed.

Lemma mapping_inv_core m : mapping_inv (core m) <-> mapping_inv m.
Proof.
  split; intros [[] ? ? ? ? Ha Hu Hc Hcl He Hb Hal Hcap]; split; try done.
  - cbn in *. by rewrite length_map in *.
  - by rewrite count_core in Ha.
  - by rewrite count_core in Hu.
  - intros k c Hk. apply chunk_ok_core. exact (Hc k _ (lookup_core_1 _ _ _ Hk)).
  - by apply claim_inv_core.
  - by rewrite eviction_ids_core in He.
  - intros k k' c c' H1%lookup_core_1 H2%lookup_core_1. exact (Hb _ _ _ _ H1 H2).
  - intros k k' c c' H1%lookup_core_1 H2%lookup_core_1. exact (Hal _ _ _ _ H1 H2).
  - intros i p Hp. specialize (Hcap i p Hp). by rewrite count_core in Hcap.
  - cbn in *. by rewrite length_map in *.
  - by rewrite count_core.
  - by rewrite count_core.
  - intros k c (c0 & Hk & ->)%lookup_core_2. apply chunk_ok_core. by apply (Hc k).
  - by apply claim_inv_core.
  - by rewrite eviction_ids_core.
  - intros k k' c c' (c0 & H1 & ->)%lookup_core_2 (c1 & H2 & ->)%lookup_core_2.
    exact (Hb _ _ _ _ H1 H2).
  - intros k k' c c' (c0 & H1 & ->)%lookup_core_2 (c1 & H2 & ->)%lookup_core_2.
    exact (Hal _ _ _ _ H1 H2).
  - intros i p Hp. specialize (Hcap i p Hp). by rewrite count_core.
Qed.

Lemma mapping_inv_frame m m' : core m' = core m -> mapping_inv m -> mapping_inv m'.
Proof. intros E H. apply mapping_inv_core. rewrite E. by apply mapping_inv_core. Qed.

(** Writing back a chunk with the same core. *)
Lemma core_set_chunk m i c :
  chunk_core c = chunk_core (chunk_at m i) -> core (set_chunk m i c) = core m.
Proof.
  intros E. unfold core, set_chunk, set_at. cbn.
  assert (map chunk_core (<[Z.to_nat i := c]> (chunks m)) = map chunk_core (chunks m)) as Hc.
  { apply list_eq. intros k. rewrite !list_lookup_fmap. destruct (decide (k = Z.to_nat i)) as [->|].
    - destruct (decide (Z.to_nat i < length (chunks m))%nat) as [Hlt|Hge].
      + rewrite list_lookup_insert_eq by done. cbn. rewrite E. unfold chunk_at.
        destruct (lookup_lt_is_Some_2 _ _ Hlt) as [x Hx]. rewrite Hx. cbn.
        by rewrite (nth_lookup_Some _ _ _ _ Hx).
      + by rewrite list_insert_ge by lia.
    - by rewrite list_lookup_insert_ne. }
  by rewrite Hc.
Qed.

(** * Remote chunks: the operations preserve the mapping invariant

    Observation, claiming, committing and aborting a mapping. *)

(** ** Frames: operations outside the core *)

Lemma core_note_invariant m e : core (is_remote_chunk_note_invariant_locked m e) = core m.
Proof. unfold is_remote_chunk_note_invariant_locked. by case_match. Qed.

Lemma core_hot_policy_set m p : core (is_remote_chunk_hot_policy_set m p).1.1 = core m.
Proof. unfold is_remote_chunk_hot_policy_set. by repeat case_match. Qed.

Lemma core_note_chunk_activity w c : chunk_core (note_chunk_activity w c) = chunk_core c.
Proof. unfold note_chunk_activity. by case_match. Qed.

Lemma core_note_activity m start n kind : core (is_remote_chunk_note_activity m start n kind).1.1 = core m.
Proof.
  unfold is_remote_chunk_note_activity. repeat (case_match; [done|]).
  set (w := if kind =? _ then _ else _). destruct (for_loop _ _ _ _) as [m' needed] eqn:E. cbn.
  enough (core (m', needed).1 = core m) by done. rewrite <- E. clear E m' needed.
  refine (for_loop_ind (fun _ s => core s.1 = core m) _ _ _ _ _ _); [done|].
  intros j [m1 b] _ IH. cbn [fst] in *. rewrite core_set_chunk; [done|]. apply core_note_chunk_activity.
Qed.

Lemma core_quiesce m : core (is_remote_chunk_module_quiesce m).1 = core m.
Proof.
  unfold is_remote_chunk_module_quiesce. case_match; cbn [fst]; [|done]. apply core_note_invariant.
Qed.

Lemma core_destroy m m' r : is_remote_chunk_module_destroy m = (Some m', r) -> core m' = core m.
Proof.
  unfold is_remote_chunk_module_destroy. case_match; [|done]. intros [= <- _].
  by rewrite core_note_invariant.
Qed.

Lemma core_wait_enter m c d m' : eviction_wait_enter m c d = inr m' -> core m' = core m.
Proof. unfold eviction_wait_enter. repeat (case_match; [done|]). by intros [= <-]. Qed.

Lemma core_acquire m rq a st : core (is_remote_chunk_io_lease_acquire m rq a st).1.1 = core m.
Proof.
  unfold is_remote_chunk_io_lease_acquire. destruct rq as [rq|]; [|done].
  repeat (case_match; [done|]). cbn -[core set_chunk chunk_at].
  match goal with |- core ((set_chunk ?m1 ?i ?c) <| active_io_leases := _ |>) = _ =>
    change (core (set_chunk m1 i c) = core m) end.
  rewrite core_set_chunk; repeat case_match; done.
Qed.

Lemma core_resolve m a st o : core (is_remote_chunk_io_lease_resolve m a st o).1.1.1 = core m.
Proof.
  unfold is_remote_chunk_io_lease_resolve. repeat (case_match; cbn [fst]; try done).
  apply core_note_invariant.
Qed.

Lemma core_release m a st : core (is_remote_chunk_io_lease_release m a st).1.1 = core m.
Proof.
  unfold is_remote_chunk_io_lease_release.
  repeat (case_match; cbn [fst]; [by rewrite ?core_note_invariant|]). cbn -[core set_chunk chunk_at].
  match goal with |- core ((set_chunk ?m1 ?i ?c) <| active_io_leases := _ |>) = _ =>
    change (core (set_chunk m1 i c) = core m) end.
  by rewrite core_set_chunk.
Qed.

Lemma roster_inv_frame m m' :
  providers m' = providers m -> provider_count m' = provider_count m -> identity m' = identity m ->
  roster_inv m -> roster_inv m'.
Proof. intros E1 E2 E3 []. split; rewrite ?E1, ?E2, ?E3; done. Qed.

(** ** Monotonicity *)

Lemma chunk_ok_mono m m' c :
  (forall h, provider_live m h -> provider_live m' h) ->
  next_mapping_generation m <= next_mapping_generation m' ->
  next_eviction_claim_id m <= next_eviction_claim_id m' ->
  next_transition_generation m <= next_transition_generation m' ->
  chunk_ok m c -> chunk_ok m' c.
Proof.
  intros Hl H1 H2 H3 [Hg Hc]. split; [lia|].
  destruct (ck_state c); destruct_and? Hc; split_and?; auto; lia.
Qed.

(** ** Observation *)

Lemma provider_live_set m i p p' h :
  providers m !! Z.to_nat i = Some p -> pr_handle p' = pr_handle p -> pr_failed p' = pr_failed p ->
  provider_live (set_provider m i p') h <-> provider_live m h.
Proof.
  intros Hp Hh Hf. unfold provider_live, set_provider, set_at. cbn. split.
  - intros (j & q & Hq & Eh & Ef). destruct (decide (j = Z.to_nat i)) as [->|].
    + rewrite list_lookup_insert_eq in Hq by (by eapply lookup_lt_Some). simplify_eq.
      exists (Z.to_nat i), p. naive_solver congruence.
    + rewrite list_lookup_insert_ne in Hq by done. eauto.
  - intros (j & q & Hq & Eh & Ef). destruct (decide (j = Z.to_nat i)) as [->|].
    + exists (Z.to_nat i), p'. rewrite list_lookup_insert_eq by (by eapply lookup_lt_Some).
      naive_solver congruence.
    + exists j, q. by rewrite list_lookup_insert_ne.
Qed.

(** Changing the observed facts of a provider. *)
Lemma mapping_inv_set_provider m i p p' :
  mapping_inv m -> providers m !! Z.to_nat i = Some p -> pr_handle p' = pr_handle p ->
  pr_failed p' = pr_failed p -> provider_typed p' ->
  Z.of_nat (count (chunk_of_provider (pr_handle p)) (chunks m)) <=
    pr_observation_debited_chunks p' + pr_reported_available_chunks p' ->
  mapping_inv (set_provider m i p').
Proof.
  intros [[] ? ? ? ? ? ? Hc Hcl ? ? ? Hcap] Hp Hh Hf Ht Hle. split; try done.
  - split; try done; cbn.
    + by rewrite length_set_at.
    + intros j q. unfold set_at. destruct (decide (j = Z.to_nat i)) as [->|].
      * rewrite list_lookup_insert_eq by (by eapply lookup_lt_Some). intros [= <-].
        rewrite Hh. auto.
      * rewrite list_lookup_insert_ne by done. auto.
    + intros j q Hq. apply list_lookup_insert_Some in Hq as [(<- & <- & _)|[_ Hq]]; [done|eauto].
  - intros k c Hk. eapply chunk_ok_mono, (Hc _ _ Hk); try done.
    intros h. by apply (provider_live_set m i p p').
  - destruct Hcl as [| ? ? ? ? ? ?]; [by apply no_claim|by eapply one_claim].
  - intros j q Hq. apply list_lookup_insert_Some in Hq as [(<- & <- & _)|[_ Hq]]; [|eauto].
    by rewrite Hh.
Qed.

Definition observation_typed (ob : is_remote_chunk_provider_observation) : Prop :=
  is_u32 (ob_available_chunks ob) /\ is_u64 (ob_sequence ob).

Lemma observe_inv m h ob :
  mapping_inv m -> (forall o, ob = Some o -> observation_typed o) ->
  mapping_inv (is_remote_chunk_provider_observe m h ob).1.
Proof.
  intros Hm Hty. unfold is_remote_chunk_provider_observe. destruct ob as [o|]; [|done].
  destruct (Hty o eq_refl) as [Ht1 Ht2].
  case_match; [done|]. case_match; [done|].
  destruct (is_remote_chunk_provider_index_locked m h) as [e|i] eqn:E; [done|].
  cbv zeta. case_match; [done|]. case_match; [done|].
  apply provider_index_spec in E as (Hi & p & Hp & Hh & Hf); [|apply Hm].
  rewrite provider_debits_spec by apply Hm. cbn [fst].
  assert (Hpa : provider_at m i = p) by by apply nth_lookup_Some. rewrite Hpa.
  destruct (ri_typed _ (v_roster _ Hm) _ _ Hp).
  pose proof (count_le_128 m (v_length _ Hm) (v_count _ Hm) (chunk_of_provider h)) as Hle.
  pose proof (provider_debits_total m h) as Htot.
  eapply (mapping_inv_set_provider m i p); try done.
  - split; cbn; try done; try rewrite u32_small by lia; lia.
  - cbn. rewrite Hh, u32_small by lia. unfold in_u in Ht1. lia.
Qed.

(** ** Replacing one chunk *)

(** Splits a lookup in an updated list on whether it is the updated place. *)
Ltac lookup_insert H :=
  apply list_lookup_insert_Some in H as [(<- & <- & _)|[? H]].

Lemma eviction_ids_insert_same cs k c c' :
  cs !! k = Some c -> ck_eviction_claim_id c' = ck_eviction_claim_id c ->
  eviction_ids (<[k := c']> cs) = eviction_ids cs.
Proof.
  intros Hk E. unfold eviction_ids. do 2 f_equal. rewrite list_fmap_insert, E.
  apply list_insert_id. by rewrite list_lookup_fmap, Hk.
Qed.

(** A chunk that is in no eviction, before and after: the batches stay. *)
Lemma batches_insert m k c c' :
  mapping_inv m -> ck_eviction_claim_id c' = 0 ->
  forall k1 k2 c1 c2, <[k := c']> (chunks m) !! k1 = Some c1 -> <[k := c']> (chunks m) !! k2 = Some c2 ->
    chunks m !! k = Some c ->
    ck_eviction_claim_id c1 = ck_eviction_claim_id c2 -> ck_eviction_claim_id c1 <> 0 ->
    ck_provider c1 = ck_provider c2 /\ ck_transition_generation c1 = ck_transition_generation c2.
Proof.
  intros Hm E k1 k2 c1 c2 H1 H2 Hk He Hne.
  lookup_insert H1; [congruence|]. lookup_insert H2; [congruence|].
  exact (v_batches _ Hm _ _ _ _ H1 H2 He Hne).
Qed.

(** A chunk that is not assigned after the update cannot alias. *)
Lemma alias_insert m k c' :
  mapping_inv m -> chunk_assigned c' = false ->
  forall k1 k2 c1 c2, <[k := c']> (chunks m) !! k1 = Some c1 -> <[k := c']> (chunks m) !! k2 = Some c2 ->
    chunk_assigned c1 = true -> chunk_assigned c2 = true -> ck_provider c1 = ck_provider c2 ->
    ck_provider_chunk c1 = ck_provider_chunk c2 -> k1 = k2.
Proof.
  intros Hm E k1 k2 c1 c2 H1 H2 Ha1 Ha2 Hp Hpc.
  lookup_insert H1; [congruence|]. lookup_insert H2; [congruence|].
  exact (v_alias _ Hm _ _ _ _ H1 H2 Ha1 Ha2 Hp Hpc).
Qed.

Lemma count_insert_same {A} (f : A -> bool) cs k c c' :
  cs !! k = Some c -> f c' = f c -> count f (<[k := c']> cs) = count f cs.
Proof. intros Hk E. pose proof (count_insert f k c c' cs Hk) as H. rewrite E in H. lia. Qed.

(** ** Claiming a chunk *)

Lemma create_result m h i m' claim :
  mapping_inv m -> 0 <= i ->
  is_remote_chunk_mapping_claim_create_locked m h i = (m', inr claim) ->
  exists c, chunks m !! Z.to_nat i = Some c /\ ck_state c = UNMAPPED /\ provider_live m h /\
    quiescing m = false /\ active_mapping_claims m = 0 /\
    next_mapping_claim_id m < ID_MAX /\ next_transition_generation m < ID_MAX /\
    let c' := c <| ck_state := MAPPING |> <| ck_provider := h |>
                <| ck_mapping_claim_id := next_mapping_claim_id m + 1 |>
                <| ck_transition_generation := next_transition_generation m + 1 |> in
    claim = claim_of m (Z.to_nat i) c' /\
    m' = (is_remote_chunk_mapping_terminal_supersede_locked m)
           <| next_mapping_claim_id := next_mapping_claim_id m + 1 |>
           <| next_transition_generation := next_transition_generation m + 1 |>
           <| active_mapping_claim := claim |>
           <| chunks := <[Z.to_nat i := c']> (chunks m) |>
           <| active_mapping_claims := 1 |>.
Proof.
  intros Hm Hi. unfold is_remote_chunk_mapping_claim_create_locked.
  destruct (quiescing m) eqn:Eq; [done|].
  destruct (is_remote_chunk_provider_valid_locked m h) eqn:Ev; [|done]. cbn [negb].
  destruct (Z.eqb_spec (active_mapping_claims m) 0) as [E0|]; [|done]. cbn [negb].
  destruct (Z.leb_spec (chunk_count m) i) as [|Hlt]; [done|].
  case_bool_decide as Es; [|done]. cbn [negb].
  destruct (Z.eqb_spec (next_mapping_claim_id m) ID_MAX) as [|Hn1]; [done|].
  destruct (Z.eqb_spec (next_transition_generation m) ID_MAX) as [|Hn2]; [done|].
  cbn [orb]. cbv zeta. intros [= <- <-].
  pose proof (v_ids _ Hm) as (? & ? & ? & ?).
  exists (chunk_at m i). pose proof (chunk_at_lookup m (v_length _ Hm) i) as Hlk.
  apply provider_valid_spec in Ev; [|apply Hm].
  split_and!; [apply Hlk; lia|done|done|done|done|lia|lia| |].
  - unfold claim_of. cbn. rewrite !u64_small by lia. by rewrite Z2Nat.id.
  - cbn. unfold claim_of. cbn. rewrite E0, !u64_small by lia. done.
Qed.

Lemma create_inv m h i m' claim :
  mapping_inv m -> 0 <= i ->
  is_remote_chunk_mapping_claim_create_locked m h i = (m', inr claim) ->
  (forall j p, providers m !! j = Some p -> pr_handle p = h ->
     Z.of_nat (count (chunk_of_provider h) (chunks m)) <
     pr_observation_debited_chunks p + pr_reported_available_chunks p) ->
  mapping_inv m'.
Proof.
  intros Hm Hi E Hroom.
  destruct (create_result m h i m' claim Hm Hi E) as (c & Hk & Es & Hl & _ & E0 & Hn1 & Hn2 & -> & ->).
  clear E. set (c' := c <| ck_state := MAPPING |> <| ck_provider := h |> <| ck_mapping_claim_id := _ |>
    <| ck_transition_generation := _ |>).
  pose proof (v_ids _ Hm) as (Hi1 & Hi2 & Hi3 & Hi4).
  destruct (v_chunk _ Hm _ _ Hk) as [Hg Hok]. rewrite Es in Hok. destruct Hok as (_ & _ & Hev).
  assert (Hnm : forall k2 c2, chunks m !! k2 = Some c2 -> ck_state c2 <> MAPPING).
  { destruct (v_claim _ Hm); [done|congruence]. }
  assert (Hok' : chunk_ok m c').
  { split; [exact Hg|]. split; [exact Hl|]. split; [cbn; lia|exact Hev]. }
  split; try apply Hm; cbn -[c' size].
  - by apply (roster_inv_frame m), Hm.
  - by rewrite length_insert, (v_length _ Hm).
  - lia.
  - rewrite (v_assigned _ Hm). f_equal. symmetry. apply (count_insert_same _ _ _ c); [done|].
    unfold chunk_assigned. cbn. by rewrite Es.
  - rewrite (v_usable _ Hm). f_equal. symmetry. apply (count_insert_same _ _ _ c); [done|].
    unfold chunk_mapped. cbn. by rewrite Es.
  - intros k2 c2 H2. apply (chunk_ok_mono m); cbn; try done; try lia.
    lookup_insert H2; [done|]. exact (v_chunk _ Hm _ _ H2).
  - apply (one_claim _ (Z.to_nat i) c'); cbn -[c']; try done; try (cbn; lia).
    + by rewrite list_lookup_insert_eq by (by eapply lookup_lt_Some).
    + intros k2 c2 H2 Hs2. lookup_insert H2; [done|]. by destruct (Hnm _ _ H2).
  - rewrite (v_evictions _ Hm). by rewrite (eviction_ids_insert_same _ _ c).
  - intros k1 k2 c1 c2 H1 H2. by apply (batches_insert m (Z.to_nat i) c c' Hm Hev k1 k2).
  - intros k1 k2 c1 c2 H1 H2. by apply (alias_insert m (Z.to_nat i) c' Hm eq_refl k1 k2 c1 c2).
  - intros j p Hp. pose proof (v_capacity _ Hm _ _ Hp). specialize (Hroom _ _ Hp).
    pose proof (count_insert (chunk_of_provider (pr_handle p)) _ _ c' _ Hk) as Hci.
    assert (Hf : chunk_of_provider (pr_handle p) c = false)
      by (unfold chunk_of_provider; by rewrite Es).
    rewrite Hf in Hci. cbn [b2n] in Hci.
    assert (Hf' : chunk_of_provider (pr_handle p) c' = bool_decide (h = pr_handle p))
      by (unfold chunk_of_provider; cbn; by rewrite handle_equal_eq).
    rewrite Hf' in Hci. case_bool_decide as Eh; cbn [b2n] in Hci; [subst h; specialize (Hroom eq_refl)|]; lia.
Qed.
