(* ===== verification/RemoteChunkPlacement.v ===== *)
(** * Remote chunks: choosing a provider for the next mapping

    The candidates are the providers with room left, a sample of them is drawn
    without replacement, and the provider chosen is a candidate; so a claim is
    only ever taken where the provider has room. *)
From S2P Require Import Prelude RemoteChunkData RemoteChunk RemoteChunkValidity RemoteChunkInv.
From S2P Require Import RemoteChunkInv.

(** ** The arithmetic of availability *)

Lemma reconcile_available_spec reported observed current :
  is_u32 reported -> 0 <= observed <= 128 -> 0 <= current <= 128 ->
  is_remote_chunk_reconcile_available reported observed current =
  (0 `max` (reported + observed - current)) `min` IS_REMOTE_CHUNK_U32_MAX.
Proof.
  unfold in_u, IS_REMOTE_CHUNK_U32_MAX, is_remote_chunk_reconcile_available.
  change (2 ^ 32) with 4294967296. intros Hr Ho Hc.
  destruct (Z.leb_spec observed current).
  - rewrite !(u32_small (current - observed)) by lia.
    destruct (Z.ltb_spec (current - observed) reported); [|lia]. rewrite u32_small by lia. lia.
  - unfold IS_REMOTE_CHUNK_U32_MAX. rewrite !(u32_small (observed - current)) by lia.
    rewrite u32_small by lia. destruct (Z.ltb_spec (4294967295 - (observed - current)) reported); [lia|].
    unfold wrap. rewrite Zminus_mod_idemp_l.
    change ((reported + observed - current) mod 2 ^ 32) with (u32 (reported + observed - current)).
    rewrite u32_small by lia. lia.
Qed.

(** The room left at a provider: what it reported beyond what it held then. *)
Lemma effective_available_room m i p :
  mapping_inv m -> providers m !! i = Some p ->
  is_remote_chunk_provider_effective_available_locked m p <> 0 ->
  pr_failed p = false /\ pr_has_observation p = true /\ pr_placement_eligible p = true /\
  Z.of_nat (count (chunk_of_provider (pr_handle p)) (chunks m)) <
  pr_observation_debited_chunks p + pr_reported_available_chunks p.
Proof.
  intros Hm Hp. unfold is_remote_chunk_provider_effective_available_locked.
  destruct (pr_failed p), (pr_has_observation p), (pr_placement_eligible p); try done. cbn [negb orb].
  rewrite provider_debits_spec by apply Hm. destruct (ri_typed _ (v_roster _ Hm) _ _ Hp).
  pose proof (count_le_128 m (v_length _ Hm) (v_count _ Hm) (chunk_of_provider (pr_handle p))).
  pose proof (provider_debits_total m (pr_handle p)).
  rewrite u32_small by lia. rewrite reconcile_available_spec by (done || lia). unfold IS_REMOTE_CHUNK_U32_MAX.
  intros Hne. repeat split; lia.
Qed.

(** ** Sampling *)

(** [m'] is [m] with other scratch arrays and random state. *)
Definition scratch (m m' : is_remote_chunk_module) : Prop :=
  exists a b r, m' = m <| placement_candidate_indices := a |> <| placement_sample_indices := b |>
                       <| placement_rng_state := r |>.

Lemma scratch_refl m : scratch m m.
Proof. exists (placement_candidate_indices m), (placement_sample_indices m), (placement_rng_state m). by destruct m. Qed.

Lemma scratch_core m m' : scratch m m' -> core m' = core m.
Proof. by intros (a & b & r & ->). Qed.

Definition arrays_ok (m : is_remote_chunk_module) : Prop :=
  Z.of_nat (length (placement_candidate_indices m)) = provider_count m /\
  Z.of_nat (length (placement_sample_indices m)) = provider_count m.

(** A provider index with room. *)
Definition has_room (m : is_remote_chunk_module) (i : Z) : Prop :=
  0 <= i < provider_count m /\
  is_remote_chunk_provider_effective_available_locked m (provider_at m i) <> 0.

Lemma scratch_has_room m m' i : scratch m m' -> has_room m' i <-> has_room m i.
Proof. by intros (a & b & r & ->). Qed.

Record candidates_ok (m : is_remote_chunk_module) (sampled remaining : Z) : Prop := {
  co_arrays : arrays_ok m;
  co_remaining : 0 <= remaining <= provider_count m;
  co_candidates : forall j, 0 <= j < remaining -> has_room m (candidate_at m j);
  co_samples : forall j, 0 <= j < sampled -> has_room m (sample_at m j)
}.

Lemma collect_candidates_spec m m1 e p g :
  mapping_inv m -> arrays_ok m -> collect_candidates m = (m1, e, p, g) ->
  scratch m m1 /\ candidates_ok m1 0 e.
Proof.
  intros Hm [Ha1 Ha2] E. pose proof (ri_count _ (v_roster _ Hm)) as Hpc.
  pose (P := fun (j : Z) (s : is_remote_chunk_module * Z * Z * Z) =>
    scratch m s.1.1.1 /\ candidates_ok s.1.1.1 0 s.1.1.2 /\ s.1.1.2 <= j).
  enough (HP : P (provider_count m) (m1, e, p, g)) by (destruct HP as (? & ? & _); done).
  rewrite <- E. unfold collect_candidates. apply (for_loop_ind0 P); [lia| |].
  - split; [apply scratch_refl|]. split; [|cbn; lia].
    split; [done|cbn; lia|intros j Hj; cbn in Hj; lia|intros j Hj; lia].
  - clear E m1 e p g. intros j [[[m1 e] p] g] Hj (Hs & Hc & He). cbn [fst snd] in *.
    destruct (pr_failed _); [split_and!; try done; cbn; lia|].
    destruct (pr_has_observation _); [|split_and!; try done; cbn; lia]. cbn [negb]. cbv zeta.
    destruct (Z.eqb_spec (is_remote_chunk_provider_effective_available_locked m1 (provider_at m1 j)) 0);
      cbn [negb]; [split_and!; try done; cbn; lia|].
    destruct Hc as [[Hl1 Hl2] Hr Hcand Hsam]. assert (provider_count m1 = provider_count m) as Epc
      by (by destruct Hs as (? & ? & ? & ->)).
    rewrite u32_small by lia. split; [|split; [|cbn; lia]].
    + destruct Hs as (a & b & r & ->). by eexists _, b, r.
    + split; cbn -[has_room candidate_at sample_at].
      * split; cbn; rewrite ?length_set_at; done.
      * lia.
      * intros i Hi. unfold candidate_at, byte_at. cbn -[has_room]. rewrite nth_set_at by lia.
        destruct (decide (i = e)); [|by apply Hcand; lia]. split; cbn; [lia|done].
      * intros i Hi. lia.
Qed.

Lemma random_below_scratch env m limit :
  let r := is_remote_chunk_random_below_locked env m limit in
  exists s, r.1.2 = m <| placement_rng_state := s |>.
Proof.
  unfold is_remote_chunk_random_below_locked. cbv zeta.
  assert (H : exists s, m = m <| placement_rng_state := s |>)
    by (exists (placement_rng_state m); by destruct m).
  destruct (limit =? 0); [done|]. destruct (kernel_build env && _).
  - by destruct (random_accept _ _ _).
  - cbn [fst snd]. by eexists.
Qed.

Lemma weighted_select_range m n index cursor pick :
  0 <= index ->
  let r := weighted_select m n index cursor pick in r = 0 \/ index <= r < index + Z.of_nat n.
Proof.
  revert index cursor. induction n as [|n IH]; intros index cursor Hi; cbn [weighted_select]; [auto|].
  cbv zeta. case_match; [right; lia|].
  destruct (IH (index + 1) (u32 (cursor + pr_placement_weight (provider_at m (candidate_at m index)))))
    as [|]; [lia|auto|right; lia].
Qed.

Lemma sample_providers_spec n env m s r :
  candidates_ok m s r -> 0 <= s -> Z.of_nat n <= r -> s + Z.of_nat n <= provider_count m ->
  let m' := (sample_providers n env m s r).2 in
  scratch m m' /\ candidates_ok m' (s + Z.of_nat n) (r - Z.of_nat n).
Proof.
  revert env m s r. induction n as [|n IH]; intros env m s r Hc Hs Hn Hb; cbn zeta.
  - cbn. split; [apply scratch_refl|]. by rewrite Z.add_0_r, Z.sub_0_r.
  - cbn [sample_providers]. cbv zeta.
    pose proof (random_below_scratch env m (candidates_weight m r)) as [rng Erng].
    destruct (is_remote_chunk_random_below_locked env m (candidates_weight m r)) as [[env1 m1] pick].
    cbn [fst snd] in Erng. subst m1. set (m1 := m <| placement_rng_state := rng |>).
    destruct Hc as [[Hl1 Hl2] Hr Hcand Hsam].
    pose proof (weighted_select_range m1 (Z.to_nat r) 0 0 pick ltac:(lia)) as Hsel. cbv zeta in Hsel.
    set (sel := weighted_select m1 (Z.to_nat r) 0 0 pick) in *.
    set (m2 := m1 <| placement_sample_indices := set_at (placement_sample_indices m1) s (candidate_at m1 sel) |>).
    set (m3 := m2 <| placement_candidate_indices :=
                       set_at (placement_candidate_indices m2) sel (candidate_at m2 (r - 1)) |>).
    assert (Hc3 : candidates_ok m3 (s + 1) (r - 1)).
    { split.
      - split; cbn; rewrite length_set_at; done.
      - cbn. lia.
      - intros j Hj. unfold candidate_at, byte_at. cbn. rewrite nth_set_at by lia.
        destruct (decide (j = sel)); [apply (Hcand (r - 1)); lia|apply (Hcand j); lia].
      - intros j Hj. unfold sample_at, byte_at. cbn. rewrite nth_set_at by lia.
        destruct (decide (j = s)); [apply (Hcand sel); lia|apply (Hsam j); lia]. }
    destruct (IH env1 m3 (s + 1) (r - 1) Hc3) as [(a & b & g & Es) Ho]; [lia|lia|cbn; lia|].
    split.
    + exists a, b, g. rewrite Es. done.
    + replace (s + Z.of_nat (S n)) with (s + 1 + Z.of_nat n) by lia.
      by replace (r - Z.of_nat (S n)) with (r - 1 - Z.of_nat n) by lia.
Qed.

Lemma choose_provider_spec env m e :
  candidates_ok m 0 e -> 0 < e -> 0 < placement_sample_size m ->
  let r := is_remote_chunk_choose_provider_locked env m e in
  scratch m r.1.2 /\ arrays_ok r.1.2 /\ has_room m r.2.
Proof.
  intros Hc He Hss. unfold is_remote_chunk_choose_provider_locked. cbv zeta.
  set (n := if e <? placement_sample_size m then e else placement_sample_size m).
  assert (Hn : 0 < n <= e) by (unfold n; destruct (Z.ltb_spec e (placement_sample_size m)); lia).
  pose proof (co_remaining _ _ _ Hc) as Hr.
  pose proof (sample_providers_spec (Z.to_nat n) env m 0 e Hc) as H. cbv zeta in H.
  destruct (sample_providers (Z.to_nat n) env m 0 e) as [env1 m1]. cbn [snd] in H.
  destruct H as [Hs Hc1]; [lia|lia|lia|].
  rewrite Z.add_0_l, Z2Nat.id in Hc1 by lia.
  destruct (for_loop _ _ _ _) as [chosen best] eqn:E. cbn [fst snd].
  split; [done|]. split; [by apply Hc1|]. apply (scratch_has_room m m1); [done|].
  enough (has_room m1 (chosen, best).1) by done. rewrite <- E. clear E chosen best.
  refine (for_loop_ind (fun _ s => has_room m1 s.1) _ _ _ _ _ _).
  - apply (co_samples _ _ _ Hc1). lia.
  - intros j [ch b] Hj IH. cbn [fst] in *. case_match; [|done].
    apply (co_samples _ _ _ Hc1). lia.
Qed.

(** ** The next mapping *)

(** A chunk [next_mapping] may pick: unmapped, and hot in backed mode. *)
Definition wants_mapping (m : is_remote_chunk_module) (c : is_remote_chunk) : bool :=
  bool_decide (ck_state c = UNMAPPED) &&
  ((mode m =? IS_REMOTE_CHUNK_MODE_REMOTE_ONLY) || (threshold (hot_policy m) <=? ck_activity c)).

(** Without a request nothing changes but the scratch arrays; a request is a
    claim on the first chunk that wants a mapping, at a provider with room. *)
Lemma next_mapping_cases env m m' r :
  mapping_inv m -> arrays_ok m -> is_remote_chunk_next_mapping env m = (m', r) ->
  match r with
  | inl _ => scratch m m' /\ arrays_ok m'
  | inr req =>
      exists m1 i, scratch m m1 /\ arrays_ok m1 /\ has_room m i /\
        quiescing m = false /\ active_mapping_claims m = 0 /\
        find_below (chunk_count m) (fun k => wants_mapping m (chunk_at m k)) =
          Some (mr_logical_chunk req) /\
        mr_provider req = pr_handle (provider_at m i) /\
        is_remote_chunk_mapping_claim_create_locked m1 (mr_provider req) (mr_logical_chunk req) =
          (m', inr (mr_claim req))
  end.
Proof.
  intros Hm Ha. unfold is_remote_chunk_next_mapping. cbv zeta.
  assert (H0 : forall x : is_remote_chunk_next_mapping_result, (m, inl x) = (m', r) ->
    match r with inl _ => scratch m m' /\ arrays_ok m' | inr _ => False end).
  { intros x [= <- <-]. split; [apply scratch_refl|done]. }
  destruct (quiescing m) eqn:Eq; [intros H; apply H0 in H; by destruct r|].
  destruct (Z.eqb_spec (active_mapping_claims m) 0) as [Eac|]; cbn [negb];
    [|intros H; apply H0 in H; by destruct r].
  destruct (_ && _); [intros H; apply H0 in H; by destruct r|].
  destruct (_ && _); [intros H; apply H0 in H; by destruct r|].
  change (find_below _ _) with (find_below (chunk_count m) (fun k => wants_mapping m (chunk_at m k))).
  destruct (find_below _ _) as [k|] eqn:Ek; [|intros H; apply H0 in H; by destruct r].
  destruct (collect_candidates m) as [[[m1 e] p] g] eqn:Ec.
  destruct (collect_candidates_spec _ _ _ _ _ Hm Ha Ec) as [Hs1 Hc1].
  destruct (_ && _); [intros [= <- <-]; split; [done|apply Hc1]|].
  destruct (Z.eqb_spec e 0) as [|He]; [intros [= <- <-]; split; [done|apply Hc1]|].
  pose proof (co_remaining _ _ _ Hc1) as Hr1.
  assert (Hss : 0 < placement_sample_size m1) by (destruct Hs1 as (? & ? & ? & ->); apply Hm).
  pose proof (choose_provider_spec env m1 e Hc1 ltac:(lia) Hss) as Hch. cbv zeta in Hch.
  destruct (is_remote_chunk_choose_provider_locked env m1 e) as [[env1 m2] i].
  cbn [fst snd] in Hch. destruct Hch as (Hs2 & Ha2 & Hroom).
  assert (Hs : scratch m m2).
  { destruct Hs1 as (? & ? & ? & ->), Hs2 as (a & b & c & ->). by exists a, b, c. }
  apply (scratch_has_room m m1) in Hroom; [|done].
  assert (Epr : provider_at m2 i = provider_at m i) by (by destruct Hs as (? & ? & ? & ->)).
  rewrite Epr.
  destruct (is_remote_chunk_mapping_claim_create_locked m2 _ k) as [m3 [st|claim]] eqn:Ecr.
  - intros [= <- <-]. assert (m3 = m2) as ->; [|done].
    unfold is_remote_chunk_mapping_claim_create_locked in Ecr. repeat case_match; congruence.
  - intros [= <- <-]. exists m2, i. cbn [mr_logical_chunk mr_provider mr_claim]. auto 10.
Qed.

Lemma has_room_provider m i :
  mapping_inv m -> has_room m i ->
  exists p, providers m !! Z.to_nat i = Some p /\ provider_at m i = p /\
    is_remote_chunk_provider_effective_available_locked m p <> 0.
Proof.
  intros Hm [Hi Hav]. exists (provider_at m i). split; [|done].
  apply lookup_at. rewrite (ri_length _ (v_roster _ Hm)). done.
Qed.

Lemma create_arrays m h i : arrays_ok m -> arrays_ok (is_remote_chunk_mapping_claim_create_locked m h i).1.
Proof. intros Ha. unfold is_remote_chunk_mapping_claim_create_locked. by repeat case_match. Qed.

Lemma next_mapping_inv env m m' r :
  mapping_inv m -> arrays_ok m -> is_remote_chunk_next_mapping env m = (m', r) ->
  mapping_inv m' /\ arrays_ok m'.
Proof.
  intros Hm Ha E. pose proof (next_mapping_cases _ _ _ _ Hm Ha E) as Hr. destruct r as [x|req].
  - destruct Hr as [Hs Ha']. split; [|done]. by apply (mapping_inv_frame m), Hm; apply scratch_core.
  - destruct Hr as (m1 & i & Hs & Ha1 & Hroom & _ & _ & Hk & Hp & Ecr).
    assert (Hm1 : mapping_inv m1) by (by apply (mapping_inv_frame m), Hm; apply scratch_core).
    apply find_below_Some in Hk as (Hk & _).
    split.
    + apply (create_inv m1 (mr_provider req) (mr_logical_chunk req) m' (mr_claim req)); [done|lia|done|].
      intros j p Hpj Hh. apply (scratch_has_room m m1) in Hroom; [|done].
      destruct (has_room_provider m1 i Hm1 Hroom) as (q & Hq & Eq & Hav).
      assert (provider_at m1 i = provider_at m i) as Epr by (by destruct Hs as (? & ? & ? & ->)).
      destruct (roster_handle_inj m1 _ _ _ _ (v_roster _ Hm1) Hpj Hq) as [_ ->]; [congruence|].
      destruct (effective_available_room m1 _ _ Hm1 Hq Hav) as (_ & _ & _ & Hlt).
      by rewrite <- Hh.
    + pose proof (create_arrays m1 (mr_provider req) (mr_logical_chunk req) Ha1) as H. by rewrite Ecr in H.
Qed.
