(* ===== verification/RemoteChunkFinish.v ===== *)
(** * Remote chunks: finishing a mapping

    A claim is finished at most once and only when it is the module's active
    claim: committing it maps its chunk to the granted region, aborting it
    returns the chunk; every other answer leaves the module as it was. *)
From S2P Require Import Prelude RemoteChunkData RemoteChunk RemoteChunkValidity RemoteChunkInv.
From S2P Require Import RemoteChunkInv.

Definition grant_typed (g : is_remote_chunk_mapping_grant) : Prop :=
  is_u32 (gr_logical_chunk g) /\ is_u32 (gr_provider_chunk g) /\
  is_u64 (gr_remote_address g) /\ is_u32 (gr_remote_key g).

Definition grants_typed (gs : option (list is_remote_chunk_mapping_grant)) : Prop :=
  forall l, gs = Some l -> Forall grant_typed l.

Lemma grant_at_typed l i : Forall grant_typed l -> grant_typed (grant_at l i).
Proof.
  intros H. unfold grant_at. rewrite nth_lookup. destruct (l !! _) as [g|] eqn:E.
  - cbn. eapply (proj1 (list.Forall_lookup _ _) H). exact E.
  - cbn. split_and!; unfold in_u; cbn; pow_lia.
Qed.

Lemma claim_equal_eq a b : is_remote_chunk_mapping_claim_equal a b = true <-> a = b.
Proof.
  unfold is_remote_chunk_mapping_claim_equal. destruct a, b. cbn.
  rewrite handle_equal_eq, !andb_true_iff, !Z.eqb_eq, bool_decide_eq_true. split.
  - intros H. decompose [and] H. congruence.
  - intros [=]. subst. tauto.
Qed.

(** ** The active claim *)

Lemma claim_active_chunk m claim :
  mapping_inv m -> is_remote_chunk_mapping_claim_well_formed claim = true ->
  is_remote_chunk_mapping_claim_active_locked m claim = true ->
  active_mapping_claims m = 1 /\ claim = active_mapping_claim m /\
  exists k c, chunks m !! k = Some c /\ ck_state c = MAPPING /\ claim = claim_of m k c /\
    0 < ck_mapping_claim_id c /\
    (forall k' c', chunks m !! k' = Some c' -> ck_state c' = MAPPING -> k' = k).
Proof.
  intros Hm Hw. unfold is_remote_chunk_mapping_claim_active_locked.
  destruct (is_remote_chunk_mapping_claim_equal claim (active_mapping_claim m)) eqn:E; [|done].
  apply claim_equal_eq in E. intros _. destruct (v_claim _ Hm) as [H1 H2 H3|k c H1 H2 H3 H4 H5 H6 H7].
  - exfalso. rewrite E, H2 in Hw. done.
  - split; [done|]. split; [done|]. exists k, c. split_and!; try done; [congruence|lia].
Qed.

(** The chunks of a claim are those being mapped: there is one. *)
Lemma mapping_claim_member m k c k' c' :
  mapping_inv m -> chunks m !! k = Some c -> ck_state c = MAPPING ->
  (forall k' c', chunks m !! k' = Some c' -> ck_state c' = MAPPING -> k' = k) ->
  chunks m !! k' = Some c' -> ck_mapping_claim_id c' = ck_mapping_claim_id c -> k' = k.
Proof.
  intros Hm Hk Es Hu Hk' Eid. destruct (v_chunk _ Hm _ _ Hk) as [_ H]. rewrite Es in H.
  destruct (v_chunk _ Hm _ _ Hk') as [_ H']. destruct (ck_state c') eqn:Es'.
  - destruct_and? H. destruct_and? H'. lia.
  - by apply (Hu k' c').
  - destruct_and? H. destruct_and? H'. lia.
  - destruct_and? H. destruct_and? H'. lia.
Qed.

(** ** Aborting *)

Definition aborted (c : is_remote_chunk) : is_remote_chunk :=
  c <| ck_provider := zero_handle |> <| ck_mapping_claim_id := 0 |>
    <| ck_transition_generation := 0 |> <| ck_state := UNMAPPED |>.

Lemma abort_loop m k c :
  mapping_inv m -> chunks m !! k = Some c -> ck_state c = MAPPING ->
  (forall k' c', chunks m !! k' = Some c' -> ck_state c' = MAPPING -> k' = k) ->
  for_loop (Z.to_nat (chunk_count m)) 0 (abort_chunk (ck_mapping_claim_id c)) m =
  m <| chunks := <[k := aborted c]> (chunks m) |>.
Proof.
  intros Hm Hk Es Hu. pose proof (v_length _ Hm) as Hl. pose proof (v_count _ Hm).
  apply lookup_lt_Some in Hk as Hlt.
  pose (P := fun j s => s = if decide (Z.of_nat k < j)
    then m <| chunks := <[k := aborted c]> (chunks m) |> else m).
  enough (P (chunk_count m) (for_loop (Z.to_nat (chunk_count m)) 0 (abort_chunk (ck_mapping_claim_id c)) m))
    as HP by (unfold P in HP; rewrite decide_True in HP by lia; done).
  apply (for_loop_ind0 P); [lia| |].
  - unfold P. by rewrite decide_False by lia.
  - intros j s Hj ->. unfold P. pose proof (chunk_at_lookup m Hl j Hj) as Hjk.
    destruct (decide (Z.of_nat k < j)) as [Hkj|Hkj].
    + rewrite decide_True by lia. unfold abort_chunk, chunk_at. cbn.
      rewrite nth_lookup, list_lookup_insert_ne by lia. rewrite Hjk. cbn.
      destruct (Z.eqb_spec (ck_mapping_claim_id (chunk_at m j)) (ck_mapping_claim_id c)) as [Eid|]; [|done].
      pose proof (mapping_claim_member m k c _ _ Hm Hk Es Hu Hjk Eid). lia.
    + unfold abort_chunk. destruct (decide (j = Z.of_nat k)) as [->|].
      * rewrite decide_True by lia. rewrite Nat2Z.id in Hjk.
        assert (chunk_at m (Z.of_nat k) = c) as -> by congruence. rewrite Z.eqb_refl. cbn [negb].
        unfold set_chunk, set_at. by rewrite Nat2Z.id.
      * rewrite decide_False by lia.
        destruct (Z.eqb_spec (ck_mapping_claim_id (chunk_at m j)) (ck_mapping_claim_id c)) as [Eid|]; [|done].
        pose proof (mapping_claim_member m k c _ _ Hm Hk Es Hu Hjk Eid). lia.
Qed.

Lemma abort_inv m k c :
  mapping_inv m -> chunks m !! k = Some c -> ck_state c = MAPPING ->
  (forall k' c', chunks m !! k' = Some c' -> ck_state c' = MAPPING -> k' = k) ->
  mapping_inv (m <| chunks := <[k := aborted c]> (chunks m) |> <| active_mapping_claims := 0 |>
                 <| active_mapping_claim := zero_mapping_claim |>).
Proof.
  intros Hm Hk Es Hu. destruct (v_chunk _ Hm _ _ Hk) as [Hg Hok]. rewrite Es in Hok.
  destruct Hok as (_ & _ & Hev).
  split; try apply Hm; cbn -[aborted size].
  - by apply (roster_inv_frame m), Hm.
  - by rewrite length_insert, (v_length _ Hm).
  - rewrite (v_assigned _ Hm). f_equal. symmetry. apply (count_insert_same _ _ _ c); [done|].
    unfold chunk_assigned. cbn. by rewrite Es.
  - rewrite (v_usable _ Hm). f_equal. symmetry. apply (count_insert_same _ _ _ c); [done|].
    unfold chunk_mapped. cbn. by rewrite Es.
  - intros k2 c2 H2. apply (chunk_ok_mono m); cbn; try done.
    lookup_insert H2; [done|]. exact (v_chunk _ Hm _ _ H2).
  - apply no_claim; [done|done|]. cbn -[aborted]. intros k2 c2 H2 Hs2. lookup_insert H2; [done|].
    pose proof (Hu _ _ H2 Hs2). done.
  - rewrite (v_evictions _ Hm). by rewrite (eviction_ids_insert_same _ _ c).
  - intros k1 k2 c1 c2 H1 H2. by apply (batches_insert m k c (aborted c) Hm Hev k1 k2).
  - intros k1 k2 c1 c2 H1 H2. by apply (alias_insert m k (aborted c) Hm eq_refl k1 k2 c1 c2).
  - intros j p Hp. pose proof (v_capacity _ Hm _ _ Hp).
    pose proof (count_insert (chunk_of_provider (pr_handle p)) _ _ (aborted c) _ Hk) as Hci.
    change (chunk_of_provider (pr_handle p) (aborted c)) with false in Hci. cbn [b2n] in Hci. lia.
Qed.

(** ** Committing *)

Definition committed (g : is_remote_chunk_mapping_grant) (generation : Z) (c : is_remote_chunk) :
    is_remote_chunk :=
  c <| ck_provider_chunk := gr_provider_chunk g |> <| ck_remote_address := gr_remote_address g |>
    <| ck_remote_key := gr_remote_key g |> <| ck_mapping_generation := generation |>
    <| ck_mapping_claim_id := 0 |> <| ck_transition_generation := 0 |>
    <| ck_state := MAPPED |>.

(** A grant of one whole chunk's worth of memory no other chunk uses. *)
Record grant_fits (m : is_remote_chunk_module) (h : is_remote_chunk_provider_handle)
    (g : is_remote_chunk_mapping_grant) : Prop := {
  gf_typed : grant_typed g;
  gf_address : 0 < gr_remote_address g <= ID_MAX - (SPC * IS_REMOTE_CHUNK_SECTOR_BYTES - 1);
  gf_key : gr_remote_key g <> 0;
  gf_fresh : forall k c, chunks m !! k = Some c -> chunk_assigned c = true -> ck_provider c = h ->
    ck_provider_chunk c <> gr_provider_chunk g
}.

Lemma commit_mapping_inv m k c g :
  mapping_inv m -> chunks m !! k = Some c -> ck_state c = MAPPING ->
  (forall k' c', chunks m !! k' = Some c' -> ck_state c' = MAPPING -> k' = k) ->
  grant_fits m (ck_provider c) g -> next_mapping_generation m < ID_MAX ->
  mapping_inv (m <| chunks := <[k := committed g (next_mapping_generation m + 1) c]> (chunks m) |>
                 <| next_mapping_generation := next_mapping_generation m + 1 |>
                 <| assigned_chunks := assigned_chunks m + 1 |> <| usable_chunks := usable_chunks m + 1 |>
                 <| active_mapping_claims := 0 |> <| active_mapping_claim := zero_mapping_claim |>).
Proof.
  intros Hm Hk Es Hu [[_ Hty] Ha Hkey Hfresh] Hgen.
  destruct (v_chunk _ Hm _ _ Hk) as [Hg Hok]. rewrite Es in Hok. destruct Hok as (Hl & _ & Hev).
  pose proof (v_ids _ Hm) as (Hi1 & Hi2 & Hi3 & Hi4).
  set (c' := committed g _ c).
  assert (Hc' : forall f, (f c = false -> f c' = true ->
    count f (<[k := c']> (chunks m)) = count f (chunks m) + 1)%nat).
  { intros f E1 E2. pose proof (count_insert f _ _ c' _ Hk) as H. rewrite E1, E2 in H. cbn in H. lia. }
  split; try apply Hm; cbn -[c' size].
  - by apply (roster_inv_frame m), Hm.
  - by rewrite length_insert, (v_length _ Hm).
  - lia.
  - rewrite (v_assigned _ Hm), Hc'; [lia| |done]. unfold chunk_assigned. by rewrite Es.
  - rewrite (v_usable _ Hm), Hc'; [lia| |done]. unfold chunk_mapped. by rewrite Es.
  - intros k2 c2 H2. lookup_insert H2.
    + split; [cbn; lia|]. destruct Hty as (Ht1 & _ & Ht2). unfold in_u in Ht2.
      change (2 ^ 32) with 4294967296 in Ht2. unfold region_ok, IS_REMOTE_CHUNK_U32_MAX.
      cbn. split_and!; try done; lia.
    + apply (chunk_ok_mono m); cbn; try done; try lia. exact (v_chunk _ Hm _ _ H2).
  - apply no_claim; [done|done|]. cbn -[c']. intros k2 c2 H2 Hs2. lookup_insert H2; [done|].
    pose proof (Hu _ _ H2 Hs2). done.
  - rewrite (v_evictions _ Hm). by rewrite (eviction_ids_insert_same _ _ c).
  - intros k1 k2 c1 c2 H1 H2. by apply (batches_insert m k c c' Hm Hev k1 k2).
  - intros k1 k2 c1 c2 H1 H2 Ha1 Ha2 Hp Hpc. lookup_insert H1; lookup_insert H2; try done.
    + by destruct (Hfresh _ _ H2 Ha2 (eq_sym Hp)).
    + by destruct (Hfresh _ _ H1 Ha1 Hp).
    + by apply (v_alias _ Hm k1 k2 c1 c2).
  - intros j p Hp. pose proof (v_capacity _ Hm _ _ Hp) as Hcap.
    rewrite (count_insert_same _ _ _ c); [done|done|]. unfold chunk_of_provider. cbn. by rewrite Es.
Qed.

(** ** The checks of a grant *)

Lemma shape_valid_one m k c gs n :
  grants_typed gs -> is_remote_chunk_mapping_grants_shape_valid m (claim_of m k c) gs n = true ->
  n = 1 /\ exists l, gs = Some l /\ let g := grant_at l 0 in
    grant_typed g /\ gr_logical_chunk g < chunk_count m /\
    0 < gr_remote_address g <= ID_MAX - (SPC * IS_REMOTE_CHUNK_SECTOR_BYTES - 1) /\ gr_remote_key g <> 0.
Proof.
  intros Hty. unfold is_remote_chunk_mapping_grants_shape_valid. destruct gs as [l|]; [|done].
  cbn [mc_chunk_count mc_capacity_debit claim_of].
  destruct (Z.eqb_spec n 1) as [->|]; [|done]. cbn [negb orb]. change (Z.to_nat 1) with 1%nat.
  cbn [for_err]. pose proof (grant_at_typed l 0 (Hty l eq_refl)) as Ht.
  destruct (Z.leb_spec (chunk_count m) (gr_logical_chunk (grant_at l 0))); [done|].
  destruct (Z.eqb_spec (gr_remote_address (grant_at l 0)) 0); [done|].
  destruct (Z.eqb_spec (gr_remote_key (grant_at l 0)) 0); [done|].
  destruct (Z.ltb_spec (ID_MAX - (SPC * IS_REMOTE_CHUNK_SECTOR_BYTES - 1)) (gr_remote_address (grant_at l 0)));
    [done|]. intros _. split; [done|]. exists l. split; [done|]. cbv zeta.
  pose proof Ht as (_ & _ & Hra & _). unfold in_u in Hra. split_and!; try done; lia.
Qed.

Lemma grants_available_one m claim l :
  mapping_inv m -> is_remote_chunk_mapping_grants_available_locked m claim l 1 = true ->
  ck_state (chunk_at m (gr_logical_chunk (grant_at l 0))) = MAPPING /\
  forall k c, chunks m !! k = Some c -> chunk_assigned c = true -> ck_provider c = mc_provider claim ->
    ck_provider_chunk c <> gr_provider_chunk (grant_at l 0).
Proof.
  intros Hm. unfold is_remote_chunk_mapping_grants_available_locked.
  rewrite negb_true_iff, exists_below_false. intros H. specialize (H 0 ltac:(lia)). cbv zeta in H.
  set (g := grant_at l 0) in *. rewrite !orb_false_iff, !negb_false_iff in H.
  destruct H as ((((Hst & _) & _) & _) & Hno). apply bool_decide_eq_true_1 in Hst. split; [done|].
  intros k c Hk Ha Hp Hpc. unfold chunk_at in Hno.
  pose proof (proj1 (exists_below_array_false (chunks m) (chunk_count m) zero_chunk
    (fun c => chunk_assigned c && (ck_provider_chunk c =? gr_provider_chunk g) &&
       is_remote_chunk_provider_handle_equal (ck_provider c) (mc_provider claim))
    (eq_sym (v_length _ Hm))) Hno k c Hk) as Hf. cbv beta in Hf.
  rewrite Ha, Hpc, Hp, Z.eqb_refl, handle_equal_refl in Hf. done.
Qed.

(** ** Every answer of is_remote_chunk_mapping_finish *)

Inductive finish_outcome (m : is_remote_chunk_module)
    (claim : is_remote_chunk_mapping_claim_internal) :
    is_remote_chunk_module -> is_remote_chunk_mapping_finish_result -> Prop :=
| finish_commits k c g :
    chunks m !! k = Some c -> ck_state c = MAPPING -> claim = claim_of m k c ->
    claim = active_mapping_claim m -> quiescing m = false ->
    gr_logical_chunk g = Z.of_nat k -> grant_fits m (ck_provider c) g ->
    next_mapping_generation m < ID_MAX ->
    finish_outcome m claim
      (is_remote_chunk_mapping_terminal_record_locked
         (m <| valid_sectors := invalidate_chunk (valid_sectors m) (Z.of_nat k) |>
            <| chunks := <[k := committed g (next_mapping_generation m + 1) c]> (chunks m) |>
            <| next_mapping_generation := next_mapping_generation m + 1 |>
            <| assigned_chunks := assigned_chunks m + 1 |> <| usable_chunks := usable_chunks m + 1 |>
            <| active_mapping_claims := 0 |>)
         claim IS_REMOTE_CHUNK_MAPPING_TERMINAL_COMMIT)
      IS_REMOTE_CHUNK_MAPPING_FINISH_COMMITTED
| finish_aborts k c :
    chunks m !! k = Some c -> ck_state c = MAPPING -> claim = claim_of m k c ->
    claim = active_mapping_claim m ->
    finish_outcome m claim
      (is_remote_chunk_mapping_terminal_record_locked
         (m <| chunks := <[k := aborted c]> (chunks m) |> <| active_mapping_claims := 0 |>)
         claim IS_REMOTE_CHUNK_MAPPING_TERMINAL_ABORT)
      IS_REMOTE_CHUNK_MAPPING_FINISH_ABORTED
| finish_refuses r :
    r <> IS_REMOTE_CHUNK_MAPPING_FINISH_COMMITTED -> r <> IS_REMOTE_CHUNK_MAPPING_FINISH_ABORTED ->
    finish_outcome m claim m r.

Lemma commit_loop m k c l :
  mapping_inv m -> chunks m !! k = Some c -> gr_logical_chunk (grant_at l 0) = Z.of_nat k ->
  next_mapping_generation m < ID_MAX ->
  for_loop (Z.to_nat 1) 0 (fun index m => commit_grant (grant_at l index) m) m =
  m <| valid_sectors := invalidate_chunk (valid_sectors m) (Z.of_nat k) |>
    <| chunks := <[k := committed (grant_at l 0) (next_mapping_generation m + 1) c]> (chunks m) |>
    <| next_mapping_generation := next_mapping_generation m + 1 |>.
Proof.
  intros Hm Hk Eg Hgen. pose proof (v_ids _ Hm) as (_ & _ & _ & Hi).
  change (Z.to_nat 1) with 1%nat. cbn [for_loop]. unfold commit_grant. rewrite Eg.
  assert (chunk_at m (Z.of_nat k) = c) as -> by by apply nth_at.
  unfold set_chunk, set_at. rewrite Nat2Z.id. cbn -[invalidate_chunk]. rewrite u64_small by lia. done.
Qed.

Lemma finish_cases m cs action h gs n m' r :
  mapping_inv m -> grants_typed gs ->
  is_remote_chunk_mapping_finish m cs action h gs n = (m', r) ->
  finish_outcome m (is_remote_chunk_claim_decode cs) m' r.
Proof.
  intros Hm Hty. unfold is_remote_chunk_mapping_finish. cbv zeta.
  set (claim := is_remote_chunk_claim_decode cs).
  assert (Hno : forall x, x <> IS_REMOTE_CHUNK_MAPPING_FINISH_COMMITTED ->
    x <> IS_REMOTE_CHUNK_MAPPING_FINISH_ABORTED -> (m, x) = (m', r) -> finish_outcome m claim m' r).
  { intros x H1 H2 [= <- <-]. by apply finish_refuses. }
  destruct (_ || _); [by apply Hno|].
  destruct (is_remote_chunk_mapping_claim_well_formed claim) eqn:Ew; [|by apply Hno]. cbn [negb orb].
  destruct (_ <? _); [by apply Hno|]. destruct (_ && _); [by apply Hno|].
  destruct (_ && _) eqn:Eact; [by apply Hno|]. destruct (_ || _); [by apply Hno|].
  destruct (is_remote_chunk_mapping_claim_equal claim _).
  { repeat (match goal with |- context [if ?b then _ else _] => destruct b end); by apply Hno. }
  destruct (_ || _); [by apply Hno|].
  destruct (is_remote_chunk_mapping_claim_active_locked m claim) eqn:Ea; [|by apply Hno]. cbn [negb].
  destruct (negb (is_remote_chunk_provider_handle_equal _ _)); [case_match; by apply Hno|].
  destruct (claim_active_chunk _ _ Hm Ew Ea) as (E1 & Eac & k & c & Hk & Es & Ecl & Hid & Hu).
  destruct ((action =? IS_REMOTE_CHUNK_MAPPING_FINISH_COMMIT) && negb _) eqn:Eshape; [by apply Hno|].
  destruct ((action =? IS_REMOTE_CHUNK_MAPPING_FINISH_COMMIT) && quiescing m) eqn:Eq; [by apply Hno|].
  rewrite E1. cbn [Z.eqb].
  destruct (Z.eqb_spec action IS_REMOTE_CHUNK_MAPPING_FINISH_ABORT) as [->|Hab].
  - intros [= <- <-]. rewrite Ecl. cbn [mc_claim_id claim_of].
    rewrite (abort_loop m k c Hm Hk Es Hu).
    change (active_mapping_claims (m <| chunks := _ |>)) with (active_mapping_claims m).
    rewrite E1. apply (finish_aborts m (claim_of m k c) k c Hk Es eq_refl). congruence.
  - assert (Ecom : (action =? IS_REMOTE_CHUNK_MAPPING_FINISH_COMMIT) = true).
    { destruct (action =? IS_REMOTE_CHUNK_MAPPING_FINISH_COMMIT); [done|].
      destruct (Z.eqb_spec action IS_REMOTE_CHUNK_MAPPING_FINISH_ABORT); done. }
    rewrite Ecom in Eshape, Eq. cbn [andb] in Eshape, Eq. apply negb_false_iff in Eshape.
    rewrite Ecl in Eshape. destruct (shape_valid_one _ _ _ _ _ Hty Eshape) as (-> & l & -> & Ht & Hlt & Hra & Hkey).
    change (default [] (Some l)) with l.
    destruct (is_remote_chunk_mapping_grants_available_locked m claim l 1) eqn:Eav; [|by apply Hno]. cbn [negb].
    destruct (grants_available_one _ _ _ Hm Eav) as [Hst Hfresh].
    destruct (_ || _) eqn:Eex; [by apply Hno|]. rewrite !orb_false_iff in Eex.
    destruct Eex as [[Eex _] _]. apply Z.ltb_ge in Eex.
    pose proof Ht as (Hlc & _). unfold in_u in Hlc.
    assert (Ek : gr_logical_chunk (grant_at l 0) = Z.of_nat k).
    { rewrite <- (Hu _ _ (chunk_at_lookup m (v_length _ Hm) (gr_logical_chunk (grant_at l 0)) ltac:(lia)) Hst). lia. }
    rewrite (commit_loop m k c l Hm Hk Ek ltac:(lia)). intros [= <- <-].
    pose proof (count_le_128 m (v_length _ Hm) (v_count _ Hm)) as H128.
    assert (Ecap : mc_capacity_debit claim = 1) by (by rewrite Ecl). rewrite Ecap.
    cbn -[invalidate_chunk is_remote_chunk_mapping_terminal_record_locked].
    rewrite !u32_small by (rewrite ?(v_assigned _ Hm), ?(v_usable _ Hm);
      pose proof (H128 chunk_assigned); pose proof (H128 chunk_mapped); lia).
    rewrite E1. apply (finish_commits m claim k c (grant_at l 0)); try done; [|lia].
    split; try done. intros k2 c2 H2 Ha2 Hp2. apply (Hfresh _ _ H2 Ha2). by rewrite Hp2, Ecl.
Qed.

Lemma finish_inv m cs action h gs n m' r :
  mapping_inv m -> grants_typed gs ->
  is_remote_chunk_mapping_finish m cs action h gs n = (m', r) -> mapping_inv m'.
Proof.
  intros Hm Hty E. destruct (finish_cases _ _ _ _ _ _ _ _ Hm Hty E) as
    [k c g Hk Es Ecl Eac _ _ Hfit Hgen|k c Hk Es Ecl Eac|]; [| |done].
  all: assert (Hu : forall k' c', chunks m !! k' = Some c' -> ck_state c' = MAPPING -> k' = k) by
    (destruct (v_claim _ Hm) as [_ _ H|k1 c1 _ H1 H2 _ _ _ H3]; intros k' c' Hk' Hs';
     [by destruct (H _ _ Hk) | rewrite (H3 _ _ Hk' Hs'); by rewrite (H3 _ _ Hk Es)]).
  - by eapply mapping_inv_frame, (commit_mapping_inv m k c g).
  - by eapply mapping_inv_frame, (abort_inv m k c).
Qed.

(** * Remote chunks: batches of chunks

    The loops of is_remote_chunk.c that change the chunks of a batch, as a
    map over the chunks that a test or an array of flags selects, and what
    such a map does to counts and to the eviction identifiers. *)

(** ** Maps over selected elements *)

Definition batch {A} (sel : list bool) (f : A -> A) (l : list A) : list A :=
  imap (fun i x => if nth i sel false then f x else x) l.

Lemma lookup_batch {A} sel (f : A -> A) l i :
  batch sel f l !! i = (fun x => if nth i sel false then f x else x) <$> l !! i.
Proof. apply list_lookup_imap. Qed.

Lemma lookup_batch_Some {A} sel (f : A -> A) l i y :
  batch sel f l !! i = Some y <->
  exists x, l !! i = Some x /\ y = if nth i sel false then f x else x.
Proof. rewrite lookup_batch, fmap_Some. naive_solver. Qed.

Lemma length_batch {A} sel (f : A -> A) l : length (batch sel f l) = length l.
Proof. apply length_imap. Qed.

Lemma count_cons {A} (p : A -> bool) x l : count p (x :: l) = (b2n (p x) + count p l)%nat.
Proof. done. Qed.

Lemma batch_nil {A} (f : A -> A) l : batch [] f l = l.
Proof.
  apply list_eq. intros i. rewrite lookup_batch. by destruct i; destruct (l !! _).
Qed.

Lemma count_batch {A} (p : A -> bool) sel f l :
  (forall i x, l !! i = Some x -> nth i sel false = true -> p x = true /\ p (f x) = false) ->
  (forall i, nth i sel false = true -> (i < length l)%nat) ->
  (count p (batch sel f l) + count id sel = count p l)%nat.
Proof.
  revert sel. induction l as [|x l IH]; intros sel H1 H2.
  - assert (count id sel = 0%nat) as ->; [|done]. apply count_zero. intros b Hb.
    apply list_elem_of_lookup in Hb as [i Hi]. destruct b; [|done].
    specialize (H2 i). rewrite (nth_lookup_Some _ _ _ _ Hi) in H2. specialize (H2 eq_refl). cbn in H2. lia.
  - destruct sel as [|b sel].
    + rewrite batch_nil. change (count id []) with 0%nat. lia.
    + specialize (IH sel (fun i y Hy => H1 (S i) y Hy)
        (fun i Hi => proj2 (Nat.succ_lt_mono _ _) (H2 (S i) Hi))).
      specialize (H1 0%nat x eq_refl). cbn in H1.
      change (batch (b :: sel) f (x :: l)) with ((if b then f x else x) :: batch sel f l).
      rewrite !count_cons. destruct b; [|cbn [b2n id]; lia]. destruct (H1 eq_refl) as [-> ->].
      cbn [b2n id]. lia.
Qed.

Lemma count_batch_same {A} (p : A -> bool) sel f l :
  (forall i x, l !! i = Some x -> nth i sel false = true -> p (f x) = p x) ->
  count p (batch sel f l) = count p l.
Proof.
  revert sel. induction l as [|x l IH]; intros sel H; [done|].
  change (batch sel f (x :: l)) with
    ((if nth 0 sel false then f x else x) :: imap (fun i x => if nth (S i) sel false then f x else x) l).
  assert (Ht : imap (fun i x => if nth (S i) sel false then f x else x) l = batch (tail sel) f l).
  { apply imap_ext. intros i y _. by destruct sel as [|b sel]; [destruct i|]. }
  rewrite Ht, !count_cons, IH.
  - f_equal. specialize (H 0%nat x eq_refl). destruct (nth 0 sel false); [by rewrite H|done].
  - intros i y Hy Hs. apply (H (S i) y Hy). by destruct sel as [|b sel]; [destruct i|].
Qed.

(** Two lists related place by place. *)
Lemma count_pointwise {A} (p p' q : A -> bool) l l' :
  length l = length l' ->
  (forall i x y, l !! i = Some x -> l' !! i = Some y -> (b2n (p x) = b2n (p' y) + b2n (q x))%nat) ->
  count p l = (count p' l' + count q l)%nat.
Proof.
  revert l'. induction l as [|x l IH]; intros [|y l'] Hl H; try done.
  rewrite !count_cons. rewrite (H 0%nat x y eq_refl eq_refl).
  rewrite (IH l'); [lia|by injection Hl|]. intros i a b Ha Hb. exact (H (S i) a b Ha Hb).
Qed.

Lemma count_exists {A} (p : A -> bool) l :
  (0 < count p l)%nat -> exists k x, l !! k = Some x /\ p x = true.
Proof.
  induction l as [|x l IH]; [unfold count; cbn; lia|]. rewrite count_cons. destruct (p x) eqn:E.
  - intros _. by exists 0%nat, x.
  - cbn [b2n]. intros H. destruct (IH H) as (k & y & Hk & Hy). by exists (S k), y.
Qed.

Lemma count_unique {A} (p : A -> bool) l k x :
  l !! k = Some x -> p x = true -> (forall j y, l !! j = Some y -> p y = true -> j = k) ->
  count p l = 1%nat.
Proof.
  intros Hk Hx Hu. rewrite <- (take_drop_middle l k x Hk), count_app, count_cons, Hx.
  rewrite !count_zero; [done| |].
  - intros c [j Hj]%list_elem_of_lookup. apply not_true_iff_false. intros Hc.
    rewrite lookup_drop in Hj. specialize (Hu _ _ Hj Hc). lia.
  - intros c [j Hj]%list_elem_of_lookup. apply not_true_iff_false. intros Hc.
    apply lookup_take_Some in Hj as [Hj Hlt]. specialize (Hu _ _ Hj Hc). lia.
Qed.

(** ** The loop that updates the flagged chunks *)

Lemma nth_take {A} (l : list A) i j d : nth i (take j l) d = if decide (i < j)%nat then nth i l d else d.
Proof.
  rewrite !nth_lookup. destruct (decide (i < j)%nat); [by rewrite lookup_take_lt|].
  by rewrite lookup_take_ge by lia.
Qed.

Lemma batch_take_step m sel f j :
  Z.of_nat (length (chunks m)) = chunk_count m -> 0 <= j < chunk_count m ->
  batch (take (Z.to_nat (j + 1)) sel) f (chunks m) =
  if selected_at sel j then <[Z.to_nat j := f (chunk_at m j)]> (batch (take (Z.to_nat j) sel) f (chunks m))
  else batch (take (Z.to_nat j) sel) f (chunks m).
Proof.
  intros Hl Hj. apply list_eq. intros i. rewrite lookup_batch, nth_take. unfold selected_at.
  destruct (decide (i = Z.to_nat j)) as [->|Hne].
  - rewrite decide_True by lia. destruct (nth (Z.to_nat j) sel false).
    + rewrite list_lookup_insert_eq by (rewrite length_batch; lia).
      by rewrite (chunk_at_lookup m Hl j) by done.
    + rewrite lookup_batch, nth_take, decide_False by lia. done.
  - assert (Hsame : (if decide (i < Z.to_nat (j + 1))%nat then nth i sel false else false) =
             nth i (take (Z.to_nat j) sel) false).
    { rewrite nth_take. destruct (decide (i < Z.to_nat (j + 1))%nat), (decide (i < Z.to_nat j)%nat); done || lia. }
    rewrite Hsame. destruct (nth (Z.to_nat j) sel false).
    + by rewrite list_lookup_insert_ne, lookup_batch by done.
    + by rewrite lookup_batch.
Qed.

Lemma batch_loop m sel f body :
  Z.of_nat (length (chunks m)) = chunk_count m ->
  (forall j s, body j s = if selected_at sel j then set_chunk s j (f (chunk_at s j)) else s) ->
  for_loop (Z.to_nat (chunk_count m)) 0 body m = m <| chunks := batch sel f (chunks m) |>.
Proof.
  intros Hl Hbody.
  pose (P := fun j s => s = m <| chunks := batch (take (Z.to_nat j) sel) f (chunks m) |>).
  assert (HP : P (chunk_count m) (for_loop (Z.to_nat (chunk_count m)) 0 body m)).
  { apply (for_loop_ind0 P); [lia| |].
    - unfold P. change (Z.to_nat 0) with 0%nat. rewrite take_0, batch_nil. by destruct m.
    - intros j s Hj ->. unfold P. rewrite Hbody.
      set (cj := chunk_at (m <| chunks := batch (take (Z.to_nat j) sel) f (chunks m) |>) j).
      assert (Ecj : cj = chunk_at m j).
      { subst cj. unfold chunk_at. cbn. rewrite !nth_lookup, lookup_batch, nth_take.
        rewrite decide_False by lia. by destruct (chunks m !! Z.to_nat j). }
      rewrite Ecj. unfold set_chunk, set_at. cbn.
      rewrite batch_take_step by done. by destruct (selected_at sel j). }
  unfold P in HP. rewrite HP.
  assert (batch (take (Z.to_nat (chunk_count m)) sel) f (chunks m) = batch sel f (chunks m)) as ->; [|done].
  apply list_eq. intros i. rewrite !lookup_batch, nth_take.
  destruct (decide (i < Z.to_nat (chunk_count m))%nat); [done|].
  rewrite lookup_ge_None_2 by lia. done.
Qed.
