(* ===== verification/RemoteChunkEvict.v ===== *)
(** * Remote chunks: eviction

    Beginning an eviction moves its batch from mapped to evicting, all of it
    or none; finishing it unmaps the batch, once no lease is left on it. *)
From S2P Require Import Prelude RemoteChunkData RemoteChunk RemoteChunkValidity RemoteChunkInv.
From S2P Require Import RemoteChunkInv RemoteChunkFinish.

(** ** Selecting the batch *)

Lemma find_provider_chunk_spec m h pc usable i :
  mapping_inv m -> is_remote_chunk_find_provider_chunk_locked m h pc usable = inr i ->
  0 <= i < chunk_count m /\ chunk_assigned (chunk_at m i) = true /\
  (usable = true -> ck_state (chunk_at m i) = MAPPED) /\
  ck_provider_chunk (chunk_at m i) = pc /\ ck_provider (chunk_at m i) = h.
Proof.
  intros Hm. unfold is_remote_chunk_find_provider_chunk_locked. case_match eqn:E; [|done].
  intros [= ->]. apply find_below_Some in E as (Hi & Hp & _). cbv zeta in Hp.
  rewrite !andb_true_iff, handle_equal_eq, Z.eqb_eq, bool_decide_eq_true in Hp.
  destruct Hp as (((Ha & Hu) & Hpc) & Hh). split_and!; try done; try lia.
  intros ->. by apply bool_decide_eq_true_1 in Hu.
Qed.

(** The flags mark [n] chunks, all of them usable chunks of the provider. *)
Record selection (m : is_remote_chunk_module) (h : is_remote_chunk_provider_handle)
    (sel : list bool) (n : Z) : Prop := {
  se_length : length sel = 128%nat;
  se_count : Z.of_nat (count id sel) = n;
  se_chunk : forall i, nth i sel false = true ->
    exists c, chunks m !! i = Some c /\ ck_state c = MAPPED /\ ck_provider c = h
}.

Lemma eviction_select_spec m h pcs n sel :
  mapping_inv m -> 0 <= n -> eviction_select m h pcs n = inr sel -> selection m h sel n.
Proof.
  intros Hm Hn. apply (for_err_ind0 (fun j s => selection m h s j)); [done| |].
  - split; [apply length_replicate| |].
    + rewrite count_zero; [done|]. intros b Hb. by apply elem_of_replicate in Hb as [-> _].
    + intros i Hi. pose proof (no_chunk_selected_at (Z.of_nat i)) as H0.
      unfold selected_at in H0. rewrite Nat2Z.id in H0. congruence.
  - intros j s s' Hj [Hl Hc Hs].
    destruct (is_remote_chunk_find_provider_chunk_locked m h _ true) as [e|i] eqn:Ef; [done|].
    destruct (find_provider_chunk_spec _ _ _ _ _ Hm Ef) as (Hi & _ & Hst & _ & Hh).
    pose proof (v_count _ Hm). destruct (selected_at s i) eqn:Es; [done|]. intros [= <-]. split.
    + by rewrite length_set_at.
    + assert (Hlk : s !! Z.to_nat i = Some false) by (rewrite (lookup_at _ _ false) by lia; by f_equal).
      pose proof (count_insert id _ _ true _ Hlk) as Hci. cbn [b2n id] in Hci. unfold set_at. lia.
    + intros k. destruct (decide (k = Z.to_nat i)) as [->|Hne].
      * intros _. eexists. split; [apply chunk_at_lookup; [apply Hm|done]|]. auto.
      * intros Hk. apply Hs. unfold set_at in Hk. rewrite nth_lookup in Hk |- *.
        by rewrite list_lookup_insert_ne in Hk.
Qed.

(** ** Beginning an eviction *)

Definition evicting (id generation : Z) (c : is_remote_chunk) : is_remote_chunk :=
  c <| ck_state := EVICTING |> <| ck_eviction_claim_id := id |>
    <| ck_transition_generation := generation |>.

Lemma eviction_begin_result m h pcs n co m' claim :
  mapping_inv m -> 0 <= n ->
  is_remote_chunk_eviction_begin m h pcs n co = (m', inr claim) ->
  exists sel, selection m h sel n /\ 0 < n <= chunk_count m /\ provider_live m h /\ quiescing m = false /\
    next_eviction_claim_id m < ID_MAX /\ next_transition_generation m < ID_MAX /\
    claim = {| ec_magic := IS_REMOTE_CHUNK_EVICTION_MAGIC; ec_module_identity := identity m;
               ec_provider := h; ec_claim_id := next_eviction_claim_id m + 1;
               ec_transition_generation := next_transition_generation m + 1;
               ec_batch_digest := is_remote_chunk_batch_digest sel (chunk_count m);
               ec_chunk_count := n |} /\
    m' = (is_remote_chunk_mapping_terminal_supersede_locked m)
           <| next_eviction_claim_id := next_eviction_claim_id m + 1 |>
           <| next_transition_generation := next_transition_generation m + 1 |>
           <| chunks := batch sel (evicting (next_eviction_claim_id m + 1)
                                     (next_transition_generation m + 1)) (chunks m) |>
           <| usable_chunks := usable_chunks m - n |>
           <| active_eviction_claims := active_eviction_claims m + 1 |>.
Proof.
  intros Hm Hn. unfold is_remote_chunk_eviction_begin. destruct pcs as [pcs|]; [|done].
  destruct (Z.eqb_spec n 0); [done|]. destruct (Z.ltb_spec (chunk_count m) n); [done|]. cbn [orb].
  destruct (negb _); [done|]. destruct (quiescing m) eqn:Eq; [done|].
  destruct (is_remote_chunk_provider_valid_locked m h) eqn:Ev; [|done]. cbn [negb].
  destruct (is_remote_chunk_eviction_claim_active_locked m (Some co)); [done|].
  destruct (eviction_select m h pcs n) as [e|sel] eqn:Esel; [done|].
  destruct (Z.eqb_spec (next_eviction_claim_id m) ID_MAX); [done|].
  destruct (Z.eqb_spec (next_transition_generation m) ID_MAX); [done|].
  destruct (Z.ltb_spec (usable_chunks m) n); [done|].
  destruct (Z.eqb_spec (active_eviction_claims m) IS_REMOTE_CHUNK_U32_MAX); [done|].
  cbn [orb]. cbv zeta. pose proof (v_ids _ Hm) as (Hi1 & Hi2 & Hi3 & Hi4).
  set (m1 := is_remote_chunk_mapping_terminal_supersede_locked _).
  change (chunk_count m1) with (chunk_count m).
  set (m2 := for_loop _ _ _ m1).
  assert (Hm2 : m2 = m1 <| chunks := batch sel (evicting (next_eviction_claim_id m + 1)
                              (next_transition_generation m + 1)) (chunks m1) |>).
  { subst m2. apply (batch_loop m1); [apply Hm|]. intros j s. unfold evict_chunk, evicting. cbn.
    rewrite !u64_small by lia. by destruct (selected_at sel j). }
  rewrite Hm2. intros [= <- <-]. exists sel.
  apply provider_valid_spec in Ev; [|apply Hm].
  assert (Hus : 0 <= usable_chunks m - n <= 128).
  { pose proof (count_le_128 m (v_length _ Hm) (v_count _ Hm) chunk_mapped). rewrite (v_usable _ Hm) in *. lia. }
  assert (Hec : 0 <= active_eviction_claims m + 1 < 4294967296).
  { rewrite (v_evictions _ Hm) in *. unfold IS_REMOTE_CHUNK_U32_MAX in *.
    pose proof (eviction_ids_size (chunks m)). pose proof (v_length _ Hm). pose proof (v_count _ Hm). lia. }
  split_and!; try done; try lia.
  - by apply (eviction_select_spec m h pcs).
  - cbn. by rewrite !u64_small by lia.
  - subst m1. cbn. rewrite !u64_small, !u32_small by lia. done.
Qed.

Lemma eviction_ids_begin m h sel n id generation :
  mapping_inv m -> selection m h sel n -> 0 < n -> 0 < id ->
  eviction_ids (batch sel (evicting id generation) (chunks m)) = {[id]} ∪ eviction_ids (chunks m).
Proof.
  intros Hm Hsel Hn Hid. apply set_eq. intros x. rewrite elem_of_union, elem_of_singleton.
  rewrite !elem_of_eviction_ids. split.
  - intros (Hx & k & c & Hk & <-). apply lookup_batch_Some in Hk as (c0 & Hk & ->).
    destruct (nth k sel false); [by left|]. right. eauto.
  - intros [->|(Hx & k & c & Hk & <-)].
    + split; [lia|]. assert (Hex : exists k, nth k sel false = true).
      { destruct (decide (true ∈ sel)) as [[k Hk]%list_elem_of_lookup|Hno].
        - exists k. by rewrite (nth_lookup_Some _ _ _ _ Hk).
        - exfalso. destruct Hsel as [_ Hc _]. rewrite count_zero in Hc; [lia|]. by intros [] Hb. }
      destruct Hex as [k Hs]. destruct (se_chunk _ _ _ _ Hsel k Hs) as (c & Hk & _).
      exists k, (evicting id generation c). rewrite lookup_batch, Hk. cbn. by rewrite Hs.
    + split; [done|]. exists k, c. rewrite lookup_batch, Hk. cbn. split; [|done].
      destruct (nth k sel false) eqn:Hs; [|done]. exfalso.
      destruct (se_chunk _ _ _ _ Hsel k Hs) as (c1 & Hk1 & Hst & _). simplify_eq.
      destruct (v_chunk _ Hm _ _ Hk) as [_ Hok]. rewrite Hst in Hok. destruct_and? Hok. done.
Qed.

Lemma eviction_ids_le m x : mapping_inv m -> x ∈ eviction_ids (chunks m) -> x <= next_eviction_claim_id m.
Proof.
  intros Hm (Hx & k & c & Hk & <-)%elem_of_eviction_ids.
  destruct (v_chunk _ Hm _ _ Hk) as [_ Hok].
  destruct (ck_state c); destruct_and? Hok; done || lia.
Qed.

Section begin.
Context (m : is_remote_chunk_module) (h : is_remote_chunk_provider_handle) (sel : list bool) (n : Z).
Hypothesis Hm : mapping_inv m.
Hypothesis Hsel : selection m h sel n.
Let id1 := next_eviction_claim_id m + 1.
Let gen1 := next_transition_generation m + 1.
Let cs' := batch sel (evicting id1 gen1) (chunks m).

(** A chunk after the eviction began: one of the batch, or untouched. *)
Lemma begin_lookup k c' :
  cs' !! k = Some c' ->
  (exists c, chunks m !! k = Some c /\ ck_state c = MAPPED /\ ck_provider c = h /\
     c' = evicting id1 gen1 c) \/ chunks m !! k = Some c'.
Proof.
  intros (c & Hk & ->)%lookup_batch_Some. destruct (nth k sel false) eqn:Hs; [left|by right].
  destruct (se_chunk _ _ _ _ Hsel k Hs) as (c1 & Hk1 & Hst & Hh). simplify_eq. eauto.
Qed.

Lemma begin_untouched k c :
  chunks m !! k = Some c -> ck_state c <> MAPPED -> cs' !! k = Some c.
Proof.
  intros Hk Hst. unfold cs'. rewrite lookup_batch, Hk. cbn.
  destruct (nth k sel false) eqn:Hs; [|done].
  destruct (se_chunk _ _ _ _ Hsel k Hs) as (c1 & Hk1 & Hst1 & _). congruence.
Qed.

Lemma begin_count_same f : (forall c, ck_state c = MAPPED -> f (evicting id1 gen1 c) = f c) ->
  count f cs' = count f (chunks m).
Proof.
  intros H. apply count_batch_same. intros i c Hi Hs.
  destruct (se_chunk _ _ _ _ Hsel i Hs) as (c1 & Hk1 & Hst & _). simplify_eq. auto.
Qed.

Lemma begin_batches k k' c c' :
  cs' !! k = Some c -> cs' !! k' = Some c' ->
  ck_eviction_claim_id c = ck_eviction_claim_id c' -> ck_eviction_claim_id c <> 0 ->
  ck_provider c = ck_provider c' /\ ck_transition_generation c = ck_transition_generation c'.
Proof.
  assert (Hnew : forall j d, chunks m !! j = Some d -> ck_eviction_claim_id d <> id1).
  { intros j d Hj E. destruct (decide (ck_eviction_claim_id d = 0)) as [E0|E0].
    - pose proof (v_ids _ Hm). subst id1. lia.
    - assert (ck_eviction_claim_id d ∈ eviction_ids (chunks m)) as Hin
        by (apply elem_of_eviction_ids; eauto).
      apply (eviction_ids_le _ _ Hm) in Hin. subst id1. lia. }
  intros [(c0 & H1 & _ & Hh1 & ->)|H1]%begin_lookup [(c0' & H2 & _ & Hh2 & ->)|H2]%begin_lookup E Hne.
  - cbn. split; congruence.
  - by destruct (Hnew _ _ H2).
  - by destruct (Hnew _ _ H1).
  - exact (v_batches _ Hm _ _ _ _ H1 H2 E Hne).
Qed.

Lemma begin_alias k k' c c' :
  cs' !! k = Some c -> cs' !! k' = Some c' -> chunk_assigned c = true -> chunk_assigned c' = true ->
  ck_provider c = ck_provider c' -> ck_provider_chunk c = ck_provider_chunk c' -> k = k'.
Proof.
  assert (Ha : forall d, ck_state d = MAPPED -> chunk_assigned d = true)
    by (intros d E; unfold chunk_assigned; by rewrite E).
  intros [(c0 & H1 & Hs1 & _ & ->)|H1]%begin_lookup [(c0' & H2 & Hs2 & _ & ->)|H2]%begin_lookup Ha1 Ha2 Hp Hpc.
  all: eapply (v_alias _ Hm); eauto.
Qed.

Lemma begin_claim (m' : is_remote_chunk_module) :
  chunks m' = cs' -> chunk_count m' = chunk_count m -> identity m' = identity m ->
  active_mapping_claims m' = active_mapping_claims m -> active_mapping_claim m' = active_mapping_claim m ->
  next_mapping_claim_id m <= next_mapping_claim_id m' ->
  next_transition_generation m <= next_transition_generation m' -> claim_inv m'.
Proof.
  intros E1 E2 E3 E4 E5 H6 H7. destruct (v_claim _ Hm) as [A1 A2 A3|k c A1 A2 A3 A4 A5 A6 A7].
  - apply no_claim; [congruence|congruence|]. rewrite E1.
    intros k c [(c0 & _ & _ & _ & ->)|Hk]%begin_lookup; [done|eauto].
  - apply (one_claim _ k c); try done; try lia; rewrite ?E1.
    + apply begin_untouched; [done|congruence].
    + rewrite E5, A4. unfold claim_of. by rewrite E2, E3.
    + intros k' c' [(c0 & _ & _ & _ & ->)|Hk]%begin_lookup Hs; [done|eauto].
Qed.
End begin.

Lemma eviction_begin_inv m h pcs n co m' r :
  mapping_inv m -> 0 <= n ->
  is_remote_chunk_eviction_begin m h pcs n co = (m', r) -> mapping_inv m'.
Proof.
  intros Hm Hn E. destruct r as [e|claim].
  { assert (m' = m) as ->; [|done]. revert E. unfold is_remote_chunk_eviction_begin.
    destruct pcs; [|by intros [= <- _]]. repeat case_match; by intros [= <- _]. }
  destruct (eviction_begin_result _ _ _ _ _ _ _ Hm Hn E) as
    (sel & Hsel & Hn' & Hl & _ & Hi1 & Hi2 & _ & ->). clear E.
  pose proof (v_ids _ Hm) as (Hj1 & Hj2 & Hj3 & Hj4).
  set (id1 := next_eviction_claim_id m + 1) in *. set (gen1 := next_transition_generation m + 1) in *.
  split; try apply Hm; cbn -[evicting size id1 gen1].
  - by apply (roster_inv_frame m), Hm.
  - by rewrite length_batch, (v_length _ Hm).
  - lia.
  - rewrite (v_assigned _ Hm). f_equal. symmetry. apply (begin_count_same m h sel n Hsel).
    intros c Hc. unfold chunk_assigned. by rewrite Hc.
  - rewrite (v_usable _ Hm).
    rewrite <- (count_batch chunk_mapped sel (evicting id1 gen1) (chunks m)).
    + rewrite <- (se_count _ _ _ _ Hsel). lia.
    + intros i c Hi Hs. destruct (se_chunk _ _ _ _ Hsel i Hs) as (c1 & Hk & Hst & _). simplify_eq.
      unfold chunk_mapped. by rewrite Hst.
    + intros i Hs. destruct (se_chunk _ _ _ _ Hsel i Hs) as (c & Hk & _). by eapply lookup_lt_Some.
  - intros k c [(c0 & Hk & Hst & Hh & ->)|Hk]%(begin_lookup m h sel n Hsel).
    + destruct (v_chunk _ Hm _ _ Hk) as [Hg Hok]. rewrite Hst in Hok. destruct Hok as (Hlv & Hc & _ & Hr).
      split; [exact Hg|]. cbn. split_and!; try done; lia.
    + apply (chunk_ok_mono m); cbn; try done; try lia. exact (v_chunk _ Hm _ _ Hk).
  - apply (begin_claim m h sel n Hm Hsel); cbn; try done; lia.
  - rewrite (eviction_ids_begin m h sel n) by (done || lia). rewrite (v_evictions _ Hm).
    rewrite size_union, size_singleton; [lia|].
    apply disjoint_singleton_l. intros Hin%(eviction_ids_le _ _ Hm). lia.
  - exact (begin_batches m h sel n Hm Hsel).
  - exact (begin_alias m h sel n Hm Hsel).
  - intros j p Hp. pose proof (v_capacity _ Hm _ _ Hp) as Hcap.
    rewrite (begin_count_same m h sel n Hsel); [done|].
    intros c Hc. unfold chunk_of_provider. by rewrite Hc.
Qed.

(** ** Resetting the chunks of a test *)

Definition reset_chunk (generation : Z) (reset_activity : bool) (c : is_remote_chunk) : is_remote_chunk :=
  c <| ck_mapping_generation := generation |> <| ck_provider := zero_handle |>
    <| ck_provider_chunk := 0 |> <| ck_remote_address := 0 |> <| ck_remote_key := 0 |>
    <| ck_mapping_claim_id := 0 |> <| ck_eviction_claim_id := 0 |>
    <| ck_transition_generation := 0 |>
    <| ck_activity := if reset_activity then 0 else ck_activity c |>
    <| ck_state := UNMAPPED |>.

(** The words of the bitmap that belong to the module's chunks. *)
Definition bitmap_ok (m : is_remote_chunk_module) : Prop :=
  forall k, is_Some (valid_sectors m !! k) -> 0 <= k < chunk_count m * 32768.

(** [m'] is [m] with the chunks of the test reset, each to a new generation,
    and their sectors invalid. *)
Record reset_result (m m' : is_remote_chunk_module) (member : is_remote_chunk -> bool) (ra : bool) : Prop := {
  rr_frame : m' = m <| chunks := chunks m' |> <| next_mapping_generation := next_mapping_generation m' |>
                    <| valid_sectors := valid_sectors m' |>;
  rr_length : length (chunks m') = length (chunks m);
  rr_next : next_mapping_generation m' =
    next_mapping_generation m + Z.of_nat (count member (chunks m));
  rr_chunk : forall i c, chunks m !! i = Some c ->
    if member c
    then exists g, next_mapping_generation m < g <= next_mapping_generation m' /\
           chunks m' !! i = Some (reset_chunk g ra c)
    else chunks m' !! i = Some c;
  rr_valid : forall s, sector_valid (valid_sectors m') s =
    negb (in_sectors 0 (chunk_count m * SPC) s && member (chunk_at m (s / SPC))) &&
    sector_valid (valid_sectors m) s;
  rr_bitmap : bitmap_ok m -> bitmap_ok m'
}.

Lemma invalidate_chunk_spec v j s :
  0 <= j < 128 ->
  sector_valid (invalidate_chunk v j) s = negb (s / SPC =? j) && sector_valid v s.
Proof.
  intros Hj. unfold invalidate_chunk, SPC.
  rewrite u64_small by (unfold ID_MAX; lia). rewrite u32_small by lia.
  rewrite validity_update_spec by (pow_lia || lia).
  assert (in_sectors (j * 2097152) 2097152 s = (s / 2097152 =? j)) as ->.
  { unfold in_sectors. apply Bool.eq_iff_eq_true. rewrite andb_true_iff, Z.leb_le, Z.ltb_lt, Z.eqb_eq.
    Z.div_mod_to_equations. lia. }
  by destruct (s / 2097152 =? j).
Qed.

Lemma invalidate_chunk_dom v j k :
  0 <= j < 128 -> is_Some (invalidate_chunk v j !! k) ->
  is_Some (v !! k) \/ j * 32768 <= k < (j + 1) * 32768.
Proof.
  intros Hj. unfold invalidate_chunk, SPC.
  rewrite u64_small by (unfold ID_MAX; lia). rewrite u32_small by lia.
  intros [?|Hk]%validity_update_dom; [by left| |lia|lia|pow_lia]. right.
  Z.div_mod_to_equations. lia.
Qed.

Lemma reset_mapping_eq m j ra :
  is_remote_chunk_reset_mapping_locked m j ra =
  m <| valid_sectors := invalidate_chunk (valid_sectors m) j |>
    <| next_mapping_generation := u64 (next_mapping_generation m + 1) |>
    <| chunks := set_at (chunks m) j
         (reset_chunk (u64 (next_mapping_generation m + 1)) ra (chunk_at m j)) |>.
Proof. done. Qed.

Section reset.
Context (m : is_remote_chunk_module) (member : is_remote_chunk -> bool) (ra : bool).
Hypothesis Hlen : Z.of_nat (length (chunks m)) = chunk_count m.
Hypothesis Hcount : 0 < chunk_count m <= 128.
Hypothesis Hnext : 0 <= next_mapping_generation m.
Hypothesis Hroom : next_mapping_generation m + Z.of_nat (count member (chunks m)) <= ID_MAX.

(** The state of the loop before turn [j]. *)
Record reset_upto (j : Z) (s : is_remote_chunk_module) : Prop := {
  ru_frame : s = m <| chunks := chunks s |> <| next_mapping_generation := next_mapping_generation s |>
                   <| valid_sectors := valid_sectors s |>;
  ru_length : length (chunks s) = length (chunks m);
  ru_next : next_mapping_generation s =
    next_mapping_generation m + Z.of_nat (count member (take (Z.to_nat j) (chunks m)));
  ru_chunk : forall i c, chunks m !! i = Some c ->
    if bool_decide (Z.of_nat i < j) && member c
    then exists g, next_mapping_generation m < g <= next_mapping_generation s /\
           chunks s !! i = Some (reset_chunk g ra c)
    else chunks s !! i = Some c;
  ru_valid : forall x, sector_valid (valid_sectors s) x =
    negb (in_sectors 0 (j * SPC) x && member (chunk_at m (x / SPC))) &&
    sector_valid (valid_sectors m) x;
  ru_bitmap : bitmap_ok m -> bitmap_ok s
}.

Lemma in_sectors_next j x :
  in_sectors 0 ((j + 1) * SPC) x = in_sectors 0 (j * SPC) x || ((0 <=? x) && (x / SPC =? j)) \/ j < 0.
Proof.
  destruct (Z.ltb_spec j 0); [by right|left]. unfold in_sectors, SPC. apply Bool.eq_iff_eq_true.
  rewrite orb_true_iff, !andb_true_iff, !Z.leb_le, !Z.ltb_lt, Z.eqb_eq. Z.div_mod_to_equations. lia.
Qed.

Lemma upto_next j i b :
  0 <= j ->
  bool_decide (Z.of_nat i < j + 1) && b =
  (bool_decide (Z.of_nat i < j) && b) || (bool_decide (i = Z.to_nat j) && b).
Proof.
  intros Hj. destruct b; rewrite ?andb_false_r, ?andb_true_r; [|done].
  repeat case_bool_decide; done || lia.
Qed.

Lemma reset_sectors_next j x :
  0 <= j ->
  in_sectors 0 ((j + 1) * SPC) x && member (chunk_at m (x / SPC)) =
  (in_sectors 0 (j * SPC) x && member (chunk_at m (x / SPC))) ||
  ((0 <=? x) && (x / SPC =? j) && member (chunk_at m j)).
Proof.
  intros Hj. destruct (in_sectors_next j x) as [->|]; [|lia]. rewrite andb_orb_distrib_l. f_equal.
  destruct (Z.eqb_spec (x / SPC) j) as [->|]; [done|]. by rewrite !andb_false_r.
Qed.

Lemma reset_step j s :
  0 <= j < chunk_count m -> reset_upto j s ->
  reset_upto (j + 1) (if member (chunk_at s j) then is_remote_chunk_reset_mapping_locked s j ra else s).
Proof.
  intros Hj [F1 F2 F3 F4 F5 F6].
  pose proof (chunk_at_lookup m Hlen j Hj) as Hjk.
  pose proof (F4 _ _ Hjk) as Hs. rewrite bool_decide_eq_false_2 in Hs by lia. cbn [andb] in Hs.
  assert (Ec : chunk_at s j = chunk_at m j) by (by apply nth_lookup_Some). rewrite Ec.
  assert (Hcnt : count member (take (Z.to_nat (j + 1)) (chunks m)) =
    (count member (take (Z.to_nat j) (chunks m)) + b2n (member (chunk_at m j)))%nat)
    by (by apply count_take_chunk).
  assert (Hle : (count member (take (Z.to_nat (j + 1)) (chunks m)) <= count member (chunks m))%nat).
  { rewrite <- (take_drop (Z.to_nat (j + 1)) (chunks m)) at 2. rewrite count_app. lia. }
  destruct (member (chunk_at m j)) eqn:Em; cbn [b2n] in Hcnt.
  - assert (Hn : u64 (next_mapping_generation s + 1) = next_mapping_generation s + 1)
      by (apply u64_small; lia).
    rewrite reset_mapping_eq, Ec, Hn.
    split; cbn -[reset_chunk invalidate_chunk sector_valid set_at].
    + rewrite F1 at 1. done.
    + by rewrite length_set_at.
    + rewrite F3, Hcnt. lia.
    + intros i c Hi. rewrite (upto_next j i) by lia. rewrite lookup_set_at by lia.
      specialize (F4 i c Hi). destruct (decide (i = Z.to_nat j)) as [->|Hne].
      * rewrite bool_decide_eq_false_2 by lia. rewrite bool_decide_eq_true_2 by done.
        replace c with (chunk_at m j) by congruence. rewrite Em. cbn [andb orb].
        eexists. split; [|done]. lia.
      * rewrite (bool_decide_eq_false_2 (i = _)) by done. rewrite orb_false_r.
        destruct (_ && _); [|done]. destruct F4 as (g & Hg & F4). exists g. split; [lia|done].
    + intros x. cbn -[invalidate_chunk sector_valid]. rewrite invalidate_chunk_spec by lia.
      rewrite F5, reset_sectors_next, Em, andb_true_r by lia. destruct (Z.eqb_spec (x / SPC) j) as [E|]; cbn [negb andb].
      * assert (0 <= x) by (unfold SPC in E; Z.div_mod_to_equations; lia).
        rewrite (proj2 (Z.leb_le 0 x)) by done. by rewrite orb_true_r.
      * by rewrite andb_false_r, orb_false_r.
    + intros Hb k Hk. cbn -[invalidate_chunk] in Hk |- *.
      apply invalidate_chunk_dom in Hk as [Hk|Hk]; [by apply (F6 Hb)| |lia].
      assert (chunk_count s = chunk_count m) as -> by (by rewrite F1). lia.
  - split; try done.
    + rewrite F3, Hcnt. lia.
    + intros i c Hi. rewrite (upto_next j i) by lia. destruct (decide (i = Z.to_nat j)) as [->|Hne].
      * replace c with (chunk_at m j) by congruence. by rewrite Em, !andb_false_r.
      * rewrite (bool_decide_eq_false_2 (i = _)) by done. rewrite orb_false_r. by apply F4.
    + intros x. rewrite F5, reset_sectors_next, Em by lia. by rewrite andb_false_r, orb_false_r.
Qed.

Lemma reset_loop body :
  (forall j s, body j s =
     if member (chunk_at s j) then is_remote_chunk_reset_mapping_locked s j ra else s) ->
  reset_result m (for_loop (Z.to_nat (chunk_count m)) 0 body m) member ra.
Proof.
  intros Hbody. assert (H : reset_upto (chunk_count m) (for_loop (Z.to_nat (chunk_count m)) 0 body m)).
  { apply (for_loop_ind0 reset_upto); [lia| |].
    - split; try done; [by destruct m| | |].
      + change (Z.to_nat 0) with 0%nat. rewrite take_0. change (count member []) with 0%nat. lia.
      + intros i c Hi. by rewrite bool_decide_eq_false_2 by lia.
      + intros x. assert (in_sectors 0 (0 * SPC) x = false) as ->; [|done]. unfold in_sectors. lia.
    - intros j s Hj Hs. rewrite Hbody. by apply reset_step. }
  destruct H as [F1 F2 F3 F4 F5 F6]. split; try done.
  - by rewrite count_take_all in F3.
  - intros i c Hi. specialize (F4 i c Hi). apply lookup_lt_Some in Hi as Hlt.
    by rewrite bool_decide_eq_true_2 in F4 by lia.
Qed.
End reset.

(** ** What a reset keeps of the invariant *)

Section reset_keeps.
Context (m m' : is_remote_chunk_module) (member : is_remote_chunk -> bool) (ra : bool).
Hypothesis Hm : mapping_inv m.
Hypothesis Hr : reset_result m m' member ra.

Lemma reset_lookup k c' :
  chunks m' !! k = Some c' ->
  exists c, chunks m !! k = Some c /\
    ((member c = false /\ c' = c) \/
     (member c = true /\ exists g, next_mapping_generation m < g <= next_mapping_generation m' /\
        c' = reset_chunk g ra c)).
Proof.
  intros Hk. destruct (lookup_lt_is_Some_2 (chunks m) k) as [c Hc].
  { rewrite <- (rr_length _ _ _ _ Hr). by eapply lookup_lt_Some. }
  exists c. split; [done|]. pose proof (rr_chunk _ _ _ _ Hr k c Hc) as H.
  destruct (member c); [right|left; naive_solver]. destruct H as (g & Hg & H). split; [done|].
  exists g. split; [done|congruence].
Qed.

Lemma reset_kept k c : chunks m !! k = Some c -> member c = false -> chunks m' !! k = Some c.
Proof. intros Hk Hc. pose proof (rr_chunk _ _ _ _ Hr k c Hk) as H. by rewrite Hc in H. Qed.

(** Counting a test that no reset chunk passes. *)
Lemma reset_count p :
  (forall g c, p (reset_chunk g ra c) = false) ->
  count p (chunks m) = (count p (chunks m') + count (fun c => member c && p c) (chunks m))%nat.
Proof.
  intros Hp. apply count_pointwise; [by rewrite (rr_length _ _ _ _ Hr)|].
  intros i x y Hx Hy. pose proof (rr_chunk _ _ _ _ Hr i x Hx) as H.
  destruct (member x); [destruct H as (g & _ & H)|]; rewrite Hy in H; injection H as ->; cbn [andb].
  - by rewrite Hp.
  - cbn [b2n]. lia.
Qed.

Lemma reset_batches k k' c c' :
  chunks m' !! k = Some c -> chunks m' !! k' = Some c' ->
  ck_eviction_claim_id c = ck_eviction_claim_id c' -> ck_eviction_claim_id c <> 0 ->
  ck_provider c = ck_provider c' /\ ck_transition_generation c = ck_transition_generation c'.
Proof.
  intros (d & H1 & [[_ ->]|(_ & g & _ & ->)])%reset_lookup (d' & H2 & [[_ ->]|(_ & g' & _ & ->)])%reset_lookup E Hne;
    try done.
  exact (v_batches _ Hm _ _ _ _ H1 H2 E Hne).
Qed.

Lemma reset_alias k k' c c' :
  chunks m' !! k = Some c -> chunks m' !! k' = Some c' -> chunk_assigned c = true -> chunk_assigned c' = true ->
  ck_provider c = ck_provider c' -> ck_provider_chunk c = ck_provider_chunk c' -> k = k'.
Proof.
  intros (d & H1 & [[_ ->]|(_ & g & _ & ->)])%reset_lookup (d' & H2 & [[_ ->]|(_ & g' & _ & ->)])%reset_lookup;
    try done.
  exact (v_alias _ Hm _ _ _ _ H1 H2).
Qed.

Lemma reset_chunk_ok (m2 : is_remote_chunk_module) k c :
  chunks m' !! k = Some c -> next_mapping_generation m2 = next_mapping_generation m' ->
  next_eviction_claim_id m <= next_eviction_claim_id m2 ->
  next_transition_generation m <= next_transition_generation m2 ->
  (forall c, member c = false -> provider_live m (ck_provider c) -> provider_live m2 (ck_provider c)) ->
  chunk_ok m2 c.
Proof.
  intros (d & Hd & [[Hmem ->]|(_ & g & Hg & ->)])%reset_lookup En He Ht Hl.
  - destruct (v_chunk _ Hm _ _ Hd) as [Hg Hok]. pose proof (rr_next _ _ _ _ Hr). split; [lia|].
    specialize (Hl d Hmem). destruct (ck_state d); destruct_and? Hok; split_and?; auto; lia.
  - pose proof (v_ids _ Hm) as (_ & _ & _ & Hi). split; [cbn; lia|done].
Qed.

Lemma reset_capacity i p :
  providers m !! i = Some p ->
  Z.of_nat (count (chunk_of_provider (pr_handle p)) (chunks m')) <=
  pr_observation_debited_chunks p + pr_reported_available_chunks p.
Proof.
  intros Hp. pose proof (v_capacity _ Hm _ _ Hp).
  pose proof (reset_count (chunk_of_provider (pr_handle p)) ltac:(done)). lia.
Qed.
End reset_keeps.
