(* ===== verification/RemoteChunkFail.v ===== *)
(** * Remote chunks: finishing an eviction, failing a provider

    Both unmap a set of chunks: those of the eviction claim, or every chunk of
    the provider, with the claims and evictions it had in progress. *)
From S2P Require Import Prelude RemoteChunkData RemoteChunk RemoteChunkValidity RemoteChunkInv.
From S2P Require Import RemoteChunkInv RemoteChunkFinish RemoteChunkEvict.

(** ** Eviction identifiers after a reset *)

Lemma eviction_ids_reset m m' member ra (S : gset Z) :
  reset_result m m' member ra ->
  (forall k c, chunks m !! k = Some c -> member c = true ->
     ck_eviction_claim_id c = 0 \/ ck_eviction_claim_id c ∈ S) ->
  (forall k c, chunks m !! k = Some c -> ck_eviction_claim_id c ∈ S -> member c = true) ->
  eviction_ids (chunks m') = eviction_ids (chunks m) ∖ S.
Proof.
  intros Hr H1 H2. apply set_eq. intros x. rewrite elem_of_difference, !elem_of_eviction_ids. split.
  - intros (Hx & k & c & Hk & <-).
    destruct (reset_lookup _ _ _ _ Hr _ _ Hk) as (d & Hd & [[Hmem ->]|(_ & g & _ & ->)]); [|done].
    split; [eauto|]. intros Hin. rewrite (H2 _ _ Hd Hin) in Hmem. done.
  - intros ((Hx & k & c & Hk & <-) & Hnin). split; [done|]. exists k, c. split; [|done].
    apply (reset_kept _ _ _ _ Hr); [done|]. destruct (member c) eqn:E; [|done].
    destruct (H1 _ _ Hk E); done.
Qed.

(** ** Validation of an eviction claim *)

Definition eviction_member (id : Z) (c : is_remote_chunk) : bool := ck_eviction_claim_id c =? id.

Lemma eviction_validate_ok m claim :
  mapping_inv m -> is_remote_chunk_eviction_claim_validate_locked m claim = 0 ->
  ec_claim_id claim <> 0 /\ provider_live m (ec_provider claim) /\ 0 < ec_chunk_count claim /\
  ec_module_identity claim = identity m /\
  Z.of_nat (count (eviction_member (ec_claim_id claim)) (chunks m)) = ec_chunk_count claim /\
  (forall k c, chunks m !! k = Some c -> ck_eviction_claim_id c = ec_claim_id claim ->
     ck_state c = EVICTING /\ ck_provider c = ec_provider claim).
Proof.
  intros Hm. unfold is_remote_chunk_eviction_claim_validate_locked.
  destruct (negb (ec_magic claim =? _)); [done|].
  destruct (Z.eqb_spec (ec_claim_id claim) 0); [done|].
  destruct (Z.eqb_spec (ec_transition_generation claim) 0); [done|].
  destruct (Z.eqb_spec (ec_chunk_count claim) 0); [done|]. cbn [orb].
  destruct (Z.eqb_spec (ec_module_identity claim) (identity m)); [|done]. cbn [negb].
  destruct (is_remote_chunk_provider_valid_locked m _) eqn:Ev; [|done]. cbn [negb].
  apply provider_valid_spec in Ev; [|apply Hm]. destruct (_ <? _); [done|].
  destruct (claim_members m _ _) as [[sel cnt]|] eqn:E; [|done].
  destruct (claim_members_Some m (v_length _ Hm) (v_count _ Hm) _ _ _ _ E) as (_ & -> & Hok).
  match goal with |- context [count ?f (chunks m)] => change f with (eviction_member (ec_claim_id claim)) end.
  destruct (Z.eqb_spec (Z.of_nat (count (eviction_member (ec_claim_id claim)) (chunks m)))
    (ec_chunk_count claim)) as [Ecount|]; [|done]. intros _.
  split_and!; try done; [lia|]. intros k c Hk Hid.
  specialize (Hok k c Hk). rewrite Hid, Z.eqb_refl in Hok. specialize (Hok eq_refl).
  rewrite !andb_true_iff, handle_equal_eq, !bool_decide_eq_true in Hok. by destruct Hok as [[? _] ?].
Qed.

Lemma eviction_drained_spec m claim :
  mapping_inv m ->
  is_remote_chunk_eviction_drained_locked m claim = true <->
  forall k c, chunks m !! k = Some c -> ck_eviction_claim_id c = ec_claim_id claim ->
    ck_active_io_leases c = 0.
Proof.
  intros Hm. unfold is_remote_chunk_eviction_drained_locked. rewrite negb_true_iff.
  unfold chunk_at. rewrite (exists_below_array_false (chunks m) (chunk_count m) zero_chunk (fun c =>
    (ck_eviction_claim_id c =? ec_claim_id claim) && negb (ck_active_io_leases c =? 0)))
    by (symmetry; apply Hm).
  split; intros H k c Hk; specialize (H k c Hk).
  - intros E. rewrite E, Z.eqb_refl in H. cbn in H. apply negb_false_iff, Z.eqb_eq in H. done.
  - destruct (Z.eqb_spec (ck_eviction_claim_id c) (ec_claim_id claim)) as [E|]; [|done].
    rewrite (H E). done.
Qed.

(** ** Finishing an eviction *)

Lemma eviction_finish_result m cs m' :
  mapping_inv m -> is_remote_chunk_eviction_finish m cs = (m', 0) ->
  let claim := is_remote_chunk_eviction_claim_decode cs in
  is_remote_chunk_eviction_claim_validate_locked m claim = 0 /\
  is_remote_chunk_eviction_drained_locked m claim = true /\
  next_mapping_generation m + ec_chunk_count claim <= ID_MAX /\
  ec_chunk_count claim <= assigned_chunks m /\ 0 < active_eviction_claims m /\
  exists m1, reset_result m m1 (eviction_member (ec_claim_id claim)) true /\
    m' = m1 <| assigned_chunks := assigned_chunks m - ec_chunk_count claim |>
            <| active_eviction_claims := active_eviction_claims m - 1 |>.
Proof.
  intros Hm. unfold is_remote_chunk_eviction_finish. cbv zeta.
  set (claim := is_remote_chunk_eviction_claim_decode cs). destruct (bool_decide _); [done|].
  destruct (Z.eqb_spec (is_remote_chunk_eviction_claim_validate_locked m claim) 0) as [Ev|];
    [|intros [= _ ?]; done]. cbn [negb].
  destruct (is_remote_chunk_eviction_drained_locked m claim) eqn:Ed; [|done]. cbn [negb].
  destruct (Z.ltb_spec (ID_MAX - ec_chunk_count claim) (next_mapping_generation m)); [done|].
  destruct (Z.ltb_spec (assigned_chunks m) (ec_chunk_count claim)); [done|].
  destruct (Z.eqb_spec (active_eviction_claims m) 0); [done|]. cbn [orb].
  destruct (eviction_validate_ok _ _ Hm Ev) as (Hid & Hl & Hcnt & _ & Ecnt & Hmem).
  pose proof (v_ids _ Hm) as (_ & _ & _ & Hi).
  pose proof (reset_loop m (eviction_member (ec_claim_id claim)) true (v_length _ Hm) (v_count _ Hm)
    ltac:(lia) ltac:(lia) (fun index m0 => if ck_eviction_claim_id (chunk_at m0 index) =? ec_claim_id claim
        then is_remote_chunk_reset_mapping_locked m0 index true else m0) ltac:(done)) as Hr.
  set (m1 := for_loop _ _ _ m) in *. intros [= <-].
  assert (E1 : assigned_chunks m1 = assigned_chunks m) by (by rewrite (rr_frame _ _ _ _ Hr)).
  assert (E2 : active_eviction_claims m1 = active_eviction_claims m) by (by rewrite (rr_frame _ _ _ _ Hr)).
  pose proof (count_le_128 m (v_length _ Hm) (v_count _ Hm) chunk_assigned).
  pose proof (eviction_ids_size (chunks m)). pose proof (v_length _ Hm). pose proof (v_count _ Hm).
  pose proof (v_assigned _ Hm). pose proof (v_evictions _ Hm).
  split_and!; try done; try lia. exists m1. split; [done|].
  cbn. rewrite E1, E2, !u32_small by lia. done.
Qed.

Lemma core_eviction_finish_refused m cs m' r :
  is_remote_chunk_eviction_finish m cs = (m', r) -> r <> 0 -> core m' = core m.
Proof.
  unfold is_remote_chunk_eviction_finish. cbv zeta. destruct (bool_decide _); [by intros [= <- _]|].
  destruct (negb _); [by intros [= <- _]|]. destruct (negb _).
  { intros [= <- _] _. apply core_note_invariant. }
  destruct (_ || _); [by intros [= <- _]|]. by intros [= _ <-].
Qed.

(** A reset of chunks that are not being mapped leaves the claim alone. *)
Lemma reset_claim_kept m m' member ra m2 :
  mapping_inv m -> reset_result m m' member ra ->
  (forall k c, chunks m !! k = Some c -> member c = true -> ck_state c <> MAPPING) ->
  chunks m2 = chunks m' -> chunk_count m2 = chunk_count m -> identity m2 = identity m ->
  active_mapping_claims m2 = active_mapping_claims m ->
  active_mapping_claim m2 = active_mapping_claim m ->
  next_mapping_claim_id m <= next_mapping_claim_id m2 ->
  next_transition_generation m <= next_transition_generation m2 -> claim_inv m2.
Proof.
  intros Hm Hr Hno E1 E2 E3 E4 E5 H6 H7. destruct (v_claim _ Hm) as [A1 A2 A3|k c A1 A2 A3 A4 A5 A6 A7].
  - apply no_claim; [congruence|congruence|]. rewrite E1. intros k c Hk.
    destruct (reset_lookup _ _ _ _ Hr _ _ Hk) as (d & Hd & [[_ ->]|(_ & g & _ & ->)]); [eauto|done].
  - apply (one_claim _ k c); try done; try lia; rewrite ?E1.
    + apply (reset_kept _ _ _ _ Hr); [done|]. destruct (member c) eqn:E; [|done].
      by destruct (Hno _ _ A2 E).
    + rewrite E5, A4. unfold claim_of. by rewrite E2, E3.
    + intros k' c' Hk' Hs.
      destruct (reset_lookup _ _ _ _ Hr _ _ Hk') as (d & Hd & [[_ ->]|(_ & g & _ & ->)]); [eauto|done].
Qed.

Lemma eviction_finish_inv m cs m' r :
  mapping_inv m -> is_remote_chunk_eviction_finish m cs = (m', r) -> mapping_inv m'.
Proof.
  intros Hm E. destruct (decide (r = 0)) as [->|Hne].
  2:{ eapply mapping_inv_frame, Hm. by eapply core_eviction_finish_refused. }
  destruct (eviction_finish_result _ _ _ Hm E) as (Ev & _ & Hgen & Hn & He & m1 & Hr & ->). clear E.
  set (claim := is_remote_chunk_eviction_claim_decode cs) in *.
  destruct (eviction_validate_ok _ _ Hm Ev) as (Hid & _ & Hcnt & _ & Ecnt & Hmem).
  assert (Hst : forall k c, chunks m !! k = Some c -> eviction_member (ec_claim_id claim) c = true ->
    ck_state c = EVICTING) by (intros k c Hk Hc%Z.eqb_eq; by apply (Hmem k c)).
  rewrite (rr_frame _ _ _ _ Hr). set (cs' := chunks m1). set (ng := next_mapping_generation m1).
  pose proof (rr_next _ _ _ _ Hr) as Hng. pose proof (v_ids _ Hm) as (Hi1 & Hi2 & Hi3 & Hi4).
  assert (Hsame : forall p, (forall c, ck_state c = EVICTING -> p c = true) ->
     (forall g c, p (reset_chunk g true c) = false) ->
     Z.of_nat (count p cs') = Z.of_nat (count p (chunks m)) - ec_chunk_count claim).
  { intros p Hp1 Hp2. rewrite (reset_count _ _ _ _ Hr p Hp2), <- Ecnt.
    rewrite (count_ext (fun c => eviction_member (ec_claim_id claim) c && p c) (eviction_member (ec_claim_id claim)));
      [subst cs'; lia|].
    intros c [k Hk]%list_elem_of_lookup. destruct (eviction_member _ c) eqn:Ec; [|done].
    by rewrite (Hp1 c (Hst _ _ Hk Ec)). }
  split; try apply Hm; cbn -[cs' ng size].
  - by apply (roster_inv_frame m), Hm.
  - rewrite <- (v_length _ Hm). f_equal. apply Hr.
  - subst ng. rewrite Hng, Ecnt. lia.
  - rewrite (v_assigned _ Hm), (Hsame chunk_assigned); [done| |done].
    intros c Hc. unfold chunk_assigned. by rewrite Hc.
  - rewrite (v_usable _ Hm). f_equal. rewrite (reset_count _ _ _ _ Hr chunk_mapped) by done.
    rewrite (count_zero (fun c => _ && chunk_mapped c)); [subst cs'; lia|].
    intros c [k Hk]%list_elem_of_lookup. destruct (eviction_member _ c) eqn:Ec; [|done].
    unfold chunk_mapped. by rewrite (Hst _ _ Hk Ec).
  - intros k c Hk. by eapply (reset_chunk_ok m m1); eauto; try done; cbn; lia.
  - eapply (reset_claim_kept m m1); eauto; try done; cbn; try lia.
    intros k c Hk Hc. by rewrite (Hst _ _ Hk Hc).
  - assert (Hin : ec_claim_id claim ∈ eviction_ids (chunks m)).
    { apply elem_of_eviction_ids. split; [done|].
      destruct (count_exists (eviction_member (ec_claim_id claim)) (chunks m)) as (k & c & Hk & Hc%Z.eqb_eq);
        [lia|eauto]. }
    rewrite (v_evictions _ Hm). subst cs'. rewrite (eviction_ids_reset m m1 _ _ {[ec_claim_id claim]} Hr).
    + apply singleton_subseteq_l in Hin. pose proof (subseteq_size _ _ Hin) as Hsz.
      rewrite size_difference by done. rewrite size_singleton in *. lia.
    + intros k c Hk Hc%Z.eqb_eq. right. by apply elem_of_singleton.
    + intros k c Hk Hc%elem_of_singleton. by apply Z.eqb_eq.
  - intros k1 k2 c1 c2. apply (reset_batches m m1 _ _ Hm Hr).
  - intros k1 k2 c1 c2. apply (reset_alias m m1 _ _ Hm Hr).
  - intros j p Hp. by apply (reset_capacity m m1 _ _ Hm Hr j).
Qed.

(** ** The facts of a provider failure *)

(** The evictions in progress at a provider. *)
Definition provider_evictions (h : is_remote_chunk_provider_handle) (cs : list is_remote_chunk) : gset Z :=
  eviction_ids (filter (fun c => chunk_of_provider h c = true) cs).

Arguments provider_evictions : simpl never.

Lemma eviction_ids_app l k : eviction_ids (l ++ k) = eviction_ids l ∪ eviction_ids k.
Proof. unfold eviction_ids. rewrite fmap_app, list.filter_app, list_to_set_app_L. done. Qed.

Lemma eviction_ids_one c :
  eviction_ids [c] = if decide (ck_eviction_claim_id c = 0) then ∅ else {[ck_eviction_claim_id c]}.
Proof.
  unfold eviction_ids. change (ck_eviction_claim_id <$> [c]) with [ck_eviction_claim_id c].
  rewrite filter_cons, filter_nil.
  destruct (decide (ck_eviction_claim_id c = 0)), (decide (ck_eviction_claim_id c <> 0)); try done.
  apply list_to_set_singleton_L.
Qed.

Lemma provider_evictions_take h cs j c :
  cs !! j = Some c ->
  provider_evictions h (take (S j) cs) =
  provider_evictions h (take j cs) ∪
  (if chunk_of_provider h c then eviction_ids [c] else ∅).
Proof.
  intros Hj. unfold provider_evictions. rewrite (take_S_r _ _ c Hj), list.filter_app, eviction_ids_app.
  f_equal. rewrite filter_cons, filter_nil. by destruct (chunk_of_provider h c).
Qed.

Lemma elem_of_provider_evictions h cs x :
  x ∈ provider_evictions h cs <->
  x <> 0 /\ exists k c, cs !! k = Some c /\ chunk_of_provider h c = true /\ ck_eviction_claim_id c = x.
Proof.
  unfold provider_evictions. rewrite elem_of_eviction_ids. split; intros (Hx & k & c & Hk & H).
  - apply list_elem_of_lookup_2, list_elem_of_filter in Hk as [Hp [i Hi]%list_elem_of_lookup]. eauto 6.
  - destruct H as [Hp <-]. split; [done|].
    assert (Hc : c ∈ filter (fun c => chunk_of_provider h c = true) cs)
      by (apply list_elem_of_filter; split; [done|by eapply list_elem_of_lookup_2]).
    apply list_elem_of_lookup in Hc as [i Hi]. eauto.
Qed.

Definition lease_total (p : is_remote_chunk -> bool) (cs : list is_remote_chunk) : Z :=
  foldr (fun c t => (if p c then ck_active_io_leases c else 0) + t) 0 cs.

Lemma lease_total_app p l k : lease_total p (l ++ k) = lease_total p l + lease_total p k.
Proof. unfold lease_total. induction l as [|c l IH]; cbn in *; [done|]. rewrite IH. lia. Qed.

(** The facts and claim counts, of the chunks up to a place. *)
Definition facts_of (h : is_remote_chunk_provider_handle) (cs : list is_remote_chunk) :
    is_remote_chunk_provider_failure_facts * Z * Z :=
  let n p := Z.of_nat (count (fun c => chunk_of_provider h c && p c) cs) in
  ({| ff_affected_chunks := Z.of_nat (count (chunk_of_provider h) cs);
      ff_assigned_chunks := n chunk_assigned;
      ff_usable_chunks := n chunk_mapped;
      ff_mapping_chunks := n chunk_mapping;
      ff_evicting_chunks := n (fun c => bool_decide (ck_state c = EVICTING));
      ff_active_io_leases := u32 (lease_total (chunk_of_provider h) cs) |},
   n chunk_mapping, Z.of_nat (size (provider_evictions h cs))).

Section facts.
Context (m : is_remote_chunk_module) (h : is_remote_chunk_provider_handle).
Hypothesis Hm : mapping_inv m.

(** Two chunks being mapped carry different claims: there is at most one. *)
Lemma mapping_first j c :
  0 <= j < chunk_count m -> chunks m !! Z.to_nat j = Some c -> ck_state c = MAPPING ->
  exists_below j (fun previous => ck_mapping_claim_id (chunk_at m previous) =? ck_mapping_claim_id c) = false.
Proof.
  intros Hj Hc Hs. apply exists_below_false. intros i Hi. apply Z.eqb_neq. intros E.
  pose proof (chunk_at_lookup m (v_length _ Hm) i ltac:(lia)) as Hi'.
  destruct (v_chunk _ Hm _ _ Hc) as [_ Hok]. rewrite Hs in Hok.
  destruct (v_chunk _ Hm _ _ Hi') as [_ Hok'].
  destruct (v_claim _ Hm) as [_ _ A|k d _ A1 A2 _ _ _ A3]; [by destruct (A _ _ Hc)|].
  destruct (ck_state (chunk_at m i)) eqn:Es; destruct_and? Hok; destruct_and? Hok'; try lia.
  pose proof (A3 _ _ Hc Hs). pose proof (A3 _ _ Hi' Es). lia.
Qed.

(** A previous chunk of the same eviction belongs to the same provider. *)
Lemma eviction_first j c :
  0 <= j < chunk_count m -> chunks m !! Z.to_nat j = Some c -> ck_state c = EVICTING -> ck_provider c = h ->
  exists_below j (fun previous => ck_eviction_claim_id (chunk_at m previous) =? ck_eviction_claim_id c) =
  bool_decide (ck_eviction_claim_id c ∈ provider_evictions h (take (Z.to_nat j) (chunks m))).
Proof.
  intros Hj Hc Hs Hh. destruct (v_chunk _ Hm _ _ Hc) as [_ Hok]. rewrite Hs in Hok.
  destruct Hok as (_ & _ & Hid & _). apply Bool.eq_iff_eq_true.
  rewrite bool_decide_eq_true, exists_below_true, elem_of_provider_evictions. split.
  - intros (i & Hi & E%Z.eqb_eq). split; [lia|].
    pose proof (chunk_at_lookup m (v_length _ Hm) i ltac:(lia)) as Hi'.
    exists (Z.to_nat i), (chunk_at m i). split; [rewrite lookup_take_lt by lia; done|]. split; [|done].
    destruct (v_batches _ Hm _ _ _ _ Hi' Hc E ltac:(lia)) as [Ep _].
    unfold chunk_of_provider. rewrite Ep, Hh, handle_equal_refl, andb_true_r.
    destruct (v_chunk _ Hm _ _ Hi') as [_ Hok']. destruct (ck_state (chunk_at m i)) eqn:Es;
      destruct_and? Hok'; done || lia.
  - intros (_ & k & d & Hk & _ & E). apply lookup_take_Some in Hk as [Hk Hlt].
    exists (Z.of_nat k). split; [lia|]. apply Z.eqb_eq. unfold chunk_at. by rewrite (nth_at _ _ _ _ Hk).
Qed.

(** The counters of the scan stay far below 2^32. *)
Ltac small_counts Hle :=
  repeat match goal with
  | |- context [u32 (Z.of_nat (count ?p (take ?j ?l)) + 1)] =>
      rewrite (u32_small (Z.of_nat (count p (take j l)) + 1)) by (pose proof (Hle p j); lia)
  end.

Lemma failure_facts_spec : failure_facts m h = facts_of h (chunks m).
Proof.
  unfold failure_facts. pose proof (v_length _ Hm) as Hlen. pose proof (v_count _ Hm) as Hcnt.
  transitivity (facts_of h (take (Z.to_nat (chunk_count m)) (chunks m))); [|by rewrite take_ge by lia].
  apply (for_loop_ind0 (fun j s => s = facts_of h (take (Z.to_nat j) (chunks m)))); [lia|done|].
  intros j s Hj ->. pose proof (chunk_at_lookup m Hlen j Hj) as Hjk. set (c := chunk_at m j) in *.
  replace (Z.to_nat (j + 1)) with (S (Z.to_nat j)) by lia. unfold facts_of.
  rewrite !(count_take_S _ _ _ _ Hjk), (provider_evictions_take _ _ _ _ Hjk).
  rewrite (take_S_r _ _ c Hjk), lease_total_app. cbn [lease_total foldr].
  destruct (chunk_of_provider h c) eqn:Ep; cbn [negb].
  2:{ cbn [andb b2n]. rewrite !Nat.add_0_r, !Z.add_0_r, union_empty_r_L. done. }
  pose proof (count_take_le m Hlen Hcnt) as Hle.
  assert (Hids : (size (provider_evictions h (take (Z.to_nat j) (chunks m))) <= 128)%nat).
  { etrans; [apply eviction_ids_size|]. etrans; [apply length_filter|]. rewrite length_take. lia. }
  cbn [ff_affected_chunks ff_active_io_leases ff_mapping_chunks ff_assigned_chunks ff_usable_chunks
       ff_evicting_chunks].
  unfold chunk_of_provider in Ep. apply andb_true_iff in Ep as [Hns Hh].
  rewrite handle_equal_eq, bool_decide_eq_true in Hh.
  assert (Hl : forall a b, u32 (u32 a + b) = u32 (a + (b + 0))).
  { intros a b. unfold wrap. rewrite Zplus_mod_idemp_l. f_equal. lia. }
  destruct (v_chunk _ Hm _ _ Hjk) as [_ Hok]. unfold chunk_assigned, chunk_mapped, chunk_mapping.
  destruct (ck_state c) eqn:Es; decide_constants; cbn [andb orb b2n negb]; [done| | |].
  - rewrite (mapping_first j c Hj Hjk Es). rewrite eviction_ids_one, decide_True by apply Hok.
    rewrite union_empty_r_L. cbn -[Z.add]. small_counts Hle. rewrite Hl.
    rewrite !Nat2Z.inj_add. rewrite ?Z.add_0_r. done.
  - rewrite eviction_ids_one, decide_True by apply Hok. rewrite union_empty_r_L. cbn -[Z.add].
    small_counts Hle. rewrite Hl. rewrite !Nat2Z.inj_add. rewrite ?Z.add_0_r. done.
  - rewrite (eviction_first j c Hj Hjk Es Hh). destruct Hok as (_ & _ & Hid & _).
    rewrite eviction_ids_one, decide_False by lia. cbn -[Z.add].
    small_counts Hle. rewrite Hl. rewrite !Nat2Z.inj_add. rewrite ?Z.add_0_r. f_equal.
    case_bool_decide as Hin.
    + f_equal. f_equal. clear - Hin. set_solver.
    + rewrite u32_small by lia. rewrite size_union by (clear - Hin; set_solver). rewrite size_singleton. lia.
Qed.
End facts.

(** ** Failing a provider *)

Lemma reset_result_swap m0 m m1 member ra :
  chunks m0 = chunks m -> chunk_count m0 = chunk_count m ->
  next_mapping_generation m0 = next_mapping_generation m -> valid_sectors m0 = valid_sectors m ->
  reset_result m0 m1 member ra ->
  reset_result m (m <| chunks := chunks m1 |> <| next_mapping_generation := next_mapping_generation m1 |>
                    <| valid_sectors := valid_sectors m1 |>) member ra.
Proof.
  intros E1 E2 E3 E4 [F1 F2 F3 F4 F5 F6]. rewrite E1, E3 in *. split; try done.
  - intros s. cbn -[sector_valid]. rewrite F5, E2, E4. unfold chunk_at. by rewrite E1.
  - intros Hb k Hk. cbn in *. assert (bitmap_ok m0) as Hb0.
    { intros k' Hk'. rewrite E4 in Hk'. rewrite E2. by apply Hb. }
    specialize (F6 Hb0 k Hk). rewrite F1 in F6. cbn in F6. by rewrite <- E2.
Qed.

(** The module after the failure of the provider at place [i]. *)
Definition failed_provider (p : is_remote_chunk_provider)
    (facts : is_remote_chunk_provider_failure_facts) : is_remote_chunk_provider :=
  p <| pr_failed := true |> <| pr_placement_eligible := false |>
    <| pr_exclusion := IS_REMOTE_CHUNK_PROVIDER_EXCLUDE_UNHEALTHY |> <| pr_failure_facts := facts |>.

Record failure_result (m m' : is_remote_chunk_module) (h : is_remote_chunk_provider_handle)
    (facts : is_remote_chunk_provider_failure_facts) : Prop := {
  fr_reset : exists m1, reset_result m m1 (chunk_of_provider h) false /\ chunks m' = chunks m1 /\
    next_mapping_generation m' = next_mapping_generation m1 /\ valid_sectors m' = valid_sectors m1;
  fr_facts : facts = (facts_of h (chunks m)).1.1;
  fr_provider : exists i p, providers m !! i = Some p /\ pr_handle p = h /\ pr_failed p = false /\
    providers m' = <[i := failed_provider p facts]> (providers m);
  fr_frame : chunk_count m' = chunk_count m /\ provider_count m' = provider_count m /\
    identity m' = identity m /\ placement_sample_size m' = placement_sample_size m /\
    next_mapping_claim_id m' = next_mapping_claim_id m /\
    next_eviction_claim_id m' = next_eviction_claim_id m /\
    next_transition_generation m' = next_transition_generation m + 1 /\
    placement_candidate_indices m' = placement_candidate_indices m /\
    placement_sample_indices m' = placement_sample_indices m /\ mode m' = mode m /\
    hot_policy m' = hot_policy m /\ active_io_leases m' = active_io_leases m /\
    next_io_lease_id m' = next_io_lease_id m /\
    active_eviction_waits m' = active_eviction_waits m /\ quiescing m' = quiescing m;
  fr_room : next_mapping_generation m + ff_affected_chunks facts <= ID_MAX /\
    next_transition_generation m < ID_MAX;
  fr_assigned : assigned_chunks m' = assigned_chunks m - ff_assigned_chunks facts;
  fr_usable : usable_chunks m' = usable_chunks m - ff_usable_chunks facts;
  fr_mapping : active_mapping_claims m' = active_mapping_claims m - ff_mapping_chunks facts;
  fr_claim : active_mapping_claim m' =
    if ff_mapping_chunks facts =? 0 then active_mapping_claim m else zero_mapping_claim;
  fr_evictions : active_eviction_claims m' =
    active_eviction_claims m - Z.of_nat (size (provider_evictions h (chunks m)))
}.

Lemma provider_failed_cases m h m' facts r :
  mapping_inv m -> is_remote_chunk_provider_failed m h = (m', facts, r) ->
  if decide (r = IS_REMOTE_CHUNK_PROVIDER_FAILURE_APPLIED) then failure_result m m' h facts else m' = m.
Proof.
  intros Hm. unfold is_remote_chunk_provider_failed.
  destruct (negb _); [by intros [= <- _ <-]|].
  destruct (is_remote_chunk_provider_roster_index_locked m h) as [e|i] eqn:Ei; [by intros [= <- _ <-]|].
  apply roster_index_spec in Ei as (Hi & p & Hp & Hh); [|apply Hm].
  assert (Epa : provider_at m i = p) by by apply nth_lookup_Some.
  rewrite Epa. destruct (pr_failed p) eqn:Ef; [by intros [= <- _ <-]|].
  rewrite failure_facts_spec by done. unfold facts_of. cbn -[Z.ltb Z.eqb].
  set (f := {| ff_affected_chunks := _ |}). cbn [ff_affected_chunks ff_assigned_chunks ff_usable_chunks].
  set (nm := Z.of_nat (count (fun c => chunk_of_provider h c && chunk_mapping c) (chunks m))).
  set (ne := Z.of_nat (size (provider_evictions h (chunks m)))).
  destruct (_ || _) eqn:Eg; [by intros [= <- _ <-]|].
  rewrite !orb_false_iff, !Z.ltb_ge, Z.eqb_neq in Eg.
  destruct Eg as ((((((G1 & G2) & G3) & G4) & G5) & G6) & G7).
  pose proof (v_ids _ Hm) as (Hi1 & Hi2 & Hi3 & Hi4).
  set (m0 := (if negb (nm =? 0) then _ else m) <| next_transition_generation := _ |>).
  assert (E0 : m0 = m <| last_mapping_terminal_claim := last_mapping_terminal_claim m0 |>
      <| last_mapping_terminal_action := last_mapping_terminal_action m0 |>
      <| active_mapping_claim := if nm =? 0 then active_mapping_claim m else zero_mapping_claim |>
      <| next_transition_generation := next_transition_generation m + 1 |>).
  { subst m0. destruct (nm =? 0); cbn; rewrite u64_small by lia; by destruct m. }
  assert (Hr0 : reset_result m0 (for_loop (Z.to_nat (chunk_count m0)) 0 (fun index m =>
            if chunk_of_provider h (chunk_at m index)
            then is_remote_chunk_reset_mapping_locked m index false else m) m0) (chunk_of_provider h) false).
  { apply reset_loop; try done; rewrite E0; try apply Hm; cbn; lia. }
  set (m1 := for_loop _ _ _ m0) in *. clearbody m1. cbv zeta. intros [= <- <- <-].
  pose proof (rr_frame _ _ _ _ Hr0) as F1. rewrite E0 in F1.
  pose proof (count_le_128 m (v_length _ Hm) (v_count _ Hm)) as H128.
  pose proof (eviction_ids_size (chunks m)). pose proof (v_length _ Hm). pose proof (v_count _ Hm).
  pose proof (v_assigned _ Hm). pose proof (v_usable _ Hm). pose proof (v_evictions _ Hm).
  assert (Hac : 0 <= active_mapping_claims m <= 1) by (destruct (v_claim _ Hm); lia).
  rewrite decide_True by done.
  assert (Hr : reset_result m (m <| chunks := chunks m1 |>
    <| next_mapping_generation := next_mapping_generation m1 |> <| valid_sectors := valid_sectors m1 |>)
    (chunk_of_provider h) false).
  { apply (reset_result_swap m0); [..|exact Hr0]; clearbody m0; by rewrite E0. }
  clear Hr0. set (cs1 := chunks m1) in *. set (ng := next_mapping_generation m1) in *.
  set (vs := valid_sectors m1) in *. clearbody cs1 ng vs. subst m1.
  assert (Hn : 0 <= nm <= 128) by (subst nm; pose proof (H128 (fun c => chunk_of_provider h c && chunk_mapping c)); lia).
  pose proof (H128 chunk_assigned). pose proof (H128 chunk_mapped).
  cbn. unfold provider_at in Epa. rewrite Epa, !u32_small by lia. split; cbn; try done; try lia.
  - eauto.
  - exists (Z.to_nat i), p. split_and!; done.
Qed.

Section failed.
Context (m m' : is_remote_chunk_module) (h : is_remote_chunk_provider_handle)
  (facts : is_remote_chunk_provider_failure_facts).
Hypothesis Hm : mapping_inv m.
Hypothesis Hf : failure_result m m' h facts.

Lemma failed_roster : roster_inv m'.
Proof.
  destruct (fr_provider _ _ _ _ Hf) as (i & p & Hp & Hh & _ & Ep).
  destruct (fr_frame _ _ _ _ Hf) as (_ & E1 & E2 & _). destruct (v_roster _ Hm) as [R1 R2 R3 R4 R5].
  split; rewrite ?Ep, ?E1, ?E2, ?length_insert; try done; intros j q Hq; lookup_insert Hq; eauto.
  - apply (R4 i p Hp).
  - destruct (R5 i p Hp). by split.
Qed.

(** The other providers stay live. *)
Lemma failed_live h' : h' <> h -> provider_live m h' -> provider_live m' h'.
Proof.
  destruct (fr_provider _ _ _ _ Hf) as (i & p & Hp & Hh & _ & Ep).
  intros Hne (j & q & Hq & Ehq & Efq). exists j, q. rewrite Ep. split; [|done].
  rewrite list_lookup_insert_ne; [done|]. intros <-. congruence.
Qed.

Lemma failed_chunk k c : chunks m' !! k = Some c -> chunk_ok m' c.
Proof.
  destruct (fr_reset _ _ _ _ Hf) as (m1 & Hr & Ec & En & _). rewrite Ec.
  destruct (fr_frame _ _ _ _ Hf) as (_ & _ & _ & _ & _ & E5 & E6 & _).
  intros Hk. destruct (reset_lookup _ _ _ _ Hr _ _ Hk) as (d & Hd & [[Hmem ->]|(_ & g & Hg & ->)]).
  - destruct (v_chunk _ Hm _ _ Hd) as [Hg Hok]. pose proof (rr_next _ _ _ _ Hr). split; [lia|].
    assert (Hl : ck_state d <> UNMAPPED -> provider_live m (ck_provider d) -> provider_live m' (ck_provider d)).
    { intros Hs. apply failed_live. intros E. unfold chunk_of_provider in Hmem.
      by rewrite E, handle_equal_refl, bool_decide_eq_false_2 in Hmem. }
    destruct (ck_state d) eqn:Es; [done| | |]; destruct_and? Hok; split_and?; auto; lia.
  - pose proof (v_ids _ Hm). split; [cbn; lia|done].
Qed.

Lemma failed_claim : claim_inv m'.
Proof.
  destruct (fr_reset _ _ _ _ Hf) as (m1 & Hr & Ec & En & _).
  destruct (fr_frame _ _ _ _ Hf) as (E1 & _ & E3 & _ & E4 & E5 & E6 & _).
  pose proof (fr_mapping _ _ _ _ Hf) as Em. pose proof (fr_claim _ _ _ _ Hf) as Ecl.
  rewrite (fr_facts _ _ _ _ Hf) in Em, Ecl. cbn [facts_of fst ff_mapping_chunks] in Em, Ecl.
  set (p := fun c => chunk_of_provider h c && chunk_mapping c) in *.
  destruct (decide (count p (chunks m) = 0%nat)) as [E0|Hne].
  - rewrite E0 in Em, Ecl. cbn in Em, Ecl.
    eapply (reset_claim_kept m m1); eauto; try lia. intros k c Hk Hc Hs.
    pose proof (count_lookup p _ _ _ Hk) as Hcl. unfold p in Hcl at 1.
    rewrite Hc in Hcl. unfold chunk_mapping in Hcl. rewrite bool_decide_eq_true_2 in Hcl by done. cbn in Hcl. lia.
  - destruct (count_exists p (chunks m)) as (k & c & Hk & Hc); [lia|].
    apply andb_true_iff in Hc as [Hp Hs]. apply bool_decide_eq_true_1 in Hs.
    destruct (v_claim _ Hm) as [_ _ A|k1 c1 A1 A2 A3 _ _ _ A7]; [by destruct (A _ _ Hk)|].
    assert (Hone : count p (chunks m) = 1%nat).
    { apply (count_unique _ _ k c Hk).
      - unfold p, chunk_mapping. by rewrite Hp, Hs.
      - intros j d Hj [_ Hd%bool_decide_eq_true_1]%andb_true_iff.
        by rewrite (A7 _ _ Hj Hd), (A7 _ _ Hk Hs). }
    rewrite Hone in Em, Ecl. cbn in Em, Ecl. apply no_claim; [lia|done|].
    rewrite Ec. intros k2 c2 H2 Hs2.
    destruct (reset_lookup _ _ _ _ Hr _ _ H2) as (d & Hd & [[Hmem ->]|(_ & g & Hg & ->)]); [|done].
    pose proof (A7 _ _ Hd Hs2). pose proof (A7 _ _ Hk Hs). subst. simplify_eq. congruence.
Qed.

Lemma failed_inv : mapping_inv m'.
Proof.
  destruct (fr_reset _ _ _ _ Hf) as (m1 & Hr & Ec & En & _).
  destruct (fr_frame _ _ _ _ Hf) as (E1 & E2 & E3 & E4 & E5 & E6 & E7 & _).
  destruct (fr_room _ _ _ _ Hf) as [Hg Ht]. pose proof (fr_facts _ _ _ _ Hf) as Efacts.
  pose proof (v_ids _ Hm) as (Hi1 & Hi2 & Hi3 & Hi4).
  split; try (rewrite ?E1, ?E4; apply Hm); rewrite ?Ec.
  - exact failed_roster.
  - rewrite E1, <- (v_length _ Hm). f_equal. apply Hr.
  - rewrite E5, E6, E7, En, (rr_next _ _ _ _ Hr). rewrite Efacts in Hg. cbn in Hg. lia.
  - rewrite (fr_assigned _ _ _ _ Hf), Efacts, (v_assigned _ Hm). cbn.
    rewrite (reset_count _ _ _ _ Hr chunk_assigned) by done. lia.
  - rewrite (fr_usable _ _ _ _ Hf), Efacts, (v_usable _ Hm). cbn.
    rewrite (reset_count _ _ _ _ Hr chunk_mapped) by done. lia.
  - intros k c Hk. apply (failed_chunk k). by rewrite Ec.
  - exact failed_claim.
  - rewrite (fr_evictions _ _ _ _ Hf), (v_evictions _ Hm).
    assert (Hsub : provider_evictions h (chunks m) ⊆ eviction_ids (chunks m)).
    { intros x (Hx & k & c & Hk & _ & <-)%elem_of_provider_evictions. apply elem_of_eviction_ids. eauto. }
    rewrite (eviction_ids_reset m m1 _ _ (provider_evictions h (chunks m)) Hr).
    + pose proof (subseteq_size _ _ Hsub). rewrite size_difference by done. lia.
    + intros k c Hk Hc. destruct (decide (ck_eviction_claim_id c = 0)); [by left|right].
      apply elem_of_provider_evictions. eauto 6.
    + intros k c Hk (Hx & k1 & c1 & H1 & Hp1 & E)%elem_of_provider_evictions.
      destruct (v_batches _ Hm _ _ _ _ H1 Hk E ltac:(congruence)) as [Ep _].
      unfold chunk_of_provider in *. rewrite <- Ep. apply andb_true_iff in Hp1 as [_ ->].
      destruct (v_chunk _ Hm _ _ Hk) as [_ Hok]. destruct (ck_state c) eqn:Es; try done.
      destruct Hok as (_ & _ & Hz). congruence.
  - intros k1 k2 c1 c2. apply (reset_batches m m1 _ _ Hm Hr).
  - intros k1 k2 c1 c2. apply (reset_alias m m1 _ _ Hm Hr).
  - destruct (fr_provider _ _ _ _ Hf) as (i & p & Hp & Hh & _ & Ep). rewrite Ep.
    intros j q Hq. lookup_insert Hq; [|by apply (reset_capacity m m1 _ _ Hm Hr j)].
    exact (reset_capacity m m1 _ _ Hm Hr i p Hp).
Qed.
End failed.

Lemma provider_failed_inv m h m' facts r :
  mapping_inv m -> is_remote_chunk_provider_failed m h = (m', facts, r) -> mapping_inv m'.
Proof.
  intros Hm E. pose proof (provider_failed_cases _ _ _ _ _ Hm E) as H.
  destruct (decide _); [by apply (failed_inv m m' h facts)|by subst].
Qed.

(** * Remote chunks: what an operation leaves to the lease holders

    [stable m m'] is what every operation other than those on leases
    guarantees to the holder of a lease: the leases stay counted, a chunk
    keeps its generation and then its region, or gets a new generation, and
    no sector becomes valid. *)

From S2P Require Import RemoteChunkPlacement.

Definition activity_ok (c : is_remote_chunk) : Prop :=
  0 <= ck_activity c <= IS_REMOTE_CHUNK_ACTIVITY_MAX.

Definition same_region (c c' : is_remote_chunk) : Prop :=
  ck_provider c' = ck_provider c /\ ck_provider_chunk c' = ck_provider_chunk c /\
  ck_remote_address c' = ck_remote_address c /\ ck_remote_key c' = ck_remote_key c.

(** The same mapping, or a new one. *)
Definition chunk_step (next : Z) (c c' : is_remote_chunk) : Prop :=
  (ck_mapping_generation c' = ck_mapping_generation c /\
   (chunk_assigned c = true -> chunk_assigned c' = true /\ same_region c c')) \/
  next < ck_mapping_generation c'.

Record stable (m m' : is_remote_chunk_module) : Prop := {
  st_chunk : forall k c', chunks m' !! k = Some c' -> exists c, chunks m !! k = Some c /\
    ck_active_io_leases c' = ck_active_io_leases c /\ (activity_ok c -> activity_ok c') /\
    chunk_step (next_mapping_generation m) c c';
  st_length : length (chunks m') = length (chunks m);
  st_next : next_mapping_generation m <= next_mapping_generation m';
  st_valid : forall s, sector_valid (valid_sectors m') s = true ->
    sector_valid (valid_sectors m) s = true /\
    (forall c c', chunks m !! Z.to_nat (s / SPC) = Some c -> chunks m' !! Z.to_nat (s / SPC) = Some c' ->
       0 <= s -> ck_mapping_generation c' = ck_mapping_generation c);
  st_fields : identity m' = identity m /\ chunk_count m' = chunk_count m /\
    active_io_leases m' = active_io_leases m /\ next_io_lease_id m' = next_io_lease_id m;
  st_bitmap : bitmap_ok m -> bitmap_ok m';
  st_arrays : arrays_ok m -> arrays_ok m'
}.

Lemma chunk_step_same next c c' :
  ck_mapping_generation c' = ck_mapping_generation c -> ck_state c' = ck_state c -> same_region c c' ->
  chunk_step next c c'.
Proof. intros E1 E2 H. left. split; [done|]. unfold chunk_assigned. rewrite E2. auto. Qed.

Lemma same_region_refl c : same_region c c.
Proof. done. Qed.

Lemma chunk_step_refl next c : chunk_step next c c.
Proof. by apply chunk_step_same. Qed.

(** An operation that changes no chunk and no sector. *)
Lemma stable_frame m m' :
  chunks m' = chunks m -> valid_sectors m' = valid_sectors m ->
  next_mapping_generation m' = next_mapping_generation m ->
  identity m' = identity m -> chunk_count m' = chunk_count m ->
  active_io_leases m' = active_io_leases m -> next_io_lease_id m' = next_io_lease_id m ->
  (arrays_ok m -> arrays_ok m') -> stable m m'.
Proof.
  intros E1 E2 E3 E4 E5 E6 E7 Ha. split; try done; rewrite ?E1, ?E2, ?E3; try lia.
  - intros k c Hk. exists c. split_and!; auto. by left.
  - intros s Hs. split; [done|]. intros c c' H1 H2. congruence.
  - unfold bitmap_ok. by rewrite E2, E5.
Qed.

(** Replacing one chunk without touching validity. *)
Lemma stable_insert m m' k c c' :
  chunks m !! k = Some c -> chunks m' = <[k := c']> (chunks m) -> valid_sectors m' = valid_sectors m ->
  next_mapping_generation m' = next_mapping_generation m ->
  identity m' = identity m -> chunk_count m' = chunk_count m ->
  active_io_leases m' = active_io_leases m -> next_io_lease_id m' = next_io_lease_id m ->
  (arrays_ok m -> arrays_ok m') ->
  ck_active_io_leases c' = ck_active_io_leases c -> (activity_ok c -> activity_ok c') ->
  ck_mapping_generation c' = ck_mapping_generation c ->
  (chunk_assigned c = true -> chunk_assigned c' = true /\ same_region c c') -> stable m m'.
Proof.
  intros Hk E1 E2 E3 E4 E5 E6 E7 Ha Hl Hac Hg Hreg. split; try done; rewrite ?E1, ?E2, ?E3; try lia.
  - intros j d Hj. lookup_insert Hj.
    + exists c. split_and!; auto. by left.
    + exists d. split_and!; auto. by left.
  - by rewrite length_insert.
  - intros s Hs. split; [done|]. intros d d' H1 H2 _.
    apply list_lookup_insert_Some in H2 as [(E & <- & _)|[_ H2]]; congruence.
  - unfold bitmap_ok. by rewrite E2, E5.
Qed.

Lemma stable_refl m : stable m m.
Proof. by apply stable_frame. Qed.

Lemma stable_trans m1 m2 m3 :
  stable m1 m2 -> stable m2 m3 -> next_mapping_generation m2 = next_mapping_generation m1 -> stable m1 m3.
Proof.
  intros [A1 A2 A3 A4 A5 A6 A7] [B1 B2 B3 B4 B5 B6 B7] E. split; auto; try lia.
  - intros k c3 H3. destruct (B1 k c3 H3) as (c2 & H2 & L2 & T2 & S2).
    destruct (A1 k c2 H2) as (c1 & H1 & L1 & T1 & S1). exists c1. split_and!; auto; [congruence|].
    unfold chunk_step, same_region in *. rewrite E in S2. destruct S2 as [[G2 R2]|]; [|by right].
    destruct S1 as [[G1 R1]|]; [left|right; lia]. split; [congruence|]. intros Ha.
    destruct (R1 Ha) as [Ha2 Q1]. destruct (R2 Ha2) as [Ha3 Q2]. split; [done|].
    destruct Q1 as (?&?&?&?), Q2 as (?&?&?&?). split_and!; congruence.
  - intros s Hs. destruct (B4 s Hs) as [V2 G2]. destruct (A4 s V2) as [V1 G1]. split; [done|].
    intros c1 c3 H1 H3 Hpos. destruct (B1 _ _ H3) as (c2 & H2 & _). rewrite (G2 _ _ H2 H3 Hpos). eauto.
Qed.

(** ** The operations *)

Ltac frame := by apply stable_frame.

Lemma stable_note_invariant m e : stable m (is_remote_chunk_note_invariant_locked m e).
Proof. unfold is_remote_chunk_note_invariant_locked. case_match; frame. Qed.

Lemma stable_observe m h ob : stable m (is_remote_chunk_provider_observe m h ob).1.
Proof. unfold is_remote_chunk_provider_observe. repeat case_match; frame. Qed.

Lemma stable_hot_policy_set m p : stable m (is_remote_chunk_hot_policy_set m p).1.1.
Proof. unfold is_remote_chunk_hot_policy_set. repeat case_match; frame. Qed.

Lemma stable_quiesce m : stable m (is_remote_chunk_module_quiesce m).1.
Proof.
  unfold is_remote_chunk_module_quiesce. case_match; [apply stable_note_invariant|frame].
Qed.

Lemma stable_destroy m m' r : is_remote_chunk_module_destroy m = (Some m', r) -> stable m m'.
Proof.
  unfold is_remote_chunk_module_destroy. cbv zeta. case_match; [|done]. intros [= <- _].
  eapply stable_trans; [|apply stable_note_invariant|done]. frame.
Qed.

Lemma stable_scratch m m' : scratch m m' -> arrays_ok m' -> stable m m'.
Proof. intros (a & b & r & ->) Ha. by apply stable_frame. Qed.

Lemma note_chunk_activity_ok w c :
  0 < w <= IS_REMOTE_CHUNK_HOT_WEIGHT_MAX -> activity_ok c -> activity_ok (note_chunk_activity w c).
Proof.
  unfold activity_ok, note_chunk_activity, IS_REMOTE_CHUNK_HOT_WEIGHT_MAX, IS_REMOTE_CHUNK_ACTIVITY_MAX.
  intros Hw Hc. destruct (Z.ltb_spec (9223372036854775807 - w) (ck_activity c)); cbn; [lia|].
  rewrite u64_small by (unfold ID_MAX; lia). lia.
Qed.

Definition policy_ok (p : is_remote_chunk_hot_policy) : Prop :=
  0 < threshold p <= IS_REMOTE_CHUNK_ACTIVITY_MAX /\
  0 < read_weight p <= IS_REMOTE_CHUNK_HOT_WEIGHT_MAX /\
  0 < write_weight p <= IS_REMOTE_CHUNK_HOT_WEIGHT_MAX.

Lemma stable_note_activity m start n kind :
  policy_ok (hot_policy m) -> stable m (is_remote_chunk_note_activity m start n kind).1.1.
Proof.
  intros (_ & Hr & Hw). unfold is_remote_chunk_note_activity.
  repeat (case_match; [apply stable_refl|]).
  set (w := if kind =? _ then _ else _).
  assert (Hwt : 0 < w <= IS_REMOTE_CHUNK_HOT_WEIGHT_MAX) by (subst w; by case_match).
  clearbody w. destruct (for_loop _ _ _ _) as [m' needed] eqn:E. cbn [fst].
  assert (HP : stable m (m', needed).1 /\ next_mapping_generation (m', needed).1 = next_mapping_generation m).
  { rewrite <- E. clear E m' needed. refine (for_loop_ind (fun _ s => stable m s.1 /\
      next_mapping_generation s.1 = next_mapping_generation m) _ _ _ _ _ _).
    - split; [apply stable_refl|done].
    - intros j [m1 b] _ [IH En]. cbn [fst] in *. split; [|done].
      eapply stable_trans; [exact IH| |done].
      destruct (decide (Z.to_nat j < length (chunks m1))%nat) as [Hlt|Hge].
      + destruct (lookup_lt_is_Some_2 _ _ Hlt) as [c Hc].
        assert (Ec : chunk_at m1 j = c) by by apply nth_lookup_Some. rewrite Ec.
        eapply (stable_insert m1 _ _ c); try done; unfold note_chunk_activity; try (by case_match).
        by apply note_chunk_activity_ok.
      + apply stable_frame; try done. cbn. unfold set_at. rewrite list_insert_ge; [done|lia]. }
  apply HP.
Qed.

Lemma stable_next_mapping env m m' r :
  mapping_inv m -> arrays_ok m -> is_remote_chunk_next_mapping env m = (m', r) -> stable m m'.
Proof.
  intros Hm Ha E. pose proof (next_mapping_cases _ _ _ _ Hm Ha E) as Hr. destruct r as [x|req].
  - destruct Hr. by apply stable_scratch.
  - destruct Hr as (m1 & i & Hs & Ha1 & _ & _ & _ & Hk & _ & Ecr).
    apply find_below_Some in Hk as (Hk & _).
    assert (Hm1 : mapping_inv m1) by (by apply (mapping_inv_frame m), Hm; apply scratch_core).
    destruct (create_result _ _ _ _ _ Hm1 (proj1 Hk) Ecr) as (c & Hc & Es & _ & _ & _ & _ & _ & _ & ->).
    eapply stable_trans; [by apply (stable_scratch m m1)| |by destruct Hs as (? & ? & ? & ->)].
    eapply (stable_insert m1 _ _ c); try done. unfold chunk_assigned. by rewrite Es.
Qed.

(** Sectors of a chunk that was given a new generation are invalid. *)
Lemma stable_invalidated m k c s :
  chunks m !! k = Some c -> (k < 128)%nat -> 0 <= s ->
  sector_valid (invalidate_chunk (valid_sectors m) (Z.of_nat k)) s = true ->
  sector_valid (valid_sectors m) s = true /\ Z.to_nat (s / SPC) <> k.
Proof.
  intros Hk Hlt Hs. rewrite invalidate_chunk_spec by lia.
  destruct (Z.eqb_spec (s / SPC) (Z.of_nat k)); [done|]. cbn. intros Hv. split; [done|].
  assert (0 <= s / SPC) by (apply Z.div_pos; [done|unfold SPC; lia]). lia.
Qed.

Lemma stable_finish m cs action h gs n m' r :
  mapping_inv m -> grants_typed gs ->
  is_remote_chunk_mapping_finish m cs action h gs n = (m', r) -> stable m m'.
Proof.
  intros Hm Hty E. pose proof (v_length _ Hm). pose proof (v_count _ Hm).
  destruct (finish_cases _ _ _ _ _ _ _ _ Hm Hty E) as
    [k c g Hk Es _ _ _ _ _ Hgen|k c Hk Es _ _|]; [| |apply stable_refl].
  - apply lookup_lt_Some in Hk as Hlt. split; cbn -[sector_valid invalidate_chunk]; try done; try lia.
    + intros j d Hj. lookup_insert Hj.
      * exists c. split_and!; auto. right. cbn. lia.
      * exists d. split_and!; auto. apply chunk_step_refl.
    + by rewrite length_insert.
    + intros s Hs. destruct (Z.leb_spec 0 s) as [Hpos|Hneg].
      * destruct (stable_invalidated m k c s Hk ltac:(lia) Hpos Hs) as [Hv Hne]. split; [done|].
        intros d d' H1 H2 _. rewrite list_lookup_insert_ne in H2 by done. congruence.
      * rewrite invalidate_chunk_spec in Hs by lia. apply andb_true_iff in Hs as [_ Hs].
        split; [done|]. lia.
    + intros Hb j Hj. apply invalidate_chunk_dom in Hj as [Hj|Hj]; [by apply Hb| |lia]. cbn. lia.
  - eapply (stable_insert m _ k c); try done. unfold chunk_assigned. by rewrite Es.
Qed.

Lemma stable_eviction_begin m h pcs n co m' r :
  mapping_inv m -> 0 <= n ->
  is_remote_chunk_eviction_begin m h pcs n co = (m', r) -> stable m m'.
Proof.
  intros Hm Hn E. destruct r as [e|claim].
  { assert (m' = m) as ->; [|apply stable_refl]. revert E. unfold is_remote_chunk_eviction_begin.
    destruct pcs; [|by intros [= <- _]]. repeat case_match; by intros [= <- _]. }
  destruct (eviction_begin_result _ _ _ _ _ _ _ Hm Hn E) as (sel & Hsel & _ & _ & _ & _ & _ & _ & ->).
  assert (Hl : forall k c', batch sel (evicting (next_eviction_claim_id m + 1) (next_transition_generation m + 1))
    (chunks m) !! k = Some c' -> exists c, chunks m !! k = Some c /\
    ck_active_io_leases c' = ck_active_io_leases c /\ ck_activity c' = ck_activity c /\
    ck_mapping_generation c' = ck_mapping_generation c /\
    (chunk_assigned c = true -> chunk_assigned c' = true /\ same_region c c')).
  { intros k c' [(c & Hk & Hst & _ & ->)|Hk]%(begin_lookup m h sel n Hsel);
      [exists c|exists c']; by repeat split. }
  split; cbn -[sector_valid]; try done; try lia.
  - intros k c' Hk. destruct (Hl k c' Hk) as (c & Hc & E1 & E2 & E3 & E4).
    exists c. split_and!; auto; [|by left]. unfold activity_ok. by rewrite E2.
  - by rewrite length_batch.
  - intros s Hs. split; [done|]. intros c c' H1 H2 _. destruct (Hl _ _ H2) as (d & Hd & _ & _ & Eg & _).
    congruence.
Qed.

(** An operation that resets the chunks of a test. *)
Lemma stable_reset m m1 m' member ra :
  mapping_inv m -> reset_result m m1 member ra -> chunks m' = chunks m1 ->
  valid_sectors m' = valid_sectors m1 -> next_mapping_generation m' = next_mapping_generation m1 ->
  identity m' = identity m -> chunk_count m' = chunk_count m ->
  active_io_leases m' = active_io_leases m -> next_io_lease_id m' = next_io_lease_id m ->
  (arrays_ok m -> arrays_ok m') -> stable m m'.
Proof.
  intros Hm Hr E1 E2 E3 E4 E5 E6 E7 Ha. pose proof (rr_next _ _ _ _ Hr) as Hnx.
  pose proof (v_length _ Hm) as Hlen. pose proof (v_count _ Hm) as Hcnt.
  split; try done; rewrite ?E1, ?E2, ?E3; try lia.
  - intros k c' Hk. destruct (reset_lookup _ _ _ _ Hr _ _ Hk) as (c & Hc & [[_ ->]|(_ & g & Hg & ->)]).
    + exists c. split_and!; auto. apply chunk_step_refl.
    + exists c. split_and!; auto; [|right; cbn; lia]. unfold activity_ok. cbn.
      destruct ra; [|done]. unfold IS_REMOTE_CHUNK_ACTIVITY_MAX. lia.
  - apply Hr.
  - intros s Hs. rewrite (rr_valid _ _ _ _ Hr) in Hs. apply andb_true_iff in Hs as [Hs Hv]. split; [done|].
    intros c c' H1 H2 Hpos.
    destruct (reset_lookup _ _ _ _ Hr _ _ H2) as (d & Hd & [[_ ->]|(Hmem & g & Hg & ->)]); [congruence|].
    exfalso. apply lookup_lt_Some in Hd as Hlt.
    assert (chunk_at m (s / SPC) = d) as Ed by by apply nth_lookup_Some.
    rewrite Ed, Hmem, andb_true_r in Hs. unfold in_sectors in Hs.
    assert (s < chunk_count m * SPC).
    { unfold SPC in *. Z.div_mod_to_equations. lia. }
    destruct (Z.leb_spec 0 s); [|lia]. destruct (Z.ltb_spec s (0 + chunk_count m * SPC)); [done|lia].
  - intros Hb. pose proof (rr_bitmap _ _ _ _ Hr Hb) as Hb1. intros k Hk. rewrite E2 in Hk.
    specialize (Hb1 k Hk). rewrite (rr_frame _ _ _ _ Hr) in Hb1. by rewrite E5.
Qed.

Lemma stable_eviction_finish m cs m' r :
  mapping_inv m -> is_remote_chunk_eviction_finish m cs = (m', r) -> stable m m'.
Proof.
  intros Hm E. destruct (decide (r = 0)) as [->|Hne].
  - destruct (eviction_finish_result _ _ _ Hm E) as (_ & _ & _ & _ & _ & m1 & Hr & ->).
    pose proof (rr_frame _ _ _ _ Hr) as F.
    eapply (stable_reset m m1); eauto; cbn; unfold arrays_ok; cbn; by rewrite F.
  - revert E Hne. unfold is_remote_chunk_eviction_finish. cbv zeta.
    repeat (match goal with |- context [if ?b then _ else _] => destruct b end);
      intros [= <- <-] Hne; try apply stable_refl; try done; apply stable_note_invariant.
Qed.

Lemma stable_provider_failed m h m' facts r :
  mapping_inv m -> is_remote_chunk_provider_failed m h = (m', facts, r) -> stable m m'.
Proof.
  intros Hm E. pose proof (provider_failed_cases _ _ _ _ _ Hm E) as H.
  destruct (decide _); [|subst; apply stable_refl].
  destruct (fr_reset _ _ _ _ H) as (m1 & Hr & E1 & E2 & E3).
  destruct (fr_frame _ _ _ _ H) as (F1 & F2 & F3 & _ & _ & _ & _ & F7 & F8 & _ & _ & F10 & F11 & _).
  eapply (stable_reset m m1); eauto. unfold arrays_ok. by rewrite F2, F7, F8.
Qed.
