(* ===== verification/RemoteChunkLease.v ===== *)
(** * Remote chunks: I/O leases

    What acquiring, resolving and releasing a lease do, for storage that holds
    what the module wrote there or nothing. *)
From S2P Require Import Prelude RemoteChunkData RemoteChunk RemoteChunkValidity RemoteChunkInv.
From S2P Require Import RemoteChunkInv RemoteChunkFinish RemoteChunkFail.

Definition request_typed (rq : is_remote_chunk_io_request) : Prop :=
  is_u64 (rq_sector rq) /\ is_u32 (rq_bytes rq).

(** Lease storage as the module leaves it at address [a]. *)
Record lease_ok (m : is_remote_chunk_module) (a : Z) (l : is_remote_chunk_io_lease_internal) : Prop := {
  lo_magic : ls_magic l = IS_REMOTE_CHUNK_LEASE_MAGIC;
  lo_identity : ls_module_identity l = identity m;
  lo_storage : ls_storage_identity l = a;
  lo_id : 0 < ls_lease_id l <= next_io_lease_id m;
  lo_generation : 0 < ls_mapping_generation l <= next_mapping_generation m;
  lo_sector : 0 <= ls_sector l;
  lo_count : 0 < ls_sector_count l;
  lo_chunk : ls_sector l / SPC = ls_logical_chunk l;
  lo_range : ls_sector l mod SPC + ls_sector_count l <= SPC;
  lo_logical : 0 <= ls_logical_chunk l < chunk_count m;
  lo_direction : ls_direction l = IS_REMOTE_CHUNK_IO_READ \/ ls_direction l = IS_REMOTE_CHUNK_IO_WRITE;
  lo_state : ls_state l = 0 \/ ls_state l = 1 \/ ls_state l = 3
}.

Definition resolved (l : is_remote_chunk_io_lease_internal) : bool :=
  negb (Z.land (ls_state l) IS_REMOTE_CHUNK_LEASE_RESOLVED =? 0).
Definition released (l : is_remote_chunk_io_lease_internal) : bool :=
  negb (Z.land (ls_state l) IS_REMOTE_CHUNK_LEASE_RELEASED =? 0).

Lemma lease_validate_ok m a l :
  lease_ok m a l -> is_remote_chunk_lease_validate_locked m a l = 0.
Proof.
  intros [H1 H2 H3 H4 H5 H6 H7 H8 H9 H10 H11 H12]. unfold is_remote_chunk_lease_validate_locked.
  rewrite H1, H2, H3, H8, !Z.eqb_refl. cbn [negb orb].
  destruct (Z.eqb_spec (ls_lease_id l) 0); [lia|]. destruct (Z.eqb_spec (ls_mapping_generation l) 0); [lia|].
  destruct (Z.eqb_spec (ls_sector_count l) 0); [lia|]. cbn [orb].
  destruct (Z.ltb_spec (next_io_lease_id m) (ls_lease_id l)); [lia|].
  destruct (Z.ltb_spec (next_mapping_generation m) (ls_mapping_generation l)); [lia|].
  destruct (Z.leb_spec (chunk_count m) (ls_logical_chunk l)); [lia|].
  destruct (Z.ltb_spec (SPC - ls_sector l mod SPC) (ls_sector_count l)); [lia|]. cbn [orb].
  by destruct H11 as [-> | ->], H12 as [-> | [-> | ->]].
Qed.

(** Storage whose contents were copied from elsewhere is refused. *)
Lemma lease_copied_refused m a b l :
  lease_ok m a l -> b <> a -> is_remote_chunk_lease_validate_locked m b l = - EINVAL.
Proof.
  intros [H1 _ H3 H4 H5 _ H7 _ _ _ _ _] Hne. unfold is_remote_chunk_lease_validate_locked.
  rewrite H1, H3, Z.eqb_refl. cbn [negb orb].
  destruct (Z.eqb_spec a b); [lia|]. by rewrite !orb_true_r.
Qed.

(** The sectors of a lease or a request lie in one chunk. *)
Lemma lease_range_bounds m a l s :
  mapping_inv m -> lease_ok m a l -> in_sectors (ls_sector l) (ls_sector_count l) s = true ->
  0 <= s /\ s / SPC = ls_logical_chunk l.
Proof.
  intros Hm [_ _ _ _ _ H6 H7 H8 H9 H10 _ _] Hs. unfold in_sectors in Hs.
  apply andb_true_iff in Hs as [Hs1%Z.leb_le Hs2%Z.ltb_lt]. split; [lia|].
  unfold SPC in *. Z.div_mod_to_equations. lia.
Qed.

Lemma lease_range_small m a l :
  mapping_inv m -> lease_ok m a l -> ls_sector l + ls_sector_count l <= 2 ^ 40.
Proof.
  intros Hm [_ _ _ _ _ H6 H7 H8 H9 H10 _ _]. pose proof (v_count _ Hm). unfold SPC in *.
  pow2_norm. Z.div_mod_to_equations. lia.
Qed.

(** ** Acquiring *)

(** The lease and the mapping handed out for a request on chunk [c] at [k]. *)
Definition granted_lease (m : is_remote_chunk_module) (rq : is_remote_chunk_io_request) (a : Z)
    (k : nat) (c : is_remote_chunk) : is_remote_chunk_io_lease_internal :=
  {| ls_magic := IS_REMOTE_CHUNK_LEASE_MAGIC; ls_module_identity := identity m;
     ls_storage_identity := a; ls_lease_id := next_io_lease_id m + 1;
     ls_mapping_generation := ck_mapping_generation c; ls_sector := rq_sector rq;
     ls_sector_count := rq_bytes rq / 512; ls_logical_chunk := Z.of_nat k;
     ls_direction := rq_direction rq; ls_state := 0 |}.

Definition region_mapping (c : is_remote_chunk) (k : nat) (sector : Z) : is_remote_chunk_transport_mapping :=
  {| tm_provider := ck_provider c;
     tm_remote_address := ck_remote_address c + sector mod SPC * IS_REMOTE_CHUNK_SECTOR_BYTES;
     tm_remote_key := ck_remote_key c; tm_provider_chunk := ck_provider_chunk c;
     tm_logical_chunk := Z.of_nat k |}.

Definition leased (c : is_remote_chunk) : is_remote_chunk :=
  c <| ck_active_io_leases := ck_active_io_leases c + 1 |>.

(** When a request is granted. *)
Record acquirable (m : is_remote_chunk_module) (rq : is_remote_chunk_io_request)
    (st : is_remote_chunk_io_lease_internal) (k : nat) (c : is_remote_chunk) : Prop := {
  aq_direction : rq_direction rq = IS_REMOTE_CHUNK_IO_READ \/ rq_direction rq = IS_REMOTE_CHUNK_IO_WRITE;
  aq_bytes : 0 < rq_bytes rq /\ rq_bytes rq mod 512 = 0;
  aq_chunk : rq_sector rq / SPC = Z.of_nat k;
  aq_range : rq_sector rq mod SPC + rq_bytes rq / 512 <= SPC;
  aq_open : quiescing m = false;
  aq_storage : ls_magic st = 0;
  aq_lookup : chunks m !! k = Some c;
  aq_mapped : ck_state c = MAPPED;
  aq_valid : rq_direction rq = IS_REMOTE_CHUNK_IO_READ ->
    forall s, in_sectors (rq_sector rq) (rq_bytes rq / 512) s = true ->
      sector_valid (valid_sectors m) s = true;
  aq_ids : next_io_lease_id m <> ID_MAX /\ active_io_leases m <> IS_REMOTE_CHUNK_U32_MAX /\
    ck_active_io_leases c <> IS_REMOTE_CHUNK_U32_MAX
}.

Definition acquire_sectors (m : is_remote_chunk_module) (rq : is_remote_chunk_io_request) : gmap Z Z :=
  if rq_direction rq =? IS_REMOTE_CHUNK_IO_WRITE
  then is_remote_chunk_validity_update (valid_sectors m) (rq_sector rq) (rq_bytes rq / 512) false
  else valid_sectors m.

(** The arithmetic of the request: with the sector range inside one chunk of
    the module, the truncations of the code lose nothing. *)
Lemma request_chunk m rq :
  mapping_inv m -> request_typed rq -> 0 < rq_bytes rq -> rq_bytes rq mod 512 = 0 ->
  let n := rq_bytes rq / 512 in
  rq_sector rq <= ID_MAX - u32 (n - 1) ->
  u32 (rq_sector rq / SPC) < chunk_count m ->
  u64 (u64 (rq_sector rq + n) - 1) / SPC = u32 (rq_sector rq / SPC) ->
  u32 (rq_sector rq / SPC) = rq_sector rq / SPC /\ 0 < n /\ rq_sector rq mod SPC + n <= SPC.
Proof.
  intros Hm [Hs Hb] Hpos Hmod n. unfold in_u in Hs, Hb. pose proof (v_count _ Hm) as Hc.
  change (2 ^ 32) with 4294967296 in Hb. change (2 ^ 64) with 18446744073709551616 in Hs.
  assert (Hn : 0 < n < 8388608) by (subst n; Z.div_mod_to_equations; lia).
  rewrite (u32_small (n - 1)) by lia. unfold ID_MAX, SPC. intros H1 H2 H3.
  assert (E : u64 (u64 (rq_sector rq + n) - 1) = rq_sector rq + n - 1).
  { unfold wrap. rewrite Zminus_mod_idemp_l. apply Z.mod_small. pow_lia. }
  rewrite E in H3. assert (Hr : 0 <= u32 (rq_sector rq / 2097152) < 4294967296).
  { pose proof (wrap_in_u 32 (rq_sector rq / 2097152)) as Hw. unfold in_u in Hw. apply Hw. lia. }
  assert (Hle : rq_sector rq / 2097152 <= (rq_sector rq + n - 1) / 2097152) by (apply Z.div_le_mono; lia).
  assert (Hlt : rq_sector rq / 2097152 < 4294967296) by lia.
  assert (H0 : 0 <= rq_sector rq / 2097152) by (apply Z.div_pos; lia).
  rewrite u32_small in * by lia. split; [done|]. split; [lia|].
  clear - H3 Hs Hn. Z.div_mod_to_equations. lia.
Qed.

Lemma acquire_cases m rqo a st m' st' r :
  mapping_inv m -> (forall rq, rqo = Some rq -> request_typed rq) ->
  0 <= next_io_lease_id m <= ID_MAX -> is_u32 (active_io_leases m) ->
  (forall k c, chunks m !! k = Some c -> is_u32 (ck_active_io_leases c)) ->
  is_remote_chunk_io_lease_acquire m rqo a st = (m', st', r) ->
  match r with
  | inl _ => m' = m /\ st' = st
  | inr mp => exists rq k c, rqo = Some rq /\ acquirable m rq st k c /\
      st' = granted_lease m rq a k c /\ mp = region_mapping c k (rq_sector rq) /\
      m' = m <| next_io_lease_id := next_io_lease_id m + 1 |>
             <| valid_sectors := acquire_sectors m rq |>
             <| chunks := <[k := leased c]> (chunks m) |>
             <| active_io_leases := active_io_leases m + 1 |>
  end.
Proof.
  intros Hm Hty Hid Hact Hck. unfold is_remote_chunk_io_lease_acquire.
  destruct rqo as [rq|]; [|by intros [= <- <- <-]]. specialize (Hty rq eq_refl).
  assert (Hno : forall e, (m, st, inl e) = (m', st', r) ->
    match r with inl _ => m' = m /\ st' = st | inr _ => False end) by (by intros e [= <- <- <-]).
  assert (Hno' : forall e P, (m, st, inl e) = (m', st', r) ->
    match r with inl _ => m' = m /\ st' = st | inr mp => P mp end) by (by intros e P [= <- <- <-]).
  clear Hno. cbv zeta. unfold IS_REMOTE_CHUNK_SECTOR_BYTES.
  destruct (negb (_ =? _) && negb (_ =? _)) eqn:Ed; [apply Hno'|].
  destruct (Z.eqb_spec (rq_bytes rq) 0) as [|Hb]; [apply Hno'|].
  destruct (Z.eqb_spec (rq_bytes rq mod 512) 0) as [Hbm|]; [|apply Hno']. cbn [negb orb].
  destruct (Z.ltb_spec (ID_MAX - u32 (rq_bytes rq / 512 - 1)) (rq_sector rq)) as [|Hr1]; [apply Hno'|].
  destruct (Z.leb_spec (chunk_count m) (u32 (rq_sector rq / SPC))) as [|Hr2]; [apply Hno'|].
  destruct (Z.eqb_spec (u64 (u64 (rq_sector rq + rq_bytes rq / 512) - 1) / SPC)
    (u32 (rq_sector rq / SPC))) as [Hr3|]; [|apply Hno']. cbn [negb orb].
  destruct (quiescing m) eqn:Eq; [apply Hno'|].
  destruct (Z.eqb_spec (ls_magic st) 0) as [Em|]; cbn [negb andb].
  2:{ destruct (ls_magic st =? _); cbn [negb andb];
      [destruct (negb (ls_storage_identity st =? a)); apply Hno'|apply Hno']. }
  rewrite Em. change (0 =? IS_REMOTE_CHUNK_LEASE_MAGIC) with false. cbn [andb].
  pose proof Hty as [Hs32 Hb32]. unfold in_u in Hs32, Hb32.
  destruct (request_chunk m rq Hm Hty ltac:(lia) Hbm Hr1 Hr2 Hr3) as (Ek & Hn & Hrange). rewrite Ek in *.
  assert (Hk0 : 0 <= rq_sector rq / SPC) by (apply Z.div_pos; [lia|unfold SPC; lia]).
  pose proof (chunk_at_lookup m (v_length _ Hm) (rq_sector rq / SPC) ltac:(lia)) as Hlk.
  set (c := chunk_at m (rq_sector rq / SPC)) in *. set (k := Z.to_nat (rq_sector rq / SPC)) in *.
  case_bool_decide as Es; [|apply Hno']. cbn [negb].
  destruct (_ && negb (is_remote_chunk_validity_test _ _ _)) eqn:Eval; [apply Hno'|].
  destruct (Z.eqb_spec (next_io_lease_id m) ID_MAX) as [|Hi1]; [apply Hno'|].
  destruct (Z.eqb_spec (active_io_leases m) IS_REMOTE_CHUNK_U32_MAX) as [|Hi2]; [apply Hno'|].
  destruct (Z.eqb_spec (ck_active_io_leases c) IS_REMOTE_CHUNK_U32_MAX) as [|Hi3]; [apply Hno'|].
  cbn [orb]. intros [= <- <- <-]. exists rq, k, c. split; [done|].
  assert (Hsmall : rq_sector rq + rq_bytes rq / 512 <= 2 ^ 40).
  { pose proof (v_count _ Hm). clear - Hr2 Hrange H Hk0. unfold SPC in *. pow2_norm.
    Z.div_mod_to_equations. lia. }
  pose proof (Hck _ _ Hlk) as Hcl. unfold in_u, IS_REMOTE_CHUNK_U32_MAX in *.
  change (2 ^ 32) with 4294967296 in *.
  destruct (v_chunk _ Hm _ _ Hlk) as [_ Hok]. rewrite Es in Hok. destruct Hok as (_ & _ & _ & Hreg).
  destruct Hreg as (Hra & _).
  split.
  { split; try done; [|lia|lia|].
    - destruct (Z.eqb_spec (rq_direction rq) IS_REMOTE_CHUNK_IO_READ); [by left|].
      destruct (Z.eqb_spec (rq_direction rq) IS_REMOTE_CHUNK_IO_WRITE); [by right|done].
    - intros Hrd s Hs. rewrite Hrd in Eval. cbn [Z.eqb andb] in Eval. apply negb_false_iff in Eval.
      eapply validity_test_spec in Eval; [exact Eval|lia|lia|lia|].
      unfold in_sectors in Hs. apply andb_true_iff in Hs as [?%Z.leb_le ?%Z.ltb_lt]. lia. }
  assert (Ezk : Z.of_nat k = rq_sector rq / SPC) by lia.
  assert (Ea : u64 (ck_remote_address c + rq_sector rq mod SPC * 512) =
               ck_remote_address c + rq_sector rq mod SPC * 512).
  { apply u64_small. unfold ID_MAX, SPC, IS_REMOTE_CHUNK_SECTOR_BYTES in *.
    pose proof (Z.mod_pos_bound (rq_sector rq) 2097152 ltac:(lia)). lia. }
  unfold granted_lease, region_mapping, acquire_sectors, leased, set_chunk, set_at.
  rewrite Ezk, Ea. cbn -[is_remote_chunk_validity_update]. rewrite u64_small by lia.
  destruct (rq_direction rq =? IS_REMOTE_CHUNK_IO_WRITE);
    cbn -[is_remote_chunk_validity_update]; rewrite !u32_small by lia; done.
Qed.

(** ** Resolving *)

Definition resolve_sectors (m : is_remote_chunk_module) (l : is_remote_chunk_io_lease_internal)
    (outcome : Z) : gmap Z Z :=
  if (ck_mapping_generation (chunk_at m (ls_logical_chunk l)) =? ls_mapping_generation l) &&
     (ls_direction l =? IS_REMOTE_CHUNK_IO_WRITE)
  then is_remote_chunk_validity_update (valid_sectors m) (ls_sector l) (ls_sector_count l)
         (outcome =? IS_REMOTE_CHUNK_IO_SUCCESS)
  else valid_sectors m.

Lemma resolve_cases m a l outcome m' l' status r :
  lease_ok m a l ->
  is_remote_chunk_io_lease_resolve m a l outcome = (m', l', status, r) ->
  if decide (status = 0) then
    ls_state l = 0 /\ l' = l <| ls_state := 1 |> /\ m' = m <| valid_sectors := resolve_sectors m l outcome |> /\
    r = if ck_mapping_generation (chunk_at m (ls_logical_chunk l)) =? ls_mapping_generation l
        then IS_REMOTE_CHUNK_IO_RESOLVE_CURRENT else IS_REMOTE_CHUNK_IO_RESOLVE_STALE
  else l' = l /\ r = IS_REMOTE_CHUNK_IO_RESOLVE_NONE /\
    (m' = m \/ m' = is_remote_chunk_note_invariant_locked m IS_REMOTE_CHUNK_INVARIANT_LEASE_DUPLICATE_RESOLVE).
Proof.
  intros Hl. unfold is_remote_chunk_io_lease_resolve. rewrite (lease_validate_ok _ _ _ Hl). cbn [Z.eqb negb].
  destruct (_ && _); [intros [= <- <- <- <-]; rewrite decide_False by done; auto|]. cbv zeta.
  destruct (lo_state _ _ _ Hl) as [E | [E | E]]; rewrite E; cbn -[is_remote_chunk_validity_update];
    try (intros [= <- <- <- <-]; rewrite decide_False by done; by auto).
  intros [= <- <- <- <-]. rewrite decide_True by done. split_and!; try done.
  unfold resolve_sectors. destruct (_ =? ls_mapping_generation l), (_ =? IS_REMOTE_CHUNK_IO_WRITE);
    try done; by destruct m.
Qed.

(** A lease that exists always resolves once. *)
Lemma resolve_answers m a l outcome :
  lease_ok m a l -> ls_state l = 0 -> 1 <= outcome <= 4 ->
  (is_remote_chunk_io_lease_resolve m a l outcome).1.2 = 0.
Proof.
  intros Hl E Ho. unfold is_remote_chunk_io_lease_resolve. rewrite (lease_validate_ok _ _ _ Hl), E.
  unfold IS_REMOTE_CHUNK_IO_SUCCESS, IS_REMOTE_CHUNK_IO_FAILURE, IS_REMOTE_CHUNK_IO_CANCELLED,
    IS_REMOTE_CHUNK_IO_SUBMISSION_FAILURE.
  assert (outcome = 1 \/ outcome = 2 \/ outcome = 3 \/ outcome = 4) as [-> | [-> | [-> | ->]]] by lia; done.
Qed.

(** ** Releasing *)

Lemma release_cases m a l m' l' status :
  lease_ok m a l -> is_remote_chunk_io_lease_release m a l = (m', l', status) ->
  if decide (status = 0) then
    ls_state l = 1 /\ l' = l <| ls_state := 3 |> /\
    ck_active_io_leases (chunk_at m (ls_logical_chunk l)) <> 0 /\ active_io_leases m <> 0 /\
    m' = (set_chunk m (ls_logical_chunk l)
            ((chunk_at m (ls_logical_chunk l))
               <| ck_active_io_leases := u32 (ck_active_io_leases (chunk_at m (ls_logical_chunk l)) - 1) |>))
           <| active_io_leases := u32 (active_io_leases m - 1) |>
  else l' = l /\ (m' = m \/ exists e, m' = is_remote_chunk_note_invariant_locked m e).
Proof.
  intros Hl. unfold is_remote_chunk_io_lease_release. rewrite (lease_validate_ok _ _ _ Hl). cbn [Z.eqb negb].
  destruct (lo_state _ _ _ Hl) as [E | [E | E]]; rewrite E; cbn -[set_chunk];
    try (intros [= <- <- <-]; rewrite decide_False by done; by eauto).
  destruct (Z.eqb_spec (ck_active_io_leases (chunk_at m (ls_logical_chunk l))) 0); cbn [orb].
  { intros [= <- <- <-]. rewrite decide_False by done. auto. }
  destruct (Z.eqb_spec (active_io_leases m) 0); intros [= <- <- <-].
  { rewrite decide_False by done. auto. }
  rewrite decide_True by done. split_and!; done.
Qed.

(** * Remote chunks: the module among its callers

    A system is the module, the lease storage of its callers, the threads
    inside an eviction wait, and the history of granted and resolved leases.
    Callers pass what they like: any claim, grant, handle or address.  The
    module serialises them, so an execution is a sequence of calls. *)

From S2P Require Import RemoteChunkPlacement.
From S2P Require Import RemoteChunkEvict RemoteChunkFail.

Inductive event :=
| Acquired (l : is_remote_chunk_io_lease_internal) (mp : is_remote_chunk_transport_mapping)
| Resolved (l : is_remote_chunk_io_lease_internal) (outcome : Z)
    (r : is_remote_chunk_io_resolve_result).

(** Storage that is not in [leases] is zeroed. [history] has the last event first. *)
Record system := {
  module : is_remote_chunk_module;
  leases : gmap Z is_remote_chunk_io_lease_internal;
  waiting : nat;
  history : list event
}.

#[export] Instance system_eta : Eta system := fun s =>
  {| module := module s; leases := leases s; waiting := waiting s; history := history s |}.

Definition storage_at (s : system) (a : Z) : is_remote_chunk_io_lease_internal :=
  default zero_lease (leases s !! a).

Inductive call :=
| Observe (h : is_remote_chunk_provider_handle) (ob : option is_remote_chunk_provider_observation)
| Set_policy (p : option is_remote_chunk_hot_policy)
| Note_activity (start count kind : Z)
| Next_mapping (env : random_environment)
| Finish_mapping (claim : option is_remote_chunk_mapping_claim_internal) (action : Z)
    (h : is_remote_chunk_provider_handle)
    (grants : option (list is_remote_chunk_mapping_grant)) (count : Z)
| Begin_eviction (h : is_remote_chunk_provider_handle) (provider_chunks : option (list Z)) (count : Z)
    (claim_out : is_remote_chunk_eviction_claim_internal)
| Enter_wait (claim : option is_remote_chunk_eviction_claim_internal) (deadline : Z)
| Leave_wait
| Finish_eviction (claim : option is_remote_chunk_eviction_claim_internal)
| Fail_provider (h : is_remote_chunk_provider_handle)
| Acquire (rq : option is_remote_chunk_io_request) (a : Z)
| Resolve (a outcome : Z)
| Release (a : Z)
| Recycle (a : Z)
| Quiesce
| Destroy.

(** Arguments are values of their C types. *)
Definition policy_typed (p : is_remote_chunk_hot_policy) : Prop :=
  is_u64 (threshold p) /\ is_u32 (read_weight p) /\ is_u32 (write_weight p).

Definition call_typed (c : call) : Prop :=
  match c with
  | Observe _ ob => forall o, ob = Some o -> observation_typed o
  | Set_policy p => forall q, p = Some q -> policy_typed q
  | Finish_mapping _ _ _ gs _ => grants_typed gs
  | Begin_eviction _ _ n _ => is_u32 n
  | Acquire rq _ => forall r, rq = Some r -> request_typed r
  | _ => True
  end.

(** [None] is the module destroyed. [Recycle] is the caller's: it frees the
    storage of a lease it has released, and the memory may come back zeroed. *)
Definition perform (s : system) (c : call) : option system :=
  let m := module s in
  let upd m' := Some (s <| module := m' |>) in
  match c with
  | Observe h ob => upd (is_remote_chunk_provider_observe m h ob).1
  | Set_policy p => upd (is_remote_chunk_hot_policy_set m p).1.1
  | Note_activity start n kind => upd (is_remote_chunk_note_activity m start n kind).1.1
  | Next_mapping env => upd (is_remote_chunk_next_mapping env m).1
  | Finish_mapping cl action h gs n => upd (is_remote_chunk_mapping_finish m cl action h gs n).1
  | Begin_eviction h pcs n co => upd (is_remote_chunk_eviction_begin m h pcs n co).1
  | Enter_wait cl d =>
      match eviction_wait_enter m cl d with
      | inl _ => Some s
      | inr m' => Some (s <| module := m' |> <| waiting := S (waiting s) |>)
      end
  | Leave_wait =>
      match waiting s with
      | O => Some s
      | S n => Some (s <| module := eviction_wait_leave m |> <| waiting := n |>)
      end
  | Finish_eviction cl => upd (is_remote_chunk_eviction_finish m cl).1
  | Fail_provider h => upd (is_remote_chunk_provider_failed m h).1.1
  | Acquire rq a =>
      match is_remote_chunk_io_lease_acquire m rq a (storage_at s a) with
      | (m', _, inl _) => upd m'
      | (m', l, inr mp) => Some (s <| module := m' |> <| leases := <[a := l]> (leases s) |>
                                   <| history := Acquired l mp :: history s |>)
      end
  | Resolve a outcome =>
      match is_remote_chunk_io_lease_resolve m a (storage_at s a) outcome with
      | (m', l, status, r) =>
          if status =? 0
          then Some (s <| module := m' |> <| leases := <[a := l]> (leases s) |>
                       <| history := Resolved (storage_at s a) outcome r :: history s |>)
          else upd m'
      end
  | Release a =>
      match is_remote_chunk_io_lease_release m a (storage_at s a) with
      | (m', l, status) =>
          if status =? 0 then Some (s <| module := m' |> <| leases := <[a := l]> (leases s) |>)
          else upd m'
      end
  | Recycle a =>
      if released (storage_at s a) then Some (s <| leases := delete a (leases s) |>) else Some s
  | Quiesce => upd (is_remote_chunk_module_quiesce m).1
  | Destroy =>
      match (is_remote_chunk_module_destroy m).1 with
      | None => None
      | Some m' => upd m'
      end
  end.

(** ** The invariant of the system *)

Definition lease_count (p : is_remote_chunk_io_lease_internal -> bool)
    (L : gmap Z is_remote_chunk_io_lease_internal) : nat :=
  size (filter (fun al : Z * is_remote_chunk_io_lease_internal => p al.2 = true) L).

Definition live_on (k : nat) (l : is_remote_chunk_io_lease_internal) : bool :=
  (ls_logical_chunk l =? Z.of_nat k) && negb (released l).

Lemma lease_count_insert_new p a l L :
  L !! a = None -> lease_count p (<[a := l]> L) = (lease_count p L + b2n (p l))%nat.
Proof.
  intros Ha. unfold lease_count. destruct (p l) eqn:E.
  - rewrite map_filter_insert_True by done. rewrite map_size_insert_None; [cbn; lia|].
    apply map_lookup_filter_None. by left.
  - rewrite map_filter_insert_not'; [cbn; lia|cbn; congruence|]. intros y Hy. congruence.
Qed.

Lemma lease_count_insert p a l0 l L :
  L !! a = Some l0 ->
  (lease_count p (<[a := l]> L) + b2n (p l0) = lease_count p L + b2n (p l))%nat.
Proof.
  intros Ha. rewrite <- (insert_delete_id _ _ _ Ha) at 2. rewrite <- (insert_delete_eq L).
  rewrite !lease_count_insert_new by apply lookup_delete_eq. lia.
Qed.

Lemma lease_count_delete p a l L :
  L !! a = Some l -> (lease_count p (delete a L) + b2n (p l) = lease_count p L)%nat.
Proof.
  intros Ha. rewrite <- (insert_delete_id _ _ _ Ha) at 2.
  by rewrite lease_count_insert_new by apply lookup_delete_eq.
Qed.

Lemma lease_count_lookup p a l L : L !! a = Some l -> (b2n (p l) <= lease_count p L)%nat.
Proof.
  intros Ha. rewrite <- (insert_delete_id _ _ _ Ha), lease_count_insert_new by apply lookup_delete_eq. lia.
Qed.

(** The mapping a lease was granted, while it is current. *)
Definition grant_current (m : is_remote_chunk_module) (l : is_remote_chunk_io_lease_internal)
    (mp : is_remote_chunk_transport_mapping) : Prop :=
  forall c, chunks m !! Z.to_nat (ls_logical_chunk l) = Some c ->
    ck_mapping_generation c = ls_mapping_generation l ->
    chunk_assigned c = true /\ mp = region_mapping c (Z.to_nat (ls_logical_chunk l)) (ls_sector l).

Definition writes (l : is_remote_chunk_io_lease_internal) (s : Z) : Prop :=
  ls_direction l = IS_REMOTE_CHUNK_IO_WRITE /\ in_sectors (ls_sector l) (ls_sector_count l) s = true.

(** Why a sector of generation [g] is valid: the last event that concerned it
    is the success of a write under that generation. *)
Definition written (h : list event) (g s : Z) : Prop :=
  exists post pre l mp,
    h = post ++ Resolved l IS_REMOTE_CHUNK_IO_SUCCESS IS_REMOTE_CHUNK_IO_RESOLVE_CURRENT :: pre /\
    Acquired l mp ∈ pre /\ writes l s /\ ls_mapping_generation l = g /\
    (forall l' mp', Acquired l' mp' ∈ post -> ~ writes l' s).

Record history_inv (m : is_remote_chunk_module) (L : gmap Z is_remote_chunk_io_lease_internal)
    (h : list event) : Prop := {
  hi_stored : forall a l, L !! a = Some l -> exists mp, Acquired (l <| ls_state := 0 |>) mp ∈ h;
  hi_acquired : forall l mp, Acquired l mp ∈ h ->
    (exists a, lease_ok m a l) /\ grant_current m l mp;
  hi_valid : forall s, sector_valid (valid_sectors m) s = true ->
    0 <= s /\ exists c, chunks m !! Z.to_nat (s / SPC) = Some c /\ written h (ck_mapping_generation c) s
}.

Record system_inv (s : system) : Prop := {
  si_mapping : mapping_inv (module s);
  si_arrays : arrays_ok (module s);
  si_bitmap : bitmap_ok (module s);
  si_policy : policy_ok (hot_policy (module s));
  si_activity : forall k c, chunks (module s) !! k = Some c -> activity_ok c;
  si_lease_ids : 0 <= next_io_lease_id (module s) <= ID_MAX;
  si_total : active_io_leases (module s) = lease_total (fun _ => true) (chunks (module s));
  si_bound : is_u32 (active_io_leases (module s));
  si_leases : forall k c, chunks (module s) !! k = Some c ->
    ck_active_io_leases c = Z.of_nat (lease_count (live_on k) (leases s));
  si_storage : forall a l, leases s !! a = Some l -> lease_ok (module s) a l;
  si_waits : active_eviction_waits (module s) = Z.of_nat (waiting s) /\
    Z.of_nat (waiting s) <= IS_REMOTE_CHUNK_U32_MAX;
  si_history : history_inv (module s) (leases s) (history s)
}.
