(* ===== verification/RemoteChunkReach.v ===== *)
(** * Remote chunks: the invariant of the system is preserved by every call *)
From S2P Require Import Prelude RemoteChunkData RemoteChunk RemoteChunkValidity RemoteChunkInv.
From S2P Require Import RemoteChunkInv RemoteChunkPlacement RemoteChunkFinish.
From S2P Require Import RemoteChunkEvict RemoteChunkFail RemoteChunkLease.
From S2P Require Import RemoteChunkLease.

(** ** Calls other than those on leases *)

Lemma lease_ok_mono m m' a l :
  identity m' = identity m -> chunk_count m' = chunk_count m ->
  next_io_lease_id m <= next_io_lease_id m' -> next_mapping_generation m <= next_mapping_generation m' ->
  lease_ok m a l -> lease_ok m' a l.
Proof. intros E1 E2 H3 H4 []. split; try done; rewrite ?E1, ?E2; try done; lia. Qed.

Lemma grant_current_step m m' a l mp :
  stable m m' -> lease_ok m a l -> grant_current m l mp -> grant_current m' l mp.
Proof.
  intros Hst Hl Hg c' Hc' Eg. destruct (st_chunk _ _ Hst _ _ Hc') as (c & Hc & _ & _ & Hstep).
  pose proof (lo_generation _ _ _ Hl). destruct Hstep as [[E Hr]|]; [|lia].
  destruct (Hg c Hc ltac:(congruence)) as [Ha ->]. destruct (Hr Ha) as [Ha' (E1 & E2 & E3 & E4)].
  split; [done|]. unfold region_mapping. by rewrite E1, E2, E3, E4.
Qed.

Lemma stable_history m m' L h :
  stable m m' -> mapping_inv m -> history_inv m L h -> history_inv m' L h.
Proof.
  intros Hst Hm [H1 H2 H3]. destruct (st_fields _ _ Hst) as (E1 & E2 & _ & E4).
  pose proof (st_next _ _ Hst). split; [done| |].
  - intros l mp Hin. destruct (H2 l mp Hin) as [[a Hl] Hg]. split.
    + exists a. apply (lease_ok_mono m); done || lia.
    + by apply (grant_current_step m m' a).
  - intros s Hs. destruct (st_valid _ _ Hst s Hs) as [Hv Hgen].
    destruct (H3 s Hv) as (Hpos & c & Hc & Hw). split; [done|].
    destruct (lookup_lt_is_Some_2 (chunks m') (Z.to_nat (s / SPC))) as [c' Hc'].
    { rewrite (st_length _ _ Hst). by eapply lookup_lt_Some. }
    exists c'. split; [done|]. by rewrite (Hgen c c' Hc Hc' Hpos).
Qed.

Lemma lease_total_stable m m' :
  stable m m' -> lease_total (fun _ => true) (chunks m') = lease_total (fun _ => true) (chunks m).
Proof.
  intros Hst. pose proof (st_chunk _ _ Hst) as Hc. pose proof (st_length _ _ Hst) as Hl.
  clear Hst. revert Hc Hl. generalize (next_mapping_generation m), (chunks m), (chunks m').
  intros next l l'. revert l. induction l' as [|c' l' IH]; intros [|c l] Hc Hl; try done.
  unfold lease_total in *. cbn [foldr]. rewrite (IH l).
  - destruct (Hc 0%nat c' eq_refl) as (d & Hd & E & _). injection Hd as ->. by rewrite E.
  - intros k d Hd. exact (Hc (S k) d Hd).
  - by injection Hl.
Qed.

(** The invariant survives any stable step, which may change the number of waiting threads. *)
Lemma system_waits s m' n :
  system_inv s -> stable (module s) m' -> mapping_inv m' -> policy_ok (hot_policy m') ->
  active_eviction_waits m' = Z.of_nat n -> Z.of_nat n <= IS_REMOTE_CHUNK_U32_MAX ->
  system_inv (s <| module := m' |> <| waiting := n |>).
Proof.
  intros Hs Hst Hm' Hp Hw Hn.
  destruct (st_fields _ _ Hst) as (E1 & E2 & E3 & E4). pose proof (st_next _ _ Hst).
  destruct Hs as [S1 S2 S3 S4 S5 S6 S7 S8 S9 S10 S11 S12].
  split; cbn -[lease_count]; try done.
  - by apply (st_arrays _ _ Hst).
  - by apply (st_bitmap _ _ Hst).
  - intros k c' Hk. destruct (st_chunk _ _ Hst _ _ Hk) as (c & Hcc & _ & Ha & _). eauto.
  - by rewrite E4.
  - by rewrite E3, S7, (lease_total_stable (module s) m').
  - by rewrite E3.
  - intros k c' Hk. destruct (st_chunk _ _ Hst _ _ Hk) as (c & Hcc & -> & _). by apply S9.
  - intros a l Ha. apply (lease_ok_mono (module s)); try done; [lia|]. by apply S10.
  - by apply (stable_history (module s)).
Qed.

Lemma system_stable s m' :
  system_inv s -> stable (module s) m' -> mapping_inv m' -> policy_ok (hot_policy m') ->
  active_eviction_waits m' = active_eviction_waits (module s) ->
  system_inv (s <| module := m' |>).
Proof.
  intros Hs Hst Hm' Hp Hw. destruct (si_waits _ Hs) as [Hn Hle].
  replace (s <| module := m' |>) with (s <| module := m' |> <| waiting := waiting s |>) by done.
  apply system_waits; try done; congruence.
Qed.

(** The policy and the number of waiting threads change in few places. *)
Definition kept (m m' : is_remote_chunk_module) : Prop :=
  hot_policy m' = hot_policy m /\ active_eviction_waits m' = active_eviction_waits m.

Lemma kept_note_invariant m e : kept m (is_remote_chunk_note_invariant_locked m e).
Proof. unfold is_remote_chunk_note_invariant_locked. by case_match. Qed.

Lemma kept_observe m h ob : kept m (is_remote_chunk_provider_observe m h ob).1.
Proof. unfold is_remote_chunk_provider_observe. by repeat case_match. Qed.

Lemma kept_note_activity m start n kind : kept m (is_remote_chunk_note_activity m start n kind).1.1.
Proof.
  unfold is_remote_chunk_note_activity. repeat (case_match; [done|]).
  set (w := if kind =? _ then _ else _). destruct (for_loop _ _ _ _) as [m' needed] eqn:E. cbn.
  enough (kept m (m', needed).1) by done. rewrite <- E. clear E m' needed.
  by refine (for_loop_ind (fun _ s => kept m s.1) _ _ _ _ _ _); [|intros j [m1 b] _ IH].
Qed.

Lemma kept_next_mapping env m m' r :
  mapping_inv m -> arrays_ok m -> is_remote_chunk_next_mapping env m = (m', r) -> kept m m'.
Proof.
  intros Hm Ha E. pose proof (next_mapping_cases _ _ _ _ Hm Ha E) as Hr. destruct r as [x|req].
  - by destruct Hr as [(? & ? & ? & ->) _].
  - destruct Hr as (m1 & i & (a & b & r & ->) & _ & _ & _ & _ & Hk & _ & Ecr).
    apply find_below_Some in Hk as (Hk & _). apply create_result in Ecr; [|by apply (mapping_inv_frame m)|lia].
    by destruct Ecr as (c & _ & _ & _ & _ & _ & _ & _ & _ & ->).
Qed.

Lemma kept_finish m cs action h gs n m' r :
  mapping_inv m -> grants_typed gs ->
  is_remote_chunk_mapping_finish m cs action h gs n = (m', r) -> kept m m'.
Proof. intros Hm Hty E. by destruct (finish_cases _ _ _ _ _ _ _ _ Hm Hty E). Qed.

Lemma kept_eviction_begin m h pcs n co m' r :
  mapping_inv m -> 0 <= n -> is_remote_chunk_eviction_begin m h pcs n co = (m', r) -> kept m m'.
Proof.
  intros Hm Hn E. destruct r as [e|claim].
  { revert E. unfold is_remote_chunk_eviction_begin.
    destruct pcs; [|by intros [= <- _]]. repeat case_match; by intros [= <- _]. }
  by destruct (eviction_begin_result _ _ _ _ _ _ _ Hm Hn E) as (sel & _ & _ & _ & _ & _ & _ & _ & ->).
Qed.

Lemma kept_eviction_finish m cs m' r :
  mapping_inv m -> is_remote_chunk_eviction_finish m cs = (m', r) -> kept m m'.
Proof.
  intros Hm E. destruct (decide (r = 0)) as [->|Hne].
  - destruct (eviction_finish_result _ _ _ Hm E) as (_ & _ & _ & _ & _ & m1 & Hr & ->).
    unfold kept. cbn. by rewrite (rr_frame _ _ _ _ Hr).
  - revert E Hne. unfold is_remote_chunk_eviction_finish. cbv zeta.
    repeat (match goal with |- context [if ?b then _ else _] => destruct b end);
      intros [= <- <-] Hne; try done; apply kept_note_invariant.
Qed.

Lemma kept_provider_failed m h m' facts r :
  mapping_inv m -> is_remote_chunk_provider_failed m h = (m', facts, r) -> kept m m'.
Proof.
  intros Hm E. pose proof (provider_failed_cases _ _ _ _ _ Hm E) as H.
  destruct (decide _); [|by subst].
  by destruct (fr_frame _ _ _ _ H) as (_ & _ & _ & _ & _ & _ & _ & _ & _ & _ & F9 & _ & _ & F12 & _).
Qed.

Lemma kept_quiesce m : kept m (is_remote_chunk_module_quiesce m).1.
Proof. unfold is_remote_chunk_module_quiesce. case_match; [apply kept_note_invariant|done]. Qed.

Lemma kept_destroy m m' r : is_remote_chunk_module_destroy m = (Some m', r) -> kept m m'.
Proof.
  unfold is_remote_chunk_module_destroy. cbv zeta. case_match; [|done]. intros [= <- _].
  destruct (kept_note_invariant (m <| quiescing := true |>)
    IS_REMOTE_CHUNK_INVARIANT_MODULE_DESTROY_ACTIVE). by split.
Qed.

Lemma hot_policy_set_ok m p :
  policy_ok (hot_policy m) -> (forall q, p = Some q -> policy_typed q) ->
  policy_ok (hot_policy (is_remote_chunk_hot_policy_set m p).1.1).
Proof.
  intros Hm Hty. unfold is_remote_chunk_hot_policy_set. destruct p as [p|]; [|done].
  destruct (Hty p eq_refl) as (H1 & H2 & H3). unfold in_u in *.
  unfold is_remote_chunk_hot_policy_valid.
  destruct (negb _) eqn:E; [done|]. case_match; [done|]. cbn. unfold policy_ok.
  apply negb_false_iff in E. rewrite !andb_true_iff, !negb_true_iff in E.
  destruct E as [[[[[E1%Z.eqb_neq E2%Z.leb_le] E3%Z.eqb_neq] E4%Z.leb_le] E5%Z.eqb_neq] E6%Z.leb_le]. lia.
Qed.

Lemma system_kept s m' :
  system_inv s -> stable (module s) m' -> mapping_inv m' -> kept (module s) m' ->
  system_inv (s <| module := m' |>).
Proof. intros Hs Hst Hm [E1 E2]. apply system_stable; try done. rewrite E1. apply Hs. Qed.

(** ** Leases *)

Lemma lease_total_insert k c c' cs :
  cs !! k = Some c ->
  lease_total (fun _ => true) (<[k := c']> cs) =
  lease_total (fun _ => true) cs + (ck_active_io_leases c' - ck_active_io_leases c).
Proof.
  revert k. unfold lease_total. induction cs as [|d cs IH]; intros [|k] H; try done.
  - injection H as ->. cbn. lia.
  - change (<[S k := c']> (d :: cs)) with (d :: <[k := c']> cs). cbn [foldr]. rewrite (IH k) by done. lia.
Qed.

Lemma lease_total_bound cs :
  (forall k c, cs !! k = Some c -> 0 <= ck_active_io_leases c) ->
  0 <= lease_total (fun _ => true) cs /\
  forall k c, cs !! k = Some c -> ck_active_io_leases c <= lease_total (fun _ => true) cs.
Proof.
  unfold lease_total. induction cs as [|d cs IH]; intros H; [split; [cbn; lia|by intros []]|].
  destruct IH as [IH1 IH2]; [intros k; exact (H (S k))|]. pose proof (H 0%nat d eq_refl). cbn [foldr].
  split; [lia|]. intros [|k] c Hk; [injection Hk as ->; lia|]. pose proof (IH2 k c Hk). lia.
Qed.

Lemma chunk_leases_u32 s k c :
  system_inv s -> chunks (module s) !! k = Some c -> is_u32 (ck_active_io_leases c).
Proof.
  intros Hs Hk. pose proof (si_leases _ Hs) as H. pose proof (si_bound _ Hs) as Hb.
  rewrite (si_total _ Hs) in Hb. unfold in_u in *.
  destruct (lease_total_bound (chunks (module s))) as [_ Hle].
  { intros j d Hj. rewrite (H j d Hj). lia. }
  specialize (Hle k c Hk). rewrite (H k c Hk) in *. lia.
Qed.

(** Zeroed storage holds no lease. *)
Lemma storage_fresh s a : system_inv s -> ls_magic (storage_at s a) = 0 -> leases s !! a = None.
Proof.
  intros Hs. unfold storage_at. destruct (leases s !! a) as [l|] eqn:E; [|done].
  cbn. by rewrite (lo_magic _ _ _ (si_storage _ Hs _ _ E)).
Qed.

Lemma storage_cases s a : leases s !! a = Some (storage_at s a) \/ storage_at s a = zero_lease.
Proof. unfold storage_at. destruct (leases s !! a); auto. Qed.

Lemma map_chunk_core_insert k c c' cs :
  cs !! k = Some c -> chunk_core c' = chunk_core c ->
  map chunk_core (<[k := c']> cs) = map chunk_core cs.
Proof.
  intros Hk E. apply list_eq. intros j. rewrite !list_lookup_fmap. destruct (decide (j = k)) as [->|Hne].
  - rewrite list_lookup_insert_eq by (by eapply lookup_lt_Some). rewrite Hk. cbn. by rewrite E.
  - by rewrite list_lookup_insert_ne.
Qed.

(** A later event that grants no write on the sector changes nothing. *)
Lemma written_cons h g x e :
  (forall l mp, e = Acquired l mp -> ~ writes l x) -> written h g x -> written (e :: h) g x.
Proof.
  intros He (post & pre & l & mp & E & Ha & Hw & Hg & Hno). exists (e :: post), pre, l, mp.
  split_and!; try done; [by rewrite E|]. intros l' mp'. rewrite elem_of_cons. intros [<-|]; eauto.
Qed.

(** Counting leases on a chunk changes neither its mapping nor its generation. *)
Lemma grant_current_insert m m' k c n l mp :
  chunks m !! k = Some c -> chunks m' = <[k := c <| ck_active_io_leases := n |>]> (chunks m) ->
  grant_current m l mp -> grant_current m' l mp.
Proof.
  intros Hk E Hg d. rewrite E. intros [(Ek & <- & _)|[_ Hd]]%list_lookup_insert_Some; [|by apply Hg].
  apply (Hg c). by rewrite <- Ek.
Qed.

Lemma generation_insert (cs : list is_remote_chunk) k c n j d :
  cs !! k = Some c -> cs !! j = Some d ->
  exists d', <[k := c <| ck_active_io_leases := n |>]> cs !! j = Some d' /\
    ck_mapping_generation d' = ck_mapping_generation d.
Proof.
  intros Hk Hj. destruct (decide (k = j)) as [<-|Hne].
  - rewrite list_lookup_insert_eq by (by eapply lookup_lt_Some). eexists. split; [done|]. by simplify_eq.
  - rewrite list_lookup_insert_ne by done. eauto.
Qed.

Section acquire.
Context (s : system) (rq : is_remote_chunk_io_request) (a : Z) (k : nat) (c : is_remote_chunk).
Hypothesis Hs : system_inv s.
Hypothesis Hty : request_typed rq.
Hypothesis Hq : acquirable (module s) rq (storage_at s a) k c.

#[local] Abbreviation m := (module s).
#[local] Abbreviation l := (granted_lease m rq a k c).

Lemma acquirable_index : 0 <= Z.of_nat k < chunk_count m.
Proof.
  pose proof (lookup_lt_Some _ _ _ (aq_lookup _ _ _ _ _ Hq)).
  pose proof (v_length _ (si_mapping _ Hs)). lia.
Qed.

Lemma acquirable_small : 0 <= rq_sector rq /\ 0 < rq_bytes rq / 512 /\ rq_sector rq + rq_bytes rq / 512 <= 2 ^ 40.
Proof.
  destruct Hq as [_ [H2 H3] H4 H5 _ _ _ _ _ _]. pose proof acquirable_index.
  pose proof (v_count _ (si_mapping _ Hs)). destruct Hty as [[Hpos _] _]. unfold SPC in *. pow2_norm.
  Z.div_mod_to_equations. lia.
Qed.

Lemma acquired_lease_ok m' :
  identity m' = identity m -> chunk_count m' = chunk_count m ->
  next_io_lease_id m' = next_io_lease_id m + 1 -> next_mapping_generation m' = next_mapping_generation m ->
  lease_ok m' a l.
Proof.
  intros E1 E2 E3 E4. pose proof acquirable_small. pose proof acquirable_index.
  pose proof (si_lease_ids _ Hs). destruct Hq as [Q1 _ Q4 Q5 _ _ Q7 Q8 _ _].
  destruct (v_chunk _ (si_mapping _ Hs) _ _ Q7) as [Hg Hok]. rewrite Q8 in Hok.
  destruct Hok as (_ & _ & _ & _ & _ & _ & Hpos).
  split; cbn; try done; rewrite ?E1, ?E2, ?E3, ?E4; try done; lia.
Qed.

(** Acquiring a lease to write clears the sectors it covers. *)
Lemma acquire_valid x :
  sector_valid (acquire_sectors m rq) x = true -> sector_valid (valid_sectors m) x = true /\ ~ writes l x.
Proof.
  pose proof acquirable_small as (H1 & H2 & H3). unfold acquire_sectors, writes. cbn.
  destruct (Z.eqb_spec (rq_direction rq) IS_REMOTE_CHUNK_IO_WRITE) as [E|E]; [|intros; split; [done|by intros []]].
  rewrite validity_update_spec by lia. destruct (in_sectors _ _ x); [done|]. intros Hx. split; [done|by intros []].
Qed.

Lemma acquire_bitmap m' :
  valid_sectors m' = acquire_sectors m rq -> chunk_count m' = chunk_count m -> bitmap_ok m'.
Proof.
  intros E1 E2 j. rewrite E1, E2. pose proof (si_bitmap _ Hs j) as Hb. unfold acquire_sectors.
  pose proof acquirable_small as (H1 & H2 & H3). pose proof acquirable_index.
  case_match; [|done]. intros Hj. apply validity_update_dom in Hj; try lia. destruct Hj as [|Hj]; [auto|].
  destruct Hq as [_ _ Q4 Q5 _ _ _ _ _ _]. unfold SPC in *. clear - Hj Q4 Q5 H H1 H2.
  Z.div_mod_to_equations. lia.
Qed.

Definition acquired (m : is_remote_chunk_module) : is_remote_chunk_module :=
  m <| next_io_lease_id := next_io_lease_id m + 1 |>
    <| valid_sectors := acquire_sectors m rq |>
    <| chunks := <[k := leased c]> (chunks m) |>
    <| active_io_leases := active_io_leases m + 1 |>.

Lemma acquired_history :
  history_inv (acquired m) (<[a := l]> (leases s))
    (Acquired l (region_mapping c k (rq_sector rq)) :: history s).
Proof.
  destruct (si_history _ Hs) as [H1 H2 H3]. pose proof (aq_lookup _ _ _ _ _ Hq) as Hk.
  split.
  - intros b l0. rewrite lookup_insert_Some. intros [[<- <-]|[Hne Hb]].
    + eexists. left.
    + destruct (H1 b l0 Hb) as [mp Hmp]. exists mp. by right.
  - intros l0 mp. rewrite elem_of_cons. intros [[= -> ->]|Hin].
    + split; [exists a; by apply acquired_lease_ok|]. intros d. cbn. rewrite Nat2Z.id.
      rewrite list_lookup_insert_eq by (by eapply lookup_lt_Some). intros [= <-] _.
      unfold chunk_assigned. cbn. by rewrite (aq_mapped _ _ _ _ _ Hq).
    + destruct (H2 l0 mp Hin) as [[b Hl] Hc]. split.
      * exists b. apply (lease_ok_mono m); try done; cbn; lia.
      * by apply (grant_current_insert m _ k c (ck_active_io_leases c + 1)).
  - intros x Hx. destruct (acquire_valid x Hx) as [Hx' Hnw]. destruct (H3 x Hx') as (Hpos & d & Hd & Hw).
    split; [done|].
    destruct (generation_insert _ k c (ck_active_io_leases c + 1) _ d Hk Hd) as (d' & Hd' & Ed).
    exists d'. split; [done|]. rewrite Ed. apply written_cons; [|done]. by intros l' mp' [= <- <-].
Qed.

Lemma acquired_live_on j : live_on j l = (Z.of_nat k =? Z.of_nat j).
Proof. unfold live_on. apply andb_true_r. Qed.

Lemma acquired_inv :
  system_inv (s <| module := acquired m |> <| leases := <[a := l]> (leases s) |>
                <| history := Acquired l (region_mapping c k (rq_sector rq)) :: history s |>).
Proof.
  pose proof (aq_lookup _ _ _ _ _ Hq) as Hk. pose proof (aq_ids _ _ _ _ _ Hq) as (Q1 & Q2 & Q3).
  pose proof (storage_fresh s a Hs (aq_storage _ _ _ _ _ Hq)) as Hfresh.
  pose proof acquired_history as Hh. pose proof Hs as [S1 S2 S3 S4 S5 S6 S7 S8 S9 S10 S11 S12].
  unfold in_u, IS_REMOTE_CHUNK_U32_MAX in *. change (2 ^ 32) with 4294967296 in *.
  split; cbn -[lease_count lease_total granted_lease acquire_sectors]; try done.
  - apply (mapping_inv_frame m); [|done]. unfold core, acquired. cbn -[acquire_sectors].
    by rewrite (map_chunk_core_insert k c).
  - by apply (acquire_bitmap (acquired m)).
  - intros j d [(<- & <- & _)|[_ Hj]]%list_lookup_insert_Some; [|eauto]. by apply (S5 k c).
  - lia.
  - rewrite (lease_total_insert k c) by done. cbn -[lease_total]. lia.
  - unfold in_u. pow2_norm. lia.
  - intros j d [(<- & <- & _)|[Hne Hj]]%list_lookup_insert_Some; rewrite lease_count_insert_new by done.
    + rewrite acquired_live_on, Z.eqb_refl. cbn [leased ck_active_io_leases]. cbn -[lease_count].
      rewrite (S9 k c Hk). lia.
    + rewrite acquired_live_on, (S9 j d Hj). destruct (Z.eqb_spec (Z.of_nat k) (Z.of_nat j)); cbn [b2n]; lia.
  - intros b l0 [[<- <-]|[_ Hb]]%lookup_insert_Some; [by apply acquired_lease_ok|].
    apply (lease_ok_mono m); try done; [cbn; lia|eauto].
Qed.
End acquire.

Lemma live_on_state k l n :
  Z.land n IS_REMOTE_CHUNK_LEASE_RELEASED = Z.land (ls_state l) IS_REMOTE_CHUNK_LEASE_RELEASED ->
  live_on k (l <| ls_state := n |>) = live_on k l.
Proof. unfold live_on, released. cbn. by intros ->. Qed.

Lemma history_stored m L h a l n :
  history_inv m L h -> L !! a = Some l -> history_inv m (<[a := l <| ls_state := n |>]> L) h.
Proof.
  intros [H1 H2 H3] Ha. split; try done. intros b l0 [[<- <-]|[_ Hb]]%lookup_insert_Some; [|by eauto].
  destruct (H1 a l Ha) as [mp Hmp]. exists mp. by destruct l.
Qed.

Section resolve.
Context (s : system) (a outcome : Z) (l : is_remote_chunk_io_lease_internal).
Hypothesis Hs : system_inv s.
Hypothesis Ha : leases s !! a = Some l.
Hypothesis Hfresh : ls_state l = 0.

#[local] Abbreviation m := (module s).
Let m' := m <| valid_sectors := resolve_sectors m l outcome |>.

Lemma resolve_small : 0 <= ls_sector l /\ 0 < ls_sector_count l /\ ls_sector l + ls_sector_count l <= 2 ^ 40.
Proof.
  pose proof (si_storage _ Hs _ _ Ha) as Hl. pose proof (lease_range_small _ _ _ (si_mapping _ Hs) Hl).
  destruct Hl. lia.
Qed.

Lemma resolve_bitmap : bitmap_ok m'.
Proof.
  intros j. cbn. pose proof (si_bitmap _ Hs j) as Hb. unfold resolve_sectors.
  pose proof resolve_small as (H1 & H2 & H3). case_match; [|done]. intros Hj.
  apply validity_update_dom in Hj; try lia. destruct Hj as [|Hj]; [auto|].
  destruct (si_storage _ Hs _ _ Ha) as [_ _ _ _ _ _ _ Q4 Q5 Q6 _ _]. unfold SPC in *.
  clear - Hj Q4 Q5 Q6 H1 H2. Z.div_mod_to_equations. lia.
Qed.

Lemma resolve_history r :
  r = (if ck_mapping_generation (chunk_at m (ls_logical_chunk l)) =? ls_mapping_generation l
       then IS_REMOTE_CHUNK_IO_RESOLVE_CURRENT else IS_REMOTE_CHUNK_IO_RESOLVE_STALE) ->
  history_inv m' (<[a := l <| ls_state := 1 |>]> (leases s)) (Resolved l outcome r :: history s).
Proof.
  intros Er. pose proof (si_storage _ Hs _ _ Ha) as Hl. pose proof (si_mapping _ Hs) as Hm.
  destruct (history_stored _ _ _ a l 1 (si_history _ Hs) Ha) as [H1 H2 H3]. split.
  - intros b l0 Hb. destruct (H1 b l0 Hb) as [mp Hmp]. exists mp. by right.
  - intros l0 mp. rewrite elem_of_cons. intros [|Hin]; [done|].
    destruct (H2 l0 mp Hin) as [[b Hb] Hg]. split; [exists b; by apply (lease_ok_mono m)|exact Hg].
  - intros x Hx. cbn in Hx |- *.
    assert (Hold : sector_valid (valid_sectors m) x = true -> 0 <= x /\ exists c,
      chunks m !! Z.to_nat (x / SPC) = Some c /\
      written (Resolved l outcome r :: history s) (ck_mapping_generation c) x).
    { intros Hv. destruct (H3 x Hv) as (Hpos & c & Hc & Hw). split; [done|]. exists c.
      split; [done|]. by apply written_cons. }
    unfold resolve_sectors in Hx. destruct (_ && _) eqn:E; [|auto].
    apply andb_true_iff in E as [Eg Ed%Z.eqb_eq]. rewrite Eg in Er.
    pose proof resolve_small as (B1 & B2 & B3). rewrite validity_update_spec in Hx by lia.
    destruct (in_sectors _ _ x) eqn:Ein; [|auto]. clear Hold. apply Z.eqb_eq in Hx as ->.
    destruct (lease_range_bounds m a l x Hm Hl Ein) as [Hpos Ex]. split; [done|].
    exists (chunk_at m (ls_logical_chunk l)). rewrite Ex.
    split; [apply (chunk_at_lookup m (v_length _ Hm)), Hl|].
    destruct (hi_stored _ _ _ (si_history _ Hs) a l Ha) as [mp Hmp].
    exists [], (history s), l, mp. rewrite Er. split_and!; try done.
    + by destruct l; cbn in *; subst.
    + by apply Z.eqb_eq in Eg.
    + by intros l' mp' ?%elem_of_nil.
Qed.

Lemma resolve_inv r :
  r = (if ck_mapping_generation (chunk_at m (ls_logical_chunk l)) =? ls_mapping_generation l
       then IS_REMOTE_CHUNK_IO_RESOLVE_CURRENT else IS_REMOTE_CHUNK_IO_RESOLVE_STALE) ->
  system_inv (s <| module := m' |> <| leases := <[a := l <| ls_state := 1 |>]> (leases s) |>
                <| history := Resolved l outcome r :: history s |>).
Proof.
  intros Er. pose proof (resolve_history r Er) as Hh. pose proof resolve_bitmap as Hb.
  pose proof Hs as [S1 S2 S3 S4 S5 S6 S7 S8 S9 S10 S11 S12].
  split; cbn -[lease_count lease_total resolve_sectors]; try done.
  - by apply (mapping_inv_frame m).
  - intros k c Hk. rewrite (S9 k c Hk). pose proof (lease_count_insert (live_on k) a l (l <| ls_state := 1 |>) _ Ha) as E.
    rewrite live_on_state in E by (by rewrite Hfresh). lia.
  - intros b l0 [[<- <-]|[_ Hb0]]%lookup_insert_Some.
    + destruct (S10 a l Ha). split; cbn; try done. auto.
    + destruct (S10 b l0 Hb0). by split.
Qed.
End resolve.

(** Releasing a lease: the chunk and the module count one less. *)
Lemma release_inv s a l :
  system_inv s -> leases s !! a = Some l -> ls_state l = 1 ->
  let m := module s in
  let c := chunk_at m (ls_logical_chunk l) in
  system_inv
    (s <| module := (set_chunk m (ls_logical_chunk l)
                       (c <| ck_active_io_leases := u32 (ck_active_io_leases c - 1) |>))
                      <| active_io_leases := u32 (active_io_leases m - 1) |> |>
       <| leases := <[a := l <| ls_state := 3 |>]> (leases s) |>).
Proof.
  intros Hs Ha E1 m c. pose proof (si_storage _ Hs _ _ Ha) as Hl. pose proof (lo_logical _ _ _ Hl) as Hj.
  pose proof (chunk_at_lookup m (v_length _ (si_mapping _ Hs)) _ Hj) as Hk. fold c in Hk.
  set (k := Z.to_nat (ls_logical_chunk l)) in *.
  assert (Hlive : forall j, live_on j l = (Z.of_nat k =? Z.of_nat j)).
  { intros j. unfold live_on, released. rewrite E1, andb_true_r. subst k. by rewrite Z2Nat.id by lia. }
  assert (Hdead : forall j, live_on j (l <| ls_state := 3 |>) = false).
  { intros j. unfold live_on, released. apply andb_false_r. }
  pose proof (fun j => lease_count_insert (live_on j) a l (l <| ls_state := 3 |>) _ Ha) as Hcnt.
  pose proof (chunk_leases_u32 s k c Hs Hk) as Hu. pose proof Hs as [S1 S2 S3 S4 S5 S6 S7 S8 S9 S10 S11 S12].
  assert (Hpos : 0 < ck_active_io_leases c).
  { rewrite (S9 k c Hk). pose proof (lease_count_lookup (live_on k) a l _ Ha) as Hc.
    rewrite Hlive, Z.eqb_refl in Hc. cbn [b2n] in Hc. lia. }
  destruct (lease_total_bound (chunks m)) as [_ Hle].
  { intros j d Hd. rewrite (S9 j d Hd). lia. }
  specialize (Hle k c Hk). unfold in_u in *. change (2 ^ 32) with 4294967296 in *. fold m in S7, S8.
  split; cbn -[lease_count lease_total set_chunk]; fold m; try done.
  - apply (mapping_inv_frame m); [|done]. unfold core, set_chunk, set_at. cbn. fold k.
    by rewrite (map_chunk_core_insert k c).
  - intros j d. cbn. unfold set_at. fold k.
    intros [(<- & <- & _)|[_ Hd]]%list_lookup_insert_Some; [|eauto]. by apply (S5 k c).
  - cbn -[lease_total]. unfold set_at. fold k. rewrite (lease_total_insert k c) by done.
    cbn -[lease_total]. rewrite !u32_small by lia. lia.
  - rewrite u32_small by lia. unfold in_u. pow2_norm. lia.
  - intros j d. cbn -[lease_count]. unfold set_at. fold k. specialize (Hcnt j). rewrite Hdead, Hlive in Hcnt.
    intros [(<- & <- & _)|[Hne Hd]]%list_lookup_insert_Some.
    + cbn -[lease_count]. rewrite Z.eqb_refl in Hcnt. cbn [b2n] in Hcnt. rewrite u32_small by lia.
      rewrite (S9 k c Hk) in *. lia.
    + destruct (Z.eqb_spec (Z.of_nat k) (Z.of_nat j)); [lia|]. cbn [b2n] in Hcnt. rewrite (S9 j d Hd). lia.
  - intros b l0 [[<- <-]|[_ Hb]]%lookup_insert_Some; [|by apply (lease_ok_mono m); eauto].
    destruct Hl. split; cbn; try done. auto.
  - destruct (history_stored _ _ _ a l 3 S12 Ha) as [H1 H2 H3]. split; [done| |].
    + intros l0 mp Hin. destruct (H2 l0 mp Hin) as [[b Hb] Hg]. split; [by exists b; apply (lease_ok_mono m)|].
      cbv zeta in *. by apply (grant_current_insert m _ k c (u32 (ck_active_io_leases c - 1))).
    + intros x Hx. destruct (H3 x Hx) as (Hx0 & d & Hd & Hw). split; [done|].
      destruct (generation_insert _ k c (u32 (ck_active_io_leases c - 1)) _ d Hk Hd) as (d' & Hd' & Ed).
      exists d'. by rewrite Ed.
Qed.

(** ** Every call *)

Lemma zero_lease_refused m a : is_remote_chunk_lease_validate_locked m a zero_lease = - EINVAL.
Proof. done. Qed.

Lemma system_note_invariant s e :
  system_inv s -> system_inv (s <| module := is_remote_chunk_note_invariant_locked (module s) e |>).
Proof.
  intros Hs. apply system_kept; try done; [apply stable_note_invariant| |apply kept_note_invariant].
  apply (mapping_inv_frame (module s)); [apply core_note_invariant|apply Hs].
Qed.

Lemma system_same s : system_inv s -> system_inv (s <| module := module s |>).
Proof. by destruct s. Qed.

Lemma perform_acquire s rq a s' :
  system_inv s -> call_typed (Acquire rq a) -> perform s (Acquire rq a) = Some s' -> system_inv s'.
Proof.
  intros Hs Hty. unfold perform.
  destruct (is_remote_chunk_io_lease_acquire _ _ _ _) as [[m' l] r] eqn:E.
  pose proof (acquire_cases _ _ _ _ _ _ _ (si_mapping _ Hs) Hty (si_lease_ids _ Hs) (si_bound _ Hs)
    (fun k c => chunk_leases_u32 s k c Hs) E) as H.
  destruct r as [e|mp]; intros [= <-].
  - destruct H as [-> ->]. by apply system_same.
  - destruct H as (q & k & c & -> & Hq & -> & -> & ->).
    by apply (acquired_inv s q a k c Hs (Hty q eq_refl) Hq).
Qed.

Lemma perform_resolve s a outcome s' :
  system_inv s -> perform s (Resolve a outcome) = Some s' -> system_inv s'.
Proof.
  intros Hs. unfold perform. destruct (storage_cases s a) as [Ha|Ha].
  - pose proof (si_storage _ Hs _ _ Ha) as Hl. set (l := storage_at s a) in *.
    destruct (is_remote_chunk_io_lease_resolve _ _ _ _) as [[[m' l'] status] r] eqn:E.
    pose proof (resolve_cases _ _ _ _ _ _ _ _ Hl E) as H. destruct (Z.eqb_spec status 0); intros [= <-].
    + rewrite decide_True in H by done. destruct H as (E0 & -> & -> & Er). by apply resolve_inv.
    + rewrite decide_False in H by done. destruct H as (_ & _ & [-> | ->]).
      * by apply system_same.
      * by apply system_note_invariant.
  - rewrite Ha. unfold is_remote_chunk_io_lease_resolve. destruct (_ && _); [|rewrite zero_lease_refused];
      intros [= <-]; by apply system_same.
Qed.

Lemma perform_release s a s' :
  system_inv s -> perform s (Release a) = Some s' -> system_inv s'.
Proof.
  intros Hs. unfold perform. destruct (storage_cases s a) as [Ha|Ha].
  - pose proof (si_storage _ Hs _ _ Ha) as Hl. set (l := storage_at s a) in *.
    destruct (is_remote_chunk_io_lease_release _ _ _) as [[m' l'] status] eqn:E.
    pose proof (release_cases _ _ _ _ _ _ Hl E) as H. destruct (Z.eqb_spec status 0); intros [= <-].
    + rewrite decide_True in H by done. destruct H as (E0 & -> & _ & _ & ->). by apply release_inv.
    + rewrite decide_False in H by done. destruct H as (_ & [-> | [e ->]]).
      * by apply system_same.
      * by apply system_note_invariant.
  - rewrite Ha. unfold is_remote_chunk_io_lease_release. rewrite zero_lease_refused.
    intros [= <-]; by apply system_same.
Qed.

Lemma perform_recycle s a s' :
  system_inv s -> perform s (Recycle a) = Some s' -> system_inv s'.
Proof.
  intros Hs. unfold perform. destruct (released _) eqn:Er; intros [= <-]; [|done].
  destruct (storage_cases s a) as [Ha|Ha]; [|by rewrite Ha in Er].
  pose proof Hs as [S1 S2 S3 S4 S5 S6 S7 S8 S9 S10 S11 S12].
  split; cbn -[lease_count lease_total]; try done.
  - intros k c Hk. rewrite (S9 k c Hk). pose proof (lease_count_delete (live_on k) a _ _ Ha) as E.
    unfold live_on at 2 in E. rewrite Er, andb_false_r in E. cbn [b2n] in E. lia.
  - intros b l [_ Hb]%lookup_delete_Some. eauto.
  - destruct S12 as [H1 H2 H3]. split; try done. intros b l [_ Hb]%lookup_delete_Some. eauto.
Qed.

Lemma perform_enter_wait s cl d s' :
  system_inv s -> perform s (Enter_wait cl d) = Some s' -> system_inv s'.
Proof.
  intros Hs. unfold perform, eviction_wait_enter.
  destruct (_ || _); [by intros [= <-]|]. cbv zeta. destruct (negb _); [by intros [= <-]|].
  destruct (Z.eqb_spec (active_eviction_waits (module s)) IS_REMOTE_CHUNK_U32_MAX) as [|Hne];
    intros [= <-]; [done|].
  destruct (si_waits _ Hs) as [Ew Hw]. unfold IS_REMOTE_CHUNK_U32_MAX in *.
  apply system_waits; try done; try (by apply Hs || by apply stable_frame).
  - by apply (mapping_inv_frame (module s)), Hs.
  - cbn. rewrite u32_small by lia. lia.
  - unfold IS_REMOTE_CHUNK_U32_MAX. lia.
Qed.

Lemma perform_leave_wait s s' :
  system_inv s -> perform s Leave_wait = Some s' -> system_inv s'.
Proof.
  intros Hs. unfold perform. destruct (waiting s) as [|n] eqn:En; intros [= <-]; [done|].
  destruct (si_waits _ Hs) as [Ew Hw]. rewrite En in *. unfold IS_REMOTE_CHUNK_U32_MAX in *.
  apply system_waits; try done; try (by apply Hs || by apply stable_frame).
  - by apply (mapping_inv_frame (module s)), Hs.
  - cbn. rewrite u32_small by lia. lia.
  - unfold IS_REMOTE_CHUNK_U32_MAX. lia.
Qed.

(** Every call with well-typed arguments preserves the invariant. *)
Lemma perform_inv s c s' :
  system_inv s -> call_typed c -> perform s c = Some s' -> system_inv s'.
Proof.
  intros Hs Hty Hp. pose proof (si_mapping _ Hs) as Hm. pose proof (si_arrays _ Hs) as Hr.
  destruct c as [h ob|p|st n kind|env|cl action h gs n|h pcs n co|cl d| |cl|h|rq a|a o|a|a| |].
  all: try solve [eauto using perform_acquire, perform_resolve, perform_release, perform_recycle,
    perform_enter_wait, perform_leave_wait].
  all: cbn in Hty; unfold perform in Hp; cbv zeta in Hp.
  - injection Hp as <-. apply system_kept; auto using observe_inv, stable_observe, kept_observe.
  - injection Hp as <-. apply system_stable; auto using stable_hot_policy_set.
    + apply (mapping_inv_frame (module s)); [apply core_hot_policy_set|done].
    + apply hot_policy_set_ok; [apply Hs|done].
    + unfold is_remote_chunk_hot_policy_set. by repeat case_match.
  - injection Hp as <-. apply system_kept; auto using kept_note_activity.
    + apply stable_note_activity, Hs.
    + apply (mapping_inv_frame (module s)); [apply core_note_activity|done].
  - destruct (is_remote_chunk_next_mapping _ _) as [m' r] eqn:E. injection Hp as <-.
    apply system_kept; eauto using stable_next_mapping, kept_next_mapping.
    by eapply next_mapping_inv.
  - destruct (is_remote_chunk_mapping_finish _ _ _ _ _ _) as [m' r] eqn:E. injection Hp as <-.
    apply system_kept; eauto using stable_finish, kept_finish, finish_inv.
  - destruct (is_remote_chunk_eviction_begin _ _ _ _ _) as [m' r] eqn:E. injection Hp as <-.
    destruct Hty as [Hn _].
    apply system_kept; eauto using stable_eviction_begin, kept_eviction_begin, eviction_begin_inv.
  - destruct (is_remote_chunk_eviction_finish _ _) as [m' r] eqn:E. injection Hp as <-.
    apply system_kept; eauto using stable_eviction_finish, kept_eviction_finish, eviction_finish_inv.
  - destruct (is_remote_chunk_provider_failed _ _) as [[m' f] r] eqn:E. injection Hp as <-.
    apply system_kept; eauto using stable_provider_failed, kept_provider_failed, provider_failed_inv.
  - injection Hp as <-. apply system_kept; auto using stable_quiesce, kept_quiesce.
    apply (mapping_inv_frame (module s)); [apply core_quiesce|done].
  - destruct (is_remote_chunk_module_destroy _) as [[m'|] r] eqn:E; [|done]. injection Hp as <-.
    apply system_kept; eauto using stable_destroy, kept_destroy.
    apply (mapping_inv_frame (module s)); [by eapply core_destroy|done].
Qed.
