(* ===== verification/RemoteChunkCreate.v ===== *)
(** * Remote chunks: creation and the reachable systems *)
From S2P Require Import Prelude RemoteChunkData RemoteChunk RemoteChunkValidity RemoteChunkInv.
From S2P Require Import RemoteChunkInv RemoteChunkPlacement RemoteChunkFinish RemoteChunkEvict.
From S2P Require Import RemoteChunkFail RemoteChunkLease RemoteChunkReach.

(** The configuration is a value of its C type. *)
Definition config_typed (cf : is_remote_chunk_config) : Prop :=
  is_u32 (cf_chunk_count cf) /\ is_u32 (cf_provider_count cf) /\ is_u32 (cf_placement_sample_size cf) /\
  policy_typed (cf_hot_policy cf).

Definition config_provider (cf : is_remote_chunk_config) (i : Z) : is_remote_chunk_provider_config :=
  provider_config_at (default [] (cf_providers cf)) i.

(** A roster that is accepted has valid, distinct identifiers and weights in range. *)
Lemma roster_validate_ok cf :
  0 <= cf_provider_count cf -> is_remote_chunk_roster_validate cf = 0 ->
  cf_provider_count cf <= 64 /\ 0 <> cf_placement_sample_size cf /\ cf_placement_sample_size cf <= 64 /\
  forall i, 0 <= i < cf_provider_count cf ->
    is_remote_chunk_provider_identifier_valid (pc_identifier (config_provider cf i)) = true /\
    1 <= pc_placement_weight (config_provider cf i) <= 1000 /\
    forall j, 0 <= j < i -> c_string (pc_identifier (config_provider cf j)) <>
                            c_string (pc_identifier (config_provider cf i)).
Proof.
  intros Hn. unfold is_remote_chunk_roster_validate, IS_REMOTE_CHUNK_MAX_PROVIDERS.
  destruct (Z.ltb_spec 64 (cf_provider_count cf)); cbn [orb]; [done|]. destruct (_ && _); [done|].
  destruct (Z.eqb_spec (cf_placement_sample_size cf) 0); cbn [orb]; [done|].
  destruct (Z.ltb_spec 64 (cf_placement_sample_size cf)); [done|].
  destruct (Z.eqb_spec (cf_provider_count cf) 0).
  { intros _. split_and!; lia. }
  destruct (_ <? _); [done|]. destruct (for_err _ _ _ _) as [e|[]] eqn:E.
  { apply (for_err_inl (fun _ _ => True)) in E as (j & [] & _ & _ & E); [|done|done].
    cbv zeta in E. intros ->. revert E. by repeat case_match. }
  intros _. split_and!; try lia.
  refine (for_err_ind0 (fun n _ => forall i, 0 <= i < n -> _) _ _ _ _ Hn _ _ E); [lia|].
  intros k [] [] Hk IH Hb i Hi. destruct (decide (i = k)) as [->|]; [|apply IH; lia].
  cbv zeta in Hb. fold (config_provider cf k) in Hb.
  destruct (is_remote_chunk_provider_identifier_valid _); [|done]. cbn [negb] in Hb.
  destruct (Z.ltb_spec (pc_placement_weight (config_provider cf k)) IS_REMOTE_CHUNK_PLACEMENT_WEIGHT_MIN); [done|].
  destruct (Z.ltb_spec IS_REMOTE_CHUNK_PLACEMENT_WEIGHT_MAX (pc_placement_weight (config_provider cf k))); [done|].
  cbn [orb] in Hb. unfold IS_REMOTE_CHUNK_PLACEMENT_WEIGHT_MIN, IS_REMOTE_CHUNK_PLACEMENT_WEIGHT_MAX in *.
  destruct (exists_below _ _) eqn:Ex; [done|]. split_and!; [done|lia|lia|]. intros j Hj Ej.
  enough (exists_below k (fun previous =>
    bool_decide (c_string (pc_identifier (provider_config_at (default [] (cf_providers cf)) previous)) =
                 c_string (pc_identifier (config_provider cf k)))) = true) by congruence.
  apply exists_below_true. exists j. split; [done|]. by apply bool_decide_eq_true_2.
Qed.

Lemma policy_valid_ok p :
  policy_typed p -> is_remote_chunk_hot_policy_valid (Some p) = true -> policy_ok p.
Proof.
  intros (H1 & H2 & H3). unfold in_u in *. cbn. rewrite !andb_true_iff, !negb_true_iff.
  intros [[[[[E1%Z.eqb_neq E2%Z.leb_le] E3%Z.eqb_neq] E4%Z.leb_le] E5%Z.eqb_neq] E6%Z.leb_le].
  unfold policy_ok. lia.
Qed.

(** What creation returns on success. *)
Lemma create_cases env co cap m counter :
  (forall cf, co = Some cf -> config_typed cf) -> 0 <= next_module_identity env ->
  is_remote_chunk_module_create env co cap = (inr m, counter) ->
  exists cf, co = Some cf /\ 0 < cf_chunk_count cf <= 128 /\ 0 <= cf_provider_count cf <= 64 /\
    0 < cf_placement_sample_size cf <= 64 /\ policy_ok (cf_hot_policy cf) /\
    counter = next_module_identity env + 1 /\ 0 < counter < ID_MAX /\ identity m = counter /\
    chunks m = replicate (Z.to_nat (cf_chunk_count cf)) zero_chunk /\
    providers m = initial_providers counter (cf_provider_count cf) (default [] (cf_providers cf)) /\
    placement_candidate_indices m = zeros (Z.to_nat (cf_provider_count cf)) /\
    placement_sample_indices m = zeros (Z.to_nat (cf_provider_count cf)) /\
    valid_sectors m = ∅ /\ chunk_count m = cf_chunk_count cf /\ provider_count m = cf_provider_count cf /\
    placement_sample_size m = cf_placement_sample_size cf /\ hot_policy m = cf_hot_policy cf /\
    next_mapping_claim_id m = 0 /\ next_eviction_claim_id m = 0 /\ next_transition_generation m = 0 /\
    next_mapping_generation m = 0 /\ next_io_lease_id m = 0 /\ active_mapping_claims m = 0 /\
    active_mapping_claim m = zero_mapping_claim /\ active_eviction_claims m = 0 /\
    active_eviction_waits m = 0 /\ active_io_leases m = 0 /\ assigned_chunks m = 0 /\
    usable_chunks m = 0 /\ quiescing m = false /\
    (forall i, 0 <= i < cf_provider_count cf ->
       1 <= pc_placement_weight (config_provider cf i) <= 1000).
Proof.
  intros Hty Hc. unfold is_remote_chunk_module_create. destruct co as [cf|]; [|done].
  destruct (Hty cf eq_refl) as (T1 & T2 & T3 & T4). unfold in_u in T1, T2, T3. cbv zeta.
  unfold IS_REMOTE_CHUNK_MAX_CHUNKS. destruct (negb (is_remote_chunk_mode_valid _)); [done|].
  destruct (Z.eqb_spec (cf_chunk_count cf) 0); [done|].
  destruct (Z.ltb_spec 128 (cf_chunk_count cf)); [done|]. cbn [orb].
  destruct (is_remote_chunk_hot_policy_valid _) eqn:Ep; [|done]. cbn [negb].
  destruct (Z.eqb_spec (is_remote_chunk_roster_validate cf) 0) as [Er|]; [|done]. cbn [negb].
  apply roster_validate_ok in Er as (R1 & R2 & R3 & R4); [|lia]. apply policy_valid_ok in Ep; [|done].
  do 7 (match goal with |- context [if ?b then _ else _] => destruct b; [done|] end).
  unfold is_remote_chunk_allocate_module_identity.
  destruct (Z.leb_spec (ID_MAX - 1) (next_module_identity env)); [done|].
  rewrite u64_small by (unfold ID_MAX in *; lia).
  destruct (_ || _); [done|]. unfold ID_MAX in *. intros [= <- <-]. exists cf. split_and!; try done; try lia.
  intros i Hi. by apply R4.
Qed.

Lemma initial_providers_lookup id n roster i p :
  initial_providers id n roster !! i = Some p ->
  Z.of_nat i < n /\
  p = zero_provider <| pr_handle := {| opaque0 := id; opaque1 := u64 (Z.of_nat i + 1) |} |>
                    <| pr_identifier := c_string (pc_identifier (provider_config_at roster (Z.of_nat i))) |>
                    <| pr_placement_weight := pc_placement_weight (provider_config_at roster (Z.of_nat i)) |>.
Proof.
  unfold initial_providers. rewrite list_lookup_fmap. destruct (seqZ 0 n !! i) as [j|] eqn:E; [|done].
  apply lookup_seqZ in E as [-> Hn]. intros [= <-]. split; [lia|]. by rewrite Z.add_0_l.
Qed.

Definition initial (m : is_remote_chunk_module) : system :=
  {| module := m; leases := ∅; waiting := 0; history := [] |}.

(** A new module satisfies the invariant. *)
Lemma create_system_inv env co cap m counter :
  (forall cf, co = Some cf -> config_typed cf) -> 0 <= next_module_identity env ->
  is_remote_chunk_module_create env co cap = (inr m, counter) -> system_inv (initial m).
Proof.
  intros Hty Hc E. destruct (create_cases _ _ _ _ _ Hty Hc E) as
    (cf & -> & B1 & B2 & B3 & Hp & _ & Hid & F1 & F2 & F3 & F4 & F5 & F6 & F7 & F8 & F9 & F10 & F11 &
     F12 & F13 & F14 & F15 & F16 & F17 & F18 & F19 & F20 & F21 & F22 & _ & Hw). clear E Hty.
  assert (Hcnt : forall p, p zero_chunk = false -> count p (chunks m) = 0%nat).
  { intros p Hz. apply count_zero. intros c. rewrite F2. by intros [-> _]%elem_of_replicate. }
  assert (Hz : forall k c, chunks m !! k = Some c -> c = zero_chunk).
  { intros k c. rewrite F2. by intros [-> _]%lookup_replicate_1. }
  assert (Hm : mapping_inv m).
  { split; rewrite ?F7, ?F9, ?F11, ?F12, ?F13, ?F14, ?F20, ?F21, ?F22; try done.
    - split; rewrite ?F8, ?F1; try done; rewrite F3.
      + unfold initial_providers. rewrite length_map, length_seqZ. lia.
      + intros i p [Hi ->]%initial_providers_lookup. cbn. rewrite u64_small by (unfold ID_MAX; lia). done.
      + intros i p [Hi ->]%initial_providers_lookup. split; cbn; try (unfold in_u; pow_lia).
        apply Hw. lia.
    - rewrite F2, length_replicate. lia.
    - by rewrite Hcnt.
    - by rewrite Hcnt.
    - intros k c ->%Hz. split; [rewrite F14; cbn; lia|done].
    - apply no_claim; try done. by intros k c ->%Hz.
    - rewrite F18. replace (eviction_ids (chunks m)) with (∅ : gset Z); [done|].
      symmetry. apply set_eq. intros x. rewrite elem_of_eviction_ids. split; [|by intros ?%elem_of_empty].
      intros (Hx & k & c & ->%Hz & <-). done.
    - by intros k k' c c' ->%Hz.
    - by intros k k' c c' ->%Hz.
    - intros i p. rewrite F3. intros [_ ->]%initial_providers_lookup.
      rewrite Hcnt; [done|]. cbn. apply andb_false_l. }
  split; cbn; try done.
  - unfold arrays_ok. rewrite F4, F5, F8. unfold zeros. rewrite length_replicate. lia.
  - intros k. rewrite F6, lookup_empty. by intros [].
  - by rewrite F10.
  - by intros k c ->%Hz.
  - rewrite F15. unfold ID_MAX. lia.
  - rewrite F20, F2. unfold lease_total. clear. by induction (Z.to_nat (cf_chunk_count cf)).
  - rewrite F20. unfold in_u. pow_lia.
  - by intros k c ->%Hz.
  - split; cbn; try done; [by intros l mp ?%elem_of_nil|]. intros x Hx.
    unfold sector_valid, word_of in Hx. by rewrite F6, lookup_empty, Z.testbit_0_l in Hx.
Qed.

(** The systems that a module and its callers can reach. *)
Inductive reachable : system -> Prop :=
| reachable_create env co cap m counter :
    (forall cf, co = Some cf -> config_typed cf) -> 0 <= next_module_identity env ->
    is_remote_chunk_module_create env co cap = (inr m, counter) -> reachable (initial m)
| reachable_call s c s' :
    reachable s -> call_typed c -> perform s c = Some s' -> reachable s'.

Lemma reachable_system_inv s : reachable s -> system_inv s.
Proof. induction 1; eauto using create_system_inv, perform_inv. Qed.

(** * Remote chunks: claims are used once

    A mapping claim names the chunk being mapped by an identifier the module
    never issues twice. *)

(** A chunk being mapped was so before under the same claim, or the claim is new. *)
Definition claims_step (m m' : is_remote_chunk_module) : Prop :=
  next_mapping_claim_id m <= next_mapping_claim_id m' /\
  forall k c', chunks m' !! k = Some c' -> ck_state c' = MAPPING ->
    (exists c, chunks m !! k = Some c /\ ck_state c = MAPPING /\
       ck_mapping_claim_id c = ck_mapping_claim_id c') \/
    next_mapping_claim_id m < ck_mapping_claim_id c'.

Lemma claims_step_frame m m' :
  chunks m' = chunks m -> next_mapping_claim_id m' = next_mapping_claim_id m -> claims_step m m'.
Proof. intros E1 E2. split; [lia|]. rewrite E1. eauto. Qed.

Lemma claims_step_core m m' : core m' = core m -> claims_step m m'.
Proof.
  intros E. split; [apply (f_equal next_mapping_claim_id) in E; cbn in E; lia|].
  intros k c' Hk Hs. apply lookup_core_1 in Hk. rewrite E in Hk.
  apply lookup_core_2 in Hk as (c & Hk & Ec). left. exists c. split; [done|]. split.
  - apply (f_equal ck_state) in Ec. cbn in Ec. congruence.
  - by apply (f_equal ck_mapping_claim_id) in Ec.
Qed.

Lemma claims_step_insert m m' k c :
  chunks m' = <[k := c]> (chunks m) -> next_mapping_claim_id m <= next_mapping_claim_id m' ->
  (ck_state c = MAPPING -> next_mapping_claim_id m < ck_mapping_claim_id c) -> claims_step m m'.
Proof.
  intros E1 E2 Hc. split; [done|]. rewrite E1. intros j d [(-> & -> & _)|[_ Hj]]%list_lookup_insert_Some; eauto.
Qed.

Lemma claims_step_reset m m1 m' member ra :
  reset_result m m1 member ra -> chunks m' = chunks m1 ->
  next_mapping_claim_id m' = next_mapping_claim_id m -> claims_step m m'.
Proof.
  intros Hr E1 E2. split; [lia|]. rewrite E1. intros k c' Hk Hs.
  destruct (lookup_lt_is_Some_2 (chunks m) k) as [c Hc].
  { rewrite <- (rr_length _ _ _ _ Hr). by eapply lookup_lt_Some. }
  pose proof (rr_chunk _ _ _ _ Hr k c Hc) as H. destruct (member c).
  - destruct H as (g & _ & H). rewrite Hk in H. injection H as ->. done.
  - rewrite Hk in H. injection H as ->. eauto.
Qed.

Lemma claims_step_call s c s' :
  system_inv s -> call_typed c -> perform s c = Some s' -> claims_step (module s) (module s').
Proof.
  intros Hs Hty Hp. pose proof (si_mapping _ Hs) as Hm. pose proof (si_arrays _ Hs) as Hr.
  destruct c as [h ob|p|st n kind|env|cl action h gs n|h pcs n co|cl d| |cl|h|rq a|a o|a|a| |];
    cbn in Hty; unfold perform in Hp; cbv zeta in Hp.
  - injection Hp as <-. apply claims_step_frame; unfold is_remote_chunk_provider_observe; by repeat case_match.
  - injection Hp as <-. apply claims_step_core, core_hot_policy_set.
  - injection Hp as <-. apply claims_step_core, core_note_activity.
  - destruct (is_remote_chunk_next_mapping _ _) as [m' r] eqn:E. injection Hp as <-.
    pose proof (next_mapping_cases _ _ _ _ Hm Hr E) as H. destruct r as [x|req].
    + apply claims_step_core, scratch_core, H.
    + destruct H as (m1 & i & Hsc & _ & _ & _ & _ & Hk & _ & Ecr). apply find_below_Some in Hk as (Hk & _).
      assert (Hm1 : mapping_inv m1) by (by apply (mapping_inv_frame (module s)), Hm; apply scratch_core).
      apply create_result in Ecr; [|done|lia]. destruct Hsc as (a & b & r & ->).
      destruct Ecr as (c & _ & _ & _ & _ & _ & _ & _ & _ & ->).
      eapply claims_step_insert; [done|cbn; lia|cbn; lia].
  - destruct (is_remote_chunk_mapping_finish _ _ _ _ _ _) as [m' r] eqn:E. injection Hp as <-.
    destruct (finish_cases _ _ _ _ _ _ _ _ Hm Hty E); [| |by apply claims_step_core].
    + by eapply claims_step_insert.
    + by eapply claims_step_insert.
  - destruct (is_remote_chunk_eviction_begin _ _ _ _ _) as [m' r] eqn:E. injection Hp as <-. destruct r as [e|claim].
    { apply claims_step_frame; revert E; unfold is_remote_chunk_eviction_begin;
        (destruct pcs; [|by intros [= <- _]]); repeat case_match; by intros [= <- _]. }
    destruct (eviction_begin_result _ _ _ _ _ _ _ Hm (proj1 Hty) E) as (sel & _ & _ & _ & _ & _ & _ & _ & ->).
    split; [cbn; lia|]. cbn. intros k c' (c & Hc & ->)%lookup_batch_Some Hs'. left. exists c.
    by destruct (nth k sel false).
  - unfold eviction_wait_enter in Hp. cbv zeta in Hp.
    destruct (_ || _); [by injection Hp as <-; apply claims_step_core|].
    destruct (negb _); [by injection Hp as <-; apply claims_step_core|].
    destruct (_ =? _); injection Hp as <-; by apply claims_step_core.
  - destruct (waiting s); injection Hp as <-; by apply claims_step_core.
  - destruct (is_remote_chunk_eviction_finish _ _) as [m' r] eqn:E. injection Hp as <-.
    destruct (decide (r = 0)) as [->|Hne].
    + destruct (eviction_finish_result _ _ _ Hm E) as (_ & _ & _ & _ & _ & m1 & Hrr & ->).
      eapply (claims_step_reset _ m1); [done|done|]. cbn. by rewrite (rr_frame _ _ _ _ Hrr).
    + by eapply claims_step_core, core_eviction_finish_refused.
  - destruct (is_remote_chunk_provider_failed _ _) as [[m' f] r] eqn:E. injection Hp as <-.
    pose proof (provider_failed_cases _ _ _ _ _ Hm E) as H. destruct (decide _); [|subst; by apply claims_step_core].
    destruct (fr_reset _ _ _ _ H) as (m1 & Hrr & E1 & _). eapply (claims_step_reset _ m1); [done|done|].
    by destruct (fr_frame _ _ _ _ H) as (_ & _ & _ & _ & F4 & _).
  - pose proof (core_acquire (module s) rq a (storage_at s a)) as Hc.
    destruct (is_remote_chunk_io_lease_acquire _ _ _ _) as [[m' l] [e|mp]]; injection Hp as <-; by apply claims_step_core.
  - pose proof (core_resolve (module s) a (storage_at s a) o) as Hc.
    destruct (is_remote_chunk_io_lease_resolve _ _ _ _) as [[[m' l] st] r].
    destruct (st =? 0); injection Hp as <-; by apply claims_step_core.
  - pose proof (core_release (module s) a (storage_at s a)) as Hc.
    destruct (is_remote_chunk_io_lease_release _ _ _) as [[m' l] st].
    destruct (st =? 0); injection Hp as <-; by apply claims_step_core.
  - destruct (released _); injection Hp as <-; by apply claims_step_core.
  - injection Hp as <-. apply claims_step_core, core_quiesce.
  - destruct (is_remote_chunk_module_destroy _) as [[m'|] r] eqn:E; [|done]. injection Hp as <-.
    by eapply claims_step_core, core_destroy.
Qed.

(** ** Claims that are done *)

Definition spent (m : is_remote_chunk_module) (id : Z) : Prop :=
  id <= next_mapping_claim_id m /\
  forall k c, chunks m !! k = Some c -> ck_state c = MAPPING -> ck_mapping_claim_id c <> id.

Lemma spent_step m m' id : claims_step m m' -> spent m id -> spent m' id.
Proof.
  intros [H1 H2] [S1 S2]. split; [lia|]. intros k c' Hk Hs.
  destruct (H2 k c' Hk Hs) as [(c & Hc & Hs' & <-)|]; [eauto|lia].
Qed.

(** Calls in sequence, until the module is destroyed. *)
Fixpoint perform_all (s : system) (cs : list call) : option system :=
  match cs with
  | [] => Some s
  | c :: cs' => match perform s c with Some s' => perform_all s' cs' | None => None end
  end.

Lemma perform_all_app s cs cs' s1 :
  perform_all s cs = Some s1 -> perform_all s (cs ++ cs') = perform_all s1 cs'.
Proof.
  revert s. induction cs as [|c cs IH]; intros s; cbn; [by intros [= ->]|].
  destruct (perform s c); [apply IH|done].
Qed.

Lemma perform_all_inv s cs s' :
  system_inv s -> Forall call_typed cs -> perform_all s cs = Some s' -> system_inv s'.
Proof.
  intros Hs Hcs. revert s Hs. induction Hcs as [|c cs Hc _ IH]; intros s Hs; cbn; [by intros [= <-]|].
  destruct (perform s c) as [s1|] eqn:E; [|done]. apply IH. by eapply perform_inv.
Qed.

Lemma perform_all_reachable s cs s' :
  reachable s -> Forall call_typed cs -> perform_all s cs = Some s' -> reachable s'.
Proof.
  intros Hs Hcs. revert s Hs. induction Hcs as [|c cs Hc _ IH]; intros s Hs; cbn; [by intros [= <-]|].
  destruct (perform s c) as [s1|] eqn:E; [|done]. apply IH. by eapply reachable_call.
Qed.

Lemma spent_calls s cs s' id :
  system_inv s -> Forall call_typed cs -> perform_all s cs = Some s' ->
  spent (module s) id -> spent (module s') id.
Proof.
  intros Hs Hcs. revert s Hs. induction Hcs as [|c cs Hc _ IH]; intros s Hs; cbn; [by intros [= <-]|].
  destruct (perform s c) as [s1|] eqn:E; [|done]. intros Hp Hsp. apply (IH s1); [by eapply perform_inv|done|].
  eapply spent_step; [by eapply claims_step_call|done].
Qed.

Definition finishes (r : is_remote_chunk_mapping_finish_result) : Prop :=
  r = IS_REMOTE_CHUNK_MAPPING_FINISH_COMMITTED \/ r = IS_REMOTE_CHUNK_MAPPING_FINISH_ABORTED.

(** Finishing a claim spends it, and a spent claim finishes nothing. *)
Lemma finish_spends m cl action h gs n m' r :
  mapping_inv m -> grants_typed gs ->
  is_remote_chunk_mapping_finish m cl action h gs n = (m', r) -> finishes r ->
  spent m' (mc_claim_id (is_remote_chunk_claim_decode cl)).
Proof.
  intros Hm Hty E Hr.
  assert (Hu : forall k c, chunks m !! k = Some c -> ck_state c = MAPPING ->
    ck_mapping_claim_id c <= next_mapping_claim_id m /\
    forall k' c', chunks m !! k' = Some c' -> ck_state c' = MAPPING -> k' = k).
  { intros k c Hk Hs. destruct (v_claim _ Hm) as [_ _ H|k1 c1 _ H1 H2 _ H4 _ H3]; [by destruct (H _ _ Hk)|].
    assert (k = k1) as -> by eauto. split; [|done]. simplify_eq. lia. }
  destruct (finish_cases _ _ _ _ _ _ _ _ Hm Hty E) as [k c g Hk Hs Ecl _ _ _ _ _|k c Hk Hs Ecl _|r H1 H2];
    [| |by destruct Hr].
  all: rewrite Ecl; destruct (Hu k c Hk Hs) as [Hle Hone]; split; [done|]; cbn;
    intros j d [(-> & <- & _)|[Hne Hj]]%list_lookup_insert_Some Hd; [done|by destruct Hne; symmetry; eauto].
Qed.

Lemma spent_refused m cl action h gs n m' r :
  mapping_inv m -> grants_typed gs -> spent m (mc_claim_id (is_remote_chunk_claim_decode cl)) ->
  is_remote_chunk_mapping_finish m cl action h gs n = (m', r) -> ~ finishes r /\ m' = m.
Proof.
  intros Hm Hty [_ Hsp] E.
  destruct (finish_cases _ _ _ _ _ _ _ _ Hm Hty E) as [k c g Hk Hs Ecl _ _ _ _ _|k c Hk Hs Ecl _|r H1 H2].
  - destruct (Hsp k c Hk Hs). by rewrite Ecl.
  - destruct (Hsp k c Hk Hs). by rewrite Ecl.
  - split; [by intros []|done].
Qed.
