(* ===== verification/RemoteChunkSnapshot.v ===== *)
(** * Remote chunks: diagnostic snapshots

    The scan recounts what the module keeps incrementally and refuses the
    snapshot when they differ.  It never does, and the snapshot is exact. *)
From S2P Require Import Prelude RemoteChunkData RemoteChunk RemoteChunkValidity RemoteChunkInv.
From S2P Require Import RemoteChunkInv RemoteChunkPlacement RemoteChunkFinish.
From S2P Require Import RemoteChunkEvict RemoteChunkFail RemoteChunkLease.
From S2P Require Import RemoteChunkLease RemoteChunkReach.

Definition chunk_evicting (c : is_remote_chunk) : bool := bool_decide (ck_state c = EVICTING).
Definition chunk_hot (m : is_remote_chunk_module) (c : is_remote_chunk) : bool :=
  threshold (hot_policy m) <=? ck_activity c.
Definition chunk_unmapped (c : is_remote_chunk) : bool := bool_decide (ck_state c = UNMAPPED).

Definition placements_below (m : is_remote_chunk_module) (j : Z) : list is_remote_chunk_placement_snapshot :=
  omap (fun i => let c := chunk_at m i in
    if chunk_assigned c
    then Some {| pl_provider := ck_provider c; pl_logical_chunk := i; pl_usable := chunk_mapped c |}
    else None) (seqZ 0 j).

Definition provider_entry (m : is_remote_chunk_module) (cs : list is_remote_chunk)
    (p : is_remote_chunk_provider) : is_remote_chunk_provider_snapshot :=
  (snapshot_provider m p)
    <| sp_assigned_chunks :=
         Z.of_nat (count (fun c => chunk_assigned c && bool_decide (ck_provider c = pr_handle p)) cs) |>
    <| sp_usable_chunks :=
         Z.of_nat (count (fun c => chunk_mapped c && bool_decide (ck_provider c = pr_handle p)) cs) |>.

(** The snapshot of the chunks below [j]. *)
Definition snapshot_below (m : is_remote_chunk_module) (j : Z) : is_remote_chunk_snapshot :=
  let cs := take (Z.to_nat j) (chunks m) in
  {| sn_module := m;
     sn_mapping_chunks := Z.of_nat (count chunk_mapping cs);
     sn_evicting_chunks := Z.of_nat (count chunk_evicting cs);
     sn_hot_ranges := Z.of_nat (count (chunk_hot m) cs);
     sn_mapping_candidates := Z.of_nat (count (fun c => chunk_hot m c && chunk_unmapped c) cs);
     sn_providers := map (provider_entry m cs) (providers m);
     sn_placements := placements_below m j;
     sn_derived_assigned := Z.of_nat (count chunk_assigned cs);
     sn_derived_usable := Z.of_nat (count chunk_mapped cs);
     sn_derived_active_io_leases := lease_total (fun _ => true) cs |}.

Lemma snapshot_ext s t :
  sn_module s = sn_module t -> sn_mapping_chunks s = sn_mapping_chunks t ->
  sn_evicting_chunks s = sn_evicting_chunks t -> sn_hot_ranges s = sn_hot_ranges t ->
  sn_mapping_candidates s = sn_mapping_candidates t -> sn_providers s = sn_providers t ->
  sn_placements s = sn_placements t -> sn_derived_assigned s = sn_derived_assigned t ->
  sn_derived_usable s = sn_derived_usable t ->
  sn_derived_active_io_leases s = sn_derived_active_io_leases t -> s = t.
Proof. destruct s, t. cbn. congruence. Qed.

(** The fields of an updated snapshot. *)
Ltac fields :=
  cbn -[placements_below map count take wrap lease_total provider_entry b2n Z.to_nat Z.add app].

Section snapshot.
Context (s : system) (Hs : system_inv s).
#[local] Abbreviation m := (module s).

Lemma placements_below_step j :
  0 <= j -> placements_below m (j + 1) = placements_below m j ++
    (if chunk_assigned (chunk_at m j)
     then [{| pl_provider := ck_provider (chunk_at m j); pl_logical_chunk := j;
              pl_usable := chunk_mapped (chunk_at m j) |}] else []).
Proof.
  intros Hj. unfold placements_below. replace (seqZ 0 (j + 1)) with (seqZ 0 j ++ [j]).
  - rewrite omap_app. cbn. by destruct (chunk_assigned (chunk_at m j)).
  - rewrite seqZ_app by lia. by rewrite Z.add_0_l.
Qed.

Lemma lease_total_take j :
  0 <= j < chunk_count m ->
  lease_total (fun _ => true) (take (Z.to_nat (j + 1)) (chunks m)) =
  lease_total (fun _ => true) (take (Z.to_nat j) (chunks m)) + ck_active_io_leases (chunk_at m j).
Proof.
  intros Hj. pose proof (chunk_at_lookup m (v_length _ (si_mapping _ Hs)) j Hj) as Hk.
  replace (Z.to_nat (j + 1)) with (S (Z.to_nat j)) by lia.
  rewrite (take_S_r _ _ _ Hk), lease_total_app. unfold lease_total at 2. cbn -[lease_total]. lia.
Qed.

Lemma lease_total_take_small j : 0 <= lease_total (fun _ => true) (take j (chunks m)) < 2 ^ 32.
Proof.
  pose proof (si_bound _ Hs) as Hb. rewrite (si_total _ Hs) in Hb. unfold in_u in Hb.
  assert (Hpos : forall k c, chunks m !! k = Some c -> 0 <= ck_active_io_leases c).
  { intros k c Hk. rewrite (si_leases _ Hs k c Hk). lia. }
  rewrite <- (take_drop j (chunks m)), lease_total_app in Hb.
  destruct (lease_total_bound (take j (chunks m))) as [H1 _].
  { intros k c [Hk _]%lookup_take_Some. eauto. }
  destruct (lease_total_bound (drop j (chunks m))) as [H2 _].
  { intros k c Hk. rewrite lookup_drop in Hk. eauto. }
  lia.
Qed.

(** The entries of the providers after one more chunk. *)
Lemma entries_step j i p (c := chunk_at m j) :
  0 <= j < chunk_count m -> providers m !! i = Some p -> ck_provider c = pr_handle p ->
  chunk_assigned c = true ->
  alter (fun e =>
    let e := e <| sp_assigned_chunks := u32 (sp_assigned_chunks e + 1) |> in
    if chunk_mapped c then e <| sp_usable_chunks := u32 (sp_usable_chunks e + 1) |> else e) i
    (map (provider_entry m (take (Z.to_nat j) (chunks m))) (providers m)) =
  map (provider_entry m (take (Z.to_nat (j + 1)) (chunks m))) (providers m).
Proof.
  intros Hj Hi Hp Ha. pose proof (si_mapping _ Hs) as Hm. apply list_eq. intros i'.
  pose proof (count_take_le m (v_length _ Hm) (v_count _ Hm)) as Hle.
  destruct (decide (i' = i)) as [->|Hne].
  - rewrite list_lookup_alter_eq, !list_lookup_fmap, Hi. cbn -[provider_entry]. f_equal.
    unfold provider_entry. rewrite !(count_take_chunk m (v_length _ Hm)) by done. fold c.
    rewrite Ha, Hp, bool_decide_eq_true_2 by done. cbn -[count u32].
    rewrite andb_true_r. destruct (chunk_mapped c); cbn -[count u32].
    + rewrite !u32_small; [by rewrite !Nat2Z.inj_add| |]; (split; [lia|]);
        match goal with |- Z.of_nat (count ?f ?l) + 1 < _ => specialize (Hle f (Z.to_nat j)) end; lia.
    + rewrite u32_small; [by rewrite ?Nat.add_0_r, Nat2Z.inj_add|]. split; [lia|].
      match goal with |- Z.of_nat (count ?f ?l) + 1 < _ => specialize (Hle f (Z.to_nat j)) end. lia.
  - rewrite list_lookup_alter_ne, !list_lookup_fmap by done.
    destruct (providers m !! i') as [q|] eqn:Eq; [|done]. cbn -[provider_entry]. f_equal.
    unfold provider_entry. rewrite !(count_take_chunk m (v_length _ Hm)) by done. fold c.
    assert (ck_provider c <> pr_handle q).
    { rewrite Hp. intros E. by destruct (roster_handle_inj _ _ _ _ _ (v_roster _ Hm) Hi Eq E). }
    rewrite bool_decide_eq_false_2, !andb_false_r by done. cbn -[count]. by rewrite !Nat.add_0_r.
Qed.

Lemma snapshot_index cs i p :
  providers m !! i = Some p ->
  is_remote_chunk_snapshot_provider_index (map (provider_entry m cs) (providers m)) (pr_handle p) = Some i.
Proof.
  intros Hi. unfold is_remote_chunk_snapshot_provider_index.
  apply fmap_Some. exists (i, provider_entry m cs p). split; [|done].
  apply list_find_Some. rewrite list_lookup_fmap, Hi. split_and!; [done|apply handle_equal_refl|].
  intros i' e He Hlt. rewrite list_lookup_fmap in He. destruct (providers m !! i') as [q|] eqn:Eq; [|done].
  injection He as <-. cbn. rewrite handle_equal_eq. intros E%bool_decide_eq_true_1.
  destruct (roster_handle_inj _ _ _ _ _ (v_roster _ (si_mapping _ Hs)) Eq Hi E). lia.
Qed.

(** A chunk that is not assigned counts for no provider. *)
Lemma entries_same j :
  0 <= j < chunk_count m -> chunk_assigned (chunk_at m j) = false ->
  map (provider_entry m (take (Z.to_nat j) (chunks m))) (providers m) =
  map (provider_entry m (take (Z.to_nat (j + 1)) (chunks m))) (providers m).
Proof.
  intros Hj Ha. apply list_fmap_ext. intros i p _. unfold provider_entry.
  rewrite !(count_take_chunk m (v_length _ (si_mapping _ Hs))) by done. rewrite Ha.
  assert (chunk_mapped (chunk_at m j) = false) as ->.
  { unfold chunk_assigned in Ha. by apply orb_false_iff in Ha as [Ha _]. }
  cbn [andb b2n]. by rewrite !Nat.add_0_r.
Qed.

Lemma snapshot_step j :
  0 <= j < chunk_count m -> snapshot_chunk m j (snapshot_below m j) = inr (snapshot_below m (j + 1)).
Proof.
  intros Hj. pose proof (si_mapping _ Hs) as Hm.
  pose proof (chunk_at_lookup m (v_length _ Hm) j Hj) as Hk.
  pose proof (count_take_le m (v_length _ Hm) (v_count _ Hm)) as Hle.
  pose proof (lease_total_take_small (Z.to_nat (j + 1))) as Hlt. rewrite lease_total_take in Hlt by done.
  assert (Hu : forall f, u32 (Z.of_nat (count f (take (Z.to_nat j) (chunks m))) + 1) =
    Z.of_nat (count f (take (Z.to_nat j) (chunks m)) + 1)).
  { intros f. specialize (Hle f (Z.to_nat j)). rewrite u32_small by lia. lia. }
  assert (Hz : forall f, u32 (Z.of_nat (count f (take (Z.to_nat j) (chunks m))) + 0) =
    Z.of_nat (count f (take (Z.to_nat j) (chunks m)))).
  { intros f. specialize (Hle f (Z.to_nat j)). rewrite u32_small by lia. lia. }
  assert (El : u32 (lease_total (fun _ => true) (take (Z.to_nat j) (chunks m)) + ck_active_io_leases (chunk_at m j)) =
    lease_total (fun _ => true) (take (Z.to_nat (j + 1)) (chunks m))).
  { rewrite lease_total_take by done. apply u32_small. change (2 ^ 32) with 4294967296 in Hlt. lia. }
  pose proof (entries_step j) as Hent.
  set (c := chunk_at m j) in *. pose proof (v_chunk _ Hm _ _ Hk) as [_ Hok].
  assert (Hp : chunk_assigned c = true -> exists i p, providers m !! i = Some p /\ ck_provider c = pr_handle p).
  { unfold chunk_assigned. destruct (ck_state c); try done;
      destruct Hok as ((i & p & Hi & Ep & _) & _); eauto. }
  assert (Ef : chunk_unmapped c = bool_decide (ck_state c = UNMAPPED) /\
    chunk_mapping c = bool_decide (ck_state c = MAPPING) /\
    chunk_evicting c = bool_decide (ck_state c = EVICTING) /\
    chunk_mapped c = bool_decide (ck_state c = MAPPED) /\
    chunk_assigned c = bool_decide (ck_state c = MAPPED) || bool_decide (ck_state c = EVICTING) /\
    chunk_hot m c = (threshold (hot_policy m) <=? ck_activity c)) by done.
  destruct Ef as (E1 & E2 & E3 & E4 & E5 & E6).
  pose proof (count_take_chunk m (v_length _ Hm)) as Ht. unfold snapshot_chunk. fold c.
  destruct (ck_state c) eqn:Es; decide_constants; cbn [orb] in E5;
    destruct (threshold (hot_policy m) <=? ck_activity c) eqn:Eh;
    try (destruct (Hp E5) as (i & p & Hi & Ep); pose proof (Hent i p Hj Hi Ep E5) as He; rewrite E4 in He;
      match goal with |- context [match ?x with Some _ => _ | None => _ end] =>
        replace x with (Some i) by (rewrite Ep; symmetry; exact (snapshot_index _ i p Hi)) end);
    f_equal; apply snapshot_ext; fields;
    rewrite ?El, ?Ht, ?placements_below_step by lia; fold c;
    rewrite ?E1, ?E2, ?E3, ?E4, ?E5, ?E6; cbn [b2n andb Z.b2z]; rewrite ?Hu, ?Hz, ?Nat.add_0_r, ?app_nil_r;
    try done; try (by apply entries_same).
Qed.

Lemma snapshot_total : is_remote_chunk_snapshot_take true m = inr (snapshot_below m (chunk_count m)).
Proof.
  pose proof (si_mapping _ Hs) as Hm. unfold is_remote_chunk_snapshot_take. cbn [negb].
  match goal with |- context [for_err _ 0 _ ?x] => assert (x = snapshot_below m 0) as -> end.
  { apply snapshot_ext; done. }
  assert (E : for_err (Z.to_nat (chunk_count m)) 0 (snapshot_chunk m) (snapshot_below m 0) =
              inr (snapshot_below m (chunk_count m))).
  { apply (for_err_run (snapshot_below m)); [pose proof (v_count _ Hm); lia|]. exact snapshot_step. }
  rewrite E. cbn -[count]. pose proof (v_length _ Hm).
  rewrite (take_ge (chunks m)) by lia.
  rewrite (v_assigned _ Hm), (v_usable _ Hm), (si_total _ Hs), !Z.eqb_refl. done.
Qed.
End snapshot.

(** * Remote chunks: facts about reachable systems

    Consequences of the invariant that the specification states: the number of
    leases, where the data of a sector is, what finishing an eviction and
    losing a provider leave behind, and the eviction wait. *)

From S2P Require Import RemoteChunkCreate.

(** ** Counting leases *)

Lemma lease_count_split f g h L :
  (forall a l, L !! a = Some l -> b2n (f l) = (b2n (g l) + b2n (h l))%nat) ->
  lease_count f L = (lease_count g L + lease_count h L)%nat.
Proof.
  induction L as [|a l L Ha IH] using map_ind; [done|]. intros H.
  rewrite !lease_count_insert_new by done. rewrite (H a l) by apply lookup_insert_eq.
  rewrite IH; [lia|]. intros b l' Hb. apply (H b). rewrite lookup_insert_ne; [done|]. congruence.
Qed.

Lemma lease_count_zero p L : lease_count p L = 0%nat <-> forall a l, L !! a = Some l -> p l = false.
Proof.
  split.
  - intros H a l Ha. pose proof (lease_count_lookup p a l L Ha). destruct (p l); cbn in *; lia.
  - induction L as [|a l L Ha IH] using map_ind; [done|]. intros H. rewrite lease_count_insert_new by done.
    rewrite (H a l) by apply lookup_insert_eq. rewrite IH; [done|].
    intros b l' Hb. apply (H b). rewrite lookup_insert_ne; [done|congruence].
Qed.

Definition live (l : is_remote_chunk_io_lease_internal) : bool := negb (released l).

(** The lease counters of the chunks sum to the leases not released. *)
Lemma lease_total_live s :
  system_inv s -> active_io_leases (module s) = Z.of_nat (lease_count live (leases s)).
Proof.
  intros Hs. rewrite (si_total _ Hs). set (m := module s).
  assert (H : forall j, (j <= length (chunks m))%nat ->
    lease_total (fun _ => true) (take j (chunks m)) =
    Z.of_nat (lease_count (fun l => live l && (ls_logical_chunk l <? Z.of_nat j)) (leases s))).
  { induction j as [|j IH]; intros Hj.
    - rewrite (proj2 (lease_count_zero _ _)); [done|]. intros a l Ha. pose proof (lo_logical _ _ _ (si_storage _ Hs a l Ha)).
      destruct (Z.ltb_spec (ls_logical_chunk l) (Z.of_nat 0)); [lia|]. by rewrite andb_false_r.
    - destruct (lookup_lt_is_Some_2 (chunks m) j Hj) as [c Hc].
      rewrite (take_S_r _ _ _ Hc), lease_total_app, IH by lia.
      rewrite (lease_count_split (fun l => live l && (ls_logical_chunk l <? Z.of_nat (S j)))
        (fun l => live l && (ls_logical_chunk l <? Z.of_nat j)) (live_on j)).
      + unfold lease_total. cbn -[lease_count]. rewrite (si_leases _ Hs j c Hc). lia.
      + intros a l _. unfold live_on, live. destruct (negb (released l)); cbn [andb]; [|by rewrite andb_false_r].
        rewrite andb_true_r. destruct (Z.ltb_spec (ls_logical_chunk l) (Z.of_nat (S j))),
          (Z.ltb_spec (ls_logical_chunk l) (Z.of_nat j)), (Z.eqb_spec (ls_logical_chunk l) (Z.of_nat j));
          cbn; lia. }
  pose proof (v_length _ (si_mapping _ Hs)) as Hl. fold m in Hl.
  specialize (H (length (chunks m)) (Nat.le_refl _)). rewrite firstn_all in H. rewrite H. f_equal.
  rewrite (lease_count_split live (fun l => live l && (ls_logical_chunk l <? Z.of_nat (length (chunks m))))
    (fun _ => false)); [by rewrite (proj2 (lease_count_zero (fun _ => false) _)), Nat.add_0_r|].
  intros a l Ha. pose proof (lo_logical _ _ _ (si_storage _ Hs a l Ha)). fold m in H0.
  destruct (Z.ltb_spec (ls_logical_chunk l) (Z.of_nat (length (chunks m)))); [|lia].
  by rewrite andb_true_r, Nat.add_0_r.
Qed.

(** ** Where the data of a sector is *)

(** The remote place of sector [x] under a granted lease. *)
Definition remote_place (l : is_remote_chunk_io_lease_internal)
    (mp : is_remote_chunk_transport_mapping) (x : Z) : is_remote_chunk_provider_handle * Z * Z :=
  (tm_provider mp, tm_remote_key mp,
   tm_remote_address mp + (x - ls_sector l) * IS_REMOTE_CHUNK_SECTOR_BYTES).

(** Under a current mapping, the place depends on the sector alone. *)
Lemma current_place m a l mp c x :
  mapping_inv m -> lease_ok m a l -> grant_current m l mp ->
  chunks m !! Z.to_nat (x / SPC) = Some c -> ck_mapping_generation c = ls_mapping_generation l ->
  in_sectors (ls_sector l) (ls_sector_count l) x = true ->
  remote_place l mp x = (ck_provider c, ck_remote_key c,
    ck_remote_address c + x mod SPC * IS_REMOTE_CHUNK_SECTOR_BYTES).
Proof.
  intros Hm Hl Hg Hc Egen Hx. destruct (lease_range_bounds m a l x Hm Hl Hx) as [Hpos Ex].
  rewrite Ex in Hc. destruct (Hg c Hc Egen) as [_ ->]. unfold remote_place. cbn. f_equal.
  pose proof (lo_chunk _ _ _ Hl). pose proof (lo_sector _ _ _ Hl).
  unfold IS_REMOTE_CHUNK_SECTOR_BYTES, SPC in *. Z.div_mod_to_equations. lia.
Qed.

(** ** Retiring leases, and finishing an eviction *)

Lemma eviction_validate_core m claim :
  is_remote_chunk_eviction_claim_validate_locked (core m) claim =
  is_remote_chunk_eviction_claim_validate_locked m claim.
Proof.
  unfold is_remote_chunk_eviction_claim_validate_locked, claim_members.
  erewrite (for_err_ext (Z.to_nat (chunk_count (core m)))); [reflexivity|].
  intros j [sel n]. unfold chunk_at. cbn [chunks core]. cbn.
  change zero_chunk with (chunk_core zero_chunk) at 1 2 3 4 5.
  rewrite !map_nth. done.
Qed.

Lemma storage_at_Some s a l : leases s !! a = Some l -> storage_at s a = l.
Proof. unfold storage_at. by intros ->. Qed.

(** A lease that is not resolved can be, whatever happened to its chunk. *)
Lemma perform_resolve_fresh s a l o :
  system_inv s -> leases s !! a = Some l -> ls_state l = 0 -> 1 <= o <= 4 ->
  exists s', perform s (Resolve a o) = Some s' /\ system_inv s' /\
    leases s' = <[a := l <| ls_state := 1 |>]> (leases s) /\ core (module s') = core (module s) /\
    active_io_leases (module s') = active_io_leases (module s).
Proof.
  intros Hs Ha E0 Ho. pose proof (si_storage _ Hs _ _ Ha) as Hl.
  pose proof (resolve_answers _ _ _ o Hl E0 Ho) as Est.
  destruct (is_remote_chunk_io_lease_resolve (module s) a l o) as [[[m' l'] st] r] eqn:E. cbn in Est. subst st.
  pose proof (resolve_cases _ _ _ _ _ _ _ _ Hl E) as H. rewrite decide_True in H by done.
  destruct H as (_ & -> & -> & Er).
  assert (Hp : perform s (Resolve a o) = Some (s <| module := (module s) <| valid_sectors := resolve_sectors (module s) l o |> |>
    <| leases := <[a := l <| ls_state := 1 |>]> (leases s) |> <| history := Resolved l o r :: history s |>)).
  { unfold perform. rewrite (storage_at_Some _ _ _ Ha), E. done. }
  eexists. split; [exact Hp|]. split; [by eapply perform_resolve|]. done.
Qed.

Lemma release_answers s a l :
  system_inv s -> leases s !! a = Some l -> ls_state l = 1 ->
  (is_remote_chunk_io_lease_release (module s) a l).2 = 0 /\
  0 < ck_active_io_leases (chunk_at (module s) (ls_logical_chunk l)) /\ 0 < active_io_leases (module s).
Proof.
  intros Hs Ha E1. pose proof (si_storage _ Hs _ _ Ha) as Hl. pose proof (lo_logical _ _ _ Hl) as Hj.
  pose proof (chunk_at_lookup _ (v_length _ (si_mapping _ Hs)) _ Hj) as Hk.
  assert (Hpos : 0 < ck_active_io_leases (chunk_at (module s) (ls_logical_chunk l))).
  { rewrite (si_leases _ Hs _ _ Hk).
    pose proof (lease_count_lookup (live_on (Z.to_nat (ls_logical_chunk l))) a l _ Ha) as Hc.
    assert (Hlive : live_on (Z.to_nat (ls_logical_chunk l)) l = true).
    { unfold live_on, released. by rewrite E1, Z2Nat.id, Z.eqb_refl by lia. }
    rewrite Hlive in Hc. cbn [b2n] in Hc. lia. }
  assert (Hpos' : 0 < active_io_leases (module s)).
  { rewrite (si_total _ Hs). destruct (lease_total_bound (chunks (module s))) as [_ Hle].
    - intros j d Hd. rewrite (si_leases _ Hs j d Hd). lia.
    - specialize (Hle _ _ Hk). lia. }
  split; [|done]. unfold is_remote_chunk_io_lease_release. rewrite (lease_validate_ok _ _ _ Hl), E1.
  cbn -[chunk_at set_chunk]. destruct (Z.eqb_spec (ck_active_io_leases (chunk_at (module s) (ls_logical_chunk l))) 0);
    [lia|]. destruct (Z.eqb_spec (active_io_leases (module s)) 0); [lia|]. done.
Qed.

Lemma perform_release_resolved s a l :
  system_inv s -> leases s !! a = Some l -> ls_state l = 1 ->
  exists s', perform s (Release a) = Some s' /\ system_inv s' /\
    leases s' = <[a := l <| ls_state := 3 |>]> (leases s) /\ core (module s') = core (module s) /\
    active_io_leases (module s') = active_io_leases (module s) - 1.
Proof.
  intros Hs Ha E1. pose proof (si_storage _ Hs _ _ Ha) as Hl.
  destruct (release_answers s a l Hs Ha E1) as (Est & _ & Hpos).
  pose proof (core_release (module s) a l) as Hcore.
  destruct (is_remote_chunk_io_lease_release (module s) a l) as [[m' l'] st] eqn:E. cbn in Est, Hcore. subst st.
  pose proof (release_cases _ _ _ _ _ _ Hl E) as H. rewrite decide_True in H by done.
  destruct H as (_ & -> & _ & _ & Em).
  assert (Hp : perform s (Release a) =
    Some (s <| module := m' |> <| leases := <[a := l <| ls_state := 3 |>]> (leases s) |>)).
  { unfold perform. rewrite (storage_at_Some _ _ _ Ha), E. done. }
  eexists. split; [exact Hp|]. split; [by eapply perform_release|]. split; [done|]. split; [done|].
  pose proof (si_bound _ Hs) as Hb. unfold in_u in Hb. subst m'. cbn. apply u32_small.
  change (2 ^ 32) with 4294967296 in Hb. lia.
Qed.

(** Calls that only resolve and release leases. *)
Definition retiring (c : call) : Prop :=
  (exists a, c = Resolve a IS_REMOTE_CHUNK_IO_FAILURE) \/ exists a, c = Release a.

Lemma retiring_typed c : retiring c -> call_typed c.
Proof. by intros [[a ->]|[a ->]]. Qed.

Lemma retire_one s a l :
  system_inv s -> leases s !! a = Some l -> live l = true ->
  exists cs s', Forall retiring cs /\ perform_all s cs = Some s' /\ system_inv s' /\
    core (module s') = core (module s) /\ active_io_leases (module s') = active_io_leases (module s) - 1.
Proof.
  intros Hs Ha Hlive. destruct (lo_state _ _ _ (si_storage _ Hs _ _ Ha)) as [E|[E|E]].
  - destruct (perform_resolve_fresh s a l IS_REMOTE_CHUNK_IO_FAILURE Hs Ha E) as (s1 & P1 & I1 & L1 & C1 & A1);
      [unfold IS_REMOTE_CHUNK_IO_FAILURE; lia|].
    destruct (perform_release_resolved s1 a (l <| ls_state := 1 |>) I1) as (s2 & P2 & I2 & _ & C2 & A2);
      [rewrite L1; apply lookup_insert_eq|done|].
    exists [Resolve a IS_REMOTE_CHUNK_IO_FAILURE; Release a], s2. split_and!; try done.
    + constructor; [left; eauto|]. constructor; [right; eauto|constructor].
    + cbn -[perform]. by rewrite P1, P2.
    + by rewrite C2.
    + lia.
  - destruct (perform_release_resolved s a l Hs Ha E) as (s2 & P2 & I2 & _ & C2 & A2).
    exists [Release a], s2. split_and!; try done.
    + constructor; [right; eauto|constructor].
    + cbn -[perform]. by rewrite P2.
  - unfold live, released in Hlive. by rewrite E in Hlive.
Qed.

(** Every lease can be resolved and released. *)
Lemma retire_all s :
  system_inv s ->
  exists cs s', Forall retiring cs /\ perform_all s cs = Some s' /\ system_inv s' /\
    core (module s') = core (module s) /\ active_io_leases (module s') = 0.
Proof.
  remember (lease_count live (leases s)) as n eqn:En. revert s En.
  induction n as [|n IH]; intros s En Hs; pose proof (lease_total_live s Hs) as Et; rewrite <- En in Et.
  { exists [], s. split_and!; try done. }
  destruct (decide (map_Exists (fun _ l => live l = true) (leases s))) as [(a & l & Ha & Hl)|Hno].
  - destruct (retire_one s a l Hs Ha Hl) as (cs & s1 & R1 & P1 & I1 & C1 & A1).
    destruct (IH s1) as (cs' & s2 & R2 & P2 & I2 & C2 & A2); [|done|].
    { pose proof (lease_total_live s1 I1). lia. }
    exists (cs ++ cs'), s2. split_and!; try done; [by apply Forall_app| |by rewrite C2].
    by rewrite (perform_all_app s cs cs' s1).
  - exfalso. enough (lease_count live (leases s) = 0%nat) by lia. apply lease_count_zero.
    intros a l Ha. destruct (live l) eqn:E; [|done]. destruct Hno. by exists a, l.
Qed.

(** With no lease left and identifiers to spare, a valid claim finishes. *)
Lemma eviction_finish_answers s cl :
  system_inv s -> is_remote_chunk_eviction_claim_validate_locked (module s) cl = 0 ->
  active_io_leases (module s) = 0 -> next_mapping_generation (module s) <= ID_MAX - ec_chunk_count cl ->
  (is_remote_chunk_eviction_finish (module s) (Some cl)).2 = 0.
Proof.
  intros Hs Ev Ez Hg. pose proof (si_mapping _ Hs) as Hm. set (m := module s) in *.
  destruct (eviction_validate_ok _ _ Hm Ev) as (Hid & _ & Hcnt & _ & Ecnt & Hmem).
  assert (Hd : is_remote_chunk_eviction_drained_locked m cl = true).
  { apply eviction_drained_spec; [done|]. intros k c Hk _. pose proof (si_total _ Hs) as Et. fold m in Et.
    assert (Hpos : forall j d, chunks m !! j = Some d -> 0 <= ck_active_io_leases d).
    { intros j d Hj. rewrite (si_leases _ Hs j d Hj). lia. }
    destruct (lease_total_bound (chunks m) Hpos) as [_ Hle]. specialize (Hle k c Hk).
    specialize (Hpos k c Hk). lia. }
  assert (Ha : ec_chunk_count cl <= assigned_chunks m).
  { rewrite (v_assigned _ Hm), <- Ecnt. apply Nat2Z.inj_le, count_mono. intros c Hc He.
    apply list_elem_of_lookup in Hc as [k Hk]. apply Z.eqb_eq in He. destruct (Hmem k c Hk He) as [Es _].
    unfold chunk_assigned. rewrite Es. by decide_constants. }
  assert (He : active_eviction_claims m <> 0).
  { rewrite (v_evictions _ Hm). destruct (count_exists (eviction_member (ec_claim_id cl)) (chunks m))
      as (k & c & Hk & Hc%Z.eqb_eq); [lia|].
    intros E0. assert (E : eviction_ids (chunks m) = ∅) by (apply leibniz_equiv, size_empty_inv; lia).
    assert (ec_claim_id cl ∈ eviction_ids (chunks m)) as Hin by (apply elem_of_eviction_ids; eauto 6).
    rewrite E in Hin. set_solver. }
  unfold is_remote_chunk_eviction_finish, is_remote_chunk_eviction_claim_decode.
  change (default zero_eviction_claim (Some cl)) with cl. cbv zeta.
  decide_constants. rewrite Ev, Hd. cbn [Z.eqb negb].
  destruct (Z.ltb_spec (ID_MAX - ec_chunk_count cl) (next_mapping_generation m)); [lia|].
  destruct (Z.ltb_spec (assigned_chunks m) (ec_chunk_count cl)); [lia|].
  destruct (Z.eqb_spec (active_eviction_claims m) 0); [lia|]. done.
Qed.

(** ** A turn of the eviction wait *)

Lemma wait_poll_Some m cl deadline now st :
  eviction_wait_poll m cl deadline now = Some st ->
  st = 0 <-> is_remote_chunk_eviction_claim_validate_locked m cl = 0 /\
             is_remote_chunk_eviction_drained_locked m cl = true.
Proof.
  unfold eviction_wait_poll. cbv zeta.
  destruct (Z.eqb_spec (is_remote_chunk_eviction_claim_validate_locked m cl) 0) as [Ev|Ev]; cbn [negb orb].
  2:{ intros [= <-]. split; [done|by intros []]. }
  destruct (is_remote_chunk_eviction_drained_locked m cl); [intros [= <-]; tauto|].
  destruct (_ =? _); [intros [= <-]; split; [done|by intros []]|].
  destruct (_ <=? _); [intros [= <-]; split; [done|by intros []]|done].
Qed.

Lemma wait_poll_None m cl deadline now :
  eviction_wait_poll m cl deadline now = None ->
  now < deadline /\ is_remote_chunk_eviction_drained_locked m cl = false.
Proof.
  unfold eviction_wait_poll. cbv zeta. destruct (_ || _) eqn:E; [done|]. apply orb_false_iff in E as [_ E].
  destruct (_ =? _); [done|]. destruct (Z.leb_spec deadline now); [done|]. done.
Qed.

(** No claim is active exactly when no chunk is in transition. *)
Lemma idle_claims m :
  mapping_inv m ->
  active_mapping_claims m = 0 /\ active_eviction_claims m = 0 <->
  forall k c, chunks m !! k = Some c -> ck_state c <> MAPPING /\ ck_state c <> EVICTING.
Proof.
  intros Hm. split.
  - intros [E1 E2] k c Hk. split; intros Es.
    + destruct (v_claim _ Hm) as [_ _ Hno|]; [by destruct (Hno k c Hk)|lia].
    + rewrite (v_evictions _ Hm) in E2.
      assert (E : eviction_ids (chunks m) = ∅) by (apply leibniz_equiv, size_empty_inv; lia).
      destruct (v_chunk _ Hm _ _ Hk) as [_ Hok]. rewrite Es in Hok. destruct Hok as (_ & _ & Hid & _).
      assert (Hin : ck_eviction_claim_id c ∈ eviction_ids (chunks m)) by (apply elem_of_eviction_ids; split; [lia|eauto]).
      rewrite E in Hin. set_solver.
  - intros H. split.
    + destruct (v_claim _ Hm) as [E _ _|k c _ Hk Es _ _ _ _]; [done|]. by destruct (H k c Hk).
    + rewrite (v_evictions _ Hm). replace (eviction_ids (chunks m)) with (∅ : gset Z); [done|].
      symmetry. apply set_eq. intros x. rewrite elem_of_eviction_ids. split; [|by intros ?%elem_of_empty].
      intros (Hx & k & c & Hk & <-). destruct (H k c Hk) as [H1 H2].
      destruct (v_chunk _ Hm _ _ Hk) as [_ Hok]. destruct (ck_state c); try done.
      * by destruct Hok as (_ & _ & E).
      * by destruct Hok as (_ & _ & E & _).
Qed.
