(* ===== verification/RemoteChunkExample.v ===== *)
(** * Remote chunks: an example execution

    One provider, two chunks: the first chunk gets hot, is mapped, written, and then
    evicted.  The specification's witnesses start from its states. *)
From S2P Require Import Prelude RemoteChunkData RemoteChunk RemoteChunkValidity RemoteChunkInv.
From S2P Require Import RemoteChunkInv RemoteChunkFinish RemoteChunkLease RemoteChunkFail.
From S2P Require Import RemoteChunkLease RemoteChunkReach RemoteChunkCreate.

Definition ex_environment : create_environment :=
  {| allocates_module := true; allocates_chunks := true; allocates_providers := true;
     allocates_candidate_indices := true; allocates_sample_indices := true; allocates_validity := true;
     lock_init := 0; wait_init := 0; monotonic_ns := 5; next_module_identity := 0 |}.

Definition ex_config : is_remote_chunk_config :=
  {| cf_mode := IS_REMOTE_CHUNK_MODE_BACKED; cf_chunk_count := 2;
     cf_hot_policy := {| threshold := 2; read_weight := 1; write_weight := 2 |};
     cf_providers := Some [{| pc_identifier := [97; 0]; pc_placement_weight := 1 |}];
     cf_provider_count := 1; cf_placement_sample_size := 1; cf_placement_seed := 7 |}.

Definition ex_module : is_remote_chunk_module :=
  match is_remote_chunk_module_create ex_environment (Some ex_config) (Some 1) with
  | (inr m, _) => m
  | (inl _, _) => {| chunks := []; providers := []; placement_candidate_indices := [];
      placement_sample_indices := []; valid_sectors := ∅; mode := 0; chunk_count := 0;
      provider_count := 0; placement_sample_size := 0; placement_seed := 0; placement_rng_state := 0;
      hot_policy := {| threshold := 0; read_weight := 0; write_weight := 0 |}; identity := 0;
      next_mapping_claim_id := 0; next_eviction_claim_id := 0; next_transition_generation := 0;
      next_mapping_generation := 0; next_io_lease_id := 0; invariant_count := 0;
      active_mapping_claim := zero_mapping_claim; last_mapping_terminal_claim := zero_mapping_claim;
      last_mapping_terminal_action := IS_REMOTE_CHUNK_MAPPING_TERMINAL_NONE;
      latest_invariant := IS_REMOTE_CHUNK_INVARIANT_NONE; active_mapping_claims := 0;
      active_eviction_claims := 0; active_eviction_waits := 0; active_io_leases := 0;
      assigned_chunks := 0; usable_chunks := 0; quiescing := false |}
  end.

Definition ex_handle : is_remote_chunk_provider_handle := {| opaque0 := 1; opaque1 := 1 |}.
Definition ex_random : random_environment := {| kernel_build := false; random_u32 := [] |}.
Definition ex_observation : is_remote_chunk_provider_observation :=
  {| ob_sequence := 1; ob_available_chunks := 4; ob_exclusion := 0; ob_placement_eligible := true |}.
Definition ex_grant : is_remote_chunk_mapping_grant :=
  {| gr_logical_chunk := 0; gr_provider_chunk := 9; gr_remote_address := 1073741824; gr_remote_key := 5 |}.

Definition run (s : system) (cs : list call) : system := default s (perform_all s cs).

(** The chunk hot, and claimed. *)
Definition ex_ready : system :=
  run (initial ex_module) [Observe ex_handle (Some ex_observation);
    Note_activity 0 1 IS_REMOTE_CHUNK_ACTIVITY_WRITE].
Definition ex_claimed : system := run ex_ready [Next_mapping ex_random].
Definition ex_claim : is_remote_chunk_mapping_claim_internal := active_mapping_claim (module ex_claimed).

Definition ex_commit : call :=
  Finish_mapping (Some ex_claim) IS_REMOTE_CHUNK_MAPPING_FINISH_COMMIT ex_handle (Some [ex_grant]) 1.
Definition ex_mapped : system := run ex_claimed [ex_commit].

(** Eight sectors of it written. *)
Definition ex_write : is_remote_chunk_io_request :=
  {| rq_direction := IS_REMOTE_CHUNK_IO_WRITE; rq_sector := 60; rq_bytes := 4096 |}.
Definition ex_read : is_remote_chunk_io_request :=
  {| rq_direction := IS_REMOTE_CHUNK_IO_READ; rq_sector := 62; rq_bytes := 1024 |}.
Definition ex_writing : system := run ex_mapped [Acquire (Some ex_write) 4096].
Definition ex_written : system := run ex_writing [Resolve 4096 IS_REMOTE_CHUNK_IO_SUCCESS; Release 4096].

(** A reader still there when its eviction begins. *)
Definition ex_reading : system := run ex_written [Acquire (Some ex_read) 8192].
Definition ex_begin : call := Begin_eviction ex_handle (Some [9]) 1 zero_eviction_claim.
Definition ex_evicting : system := run ex_reading [ex_begin].
Definition claim_made (r : is_remote_chunk_module * (Z + is_remote_chunk_eviction_claim_internal)) :
    is_remote_chunk_eviction_claim_internal :=
  match r.2 with inr claim => claim | inl _ => zero_eviction_claim end.
Definition ex_eviction : is_remote_chunk_eviction_claim_internal :=
  claim_made (is_remote_chunk_eviction_begin (module ex_reading) ex_handle (Some [9]) 1 zero_eviction_claim).
Definition ex_drained : system :=
  run ex_evicting [Resolve 8192 IS_REMOTE_CHUNK_IO_SUCCESS; Release 8192].

Definition ex_lease (a id first n direction : Z) : is_remote_chunk_io_lease_internal :=
  {| ls_magic := IS_REMOTE_CHUNK_LEASE_MAGIC; ls_module_identity := 1; ls_storage_identity := a;
     ls_lease_id := id; ls_mapping_generation := 1; ls_sector := first; ls_sector_count := n;
     ls_logical_chunk := 0; ls_direction := direction; ls_state := 0 |}.
Definition ex_mapping (address : Z) : is_remote_chunk_transport_mapping :=
  {| tm_provider := ex_handle; tm_remote_address := address; tm_remote_key := 5; tm_provider_chunk := 9;
     tm_logical_chunk := 0 |}.

Lemma result_is {A B} (p : A * B) z : p.2 = z -> p = (p.1, z).
Proof. destruct p. cbn. by intros ->. Qed.

Lemma run_step s c : match perform s c with Some _ => true | None => false end = true -> perform s c = Some (run s [c]).
Proof. unfold run. cbn. by destruct (perform s c). Qed.

Lemma run_calls_reachable s cs :
  reachable s -> Forall call_typed cs -> reachable (run s cs).
Proof.
  intros Hs Hcs. unfold run. destruct (perform_all s cs) as [s'|] eqn:E; [|done].
  by eapply perform_all_reachable.
Qed.

Lemma ex_initial_reachable : reachable (initial ex_module).
Proof.
  apply (reachable_create ex_environment (Some ex_config) (Some 1) ex_module 1).
  - intros cf [= <-]. unfold config_typed, policy_typed, in_u. cbn. lia.
  - cbn. lia.
  - vm_compute. reflexivity.
Qed.

(** Concrete calls are well typed. *)
Ltac call_is_typed :=
  unfold ex_commit, ex_begin; cbn [call_typed]; try exact I; try (intros ? [= <-]);
  unfold observation_typed, policy_typed, grants_typed, grant_typed, request_typed, in_u;
  repeat match goal with
  | |- forall _, _ -> _ => intros ? [= <-]
  | |- _ /\ _ => split
  | |- Forall _ _ => constructor
  end; vm_compute; congruence.

Ltac calls_are_typed := repeat (constructor; [call_is_typed|]); constructor.

Lemma ex_ready_reachable : reachable ex_ready.
Proof. apply run_calls_reachable; [apply ex_initial_reachable|calls_are_typed]. Qed.

Lemma ex_claimed_reachable : reachable ex_claimed.
Proof. apply run_calls_reachable; [apply ex_ready_reachable|calls_are_typed]. Qed.

Lemma ex_mapped_reachable : reachable ex_mapped.
Proof. apply run_calls_reachable; [apply ex_claimed_reachable|calls_are_typed]. Qed.

Lemma ex_writing_reachable : reachable ex_writing.
Proof. apply run_calls_reachable; [apply ex_mapped_reachable|calls_are_typed]. Qed.

Lemma ex_written_reachable : reachable ex_written.
Proof. apply run_calls_reachable; [apply ex_writing_reachable|calls_are_typed]. Qed.

Lemma ex_reading_reachable : reachable ex_reading.
Proof. apply run_calls_reachable; [apply ex_written_reachable|calls_are_typed]. Qed.

Lemma ex_evicting_reachable : reachable ex_evicting.
Proof. apply run_calls_reachable; [apply ex_reading_reachable|calls_are_typed]. Qed.

Lemma ex_drained_reachable : reachable ex_drained.
Proof. apply run_calls_reachable; [apply ex_evicting_reachable|calls_are_typed]. Qed.
