(* ===== verification/RemoteChunkSpec.v ===== *)
(** * Remote chunks: what the module guarantees its callers

    Theorems about every system reachable from a created module by calls with
    well-typed arguments. *)
From stdpp Require Import propset.
From S2P Require Import Prelude RemoteChunkData RemoteChunk RemoteChunkValidity RemoteChunkInv.
From S2P Require Import RemoteChunkInv RemoteChunkPlacement RemoteChunkFinish.
From S2P Require Import RemoteChunkEvict RemoteChunkFail RemoteChunkLease.
From S2P Require Import RemoteChunkLease RemoteChunkReach RemoteChunkCreate.
From S2P Require Import RemoteChunkSnapshot RemoteChunkExample.

(** ** Data integrity *)

Lemma acquire_granted s rq a s' l mp :
  reachable s -> request_typed rq -> perform s (Acquire (Some rq) a) = Some s' ->
  history s' = Acquired l mp :: history s ->
  exists k c, acquirable (module s) rq (storage_at s a) k c /\
    l = granted_lease (module s) rq a k c /\ mp = region_mapping c k (rq_sector rq) /\
    chunks (module s') = <[k := leased c]> (chunks (module s)).
Proof.
  intros Hr Hty. pose proof (reachable_system_inv s Hr) as Hs. unfold perform.
  destruct (is_remote_chunk_io_lease_acquire _ _ _ _) as [[m' l'] r] eqn:E.
  assert (Hty' : forall q, Some rq = Some q -> request_typed q) by (by intros q [= <-]).
  pose proof (acquire_cases _ _ _ _ _ _ _ (si_mapping _ Hs) Hty' (si_lease_ids _ Hs) (si_bound _ Hs)
    (fun k c => chunk_leases_u32 s k c Hs) E) as H.
  destruct r as [e|mp']; intros [= <-].
  - cbn. intros Eh. apply (f_equal length) in Eh. cbn in Eh. lia.
  - destruct H as (q & k & c & [= <-] & Hq & -> & -> & ->). intros [= <- <-]. exists k, c. done.
Qed.



(** C15. The counters of the module count what they name: mapped and assigned
    chunks, the chunk being mapped (at most one), the eviction batches in
    progress, the leases its callers have not released in all and on each
    chunk, and the threads waiting for an eviction to drain. *)
Theorem counters_exact s (m := module s) :
  reachable s ->
  assigned_chunks m = Z.of_nat (count chunk_assigned (chunks m)) /\
  usable_chunks m = Z.of_nat (count chunk_mapped (chunks m)) /\
  active_mapping_claims m = Z.of_nat (count chunk_mapping (chunks m)) /\
  active_mapping_claims m <= 1 /\
  active_eviction_claims m = Z.of_nat (size (eviction_ids (chunks m))) /\
  active_io_leases m = Z.of_nat (lease_count live (leases s)) /\
  (forall k c, chunks m !! k = Some c ->
     ck_active_io_leases c = Z.of_nat (lease_count (live_on k) (leases s))) /\
  active_eviction_waits m = Z.of_nat (waiting s).
Proof.
  intros Hr. pose proof (reachable_system_inv s Hr) as Hs. pose proof (si_mapping _ Hs) as Hm.
  split; [apply Hm|]. split; [apply Hm|].
  assert (Hc : active_mapping_claims m = Z.of_nat (count chunk_mapping (chunks m)) /\ active_mapping_claims m <= 1).
  { destruct (v_claim _ Hm) as [E _ Hno|k c E Hk Es _ _ _ Hu]; unfold m; rewrite E.
    - rewrite count_zero; [done|]. intros c [k Hk]%list_elem_of_lookup.
      apply bool_decide_eq_false_2. eauto.
    - rewrite (count_unique _ _ k c); [done|done|by apply bool_decide_eq_true_2|].
      intros k' c' Hk' Hs'%bool_decide_eq_true_1. eauto. }
  destruct Hc as [Hc1 Hc2]. split_and!; try done; [apply Hm|by apply lease_total_live|apply Hs|apply Hs].
Qed.

Lemma counters_exact_witness :
  active_io_leases (module ex_evicting) = 1 /\
  active_io_leases (module ex_evicting) = Z.of_nat (lease_count live (leases ex_evicting)).
Proof.
  split; [vm_compute; reflexivity|].
  destruct (counters_exact ex_evicting ex_evicting_reachable) as (_ & _ & _ & _ & _ & H & _). exact H.
Defined.

(** ** Evictions *)

(** C16. Finishing an eviction is safe: when it succeeds, no caller holds a lease
    on a chunk of the batch; each chunk of the batch is left unmapped, under a
    mapping generation never used before and with none of its sectors valid,
    and every other chunk and its sectors are untouched. *)
Theorem eviction_finish_safe s cl m' (m := module s) (id := ec_claim_id cl) :
  reachable s -> is_remote_chunk_eviction_finish m (Some cl) = (m', 0) ->
  (forall a l k c, leases s !! a = Some l -> live l = true -> chunks m !! k = Some c ->
     ls_logical_chunk l = Z.of_nat k -> ck_eviction_claim_id c <> id) /\
  (forall k c, chunks m !! k = Some c -> ck_eviction_claim_id c = id ->
     exists g, next_mapping_generation m < g /\ chunks m' !! k = Some (reset_chunk g true c) /\
       forall x, 0 <= x -> x / SPC = Z.of_nat k -> sector_valid (valid_sectors m') x = false) /\
  (forall k c, chunks m !! k = Some c -> ck_eviction_claim_id c <> id ->
     chunks m' !! k = Some c /\
       forall x, 0 <= x -> x / SPC = Z.of_nat k ->
         sector_valid (valid_sectors m') x = sector_valid (valid_sectors m) x).
Proof.
  intros Hr E. pose proof (reachable_system_inv s Hr) as Hs. pose proof (si_mapping _ Hs) as Hm. fold m in Hm.
  destruct (eviction_finish_result _ _ _ Hm E) as (Ev & Ed & _ & _ & _ & m1 & Hrr & ->).
  change (is_remote_chunk_eviction_claim_decode (Some cl)) with cl in *.
  pose proof (proj1 (eviction_drained_spec m cl Hm) Ed) as Hd.
  assert (Hat : forall k c x, chunks m !! k = Some c -> 0 <= x -> x / SPC = Z.of_nat k ->
    chunk_at m (x / SPC) = c /\ in_sectors 0 (chunk_count m * SPC) x = true).
  { intros k c x Hk H0 Hx. split; [unfold chunk_at; rewrite Hx; by apply nth_at|].
    apply lookup_lt_Some in Hk. pose proof (v_length _ Hm). unfold in_sectors, SPC in *.
    apply andb_true_iff. split; [by apply Z.leb_le|]. apply Z.ltb_lt. Z.div_mod_to_equations. lia. }
  split; [|split].
  - intros a l k c Ha Hl Hk El Eid. specialize (Hd k c Hk Eid). rewrite (si_leases _ Hs k c Hk) in Hd.
    pose proof (lease_count_lookup (live_on k) a l _ Ha) as Hc.
    unfold live in Hl. unfold live_on at 1 in Hc. rewrite El, Z.eqb_refl, Hl in Hc. cbn [b2n andb] in Hc. lia.
  - intros k c Hk Eid. pose proof (rr_chunk _ _ _ _ Hrr k c Hk) as H.
    unfold eviction_member in H. fold id in H. rewrite Eid, Z.eqb_refl in H.
    destruct H as (g & Hg & H). exists g. split; [lia|]. split; [done|].
    intros x H0 Hx. cbn. rewrite (rr_valid _ _ _ _ Hrr). destruct (Hat k c x Hk H0 Hx) as [-> ->].
    unfold eviction_member. fold id. by rewrite Eid, Z.eqb_refl.
  - intros k c Hk Eid. pose proof (rr_chunk _ _ _ _ Hrr k c Hk) as H.
    apply Z.eqb_neq in Eid. unfold eviction_member in H. fold id in H. rewrite Eid in H.
    split; [done|]. intros x H0 Hx. cbn. rewrite (rr_valid _ _ _ _ Hrr). destruct (Hat k c x Hk H0 Hx) as [-> ->].
    unfold eviction_member. fold id. by rewrite Eid.
Qed.

Lemma eviction_finish_safe_witness :
  sector_valid (valid_sectors (module ex_drained)) 62 = true /\
  sector_valid (valid_sectors (is_remote_chunk_eviction_finish (module ex_drained) (Some ex_eviction)).1) 62 = false.
Proof.
  split; [vm_compute; reflexivity|].
  assert (Hc : exists c, chunks (module ex_drained) !! 0%nat = Some c /\ ck_eviction_claim_id c = ec_claim_id ex_eviction).
  { eexists. split; [vm_compute; reflexivity|vm_compute; reflexivity]. }
  destruct Hc as (c & Hc & Eid).
  destruct (eviction_finish_safe ex_drained ex_eviction
    (is_remote_chunk_eviction_finish (module ex_drained) (Some ex_eviction)).1 ex_drained_reachable) as (_ & H & _).
  - apply result_is. vm_compute. reflexivity.
  - destruct (H 0%nat c Hc Eid) as (g & _ & _ & Hx). apply Hx; [lia|reflexivity].
Defined.

(** C17. An eviction can always be completed: whatever leases are outstanding,
    they can all be resolved and released, in however many calls, and then the
    claim finishes, unless the 64-bit generation counter is exhausted. *)
Theorem eviction_can_finish s cl (m := module s) :
  reachable s -> is_remote_chunk_eviction_claim_validate_locked m cl = 0 ->
  next_mapping_generation m <= ID_MAX - ec_chunk_count cl ->
  exists cs s' m', Forall retiring cs /\ perform_all s cs = Some s' /\
    is_remote_chunk_eviction_finish (module s') (Some cl) = (m', 0).
Proof.
  intros Hr Hv Hg. pose proof (reachable_system_inv s Hr) as Hs.
  destruct (retire_all s Hs) as (cs & s' & Hcs & Hp & Hs' & Ec & Ez).
  assert (Hv' : is_remote_chunk_eviction_claim_validate_locked (module s') cl = 0).
  { by rewrite <- eviction_validate_core, Ec, eviction_validate_core. }
  assert (Hg' : next_mapping_generation (module s') <= ID_MAX - ec_chunk_count cl).
  { apply (f_equal next_mapping_generation) in Ec. cbn in Ec. by rewrite Ec. }
  pose proof (eviction_finish_answers s' cl Hs' Hv' Ez Hg') as Hf.
  destruct (is_remote_chunk_eviction_finish _ _) as [m' r] eqn:E. cbn in Hf. subst r.
  exists cs, s', m'. done.
Qed.

Lemma eviction_can_finish_witness :
  active_io_leases (module ex_evicting) <> 0 /\
  exists cs s' m', Forall retiring cs /\ perform_all ex_evicting cs = Some s' /\
    is_remote_chunk_eviction_finish (module s') (Some ex_eviction) = (m', 0).
Proof.
  split; [vm_compute; discriminate|]. apply eviction_can_finish.
  - apply ex_evicting_reachable.
  - vm_compute. reflexivity.
  - vm_compute. discriminate.
Defined.

(** The wait for an eviction to drain returns: whatever other threads do to
    the module between its turns, it leaves the loop no later than the first
    turn that sees the deadline passed, and no later than the first turn that
    sees the batch drained.  It reports success exactly when the claim was
    valid and drained in the turn it left, and a timeout only past the deadline
    with leases still there. *)
Theorem eviction_wait_returns world clock sleep cl deadline n :
  deadline <= clock n ->
  exists i st,
    eviction_wait_loop (S n) 0 world clock sleep cl deadline = Some (i, st) /\
    (i <= n)%nat /\
    (forall j, (j < i)%nat -> clock j < deadline /\
       is_remote_chunk_eviction_drained_locked (world j) cl = false) /\
    (st = 0 <-> is_remote_chunk_eviction_claim_validate_locked (world i) cl = 0 /\
                is_remote_chunk_eviction_drained_locked (world i) cl = true).
Proof.
  intros Hn.
  cut (forall k i, (i + k = n)%nat ->
    (forall j, (j < i)%nat -> clock j < deadline /\
       is_remote_chunk_eviction_drained_locked (world j) cl = false) ->
    exists i' st, eviction_wait_loop (S k) i world clock sleep cl deadline = Some (i', st) /\ (i' <= n)%nat /\
      (forall j, (j < i')%nat -> clock j < deadline /\
         is_remote_chunk_eviction_drained_locked (world j) cl = false) /\
      (st = 0 <-> is_remote_chunk_eviction_claim_validate_locked (world i') cl = 0 /\
                  is_remote_chunk_eviction_drained_locked (world i') cl = true)).
  { intros H. apply (H n 0%nat); [done|]. intros j Hj. lia. }
  induction k as [|k IH]; intros i Hi Hbefore; cbn [eviction_wait_loop].
  all: destruct (eviction_wait_poll _ _ _ _) as [st|] eqn:E;
    [exists i, st; apply wait_poll_Some in E; split_and!; done || lia|].
  all: apply wait_poll_None in E as [Hlt Hd].
  - replace i with n in * by lia. lia.
  - destruct (Z.eqb_spec (sleep i) 0) as [Es|Es]; cbn [negb].
    + apply IH; [lia|]. intros j Hj. destruct (decide (j = i)) as [->|]; [done|apply Hbefore; lia].
    + exists i, (sleep i). rewrite Hd. split_and!; try done; lia.
Qed.

Lemma eviction_wait_returns_witness :
  exists i st,
    eviction_wait_loop 4 0 (fun _ => module ex_evicting) (fun i => Z.of_nat i * 10) (fun _ => 0)
      ex_eviction 25 = Some (i, st) /\ (i <= 3)%nat.
Proof.
  destruct (eviction_wait_returns (fun _ => module ex_evicting) (fun i => Z.of_nat i * 10) (fun _ => 0)
    ex_eviction 25 3 ltac:(cbn; lia)) as (i & st & H1 & H2 & _). exists i, st. split; [exact H1|exact H2].
Defined.

(** ** Claims and placement *)

Definition ex_once : is_remote_chunk_module :=
  (is_remote_chunk_mapping_finish (module ex_claimed) (Some ex_claim)
     IS_REMOTE_CHUNK_MAPPING_FINISH_COMMIT ex_handle (Some [ex_grant]) 1).1.
Definition ex_claimed_twice : system := ex_claimed <| module := ex_once |>.

(** A mapping claim takes effect at most once: after it was committed or
    aborted, presenting it again, after any sequence of other calls and with
    any grants, neither commits nor aborts anything and changes nothing. *)
Theorem mapping_claim_once s cl action h gs n m1 r1 cs s2 action' h' gs' n' m3 r2 :
  reachable s -> grants_typed gs ->
  is_remote_chunk_mapping_finish (module s) cl action h gs n = (m1, r1) -> finishes r1 ->
  Forall call_typed cs -> perform_all (s <| module := m1 |>) cs = Some s2 -> grants_typed gs' ->
  is_remote_chunk_mapping_finish (module s2) cl action' h' gs' n' = (m3, r2) ->
  ~ finishes r2 /\ m3 = module s2.
Proof.
  intros Hr Hty E1 Hf Hcs Hp Hty' E2. pose proof (reachable_system_inv s Hr) as Hs.
  assert (Hp1 : perform s (Finish_mapping cl action h gs n) = Some (s <| module := m1 |>)).
  { unfold perform. by rewrite E1. }
  assert (Hs1 : system_inv (s <| module := m1 |>)) by exact (perform_inv _ (Finish_mapping cl action h gs n) _ Hs Hty Hp1).
  pose proof (finish_spends _ _ _ _ _ _ _ _ (si_mapping _ Hs) Hty E1 Hf) as Hsp.
  pose proof (spent_calls _ _ _ _ Hs1 Hcs Hp Hsp) as Hsp2.
  pose proof (perform_all_inv _ _ _ Hs1 Hcs Hp) as Hs2.
  by apply (spent_refused _ _ _ _ _ _ _ _ (si_mapping _ Hs2) Hty' Hsp2 E2).
Qed.

Lemma mapping_claim_once_witness :
  ~ finishes (is_remote_chunk_mapping_finish (module ex_claimed_twice) (Some ex_claim)
      IS_REMOTE_CHUNK_MAPPING_FINISH_ABORT ex_handle None 0).2.
Proof.
  eapply (mapping_claim_once ex_claimed (Some ex_claim) IS_REMOTE_CHUNK_MAPPING_FINISH_COMMIT ex_handle
    (Some [ex_grant]) 1 ex_once IS_REMOTE_CHUNK_MAPPING_FINISH_COMMITTED [] ex_claimed_twice
    IS_REMOTE_CHUNK_MAPPING_FINISH_ABORT ex_handle None 0).
  - apply ex_claimed_reachable.
  - intros gs [= <-]. constructor; [|constructor]. unfold grant_typed, in_u. cbn. lia.
  - unfold ex_once. apply result_is. vm_compute. reflexivity.
  - left. reflexivity.
  - constructor.
  - reflexivity.
  - discriminate.
  - apply result_is. reflexivity.
Defined.

(** C18. Placement is sound: the request is for the first chunk that wants a
    mapping (in remote-only mode any unmapped chunk, otherwise one at or above
    the hot threshold); the provider chosen is of the roster, has not failed,
    and last reported itself eligible; and with the new chunk it still holds no
    more chunks than it held when it last reported plus the number it then
    offered. *)
Theorem placement_sound s env m' req (m := module s) :
  reachable s -> is_remote_chunk_next_mapping env m = (m', inr req) ->
  (exists i p, providers m !! i = Some p /\ pr_handle p = mr_provider req /\
     pr_failed p = false /\ pr_has_observation p = true /\ pr_placement_eligible p = true /\
     Z.of_nat (count (chunk_of_provider (pr_handle p)) (chunks m')) <=
       pr_observation_debited_chunks p + pr_reported_available_chunks p) /\
  0 <= mr_logical_chunk req < chunk_count m /\
  wants_mapping m (chunk_at m (mr_logical_chunk req)) = true /\
  (forall k, 0 <= k < mr_logical_chunk req -> wants_mapping m (chunk_at m k) = false) /\
  mr_claim req = active_mapping_claim m' /\ active_mapping_claims m' = 1.
Proof.
  intros Hr E. subst m. pose proof (reachable_system_inv s Hr) as Hs. pose proof (si_mapping _ Hs) as Hm.
  destruct (next_mapping_inv _ _ _ _ Hm (si_arrays _ Hs) E) as [Hm' _].
  destruct (next_mapping_cases _ _ _ _ Hm (si_arrays _ Hs) E) as
    (m1 & i & Hsc & _ & [Hi Hroom] & _ & _ & Hk & Hp & Ecr).
  apply find_below_Some in Hk as (Hk & Hwant & Hfirst).
  assert (Hm1 : mapping_inv m1) by (by apply (mapping_inv_frame (module s)), Hm; apply scratch_core).
  apply create_result in Ecr; [|done|lia]. destruct Ecr as (c & _ & _ & _ & _ & _ & _ & _ & Ecl & Em').
  pose proof (ri_length _ (v_roster _ Hm)) as Hlen.
  assert (Hip : providers (module s) !! Z.to_nat i = Some (provider_at (module s) i)) by (apply lookup_at; lia).
  destruct (effective_available_room (module s) _ _ Hm Hip Hroom) as (F1 & F2 & F3 & _).
  split_and!; try done; try lia.
  - exists (Z.to_nat i), (provider_at (module s) i). split_and!; try done.
    apply (v_capacity _ Hm' (Z.to_nat i)). rewrite Em'. by destruct Hsc as (a & b & r & ->).
  - by rewrite Em'.
  - by rewrite Em'.
Qed.

Lemma placement_sound_witness :
  exists req, (is_remote_chunk_next_mapping ex_random (module ex_ready)).2 = inr req /\
    wants_mapping (module ex_ready) (chunk_at (module ex_ready) (mr_logical_chunk req)) = true.
Proof.
  destruct (is_remote_chunk_next_mapping ex_random (module ex_ready)) as [m' [r|req]] eqn:E.
  - exfalso. revert E. vm_compute. discriminate.
  - exists req. split; [reflexivity|].
    destruct (placement_sound ex_ready ex_random m' req ex_ready_reachable E) as (_ & _ & H & _). exact H.
Defined.

(** ** Leases *)

(** The sectors the bitmap holds, as a set. *)
Definition sectors_of (v : gmap Z Z) : propset Z := {[ x | sector_valid v x = true ]}.
Definition sector_range (first n : Z) : propset Z := {[ x | first <= x < first + n ]}.

(** C19. The bitmap of 64-bit words with its masks implements a set of sectors:
    on every range of a device of at most 2^40 sectors, setting adds the range
    to the set, clearing removes it, and testing asks whether the set contains
    it. *)
Theorem validity_refines v first n :
  0 <= first -> 0 < n -> first + n <= 2 ^ 40 ->
  sectors_of (is_remote_chunk_validity_update v first n true) ≡ sectors_of v ∪ sector_range first n /\
  sectors_of (is_remote_chunk_validity_update v first n false) ≡ sectors_of v ∖ sector_range first n /\
  (is_remote_chunk_validity_test v first n = true <-> sector_range first n ⊆ sectors_of v).
Proof.
  intros H1 H2 H3.
  assert (Hin : forall x, in_sectors first n x = true <-> x ∈ sector_range first n).
  { intros x. unfold in_sectors, sector_range. rewrite elem_of_PropSet, andb_true_iff, Z.leb_le, Z.ltb_lt. done. }
  assert (Hv : forall w x, x ∈ sectors_of w <-> sector_valid w x = true) by done.
  split_and!.
  - intros x. rewrite elem_of_union, !Hv, <- Hin, validity_update_spec by done.
    destruct (in_sectors first n x); clear; intuition congruence.
  - intros x. rewrite elem_of_difference, !Hv, <- Hin, validity_update_spec by done.
    destruct (in_sectors first n x); clear; intuition congruence.
  - rewrite validity_test_spec by done. split.
    + intros H x Hx. apply Hv, H. by apply elem_of_PropSet in Hx.
    + intros H x Hx. apply Hv, H. by apply elem_of_PropSet.
Qed.

Lemma validity_refines_witness :
  sectors_of (is_remote_chunk_validity_update ∅ 60 8 true) ≡ sectors_of ∅ ∪ sector_range 60 8.
Proof.
  destruct (validity_refines ∅ 60 8 ltac:(lia) ltac:(lia) ltac:(vm_compute; discriminate)) as [H _]. exact H.
Defined.

(** A lease goes through its life once and cannot get stuck: while it is
    unresolved it resolves with every outcome and does not release; resolved,
    it refuses a second outcome and releases; released, it refuses both.  This
    holds while quiescing, evicting and after the provider failed. *)
Theorem lease_lifecycle s a l outcome (m := module s) :
  reachable s -> leases s !! a = Some l -> 1 <= outcome <= 4 ->
  let resolve := (is_remote_chunk_io_lease_resolve m a l outcome).1.2 in
  let release := (is_remote_chunk_io_lease_release m a l).2 in
  (ls_state l = 0 /\ resolve = 0 /\ release <> 0) \/
  (ls_state l = 1 /\ resolve <> 0 /\ release = 0) \/
  (ls_state l = 3 /\ resolve <> 0 /\ release <> 0).
Proof.
  intros Hr Ha Ho. pose proof (reachable_system_inv s Hr) as Hs. pose proof (si_storage _ Hs _ _ Ha) as Hl.
  subst m. cbv zeta.
  destruct (is_remote_chunk_io_lease_resolve (module s) a l outcome) as [[[m1 l1] r1] x1] eqn:E1.
  destruct (is_remote_chunk_io_lease_release (module s) a l) as [[m2 l2] r2] eqn:E2. cbn [fst snd].
  pose proof (resolve_cases _ _ _ _ _ _ _ _ Hl E1) as H1. pose proof (release_cases _ _ _ _ _ _ Hl E2) as H2.
  destruct (lo_state _ _ _ Hl) as [E|[E|E]].
  - left. pose proof (resolve_answers _ _ _ outcome Hl E Ho) as Hx. rewrite E1 in Hx. cbn in Hx.
    split_and!; try done. intros ->. rewrite decide_True in H2 by done. destruct H2 as (? & _). congruence.
  - right. left. destruct (release_answers s a l Hs Ha E) as [Hx _]. rewrite E2 in Hx. cbn in Hx.
    split_and!; try done. intros ->. rewrite decide_True in H1 by done. destruct H1 as (? & _). congruence.
  - right. right. split_and!; [done| |].
    + intros ->. rewrite decide_True in H1 by done. destruct H1 as (? & _). congruence.
    + intros ->. rewrite decide_True in H2 by done. destruct H2 as (? & _). congruence.
Qed.

Lemma lease_lifecycle_witness :
  (is_remote_chunk_io_lease_resolve (module ex_writing) 4096
     (ex_lease 4096 1 60 8 IS_REMOTE_CHUNK_IO_WRITE) IS_REMOTE_CHUNK_IO_SUCCESS).1.2 = 0.
Proof.
  destruct (lease_lifecycle ex_writing 4096 (ex_lease 4096 1 60 8 IS_REMOTE_CHUNK_IO_WRITE)
    IS_REMOTE_CHUNK_IO_SUCCESS) as [(_ & H & _)|[(H & _)|(H & _)]].
  - apply ex_writing_reachable.
  - vm_compute. reflexivity.
  - unfold IS_REMOTE_CHUNK_IO_SUCCESS. lia.
  - exact H.
  - discriminate H.
  - discriminate H.
Defined.

(** A granted transfer stays inside the chunk's provider region: the sectors
    of the lease, translated to remote addresses, lie within the gigabyte
    granted for the chunk, and no address wraps around. *)
Theorem lease_in_region s rq a s' l mp :
  reachable s -> request_typed rq -> perform s (Acquire (Some rq) a) = Some s' ->
  history s' = Acquired l mp :: history s ->
  exists k c, chunks (module s) !! k = Some c /\ ck_state c = MAPPED /\
    tm_provider mp = ck_provider c /\ tm_remote_key mp = ck_remote_key c /\
    ls_sector_count l * 512 = rq_bytes rq /\
    0 < ck_remote_address c <= tm_remote_address mp /\
    tm_remote_address mp + rq_bytes rq <= ck_remote_address c + 1073741824 /\
    ck_remote_address c + 1073741824 <= 2 ^ 64.
Proof.
  intros Hr Hty Hp Hh. pose proof (reachable_system_inv s Hr) as Hs. pose proof (si_mapping _ Hs) as Hm.
  destruct (acquire_granted _ _ _ _ _ _ Hr Hty Hp Hh) as (k & c & Hq & -> & -> & _).
  exists k, c. pose proof Hq as [_ [Hb Hmod] _ Hrange _ _ Hk Es _ _].
  destruct (v_chunk _ Hm _ _ Hk) as [_ Hok]. rewrite Es in Hok. destruct Hok as (_ & _ & _ & (Ha & _)).
  destruct Hty as [[H0 _] _]. cbn. unfold IS_REMOTE_CHUNK_SECTOR_BYTES, SPC, ID_MAX in *.
  change (2 ^ 64) with 18446744073709551616.
  pose proof (Z.mod_pos_bound (rq_sector rq) 2097152 ltac:(lia)).
  assert (Hb' : rq_bytes rq / 512 * 512 = rq_bytes rq) by (Z.div_mod_to_equations; lia).
  split_and!; try done; try lia.
Qed.

Lemma lease_in_region_witness :
  exists k c, chunks (module ex_mapped) !! k = Some c /\ ck_state c = MAPPED /\
    1073772544 + 4096 <= ck_remote_address c + 1073741824.
Proof.
  destruct (lease_in_region ex_mapped ex_write 4096 ex_writing
    (ex_lease 4096 1 60 8 IS_REMOTE_CHUNK_IO_WRITE) (ex_mapping 1073772544))
    as (k & c & H1 & H2 & _ & _ & _ & _ & H3 & _).
  - apply ex_mapped_reachable.
  - unfold request_typed, in_u. cbn. lia.
  - apply run_step. vm_compute. reflexivity.
  - vm_compute. reflexivity.
  - exists k, c. split; [exact H1|]. split; [exact H2|exact H3].
Defined.

(** ** Failure and shutdown *)

(** C20. Losing a provider invalidates exactly its chunks: each gets a new mapping
    generation, is unmapped and has no valid sector; the chunks of other
    providers keep everything; the outcome of a transfer still in flight on a
    lost chunk is stale and makes nothing valid; and the facts reported count
    the chunks that were lost. *)
Theorem provider_failure_isolated s h m' facts (m := module s) :
  reachable s ->
  is_remote_chunk_provider_failed m h = (m', facts, IS_REMOTE_CHUNK_PROVIDER_FAILURE_APPLIED) ->
  (forall k c, chunks m !! k = Some c -> chunk_of_provider h c = true ->
     exists g, next_mapping_generation m < g /\ chunks m' !! k = Some (reset_chunk g false c) /\
       (forall x, 0 <= x -> x / SPC = Z.of_nat k -> sector_valid (valid_sectors m') x = false) /\
       forall a l outcome, leases s !! a = Some l -> ls_logical_chunk l = Z.of_nat k ->
         ck_mapping_generation (chunk_at m' (ls_logical_chunk l)) <> ls_mapping_generation l /\
         resolve_sectors m' l outcome = valid_sectors m') /\
  (forall k c, chunks m !! k = Some c -> chunk_of_provider h c = false ->
     chunks m' !! k = Some c /\
     forall x, 0 <= x -> x / SPC = Z.of_nat k ->
       sector_valid (valid_sectors m') x = sector_valid (valid_sectors m) x) /\
  ff_affected_chunks facts = Z.of_nat (count (chunk_of_provider h) (chunks m)).
Proof.
  subst m. intros Hr E. pose proof (reachable_system_inv s Hr) as Hs. pose proof (si_mapping _ Hs) as Hm.
  pose proof (provider_failed_cases _ _ _ _ _ Hm E) as H. rewrite decide_True in H by done.
  destruct (fr_reset _ _ _ _ H) as (m1 & Hrr & E1 & E2 & E3).
  assert (Hat : forall k c x, chunks (module s) !! k = Some c -> 0 <= x -> x / SPC = Z.of_nat k ->
    sector_valid (valid_sectors m') x = negb (chunk_of_provider h c) && sector_valid (valid_sectors (module s)) x).
  { intros k c x Hk H0 Hx. rewrite E3, (rr_valid _ _ _ _ Hrr).
    assert (chunk_at (module s) (x / SPC) = c) as -> by (unfold chunk_at; rewrite Hx; by apply nth_at).
    assert (in_sectors 0 (chunk_count (module s) * SPC) x = true) as ->; [|done].
    apply lookup_lt_Some in Hk. pose proof (v_length _ Hm). unfold in_sectors, SPC in *.
    apply andb_true_iff. split; [by apply Z.leb_le|]. apply Z.ltb_lt. Z.div_mod_to_equations. lia. }
  split; [|split].
  - intros k c Hk Ec. pose proof (rr_chunk _ _ _ _ Hrr k c Hk) as Hc. rewrite Ec in Hc.
    destruct Hc as (g & Hg & Hc). rewrite <- E1 in Hc. exists g. split; [lia|]. split; [done|]. split.
    + intros x H0 Hx. by rewrite (Hat k c x Hk H0 Hx), Ec.
    + intros a l o Ha El. pose proof (lo_generation _ _ _ (si_storage _ Hs _ _ Ha)) as Hlg.
      assert (Hne : ck_mapping_generation (chunk_at m' (ls_logical_chunk l)) <> ls_mapping_generation l).
      { unfold chunk_at. rewrite El. rewrite (nth_at _ k _ _ Hc). cbn. lia. }
      split; [done|]. unfold resolve_sectors. by apply Z.eqb_neq in Hne as ->.
  - intros k c Hk Ec. pose proof (rr_chunk _ _ _ _ Hrr k c Hk) as Hc. rewrite Ec in Hc. rewrite E1.
    split; [done|]. intros x H0 Hx. by rewrite (Hat k c x Hk H0 Hx), Ec.
  - by rewrite (fr_facts _ _ _ _ H).
Qed.

Lemma provider_failure_isolated_witness :
  exists m' facts, is_remote_chunk_provider_failed (module ex_written) ex_handle =
      (m', facts, IS_REMOTE_CHUNK_PROVIDER_FAILURE_APPLIED) /\
    ff_affected_chunks facts = Z.of_nat (count (chunk_of_provider ex_handle) (chunks (module ex_written))).
Proof.
  destruct (is_remote_chunk_provider_failed (module ex_written) ex_handle) as [[m' facts] r] eqn:E.
  assert (r = IS_REMOTE_CHUNK_PROVIDER_FAILURE_APPLIED) as ->.
  { change r with (m', facts, r).2. rewrite <- E. vm_compute. reflexivity. }
  exists m', facts. split; [reflexivity|].
  destruct (provider_failure_isolated ex_written ex_handle m' facts ex_written_reachable E) as (_ & _ & H). exact H.
Defined.

(** Destruction frees the module exactly when nothing refers to it: no lease
    is unreleased, no chunk is being mapped or evicted, and no thread waits.
    Otherwise it is refused, and the module admits no new work. *)
Theorem destroy_iff_idle s (m := module s) :
  reachable s ->
  (is_remote_chunk_module_destroy m = (None, 0) <->
     (forall a l, leases s !! a = Some l -> live l = false) /\
     (forall k c, chunks m !! k = Some c -> ck_state c <> MAPPING /\ ck_state c <> EVICTING) /\
     waiting s = 0%nat) /\
  (is_remote_chunk_module_destroy m <> (None, 0) ->
     exists m', is_remote_chunk_module_destroy m = (Some m', - EBUSY) /\ quiescing m' = true).
Proof.
  intros Hr. pose proof (reachable_system_inv s Hr) as Hs. subst m. pose proof (si_mapping _ Hs) as Hm.
  assert (Hl : active_io_leases (module s) = 0 <-> forall a l, leases s !! a = Some l -> live l = false).
  { rewrite <- lease_count_zero. rewrite (lease_total_live s Hs). lia. }
  assert (Hc : active_mapping_claims (module s) = 0 /\ active_eviction_claims (module s) = 0 <->
    forall k c, chunks (module s) !! k = Some c -> ck_state c <> MAPPING /\ ck_state c <> EVICTING).
  { by apply idle_claims. }
  assert (Hw : active_eviction_waits (module s) = 0 <-> waiting s = 0%nat) by (rewrite (proj1 (si_waits _ Hs)); lia).
  rewrite <- Hl, <- Hc, <- Hw. unfold is_remote_chunk_module_destroy. cbv zeta.
  match goal with |- context [if ?b then _ else _] => destruct b eqn:E end.
  - split.
    + split; [done|]. intros (E1 & (E2 & E3) & E4). cbn in E. by rewrite E1, E2, E3, E4 in E.
    + intros _. eexists. split; [done|]. unfold is_remote_chunk_note_invariant_locked. by case_match.
  - split; [|done]. split; [|done]. intros _. cbn in E. rewrite !orb_false_iff, !negb_false_iff, !Z.eqb_eq in E.
    by destruct E as [[[? ?] ?] ?].
Qed.

Lemma destroy_iff_idle_witness :
  is_remote_chunk_module_destroy (module ex_written) = (None, 0) /\
  (is_remote_chunk_module_destroy (module ex_writing)).2 = - EBUSY.
Proof.
  split.
  - destruct (destroy_iff_idle ex_written ex_written_reachable) as [H _]. apply H. clear H. split_and!.
    + apply (lease_count_zero live). vm_compute. reflexivity.
    + apply idle_claims; [apply si_mapping, reachable_system_inv, ex_written_reachable|]. vm_compute. done.
    + vm_compute. reflexivity.
  - vm_compute. reflexivity.
Defined.

(** Diagnostics never fail for an internal reason and are exact: a snapshot
    of a reachable module succeeds when its memory is allocated, and its
    counts and placements are those of the chunks. *)
Theorem snapshot_exact s (m := module s) :
  reachable s ->
  exists sn, is_remote_chunk_snapshot_take true m = inr sn /\
    sn_mapping_chunks sn = Z.of_nat (count chunk_mapping (chunks m)) /\
    sn_evicting_chunks sn = Z.of_nat (count chunk_evicting (chunks m)) /\
    sn_hot_ranges sn = Z.of_nat (count (chunk_hot m) (chunks m)) /\
    sn_mapping_candidates sn = Z.of_nat (count (fun c => chunk_hot m c && chunk_unmapped c) (chunks m)) /\
    sn_providers sn = map (provider_entry m (chunks m)) (providers m) /\
    sn_placements sn = placements_below m (chunk_count m).
Proof.
  intros Hr. pose proof (reachable_system_inv s Hr) as Hs. subst m.
  exists (snapshot_below (module s) (chunk_count (module s))). split; [by apply snapshot_total|].
  pose proof (v_length _ (si_mapping _ Hs)). cbn. rewrite (take_ge (chunks (module s))) by lia. done.
Qed.

Lemma snapshot_exact_witness :
  exists sn, is_remote_chunk_snapshot_take true (module ex_evicting) = inr sn /\
    sn_evicting_chunks sn = Z.of_nat (count chunk_evicting (chunks (module ex_evicting))).
Proof.
  destruct (snapshot_exact ex_evicting ex_evicting_reachable) as (sn & H1 & _ & H2 & _).
  exists sn. split; [exact H1|exact H2].
Defined.
