(* ===== verification/Auth.v ===== *)
(** * Consumer authentication (src/infiniswap_daemon/infiniswap_auth.c, .h)

    The registry of credentials, its listeners, authorization versions, the
    verification of an authentication tag, and the credential file.  The
    registry's mutex makes every operation a function; the callbacks an
    operation makes are part of its result, as the contexts they are called
    with.  HMAC-SHA256 is OpenSSL's, a parameter.  The clock is an argument. *)
From Stdlib Require Import Strings.String Strings.Ascii.
From S2P Require Import Prelude Protocol Text.

(** ** Constants and data *)

Definition IS_AUTH_SECRET_MIN_SIZE : Z := 32.
Definition IS_AUTH_SECRET_MAX_SIZE : Z := 64.
Definition IS_AUTH_MAX_CONSUMERS : Z := 64.
Definition IS_AUTH_MAX_KEY_OVERLAP_SECONDS : Z := 30 * 24 * 60 * 60.

Inductive is_auth_result :=
| IS_AUTH_OK
| IS_AUTH_INVALID_ARGUMENT
| IS_AUTH_FULL
| IS_AUTH_DUPLICATE
| IS_AUTH_NOT_FOUND
| IS_AUTH_REVOKED
| IS_AUTH_FAILED
| IS_AUTH_CRYPTO_ERROR
| IS_AUTH_IO_ERROR
| IS_AUTH_FORMAT_ERROR.

#[export] Instance is_auth_result_eq_dec : EqDecision is_auth_result.
Proof. solve_decision. Defined.

(** Character and byte arrays are lists of their declared length. *)
Record is_auth_key := {
  ak_key_id : list Z;
  ak_secret : list Z;
  ak_secret_size : Z
}.

Record is_auth_credential := {
  ac_consumer_id : list Z;
  ac_current : is_auth_key;
  ac_next : is_auth_key;
  ac_next_valid_until_unix : Z;
  ac_max_connections : Z;
  ac_max_opportunistic_chunks : Z;
  ac_max_committed_chunks : Z;
  ac_authorization_version : Z;
  ac_revoked : bool
}.

(** The callback is the one function the daemon subscribes; the context, a
    pointer ([0] is [NULL]), identifies the subscriber. *)
Record is_auth_listener := {
  al_consumer_id : list Z;
  al_context : Z
}.

(** The entries and the listeners in use. *)
Record is_auth_registry := {
  ar_entries : list is_auth_credential;
  ar_listeners : list is_auth_listener;
  ar_next_authorization_version : Z
}.

#[export] Instance is_auth_key_eta : Eta is_auth_key := fun k =>
  {| ak_key_id := ak_key_id k; ak_secret := ak_secret k; ak_secret_size := ak_secret_size k |}.
#[export] Instance is_auth_credential_eta : Eta is_auth_credential := fun c =>
  {| ac_consumer_id := ac_consumer_id c; ac_current := ac_current c; ac_next := ac_next c;
     ac_next_valid_until_unix := ac_next_valid_until_unix c;
     ac_max_connections := ac_max_connections c;
     ac_max_opportunistic_chunks := ac_max_opportunistic_chunks c;
     ac_max_committed_chunks := ac_max_committed_chunks c;
     ac_authorization_version := ac_authorization_version c; ac_revoked := ac_revoked c |}.
#[export] Instance is_auth_registry_eta : Eta is_auth_registry := fun r =>
  {| ar_entries := ar_entries r; ar_listeners := ar_listeners r;
     ar_next_authorization_version := ar_next_authorization_version r |}.

Definition zero_key : is_auth_key :=
  {| ak_key_id := zeros 32; ak_secret := zeros 64; ak_secret_size := 0 |}.
Definition zero_credential : is_auth_credential :=
  {| ac_consumer_id := zeros 64; ac_current := zero_key; ac_next := zero_key;
     ac_next_valid_until_unix := 0; ac_max_connections := 0; ac_max_opportunistic_chunks := 0;
     ac_max_committed_chunks := 0; ac_authorization_version := 0; ac_revoked := false |}.

Definition auth_domain : list Z := chars "Infiniswap control authentication v1".

(** ** Validity of a credential *)

Fixpoint bounded_length_from (value : list Z) (n : nat) (length : Z) : Z :=
  match n with
  | O => length
  | S n' => if byte_at value length =? 0 then length else bounded_length_from value n' (length + 1)
  end.

Definition bounded_length (value : list Z) (maximum : Z) : Z :=
  bounded_length_from value (Z.to_nat (maximum + 1)) 0.

Definition identifier_character (c : Z) : bool :=
  ((97 <=? c) && (c <=? 122)) || ((65 <=? c) && (c <=? 90)) || ((48 <=? c) && (c <=? 57)) ||
  (c =? 46) || (c =? 95) || (c =? 45).

Definition identifier_valid (value : list Z) (maximum : Z) : bool :=
  let length := bounded_length value maximum in
  if (length =? 0) || (maximum <? length) then false
  else negb (exists_below length (fun index => negb (identifier_character (byte_at value index)))).

Definition key_valid (key : is_auth_key) (optional : bool) : bool :=
  if optional && (ak_secret_size key =? 0) && (byte_at (ak_key_id key) 0 =? 0) then true
  else identifier_valid (ak_key_id key) IS_PROTOCOL_KEY_ID_MAX &&
       (IS_AUTH_SECRET_MIN_SIZE <=? ak_secret_size key) &&
       (ak_secret_size key <=? IS_AUTH_SECRET_MAX_SIZE).

(** [strcmp(a, b) == 0] *)
Definition str_equal (a b : list Z) : bool := bool_decide (c_string a = c_string b).

(** [now] is [time(NULL)], negative when the clock fails. *)
Definition credential_valid (now : Z) (c : is_auth_credential) : bool :=
  if negb (identifier_valid (ac_consumer_id c) IS_PROTOCOL_CONSUMER_ID_MAX) ||
     negb (key_valid (ac_current c) false) || negb (key_valid (ac_next c) true)
  then false
  else if negb (ak_secret_size (ac_next c) =? 0) &&
          (str_equal (ak_key_id (ac_current c)) (ak_key_id (ac_next c)) ||
           (ac_next_valid_until_unix c =? 0))
  then false
  else if negb (ak_secret_size (ac_next c) =? 0) &&
          ((now <? 0) || (ac_next_valid_until_unix c <=? now) ||
           (IS_AUTH_MAX_KEY_OVERLAP_SECONDS <? ac_next_valid_until_unix c - now))
  then false
  else if (ak_secret_size (ac_next c) =? 0) && negb (ac_next_valid_until_unix c =? 0) then false
  else if (ac_max_connections c =? 0) || (IS_AUTH_MAX_CONSUMERS <? ac_max_connections c) then false
  else negb (ac_max_opportunistic_chunks c =? 0) || negb (ac_max_committed_chunks c =? 0).

(** ** The registry *)

Definition next_authorization_version (v : Z) : Z :=
  let v := u64 (v + 1) in if v =? 0 then u64 (v + 1) else v.

Definition is_auth_registry_init : is_auth_registry :=
  {| ar_entries := []; ar_listeners := []; ar_next_authorization_version := 0 |}.

Definition is_auth_registry_destroy (r : is_auth_registry) : is_auth_registry :=
  r <| ar_entries := [] |> <| ar_listeners := [] |>.

(** The entry of a consumer: its index, or none. *)
Fixpoint find_entry (entries : list is_auth_credential) (consumer_id : list Z) :
    option is_auth_credential :=
  match entries with
  | [] => None
  | c :: entries' =>
      if str_equal (ac_consumer_id c) consumer_id then Some c else find_entry entries' consumer_id
  end.

Definition find_credential (r : is_auth_registry) (consumer_id : list Z) :
    option is_auth_credential := find_entry (ar_entries r) consumer_id.

(** Stores through the pointer [find_credential] returns. *)
Fixpoint update_entry (f : is_auth_credential -> is_auth_credential)
    (entries : list is_auth_credential) (consumer_id : list Z) : list is_auth_credential :=
  match entries with
  | [] => []
  | c :: entries' =>
      if str_equal (ac_consumer_id c) consumer_id then f c :: entries'
      else c :: update_entry f entries' consumer_id
  end.

Definition is_auth_registry_add (now : Z) (r : is_auth_registry) (credential : is_auth_credential) :
    is_auth_registry * is_auth_result :=
  if negb (credential_valid now credential) then (r, IS_AUTH_INVALID_ARGUMENT)
  else if Z.of_nat (length (ar_entries r)) =? IS_AUTH_MAX_CONSUMERS then (r, IS_AUTH_FULL)
  else
    match find_credential r (ac_consumer_id credential) with
    | Some _ => (r, IS_AUTH_DUPLICATE)
    | None =>
        let v := next_authorization_version (ar_next_authorization_version r) in
        (r <| ar_entries := ar_entries r ++ [credential <| ac_authorization_version := v |>] |>
           <| ar_next_authorization_version := v |>, IS_AUTH_OK)
    end.

(** The contexts of the callbacks made. *)
Definition notify_revocation (r : is_auth_registry) (consumer_id : list Z) : list Z :=
  al_context <$> filter (fun l => str_equal (al_consumer_id l) consumer_id = true) (ar_listeners r).

Definition is_auth_registry_subscribe (r : is_auth_registry) (consumer_id : list Z)
    (authorization_version context : Z) : is_auth_registry * is_auth_result :=
  if context =? 0 then (r, IS_AUTH_INVALID_ARGUMENT) else
  let result :=
    match find_credential r consumer_id with
    | None => IS_AUTH_NOT_FOUND
    | Some credential =>
        if ac_revoked credential then IS_AUTH_REVOKED
        else if (authorization_version =? 0) ||
                negb (ac_authorization_version credential =? authorization_version)
        then IS_AUTH_FAILED
        else if Z.of_nat (length (ar_listeners r)) =? IS_AUTH_MAX_CONSUMERS then IS_AUTH_FULL
        else IS_AUTH_OK
    end in
  if negb (bool_decide (result = IS_AUTH_OK)) then (r, result)
  else if existsb (fun l => al_context l =? context) (ar_listeners r) then (r, IS_AUTH_DUPLICATE)
  else
    (r <| ar_listeners := ar_listeners r ++
            [{| al_consumer_id := c_string consumer_id; al_context := context |}] |>, IS_AUTH_OK).

(** The last listener takes the place of the one removed. *)
Definition is_auth_registry_unsubscribe (r : is_auth_registry) (context : Z) : is_auth_registry :=
  if context =? 0 then r else
  match list_find (fun l => al_context l = context) (ar_listeners r) with
  | None => r
  | Some (index, _) =>
      let count := pred (length (ar_listeners r)) in
      match ar_listeners r !! count with
      | None => r
      | Some last => r <| ar_listeners := take count (<[index := last]> (ar_listeners r)) |>
      end
  end.

(** The registry, the result and the contexts called. *)
Definition is_auth_registry_revoke (r : is_auth_registry) (consumer_id : list Z) :
    is_auth_registry * is_auth_result * list Z :=
  match find_credential r consumer_id with
  | None => (r, IS_AUTH_NOT_FOUND, [])
  | Some _ =>
      let v := next_authorization_version (ar_next_authorization_version r) in
      let r := r <| ar_entries := update_entry (fun c =>
                      c <| ac_revoked := true |> <| ac_authorization_version := v |>)
                      (ar_entries r) consumer_id |>
                 <| ar_next_authorization_version := v |> in
      (r, IS_AUTH_OK, notify_revocation r consumer_id)
  end.

(** The result and the limits: connections, opportunistic and committed chunks. *)
Definition is_auth_registry_get_limits (r : is_auth_registry) (consumer_id : list Z) :
    is_auth_result + Z * Z * Z :=
  match find_credential r consumer_id with
  | None => inl IS_AUTH_NOT_FOUND
  | Some c =>
      if ac_revoked c then inl IS_AUTH_REVOKED
      else inr (ac_max_connections c, ac_max_opportunistic_chunks c, ac_max_committed_chunks c)
  end.

Definition validate_authorization_locked (r : is_auth_registry) (consumer_id : list Z)
    (authorization_version : Z) : is_auth_result :=
  match find_credential r consumer_id with
  | None => IS_AUTH_NOT_FOUND
  | Some c =>
      if ac_revoked c then IS_AUTH_REVOKED
      else if negb (ac_authorization_version c =? authorization_version) then IS_AUTH_FAILED
      else IS_AUTH_OK
  end.

(** When it answers [IS_AUTH_OK] the caller holds the registry's lock until
    [is_auth_registry_end_authorized_operation]. *)
Definition is_auth_registry_begin_authorized_operation (r : is_auth_registry)
    (consumer_id : list Z) (authorization_version : Z) : is_auth_result :=
  if authorization_version =? 0 then IS_AUTH_INVALID_ARGUMENT
  else validate_authorization_locked r consumer_id authorization_version.

Definition is_auth_registry_validate_authorization (r : is_auth_registry)
    (consumer_id : list Z) (authorization_version : Z) : is_auth_result :=
  if authorization_version =? 0 then IS_AUTH_INVALID_ARGUMENT
  else validate_authorization_locked r consumer_id authorization_version.

Definition is_auth_registry_is_revoked (r : is_auth_registry) (consumer_id : list Z) :
    is_auth_result :=
  match find_credential r consumer_id with
  | None => IS_AUTH_NOT_FOUND
  | Some c => if ac_revoked c then IS_AUTH_REVOKED else IS_AUTH_OK
  end.

(** ** Verification of a tag *)

(** [hmac_sha256 secret data], OpenSSL's [EVP_MAC] with HMAC and SHA256 over
    the concatenation of the updates; none when one of its calls fails. *)
Class Mac := hmac_sha256 : list Z -> list Z -> option (list Z).

(** A frame is the bytes of its given size. *)
Definition is_auth_compute_tag `{Mac} (secret : list Z) (secret_size : Z)
    (hello_frame challenge_frame : list Z) : is_auth_result + list Z :=
  let hello_size := Z.of_nat (length hello_frame) in
  let challenge_size := Z.of_nat (length challenge_frame) in
  if (secret_size <? IS_AUTH_SECRET_MIN_SIZE) || (IS_AUTH_SECRET_MAX_SIZE <? secret_size) ||
     (hello_size =? 0) || (IS_PROTOCOL_MAX_FRAME_SIZE <? hello_size) ||
     (challenge_size =? 0) || (IS_PROTOCOL_MAX_FRAME_SIZE <? challenge_size)
  then inl IS_AUTH_INVALID_ARGUMENT
  else
    match hmac_sha256 (take (Z.to_nat secret_size) secret)
            (auth_domain ++ hello_frame ++ challenge_frame) with
    | None => inl IS_AUTH_CRYPTO_ERROR
    | Some tag =>
        if negb (Z.of_nat (length tag) =? IS_PROTOCOL_AUTH_TAG_SIZE) then inl IS_AUTH_CRYPTO_ERROR
        else inr tag
    end.

(** The key an authentication may use, with the time it is good until (0 is
    without end). *)
Definition select_key (now : Z) (credential : is_auth_credential) (key_id : list Z) :
    option (is_auth_key * Z) :=
  if str_equal (ak_key_id (ac_current credential)) key_id then Some (ac_current credential, 0)
  else if (0 <=? now) && negb (ak_secret_size (ac_next credential) =? 0) &&
          (now <? ac_next_valid_until_unix credential) &&
          str_equal (ak_key_id (ac_next credential)) key_id
  then Some (ac_next credential, ac_next_valid_until_unix credential)
  else None.

(** The result, [*authenticated_until_unix] and [*authorization_version]. *)
Definition is_auth_registry_verify `{Mac} (now : Z) (r : is_auth_registry)
    (consumer_id key_id hello_frame challenge_frame tag : list Z) : is_auth_result * Z * Z :=
  match find_credential r consumer_id with
  | None => (IS_AUTH_NOT_FOUND, 0, 0)
  | Some credential =>
      if ac_revoked credential then (IS_AUTH_REVOKED, 0, 0)
      else
        match select_key now credential key_id with
        | None => (IS_AUTH_FAILED, 0, 0)
        | Some (key, authenticated_until_unix) =>
            match is_auth_compute_tag (ak_secret key) (ak_secret_size key)
                    hello_frame challenge_frame with
            | inl result => (result, 0, 0)
            | inr expected =>
                if negb (bool_decide (expected = tag)) then (IS_AUTH_FAILED, 0, 0)
                else (IS_AUTH_OK, authenticated_until_unix, ac_authorization_version credential)
            end
        end
  end.

Definition is_auth_result_name (result : is_auth_result) : string :=
  match result with
  | IS_AUTH_OK => "ok"
  | IS_AUTH_INVALID_ARGUMENT => "invalid argument"
  | IS_AUTH_FULL => "registry full"
  | IS_AUTH_DUPLICATE => "duplicate identity"
  | IS_AUTH_NOT_FOUND => "identity not found"
  | IS_AUTH_REVOKED => "identity revoked"
  | IS_AUTH_FAILED => "authentication failed"
  | IS_AUTH_CRYPTO_ERROR => "cryptographic failure"
  | IS_AUTH_IO_ERROR => "configuration I/O failure"
  | IS_AUTH_FORMAT_ERROR => "configuration format failure"
  end%string.
