(* ===== verification/AuthFile.v ===== *)
(** * The credential file (src/infiniswap_daemon/infiniswap_auth.c)

    The parser of [is_auth_registry_load_file], from the bytes the file
    delivers, and the commit of what it parsed into the registry.  A line or
    a value is the list of its characters, without a NUL; a parser that
    returns 0 is [None], since its caller then discards what was parsed. *)
From Stdlib Require Import Strings.String Strings.Ascii.
From S2P Require Import Prelude Protocol Text Auth.

(** ** Secrets *)

Definition hex_value (c : Z) : Z :=
  if (48 <=? c) && (c <=? 57) then c - 48
  else if (97 <=? c) && (c <=? 102) then c - 97 + 10
  else if (65 <=? c) && (c <=? 70) then c - 65 + 10
  else -1.

Fixpoint hex_bytes (hex : list Z) : option (list Z) :=
  match hex with
  | h :: l :: hex' =>
      let high := hex_value h in
      let low := hex_value l in
      if (high <? 0) || (low <? 0) then None
      else (fun bytes => u8 (Z.lor (Z.shiftl high 4) low) :: bytes) <$> hex_bytes hex'
  | _ => Some []
  end.

Definition decode_secret (hex : list Z) (key : is_auth_key) : option is_auth_key :=
  let hex_size := Z.of_nat (length hex) in
  if (hex_size <? IS_AUTH_SECRET_MIN_SIZE * 2) || (IS_AUTH_SECRET_MAX_SIZE * 2 <? hex_size) ||
     negb (Z.land hex_size 1 =? 0)
  then None
  else
    bytes ← hex_bytes hex;
    Some (key <| ak_secret_size := hex_size / 2 |>
              <| ak_secret := buf_write (ak_secret key) 0 bytes |>).

(** ** Sections and values *)

(** [append_credential]: the entries with the credential added. *)
Definition append_credential (now : Z) (entries : list is_auth_credential)
    (credential : is_auth_credential) : option (list is_auth_credential) :=
  if negb (credential_valid now credential) ||
     (Z.of_nat (length entries) =? IS_AUTH_MAX_CONSUMERS)
  then None
  else if existsb (fun c => str_equal (ac_consumer_id c) (ac_consumer_id credential)) entries
  then None
  else Some (entries ++ [credential]).

Definition prefix : list Z := chars "[consumer:".

Definition start_consumer_section (line : list Z) : option is_auth_credential :=
  let line_size := Z.of_nat (length line) in
  if negb (bool_decide (take 10 line = prefix)) || (line_size <=? 11) ||
     negb (byte_at line (line_size - 1) =? 93)
  then None
  else
    let id_size := line_size - 10 - 1 in
    if (id_size =? 0) || (IS_PROTOCOL_CONSUMER_ID_MAX <? id_size) then None
    else
      let credential := zero_credential
        <| ac_consumer_id := buf_write (zeros 64) 0 (buf_read line 10 id_size) |> in
      if identifier_valid (ac_consumer_id credential) IS_PROTOCOL_CONSUMER_ID_MAX
      then Some credential else None.

Definition credential_field (key : list Z) : option Z :=
  if bool_decide (key = chars "current_key_id") then Some (2 ^ 0)
  else if bool_decide (key = chars "current_psk_hex") then Some (2 ^ 1)
  else if bool_decide (key = chars "next_key_id") then Some (2 ^ 2)
  else if bool_decide (key = chars "next_psk_hex") then Some (2 ^ 3)
  else if bool_decide (key = chars "next_valid_until_unix") then Some (2 ^ 4)
  else if bool_decide (key = chars "max_connections") then Some (2 ^ 5)
  else if bool_decide (key = chars "max_opportunistic_gib") ||
          bool_decide (key = chars "max_opportunistic_chunks") then Some (2 ^ 6)
  else if bool_decide (key = chars "max_committed_gib") ||
          bool_decide (key = chars "max_committed_chunks") then Some (2 ^ 7)
  else if bool_decide (key = chars "revoked") then Some (2 ^ 8)
  else None.

(** [strcpy] of a value into a key's identifier. *)
Definition set_key_id (key : is_auth_key) (value : list Z) : option is_auth_key :=
  if IS_PROTOCOL_KEY_ID_MAX <? Z.of_nat (length value) then None
  else Some (key <| ak_key_id := buf_write (ak_key_id key) 0 (value ++ [0]) |>).

Definition store_field (credential : is_auth_credential) (field : Z) (value : list Z) :
    option is_auth_credential :=
  if field =? 2 ^ 0 then
    (fun k => credential <| ac_current := k |>) <$> set_key_id (ac_current credential) value
  else if field =? 2 ^ 1 then
    (fun k => credential <| ac_current := k |>) <$> decode_secret value (ac_current credential)
  else if field =? 2 ^ 2 then
    (fun k => credential <| ac_next := k |>) <$> set_key_id (ac_next credential) value
  else if field =? 2 ^ 3 then
    (fun k => credential <| ac_next := k |>) <$> decode_secret value (ac_next credential)
  else if field =? 2 ^ 4 then
    (fun n => credential <| ac_next_valid_until_unix := n |>) <$> parse_u64 value
  else if field =? 2 ^ 5 then
    (fun n => credential <| ac_max_connections := n |>) <$> parse_u32 value
  else if field =? 2 ^ 6 then
    (fun n => credential <| ac_max_opportunistic_chunks := n |>) <$> parse_u32 value
  else if field =? 2 ^ 7 then
    (fun n => credential <| ac_max_committed_chunks := n |>) <$> parse_u32 value
  else if bool_decide (value = chars "true") then Some (credential <| ac_revoked := true |>)
  else if bool_decide (value = chars "false") then Some (credential <| ac_revoked := false |>)
  else None.

(** The credential and [*seen] after a line [key = value] of a section. *)
Definition parse_credential_value (credential : is_auth_credential) (seen : Z)
    (key value : list Z) : option (is_auth_credential * Z) :=
  field ← credential_field key;
  if negb (Z.land seen field =? 0) then None
  else (fun c => (c, Z.lor seen field)) <$> store_field credential field value.

(** ** Reading the file *)

(** What [open] and [fstat] accept, the bytes read, and [ferror] at their end. *)
Record auth_file := {
  af_acceptable : bool;
  af_bytes : list Z;
  af_error : bool
}.

(** The local variables of [is_auth_registry_load_file]. *)
Record load_state := {
  ls_entries : list is_auth_credential;
  ls_current : is_auth_credential;
  ls_in_consumer : bool;
  ls_version_seen : bool;
  ls_fields_seen : Z
}.

#[export] Instance load_state_eta : Eta load_state := fun s =>
  {| ls_entries := ls_entries s; ls_current := ls_current s; ls_in_consumer := ls_in_consumer s;
     ls_version_seen := ls_version_seen s; ls_fields_seen := ls_fields_seen s |}.

Definition load_init : load_state :=
  {| ls_entries := []; ls_current := zero_credential; ls_in_consumer := false;
     ls_version_seen := false; ls_fields_seen := 0 |}.

(** [if (in_consumer && !append_credential(...)) goto out]; [clock n] is the
    time when the credential that follows [n] others is appended. *)
Definition close_section (clock : nat -> Z) (s : load_state) : option load_state :=
  if ls_in_consumer s then
    (fun entries => s <| ls_entries := entries |>) <$>
      append_credential (clock (length (ls_entries s))) (ls_entries s) (ls_current s)
  else Some s.

Definition open_section (clock : nat -> Z) (s : load_state) (line : list Z) : option load_state :=
  s ← close_section clock s;
  current ← start_consumer_section line;
  Some (s <| ls_current := current |> <| ls_fields_seen := 0 |> <| ls_in_consumer := true |>).

Definition load_value (s : load_state) (line : list Z) : option load_state :=
  '(before, after) ← separate line;
  let key := trim before in
  let value := trim after in
  if negb (ls_in_consumer s) then
    if negb (bool_decide (key = chars "version")) || negb (bool_decide (value = chars "1")) ||
       ls_version_seen s
    then None
    else Some (s <| ls_version_seen := true |>)
  else
    (fun p => s <| ls_current := fst p |> <| ls_fields_seen := snd p |>) <$>
      parse_credential_value (ls_current s) (ls_fields_seen s) key value.

(** One iteration over a filled buffer. *)
Definition load_line (clock : nat -> Z) (s : load_state) (buffer : list Z) : option load_state :=
  let line := trim (c_string buffer) in
  let first := byte_at line 0 in
  if (first =? 0) || (first =? 35) || (first =? 59) then Some s
  else if first =? 91 then open_section clock s line
  else load_value s line.

Fixpoint load_lines (clock : nat -> Z) (s : load_state) (buffers : list (list Z)) :
    option load_state :=
  match buffers with
  | [] => Some s
  | buffer :: buffers' => s ← load_line clock s buffer; load_lines clock s buffers'
  end.

(** The entries of an acceptable file, before they have a version. *)
Definition parse_file (clock : nat -> Z) (file : auth_file) : option (list is_auth_credential) :=
  s ← load_lines clock load_init (fgets_lines 1023 [] (af_bytes file));
  if af_error file || negb (ls_version_seen s) then None
  else ls_entries <$> close_section clock s.

(** ** Committing the entries *)

Definition key_equal (left right : is_auth_key) : bool :=
  (ak_secret_size left =? ak_secret_size right) && str_equal (ak_key_id left) (ak_key_id right) &&
  bool_decide (take (Z.to_nat (ak_secret_size left)) (ak_secret left) =
               take (Z.to_nat (ak_secret_size left)) (ak_secret right)).

Definition authorization_equal (before after : option is_auth_credential) : bool :=
  match before, after with
  | Some old, Some new =>
      negb (ac_revoked new) && key_equal (ac_current old) (ac_current new) &&
      key_equal (ac_next old) (ac_next new) &&
      (ac_next_valid_until_unix old =? ac_next_valid_until_unix new) &&
      (ac_max_connections old =? ac_max_connections new) &&
      (ac_max_opportunistic_chunks old =? ac_max_opportunistic_chunks new) &&
      (ac_max_committed_chunks old =? ac_max_committed_chunks new)
  | _, _ => false
  end.

(** The loop that gives each entry its version, from the registry's counter. *)
Fixpoint assign_versions (old : list is_auth_credential) (version : Z)
    (entries : list is_auth_credential) : list is_auth_credential * Z :=
  match entries with
  | [] => ([], version)
  | c :: entries' =>
      let '(v, version) :=
        match find_entry old (ac_consumer_id c) with
        | Some o =>
            if authorization_equal (Some o) (Some c) then (ac_authorization_version o, version)
            else let n := next_authorization_version version in (n, n)
        | None => let n := next_authorization_version version in (n, n)
        end in
      let '(done, version) := assign_versions old version entries' in
      (c <| ac_authorization_version := v |> :: done, version)
  end.

Definition notify_listener (r : is_auth_registry) (entries : list is_auth_credential)
    (l : is_auth_listener) : bool :=
  negb (authorization_equal (find_credential r (al_consumer_id l))
                            (find_entry entries (al_consumer_id l))).

(** The registry and the contexts of the callbacks. *)
Definition commit_entries (r : is_auth_registry) (entries : list is_auth_credential) :
    is_auth_registry * list Z :=
  let notified :=
    al_context <$> filter (fun l => notify_listener r entries l = true) (ar_listeners r) in
  let '(entries, version) :=
    assign_versions (ar_entries r) (ar_next_authorization_version r) entries in
  (r <| ar_entries := entries |> <| ar_next_authorization_version := version |>, notified).

Definition is_auth_registry_load_file (clock : nat -> Z) (r : is_auth_registry)
    (file : auth_file) : is_auth_registry * is_auth_result * list Z :=
  if negb (af_acceptable file) then (r, IS_AUTH_IO_ERROR, [])
  else
    match parse_file clock file with
    | None => (r, IS_AUTH_FORMAT_ERROR, [])
    | Some entries =>
        let '(r, notified) := commit_entries r entries in (r, IS_AUTH_OK, notified)
    end.
