(* ===== verification/AuthInv.v ===== *)
(** * The registry's invariant and what one call does to an authorization

    [registry_ok] holds of every registry the calls of [auth_call] build, as
    long as the 64-bit counter of authorization versions does not wrap. *)
From S2P Require Import Prelude Protocol Text Auth AuthFile.

(** ** Calls *)

Inductive auth_call :=
| Add (now : Z) (credential : is_auth_credential)
| LoadFile (clock : nat -> Z) (file : auth_file)
| Subscribe (consumer_id : list Z) (authorization_version context : Z)
| Unsubscribe (context : Z)
| Revoke (consumer_id : list Z).

(** The registry after a call and the contexts it called back. *)
Definition auth_perform (r : is_auth_registry) (call : auth_call) : is_auth_registry * list Z :=
  match call with
  | Add now c => ((is_auth_registry_add now r c).1, [])
  | LoadFile clock file =>
      let '(r, _, notified) := is_auth_registry_load_file clock r file in (r, notified)
  | Subscribe consumer_id v context => ((is_auth_registry_subscribe r consumer_id v context).1, [])
  | Unsubscribe context => (is_auth_registry_unsubscribe r context, [])
  | Revoke consumer_id =>
      let '(r, _, notified) := is_auth_registry_revoke r consumer_id in (r, notified)
  end.

Fixpoint auth_perform_all (r : is_auth_registry) (calls : list auth_call) : is_auth_registry :=
  match calls with
  | [] => r
  | call :: calls' => auth_perform_all (auth_perform r call).1 calls'
  end.

(** ** The invariant *)

Definition entry_name (c : is_auth_credential) : list Z := c_string (ac_consumer_id c).

Record entry_ok (version : Z) (c : is_auth_credential) : Prop := {
  entry_valid : exists now, credential_valid now c = true;
  entry_version : 0 < ac_authorization_version c <= version
}.

Definition listener_ok (l : is_auth_listener) : Prop :=
  al_context l <> 0 /\ Z.of_nat (length (al_consumer_id l)) <= IS_PROTOCOL_CONSUMER_ID_MAX.

Record registry_ok (r : is_auth_registry) : Prop := {
  ok_entries : Forall (entry_ok (ar_next_authorization_version r)) (ar_entries r);
  ok_names : NoDup (entry_name <$> ar_entries r);
  ok_count : Z.of_nat (length (ar_entries r)) <= IS_AUTH_MAX_CONSUMERS;
  ok_listeners : Forall listener_ok (ar_listeners r);
  ok_contexts : NoDup (al_context <$> ar_listeners r);
  ok_listener_count : Z.of_nat (length (ar_listeners r)) <= IS_AUTH_MAX_CONSUMERS;
  ok_version : 0 <= ar_next_authorization_version r
}.

(** A call takes at most one version per entry of a file. *)
Definition versions_left (r : is_auth_registry) (n : nat) : Prop :=
  ar_next_authorization_version r + 64 * Z.of_nat n < 2 ^ 64.

(** ** Names and entries *)

Lemma str_equal_true a b : str_equal a b = true <-> c_string a = c_string b.
Proof. unfold str_equal. by rewrite bool_decide_eq_true. Qed.

Lemma str_equal_false a b : str_equal a b = false <-> c_string a <> c_string b.
Proof. unfold str_equal. by rewrite bool_decide_eq_false. Qed.

Lemma c_string_idem l : c_string (c_string l) = c_string l.
Proof. induction l as [|c l IH]; [done|]. simpl. case_match eqn:E; [done|]. simpl. by rewrite E, IH. Qed.

Lemma find_entry_Some entries id c :
  find_entry entries id = Some c -> c ∈ entries /\ entry_name c = c_string id.
Proof.
  induction entries as [|d entries IH]; [done|]. simpl. case_match eqn:E.
  - intros [= ->]. split; [left|]. by apply str_equal_true.
  - intros [? ?]%IH. split; [by right|done].
Qed.

Lemma find_entry_None entries id :
  find_entry entries id = None <-> c_string id ∉ (entry_name <$> entries).
Proof.
  induction entries as [|d entries IH]; simpl; [split; [intros _; apply not_elem_of_nil|done]|].
  rewrite not_elem_of_cons. case_match eqn:E.
  - apply str_equal_true in E. unfold entry_name. split; [done|intros [? _]; congruence].
  - apply str_equal_false in E. unfold entry_name at 1. rewrite IH. intuition congruence.
Qed.

Lemma find_entry_ext entries a b : c_string a = c_string b -> find_entry entries a = find_entry entries b.
Proof. intros E. induction entries as [|c entries IH]; [done|]. simpl. unfold str_equal. by rewrite E, IH. Qed.

Lemma find_entry_app l k id :
  find_entry (l ++ k) id =
  match find_entry l id with Some c => Some c | None => find_entry k id end.
Proof. induction l as [|c l IH]; [done|]. simpl. rewrite IH. by destruct (str_equal _ _). Qed.

Lemma find_entry_update f entries id id' :
  (forall c, ac_consumer_id (f c) = ac_consumer_id c) ->
  find_entry (update_entry f entries id) id' =
  if str_equal id id' then f <$> find_entry entries id' else find_entry entries id'.
Proof.
  intros Hf. induction entries as [|c entries IH]; simpl; [by case_match|].
  destruct (str_equal (ac_consumer_id c) id) eqn:E; simpl.
  - rewrite Hf. apply str_equal_true in E. unfold str_equal in *. rewrite E. by case_bool_decide.
  - rewrite IH. destruct (str_equal id id') eqn:E'; [|by case_match].
    apply str_equal_true in E'. apply str_equal_false in E.
    assert (str_equal (ac_consumer_id c) id' = false) as -> by (apply str_equal_false; congruence).
    done.
Qed.

Lemma update_entry_names f entries id :
  (forall c, ac_consumer_id (f c) = ac_consumer_id c) ->
  entry_name <$> update_entry f entries id = entry_name <$> entries.
Proof.
  intros Hf. induction entries as [|c entries IH]; [done|]. simpl.
  case_match; rewrite !fmap_cons; [unfold entry_name at 1 3; by rewrite Hf|by rewrite IH].
Qed.

Lemma update_entry_Forall (P : is_auth_credential -> Prop) f entries id :
  (forall c, P c -> P (f c)) -> Forall P entries -> Forall P (update_entry f entries id).
Proof.
  intros Hf. induction 1 as [|c entries Hc Hall IH]; simpl; [constructor|].
  case_match; constructor; auto.
Qed.

Lemma length_update_entry f entries id : length (update_entry f entries id) = length entries.
Proof. induction entries as [|c entries IH]; [done|]. simpl. case_match; simpl; by rewrite ?IH. Qed.

Lemma entry_ok_mono v w c : v <= w -> entry_ok v c -> entry_ok w c.
Proof. intros ? [? ?]. constructor; [done|lia]. Qed.

Lemma next_version_small v : 0 <= v -> v + 1 < 2 ^ 64 -> next_authorization_version v = v + 1.
Proof.
  intros ? ?. unfold next_authorization_version. rewrite wrap_small by (unfold in_u; lia).
  by rewrite (proj2 (Z.eqb_neq _ _)) by lia.
Qed.

(** ** The version each entry of a file is given *)

(** Entry [c'] keeps the authorization [o] stands for, or has a new one. *)
Definition kept (old : list is_auth_credential) (c : is_auth_credential) (v : Z) : Prop :=
  exists o, find_entry old (ac_consumer_id c) = Some o /\
            authorization_equal (Some o) (Some c) = true /\ v = ac_authorization_version o.

Definition renewed (old : list is_auth_credential) (c : is_auth_credential) (first last v : Z) : Prop :=
  authorization_equal (find_entry old (ac_consumer_id c)) (Some c) = false /\ first < v <= last.

Definition assigned (old : list is_auth_credential) (first last : Z) (c c' : is_auth_credential) : Prop :=
  exists v, c' = c <| ac_authorization_version := v |> /\ (kept old c v \/ renewed old c first last v).

Lemma assigned_mono old first first' last last' c c' :
  first <= first' -> last' <= last -> assigned old first' last' c c' -> assigned old first last c c'.
Proof.
  intros ? ? (v & -> & [?|[? ?]]); exists v; (split; [done|]); [by left|right; split; [done|lia]].
Qed.

Lemma assign_versions_spec old version entries :
  0 <= version -> version + Z.of_nat (length entries) < 2 ^ 64 ->
  let p := assign_versions old version entries in
  Forall2 (assigned old version p.2) entries p.1 /\
  version <= p.2 <= version + Z.of_nat (length entries).
Proof.
  revert version. induction entries as [|c entries IH]; intros version H0 Hw; simpl; [split; [constructor|lia]|].
  rewrite length_cons in Hw.
  assert (exists v w, match find_entry old (ac_consumer_id c) with
     | Some o => if authorization_equal (Some o) (Some c) then (ac_authorization_version o, version)
                 else (next_authorization_version version, next_authorization_version version)
     | None => (next_authorization_version version, next_authorization_version version)
     end = (v, w) /\ version <= w <= version + 1 /\ (kept old c v \/ renewed old c version w v))
    as (v & w & E & Hw' & Hv).
  { unfold kept, renewed. rewrite next_version_small by lia.
    destruct (find_entry old (ac_consumer_id c)) as [o|] eqn:Eo;
      [destruct (authorization_equal (Some o) (Some c)) eqn:Ea|]; repeat eexists; try lia;
      [left; by exists o|right; split; [done|lia]..]. }
  simpl in E. rewrite E. destruct (IH w) as [Hall Hlast]; [lia..|].
  destruct (assign_versions old w entries) as [done last]; simpl in *. split; [|lia].
  constructor.
  - apply assigned_mono with version w; [lia..|]. by exists v.
  - eapply list.Forall2_impl; [exact Hall|]. intros ? ?. apply assigned_mono; lia.
Qed.

Lemma assigned_name old first last c c' : assigned old first last c c' -> entry_name c' = entry_name c.
Proof. by intros (v & -> & _). Qed.

Lemma assigned_find old first last entries entries' id :
  Forall2 (assigned old first last) entries entries' ->
  match find_entry entries id with
  | Some c => exists c', find_entry entries' id = Some c' /\ assigned old first last c c'
  | None => find_entry entries' id = None
  end.
Proof.
  induction 1 as [|c c' entries entries' Hc Hall IH]; simpl; [done|].
  unfold str_equal in *. fold (entry_name c) (entry_name c').
  rewrite (assigned_name _ _ _ _ _ Hc). case_bool_decide; [by exists c'|done].
Qed.

(** ** What the parser delivers *)

Definition parsed_ok (entries : list is_auth_credential) : Prop :=
  Forall (fun c => exists now, credential_valid now c = true) entries /\
  NoDup (entry_name <$> entries) /\ Z.of_nat (length entries) <= IS_AUTH_MAX_CONSUMERS.

Lemma append_credential_ok now entries c entries' :
  parsed_ok entries -> append_credential now entries c = Some entries' -> parsed_ok entries'.
Proof.
  unfold append_credential. intros (Hv & Hn & Hc). case_match eqn:E; [done|].
  case_match eqn:Ed; [done|]. intros [= <-]. apply orb_false_iff in E as [Ev Ec].
  apply negb_false_iff in Ev. apply Z.eqb_neq in Ec.
  split; [|split].
  - apply Forall_app. split; [done|]. constructor; [by exists now|constructor].
  - rewrite fmap_app. apply list.NoDup_app. repeat split; [done| |apply NoDup_singleton].
    intros x Hx Hx'. apply list_elem_of_singleton in Hx'. subst x.
    apply list_elem_of_fmap in Hx as (d & Hd & Hin).
    apply not_true_iff_false in Ed. apply Ed, existsb_exists. exists d.
    split; [by apply list_elem_of_In|]. by apply str_equal_true.
  - rewrite length_app. simpl. lia.
Qed.

Lemma close_section_ok clock s s' :
  parsed_ok (ls_entries s) -> close_section clock s = Some s' -> parsed_ok (ls_entries s').
Proof.
  unfold close_section. case_match; [|by intros ? [= <-]].
  intros Hok (entries & Ha & ->)%fmap_Some. simpl. by eapply append_credential_ok.
Qed.

Lemma load_line_ok clock s buffer s' :
  parsed_ok (ls_entries s) -> load_line clock s buffer = Some s' -> parsed_ok (ls_entries s').
Proof.
  unfold load_line. intros Hok. repeat case_match; intros Hs; [by simplify_eq|..].
  - unfold open_section in Hs. apply bind_Some in Hs as (s1 & Hc & Hs).
    apply bind_Some in Hs as (c & _ & [= <-]). simpl. by eapply close_section_ok.
  - unfold load_value in Hs. apply bind_Some in Hs as ([name value] & _ & Hs).
    repeat case_match; simplify_eq; [done|]. apply fmap_Some in Hs as (? & _ & ->). done.
Qed.

Lemma load_lines_ok clock s buffers s' :
  parsed_ok (ls_entries s) -> load_lines clock s buffers = Some s' -> parsed_ok (ls_entries s').
Proof.
  revert s. induction buffers as [|b buffers IH]; intros s Hok; simpl; [by intros [= <-]|].
  intros (s1 & Hl & Hs)%bind_Some. apply (IH s1); [|done]. by eapply load_line_ok.
Qed.

Lemma parse_file_ok clock file entries : parse_file clock file = Some entries -> parsed_ok entries.
Proof.
  unfold parse_file. intros (s & Hl & Hs)%bind_Some. case_match; [done|].
  apply fmap_Some in Hs as (s' & Hc & ->). eapply close_section_ok; [|exact Hc].
  eapply load_lines_ok; [|exact Hl]. repeat split; try constructor; simpl; unfold IS_AUTH_MAX_CONSUMERS; lia.
Qed.
