(* ===== verification/AuthSteps.v ===== *)
(** * What each call does to the registry

    Every call preserves [registry_ok], moves the version counter forward,
    and keeps the version of an entry or gives it one never used before; the
    contexts it calls back are those whose authorization it withdraws. *)
From S2P Require Import Prelude Protocol Text Auth AuthFile AuthInv.

Abbreviation authorized r id v := (is_auth_registry_validate_authorization r id v = IS_AUTH_OK).

Lemma authorized_iff r id v :
  authorized r id v <->
  v <> 0 /\ exists c, find_credential r id = Some c /\ ac_revoked c = false /\
                      ac_authorization_version c = v.
Proof.
  unfold is_auth_registry_validate_authorization, validate_authorization_locked.
  destruct (Z.eqb_spec v 0); [split; [done|tauto]|].
  destruct (find_credential r id) as [c|]; [|split; [done|intros (_ & c & ? & _); done]].
  destruct (ac_revoked c) eqn:Er; [split; [done|intros (_ & ? & ? & ? & _); congruence]|].
  destruct (Z.eqb_spec (ac_authorization_version c) v); simpl; split; eauto; [done|].
  intros (_ & ? & ? & _ & ?). congruence.
Qed.

(** ** The entry of one consumer *)

Definition entry_step (r r' : is_auth_registry) (id : list Z) : Prop :=
  forall c', find_credential r' id = Some c' ->
  ar_next_authorization_version r < ac_authorization_version c' \/
  exists c, find_credential r id = Some c /\
    ac_authorization_version c' = ac_authorization_version c /\
    (ac_revoked c' = ac_revoked c \/ ac_revoked c' = false).

Record auth_step (r r' : is_auth_registry) : Prop := {
  step_ok : registry_ok r';
  step_version : ar_next_authorization_version r <= ar_next_authorization_version r' <=
                 ar_next_authorization_version r + 64;
  step_entries : forall id, entry_step r r' id
}.

Lemma same_entries_step r r' :
  registry_ok r' -> ar_entries r' = ar_entries r ->
  ar_next_authorization_version r' = ar_next_authorization_version r -> auth_step r r'.
Proof.
  intros Hok He Hv. constructor; [done|lia|]. intros id c'. unfold find_credential. rewrite He.
  intros Hc. right. exists c'. by auto.
Qed.

Lemma auth_step_refl r : registry_ok r -> auth_step r r.
Proof. intros. by apply same_entries_step. Qed.

(** ** Calls that change no entry *)

Lemma c_string_drop value i :
  (i <= length (c_string value))%nat -> c_string (drop i value) = drop i (c_string value).
Proof.
  revert i. induction value as [|c value IH]; intros i; simpl; [by rewrite !drop_nil|].
  case_match eqn:E; simpl.
  - intros ?. assert (i = 0%nat) as -> by lia. simpl. by rewrite E.
  - destruct i as [|i]; simpl; [by rewrite E|]. intros ?. apply IH. lia.
Qed.

Lemma c_string_head value : length (c_string value) = 0%nat <-> byte_at value 0 = 0.
Proof.
  destruct value as [|c value]; [done|]. unfold byte_at. simpl.
  destruct (Z.eqb_spec c 0); simpl; [done|]. split; [lia|done].
Qed.

Lemma bounded_length_spec value maximum :
  0 <= maximum ->
  bounded_length value maximum = Z.min (Z.of_nat (length (c_string value))) (maximum + 1).
Proof.
  intros H0. unfold bounded_length.
  enough (forall n i, 0 <= i <= Z.of_nat (length (c_string value)) ->
    bounded_length_from value n i = Z.min (Z.of_nat (length (c_string value))) (i + Z.of_nat n)) as ->
    by lia.
  induction n as [|n IH]; intros i Hi; simpl; [lia|].
  assert (length (c_string (drop (Z.to_nat i) value)) = 0%nat <-> byte_at value i = 0) as Hz.
  { rewrite c_string_head, byte_at_drop by lia. by replace (Z.of_nat (Z.to_nat i) + 0) with i by lia. }
  rewrite c_string_drop, length_drop in Hz by lia.
  destruct (Z.eqb_spec (byte_at value i) 0) as [E|E]; [apply Hz in E; lia|].
  rewrite IH; [lia|]. assert (~ (length (c_string value) - Z.to_nat i = 0)%nat) by tauto. lia.
Qed.

Lemma identifier_valid_length value maximum :
  0 <= maximum -> identifier_valid value maximum = true ->
  0 < Z.of_nat (length (c_string value)) <= maximum.
Proof.
  intros H0. unfold identifier_valid. rewrite bounded_length_spec by done.
  case_match eqn:E; [done|]. intros _. apply orb_false_iff in E as [? ?]. lia.
Qed.

Lemma entry_name_length v c :
  entry_ok v c -> Z.of_nat (length (entry_name c)) <= IS_PROTOCOL_CONSUMER_ID_MAX.
Proof.
  intros [[now Hv] _]. unfold credential_valid in Hv. case_match eqn:E; [done|].
  apply orb_false_iff in E as [[E _]%orb_false_iff _]. apply negb_false_iff in E.
  unfold entry_name. apply identifier_valid_length in E; [lia|done].
Qed.

Lemma subscribe_entries r id v context :
  let r' := (is_auth_registry_subscribe r id v context).1 in
  ar_entries r' = ar_entries r /\
  ar_next_authorization_version r' = ar_next_authorization_version r.
Proof. simpl. unfold is_auth_registry_subscribe. by repeat (case_match; simpl). Qed.

Lemma unsubscribe_entries r context :
  let r' := is_auth_registry_unsubscribe r context in
  ar_entries r' = ar_entries r /\
  ar_next_authorization_version r' = ar_next_authorization_version r.
Proof. simpl. unfold is_auth_registry_unsubscribe. by repeat (case_match; simpl). Qed.

Lemma swap_remove_perm {A} (l : list A) i x last :
  l !! i = Some x -> l !! pred (length l) = Some last ->
  x :: take (pred (length l)) (<[i := last]> l) ≡ₚ l.
Proof.
  intros Hi Hl. destruct l as [|y k _] using rev_ind; [done|].
  rewrite length_app in *. simpl in *. replace (pred (length k + 1)) with (length k) in * by lia.
  rewrite lookup_app_r, Nat.sub_diag in Hl by lia. simplify_eq/=.
  destruct (decide (i < length k)%nat) as [Hlt|Hge].
  - rewrite insert_app_l by lia. rewrite take_app_length' by (rewrite length_insert; lia).
    rewrite lookup_app_l in Hi by lia.
    rewrite <- (take_drop_middle k i x) at 2 by done.
    rewrite insert_take_drop by done. solve_Permutation.
  - assert (i = length k) as -> by (apply lookup_lt_Some in Hi; rewrite length_app in Hi; simpl in Hi; lia).
    rewrite lookup_app_r, Nat.sub_diag in Hi by lia. simplify_eq/=.
    rewrite insert_app_r_alt, Nat.sub_diag by lia. simpl. rewrite take_app_length' by done.
    apply Permutation_cons_append.
Qed.

Lemma unsubscribe_listeners r context :
  is_auth_registry_unsubscribe r context = r \/
  exists l, al_context l = context /\
    l :: ar_listeners (is_auth_registry_unsubscribe r context) ≡ₚ ar_listeners r.
Proof.
  unfold is_auth_registry_unsubscribe. case_match; [by left|].
  destruct (list_find _ _) as [[i l]|] eqn:E; [|by left].
  apply list_find_Some in E as (Hi & Hc & _).
  destruct (ar_listeners r !! pred (length (ar_listeners r))) as [last|] eqn:El; [|by left].
  right. exists l. split; [done|]. simpl. by apply swap_remove_perm.
Qed.

Lemma unsubscribe_ok r context : registry_ok r -> registry_ok (is_auth_registry_unsubscribe r context).
Proof.
  intros [? ? ? Hl Hc Hn ?]. destruct (unsubscribe_entries r context) as [He Hv].
  destruct (unsubscribe_listeners r context) as [->|(l & _ & Hp)]; [by constructor|].
  rewrite <- Hp in Hl. rewrite <- Hp in Hc. rewrite <- Hp in Hn.
  rewrite fmap_cons in Hc. apply list.NoDup_cons in Hc as [_ Hc]. inversion Hl; subst.
  rewrite length_cons in Hn. constructor; rewrite ?He, ?Hv; try done. lia.
Qed.

Lemma find_credential_ok r id c :
  registry_ok r -> find_credential r id = Some c ->
  entry_ok (ar_next_authorization_version r) c /\ entry_name c = c_string id.
Proof.
  intros Hok [Hin Hn]%find_entry_Some. split; [|done].
  exact (proj1 (list.Forall_forall _ _) (ok_entries _ Hok) c Hin).
Qed.

Lemma subscribe_ok r id v context :
  registry_ok r -> registry_ok (is_auth_registry_subscribe r id v context).1.
Proof.
  intros Hok. unfold is_auth_registry_subscribe. case_match eqn:E0; [done|].
  destruct (find_credential r id) as [c|] eqn:Ef; simpl; [|done].
  destruct (ac_revoked c); simpl; [done|]. destruct ((v =? 0) || _); simpl; [done|].
  destruct (Z.eqb_spec (Z.of_nat (length (ar_listeners r))) IS_AUTH_MAX_CONSUMERS); simpl; [done|].
  destruct (existsb _ _) eqn:Ed; simpl; [done|].
  apply Z.eqb_neq in E0. destruct (find_credential_ok _ _ _ Hok Ef) as [Hc Hn].
  apply entry_name_length in Hc. rewrite Hn in Hc. destruct Hok. constructor; simpl; try done.
  - apply Forall_app. split; [done|]. constructor; [split; [done|exact Hc]|constructor].
  - rewrite fmap_app. apply list.NoDup_app. split; [done|]. split; [|apply NoDup_singleton].
    intros x Hx ->%list_elem_of_singleton. apply list_elem_of_fmap in Hx as (l & Hl & Hin).
    apply not_true_iff_false in Ed. apply Ed, existsb_exists. exists l.
    split; [by apply list_elem_of_In|]. apply Z.eqb_eq. by rewrite <- Hl.
  - rewrite length_app. simpl. lia.
Qed.

(** ** Calls that change entries *)

Lemma add_step now r c :
  registry_ok r -> versions_left r 1 -> auth_step r (is_auth_registry_add now r c).1.
Proof.
  intros Hok Hl. unfold versions_left in Hl. unfold is_auth_registry_add.
  destruct (credential_valid now c) eqn:Ev; simpl; [|by apply auth_step_refl].
  destruct (Z.eqb_spec (Z.of_nat (length (ar_entries r))) IS_AUTH_MAX_CONSUMERS); simpl; [by apply auth_step_refl|].
  destruct (find_credential r (ac_consumer_id c)) as [d|] eqn:Ef; simpl; [by apply auth_step_refl|].
  pose proof (ok_version _ Hok). rewrite next_version_small by lia.
  constructor; simpl; [|lia|].
  - destruct Hok. constructor; simpl; try done; [| | |lia].
    + apply Forall_app. split.
      * eapply list.Forall_impl; [done|]. intros d. apply entry_ok_mono. lia.
      * constructor; [|constructor]. constructor; simpl; [by exists now|lia].
    + rewrite fmap_app. apply list.NoDup_app. split; [done|]. split; [|apply NoDup_singleton].
      intros x Hx ->%list_elem_of_singleton. by apply find_entry_None in Ef.
    + rewrite length_app. simpl. lia.
  - intros id c'. unfold find_credential. simpl. rewrite find_entry_app.
    destruct (find_entry (ar_entries r) id) as [d|] eqn:Ed.
    + intros [= <-]. right. exists d. by auto.
    + simpl. case_match; [|done]. intros [= <-]. left. simpl. lia.
Qed.

Lemma revoke_step r id :
  registry_ok r -> versions_left r 1 -> auth_step r (is_auth_registry_revoke r id).1.1.
Proof.
  intros Hok Hl. unfold versions_left in Hl. unfold is_auth_registry_revoke.
  destruct (find_credential r id) as [d|] eqn:Ef; simpl; [|by apply auth_step_refl].
  pose proof (ok_version _ Hok). rewrite next_version_small by lia.
  set (f := fun c : is_auth_credential => _).
  constructor; simpl; [|lia|].
  - destruct Hok. constructor; simpl; rewrite ?update_entry_names, ?length_update_entry; try done; [|lia].
    apply update_entry_Forall.
    + intros c [? ?]. constructor; simpl; [done|lia].
    + eapply list.Forall_impl; [done|]. intros c. apply entry_ok_mono. lia.
  - intros id' c'. unfold find_credential. simpl. rewrite find_entry_update by done. case_match.
    + intros (c & Hc & ->)%fmap_Some. left. simpl. lia.
    + intros Hc. right. exists c'. by auto.
Qed.

Lemma commit_entries_eq r entries :
  let p := assign_versions (ar_entries r) (ar_next_authorization_version r) entries in
  (commit_entries r entries).1 =
  r <| ar_entries := p.1 |> <| ar_next_authorization_version := p.2 |>.
Proof. simpl. unfold commit_entries. by destruct (assign_versions _ _ _). Qed.

Lemma authorization_equal_not_revoked a c :
  authorization_equal a (Some c) = true -> ac_revoked c = false.
Proof. destruct a; simpl; [|done]. rewrite !andb_true_iff. intros [[[[[[H _] _] _] _] _] _]. by apply negb_true_iff. Qed.

Lemma commit_step r entries :
  registry_ok r -> parsed_ok entries -> versions_left r 1 -> auth_step r (commit_entries r entries).1.
Proof.
  intros Hok (Hv & Hn & Hc) Hl. unfold versions_left in Hl. rewrite commit_entries_eq.
  pose proof (ok_version _ Hok). unfold IS_AUTH_MAX_CONSUMERS in Hc.
  destruct (assign_versions_spec (ar_entries r) (ar_next_authorization_version r) entries)
    as [Hall Hlast]; [done|lia|].
  destruct (assign_versions _ _ _) as [entries' last]; simpl in *.
  pose proof (Forall2_length Hall).
  constructor; simpl; [|lia|].
  - pose proof (ok_entries _ Hok) as Hold. destruct Hok. constructor; simpl; try done; [| | |lia].
    + apply list.Forall_forall. intros c' Hin. apply list_elem_of_lookup in Hin as [k Hk].
      destruct (Forall2_lookup_r _ _ _ _ _ Hall Hk) as (c & Hck & v & -> & Hcase).
      constructor; simpl.
      { exact (proj1 (list.Forall_forall _ _) Hv c (list_elem_of_lookup_2 _ _ _ Hck)). }
      destruct Hcase as [(o & [Ho _]%find_entry_Some & _ & ->)|[_ ?]]; [|lia].
      destruct (proj1 (list.Forall_forall _ _) Hold o Ho). lia.
    + assert (entry_name <$> entries' = entry_name <$> entries) as ->; [|done].
      clear -Hall. induction Hall as [|c c' l l' Ha _ IH]; [done|].
      rewrite !fmap_cons, IH. by rewrite (assigned_name _ _ _ _ _ Ha).
    + unfold IS_AUTH_MAX_CONSUMERS. lia.
  - intros id c'. unfold find_credential. simpl. intros Hc'.
    pose proof (assigned_find _ _ _ _ _ id Hall) as Hf.
    destruct (find_entry entries id) as [c|] eqn:Ec; [|congruence].
    destruct Hf as (d & Hd & v & -> & Hcase). assert (c' = c <| ac_authorization_version := v |>) as -> by congruence.
    simpl. destruct Hcase as [(o & Ho & Ha & ->)|[_ ?]]; [|left; lia].
    right. exists o. apply find_entry_Some in Ec as [_ Ec]. rewrite <- (find_entry_ext _ _ _ Ec).
    split; [done|]. split; [done|]. right. exact (authorization_equal_not_revoked _ _ Ha).
Qed.

Lemma load_file_cases clock r file :
  (exists result, is_auth_registry_load_file clock r file = (r, result, []) /\ result <> IS_AUTH_OK) \/
  exists entries, parse_file clock file = Some entries /\
    is_auth_registry_load_file clock r file =
    ((commit_entries r entries).1, IS_AUTH_OK, (commit_entries r entries).2).
Proof.
  unfold is_auth_registry_load_file. case_match; [left; by eexists|].
  destruct (parse_file clock file) as [entries|]; [right|left; by eexists].
  exists entries. split; [done|]. by destruct (commit_entries r entries).
Qed.

Lemma auth_perform_step r call :
  registry_ok r -> versions_left r 1 -> auth_step r (auth_perform r call).1.
Proof.
  intros Hok Hl. destruct call as [now c|clock file|id v context|context|id]; simpl.
  - by apply add_step.
  - destruct (load_file_cases clock r file) as [(res & -> & _)|(entries & Hp & ->)]; simpl.
    + by apply auth_step_refl.
    + apply commit_step; [done| |done]. by eapply parse_file_ok.
  - destruct (subscribe_entries r id v context). apply same_entries_step; [by apply subscribe_ok|done..].
  - destruct (unsubscribe_entries r context). apply same_entries_step; [by apply unsubscribe_ok|done..].
  - pose proof (revoke_step r id Hok Hl). by destruct (is_auth_registry_revoke r id) as [[? ?] ?].
Qed.

Lemma versions_left_S r n : versions_left r (S n) -> versions_left r 1.
Proof. unfold versions_left. lia. Qed.

(** ** Sequences of calls *)

(** The version [v] of consumer [id] is in the past. *)
Definition withdrawn (r : is_auth_registry) (id : list Z) (v : Z) : Prop :=
  v <= ar_next_authorization_version r /\
  forall c, find_credential r id = Some c -> ac_authorization_version c <> v.

Lemma withdrawn_step r r' id v : auth_step r r' -> withdrawn r id v -> withdrawn r' id v.
Proof.
  intros [_ Hv He] [Hle Hw]. split; [lia|]. intros c' Hc'.
  destruct (He id c' Hc') as [?|(c & Hc & -> & _)]; [lia|by apply Hw].
Qed.

Lemma withdrawn_not_authorized r id v : withdrawn r id v -> ~ authorized r id v.
Proof. intros [_ Hw] (_ & c & Hc & _ & Hv)%authorized_iff. by apply (Hw c). Qed.

Lemma authorized_step r r' id v :
  registry_ok r -> auth_step r r' -> authorized r id v -> authorized r' id v \/ withdrawn r' id v.
Proof.
  intros Hok [_ Hver He] (H0 & c & Hc & Hr & Hv)%authorized_iff.
  destruct (find_credential_ok _ _ _ Hok Hc) as [[_ Hle] _].
  destruct (find_credential r' id) as [c'|] eqn:Ec'; [|right; split; [lia|congruence]].
  destruct (He id c' Ec') as [?|(d & Hd & Hvd & Hrd)].
  - right. split; [lia|]. intros ? ?. simplify_eq. lia.
  - left. apply authorized_iff. split; [done|]. exists c'. simplify_eq.
    split; [done|]. split; [|done]. destruct Hrd; congruence.
Qed.

Lemma versions_left_step r r' n : auth_step r r' -> versions_left r (S n) -> versions_left r' n.
Proof. intros [_ ? _]. unfold versions_left. lia. Qed.

Lemma auth_perform_all_ind (P : is_auth_registry -> Prop) r calls :
  (forall r call, registry_ok r -> auth_step r (auth_perform r call).1 -> P r ->
                  P (auth_perform r call).1) ->
  registry_ok r -> versions_left r (length calls) -> P r ->
  P (auth_perform_all r calls) /\ registry_ok (auth_perform_all r calls).
Proof.
  intros Hstep. revert r. induction calls as [|call calls IH]; intros r Hok Hl HP; simpl; [done|].
  assert (auth_step r (auth_perform r call).1) as Hs
    by (apply auth_perform_step; [done|by eapply versions_left_S]).
  apply IH; [by apply Hs| |by apply Hstep]. by eapply versions_left_step.
Qed.

Lemma withdrawn_forever r calls id v :
  registry_ok r -> versions_left r (length calls) -> withdrawn r id v ->
  withdrawn (auth_perform_all r calls) id v.
Proof.
  intros Hok Hl Hw. apply (auth_perform_all_ind (fun r => withdrawn r id v)); [|done..].
  intros ? ? _ Hs. by apply withdrawn_step.
Qed.

Lemma authorized_or_withdrawn r calls id v :
  registry_ok r -> versions_left r (length calls) -> authorized r id v ->
  authorized (auth_perform_all r calls) id v \/ withdrawn (auth_perform_all r calls) id v.
Proof.
  intros Hok Hl Ha.
  apply (auth_perform_all_ind (fun r => authorized r id v \/ withdrawn r id v)); [|done|done|by left].
  intros r1 call Hok1 Hs [Ha1|Hw]; [by apply (authorized_step r1)|right; by apply (withdrawn_step r1)].
Qed.

Lemma registry_ok_all r calls :
  registry_ok r -> versions_left r (length calls) -> registry_ok (auth_perform_all r calls).
Proof. intros Hok Hl. by apply (auth_perform_all_ind (fun _ => True)). Qed.

Lemma registry_ok_init : registry_ok is_auth_registry_init.
Proof. constructor; simpl; try constructor; unfold IS_AUTH_MAX_CONSUMERS; lia. Qed.

Lemma auth_run_ok r calls n :
  registry_ok r -> versions_left r (length calls + n) ->
  registry_ok (auth_perform_all r calls) /\ versions_left (auth_perform_all r calls) n.
Proof.
  revert r. induction calls as [|call calls IH]; intros r Hok Hl; simpl in *; [done|].
  assert (auth_step r (auth_perform r call).1) as Hs
    by (apply auth_perform_step; [done|by eapply versions_left_S]).
  apply IH; [by apply Hs|]. by eapply versions_left_step.
Qed.

Lemma versions_left_le r n m : (m <= n)%nat -> versions_left r n -> versions_left r m.
Proof. unfold versions_left. lia. Qed.

(** * Revocation callbacks and tag verification *)

Lemma context_in_filter (p : is_auth_listener -> bool) ls l :
  NoDup (al_context <$> ls) -> l ∈ ls ->
  al_context l ∈ (al_context <$> filter (fun l => p l = true) ls) <-> p l = true.
Proof.
  intros Hnd Hin. rewrite list_elem_of_fmap. split.
  - intros (k & Hk & [Hp Hink]%list_elem_of_filter). replace l with k; [done|].
    apply list_elem_of_lookup in Hin as [i Hi]. apply list_elem_of_lookup in Hink as [j Hj].
    assert (i = j) as ->; [|congruence].
    apply (NoDup_lookup _ _ _ (al_context l) Hnd); rewrite list_lookup_fmap.
    + by rewrite Hi.
    + rewrite Hj. simpl. by rewrite Hk.
  - intros Hp. exists l. by rewrite list_elem_of_filter.
Qed.

Lemma authorized_same r r' id v :
  find_credential r' id = find_credential r id -> authorized r id v -> authorized r' id v.
Proof. rewrite !authorized_iff. by intros ->. Qed.

Lemma revoke_notifies r id l v :
  registry_ok r -> versions_left r 1 -> l ∈ ar_listeners r -> authorized r (al_consumer_id l) v ->
  let '(r', _, notified) := is_auth_registry_revoke r id in
  al_context l ∈ notified <-> ~ authorized r' (al_consumer_id l) v.
Proof.
  intros Hok Hl Hin Ha. unfold is_auth_registry_revoke.
  destruct (find_credential r id) as [d|] eqn:Ef.
  2: { split; [by intros ?%not_elem_of_nil|]. intros []. done. }
  unfold notify_revocation. simpl. rewrite (context_in_filter (fun l => str_equal (al_consumer_id l) id));
    [|by destruct Hok|done].
  rewrite authorized_iff. unfold find_credential. simpl. rewrite find_entry_update by done.
  destruct (str_equal (al_consumer_id l) id) eqn:E.
  - apply str_equal_true in E. rewrite (proj2 (str_equal_true id _)) by done.
    split; [|done]. intros _ (_ & c & Hc & Hr & _). apply fmap_Some in Hc as (c0 & _ & ->). done.
  - apply str_equal_false in E. rewrite (proj2 (str_equal_false id _)) by congruence.
    apply authorized_iff in Ha. split; [done|]. intros []. done.
Qed.

Lemma commit_notifies r entries l v :
  registry_ok r -> parsed_ok entries -> versions_left r 1 -> l ∈ ar_listeners r ->
  authorized r (al_consumer_id l) v ->
  al_context l ∈ (commit_entries r entries).2 <->
  ~ authorized (commit_entries r entries).1 (al_consumer_id l) v.
Proof.
  intros Hok (_ & _ & Hcount) Hl Hin (H0 & c & Hc & Hr & Hv)%authorized_iff.
  rewrite commit_entries_eq. unfold versions_left in Hl. unfold IS_AUTH_MAX_CONSUMERS in Hcount.
  destruct (assign_versions_spec (ar_entries r) (ar_next_authorization_version r) entries)
    as [Hall _]; [by destruct Hok|lia|].
  unfold commit_entries. destruct (assign_versions _ _ _) as [entries' last] eqn:E; simpl in *.
  rewrite context_in_filter by (done || by destruct Hok).
  destruct (find_credential_ok _ _ _ Hok Hc) as [[_ Hle] _].
  pose proof (assigned_find _ _ _ _ _ (al_consumer_id l) Hall) as Hf.
  unfold notify_listener. rewrite negb_true_iff, authorized_iff. unfold find_credential in *. simpl. rewrite Hc.
  destruct (find_entry entries (al_consumer_id l)) as [n|] eqn:En;
    [|rewrite Hf; split; [|done]; intros _ (_ & ? & ? & _); done].
  destruct Hf as (n' & -> & w & -> & Hcase). apply find_entry_Some in En as [_ En].
  pose proof (find_entry_ext (ar_entries r) _ _ En) as Hext.
  destruct Hcase as [(o & Ho & Ha & ->)|[Ha Hw]].
  - assert (o = c) as -> by congruence. rewrite Ha. split; [done|]. intros Hn. destruct Hn.
    split; [done|]. eexists. split; [done|]. simpl. split; [|done].
    exact (authorization_equal_not_revoked _ _ Ha).
  - rewrite Hext, Hc in Ha. split; [|done]. intros _ (_ & ? & [= <-] & _ & Hv'). simpl in Hv'. lia.
Qed.

(** A call calls back exactly the listeners whose authorization it withdraws. *)
Lemma notified_exact r call l v :
  registry_ok r -> versions_left r 1 -> l ∈ ar_listeners r -> authorized r (al_consumer_id l) v ->
  al_context l ∈ (auth_perform r call).2 <->
  ~ authorized (auth_perform r call).1 (al_consumer_id l) v.
Proof.
  intros Hok Hl Hin Ha.
  assert (forall r', find_credential r' (al_consumer_id l) = find_credential r (al_consumer_id l) ->
    al_context l ∈ @nil Z <-> ~ authorized r' (al_consumer_id l) v) as Hsame.
  { intros r' Hr'. split; [by intros ?%not_elem_of_nil|].
    intros []. by apply (authorized_same r). }
  destruct call as [now c|clock file|id w context|context|id]; simpl.
  - apply Hsame. unfold is_auth_registry_add. do 2 (case_match; [done|]). case_match; [done|].
    apply authorized_iff in Ha as (_ & d & Hd & _). unfold find_credential in *. simpl.
    by rewrite find_entry_app, Hd.
  - destruct (load_file_cases clock r file) as [(res & -> & _)|(entries & Hp & ->)]; simpl.
    + by apply Hsame.
    + apply commit_notifies; try done. by eapply parse_file_ok.
  - apply Hsame. unfold find_credential. by rewrite (proj1 (subscribe_entries _ _ _ _)).
  - apply Hsame. unfold find_credential. by rewrite (proj1 (unsubscribe_entries _ _)).
  - pose proof (revoke_notifies r id l v Hok Hl Hin Ha) as H.
    by destruct (is_auth_registry_revoke r id) as [[? ?] ?].
Qed.

(** ** Verification *)

(** What a key must be for a consumer to authenticate with it at [now]. *)
Definition usable_key (now : Z) (c : is_auth_credential) (key_id : list Z) (key : is_auth_key)
    (until : Z) : Prop :=
  (key = ac_current c /\ until = 0 \/
   key = ac_next c /\ until = ac_next_valid_until_unix c /\ 0 <= now < until /\
   c_string (ak_key_id (ac_current c)) <> c_string key_id /\ ak_secret_size key <> 0) /\
  c_string (ak_key_id key) = c_string key_id.

Lemma select_key_spec now c key_id key until :
  select_key now c key_id = Some (key, until) <-> usable_key now c key_id key until.
Proof.
  unfold select_key, usable_key. destruct (str_equal (ak_key_id (ac_current c)) key_id) eqn:E.
  - apply str_equal_true in E. split.
    + intros [= <- <-]. auto.
    + intros [[[-> ->]|(_ & _ & _ & ? & _)] _]; congruence.
  - apply str_equal_false in E. split.
    + case_match eqn:Eb; [|done]. intros [= <- <-].
      rewrite !andb_true_iff, str_equal_true, negb_true_iff in Eb. destruct Eb as [[[? ?] ?] ?].
      split; [right; repeat split; try done; lia|done].
    + intros [[[-> ->]|(-> & -> & ? & _ & ?)] Hk]; [done|].
      rewrite (proj2 (str_equal_true _ _) Hk).
      rewrite (proj2 (Z.leb_le _ _)), (proj2 (Z.ltb_lt _ _)), (proj2 (Z.eqb_neq _ _)) by lia. done.
Qed.

Definition frame_size_ok (frame : list Z) : Prop :=
  0 < Z.of_nat (length frame) <= IS_PROTOCOL_MAX_FRAME_SIZE.

Lemma compute_tag_spec `{Mac} secret size hello challenge tag :
  is_auth_compute_tag secret size hello challenge = inr tag <->
  IS_AUTH_SECRET_MIN_SIZE <= size <= IS_AUTH_SECRET_MAX_SIZE /\
  frame_size_ok hello /\ frame_size_ok challenge /\
  hmac_sha256 (take (Z.to_nat size) secret) (auth_domain ++ hello ++ challenge) = Some tag /\
  Z.of_nat (length tag) = IS_PROTOCOL_AUTH_TAG_SIZE.
Proof.
  unfold is_auth_compute_tag, frame_size_ok. case_match eqn:E.
  - split; [done|]. rewrite !orb_true_iff in E. intros (? & ? & ? & _). lia.
  - rewrite !orb_false_iff in E. destruct E as [[[[[? ?] ?] ?] ?] ?].
    destruct (hmac_sha256 _ _) as [t|]; [|split; [done|]; intros (_ & _ & _ & ? & _); done].
    destruct (Z.eqb_spec (Z.of_nat (length t)) IS_PROTOCOL_AUTH_TAG_SIZE); simpl.
    + split; [intros [= <-]; repeat split; try done; lia|]. intros (_ & _ & _ & [= ->] & _). done.
    + split; [done|]. intros (_ & _ & _ & [= ->] & ?). done.
Qed.

Lemma compute_tag_error `{Mac} secret size hello challenge result :
  is_auth_compute_tag secret size hello challenge = inl result -> result <> IS_AUTH_OK.
Proof. unfold is_auth_compute_tag. repeat case_match; congruence. Qed.

(** * The limits a file gives are 32-bit numbers

    The fields of a credential keep their width through parsing and
    committing, so what the registry hands to the memory manager has it. *)

Lemma strtoull_range value n rest : strtoull value = Some (n, rest) -> 0 <= n < 2 ^ 64.
Proof.
  unfold strtoull. case_bool_decide; [intros [= <- _]; lia|]. destruct (_ <? _); [done|]. intros [= <- _].
  apply (wrap_in_u 64). lia.
Qed.

Lemma parse_u32_range value n : parse_u32 value = Some n -> is_u32 n.
Proof.
  unfold parse_u32. destruct (_ || _); [done|]. destruct (strtoull value) as [[number [|]]|] eqn:E; try done.
  apply strtoull_range in E. destruct (Z.ltb_spec UINT32_MAX number) as [|Hle]; [done|]. intros [= <-].
  unfold in_u, UINT32_MAX in *. pow_lia.
Qed.

Definition wide_limits (c : is_auth_credential) : Prop :=
  is_u32 (ac_max_connections c) /\ is_u32 (ac_max_opportunistic_chunks c) /\
  is_u32 (ac_max_committed_chunks c).

Lemma zero_limits : wide_limits zero_credential.
Proof. unfold wide_limits, in_u. cbn. split_and!; pow_lia. Qed.

Lemma store_field_limits c field value c' :
  store_field c field value = Some c' -> wide_limits c -> wide_limits c'.
Proof.
  unfold store_field, wide_limits. intros Hs (H1 & H2 & H3).
  repeat (destruct (_ =? _) in Hs; [apply fmap_Some in Hs as (x & Hx & ->); cbn;
    split_and!; try done; try by eapply parse_u32_range|]).
  case_bool_decide; [by injection Hs as <-|]. case_bool_decide; [by injection Hs as <-|done].
Qed.

Definition load_limits (s : load_state) : Prop :=
  Forall wide_limits (ls_entries s) /\ wide_limits (ls_current s).

Lemma close_section_limits clock s s' :
  close_section clock s = Some s' -> load_limits s -> load_limits s'.
Proof.
  unfold close_section. destruct (ls_in_consumer s); [|by intros [= <-]].
  intros (entries & He & ->)%fmap_Some [H1 H2]. split; [|done]. cbn. unfold append_credential in He.
  destruct (_ || _); [done|]. destruct (existsb _ _); [done|]. injection He as <-.
  apply list.Forall_app. split; [done|]. by apply list.Forall_singleton.
Qed.

Lemma load_line_limits clock s buffer s' :
  load_line clock s buffer = Some s' -> load_limits s -> load_limits s'.
Proof.
  unfold load_line. destruct (_ || _); [by intros [= <-]|]. destruct (_ =? 91).
  - unfold open_section. intros (s1 & Hc & (cur & Hs & [= <-])%bind_Some)%bind_Some Hl.
    destruct (close_section_limits _ _ _ Hc Hl) as [H1 _]. split; [done|]. cbn.
    unfold start_consumer_section in Hs. cbv zeta in Hs. repeat (case_match; try done).
    injection Hs as <-. apply zero_limits.
  - unfold load_value. intros ([before after] & _ & Hs)%bind_Some [H1 H2]. cbv zeta in Hs.
    destruct (negb (ls_in_consumer s)).
    + destruct (_ || _); [done|]. by injection Hs as <-.
    + apply fmap_Some in Hs as ([c seen] & Hp & ->). split; [done|]. cbn.
      unfold parse_credential_value in Hp. apply bind_Some in Hp as (field & _ & Hp).
      destruct (negb _); [done|]. apply fmap_Some in Hp as (c' & Hst & [= -> _]). by eapply store_field_limits.
Qed.

Lemma load_lines_limits clock s buffers s' :
  load_lines clock s buffers = Some s' -> load_limits s -> load_limits s'.
Proof.
  revert s. induction buffers as [|b buffers IH]; intros s; [by intros [= <-]|]. cbn [load_lines].
  intros (s1 & Hl & Hs)%bind_Some Hi. eapply IH; [exact Hs|]. by eapply load_line_limits.
Qed.

Lemma parse_file_limits clock file entries :
  parse_file clock file = Some entries -> Forall wide_limits entries.
Proof.
  unfold parse_file. intros (s & Hl & Hs)%bind_Some. destruct (_ || _); [done|].
  apply fmap_Some in Hs as (s' & Hc & ->). eapply close_section_limits; [exact Hc|].
  eapply load_lines_limits; [exact Hl|]. split; [constructor|apply zero_limits].
Qed.

Lemma assign_versions_limits old version entries :
  Forall wide_limits entries -> Forall wide_limits (assign_versions old version entries).1.
Proof.
  intros He. revert version. induction He as [|c entries Hc _ IH]; intros version; [done|]. cbn [assign_versions].
  destruct (match find_entry old (ac_consumer_id c) with Some _ => _ | None => _ end) as [v ver].
  specialize (IH ver). destruct (assign_versions old ver entries) as [es ver']. by constructor.
Qed.

Lemma load_file_limits clock r file :
  Forall wide_limits (ar_entries r) ->
  Forall wide_limits (ar_entries (is_auth_registry_load_file clock r file).1.1).
Proof.
  intros Hr. unfold is_auth_registry_load_file. destruct (negb _); [done|].
  destruct (parse_file clock file) as [entries|] eqn:E; [|done]. unfold commit_entries.
  pose proof (assign_versions_limits (ar_entries r) (ar_next_authorization_version r) entries
    (parse_file_limits _ _ _ E)) as Ha. by destruct (assign_versions _ _ _).
Qed.

(** What [is_auth_registry_get_limits] returns. *)
Lemma get_limits_range r id a b c :
  Forall wide_limits (ar_entries r) -> is_auth_registry_get_limits r id = inr (a, b, c) ->
  is_u32 a /\ is_u32 b /\ is_u32 c.
Proof.
  unfold is_auth_registry_get_limits, find_credential. intros Hr.
  induction Hr as [|e entries He _ IH]; cbn; [done|].
  destruct (str_equal _ _); [|done]. destruct (ac_revoked e); [done|]. by intros [= <- <- <-].
Qed.
