(* ===== verification/MemoryConfigSpec.v ===== *)
(** * Theorems about the memory manager's configuration *)
From Stdlib Require Import Strings.String Strings.Ascii.
From S2P Require Import Prelude Protocol Text Auth AuthFile AuthInv AuthSteps MemoryManager MemoryConfig.

(** ** What is loaded *)

Definition config_widths (c : is_memory_manager_config) : Prop :=
  is_u32 (host_reserve_gib c) /\ is_u32 (max_opportunistic_gib c) /\ is_u32 (max_committed_gib c).

Lemma config_line_widths s buffer s' :
  config_line s buffer = Some s' -> config_widths s.1 -> config_widths s'.1.
Proof.
  destruct s as [parsed seen]. unfold config_line. destruct (_ || _); [by intros [= <-]|].
  intros ([before after] & _ & (field & _ & Hs)%bind_Some)%bind_Some. destruct (negb _); [done|].
  apply bind_Some in Hs as (n & Hn & (c & Hc & [= <-])%bind_Some). apply parse_u32_range in Hn.
  intros (H1 & H2 & H3). unfold store_setting in Hc. unfold config_widths.
  destruct (_ =? _); [destruct (negb _); [done|]; by injection Hc as <-|].
  destruct (_ =? _); [by injection Hc as <-|]. by destruct (_ =? _); injection Hc as <-.
Qed.

Lemma config_lines_widths s buffers s' :
  config_lines s buffers = Some s' -> config_widths s.1 -> config_widths s'.1.
Proof.
  revert s. induction buffers as [|b buffers IH]; intros s; [by intros [= <-]|]. cbn [config_lines].
  intros (s1 & Hl & Hs)%bind_Some Hw. eapply IH; [exact Hs|]. by eapply config_line_widths.
Qed.

(** A configuration that loads has 32-bit numbers and is valid. *)
Lemma config_load_widths file c :
  is_memory_manager_config_load file = inr c -> config_widths c /\ config_valid c = true.
Proof.
  destruct file as [file|]; [|done]. cbn. destruct (config_lines _ _) as [[parsed seen]|] eqn:E; [|done].
  destruct (_ || _) eqn:Ev; [done|]. intros [= <-]. rewrite !orb_false_iff, !negb_false_iff in Ev.
  split; [|apply Ev]. apply (config_lines_widths _ _ _ E). unfold config_widths, in_u. cbn. split_and!; pow_lia.
Qed.

(** ** Writing and reading a file *)

Inductive setting := Version | HostReserve | Opportunistic | Committed.

Definition setting_key (f : setting) : list Z :=
  match f with
  | Version => chars "version"
  | HostReserve => chars "host_reserve_gib"
  | Opportunistic => chars "max_opportunistic_gib"
  | Committed => chars "max_committed_gib"
  end.

Definition setting_value (c : is_memory_manager_config) (f : setting) : Z :=
  match f with
  | Version => 1
  | HostReserve => host_reserve_gib c
  | Opportunistic => max_opportunistic_gib c
  | Committed => max_committed_gib c
  end.

(** A line [key = value]. *)
Definition setting_line (c : is_memory_manager_config) (f : setting) : list Z :=
  setting_key f ++ chars " = " ++ print_unsigned (setting_value c f) ++ [10].

Definition config_text (c : is_memory_manager_config) (fields : list setting) : list Z :=
  concat (setting_line c <$> fields).

Lemma fgets_line room line rest acc :
  Forall (fun c => c <> 10) line -> (length acc + length line + 1 < room)%nat ->
  fgets_lines room acc (line ++ 10 :: rest) = (acc ++ line ++ [10]) :: fgets_lines room [] rest.
Proof.
  intros Hl. revert acc. induction Hl as [|c line Hc _ IH]; intros acc Hr; cbn [app fgets_lines].
  - by rewrite Z.eqb_refl.
  - rewrite (proj2 (Z.eqb_neq _ _) Hc), bool_decide_eq_false_2 by (rewrite length_app; cbn in *; lia).
    cbn [orb]. rewrite IH by (rewrite length_app; cbn in *; lia). by rewrite <- app_assoc.
Qed.

Lemma fgets_text c fields :
  config_widths c ->
  fgets_lines 255 [] (config_text c fields) = setting_line c <$> fields.
Proof.
  intros Hc. induction fields as [|f fields IH]; [done|]. unfold config_text in *. cbn [fmap list_fmap concat].
  assert (Hv : is_u64 (setting_value c f)).
  { destruct Hc as (H1 & H2 & H3). destruct f; cbn; unfold in_u in *; pow_lia. }
  destruct (print_unsigned_spec _ Hv) as (_ & Hd & Hn). set (v := print_unsigned (setting_value c f)) in *.
  assert (Hline : setting_line c f = (setting_key f ++ chars " = " ++ v) ++ [10])
    by (unfold setting_line; fold v; by rewrite <- !app_assoc).
  clearbody v. rewrite Hline. rewrite <- app_assoc. cbn [app]. rewrite fgets_line.
  - by rewrite IH, app_nil_l.
  - rewrite !list.Forall_app. split_and!; [by destruct f; repeat constructor..|].
    eapply list.Forall_impl; [exact Hd|]. intros x Hx ->. by vm_compute in Hx.
  - rewrite !length_app. assert (length (setting_key f) <= 21)%nat by (destruct f; cbn; lia). cbn. lia.
Qed.

(** [trim] takes the blanks off a text whose ends are not blank. *)
Lemma trim_padded b l t :
  Forall (fun c => blank c = true) b -> Forall (fun c => trailing c = true) t -> l <> [] ->
  (forall c, head l = Some c -> blank c = false) -> (forall c, list.last l = Some c -> trailing c = false) ->
  trim (b ++ l ++ t) = l.
Proof.
  intros Hb Ht Hne Hh Hl. unfold trim. destruct (take_while_all blank b (l ++ t) Hb) as [_ ->].
  { destruct l as [|x l]; [done|exact Hh]. }
  rewrite rev_app_distr.
  destruct (take_while_all trailing (rev t) (rev l) (Forall_rev Ht)) as [_ ->]; [|by rewrite rev_involutive].
  intros c Hc. apply Hl. destruct l as [|y l _] using rev_ind; [done|].
  rewrite rev_app_distr in Hc. cbn in Hc. by rewrite last_snoc.
Qed.

Lemma separate_at key rest :
  Forall (fun c => c <> 61) key -> separate (key ++ 61 :: rest) = Some (key, rest).
Proof.
  intros Hk. induction Hk as [|c key Hc _ IH]; cbn; [done|]. by rewrite (proj2 (Z.eqb_neq _ _) Hc), IH.
Qed.

Lemma c_string_plain l : Forall (fun c => c <> 0) l -> c_string l = l.
Proof. intros Hl. induction Hl as [|c l Hc _ IH]; cbn; [done|]. by rewrite (proj2 (Z.eqb_neq _ _) Hc), IH. Qed.

Definition store_value (parsed c : is_memory_manager_config) (f : setting) : is_memory_manager_config :=
  match f with
  | Version => parsed
  | HostReserve => parsed <| host_reserve_gib := host_reserve_gib c |>
  | Opportunistic => parsed <| max_opportunistic_gib := max_opportunistic_gib c |>
  | Committed => parsed <| max_committed_gib := max_committed_gib c |>
  end.

Definition setting_bit (f : setting) : Z :=
  match f with Version => 1 | HostReserve => 2 | Opportunistic => 4 | Committed => 8 end.

Definition digit_text (v : list Z) : Prop :=
  v <> [] /\ Forall (fun c => is_digit c = true) v.

Lemma digit_text_plain v : digit_text v ->
  (forall c, head v = Some c -> blank c = false) /\ (forall c, list.last v = Some c -> trailing c = false) /\
  Forall (fun c => c <> 0) v.
Proof.
  intros [_ Hv]. rewrite list.Forall_forall in Hv. split_and!.
  - intros c Hc. assert (Hd : is_digit c = true) by (apply Hv; destruct v; [done|]; injection Hc as ->; left).
    unfold is_digit in Hd. unfold blank. lia.
  - intros c Hc. assert (Hd : is_digit c = true) by (by apply Hv, last_Some_elem_of).
    unfold is_digit in Hd. unfold trailing, blank. lia.
  - apply list.Forall_forall. intros c Hc ->. by apply Hv in Hc.
Qed.

(** A line with any digits after the key. *)
Lemma config_line_setting parsed seen f v n c :
  digit_text v -> parse_u32 v = Some n -> n = setting_value c f -> Z.land seen (setting_bit f) = 0 ->
  config_line (parsed, seen) (setting_key f ++ chars " = " ++ v ++ [10]) =
    Some (store_value parsed c f, Z.lor seen (setting_bit f)).
Proof.
  intros Hv Hn -> Hseen. destruct (digit_text_plain v Hv) as (Hh & Hl & Hz).
  set (key := setting_key f).
  assert (Hk : key <> [] /\ (forall c, head key = Some c -> blank c = false) /\
    (forall c, list.last key = Some c -> trailing c = false) /\ Forall (fun c => c <> 0) key /\
    Forall (fun c => c <> 61) key) by (by unfold key; destruct f; split_and!; try (intros ? [= <-]); repeat constructor).
  destruct Hk as (Hk1 & Hk2 & Hk3 & Hk4 & Hk5).
  unfold config_line. rewrite c_string_plain
    by (rewrite !list.Forall_app; split_and!; [done|by repeat constructor|done|by repeat constructor]).
  assert (Hline : trim (key ++ chars " = " ++ v ++ [10]) = key ++ chars " = " ++ v).
  { replace (key ++ chars " = " ++ v ++ [10]) with ([] ++ (key ++ chars " = " ++ v) ++ [10])
      by (cbn [app]; by rewrite <- !app_assoc).
    apply trim_padded; [constructor|by repeat constructor|by destruct key| |].
    - intros x Hx. apply Hk2. by destruct key.
    - intros x Hx. apply Hl. rewrite app_assoc, last_app in Hx. destruct (list.last v) eqn:E; [done|].
      apply last_None in E. by destruct Hv. }
  rewrite Hline.
  assert (Hfirst : byte_at (key ++ chars " = " ++ v) 0 = byte_at key 0) by (by destruct key).
  rewrite Hfirst. replace ((byte_at key 0 =? 0) || (byte_at key 0 =? 35) || (byte_at key 0 =? 59)) with false
    by (unfold key; by destruct f).
  assert (Hsep : separate (key ++ chars " = " ++ v) = Some (key ++ [32], [32] ++ v)).
  { replace (key ++ chars " = " ++ v) with ((key ++ [32]) ++ 61 :: ([32] ++ v)) by (by rewrite <- app_assoc).
    apply separate_at. apply list.Forall_app. split; [done|by repeat constructor]. }
  rewrite Hsep. cbn [mbind option_bind].
  pose proof (trim_padded [] key [32] ltac:(constructor) ltac:(by repeat constructor) Hk1 Hk2 Hk3) as Htk.
  pose proof (trim_padded [32] v [] ltac:(by repeat constructor) ltac:(constructor) (proj1 Hv) Hh Hl) as Htv.
  rewrite app_nil_r in Htv. cbn [app] in Htk, Htv |- *. rewrite Htk, Htv.
  assert (Hfield : config_field key = Some (setting_bit f)) by (unfold key; by destruct f).
  rewrite Hfield. cbn [mbind option_bind]. rewrite Hseen, Hn. cbn [Z.eqb negb mbind option_bind].
  by destruct f.
Qed.

Lemma config_line_text c f parsed seen :
  config_widths c -> Z.land seen (setting_bit f) = 0 ->
  config_line (parsed, seen) (setting_line c f) = Some (store_value parsed c f, Z.lor seen (setting_bit f)).
Proof.
  intros (H1 & H2 & H3) Hseen.
  assert (Hv : is_u32 (setting_value c f)) by (destruct f; cbn; try done; unfold in_u; pow_lia).
  assert (Hv64 : is_u64 (setting_value c f)) by (unfold in_u in *; pow_lia).
  destruct (print_unsigned_spec _ Hv64) as (_ & Hd & Hl).
  apply (config_line_setting _ _ _ _ (setting_value c f)); [|by apply parse_u32_print|done|done].
  split; [|done]. intros E. rewrite E in Hl. cbn in Hl. lia.
Qed.

(** The settings of a file, one after the other. *)
Definition settings_stored (c : is_memory_manager_config) (parsed : is_memory_manager_config)
    (fields : list setting) : is_memory_manager_config :=
  fold_left (fun parsed f => store_value parsed c f) fields parsed.
Definition settings_seen (seen : Z) (fields : list setting) : Z :=
  fold_left (fun seen f => Z.lor seen (setting_bit f)) fields seen.

#[export] Instance setting_eq_dec : EqDecision setting.
Proof. solve_decision. Defined.

Lemma setting_bits_disjoint f g : f <> g -> Z.land (setting_bit f) (setting_bit g) = 0.
Proof. by destruct f, g. Qed.

Lemma config_lines_text c fields parsed seen :
  config_widths c -> NoDup fields -> (forall f, f ∈ fields -> Z.land seen (setting_bit f) = 0) ->
  config_lines (parsed, seen) (setting_line c <$> fields) =
    Some (settings_stored c parsed fields, settings_seen seen fields).
Proof.
  intros Hc Hd. revert parsed seen. induction Hd as [|f fields Hf Hd IH]; intros parsed seen Hs; [done|].
  cbn [fmap list_fmap config_lines]. rewrite config_line_text by (done || by apply Hs; left). cbn [mbind option_bind].
  rewrite IH; [done|]. intros g Hg. rewrite Z.land_lor_distr_l, (Hs g) by (by right).
  rewrite setting_bits_disjoint; [done|]. by intros ->.
Qed.

Lemma settings_stored_value c f fields parsed :
  f ∈ fields \/ setting_value parsed f = setting_value c f ->
  setting_value (settings_stored c parsed fields) f = setting_value c f.
Proof.
  revert parsed. induction fields as [|g fields IH]; intros parsed Hf; cbn.
  - by destruct Hf as [Hf|]; [apply elem_of_nil in Hf|].
  - apply IH. rewrite elem_of_cons in Hf. destruct Hf as [[->|Hf]|Hf]; [right; by destruct g|by left|right].
    by destruct f, g.
Qed.

Lemma settings_seen_permutes fields fields' seen :
  fields ≡ₚ fields' -> settings_seen seen fields = settings_seen seen fields'.
Proof.
  intros Hp. revert seen. induction Hp as [|f l l' _ IH|f g l|l1 l2 l3 _ IH1 _ IH2]; intros seen; cbn.
  - done.
  - apply IH.
  - by rewrite <- !Z.lor_assoc, (Z.lor_comm (setting_bit g)).
  - by rewrite IH1, IH2.
Qed.

(** C37. Writing and reading back.  A file that has the four settings in any
    order, each on its line, loads to exactly the configuration it was
    written from, if that is valid. *)
Theorem config_roundtrip c fields :
  config_widths c -> config_valid c = true -> fields ≡ₚ [Version; HostReserve; Opportunistic; Committed] ->
  is_memory_manager_config_load (Some {| cf_bytes := config_text c fields; cf_error := false |}) = inr c.
Proof.
  intros Hc Hv Hp. cbn. rewrite fgets_text by done.
  assert (Hd : NoDup fields) by (rewrite Hp; by apply (bool_decide_unpack _)).
  assert (Hall : forall f, f ∈ fields) by (intros f; rewrite Hp; destruct f; set_solver).
  rewrite config_lines_text; [|done|done|by intros; apply Z.land_0_l].
  rewrite (settings_seen_permutes _ _ 0 Hp). cbn [settings_seen fold_left setting_bit Z.lor Pos.lor Z.eqb Pos.eqb negb orb].
  assert (Hs : settings_stored c zero_config fields = c).
  { pose proof (fun f => settings_stored_value c f fields zero_config (or_introl (Hall f))) as Hf.
    pose proof (Hf HostReserve) as E1. pose proof (Hf Opportunistic) as E2. pose proof (Hf Committed) as E3. cbn in E1, E2, E3.
    destruct (settings_stored _ _ _), c. cbn in *. by subst. }
  by rewrite Hs, Hv.
Qed.

Lemma config_roundtrip_witness :
  is_memory_manager_config_load (Some {| cf_error := false;
    cf_bytes := config_text {| host_reserve_gib := 2; max_opportunistic_gib := 40; max_committed_gib := 8 |}
      [Committed; Version; Opportunistic; HostReserve] |}) =
  inr {| host_reserve_gib := 2; max_opportunistic_gib := 40; max_committed_gib := 8 |}.
Proof.
  apply (config_roundtrip {| host_reserve_gib := 2; max_opportunistic_gib := 40; max_committed_gib := 8 |}
    [Committed; Version; Opportunistic; HostReserve]).
  - by vm_compute.
  - by vm_compute.
  - solve_Permutation.
Defined.

(** ** Long lines *)

(** A comment of 255 characters with a setting at its end. *)
Definition long_comment : list Z := 35 :: replicate 254 32 ++ chars ("max_committed_gib = 100" ++ newline)%string.

(** The part of a comment past the buffer of [fgets] is read as a line of its
    own, here a setting. *)
Theorem comment_tail_is_read :
  is_memory_manager_config_load (Some {| cf_error := false;
    cf_bytes := chars ("version = 1" ++ newline ++ "host_reserve_gib = 2" ++ newline ++
      "max_opportunistic_gib = 8" ++ newline)%string ++ long_comment |}) =
  inr {| host_reserve_gib := 2; max_opportunistic_gib := 8; max_committed_gib := 100 |}.
Proof. by vm_compute. Qed.
