(* ===== verification/AuthExample.v ===== *)
(** * An example registry, for the witnesses *)
From Stdlib Require Import Strings.String Strings.Ascii.
From S2P Require Import Prelude Protocol Text Auth AuthFile AuthInv.

Definition padded (n : nat) (l : list Z) : list Z := buf_write (zeros n) 0 l.

Definition ex_key (id : string) (byte : Z) : is_auth_key :=
  {| ak_key_id := padded 32 (chars id); ak_secret := padded 64 (replicate 32 byte);
     ak_secret_size := 32 |}.

Definition ex_credential (id : string) : is_auth_credential :=
  zero_credential <| ac_consumer_id := padded 64 (chars id) |>
    <| ac_current := ex_key "k1" 7 |> <| ac_next := ex_key "k2" 9 |>
    <| ac_next_valid_until_unix := 2000 |> <| ac_max_connections := 2 |>
    <| ac_max_opportunistic_chunks := 4 |>.

Definition ex_calls : list auth_call :=
  [Add 1000 (ex_credential "node-a"); Add 1000 (ex_credential "node-b");
   Subscribe (chars "node-a") 1 77; Subscribe (chars "node-b") 2 88].

(** A file that keeps [node-b], with another limit, and drops [node-a]. *)
Definition ex_secret : string := "0909090909090909090909090909090909090909090909090909090909090909".
Definition ex_file : auth_file :=
  {| af_acceptable := true; af_error := false;
     af_bytes := chars ("version = 1" ++ newline ++ "# the storage nodes" ++ newline ++
       "[consumer:node-b]" ++ newline ++ "current_key_id = k9" ++ newline ++
       "current_psk_hex = " ++ ex_secret ++ newline ++
       "max_connections = 2" ++ newline ++ "max_committed_chunks = 1" ++ newline)%string |}.

(** A function of the right type in the place of HMAC-SHA256. *)
Definition ex_mac : Mac := fun secret data =>
  Some (take 32 (Z.of_nat (length data) mod 256 :: secret)).

Definition ex_registry : is_auth_registry := auth_perform_all is_auth_registry_init ex_calls.
