(* ===== verification/AuthSpec.v ===== *)
(** * Theorems about consumer authentication *)
From Stdlib Require Import Strings.String Strings.Ascii.
From S2P Require Import Prelude Protocol Text Auth AuthFile AuthInv AuthSteps AuthExample.

(** ** Authorizations *)

(** C21. An authorization that is withdrawn is never regained.  Let [r] be the
    registry after any sequence of calls and let consumer [id] be authorized
    under version [v].  If after more calls (a revocation, or a credential
    file that revokes, changes or drops the consumer) it no longer is, then no
    further calls authorize version [v] again, not even those that add the
    consumer back or lift its revocation, as long as the 64-bit counter of
    versions does not wrap. *)
Theorem authorization_never_regained before during after id v :
  versions_left is_auth_registry_init (length before + length during + length after) ->
  let r := auth_perform_all is_auth_registry_init before in
  let r1 := auth_perform_all r during in
  let r2 := auth_perform_all r1 after in
  is_auth_registry_validate_authorization r id v = IS_AUTH_OK ->
  is_auth_registry_validate_authorization r1 id v <> IS_AUTH_OK ->
  is_auth_registry_validate_authorization r2 id v <> IS_AUTH_OK.
Proof.
  intros Hl r r1 r2 Ha Hn.
  destruct (auth_run_ok is_auth_registry_init before (length during + length after))
    as [Hok Hl1]; [apply registry_ok_init|by rewrite Nat.add_assoc|].
  destruct (auth_run_ok _ during (length after) Hok Hl1) as [Hok1 Hl2].
  apply withdrawn_not_authorized, withdrawn_forever; [done..|].
  destruct (authorized_or_withdrawn r during id v); try done.
  eapply versions_left_le; [|exact Hl1]. lia.
Qed.

Lemma authorization_never_regained_witness :
  is_auth_registry_validate_authorization
    (auth_perform_all (auth_perform_all (auth_perform_all is_auth_registry_init ex_calls)
      [LoadFile (fun _ => 1000) ex_file]) [Add 1000 (ex_credential "node-a")])
    (chars "node-a") 1 <> IS_AUTH_OK.
Proof.
  apply (authorization_never_regained ex_calls [LoadFile (fun _ => 1000) ex_file]
           [Add 1000 (ex_credential "node-a")] (chars "node-a") 1).
  - by vm_compute.
  - by vm_compute.
  - by vm_compute.
Defined.



(** The registry stays well formed.  After any sequence of calls from an
    empty registry (short of wrapping the version counter) there are at most
    64 entries with distinct names, each a credential that was valid when it
    was accepted, with a nonzero version not above the counter, and at most 64
    listeners with distinct contexts, whose names fit in their array. *)
Theorem registry_invariant calls :
  versions_left is_auth_registry_init (length calls) ->
  registry_ok (auth_perform_all is_auth_registry_init calls).
Proof. intros. apply registry_ok_all; [apply registry_ok_init|done]. Qed.

Lemma registry_invariant_witness :
  registry_ok (auth_perform_all is_auth_registry_init (ex_calls ++ [LoadFile (fun _ => 1000) ex_file])).
Proof. apply registry_invariant. by vm_compute. Defined.

(** ** Verification of a tag *)

(** C23. A tag is accepted exactly when it is the HMAC-SHA256, under the
    consumer's current key or its next key that has not expired, of the
    authentication domain, this HELLO frame and this CHALLENGE frame, and the
    consumer is not revoked.  The session is then good until the key expires
    (0 for the current key, which does not), and the version it is given is
    authorized by the registry. *)
Theorem verify_exact `{Mac} now r id key_id hello challenge tag until v :
  registry_ok r ->
  is_auth_registry_verify now r id key_id hello challenge tag = (IS_AUTH_OK, until, v) <->
  is_auth_registry_validate_authorization r id v = IS_AUTH_OK /\
  exists c key, find_credential r id = Some c /\ usable_key now c key_id key until /\
    frame_size_ok hello /\ frame_size_ok challenge /\
    IS_AUTH_SECRET_MIN_SIZE <= ak_secret_size key <= IS_AUTH_SECRET_MAX_SIZE /\
    hmac_sha256 (take (Z.to_nat (ak_secret_size key)) (ak_secret key))
      (auth_domain ++ hello ++ challenge) = Some tag /\
    Z.of_nat (length tag) = IS_PROTOCOL_AUTH_TAG_SIZE.
Proof.
  intros Hok. rewrite authorized_iff. unfold is_auth_registry_verify.
  destruct (find_credential r id) as [c|] eqn:Ec;
    [|split; [done|intros ((_ & ? & ? & _) & _); done]].
  destruct (find_credential_ok _ _ _ Hok Ec) as [[_ Hv] _]. split.
  - destruct (ac_revoked c) eqn:Er; [done|].
    destruct (select_key now c key_id) as [[key u]|] eqn:Es; [|done].
    destruct (is_auth_compute_tag _ _ _ _) as [|expected] eqn:Et; [apply compute_tag_error in Et; congruence|].
    case_bool_decide; [|done]. intros [= <- <-]. subst expected.
    apply compute_tag_spec in Et as (? & ? & ? & ? & ?). apply select_key_spec in Es.
    split; [split; [lia|by exists c]|]. exists c, key. done.
  - intros ((H0 & ? & [= <-] & -> & Hver) & ? & key & [= <-] & Hk & ? & ? & ? & ? & ?).
    apply select_key_spec in Hk. rewrite Hk.
    rewrite (proj2 (compute_tag_spec _ _ _ _ tag)) by done. by rewrite bool_decide_true, Hver by done.
Qed.

Lemma verify_exact_witness :
  @is_auth_registry_verify ex_mac 1000 ex_registry (chars "node-a") (chars "k2") [1; 2] [3]
    (39 :: replicate 31 9) = (IS_AUTH_OK, 2000, 1).
Proof.
  apply (@verify_exact ex_mac 1000 ex_registry (chars "node-a") (chars "k2") [1; 2] [3]
           (39 :: replicate 31 9) 2000 1).
  - apply registry_ok_all; [apply registry_ok_init|by vm_compute].
  - split; [by vm_compute|]. exists ((ex_credential "node-a") <| ac_authorization_version := 1 |>), (ex_key "k2"%string 9).
    split; [by vm_compute|]. split.
    + split; [|by vm_compute]. right. repeat split; try done; by vm_compute.
    + repeat split; try done; by vm_compute.
Defined.

(** The sign guard of [parse_u64] looks at the first character only, and
    [trim] keeps a leading vertical tab, which [strtoull] skips: ["\v-1"] is
    read as the largest number. *)
Lemma parse_u64_skips_sign_guard :
  parse_u64 (chars "-1") = None /\ parse_u64 (trim (11 :: chars "-1")) = Some UINT64_MAX.
Proof. by vm_compute. Qed.
