(* ===== verification/ProviderSession.v ===== *)
(** * A consumer's session at the provider
      (src/infiniswap_daemon/infiniswap_provider_session.c, .h)

    The state machine that answers the frames of one consumer.  The registry
    the session points to is shared and changes between frames, so each call
    takes the registry it finds; the clock is an argument.  A frame is the
    list of its [frame_size] bytes. *)
From S2P Require Import Prelude Protocol Text Auth.

Inductive is_provider_session_state :=
| IS_PROVIDER_SESSION_WAIT_HELLO
| IS_PROVIDER_SESSION_WAIT_AUTH
| IS_PROVIDER_SESSION_READY
| IS_PROVIDER_SESSION_CLOSED.

#[export] Instance is_provider_session_state_eq_dec : EqDecision is_provider_session_state.
Proof. solve_decision. Defined.

(** [ps_hello_frame] and [ps_challenge_frame] are the bytes in use of the
    arrays of that name, with their sizes. *)
Record is_provider_session := {
  ps_state : is_provider_session_state;
  ps_local_minor : Z;
  ps_negotiated_minor : Z;
  ps_supported_capabilities : Z;
  ps_required_capabilities : Z;
  ps_negotiated_capabilities : Z;
  ps_session_id : Z;
  ps_last_request_id : Z;
  ps_authenticated_until_unix : Z;
  ps_authorization_version : Z;
  ps_failure_deadline_ms : Z;
  ps_last_error_code : Z;
  ps_selected_mode : Z;
  ps_selected_pool : Z;
  ps_provider_nonce : list Z;
  ps_consumer_id : list Z;
  ps_key_id : list Z;
  ps_hello_frame : list Z;
  ps_challenge_frame : list Z
}.

#[export] Instance is_provider_session_eta : Eta is_provider_session := fun s =>
  {| ps_state := ps_state s; ps_local_minor := ps_local_minor s;
     ps_negotiated_minor := ps_negotiated_minor s;
     ps_supported_capabilities := ps_supported_capabilities s;
     ps_required_capabilities := ps_required_capabilities s;
     ps_negotiated_capabilities := ps_negotiated_capabilities s;
     ps_session_id := ps_session_id s; ps_last_request_id := ps_last_request_id s;
     ps_authenticated_until_unix := ps_authenticated_until_unix s;
     ps_authorization_version := ps_authorization_version s;
     ps_failure_deadline_ms := ps_failure_deadline_ms s;
     ps_last_error_code := ps_last_error_code s; ps_selected_mode := ps_selected_mode s;
     ps_selected_pool := ps_selected_pool s; ps_provider_nonce := ps_provider_nonce s;
     ps_consumer_id := ps_consumer_id s; ps_key_id := ps_key_id s;
     ps_hello_frame := ps_hello_frame s; ps_challenge_frame := ps_challenge_frame s |}.

Record is_provider_session_outcome := {
  po_response_ready : bool;
  po_request_ready : bool;
  po_close_after_response : bool;
  po_response_size : Z;
  po_request : is_protocol_message
}.

#[export] Instance is_provider_session_outcome_eta : Eta is_provider_session_outcome := fun o =>
  {| po_response_ready := po_response_ready o; po_request_ready := po_request_ready o;
     po_close_after_response := po_close_after_response o;
     po_response_size := po_response_size o; po_request := po_request o |}.

Definition zero_header : is_protocol_header :=
  {| hdr_major := 0; hdr_minor := 0; hdr_type := 0; hdr_flags := 0; hdr_request_id := 0;
     hdr_session_id := 0; hdr_capabilities := 0; hdr_required_capabilities := 0 |}.

Definition zero_message : is_protocol_message :=
  {| msg_header := zero_header; msg_payload := payload_none |}.

Definition zero_outcome : is_provider_session_outcome :=
  {| po_response_ready := false; po_request_ready := false; po_close_after_response := false;
     po_response_size := 0; po_request := zero_message |}.

(** What a call leaves: the session, the response buffer, the outcome and the
    returned value. *)
Definition session_result : Type :=
  is_provider_session * list Z * is_provider_session_outcome * Z.

Section Session.
Context `{ProtocolBuild} `{Mac}.

Definition frame_type (frame : list Z) : Z :=
  if Z.of_nat (length frame) <? 10 then IS_PROTOCOL_MSG_HELLO
  else u16 (Z.lor (Z.shiftl (byte_at frame 8) 8) (byte_at frame 9)).

Definition frame_request_id (frame : list Z) : Z :=
  if Z.of_nat (length frame) <? 24 then 1
  else
    let value := for_loop 8 16 (fun index value =>
      Z.lor (u64 (Z.shiftl value 8)) (byte_at frame index)) 0 in
    if value =? 0 then 1 else value.

Definition protocol_result_to_error (result : is_protocol_result) : Z :=
  match result with
  | IS_PROTOCOL_UNSUPPORTED_VERSION => IS_PROTOCOL_ERROR_VERSION
  | IS_PROTOCOL_UNKNOWN_REQUIRED_CAPABILITY
  | IS_PROTOCOL_INVALID_CAPABILITIES => IS_PROTOCOL_ERROR_CAPABILITY
  | _ => IS_PROTOCOL_ERROR_MALFORMED
  end.

Definition error_message (s : is_provider_session) (request_id offending_type code : Z) :
    is_protocol_message :=
  {| msg_header := {|
       hdr_major := IS_PROTOCOL_MAJOR;
       hdr_minor := ps_negotiated_minor s;
       hdr_type := IS_PROTOCOL_MSG_ERROR;
       hdr_flags := Z.lor IS_PROTOCOL_FLAG_RESPONSE IS_PROTOCOL_FLAG_ERROR;
       hdr_request_id := if request_id =? 0 then 1 else request_id;
       hdr_session_id :=
         if bool_decide (ps_state s = IS_PROVIDER_SESSION_READY) then ps_session_id s else 0;
       hdr_capabilities := ps_negotiated_capabilities s;
       hdr_required_capabilities :=
         Z.land (ps_required_capabilities s) (ps_negotiated_capabilities s) |};
     msg_payload := payload_error {|
       error_code := code;
       error_offending_type := offending_type;
       error_retryable := if code =? IS_PROTOCOL_ERROR_RESOURCE then 1 else 0 |} |}.

Definition build_error (s : is_provider_session) (request_id offending_type code : Z)
    (response : list Z) (response_capacity : Z) (outcome : is_provider_session_outcome) :
    session_result :=
  match is_protocol_encode (Some (error_message s request_id offending_type code))
          (Some response) response_capacity with
  | inl _ => (s, response, outcome, -1)
  | inr (response, response_size) =>
      (s <| ps_last_error_code := u16 code |> <| ps_state := IS_PROVIDER_SESSION_CLOSED |>,
       response,
       outcome <| po_response_size := response_size |> <| po_response_ready := true |>
               <| po_close_after_response := true |>,
       0)
  end.

Definition is_provider_session_init (local_minor supported_capabilities required_capabilities : Z)
    (provider_nonce : list Z) (session_id : Z) : is_provider_session :=
  {| ps_state := IS_PROVIDER_SESSION_WAIT_HELLO;
     ps_local_minor := local_minor;
     ps_negotiated_minor := local_minor;
     ps_supported_capabilities := supported_capabilities;
     ps_required_capabilities := required_capabilities;
     ps_negotiated_capabilities := supported_capabilities;
     ps_session_id := session_id;
     ps_last_request_id := 0; ps_authenticated_until_unix := 0; ps_authorization_version := 0;
     ps_failure_deadline_ms := 0; ps_last_error_code := 0; ps_selected_mode := 0;
     ps_selected_pool := 0;
     ps_provider_nonce := provider_nonce;
     ps_consumer_id := zeros 64; ps_key_id := zeros 32; ps_hello_frame := [];
     ps_challenge_frame := [] |}.

Definition hello_capabilities_valid (hello : is_protocol_hello) (negotiated_capabilities : Z) : bool :=
  if ((hello_mode hello =? IS_PROTOCOL_MODE_BACKED) &&
      negb (hello_pool hello =? IS_PROTOCOL_POOL_OPPORTUNISTIC)) ||
     ((hello_mode hello =? IS_PROTOCOL_MODE_REMOTE_ONLY) &&
      negb (hello_pool hello =? IS_PROTOCOL_POOL_COMMITTED))
  then false
  else
    let mode_capability :=
      if hello_mode hello =? IS_PROTOCOL_MODE_BACKED then IS_PROTOCOL_CAP_BACKED
      else IS_PROTOCOL_CAP_REMOTE_ONLY in
    let pool_capability :=
      if hello_pool hello =? IS_PROTOCOL_POOL_OPPORTUNISTIC
      then IS_PROTOCOL_CAP_OPPORTUNISTIC_POOL else IS_PROTOCOL_CAP_COMMITTED_POOL in
    negb (Z.land negotiated_capabilities mode_capability =? 0) &&
    negb (Z.land negotiated_capabilities pool_capability =? 0) &&
    negb (Z.land negotiated_capabilities IS_PROTOCOL_CAP_FAILURE_DEADLINE =? 0) &&
    negb (Z.land negotiated_capabilities IS_PROTOCOL_CAP_STATUS =? 0) &&
    negb (Z.land negotiated_capabilities IS_PROTOCOL_CAP_AUTH_HMAC_SHA256 =? 0).

Definition challenge_message (s : is_provider_session) (request_id : Z) : is_protocol_message :=
  {| msg_header := {|
       hdr_major := IS_PROTOCOL_MAJOR;
       hdr_minor := ps_negotiated_minor s;
       hdr_type := IS_PROTOCOL_MSG_CHALLENGE;
       hdr_flags := IS_PROTOCOL_FLAG_RESPONSE;
       hdr_request_id := request_id;
       hdr_session_id := 0;
       hdr_capabilities := ps_negotiated_capabilities s;
       hdr_required_capabilities := ps_required_capabilities s |};
     msg_payload := payload_challenge {|
       challenge_nonce := ps_provider_nonce s;
       challenge_negotiated_minor := ps_negotiated_minor s |} |}.

(** [strcpy] into a character array. *)
Definition strcpy (array value : list Z) : list Z := buf_write array 0 (c_string value ++ [0]).

(** What [handle_hello] records of an acceptable HELLO. *)
Definition record_hello (s : is_provider_session) (message : is_protocol_message)
    (frame : list Z) : is_provider_session :=
  let hello := get_hello (msg_payload message) in
  s <| ps_hello_frame := frame |>
    <| ps_consumer_id := strcpy (ps_consumer_id s) (hello_consumer_id hello) |>
    <| ps_key_id := strcpy (ps_key_id s) (hello_key_id hello) |>
    <| ps_selected_mode := hello_mode hello |>
    <| ps_selected_pool := hello_pool hello |>
    <| ps_failure_deadline_ms := hello_failure_deadline_ms hello |>
    <| ps_last_request_id := hdr_request_id (msg_header message) |>.

(** [is_protocol_negotiate] stores its results only when it succeeds. *)
Definition negotiate_hello (s : is_provider_session) (message : is_protocol_message) :
    is_provider_session * bool :=
  let header := msg_header message in
  match is_protocol_negotiate (ps_local_minor s) (ps_supported_capabilities s)
          (ps_required_capabilities s) (hdr_minor header) (hdr_capabilities header)
          (hdr_required_capabilities header) with
  | inl _ => (s, false)
  | inr (minor, capabilities) =>
      (s <| ps_negotiated_minor := minor |> <| ps_negotiated_capabilities := capabilities |>, true)
  end.

Definition handle_hello (s : is_provider_session) (message : is_protocol_message)
    (frame response : list Z) (response_capacity : Z) (outcome : is_provider_session_outcome) :
    session_result :=
  let request_id := hdr_request_id (msg_header message) in
  let '(s, negotiated) := negotiate_hello s message in
  if negb negotiated ||
     negb (hello_capabilities_valid (get_hello (msg_payload message)) (ps_negotiated_capabilities s))
  then build_error s request_id IS_PROTOCOL_MSG_HELLO IS_PROTOCOL_ERROR_CAPABILITY
         response response_capacity outcome
  else
    let s := record_hello s message frame in
    match is_protocol_encode (Some (challenge_message s request_id)) (Some response)
            response_capacity with
    | inl _ => (s, response, outcome, -1)
    | inr (response, response_size) =>
        (s <| ps_challenge_frame := take (Z.to_nat response_size) response |>
           <| ps_state := IS_PROVIDER_SESSION_WAIT_AUTH |>,
         response,
         outcome <| po_response_size := response_size |> <| po_response_ready := true |>,
         0)
    end.

Definition auth_error_code (result : is_auth_result) : Z :=
  if bool_decide (result = IS_AUTH_REVOKED) then IS_PROTOCOL_ERROR_REVOKED
  else IS_PROTOCOL_ERROR_AUTHENTICATION.

Definition accept_message (s : is_provider_session) (request_id : Z) : is_protocol_message :=
  {| msg_header := {|
       hdr_major := IS_PROTOCOL_MAJOR;
       hdr_minor := ps_negotiated_minor s;
       hdr_type := IS_PROTOCOL_MSG_ACCEPT;
       hdr_flags := IS_PROTOCOL_FLAG_RESPONSE;
       hdr_request_id := request_id;
       hdr_session_id := ps_session_id s;
       hdr_capabilities := ps_negotiated_capabilities s;
       hdr_required_capabilities := ps_required_capabilities s |};
     msg_payload := payload_accept {| accept_negotiated_minor := ps_negotiated_minor s |} |}.

Definition handle_auth (now : Z) (registry : is_auth_registry) (s : is_provider_session)
    (message : is_protocol_message) (response : list Z) (response_capacity : Z)
    (outcome : is_provider_session_outcome) : session_result :=
  let header := msg_header message in
  let request_id := hdr_request_id header in
  let error s code :=
    build_error s request_id IS_PROTOCOL_MSG_AUTH code response response_capacity outcome in
  if request_id <=? ps_last_request_id s then error s IS_PROTOCOL_ERROR_REPLAY
  else if negb (hdr_minor header =? ps_negotiated_minor s) ||
          negb (hdr_capabilities header =? ps_negotiated_capabilities s)
  then error s IS_PROTOCOL_ERROR_CAPABILITY
  else
    let '(auth_result, authenticated_until_unix, authorization_version) :=
      is_auth_registry_verify now registry (ps_consumer_id s) (ps_key_id s)
        (ps_hello_frame s) (ps_challenge_frame s) (auth_tag (get_auth (msg_payload message))) in
    let s := s <| ps_authenticated_until_unix := authenticated_until_unix |>
               <| ps_authorization_version := authorization_version |> in
    if negb (bool_decide (auth_result = IS_AUTH_OK)) then error s (auth_error_code auth_result)
    else
      let s := s <| ps_last_request_id := request_id |>
                 <| ps_state := IS_PROVIDER_SESSION_READY |> in
      match is_protocol_encode (Some (accept_message s request_id)) (Some response)
              response_capacity with
      | inl _ => (s, response, outcome, -1)
      | inr (response, response_size) =>
          (s, response,
           outcome <| po_response_size := response_size |> <| po_response_ready := true |>, 0)
      end.

Definition authenticated_request_allowed (message : is_protocol_message) (response : bool) : bool :=
  let type := hdr_type (msg_header message) in
  if response then (type =? IS_PROTOCOL_MSG_ACTIVITY) || (type =? IS_PROTOCOL_MSG_RELEASE)
  else (type =? IS_PROTOCOL_MSG_STATUS_REQUEST) || (type =? IS_PROTOCOL_MSG_CHUNK_REQUEST) ||
       (type =? IS_PROTOCOL_MSG_GOODBYE).

(** The checks of [handle_authenticated] in their order: the code of the
    error to answer, or none. *)
Definition authenticated_error (now : Z) (registry : is_auth_registry) (s : is_provider_session)
    (message : is_protocol_message) : option Z :=
  let header := msg_header message in
  let response_message := negb (Z.land (hdr_flags header) IS_PROTOCOL_FLAG_RESPONSE =? 0) in
  if negb response_message && (hdr_request_id header <=? ps_last_request_id s)
  then Some IS_PROTOCOL_ERROR_REPLAY
  else if negb (hdr_session_id header =? ps_session_id s) ||
          negb (hdr_minor header =? ps_negotiated_minor s) ||
          negb (hdr_capabilities header =? ps_negotiated_capabilities s)
  then Some IS_PROTOCOL_ERROR_CAPABILITY
  else if negb (ps_authenticated_until_unix s =? 0) &&
          ((now <? 0) || (ps_authenticated_until_unix s <=? now))
  then Some IS_PROTOCOL_ERROR_AUTHENTICATION
  else
    let revoke_result :=
      is_auth_registry_validate_authorization registry (ps_consumer_id s)
        (ps_authorization_version s) in
    if negb (bool_decide (revoke_result = IS_AUTH_OK))
    then Some (if bool_decide (revoke_result = IS_AUTH_REVOKED) then IS_PROTOCOL_ERROR_REVOKED
               else IS_PROTOCOL_ERROR_AUTHENTICATION)
    else if negb (authenticated_request_allowed message response_message)
    then Some IS_PROTOCOL_ERROR_OUT_OF_ORDER
    else if (hdr_type header =? IS_PROTOCOL_MSG_STATUS_REQUEST) &&
            (Z.land (ps_negotiated_capabilities s) IS_PROTOCOL_CAP_STATUS =? 0)
    then Some IS_PROTOCOL_ERROR_CAPABILITY
    else if (hdr_type header =? IS_PROTOCOL_MSG_CHUNK_REQUEST) &&
            negb (request_pool (get_chunk_request (msg_payload message)) =? ps_selected_pool s)
    then Some IS_PROTOCOL_ERROR_CAPABILITY
    else None.

Definition handle_authenticated (now : Z) (registry : is_auth_registry) (s : is_provider_session)
    (message : is_protocol_message) (response : list Z) (response_capacity : Z)
    (outcome : is_provider_session_outcome) : session_result :=
  let header := msg_header message in
  match authenticated_error now registry s message with
  | Some code =>
      build_error s (hdr_request_id header) (hdr_type header) code response response_capacity outcome
  | None =>
      let s :=
        if Z.land (hdr_flags header) IS_PROTOCOL_FLAG_RESPONSE =? 0
        then s <| ps_last_request_id := hdr_request_id header |> else s in
      (s, response, outcome <| po_request := message |> <| po_request_ready := true |>, 0)
  end.

(** The session, the response, its size and the returned value. *)
Definition is_provider_session_fail (s : is_provider_session) (request_id offending_type code : Z)
    (response : list Z) (response_capacity : Z) : is_provider_session * list Z * Z * Z :=
  let '(s, response, outcome, result) :=
    build_error s request_id offending_type code response response_capacity zero_outcome in
  (s, response, po_response_size outcome, result).

(** [previous] is what [*outcome] holds before the call. *)
Definition is_provider_session_handle (now : Z) (registry : is_auth_registry)
    (s : is_provider_session) (frame response : list Z) (response_capacity : Z)
    (previous : is_provider_session_outcome) : session_result :=
  if (ps_session_id s =? 0) || (response_capacity =? 0) then (s, response, previous, -1)
  else
    let outcome := zero_outcome in
    match is_protocol_decode (Some frame) (Z.of_nat (length frame)) with
    | inl result =>
        if frame_type frame =? IS_PROTOCOL_MSG_ERROR then
          (s <| ps_state := IS_PROVIDER_SESSION_CLOSED |>, response,
           outcome <| po_close_after_response := true |>, 0)
        else
          build_error s (frame_request_id frame) (frame_type frame)
            (protocol_result_to_error result) response response_capacity outcome
    | inr message =>
        let header := msg_header message in
        let out_of_order :=
          build_error s (hdr_request_id header) (hdr_type header) IS_PROTOCOL_ERROR_OUT_OF_ORDER
            response response_capacity outcome in
        if hdr_type header =? IS_PROTOCOL_MSG_ERROR then
          let outcome :=
            if bool_decide (ps_state s = IS_PROVIDER_SESSION_READY)
            then outcome <| po_request := message |> <| po_request_ready := true |>
            else outcome in
          (s <| ps_state := IS_PROVIDER_SESSION_CLOSED |>, response,
           outcome <| po_close_after_response := true |>, 0)
        else
          match ps_state s with
          | IS_PROVIDER_SESSION_WAIT_HELLO =>
              if negb (hdr_type header =? IS_PROTOCOL_MSG_HELLO) || negb (hdr_flags header =? 0)
              then out_of_order
              else handle_hello s message frame response response_capacity outcome
          | IS_PROVIDER_SESSION_WAIT_AUTH =>
              if negb (hdr_type header =? IS_PROTOCOL_MSG_AUTH) || negb (hdr_flags header =? 0)
              then out_of_order
              else handle_auth now registry s message response response_capacity outcome
          | IS_PROVIDER_SESSION_READY =>
              handle_authenticated now registry s message response response_capacity outcome
          | IS_PROVIDER_SESSION_CLOSED => out_of_order
          end
    end.
End Session.
