(* ===== verification/ProviderSessionAnswer.v ===== *)
(** * The answers of a provider session

    A session whose configuration is sound can encode every answer, in any
    buffer of at least 84 bytes, and what it encodes decodes to the answer. *)
From S2P Require Import Prelude Protocol ProtocolWire ProtocolRoundtrip ProtocolCanonical ProtocolSpec.
From S2P Require Import Text Auth ProviderSession.

(** The size of a CHALLENGE, the largest answer. *)
Definition answer_capacity : Z := 84.

Definition buffer_ok (response : list Z) (capacity : Z) : Prop :=
  answer_capacity <= capacity <= Z.of_nat (length response).

Section Answers.
Context `{ProtocolBuild}.

Record session_ok (s : is_provider_session) : Prop := {
  so_local : is_minor_valid (ps_local_minor s) = true /\ is_u16 (ps_local_minor s);
  so_minor : is_minor_valid (ps_negotiated_minor s) = true /\ is_u16 (ps_negotiated_minor s);
  so_capabilities : is_u64 (ps_supported_capabilities s) /\ is_u64 (ps_required_capabilities s) /\
                    is_u64 (ps_negotiated_capabilities s);
  so_known : caps_subset (ps_required_capabilities s) IS_PROTOCOL_CAP_KNOWN;
  so_id : is_u64 (ps_session_id s) /\ ps_session_id s <> 0;
  so_nonce : length (ps_provider_nonce s) = 32%nat /\ is_bytes (ps_provider_nonce s);
  so_negotiated : ps_state s = IS_PROVIDER_SESSION_WAIT_AUTH \/ ps_state s = IS_PROVIDER_SESSION_READY ->
    caps_subset (ps_required_capabilities s) (ps_negotiated_capabilities s)
}.

(** The bytes [0 .. size) of [response] are a frame that decodes to [m]. *)
Definition carries (response : list Z) (size : Z) (m : is_protocol_message) : Prop :=
  is_protocol_decode (Some (take (Z.to_nat size) response)) size = inr m.

Lemma encode_carries m n c k buf cap :
  wf_message m -> is_validate_header (msg_header m) = inr tt ->
  is_payload_size m = inr (n, c, k) -> 0 <= n <= 36 -> buffer_ok buf cap ->
  exists out, is_protocol_encode (Some m) (Some buf) cap = inr (out, 48 + n) /\
    carries out (48 + n) (canonical_message m) /\ length out = length buf.
Proof.
  intros Hwf Hh Hs Hn [Hcap Hlen]. unfold answer_capacity in Hcap.
  assert (is_protocol_encode (Some m) (Some buf) cap =
    inr (buf_write buf 0 (frame_bytes m n c k), 48 + n)) as E by (apply encode_of_frame; try done; lia).
  eexists. split; [exact E|]. split; [|apply length_buf_write].
  destruct (is_protocol_encode_inv _ _ _ _ _ Hwf E) as (n' & c' & k' & _ & Hs' & Hsz & _ & _ & _ & Hfl).
  assert (n' = n /\ c' = c /\ k' = k) as (-> & -> & ->) by (split_and!; congruence).
  unfold carries. replace (Z.to_nat (48 + n)) with (length (frame_bytes m n c k)) by lia.
  destruct (take_buf_write_0 buf (frame_bytes m n c k)) as [-> _]; [lia|].
  apply decode_frame_bytes; try done. lia.
Qed.

Lemma land_u64 x y : is_u64 x -> 0 <= y -> is_u64 (Z.land x y).
Proof.
  intros Hx Hy. replace (Z.land x y) with (u64 (Z.land x y)); [apply wrap_in_u; lia|].
  apply Z.bits_inj'. intros i Hi. rewrite testbit_u64, Z.land_spec by done.
  destruct (i <? 64) eqn:E; [done|]. by rewrite testbit_high by (done || lia).
Qed.

Lemma caps_subset_trans x y z : caps_subset x y -> caps_subset y z -> caps_subset x z.
Proof. unfold caps_subset. auto. Qed.

Lemma caps_subset_land_l x y : caps_subset (Z.land x y) x.
Proof. intros i Hi. rewrite Z.land_spec, andb_true_iff. tauto. Qed.

Lemma caps_subset_land_r x y : caps_subset (Z.land x y) y.
Proof. intros i Hi. rewrite Z.land_spec, andb_true_iff. tauto. Qed.

(** The checks of a header, one by one. *)
Lemma validate_header_ok h :
  hdr_major h = IS_PROTOCOL_MAJOR -> is_minor_valid (hdr_minor h) = true ->
  is_type_valid (hdr_type h) = true -> is_u64 (hdr_required_capabilities h) ->
  caps_subset (hdr_required_capabilities h) IS_PROTOCOL_CAP_KNOWN ->
  caps_subset (hdr_required_capabilities h) (hdr_capabilities h) ->
  hdr_request_id h <> 0 ->
  Z.land (hdr_flags h) (u32 (Z.lnot IS_PROTOCOL_FLAGS_KNOWN)) = 0 ->
  is_flags_valid (hdr_type h) (hdr_flags h) = true ->
  hdr_type h = IS_PROTOCOL_MSG_ERROR \/
  hdr_type h = IS_PROTOCOL_MSG_CHALLENGE /\ hdr_session_id h = 0 \/
  hdr_type h = IS_PROTOCOL_MSG_ACCEPT /\ hdr_session_id h <> 0 ->
  is_validate_header h = inr tt.
Proof.
  intros Hmaj Hmin Hty Hu Hk Hc Hr Hf Hfv Hs. unfold is_validate_header.
  rewrite Hmaj, Hmin, Hty, Hf, Hfv. rewrite (proj2 (andnot64_subset _ _ Hu) Hk).
  rewrite (proj2 (andnot64_subset _ _ Hu) Hc). rewrite (proj2 (Z.eqb_neq _ _) Hr). simpl.
  destruct Hs as [->|[[-> ->]|[-> Hs]]]; simpl; try done.
  by rewrite (proj2 (Z.eqb_neq _ _) Hs).
Qed.

Ltac session_wf :=
  unfold wf_message, wf_header, wf_payload; simpl; split_and!;
  repeat case_match; try done; try (unfold in_u; pow_lia).

Lemma error_message_carried s id off code buf cap :
  session_ok s -> is_u64 id -> is_u16 off -> 1 <= code <= 9 -> buffer_ok buf cap ->
  exists out, is_protocol_encode (Some (error_message s id off code)) (Some buf) cap = inr (out, 56) /\
    carries out 56 (error_message s id off code) /\ length out = length buf.
Proof.
  intros [_ [Hm Hmu] (_ & Hr & Hn) Hk [Hid _] _ _] Hi Ho Hc Hb.
  apply (encode_carries (error_message s id off code) 8 0 0); try done; [| |simpl].
  - session_wf. apply land_u64; [done|]. unfold in_u in Hn. lia.
  - apply validate_header_ok; simpl; try done; try case_match; try lia; auto.
    + apply land_u64; [done|]. unfold in_u in Hn. lia.
    + eapply caps_subset_trans; [apply caps_subset_land_l|done].
    + apply caps_subset_land_r.
  - unfold is_payload_size. simpl. unfold error_valid. simpl.
    replace (code <? IS_PROTOCOL_ERROR_MALFORMED) with false by (unfold IS_PROTOCOL_ERROR_MALFORMED; lia).
    replace (code >? IS_PROTOCOL_ERROR_INTERNAL) with false by (unfold IS_PROTOCOL_ERROR_INTERNAL; lia).
    by destruct (code =? IS_PROTOCOL_ERROR_RESOURCE).
Qed.

Lemma challenge_message_carried s id buf cap :
  session_ok s -> caps_subset (ps_required_capabilities s) (ps_negotiated_capabilities s) ->
  is_u64 id -> id <> 0 -> buffer_ok buf cap ->
  exists out, is_protocol_encode (Some (challenge_message s id)) (Some buf) cap = inr (out, 84) /\
    carries out 84 (challenge_message s id) /\ length out = length buf.
Proof.
  intros [_ [Hm Hmu] (_ & Hr & Hn) Hk _ [Hl Hnb] _] Hc Hi H0 Hb.
  apply (encode_carries (challenge_message s id) 36 0 0); [..|lia|done].
  - session_wf.
  - apply validate_header_ok; simpl; auto.
  - unfold is_payload_size. simpl. by rewrite Hm.
Qed.

Lemma accept_message_carried s id buf cap :
  session_ok s -> caps_subset (ps_required_capabilities s) (ps_negotiated_capabilities s) ->
  is_u64 id -> id <> 0 -> buffer_ok buf cap ->
  exists out, is_protocol_encode (Some (accept_message s id)) (Some buf) cap = inr (out, 52) /\
    carries out 52 (accept_message s id) /\ length out = length buf.
Proof.
  intros [_ [Hm Hmu] (_ & Hr & Hn) Hk [Hid Hid0] _ _] Hc Hi H0 Hb.
  apply (encode_carries (accept_message s id) 4 0 0); [..|lia|done].
  - session_wf.
  - apply validate_header_ok; simpl; auto.
  - unfold is_payload_size. simpl. by rewrite Hm.
Qed.
End Answers.

(** * What a provider session does with a frame

    [handled] lists the five things that can happen; [handle_handled] shows
    that [is_provider_session_handle] does one of them, whatever the bytes. *)

Section Step.
Context `{ProtocolBuild} `{Mac}.

Definition decoded (frame : list Z) (m : is_protocol_message) : Prop :=
  is_protocol_decode (Some frame) (Z.of_nat (length frame)) = inr m.

(** The request an answer is for. *)
Definition echo (frame : list Z) : Z :=
  match is_protocol_decode (Some frame) (Z.of_nat (length frame)) with
  | inr m => hdr_request_id (msg_header m)
  | inl _ => frame_request_id frame
  end.

(** The session after an acceptable HELLO. *)
Definition challenged (s : is_provider_session) (m : is_protocol_message) (frame out : list Z) :
    is_provider_session :=
  (record_hello (negotiate_hello s m).1 m frame)
    <| ps_challenge_frame := take 84 out |> <| ps_state := IS_PROVIDER_SESSION_WAIT_AUTH |>.

Definition accepted (s : is_provider_session) (id until version : Z) : is_provider_session :=
  s <| ps_authenticated_until_unix := until |> <| ps_authorization_version := version |>
    <| ps_last_request_id := id |> <| ps_state := IS_PROVIDER_SESSION_READY |>.

Definition is_request (m : is_protocol_message) : bool :=
  Z.land (hdr_flags (msg_header m)) IS_PROTOCOL_FLAG_RESPONSE =? 0.

Definition delivered (s : is_provider_session) (m : is_protocol_message) : is_provider_session :=
  if is_request m then s <| ps_last_request_id := hdr_request_id (msg_header m) |> else s.

Definition responds (o : is_provider_session_outcome) (out : list Z) (m : is_protocol_message) : Prop :=
  po_response_ready o = true /\ po_request_ready o = false /\ carries out (po_response_size o) m.

(** The session after it answered an error. *)
Definition refused (s : is_provider_session) (code : Z) : is_provider_session :=
  s <| ps_last_error_code := u16 code |> <| ps_state := IS_PROVIDER_SESSION_CLOSED |>.

(** The identity a session has recorded, which no refusal changes. *)
Definition same_identity (s s1 : is_provider_session) : Prop :=
  ps_consumer_id s1 = ps_consumer_id s /\ ps_key_id s1 = ps_key_id s /\
  ps_provider_nonce s1 = ps_provider_nonce s.

Inductive handled (now : Z) (registry : is_auth_registry) (s : is_provider_session)
    (frame out : list Z) : is_provider_session -> is_provider_session_outcome -> Prop :=
| handled_error s1 off code o :
    1 <= code <= 9 -> session_ok s1 -> same_identity s s1 ->
    responds o out (error_message s1 (echo frame) off code) -> po_close_after_response o = true ->
    handled now registry s frame out (refused s1 code) o
| handled_peer_error o :
    po_response_ready o = false -> po_close_after_response o = true ->
    (po_request_ready o = true ->
     ps_state s = IS_PROVIDER_SESSION_READY /\ decoded frame (po_request o) /\
     hdr_type (msg_header (po_request o)) = IS_PROTOCOL_MSG_ERROR) ->
    handled now registry s frame out (s <| ps_state := IS_PROVIDER_SESSION_CLOSED |>) o
| handled_challenge m o :
    ps_state s = IS_PROVIDER_SESSION_WAIT_HELLO -> decoded frame m ->
    hdr_type (msg_header m) = IS_PROTOCOL_MSG_HELLO ->
    (negotiate_hello s m).2 = true ->
    hello_capabilities_valid (get_hello (msg_payload m))
      (ps_negotiated_capabilities (negotiate_hello s m).1) = true ->
    po_response_size o = 84 -> po_close_after_response o = false -> (84 <= length out)%nat ->
    responds o out (challenge_message (challenged s m frame out) (echo frame)) ->
    handled now registry s frame out (challenged s m frame out) o
| handled_accept m until version o :
    ps_state s = IS_PROVIDER_SESSION_WAIT_AUTH -> decoded frame m ->
    hdr_type (msg_header m) = IS_PROTOCOL_MSG_AUTH ->
    ps_last_request_id s < echo frame ->
    is_auth_registry_verify now registry (ps_consumer_id s) (ps_key_id s) (ps_hello_frame s)
      (ps_challenge_frame s) (auth_tag (get_auth (msg_payload m))) = (IS_AUTH_OK, until, version) ->
    po_close_after_response o = false ->
    responds o out (accept_message (accepted s (echo frame) until version) (echo frame)) ->
    handled now registry s frame out (accepted s (echo frame) until version) o
| handled_request m o :
    ps_state s = IS_PROVIDER_SESSION_READY -> decoded frame m ->
    authenticated_error now registry s m = None ->
    po_response_ready o = false -> po_request_ready o = true -> po_request o = m ->
    po_close_after_response o = false ->
    handled now registry s frame out (delivered s m) o.

(** ** Ranges of what is read from a frame *)

Lemma frame_type_range frame : is_u16 (frame_type frame).
Proof. unfold frame_type. case_match; [by vm_compute|]. apply wrap_in_u. lia. Qed.

Lemma u8_u64 x : is_u8 x -> is_u64 x.
Proof. unfold in_u. pow_lia. Qed.

Lemma frame_request_id_range frame :
  is_bytes frame -> is_u64 (frame_request_id frame) /\ frame_request_id frame <> 0.
Proof.
  intros Hb. unfold frame_request_id. case_match; [by vm_compute|].
  set (v := for_loop _ _ _ _). assert (is_u64 v) as Hv.
  { apply (for_loop_ind (fun _ v => is_u64 v)); [by vm_compute|].
    intros j x _ Hx. apply lor_u64; [apply wrap_in_u; lia|]. by apply u8_u64, byte_at_range. }
  destruct (Z.eqb_spec v 0); [by vm_compute|done].
Qed.

Lemma decoded_header frame m :
  is_bytes frame -> decoded frame m ->
  wf_header (msg_header m) /\ is_validate_header (msg_header m) = inr tt /\
  Z.of_nat (length frame) <= IS_PROTOCOL_MAX_FRAME_SIZE.
Proof.
  intros Hb. unfold decoded, is_protocol_decode. case_match eqn:E; [done|].
  destruct (is_decode_header _ _) as [|[h n]] eqn:Hh; [done|].
  destruct (is_decode_header_inv _ _ h n Hb eq_refl Hh) as (? & ? & _).
  destruct (is_decode_payload _ _ _); [done|]. intros [= <-]. cbn [msg_header]. split_and!; [done|done|]. lia.
Qed.

Lemma validate_header_request_id h : is_validate_header h = inr tt -> hdr_request_id h <> 0.
Proof.
  unfold is_validate_header. do 4 (case_match; [done|]). case_match eqn:E; [done|]. intros _.
  apply orb_false_iff in E as [[E _]%orb_false_iff _]. lia.
Qed.

Lemma echo_range frame : is_bytes frame -> is_u64 (echo frame) /\ echo frame <> 0.
Proof.
  intros Hb. unfold echo. destruct (is_protocol_decode _ _) as [|m] eqn:E; [by apply frame_request_id_range|].
  destruct (decoded_header frame m Hb E) as ((_ & _ & _ & _ & Hr & _) & Hv & _).
  split; [done|]. by apply validate_header_request_id.
Qed.

(** ** Negotiation *)

Lemma negotiate_ok lm lc lr pm pc pr minor caps :
  is_u64 lr -> is_u64 pr -> is_protocol_negotiate lm lc lr pm pc pr = inr (minor, caps) ->
  (minor = lm \/ minor = pm) /\ is_minor_valid lm = true /\ is_minor_valid pm = true /\
  caps = Z.land lc pc /\ caps_subset lr caps.
Proof.
  intros Hlr Hpr. unfold is_protocol_negotiate.
  destruct (is_minor_valid lm), (is_minor_valid pm); simpl; try done.
  destruct (_ >? 1); [done|]. do 2 (case_match; [done|]). case_match eqn:E; [done|]. intros [= <- <-].
  apply negb_false_iff, Z.eqb_eq in E. rewrite andnot64_subset in E by (by apply lor_u64).
  apply caps_subset_lor in E as [? _]. split; [case_match; auto|done].
Qed.

Lemma negotiate_hello_ok s m :
  session_ok s -> wf_header (msg_header m) ->
  let s1 := (negotiate_hello s m).1 in
  same_identity s s1 /\
  (ps_state s = IS_PROVIDER_SESSION_WAIT_HELLO -> session_ok s1) /\
  ((negotiate_hello s m).2 = true ->
   caps_subset (ps_required_capabilities s1) (ps_negotiated_capabilities s1)).
Proof.
  intros [[Hl Hlu] ? (? & ? & ?) ? ? ? ?] (_ & Hmu & _ & _ & _ & _ & Hcu & Hru).
  unfold negotiate_hello. destruct (is_protocol_negotiate _ _ _ _ _ _) as [|[minor caps]] eqn:E; simpl.
  - split; [done|]. split; [by constructor|done].
  - apply negotiate_ok in E as (Hm & _ & Hpv & -> & Hs); [|done..].
    split; [done|]. split; [|done]. intros Hst. constructor; simpl; try done.
    + destruct Hm as [->| ->]; done.
    + split_and!; try done. apply land_u64; [done|]. unfold in_u in Hcu. lia.
Qed.

(** ** One frame *)

(** [result] is one of the things [handled] lists, and the session stays sound. *)
Definition step_handled now registry s frame (result : session_result) : Prop :=
  exists s' out o, result = (s', out, o, 0) /\ handled now registry s frame out s' o /\ session_ok s'.

Lemma build_error_handled now registry s frame s1 id off code response cap :
  is_bytes frame -> session_ok s1 -> same_identity s s1 -> id = echo frame -> is_u16 off -> 1 <= code <= 9 ->
  buffer_ok response cap ->
  step_handled now registry s frame (build_error s1 id off code response cap zero_outcome).
Proof.
  intros Hb Hok Hid -> Ho Hc Hbuf. destruct (echo_range frame Hb) as [Hi Hi0].
  destruct (error_message_carried s1 (echo frame) off code response cap) as (out & E & Hcar & _); [done..|].
  unfold build_error. rewrite E. do 3 eexists. split; [done|]. split.
  - apply (handled_error _ _ _ _ _ s1 off code); done.
  - destruct Hok. constructor; simpl; try done. by intros [|].
Qed.

Lemma decoded_echo frame m : decoded frame m -> hdr_request_id (msg_header m) = echo frame.
Proof. unfold decoded, echo. by intros ->. Qed.

Lemma challenge_message_kept s f st id :
  challenge_message (s <| ps_challenge_frame := f |> <| ps_state := st |>) id = challenge_message s id.
Proof. by destruct s. Qed.

Lemma handle_hello_handled now registry s frame m response cap :
  session_ok s -> is_bytes frame -> buffer_ok response cap -> decoded frame m ->
  ps_state s = IS_PROVIDER_SESSION_WAIT_HELLO -> hdr_type (msg_header m) = IS_PROTOCOL_MSG_HELLO ->
  step_handled now registry s frame (handle_hello s m frame response cap zero_outcome).
Proof.
  intros Hok Hb Hbuf Hdec Hst Hty. destruct (decoded_header frame m Hb Hdec) as (Hwf & _ & _).
  destruct (negotiate_hello_ok s m Hok Hwf) as (Hkeep & Hok1 & Hcaps). specialize (Hok1 Hst).
  unfold handle_hello. rewrite (decoded_echo frame m Hdec).
  destruct (negotiate_hello s m) as [s1 ok] eqn:En. cbn [fst snd] in *.
  case_match eqn:E; [by apply build_error_handled|].
  apply orb_false_iff in E as [Eok Ecap]. apply negb_false_iff in Eok, Ecap. specialize (Hcaps Eok).
  set (s2 := record_hello s1 m frame).
  assert (session_ok s2) as Hok2 by (destruct Hok1; by constructor).
  destruct (echo_range frame Hb) as [Hi Hi0].
  destruct (challenge_message_carried s2 (echo frame) response cap) as (out & Ee & Hcar & Hlo); [done..|].
  rewrite Ee.
  assert (handled now registry s frame out (challenged s m frame out)
    (zero_outcome <| po_response_size := 84 |> <| po_response_ready := true |>)) as Hh.
  { apply handled_challenge; rewrite ?En; try assumption; [reflexivity..| |].
    { unfold buffer_ok, answer_capacity in Hbuf. lia. }
    split; [reflexivity|]. split; [reflexivity|]. unfold challenged.
    rewrite En, challenge_message_kept. exact Hcar. }
  do 3 eexists. split; [done|]. unfold challenged in Hh. rewrite En in Hh. split; [exact Hh|].
  destruct Hok2. constructor; simpl; done.
Qed.

Lemma auth_error_code_range result : 1 <= auth_error_code result <= 9.
Proof. unfold auth_error_code. case_match; by vm_compute. Qed.

Lemma handle_auth_handled now registry s frame m response cap :
  session_ok s -> is_bytes frame -> buffer_ok response cap -> decoded frame m ->
  ps_state s = IS_PROVIDER_SESSION_WAIT_AUTH -> hdr_type (msg_header m) = IS_PROTOCOL_MSG_AUTH ->
  step_handled now registry s frame (handle_auth now registry s m response cap zero_outcome).
Proof.
  intros Hok Hb Hbuf Hdec Hst Hty. unfold handle_auth. rewrite (decoded_echo frame m Hdec).
  destruct (Z.leb_spec (echo frame) (ps_last_request_id s)) as [|Hlt]; [by apply build_error_handled|].
  case_match; [by apply build_error_handled|].
  destruct (is_auth_registry_verify _ _ _ _ _ _ _) as [[result until] version] eqn:Ev.
  case_bool_decide; cbn [negb].
  - subst result. destruct (echo_range frame Hb) as [Hi Hi0].
    assert (session_ok (accepted s (echo frame) until version)) as Hok'.
    { destruct Hok. constructor; simpl; auto. }
    destruct (accept_message_carried (accepted s (echo frame) until version) (echo frame) response cap)
      as (out & Ee & Hcar & _); try done; [apply Hok'; by right|].
    unfold accepted in Ee. rewrite Ee. do 3 eexists. split; [done|]. split; [|exact Hok'].
    by apply (handled_accept _ _ _ _ _ m).
  - apply build_error_handled; try done; [|apply auth_error_code_range].
    destruct Hok. constructor; simpl; auto.
Qed.

Lemma authenticated_error_range now registry s m code :
  authenticated_error now registry s m = Some code -> 1 <= code <= 9.
Proof. unfold authenticated_error. repeat case_match; intros; simplify_eq; by vm_compute. Qed.

Lemma handle_authenticated_handled now registry s frame m response cap :
  session_ok s -> is_bytes frame -> buffer_ok response cap -> decoded frame m ->
  ps_state s = IS_PROVIDER_SESSION_READY ->
  step_handled now registry s frame (handle_authenticated now registry s m response cap zero_outcome).
Proof.
  intros Hok Hb Hbuf Hdec Hst. unfold handle_authenticated.
  destruct (decoded_header frame m Hb Hdec) as ((_ & _ & Htu & _) & _ & _).
  destruct (authenticated_error now registry s m) as [code|] eqn:E.
  - rewrite (decoded_echo frame m Hdec). apply build_error_handled; try done.
    by apply authenticated_error_range in E.
  - do 3 eexists. split; [done|]. split.
    + by apply handled_request.
    + unfold delivered. destruct Hok. case_match; constructor; done.
Qed.

Lemma protocol_result_to_error_range result : 1 <= protocol_result_to_error result <= 9.
Proof. destruct result; by vm_compute. Qed.

Lemma closed_ok s : session_ok s -> session_ok (s <| ps_state := IS_PROVIDER_SESSION_CLOSED |>).
Proof. intros []. constructor; simpl; try done. by intros [|]. Qed.

Lemma handle_handled now registry s frame response cap previous :
  session_ok s -> is_bytes frame -> buffer_ok response cap ->
  step_handled now registry s frame
    (is_provider_session_handle now registry s frame response cap previous).
Proof.
  intros Hok Hb Hbuf. unfold is_provider_session_handle.
  replace ((ps_session_id s =? 0) || (cap =? 0)) with false.
  2: { destruct (so_id s Hok). unfold buffer_ok, answer_capacity in Hbuf. symmetry.
       apply orb_false_iff. lia. }
  destruct (is_protocol_decode (Some frame) (Z.of_nat (length frame))) as [result|m] eqn:Ed.
  - case_match.
    + do 3 eexists. split; [done|]. split; [by apply handled_peer_error|by apply closed_ok].
    + apply build_error_handled; try done; [|apply frame_type_range|apply protocol_result_to_error_range].
      unfold echo. by rewrite Ed.
  - pose proof Ed as Hdec. fold (decoded frame m) in Hdec.
    destruct (decoded_header frame m Hb Hdec) as ((_ & _ & Htu & _) & _ & _).
    assert (step_handled now registry s frame (build_error s (hdr_request_id (msg_header m))
      (hdr_type (msg_header m)) IS_PROTOCOL_ERROR_OUT_OF_ORDER response cap zero_outcome)) as Hooo
      by (apply build_error_handled; try done; by apply decoded_echo).
    destruct (Z.eqb_spec (hdr_type (msg_header m)) IS_PROTOCOL_MSG_ERROR).
    + do 3 eexists. split; [done|]. split; [|by apply closed_ok].
      apply handled_peer_error; case_bool_decide; done.
    + destruct (ps_state s) eqn:Hst; [| |by apply handle_authenticated_handled|done].
      * destruct (Z.eqb_spec (hdr_type (msg_header m)) IS_PROTOCOL_MSG_HELLO); simpl; [|done].
        case_match; [done|]. by apply handle_hello_handled.
      * destruct (Z.eqb_spec (hdr_type (msg_header m)) IS_PROTOCOL_MSG_AUTH); simpl; [|done].
        case_match; [done|]. by apply handle_auth_handled.
Qed.
End Step.
