(* ===== verification/ProviderSessionRun.v ===== *)
(** * A session and the registry it shares, over time

    Frames arrive at the session and calls change the registry, in any order.
    The lemmas follow one session through such a sequence. *)
From Stdlib Require Import Sorting.Sorted.
From S2P Require Import Prelude Protocol ProtocolWire ProtocolRoundtrip ProtocolCanonical ProtocolSpec.
From S2P Require Import Text Auth AuthFile AuthInv AuthSteps.
From S2P Require Import ProviderSession ProviderSessionAnswer.

Definition world : Type := is_auth_registry * is_provider_session.

Inductive world_event :=
| Administer (call : auth_call)
| Receive (now : Z) (frame response : list Z) (capacity : Z).

Definition event_ok (e : world_event) : Prop :=
  match e with
  | Administer _ => True
  | Receive _ frame response capacity => is_bytes frame /\ buffer_ok response capacity
  end.

Section Run.
Context `{ProtocolBuild} `{Mac}.

(** The world after an event and the message it delivers to the daemon. *)
Definition world_step (w : world) (e : world_event) : world * option is_protocol_message :=
  match e with
  | Administer call => (((auth_perform w.1 call).1, w.2), None)
  | Receive now frame response capacity =>
      let '(s, _, o, _) :=
        is_provider_session_handle now w.1 w.2 frame response capacity zero_outcome in
      ((w.1, s), if po_request_ready o then Some (po_request o) else None)
  end.

Fixpoint world_after (w : world) (es : list world_event) : world :=
  match es with
  | [] => w
  | e :: es' => world_after (world_step w e).1 es'
  end.

(** The messages delivered, in order. *)
Fixpoint world_delivers (w : world) (es : list world_event) : list is_protocol_message :=
  match es with
  | [] => []
  | e :: es' => option_list (world_step w e).2 ++ world_delivers (world_step w e).1 es'
  end.

Lemma world_after_app w es es' : world_after w (es ++ es') = world_after (world_after w es) es'.
Proof. revert w. by induction es; simpl. Qed.

(** ** One frame, seen from the world *)

Definition delivery (o : is_provider_session_outcome) : option is_protocol_message :=
  if po_request_ready o then Some (po_request o) else None.

Lemma receive_step w now frame response capacity :
  session_ok w.2 -> is_bytes frame -> buffer_ok response capacity ->
  exists s' out o, world_step w (Receive now frame response capacity) = ((w.1, s'), delivery o) /\
    handled now w.1 w.2 frame out s' o /\ session_ok s'.
Proof.
  intros Hok Hb Hbuf.
  destruct (handle_handled now w.1 w.2 frame response capacity zero_outcome Hok Hb Hbuf)
    as (s' & out & o & E & Hh & Hok'). exists s', out, o. simpl. by rewrite E.
Qed.

Lemma world_session_ok w e : event_ok e -> session_ok w.2 -> session_ok (world_step w e).1.2.
Proof.
  destruct e as [call|now frame response capacity]; simpl; [done|]. intros [Hb Hbuf] Hok.
  destruct (receive_step w now frame response capacity) as (s' & out & o & E & _ & Hok'); [done..|].
  simpl in E. by rewrite E.
Qed.

(** ** Replays *)

Lemma authenticated_request_id now registry s m :
  authenticated_error now registry s m = None -> is_request m = true ->
  ps_last_request_id s < hdr_request_id (msg_header m).
Proof.
  unfold authenticated_error, is_request. intros E Hr. rewrite Hr in E. simpl in E.
  case_match eqn:E1; [done|]. lia.
Qed.

Lemma error_not_request frame m :
  is_bytes frame -> decoded frame m -> hdr_type (msg_header m) = IS_PROTOCOL_MSG_ERROR ->
  is_request m = false.
Proof.
  intros Hb Hd Ht. destruct (decoded_header frame m Hb Hd) as (_ & Hv & _).
  unfold is_validate_header in Hv. do 4 (case_match; [done|]).
  case_match eqn:E; [done|]. apply orb_false_iff in E as [_ E]. apply negb_false_iff in E.
  rewrite Ht in E. simpl in E. apply Z.eqb_eq in E. unfold is_request. by rewrite E.
Qed.

(** The identifiers of the requests among the messages delivered. *)
Definition request_ids (ms : list is_protocol_message) : list Z :=
  (fun m => hdr_request_id (msg_header m)) <$> filter (fun m => is_request m = true) ms.

Lemma request_ids_app l k : request_ids (l ++ k) = request_ids l ++ request_ids k.
Proof. unfold request_ids. by rewrite list.filter_app, fmap_app. Qed.

(** What a session in state [s] can still deliver. *)
Definition ids_follow (s : is_provider_session) (ids : list Z) : Prop :=
  StronglySorted Z.lt ids /\
  (ps_state s = IS_PROVIDER_SESSION_READY -> Forall (fun id => ps_last_request_id s < id) ids) /\
  (ps_state s = IS_PROVIDER_SESSION_CLOSED -> ids = []).

Lemma delivers_follow w es :
  session_ok w.2 -> Forall event_ok es -> ids_follow w.2 (request_ids (world_delivers w es)).
Proof.
  intros Hok He. revert w Hok. induction He as [|e es He _ IH]; intros w Hok.
  { split; [constructor|]. split; [constructor|done]. }
  pose proof (IH _ (world_session_ok w e He Hok)) as (Hs & Hr & Hc).
  cbn [world_delivers]. rewrite request_ids_app. destruct e as [call|now frame response capacity].
  { simpl in *. by split. }
  destruct He as [Hb Hbuf].
  destruct (receive_step w now frame response capacity Hok Hb Hbuf) as (s' & out & o & E & Hh & _).
  rewrite E in *. cbn [fst snd] in *. unfold delivery.
  destruct Hh as [s1 off code o _ _ _ (_ & -> & _) _|o _ _ Hpe|m o Hst _ _ _ _ _ _ _ (_ & -> & _)
    |m until version o Hst _ _ _ _ _ (_ & -> & _)|m o Hst Hd Ha _ Hrr Hrm _]; rewrite ?Hrr, ?Hrm; cbn [option_list].
  - rewrite (Hc eq_refl). split; [constructor|]. split; [constructor|done].
  - rewrite (Hc eq_refl). assert (request_ids (option_list (if po_request_ready o then Some (po_request o) else None)) = []) as ->.
    { destruct (po_request_ready o); [|done]. destruct Hpe as (_ & Hd & Ht); [done|].
      unfold request_ids. simpl. by rewrite filter_cons_False by (by rewrite (error_not_request frame _ Hb Hd Ht)). }
    split; [constructor|]. split; [constructor|done].
  - split; [done|]. by rewrite Hst.
  - split; [done|]. by rewrite Hst.
  - change (option_list (Some m)) with [m]. unfold delivered in *. destruct (is_request m) eqn:Er.
    + assert (request_ids [m] = [hdr_request_id (msg_header m)]) as ->
        by (unfold request_ids; by rewrite filter_cons_True by done).
      pose proof (authenticated_request_id _ _ _ _ Ha Er). specialize (Hr Hst). simpl in Hr. simpl.
      split; [by constructor|]. rewrite Hst. split; [|done]. intros _. constructor; [done|].
      eapply list.Forall_impl; [exact Hr|]. simpl. lia.
    + assert (request_ids [m] = []) as -> by (unfold request_ids; by rewrite filter_cons_False by (by rewrite Er)).
      split; [done|]. by rewrite Hst in *.
Qed.

(** ** Withdrawn authorizations *)

Definition is_error (m : is_protocol_message) : Prop :=
  hdr_type (msg_header m) = IS_PROTOCOL_MSG_ERROR.

Lemma authenticated_authorized now registry s m :
  authenticated_error now registry s m = None ->
  authorized registry (ps_consumer_id s) (ps_authorization_version s).
Proof.
  unfold authenticated_error. do 3 (case_match; [done|]). by case_bool_decide.
Qed.

(** Everything [handle_authenticated] has checked when it accepts. *)
Lemma authenticated_checks now registry s m :
  authenticated_error now registry s m = None ->
  authorized registry (ps_consumer_id s) (ps_authorization_version s) /\
  (ps_authenticated_until_unix s = 0 \/ 0 <= now < ps_authenticated_until_unix s) /\
  hdr_session_id (msg_header m) = ps_session_id s /\
  hdr_minor (msg_header m) = ps_negotiated_minor s /\
  hdr_capabilities (msg_header m) = ps_negotiated_capabilities s /\
  hdr_type (msg_header m) ∈
    (if is_request m
     then [IS_PROTOCOL_MSG_STATUS_REQUEST; IS_PROTOCOL_MSG_CHUNK_REQUEST; IS_PROTOCOL_MSG_GOODBYE]
     else [IS_PROTOCOL_MSG_ACTIVITY; IS_PROTOCOL_MSG_RELEASE]) /\
  (hdr_type (msg_header m) = IS_PROTOCOL_MSG_CHUNK_REQUEST ->
   request_pool (get_chunk_request (msg_payload m)) = ps_selected_pool s).
Proof.
  intros E. split; [by eapply authenticated_authorized|]. revert E. unfold authenticated_error.
  case_match; [done|]. case_match eqn:E1; [done|]. case_match eqn:E2; [done|]. case_bool_decide; [|done].
  cbn [negb]. case_match eqn:E3; [done|]. case_match; [done|]. case_match eqn:E4; [done|]. intros _.
  rewrite !orb_false_iff, !negb_false_iff, !Z.eqb_eq in E1. destruct E1 as [[? ?] ?].
  split; [apply andb_false_iff in E2 as [E2|E2%orb_false_iff]; lia|]. split_and!; try done.
  - apply negb_false_iff in E3. unfold authenticated_request_allowed, is_request in *.
    destruct (_ =? 0); simpl in E3; rewrite !orb_true_iff, !Z.eqb_eq in E3;
      rewrite !elem_of_cons; tauto.
  - intros Ht. rewrite Ht in E4. simpl in E4. by apply negb_false_iff, Z.eqb_eq in E4.
Qed.

(** A session that delivers nothing but the peer's errors. *)
Definition muted (w : world) : Prop :=
  ps_state w.2 = IS_PROVIDER_SESSION_CLOSED \/
  ps_state w.2 = IS_PROVIDER_SESSION_READY /\
  withdrawn w.1 (ps_consumer_id w.2) (ps_authorization_version w.2).

Lemma muted_step w e :
  event_ok e -> session_ok w.2 -> registry_ok w.1 -> versions_left w.1 1 -> muted w ->
  muted (world_step w e).1 /\ Forall is_error (option_list (world_step w e).2).
Proof.
  intros He Hok Hreg Hv Hm. destruct e as [call|now frame response capacity].
  - simpl. split; [|constructor]. destruct Hm as [?|[? Hw]]; [by left|right]. split; [done|]. simpl.
    eapply withdrawn_step; [|exact Hw]. by apply auth_perform_step.
  - destruct He as [Hb Hbuf].
    destruct (receive_step w now frame response capacity Hok Hb Hbuf) as (s' & out & o & E & Hh & _).
    rewrite E. cbn [fst snd]. unfold delivery.
    destruct Hh as [s1 off code o _ _ _ (_ & -> & _) _|o _ _ Hpe|m o Hst _ _ _ _ _ _ _ _
      |m until version o Hst _ _ _ _ _ _|m o Hst Hd Ha _ Hrr Hrm _].
    + split; [by left|constructor].
    + split; [by left|]. destruct (po_request_ready o); [|constructor].
      destruct Hpe as (_ & _ & ?); [done|]. constructor; [done|constructor].
    + destruct Hm as [|[? _]]; congruence.
    + destruct Hm as [|[? _]]; congruence.
    + destruct Hm as [|[_ Hw]]; [congruence|]. apply authenticated_authorized in Ha.
      by apply withdrawn_not_authorized in Hw.
Qed.

Lemma world_registry_ok w e n :
  registry_ok w.1 -> versions_left w.1 (S n) ->
  registry_ok (world_step w e).1.1 /\ versions_left (world_step w e).1.1 n.
Proof.
  intros Hreg Hv. destruct e as [call|now frame response capacity]; simpl.
  - assert (auth_step w.1 (auth_perform w.1 call).1) as Hs
      by (apply auth_perform_step; [done|by eapply versions_left_S]).
    split; [by apply Hs|by eapply versions_left_step].
  - destruct (is_provider_session_handle _ _ _ _ _ _ _) as [[[s out] o] z]. simpl.
    split; [done|]. eapply versions_left_le; [|exact Hv]. lia.
Qed.

Lemma muted_delivers w es :
  Forall event_ok es -> session_ok w.2 -> registry_ok w.1 -> versions_left w.1 (length es) ->
  muted w -> Forall is_error (world_delivers w es).
Proof.
  intros He. revert w. induction He as [|e es He _ IH]; intros w Hok Hreg Hv Hm; [constructor|].
  simpl in Hv. destruct (muted_step w e) as [Hm' Hd]; [done..|by eapply versions_left_S|done|].
  destruct (world_registry_ok w e _ Hreg Hv) as [Hreg' Hv'].
  simpl. apply Forall_app. split; [done|]. apply IH; [by apply world_session_ok|done..].
Qed.

(** ** How a session becomes ready *)

Lemma world_ok w es n :
  Forall event_ok es -> session_ok w.2 -> registry_ok w.1 -> versions_left w.1 (length es + n) ->
  session_ok (world_after w es).2 /\ registry_ok (world_after w es).1 /\
  versions_left (world_after w es).1 n.
Proof.
  intros He. revert w. induction He as [|e es He _ IH]; intros w Hok Hreg Hv; simpl in *; [done|].
  destruct (world_registry_ok w e _ Hreg Hv) as [Hreg' Hv'].
  apply IH; [by apply world_session_ok|done..].
Qed.

(** The authorization a ready session relies on was given by the registry. *)
Definition backed (w : world) : Prop :=
  ps_state w.2 = IS_PROVIDER_SESSION_READY ->
  authorized w.1 (ps_consumer_id w.2) (ps_authorization_version w.2) \/
  withdrawn w.1 (ps_consumer_id w.2) (ps_authorization_version w.2).

Lemma verify_authorized now r id key hello challenge tag until v :
  registry_ok r -> is_auth_registry_verify now r id key hello challenge tag = (IS_AUTH_OK, until, v) ->
  authorized r id v.
Proof.
  intros Hok. unfold is_auth_registry_verify.
  destruct (find_credential r id) as [c|] eqn:Ec; [|done].
  destruct (find_credential_ok _ _ _ Hok Ec) as [[_ Hv] _].
  destruct (ac_revoked c) eqn:Er; [done|]. destruct (select_key _ _ _) as [[key' u]|]; [|done].
  destruct (is_auth_compute_tag _ _ _ _) as [res|expected] eqn:Et.
  { apply compute_tag_error in Et. congruence. }
  case_bool_decide; [|done]. intros [= <- <-]. apply authorized_iff. split; [lia|]. by exists c.
Qed.

Lemma backed_step w e :
  event_ok e -> session_ok w.2 -> registry_ok w.1 -> versions_left w.1 1 -> backed w ->
  backed (world_step w e).1.
Proof.
  intros He Hok Hreg Hv Hb. destruct e as [call|now frame response capacity].
  - unfold backed. simpl. intros Hst.
    assert (auth_step w.1 (auth_perform w.1 call).1) as Hs by (by apply auth_perform_step).
    destruct (Hb Hst) as [Ha|Hw]; [by apply (authorized_step w.1)|right; by apply (withdrawn_step w.1)].
  - destruct He as [Hby Hbuf].
    destruct (receive_step w now frame response capacity Hok Hby Hbuf) as (s' & out & o & E & Hh & _).
    rewrite E. unfold backed. cbn [fst snd].
    destruct Hh as [| | |m until version o _ _ _ _ Hver _ _|m o Hst Hd Ha _ _ _ _]; try done; intros _; left.
    + by eapply verify_authorized.
    + apply authenticated_authorized in Ha. unfold delivered. by case_match.
Qed.

Lemma world_backed w es :
  Forall event_ok es -> session_ok w.2 -> registry_ok w.1 -> versions_left w.1 (length es) ->
  backed w -> backed (world_after w es).
Proof.
  intros He. revert w. induction He as [|e es He _ IH]; intros w Hok Hreg Hv Hb; [done|].
  simpl in *. destruct (world_registry_ok w e _ Hreg Hv) as [Hreg' Hv'].
  apply IH; [by apply world_session_ok|done|done|].
  apply backed_step; try done. by eapply versions_left_S.
Qed.

(** ** What a session remembers of its HELLO *)

Lemma c_string_app value rest : c_string (c_string value ++ 0 :: rest) = c_string value.
Proof.
  induction value as [|c value IH]; [done|]. simpl. destruct (c =? 0) eqn:E; [done|]. simpl. by rewrite E, IH.
Qed.

Lemma c_string_strcpy array value :
  (length (c_string value) < length array)%nat -> c_string (strcpy array value) = c_string value.
Proof.
  intros Hl. unfold strcpy. rewrite buf_write_0 by (rewrite length_app; simpl; lia).
  rewrite <- app_assoc. apply c_string_app.
Qed.

Lemma bounded_string_length_bounded value maximum :
  is_bounded_string_length value maximum = bounded_length value maximum.
Proof.
  unfold is_bounded_string_length, bounded_length. generalize 0. generalize (Z.to_nat (maximum + 1)).
  induction n as [|n IH]; intros i; [done|]. simpl. by rewrite IH.
Qed.

Lemma decoded_hello frame m :
  decoded frame m -> hdr_type (msg_header m) = IS_PROTOCOL_MSG_HELLO ->
  Z.of_nat (length (c_string (hello_consumer_id (get_hello (msg_payload m))))) <= IS_PROTOCOL_CONSUMER_ID_MAX /\
  Z.of_nat (length (c_string (hello_key_id (get_hello (msg_payload m))))) <= IS_PROTOCOL_KEY_ID_MAX.
Proof.
  unfold decoded, is_protocol_decode. intros Hd Ht. case_match; [done|].
  destruct (is_decode_header _ _) as [|[h n]]; [done|].
  destruct (is_decode_payload _ _ _) as [|p] eqn:Ep; [done|]. injection Hd as <-. simpl in *.
  unfold is_decode_payload in Ep. rewrite Ht in Ep. simpl in Ep.
  destruct (is_decode_hello _ _) as [|hello] eqn:Eh; [done|]. injection Ep as <-. simpl.
  unfold is_decode_hello in Eh. do 2 (case_match; [done|]).
  match type of Eh with context [is_validate_hello ?r] => set (h' := r) in Eh end.
  destruct (is_validate_hello h') as [|[c k]] eqn:Ev; [done|]. injection Eh as <-.
  apply is_validate_hello_lengths in Ev as (-> & -> & [_ Hc] & [_ Hk]).
  rewrite bounded_string_length_bounded, bounded_length_spec in Hc, Hk by done.
  unfold IS_PROTOCOL_CONSUMER_ID_MAX, IS_PROTOCOL_KEY_ID_MAX in *. lia.
Qed.

(** The HELLO and the CHALLENGE of a session that has sent its challenge. *)
Definition greeting (s : is_provider_session) (hello challenge : is_protocol_message) : Prop :=
  let h := get_hello (msg_payload hello) in
  decoded (ps_hello_frame s) hello /\ hdr_type (msg_header hello) = IS_PROTOCOL_MSG_HELLO /\
  c_string (ps_consumer_id s) = c_string (hello_consumer_id h) /\
  c_string (ps_key_id s) = c_string (hello_key_id h) /\
  ps_selected_mode s = hello_mode h /\ ps_selected_pool s = hello_pool h /\
  hello_capabilities_valid h (ps_negotiated_capabilities s) = true /\
  decoded (ps_challenge_frame s) challenge /\
  msg_payload challenge = payload_challenge {|
    challenge_nonce := ps_provider_nonce s; challenge_negotiated_minor := ps_negotiated_minor s |}.

Record remembers (s : is_provider_session) : Prop := {
  rm_consumer : length (ps_consumer_id s) = 64%nat;
  rm_key : length (ps_key_id s) = 32%nat;
  rm_greeting : ps_state s = IS_PROVIDER_SESSION_WAIT_AUTH \/ ps_state s = IS_PROVIDER_SESSION_READY ->
    exists hello challenge, greeting s hello challenge
}.

Lemma remembers_kept s s' :
  remembers s -> ps_consumer_id s' = ps_consumer_id s -> ps_key_id s' = ps_key_id s ->
  (ps_state s' = IS_PROVIDER_SESSION_WAIT_AUTH \/ ps_state s' = IS_PROVIDER_SESSION_READY ->
   (ps_state s = IS_PROVIDER_SESSION_WAIT_AUTH \/ ps_state s = IS_PROVIDER_SESSION_READY) /\
   forall hello challenge, greeting s hello challenge -> greeting s' hello challenge) ->
  remembers s'.
Proof.
  intros [Hc Hk Hg] Ec Ek Hs. constructor; [by rewrite Ec|by rewrite Ek|].
  intros [Hst Hgr]%Hs. destruct (Hg Hst) as (hello & challenge & ?). eauto.
Qed.

Lemma challenge_carried_decoded out id s :
  (84 <= length out)%nat -> carries out 84 (challenge_message s id) ->
  decoded (take 84 out) (challenge_message s id).
Proof.
  intros Hl Hc. unfold decoded. rewrite length_take. by replace (Z.of_nat (84 `min` length out)) with 84 by lia.
Qed.

Lemma negotiate_hello_identity s m : same_identity s (negotiate_hello s m).1.
Proof. unfold negotiate_hello. by destruct (is_protocol_negotiate _ _ _ _ _ _) as [|[? ?]]. Qed.

Lemma challenged_remembers s m frame out :
  remembers s -> decoded frame m -> hdr_type (msg_header m) = IS_PROTOCOL_MSG_HELLO ->
  hello_capabilities_valid (get_hello (msg_payload m))
    (ps_negotiated_capabilities (negotiate_hello s m).1) = true ->
  decoded (take 84 out) (challenge_message (challenged s m frame out) (echo frame)) ->
  remembers (challenged s m frame out).
Proof.
  intros [Hlc Hlk _] Hd Ht Hcap Hch. destruct (decoded_hello frame m Hd Ht) as [Hc Hk].
  unfold IS_PROTOCOL_CONSUMER_ID_MAX, IS_PROTOCOL_KEY_ID_MAX in *.
  destruct (negotiate_hello_identity s m) as (Ec & Ek & _).
  constructor.
  - simpl. unfold strcpy. by rewrite length_buf_write, Ec.
  - simpl. unfold strcpy. by rewrite length_buf_write, Ek.
  - intros _. exists m, (challenge_message (challenged s m frame out) (echo frame)).
    split; [done|]. split; [done|]. split.
    { apply c_string_strcpy. rewrite Ec. lia. }
    split; [apply c_string_strcpy; rewrite Ek; lia|]. by split_and!.
Qed.

(** Where in [es], from [w0], the session [s] was authenticated. *)
Definition authenticated_at (w0 : world) (es : list world_event) (s : is_provider_session) : Prop :=
  exists pre now frame response capacity post m,
    es = pre ++ Receive now frame response capacity :: post /\
    decoded frame m /\ hdr_type (msg_header m) = IS_PROTOCOL_MSG_AUTH /\
    is_auth_registry_verify now (world_after w0 pre).1 (ps_consumer_id s) (ps_key_id s)
      (ps_hello_frame s) (ps_challenge_frame s) (auth_tag (get_auth (msg_payload m))) =
    (IS_AUTH_OK, ps_authenticated_until_unix s, ps_authorization_version s).

Lemma authenticated_at_snoc w0 es e s : authenticated_at w0 es s -> authenticated_at w0 (es ++ [e]) s.
Proof.
  intros (pre & now & frame & response & capacity & post & m & -> & ?).
  exists pre, now, frame, response, capacity, (post ++ [e]), m. by rewrite <- app_assoc.
Qed.

Definition history (w0 : world) (es : list world_event) : Prop :=
  let s := (world_after w0 es).2 in
  session_ok s /\ remembers s /\
  (ps_state s = IS_PROVIDER_SESSION_READY -> authenticated_at w0 es s).

Lemma history_step w0 es e : event_ok e -> history w0 es -> history w0 (es ++ [e]).
Proof.
  intros He (Hok & Hrem & Hau). unfold history. rewrite world_after_app. simpl.
  set (w := world_after w0 es) in *. destruct e as [call|now frame response capacity].
  { simpl. split; [done|]. split; [done|]. intros. by apply authenticated_at_snoc, Hau. }
  destruct He as [Hb Hbuf].
  destruct (receive_step w now frame response capacity Hok Hb Hbuf) as (s' & out & o & E & Hh & Hok').
  rewrite E. cbn [fst snd]. split; [done|].
  destruct Hh as [s1 off code o _ _ (Ec & Ek & _) _ _|o _ _ _|m o Hst Hd Ht _ Hcap Hsz _ Hlo (_ & _ & Hcar)
    |m until version o Hst Hd Ht _ Hver _ _|m o Hst Hd Ha _ _ _ _].
  - split; [|done]. apply (remembers_kept w.2); try done. by intros [|].
  - split; [|done]. apply (remembers_kept w.2); try done. by intros [|].
  - split; [|done]. rewrite Hsz in Hcar. apply challenged_remembers; try done.
    by apply challenge_carried_decoded.
  - split.
    + apply (remembers_kept w.2); try done. intros _. split; [by left|done].
    + intros _. exists es, now, frame, response, capacity, [], m. by split_and!.
  - assert (remembers (delivered w.2 m) /\ authenticated_at w0 (es ++ [Receive now frame response capacity]) (delivered w.2 m)) as [? ?];
      [|done].
    split; [|apply authenticated_at_snoc; specialize (Hau Hst); unfold delivered; by case_match].
    unfold delivered. case_match; [|done]. by apply (remembers_kept w.2).
Qed.

Lemma history_all w0 es :
  Forall event_ok es -> session_ok w0.2 -> remembers w0.2 ->
  ps_state w0.2 = IS_PROVIDER_SESSION_WAIT_HELLO -> history w0 es.
Proof.
  intros He Hok Hrem Hst. induction es as [|e es IH] using rev_ind.
  - split; [done|]. split; [done|]. simpl. by rewrite Hst.
  - apply Forall_app in He as [He He']. inversion He'; subst. apply history_step; [done|]. by apply IH.
Qed.
End Run.
