(* ===== verification/ProviderSessionSpec.v ===== *)
(** * Theorems about provider sessions *)
From Stdlib Require Import Strings.String Sorting.Sorted.
From S2P Require Import Prelude Protocol ProtocolWire ProtocolRoundtrip ProtocolCanonical ProtocolSpec.
From S2P Require Import Text Auth AuthFile AuthInv AuthSteps AuthExample.
From S2P Require Import ProviderSession ProviderSessionAnswer ProviderSessionRun.

(** ** An example session *)

#[local] Existing Instance default_build.
#[local] Existing Instance ex_mac.

Definition ex_session : is_provider_session :=
  is_provider_session_init 1 0x7f 0x70 (replicate 32 5) 42.

Definition ex_header (type id session : Z) : is_protocol_header :=
  {| hdr_major := 1; hdr_minor := 1; hdr_type := type; hdr_flags := 0;
     hdr_request_id := id; hdr_session_id := session; hdr_capabilities := 0x7f;
     hdr_required_capabilities := 0x70 |}.

Definition ex_encode (m : is_protocol_message) : list Z :=
  match is_protocol_encode (Some m) (Some (zeros 200)) 200 with
  | inr (out, size) => take (Z.to_nat size) out
  | inl _ => []
  end.

Definition ex_hello : list Z :=
  ex_encode {| msg_header := ex_header IS_PROTOCOL_MSG_HELLO 7 0;
    msg_payload := payload_hello {|
      hello_consumer_id := padded 64 (chars "node-a"); hello_key_id := padded 32 (chars "k2");
      hello_nonce := replicate 32 9; hello_mode := IS_PROTOCOL_MODE_BACKED;
      hello_pool := IS_PROTOCOL_POOL_OPPORTUNISTIC; hello_failure_deadline_ms := 2000 |} |}.

(** The domain, the HELLO and the CHALLENGE have 36, 96 and 84 bytes. *)
Definition ex_auth : list Z :=
  ex_encode {| msg_header := ex_header IS_PROTOCOL_MSG_AUTH 8 0;
    msg_payload := payload_auth {| auth_tag := 216 :: replicate 31 9 |} |}.

Definition ex_status (id : Z) : list Z :=
  ex_encode {| msg_header := ex_header IS_PROTOCOL_MSG_STATUS_REQUEST id 42;
    msg_payload := payload_none |}.

Definition ex_receive (frame : list Z) : world_event := Receive 1000 frame (zeros 100) 100.

Definition ex_world : world := (ex_registry, ex_session).

Definition ex_login : list world_event := [ex_receive ex_hello; ex_receive ex_auth].

Lemma ex_session_ok : session_ok ex_session.
Proof.
  constructor.
  1-3: by vm_compute.
  - apply andnot64_subset; by vm_compute.
  - by vm_compute.
  - split; [done|]. apply (Forall_replicate is_u8 32). by vm_compute.
  - by intros [|].
Qed.

Lemma ex_bytes frame : forallb (fun b => (0 <=? b) && (b <? 256)) frame = true -> is_bytes frame.
Proof.
  intros Hf. apply list.Forall_forall. intros b Hb. rewrite forallb_forall in Hf.
  apply list_elem_of_In, Hf in Hb. unfold in_u. pow_lia.
Qed.

Lemma ex_event frame : forallb (fun b => (0 <=? b) && (b <? 256)) frame = true -> event_ok (ex_receive frame).
Proof. intros Hf. split; [by apply ex_bytes|]. by vm_compute. Qed.

Section Claims.
Context `{ProtocolBuild} `{Mac}.

(** ** Answers *)

(** The order in which a session goes through its states. *)
Definition state_rank (st : is_provider_session_state) : Z :=
  match st with
  | IS_PROVIDER_SESSION_WAIT_HELLO => 0
  | IS_PROVIDER_SESSION_WAIT_AUTH => 1
  | IS_PROVIDER_SESSION_READY => 2
  | IS_PROVIDER_SESSION_CLOSED => 3
  end.

(** C24. Every frame is dealt with.  Whatever bytes arrive, a session that was
    set up with a supported minor, known required capabilities and a nonzero
    identifier returns 0 with a buffer of 84 bytes or more: it answers,
    delivers a request or closes.  An answer decodes, echoes the request's
    identifier and is a CHALLENGE, an ACCEPT or an ERROR, and it is an ERROR
    exactly when the session closes after it.  States only move forward. *)
Theorem session_answers now registry s frame response cap previous :
  session_ok s -> is_bytes frame -> buffer_ok response cap ->
  exists s' out o,
    is_provider_session_handle now registry s frame response cap previous = (s', out, o, 0) /\
    session_ok s' /\ state_rank (ps_state s) <= state_rank (ps_state s') /\
    (po_close_after_response o = true <-> ps_state s' = IS_PROVIDER_SESSION_CLOSED) /\
    (po_response_ready o = true \/ po_request_ready o = true \/ po_close_after_response o = true) /\
    (po_response_ready o = true ->
     exists m, carries out (po_response_size o) m /\ hdr_request_id (msg_header m) = echo frame /\
       (hdr_type (msg_header m) = IS_PROTOCOL_MSG_ERROR <-> po_close_after_response o = true) /\
       hdr_type (msg_header m) ∈ [IS_PROTOCOL_MSG_CHALLENGE; IS_PROTOCOL_MSG_ACCEPT; IS_PROTOCOL_MSG_ERROR]).
Proof.
  intros Hok Hb Hbuf.
  destruct (handle_handled now registry s frame response cap previous Hok Hb Hbuf)
    as (s' & out & o & E & Hh & Hok').
  exists s', out, o. split; [done|]. split; [done|].
  destruct (echo_range frame Hb) as [_ Hi0].
  destruct Hh as [s1 off code o _ _ _ (Hr & _ & Hcar) Hcl|o Hr Hcl _|m o Hst _ _ _ _ _ Hcl _ (Hr & _ & Hcar)
    |m until version o Hst _ _ _ _ Hcl (Hr & _ & Hcar)|m o Hst Hd Ha Hr Hq _ Hcl]; rewrite Hcl.
  - split; [by destruct (ps_state s)|]. split; [done|]. split; [auto|]. intros _. eexists. split; [exact Hcar|].
    simpl. rewrite (proj2 (Z.eqb_neq _ _)) by done. split; [done|]. split; [done|]. set_solver.
  - split; [by destruct (ps_state s)|]. split; [done|]. split; [auto|]. by rewrite Hr.
  - rewrite Hst. split; [done|]. split; [done|]. split; [auto|]. intros _. eexists. split; [exact Hcar|].
    split; [done|]. split; [done|]. set_solver.
  - rewrite Hst. split; [done|]. split; [done|]. split; [auto|]. intros _. eexists. split; [exact Hcar|].
    split; [done|]. split; [done|]. set_solver.
  - assert (ps_state (delivered s m) = ps_state s) as -> by (unfold delivered; by case_match).
    rewrite Hst, Hr. split; [done|]. split; [done|]. split; [auto|done].
Qed.

(** ** Authentication *)

(** C25. A session is ready only after authentication.  However frames and
    changes of the registry interleave, a session that is READY recorded a
    HELLO frame whose consumer, key, mode and pool are the session's and whose
    capabilities suffice, answered it with a CHALLENGE that carries the
    session's own nonce, and later received an AUTH frame whose tag the
    registry, as it was then, verified over exactly those two frames. *)
Theorem ready_means_verified w0 es :
  Forall event_ok es -> session_ok w0.2 -> remembers w0.2 ->
  ps_state w0.2 = IS_PROVIDER_SESSION_WAIT_HELLO ->
  let s := (world_after w0 es).2 in
  ps_state s = IS_PROVIDER_SESSION_READY ->
  authenticated_at w0 es s /\ exists hello challenge, greeting s hello challenge.
Proof.
  intros He Hok Hrem Hst s Hr. destruct (history_all w0 es He Hok Hrem Hst) as (_ & Hrem' & Hau).
  split; [by apply Hau|]. apply Hrem'. by right.
Qed.

(** ** Requests *)

(** A message that reaches the daemon, other than the peer's ERROR, was
    checked: the session is READY, its authorization is the registry's at
    that moment and has not expired, the message names this session and the
    negotiated minor and capabilities, it is one of the five kinds a consumer
    may send, and chunks are asked of the pool the HELLO selected. *)
Theorem request_checked now registry s frame response cap previous :
  session_ok s -> is_bytes frame -> buffer_ok response cap ->
  let '(s', out, o, result) :=
    is_provider_session_handle now registry s frame response cap previous in
  let m := po_request o in
  po_request_ready o = true -> hdr_type (msg_header m) <> IS_PROTOCOL_MSG_ERROR ->
  decoded frame m /\ ps_state s = IS_PROVIDER_SESSION_READY /\
  is_auth_registry_validate_authorization registry (ps_consumer_id s)
    (ps_authorization_version s) = IS_AUTH_OK /\
  (ps_authenticated_until_unix s = 0 \/ 0 <= now < ps_authenticated_until_unix s) /\
  hdr_session_id (msg_header m) = ps_session_id s /\
  hdr_minor (msg_header m) = ps_negotiated_minor s /\
  hdr_capabilities (msg_header m) = ps_negotiated_capabilities s /\
  hdr_type (msg_header m) ∈
    (if is_request m
     then [IS_PROTOCOL_MSG_STATUS_REQUEST; IS_PROTOCOL_MSG_CHUNK_REQUEST; IS_PROTOCOL_MSG_GOODBYE]
     else [IS_PROTOCOL_MSG_ACTIVITY; IS_PROTOCOL_MSG_RELEASE]) /\
  (hdr_type (msg_header m) = IS_PROTOCOL_MSG_CHUNK_REQUEST ->
   request_pool (get_chunk_request (msg_payload m)) = ps_selected_pool s).
Proof.
  intros Hok Hb Hbuf.
  destruct (handle_handled now registry s frame response cap previous Hok Hb Hbuf)
    as (s' & out & o & -> & Hh & _). cbv zeta. intros Hq Hne.
  destruct Hh as [s1 off code o _ _ _ (_ & Hq' & _) _|o _ _ Hpe|m o _ _ _ _ _ _ _ _ (_ & Hq' & _)
    |m until version o _ _ _ _ _ _ (_ & Hq' & _)|m o Hst Hd Ha _ _ -> _]; try congruence.
  { destruct (Hpe Hq) as (_ & _ & ?). done. }
  destruct (authenticated_checks _ _ _ _ Ha) as (? & ? & ? & ? & ? & ? & ?). by split_and!.
Qed.

(** Requests are not replayed.  Over any sequence of frames and registry
    changes, the identifiers of the requests a session delivers strictly
    increase. *)
Theorem requests_increase w es :
  session_ok w.2 -> Forall event_ok es ->
  StronglySorted Z.lt (request_ids (world_delivers w es)).
Proof. intros Hok He. exact (proj1 (delivers_follow w es Hok He)). Qed.

(** C26. Revocation is final for a session.  Once the registry no longer
    authorizes the version a READY session was given, that session delivers
    nothing more to the daemon than the peer's own ERROR, whatever frames it
    receives and whatever else happens to the registry: a consumer that is
    added back has to authenticate again. *)
Theorem revoked_session_is_mute w0 before after :
  Forall event_ok before -> Forall event_ok after -> session_ok w0.2 -> registry_ok w0.1 ->
  ps_state w0.2 = IS_PROVIDER_SESSION_WAIT_HELLO ->
  versions_left w0.1 (length before + length after) ->
  let w := world_after w0 before in
  ps_state w.2 = IS_PROVIDER_SESSION_READY ->
  is_auth_registry_validate_authorization w.1 (ps_consumer_id w.2)
    (ps_authorization_version w.2) <> IS_AUTH_OK ->
  Forall (fun m => hdr_type (msg_header m) = IS_PROTOCOL_MSG_ERROR) (world_delivers w after).
Proof.
  intros Hbe Haf Hok Hreg Hst Hv w Hr Hn.
  destruct (world_ok w0 before (length after)) as (Hok' & Hreg' & Hv'); [done..|].
  apply muted_delivers; try done. right. split; [done|].
  destruct (world_backed w0 before) as [|]; try done.
  - eapply versions_left_le; [|exact Hv]. lia.
  - unfold backed. by rewrite Hst.
Qed.
End Claims.

Lemma session_answers_witness :
  exists s' out o,
    is_provider_session_handle 1000 ex_registry ex_session ex_hello (zeros 100) 100 zero_outcome =
    (s', out, o, 0).
Proof.
  destruct (session_answers 1000 ex_registry ex_session ex_hello (zeros 100) 100 zero_outcome
    ex_session_ok) as (s' & out & o & E & _).
  - apply ex_bytes. by vm_compute.
  - by vm_compute.
  - by exists s', out, o.
Defined.

Lemma ex_remembers : remembers ex_session.
Proof. constructor; [done|done|]. by intros [|]. Qed.

Lemma ex_login_ok : Forall event_ok ex_login.
Proof. constructor; [|constructor; [|constructor]]; apply ex_event; by vm_compute. Qed.

Lemma ready_means_verified_witness :
  authenticated_at ex_world ex_login (world_after ex_world ex_login).2.
Proof.
  destruct (ready_means_verified ex_world ex_login ex_login_ok ex_session_ok ex_remembers eq_refl)
    as [Ha _]; [by vm_compute|exact Ha].
Defined.

(** The session after the login. *)
Definition ex_ready : is_provider_session := (world_after ex_world ex_login).2.

Lemma ex_ready_ok : session_ok ex_ready.
Proof.
  destruct (world_ok ex_world ex_login 0) as (Hok & _ & _);
    [exact ex_login_ok|exact ex_session_ok| |by vm_compute|exact Hok].
  apply registry_ok_all; [apply registry_ok_init|by vm_compute].
Qed.

Definition ex_handle : session_result :=
  is_provider_session_handle 1000 ex_registry ex_ready (ex_status 9) (zeros 100) 100 zero_outcome.

Lemma ex_handle_request :
  po_request_ready ex_handle.1.2 = true /\
  hdr_type (msg_header (po_request ex_handle.1.2)) = IS_PROTOCOL_MSG_STATUS_REQUEST.
Proof. by vm_compute. Qed.

Lemma ex_status_ok : event_ok (ex_receive (ex_status 9)).
Proof. apply ex_event. by vm_compute. Qed.

Lemma request_checked_witness :
  let '(_, _, o, _) := ex_handle in
  hdr_session_id (msg_header (po_request o)) = ps_session_id ex_ready.
Proof.
  pose proof (request_checked 1000 ex_registry ex_ready (ex_status 9) (zeros 100) 100 zero_outcome
    ex_ready_ok (proj1 ex_status_ok) (proj2 ex_status_ok)) as Hc.
  fold ex_handle in Hc. pose proof ex_handle_request as [Hq Ht].
  destruct ex_handle as [[[s' out] o] z]. cbn [fst snd] in Hq, Ht.
  destruct (Hc Hq) as (_ & _ & _ & _ & Hs & _); [rewrite Ht; discriminate|exact Hs].
Defined.

Definition ex_requests : list world_event :=
  ex_login ++ [ex_receive (ex_status 9); ex_receive (ex_status 11)].

Lemma ex_requests_ok : Forall event_ok ex_requests.
Proof.
  apply Forall_app. split; [exact ex_login_ok|].
  constructor; [|constructor; [|constructor]]; apply ex_event; by vm_compute.
Qed.

Lemma requests_increase_witness :
  request_ids (world_delivers ex_world ex_requests) = [9; 11] /\
  StronglySorted Z.lt (request_ids (world_delivers ex_world ex_requests)).
Proof.
  split; [by vm_compute|]. exact (requests_increase ex_world ex_requests ex_session_ok ex_requests_ok).
Defined.

Lemma revoked_session_is_mute_witness :
  Forall (fun m => hdr_type (msg_header m) = IS_PROTOCOL_MSG_ERROR)
    (world_delivers (world_after ex_world (ex_login ++ [Administer (Revoke (chars "node-a"))]))
       [ex_receive (ex_status 9)]).
Proof.
  apply (revoked_session_is_mute ex_world (ex_login ++ [Administer (Revoke (chars "node-a"))])
           [ex_receive (ex_status 9)]).
  - apply Forall_app. split; [exact ex_login_ok|by repeat constructor].
  - constructor; [|constructor]. apply ex_event. by vm_compute.
  - exact ex_session_ok.
  - apply registry_ok_all; [apply registry_ok_init|by vm_compute].
  - done.
  - by vm_compute.
  - by vm_compute.
  - by vm_compute.
Defined.
