(* ===== verification/Liveness.v ===== *)
(** * Consumer liveness
      (src/infiniswap_daemon/infiniswap_consumer_liveness.c, .h)

    When a consumer that has gone silent, or whose key has expired, is to be
    disconnected, and how long to wait before looking again. *)
From S2P Require Import Prelude.

Inductive is_consumer_liveness_result :=
| IS_CONSUMER_LIVENESS_ACTIVE
| IS_CONSUMER_LIVENESS_SILENT
| IS_CONSUMER_LIVENESS_AUTH_EXPIRED.

Record is_consumer_liveness := {
  cl_last_activity_monotonic_ms : Z;
  cl_authenticated_until_unix : Z;
  cl_failure_deadline_ms : Z
}.

#[export] Instance is_consumer_liveness_eta : Eta is_consumer_liveness := fun l =>
  {| cl_last_activity_monotonic_ms := cl_last_activity_monotonic_ms l;
     cl_authenticated_until_unix := cl_authenticated_until_unix l;
     cl_failure_deadline_ms := cl_failure_deadline_ms l |}.

Definition is_consumer_liveness_init (failure_deadline_ms authenticated_until_unix
    now_monotonic_ms : Z) : is_consumer_liveness :=
  {| cl_last_activity_monotonic_ms := now_monotonic_ms;
     cl_authenticated_until_unix := authenticated_until_unix;
     cl_failure_deadline_ms := failure_deadline_ms |}.

Definition is_consumer_liveness_refresh (l : is_consumer_liveness) (now_monotonic_ms : Z) :
    is_consumer_liveness :=
  if cl_last_activity_monotonic_ms l <? now_monotonic_ms
  then l <| cl_last_activity_monotonic_ms := now_monotonic_ms |> else l.

(** The result and [*wait_ms], which only ACTIVE sets. *)
Definition is_consumer_liveness_check (l : is_consumer_liveness) (now_monotonic_ms now_unix : Z) :
    is_consumer_liveness_result * option Z :=
  if negb (cl_authenticated_until_unix l =? 0) && (cl_authenticated_until_unix l <=? now_unix)
  then (IS_CONSUMER_LIVENESS_AUTH_EXPIRED, None)
  else if now_monotonic_ms <? cl_last_activity_monotonic_ms l
  then (IS_CONSUMER_LIVENESS_SILENT, None)
  else
    let elapsed_ms := u64 (now_monotonic_ms - cl_last_activity_monotonic_ms l) in
    if cl_failure_deadline_ms l <=? elapsed_ms then (IS_CONSUMER_LIVENESS_SILENT, None)
    else
      let remaining_ms := u64 (cl_failure_deadline_ms l - elapsed_ms) in
      let remaining_ms :=
        if negb (cl_authenticated_until_unix l =? 0) then
          let remaining_auth_seconds := u64 (cl_authenticated_until_unix l - now_unix) in
          let remaining_auth_ms :=
            if UINT64_MAX / 1000 <? remaining_auth_seconds then UINT64_MAX
            else u64 (remaining_auth_seconds * 1000) in
          if remaining_auth_ms <? remaining_ms then remaining_auth_ms else remaining_ms
        else remaining_ms in
      (IS_CONSUMER_LIVENESS_ACTIVE, Some remaining_ms).

(** ** The wait *)

Definition liveness_typed (l : is_consumer_liveness) : Prop :=
  is_u64 (cl_last_activity_monotonic_ms l) /\ is_u64 (cl_authenticated_until_unix l) /\
  is_u32 (cl_failure_deadline_ms l).

Lemma auth_ms_saturates seconds :
  is_u64 seconds ->
  (if UINT64_MAX / 1000 <? seconds then UINT64_MAX else u64 (seconds * 1000)) =
  Z.min UINT64_MAX (1000 * seconds).
Proof.
  intros Hs. change (UINT64_MAX / 1000) with 18446744073709551. unfold in_u in Hs.
  destruct (Z.ltb_spec 18446744073709551 seconds).
  - unfold UINT64_MAX. pow2_norm. lia.
  - rewrite wrap_small by (unfold in_u; pow_lia). unfold UINT64_MAX. pow2_norm. lia.
Qed.

Lemma check_active l m u w :
  liveness_typed l -> is_u64 m -> is_u64 u ->
  is_consumer_liveness_check l m u = (IS_CONSUMER_LIVENESS_ACTIVE, Some w) <->
  cl_last_activity_monotonic_ms l <= m < cl_last_activity_monotonic_ms l + cl_failure_deadline_ms l /\
  (cl_authenticated_until_unix l = 0 /\
   w = cl_last_activity_monotonic_ms l + cl_failure_deadline_ms l - m \/
   u < cl_authenticated_until_unix l /\
   w = Z.min (cl_last_activity_monotonic_ms l + cl_failure_deadline_ms l - m)
         (1000 * (cl_authenticated_until_unix l - u))).
Proof.
  destruct l as [last until deadline]. unfold liveness_typed, is_consumer_liveness_check. simpl.
  intros (Hl & Hu & Hd) Hm Hn. unfold in_u in *.
  destruct (Z.eqb_spec until 0) as [->|Hz]; simpl.
  - destruct (Z.ltb_spec m last); [split; [done|lia]|].
    rewrite (wrap_small 64 (m - last)) by (unfold in_u; lia).
    destruct (Z.leb_spec deadline (m - last)); [split; [done|lia]|].
    rewrite wrap_small by (unfold in_u; pow_lia).
    split; [intros [= <-]; lia|]. intros [_ [[_ ->]|?]]; [|lia]. do 2 f_equal. lia.
  - destruct (Z.leb_spec until u); [split; [done|lia]|].
    destruct (Z.ltb_spec m last); [split; [done|lia]|].
    rewrite (wrap_small 64 (m - last)) by (unfold in_u; lia).
    destruct (Z.leb_spec deadline (m - last)); [split; [done|lia]|].
    rewrite (wrap_small 64 (deadline - (m - last))), (wrap_small 64 (until - u)) by (unfold in_u; pow_lia).
    rewrite auth_ms_saturates by (unfold in_u; lia).
    replace (if _ <? _ then _ else _) with (Z.min (deadline - (m - last)) (1000 * (until - u))).
    2: { assert (deadline < UINT64_MAX) by (unfold UINT64_MAX; pow_lia).
         destruct (Z.ltb_spec (Z.min UINT64_MAX (1000 * (until - u))) (deadline - (m - last))); lia. }
    split; [intros [= <-]; lia|]. intros [_ [?|[_ ->]]]; [lia|].
    replace (last + deadline - m) with (deadline - (m - last)) by lia. done.
Qed.

(** The verdict [t] milliseconds later, without further activity, where the
    wall clock shows whole seconds and is [phase] milliseconds into one. *)
Definition check_later (l : is_consumer_liveness) (m u phase t : Z) : is_consumer_liveness_result :=
  (is_consumer_liveness_check l (m + t) (u + (t + phase) / 1000)).1.

Lemma check_result l m u :
  (exists w, is_consumer_liveness_check l m u = (IS_CONSUMER_LIVENESS_ACTIVE, Some w)) <->
  (is_consumer_liveness_check l m u).1 = IS_CONSUMER_LIVENESS_ACTIVE.
Proof.
  unfold is_consumer_liveness_check.
  repeat case_match; simpl; split; try done; try (intros [? ?]; done); intros _; by eexists.
Qed.

Lemma check_silent l m u :
  liveness_typed l -> is_u64 m ->
  (is_consumer_liveness_check l m u).1 = IS_CONSUMER_LIVENESS_SILENT ->
  m < cl_last_activity_monotonic_ms l \/
  cl_last_activity_monotonic_ms l + cl_failure_deadline_ms l <= m.
Proof.
  intros (Hl & _ & _) Hm. unfold is_consumer_liveness_check. unfold in_u in *.
  case_match; [done|]. case_match eqn:E; [lia|]. rewrite wrap_small by (unfold in_u; lia).
  case_match; [lia|done].
Qed.

Lemma seconds_bounds t phase :
  0 <= t -> 0 <= phase < 1000 ->
  0 <= t / 1000 /\ t / 1000 <= (t + phase) / 1000 <= t / 1000 + 1.
Proof. intros. Z.div_mod_to_equations. lia. Qed.

(** The wait is exact.  When a check finds the consumer active and tells to
    wait [w] milliseconds, then with no further activity a check at [w] does
    not find it active: the monitor does not sleep past the deadline of
    activity or of the key.  A check before [w] finds it active still, up to
    the part of a second that the wall clock does not show; in no case is it
    called silent before [w].  The clocks are short of the end of their range. *)
Theorem liveness_wait_exact l m u phase w :
  liveness_typed l -> is_u64 m -> is_u64 u -> 0 <= phase < 1000 ->
  m + w < 2 ^ 64 -> u + w / 1000 + 1 < 2 ^ 64 ->
  is_consumer_liveness_check l m u = (IS_CONSUMER_LIVENESS_ACTIVE, Some w) ->
  0 < w /\ check_later l m u phase w <> IS_CONSUMER_LIVENESS_ACTIVE /\
  forall t, 0 <= t < w ->
    check_later l m u phase t <> IS_CONSUMER_LIVENESS_SILENT /\
    (t + phase < w -> check_later l m u phase t = IS_CONSUMER_LIVENESS_ACTIVE).
Proof.
  intros Hl Hm Hu Hp Hmw Huw Hc. apply (check_active l m u w Hl Hm Hu) in Hc.
  assert (0 < w) as Hw by lia. split; [done|]. unfold check_later. split.
  - intros Ha. apply check_result in Ha as [w' Ha].
    pose proof (seconds_bounds w phase ltac:(lia) Hp).
    apply check_active in Ha; [|done|unfold in_u in *; lia..].
    destruct Hc as [_ [[Hz ->]|[Hlt Hmin]]]; [lia|]. destruct Ha as [? [[? _]|[Hlt' _]]]; [unfold in_u in Hu; lia|].
    assert (w = 1000 * (cl_authenticated_until_unix l - u)) as -> by lia.
    rewrite Z.mul_comm, Z.div_mul in * by lia. lia.
  - intros t Ht. pose proof (seconds_bounds t phase ltac:(lia) Hp).
    assert (t / 1000 <= w / 1000) by (apply Z.div_le_mono; lia). split.
    + intros Hs. apply check_silent in Hs; [lia|done|unfold in_u in *; lia..].
    + intros Htp. apply check_result. destruct Hc as [? [[Hz Hzw]|[Hlt Hmin]]]; eexists;
        (apply check_active; [done|unfold in_u in *; lia..|]).
      * split; [lia|left; by split].
      * split; [lia|right]. split; [|done].
        enough ((t + phase) / 1000 < cl_authenticated_until_unix l - u) by lia.
        apply Z.div_lt_upper_bound; lia.
Qed.

Lemma liveness_wait_exact_witness :
  check_later (is_consumer_liveness_init 2000 1001 500) 600 1000 250 1000 <> IS_CONSUMER_LIVENESS_ACTIVE.
Proof.
  destruct (liveness_wait_exact (is_consumer_liveness_init 2000 1001 500) 600 1000 250 1000)
    as (_ & H & _); [by vm_compute..|exact H].
Defined.
