(* ===== verification/ProviderConnection.v ===== *)
(** * A control connection of the provider
      (src/infiniswap_daemon/rdma-common.c, .h)

    What one [struct connection] holds, and the routines that touch nothing
    else: references, deadlines, the two-deep send queue, and the translation
    between [struct control_message] and the frames of the control protocol.
    Each runs under the lock the source takes, so it is a function of the
    connection. *)
From S2P Require Import Prelude Protocol Text Auth ProviderSession Liveness.

(** ** Data *)

Definition CQ_QP_IDLE : Z := 0.
Definition CQ_QP_BUSY : Z := 1.
Definition MAX_CLIENT : Z := 64.
Definition MAX_MR_SIZE_GB : Z := 128.

Definition IS_PROVIDER_CAPABILITIES : Z :=
  Z.lor (Z.lor (Z.lor (Z.lor (Z.lor (Z.lor IS_PROTOCOL_CAP_BACKED IS_PROTOCOL_CAP_REMOTE_ONLY)
    IS_PROTOCOL_CAP_OPPORTUNISTIC_POOL) IS_PROTOCOL_CAP_COMMITTED_POOL)
    IS_PROTOCOL_CAP_FAILURE_DEADLINE) IS_PROTOCOL_CAP_STATUS) IS_PROTOCOL_CAP_AUTH_HMAC_SHA256.
Definition IS_PROVIDER_REQUIRED_CAPABILITIES : Z :=
  Z.lor (Z.lor IS_PROTOCOL_CAP_FAILURE_DEADLINE IS_PROTOCOL_CAP_STATUS)
    IS_PROTOCOL_CAP_AUTH_HMAC_SHA256.
Definition PROVIDER_HANDSHAKE_TIMEOUT_MS : Z := 5000.

(** [enum control_message_type]; a zeroed message has type 0. *)
Definition CONTROL_DONE : Z := 1.
Definition CONTROL_INFO : Z := 2.
Definition CONTROL_FREE_SIZE : Z := 3.
Definition CONTROL_EVICT : Z := 4.
Definition CONTROL_ACTIVITY : Z := 5.
Definition CONTROL_RELEASE : Z := 6.
Definition CONTROL_PEER_ERROR : Z := 7.
Definition CONTROL_QUERY : Z := 8.
Definition CONTROL_BIND : Z := 9.

Record control_message := {
  cm_buf : list Z;
  cm_rkey : list Z;
  cm_size_gb : Z;
  cm_committed_size_gb : Z;
  cm_status_flags : Z;
  cm_type : Z
}.

#[export] Instance control_message_eta : Eta control_message := fun m =>
  {| cm_buf := cm_buf m; cm_rkey := cm_rkey m; cm_size_gb := cm_size_gb m;
     cm_committed_size_gb := cm_committed_size_gb m; cm_status_flags := cm_status_flags m;
     cm_type := cm_type m |}.

Definition zero_control_message : control_message :=
  {| cm_buf := zeros 128; cm_rkey := zeros 128; cm_size_gb := 0; cm_committed_size_gb := 0;
     cm_status_flags := 0; cm_type := 0 |}.

Inductive server_state := S_WAIT | S_BIND | S_DONE.

(** The queue pair, the RDMA identifier, the locks and the registrations of the
    frames belong to the verbs library; [send_state], [recv_state] and
    [peer_mr] are never read.  A received frame is the argument of the
    completion that reports it. *)
Record connection := {
  cn_conn_index : Z;
  cn_sess_chunk_map : list Z;
  cn_mapped_chunk_size : Z;
  cn_evict_sem : Z;
  cn_stop_sem : Z;
  cn_connected : bool;
  cn_send_frame : list Z;
  cn_pending_send_frame : list Z;
  cn_send_frame_size : Z;
  cn_pending_send_frame_size : Z;
  cn_recv_message : control_message;
  cn_send_message : control_message;
  cn_protocol_session : is_provider_session;
  cn_consumer_liveness : is_consumer_liveness;
  cn_active_request_id : Z;
  cn_next_provider_request_id : Z;
  cn_pending_evict_request_id : Z;
  cn_pending_release_request_id : Z;
  cn_pending_evict_chunks : list Z;
  cn_pending_release_chunks : list Z;
  cn_release_chunks : list Z;
  cn_pending_evict_chunk_count : Z;
  cn_pending_release_chunk_count : Z;
  cn_release_chunk_count : Z;
  cn_requested_logical_start : Z;
  cn_requested_pool : Z;
  cn_close_after_send : bool;
  cn_repost_after_send : bool;
  cn_pending_send : bool;
  cn_pending_close_after_send : bool;
  cn_pending_repost_after_send : bool;
  cn_auth_subscribed : bool;
  cn_memory_connected : bool;
  cn_cq_qp_state : Z;
  cn_references : Z;
  cn_handshake_complete : bool;
  cn_send_inflight : bool;
  cn_closing : bool;
  cn_server_state : server_state
}.

#[export] Instance connection_eta : Eta connection := fun c =>
  {| cn_conn_index := cn_conn_index c; cn_sess_chunk_map := cn_sess_chunk_map c;
     cn_mapped_chunk_size := cn_mapped_chunk_size c; cn_evict_sem := cn_evict_sem c;
     cn_stop_sem := cn_stop_sem c; cn_connected := cn_connected c;
     cn_send_frame := cn_send_frame c; cn_pending_send_frame := cn_pending_send_frame c;
     cn_send_frame_size := cn_send_frame_size c;
     cn_pending_send_frame_size := cn_pending_send_frame_size c;
     cn_recv_message := cn_recv_message c; cn_send_message := cn_send_message c;
     cn_protocol_session := cn_protocol_session c;
     cn_consumer_liveness := cn_consumer_liveness c;
     cn_active_request_id := cn_active_request_id c;
     cn_next_provider_request_id := cn_next_provider_request_id c;
     cn_pending_evict_request_id := cn_pending_evict_request_id c;
     cn_pending_release_request_id := cn_pending_release_request_id c;
     cn_pending_evict_chunks := cn_pending_evict_chunks c;
     cn_pending_release_chunks := cn_pending_release_chunks c;
     cn_release_chunks := cn_release_chunks c;
     cn_pending_evict_chunk_count := cn_pending_evict_chunk_count c;
     cn_pending_release_chunk_count := cn_pending_release_chunk_count c;
     cn_release_chunk_count := cn_release_chunk_count c;
     cn_requested_logical_start := cn_requested_logical_start c;
     cn_requested_pool := cn_requested_pool c; cn_close_after_send := cn_close_after_send c;
     cn_repost_after_send := cn_repost_after_send c; cn_pending_send := cn_pending_send c;
     cn_pending_close_after_send := cn_pending_close_after_send c;
     cn_pending_repost_after_send := cn_pending_repost_after_send c;
     cn_auth_subscribed := cn_auth_subscribed c; cn_memory_connected := cn_memory_connected c;
     cn_cq_qp_state := cn_cq_qp_state c; cn_references := cn_references c;
     cn_handshake_complete := cn_handshake_complete c; cn_send_inflight := cn_send_inflight c;
     cn_closing := cn_closing c; cn_server_state := cn_server_state c |}.

(** Conversion to [int]. *)
Definition to_int (x : Z) : Z := (x + 2 ^ 31) mod 2 ^ 32 - 2 ^ 31.

(** ** References and deadlines *)

Definition connection_get_reference (c : connection) : connection * Z :=
  if cn_closing c then (c, -1) else (c <| cn_references := u32 (cn_references c + 1) |>, 0).

Definition connection_put_reference (c : connection) : connection :=
  if 0 <? cn_references c then c <| cn_references := cn_references c - 1 |> else c.

Record timespec := { tv_sec : Z; tv_nsec : Z }.

Definition add_milliseconds (deadline : timespec) (milliseconds : Z) : timespec :=
  let sec := tv_sec deadline + milliseconds / 1000 in
  let nsec := tv_nsec deadline + milliseconds mod 1000 * 1000000 in
  if 1000000000 <=? nsec then {| tv_sec := sec + 1; tv_nsec := nsec - 1000000000 |}
  else {| tv_sec := sec; tv_nsec := nsec |}.

(** [clock] is what clock_gettime answers: no time when it fails. *)
Definition monotonic_now (clock : option timespec) : option (timespec * Z) :=
  match clock with
  | None => None
  | Some now =>
      if (tv_sec now <? 0) || (UINT64_MAX / 1000 <? tv_sec now) then None
      else Some (now, u64 (tv_sec now * 1000 + tv_nsec now / 1000000))
  end.

Definition start_connection_liveness (clock : option timespec) (c : connection) :
    connection * Z :=
  match monotonic_now clock with
  | None => (c, -1)
  | Some (_, now_ms) =>
      if cn_closing c then (c, -1)
      else
        (c <| cn_consumer_liveness :=
                is_consumer_liveness_init (ps_failure_deadline_ms (cn_protocol_session c))
                  (ps_authenticated_until_unix (cn_protocol_session c)) now_ms |>
           <| cn_handshake_complete := true |>, 0)
  end.

Definition refresh_connection_liveness (clock : option timespec) (c : connection) :
    connection * Z :=
  match monotonic_now clock with
  | None => (c, -1)
  | Some (_, now_ms) =>
      if cn_closing c || negb (cn_handshake_complete c) then (c, -1)
      else (c <| cn_consumer_liveness :=
                   is_consumer_liveness_refresh (cn_consumer_liveness c) now_ms |>, 0)
  end.

(** ** The send queue

    One frame in flight and one pending, each in a buffer of
    [IS_PROTOCOL_MAX_FRAME_SIZE] bytes. *)

Definition clear_sends (c : connection) : connection :=
  c <| cn_send_inflight := false |> <| cn_pending_send := false |>
    <| cn_close_after_send := false |> <| cn_repost_after_send := false |>
    <| cn_pending_close_after_send := false |> <| cn_pending_repost_after_send := false |>.

(** The connection, [start_next], [*close_connection] and [*repost_receive]. *)
Definition finish_send (c : connection) : connection * bool * bool * bool :=
  let close_connection := cn_close_after_send c in
  let repost_receive := cn_repost_after_send c in
  let c := c <| cn_close_after_send := false |> <| cn_repost_after_send := false |> in
  if close_connection then
    (c <| cn_send_inflight := false |> <| cn_pending_send := false |>
       <| cn_pending_close_after_send := false |> <| cn_pending_repost_after_send := false |>,
     false, close_connection, repost_receive)
  else if cn_pending_send c then
    (c <| cn_send_frame :=
            buf_write (cn_send_frame c) 0
              (buf_read (cn_pending_send_frame c) 0 (cn_pending_send_frame_size c)) |>
       <| cn_send_frame_size := cn_pending_send_frame_size c |>
       <| cn_close_after_send := cn_pending_close_after_send c |>
       <| cn_repost_after_send := cn_pending_repost_after_send c |>
       <| cn_pending_send := false |> <| cn_pending_close_after_send := false |>
       <| cn_pending_repost_after_send := false |>,
     true, close_connection, repost_receive)
  else (c <| cn_send_inflight := false |>, false, close_connection, repost_receive).

(** The locked part of [submit_encoded_message]: the connection, [post_now] and
    [result].  [frame] holds at least [frame_size] bytes. *)
Definition queue_encoded_message (c : connection) (frame : list Z) (frame_size : Z)
    (close_connection repost_receive : bool) : connection * bool * Z :=
  if negb (cn_send_inflight c) then
    (c <| cn_send_frame := buf_write (cn_send_frame c) 0 (buf_read frame 0 frame_size) |>
       <| cn_send_frame_size := frame_size |>
       <| cn_close_after_send := close_connection |>
       <| cn_repost_after_send := repost_receive |>
       <| cn_send_inflight := true |>, true, 0)
  else if negb (cn_pending_send c) then
    (c <| cn_pending_send_frame :=
            buf_write (cn_pending_send_frame c) 0 (buf_read frame 0 frame_size) |>
       <| cn_pending_send_frame_size := frame_size |>
       <| cn_pending_close_after_send := close_connection |>
       <| cn_pending_repost_after_send := repost_receive |>
       <| cn_pending_send := true |>, false, 0)
  else (c, false, -1).

(** What [post_encoded_message] hands to the queue pair. *)
Definition outgoing_frame (c : connection) : list Z :=
  buf_read (cn_send_frame c) 0 (cn_send_frame_size c).

(** ** Outbound messages *)

(** The header [init_outbound_message] leaves in the zeroed message. *)
Definition init_outbound_message (c : connection) (type : Z) (response : bool) :
    connection * is_protocol_header :=
  let request_id :=
    if response then cn_active_request_id c else cn_next_provider_request_id c in
  let c :=
    if response then c
    else c <| cn_next_provider_request_id := u64 (cn_next_provider_request_id c + 1) |> in
  let c :=
    if negb response && (type =? IS_PROTOCOL_MSG_EVICT)
    then c <| cn_pending_evict_request_id := request_id |> else c in
  let c :=
    if negb response && (type =? IS_PROTOCOL_MSG_RELEASE)
    then c <| cn_pending_release_request_id := request_id |> else c in
  (c, {| hdr_major := IS_PROTOCOL_MAJOR;
         hdr_minor := ps_negotiated_minor (cn_protocol_session c);
         hdr_type := type;
         hdr_flags := if response then IS_PROTOCOL_FLAG_RESPONSE else 0;
         hdr_request_id := request_id;
         hdr_session_id := ps_session_id (cn_protocol_session c);
         hdr_capabilities := ps_negotiated_capabilities (cn_protocol_session c);
         hdr_required_capabilities := ps_required_capabilities (cn_protocol_session c) |}).

(** The loop of CONTROL_INFO: one entry per key of the message. *)
Definition grant_entries (c : connection) : unit + Z * list is_protocol_chunk :=
  for_err (Z.to_nat MAX_MR_SIZE_GB) 0 (fun index '(count, chunks) =>
    if byte_at (cm_rkey (cn_send_message c)) index =? 0 then inr (count, chunks)
    else if count =? IS_PROTOCOL_MAX_CHUNKS_PER_FRAME then inl tt
    else inr (count + 1,
      set_at chunks count
        {| chunk_logical_chunk_id := u32 (cn_requested_logical_start c + count);
           chunk_provider_chunk_id := index;
           chunk_remote_address := byte_at (cm_buf (cn_send_message c)) index;
           chunk_remote_key := byte_at (cm_rkey (cn_send_message c)) index;
           chunk_pool := cn_requested_pool c |})) (0, zero_chunks).

(** The loops of CONTROL_EVICT and CONTROL_RELEASE: the identifiers listed and
    the marks of the connection's pending array, up to where the loop stops. *)
Definition list_chunks (listed : Z -> bool) :
    (Z * list Z * list Z) + Z * list Z * list Z :=
  for_err (Z.to_nat MAX_MR_SIZE_GB) 0 (fun index '(count, ids, marks) =>
    if negb (listed index) then inr (count, ids, marks)
    else if count =? IS_PROTOCOL_MAX_CHUNKS_PER_FRAME then inl (count, ids, marks)
    else inr (count + 1, set_at ids count index, set_at marks index 1))
    (0, zeros 128, zeros 128).

Section Frames.
Context `{ProtocolBuild}.

(** What is left of [encode_control_message] once the payload is known. *)
Definition encode_outbound (c : connection) (header : is_protocol_header)
    (payload : is_protocol_payload) (frame : list Z) : connection * (unit + list Z * Z) :=
  match is_protocol_encode (Some {| msg_header := header; msg_payload := payload |})
          (Some frame) IS_PROTOCOL_MAX_FRAME_SIZE with
  | inl _ => (c, inl tt)
  | inr encoded => (c, inr encoded)
  end.

Definition status_payload (c : connection) : is_protocol_payload :=
  payload_status {|
    status_available_opportunistic_chunks := u32 (cm_size_gb (cn_send_message c));
    status_available_committed_chunks := cm_committed_size_gb (cn_send_message c);
    status_provider_failure_deadline_ms := ps_failure_deadline_ms (cn_protocol_session c);
    status_flags := cm_status_flags (cn_send_message c) |}.

Definition encode_evict (c : connection) (frame : list Z) : connection * (unit + list Z * Z) :=
  if negb (cn_pending_evict_request_id c =? 0) then (c, inl tt)
  else
    let c := c <| cn_pending_evict_chunks := zeros 128 |> <| cn_pending_evict_chunk_count := 0 |> in
    let '(c, header) := init_outbound_message c IS_PROTOCOL_MSG_EVICT false in
    match list_chunks (fun index => negb (byte_at (cn_sess_chunk_map c) index <? 0)) with
    | inl (_, _, marks) => (c <| cn_pending_evict_chunks := marks |>, inl tt)
    | inr (count, ids, marks) =>
        let c := c <| cn_pending_evict_chunks := marks |>
                   <| cn_pending_evict_chunk_count := u16 count |> in
        encode_outbound c header
          (payload_chunk_ids {| ids_chunk_count := u16 count; ids_chunk_ids := ids |}) frame
    end.

Definition encode_release (c : connection) (frame : list Z) : connection * (unit + list Z * Z) :=
  if negb (cn_pending_release_request_id c =? 0) then (c, inl tt)
  else
    let c := c <| cn_pending_release_chunks := zeros 128 |>
               <| cn_pending_release_chunk_count := 0 |> in
    let '(c, header) := init_outbound_message c IS_PROTOCOL_MSG_RELEASE false in
    match list_chunks (fun index => negb (byte_at (cm_rkey (cn_send_message c)) index =? 0)) with
    | inl (_, _, marks) => (c <| cn_pending_release_chunks := marks |>, inl tt)
    | inr (count, ids, marks) =>
        let c := c <| cn_pending_release_chunks := marks |>
                   <| cn_pending_release_chunk_count := u16 count |> in
        encode_outbound c header
          (payload_chunk_ids {| ids_chunk_count := u16 count; ids_chunk_ids := ids |}) frame
    end.

(** The connection and, unless -1 is returned, the frame and its size. *)
Definition encode_control_message (c : connection) (frame : list Z) :
    connection * (unit + list Z * Z) :=
  let type := cm_type (cn_send_message c) in
  if type =? CONTROL_FREE_SIZE then
    let '(c, header) := init_outbound_message c IS_PROTOCOL_MSG_STATUS_RESPONSE true in
    encode_outbound c header (status_payload c) frame
  else if type =? CONTROL_INFO then
    let '(c, header) := init_outbound_message c IS_PROTOCOL_MSG_CHUNK_GRANT true in
    match grant_entries c with
    | inl _ => (c, inl tt)
    | inr (count, chunks) =>
        encode_outbound c header
          (payload_chunk_grant {| grant_chunk_count := u16 count; grant_chunks := chunks |}) frame
    end
  else if type =? CONTROL_EVICT then encode_evict c frame
  else if type =? CONTROL_RELEASE then encode_release c frame
  else if type =? CONTROL_DONE then
    let '(c, header) := init_outbound_message c IS_PROTOCOL_MSG_GOODBYE false in
    encode_outbound c header payload_none frame
  else (c, inl tt).
End Frames.

(** ** Inbound messages *)

Definition control_chunk_set_matches (expected_chunks : list Z) (expected_count : Z)
    (response_chunks : list Z) (response_count : Z) : bool :=
  if negb (response_count =? expected_count) then false
  else
    match for_err (Z.to_nat response_count) 0 (fun index seen =>
        let chunk := byte_at response_chunks index in
        if (MAX_MR_SIZE_GB <=? chunk) || (byte_at expected_chunks chunk =? 0) ||
           negb (byte_at seen chunk =? 0)
        then inl tt else inr (set_at seen chunk 1)) (zeros 128) with
    | inl _ => false
    | inr _ => true
    end.

(** The member of [struct control_message] arrays written for one chunk of an
    answer, with the check that the chunk was asked for and is mapped. *)
Definition receive_chunk (pending : list Z) (chunk activity : Z) (record : bool)
    (c : connection) : connection + connection :=
  if (MAX_MR_SIZE_GB <=? chunk) || (byte_at pending chunk =? 0) ||
     (byte_at (cn_sess_chunk_map c) chunk <? 0)
  then inl c
  else
    let m := cn_recv_message c in
    let m := m <| cm_rkey := set_at (cm_rkey m) chunk 1 |> in
    let m := if record then m <| cm_buf := set_at (cm_buf m) chunk activity |> else m in
    inr (c <| cn_recv_message := m |>).

Definition forget_evict (c : connection) : connection :=
  c <| cn_pending_evict_request_id := 0 |> <| cn_pending_evict_chunk_count := 0 |>
    <| cn_pending_evict_chunks := zeros 128 |>.
Definition forget_release (c : connection) : connection :=
  c <| cn_pending_release_request_id := 0 |> <| cn_pending_release_chunk_count := 0 |>
    <| cn_pending_release_chunks := zeros 128 |>.

Definition received (c : connection) (type size_gb : Z) : connection :=
  c <| cn_recv_message := (cn_recv_message c) <| cm_type := type |> <| cm_size_gb := size_gb |> |>.

(** The answer to no request, or to another one. *)
Definition unsolicited (header : is_protocol_header) (pending_request_id : Z) : bool :=
  (Z.land (hdr_flags header) IS_PROTOCOL_FLAG_RESPONSE =? 0) || (pending_request_id =? 0) ||
  negb (hdr_request_id header =? pending_request_id).

Definition translate_activity (c : connection) (request : is_protocol_message) : connection * Z :=
  let activity := get_activity (msg_payload request) in
  let count := activity_chunk_count activity in
  let entry index := activity_at (activity_chunks activity) index in
  if unsolicited (msg_header request) (cn_pending_evict_request_id c) then (c, -1)
  else
    let response_chunks :=
      for_loop (Z.to_nat count) 0 (fun index response_chunks =>
        set_at response_chunks index (activity_provider_chunk_id (entry index))) (zeros 128) in
    if negb (control_chunk_set_matches (cn_pending_evict_chunks c)
               (cn_pending_evict_chunk_count c) response_chunks count)
    then (c, -1)
    else
      match for_err (Z.to_nat count) 0 (fun index c =>
          receive_chunk (cn_pending_evict_chunks c) (activity_provider_chunk_id (entry index))
            (activity_activity (entry index)) true c)
          (received c CONTROL_ACTIVITY count) with
      | inl c => (c, -1)
      | inr c => (forget_evict c, 0)
      end.

Definition translate_release (c : connection) (request : is_protocol_message) : connection * Z :=
  let ids := get_chunk_ids (msg_payload request) in
  let count := ids_chunk_count ids in
  if unsolicited (msg_header request) (cn_pending_release_request_id c) then (c, -1)
  else if negb (control_chunk_set_matches (cn_pending_release_chunks c)
                  (cn_pending_release_chunk_count c) (ids_chunk_ids ids) count)
  then (c, -1)
  else
    match for_err (Z.to_nat count) 0 (fun index c =>
        receive_chunk (cn_pending_release_chunks c) (byte_at (ids_chunk_ids ids) index) 0 false c)
        (received c CONTROL_RELEASE count) with
    | inl c => (c, -1)
    | inr c => (forget_release c, 0)
    end.

Definition translate_error (c : connection) (request : is_protocol_message) : connection * Z :=
  let offending_type := error_offending_type (get_error (msg_payload request)) in
  let request_id := hdr_request_id (msg_header request) in
  if (offending_type =? IS_PROTOCOL_MSG_EVICT) && negb (cn_pending_evict_request_id c =? 0) &&
     (request_id =? cn_pending_evict_request_id c)
  then (received (forget_evict c) CONTROL_PEER_ERROR 0, 0)
  else if (offending_type =? IS_PROTOCOL_MSG_RELEASE) &&
          negb (cn_pending_release_request_id c =? 0) &&
          (request_id =? cn_pending_release_request_id c)
  then (received (forget_release c) CONTROL_PEER_ERROR 0, 0)
  else (c, -1).

Definition translate_request (c : connection) (request : is_protocol_message) : connection * Z :=
  let header := msg_header request in
  let c := c <| cn_recv_message := zero_control_message |>
             <| cn_active_request_id := hdr_request_id header |> in
  let type := hdr_type header in
  if type =? IS_PROTOCOL_MSG_STATUS_REQUEST then (received c CONTROL_QUERY 0, 0)
  else if type =? IS_PROTOCOL_MSG_CHUNK_REQUEST then
    let r := get_chunk_request (msg_payload request) in
    ((received c CONTROL_BIND (to_int (request_chunk_count r)))
       <| cn_requested_logical_start := request_logical_start r |>
       <| cn_requested_pool := request_pool r |>, 0)
  else if type =? IS_PROTOCOL_MSG_ACTIVITY then translate_activity c request
  else if type =? IS_PROTOCOL_MSG_RELEASE then translate_release c request
  else if type =? IS_PROTOCOL_MSG_ERROR then translate_error c request
  else if type =? IS_PROTOCOL_MSG_GOODBYE then (received c CONTROL_DONE 0, 0)
  else (c, -1).

(** ** The messages of the eviction thread *)

(** [memcpy] of the marks, bytes, over the keys, 32-bit words: little-endian
    words of the marks in the first quarter of the array. *)
Definition words_of_marks (marks : list Z) : list Z :=
  (fun i => byte_at marks (4 * i) + 2 ^ 8 * byte_at marks (4 * i + 1) +
            2 ^ 16 * byte_at marks (4 * i + 2) + 2 ^ 24 * byte_at marks (4 * i + 3))
    <$> (Z.of_nat <$> seq 0 32).

(** What [send_stop] puts in [send_message]. *)
Definition stop_message (c : connection) (n : Z) : connection :=
  c <| cn_send_message :=
         zero_control_message
           <| cm_type := CONTROL_RELEASE |> <| cm_size_gb := n |>
           <| cm_rkey := buf_write (zeros 128) 0 (words_of_marks (cn_release_chunks c)) |> |>.

Definition evict_message (c : connection) : connection :=
  c <| cn_send_message := zero_control_message <| cm_type := CONTROL_EVICT |> |>.
