(* ===== verification/ProviderDaemon.v ===== *)
(** * The provider's control plane
      (src/infiniswap_daemon/rdma-common.c, .h)

    The handlers of the daemon: completions and connection events, the
    eviction thread and the deadline thread.  They share the connection table,
    the connections themselves (by pointer), the credential registry and the
    memory manager.  A handler is a function of that state which returns,
    terminates the process ([die]), waits for ever, or follows a dangling
    pointer. *)
From S2P Require Import Prelude Protocol Text Auth ProviderSession Liveness MemoryManager ProviderConnection.

(** ** State *)

Inductive conn_state := CONN_IDLE | CONN_CONNECTED | CONN_MAPPED | CONN_FAILED.

#[export] Instance conn_state_eq_dec : EqDecision conn_state.
Proof. solve_decision. Defined.

(** [se_conns] holds pointers, 0 being NULL. *)
Record rdma_session := {
  se_conns : list Z;
  se_conns_state : list conn_state;
  se_conn_num : Z;
  se_authentication_failures_total : Z;
  se_deadline_expiries_total : Z;
  se_connections_total : Z;
  se_disconnections_total : Z;
  se_control_errors_total : Z
}.

#[export] Instance rdma_session_eta : Eta rdma_session := fun s =>
  {| se_conns := se_conns s; se_conns_state := se_conns_state s; se_conn_num := se_conn_num s;
     se_authentication_failures_total := se_authentication_failures_total s;
     se_deadline_expiries_total := se_deadline_expiries_total s;
     se_connections_total := se_connections_total s;
     se_disconnections_total := se_disconnections_total s;
     se_control_errors_total := se_control_errors_total s |}.

(** What the daemon asked of the verbs library, oldest first. *)
Inductive event :=
| Sent (conn : Z) (frame : list Z)
| Receiving (conn : Z)
| Disconnecting (conn : Z).

Record provider (W : Type) := {
  pv_session : rdma_session;
  pv_conns : gmap Z connection;
  pv_registry : is_auth_registry;
  pv_manager : is_memory_manager;
  pv_pd : Z;
  pv_world : W;
  pv_trace : list event
}.
Arguments pv_session {W}.
Arguments pv_conns {W}.
Arguments pv_registry {W}.
Arguments pv_manager {W}.
Arguments pv_pd {W}.
Arguments pv_world {W}.
Arguments pv_trace {W}.

#[export] Instance provider_eta {W} : Eta (provider W) := fun st =>
  {| pv_session := pv_session st; pv_conns := pv_conns st; pv_registry := pv_registry st;
     pv_manager := pv_manager st; pv_pd := pv_pd st; pv_world := pv_world st;
     pv_trace := pv_trace st |}.

(** ** The platform

    The verbs library, the clocks, the random source and the allocator, as
    operations on a world.  A memory region is named by its identity; its
    address and key are fixed when it is created. *)
Class Platform (W : Type) := {
  clock_monotonic : W -> W * option timespec;
  time_now : W -> W * Z;
  cond_timedwait : timespec -> W -> W * Z;
  random_identity : W -> W * option (list Z * Z);
  calloc_connection : W -> W * Z;
  ibv_post_send : Z -> list Z -> W -> W * Z;
  ibv_post_recv : Z -> W -> W * Z;
  drain_queue : Z -> W -> W * bool;
  setup_connection : Z -> W -> W * bool;
  rdma_accept : W -> W * Z;
  ibv_reg_mr : Z -> Z -> W -> W * Z;
  ibv_dereg_mr : Z -> W -> W * Z;
  mr_addr : Z -> Z;
  mr_rkey : Z -> Z;
  posix_memalign : W -> W * (Z * Z);
  clear_block : Z -> W -> W;
  free_block : Z -> W -> W;
  meminfo : W -> W * (Z * Z);
  c_heap : W -> W * bool
}.

Section Adapters.
Context {W : Type} `{Platform W}.

(** *** The adapters the daemon gives the memory manager *)

Definition register_remote_memory (pd addr : Z) (w : W) : W * Z :=
  let '(w, memory_region) := ibv_reg_mr pd addr w in
  if memory_region =? 0 then (w, 0)
  else if (mr_addr memory_region =? 0) || (mr_rkey memory_region =? 0) then
    let '(w, _) := ibv_dereg_mr memory_region w in (w, 0)
  else (w, memory_region).

Definition deregister_remote_memory (pd memory_region : Z) (w : W) : W * Z :=
  ibv_dereg_mr memory_region w.

Definition posix_allocate (w : W) : W * (Z * Z) := posix_memalign w.
Definition posix_touch (addr : Z) (w : W) : W * Z := (clear_block addr w, 0).
Definition posix_release (addr : Z) (w : W) : W := free_block addr w.

#[export] Instance daemon_adapters : MemoryAdapters W := {|
  read_available_bytes := meminfo;
  allocate := posix_allocate;
  touch := posix_touch;
  release := posix_release;
  register_chunk := register_remote_memory;
  deregister_chunk := deregister_remote_memory;
  heap := c_heap
|}.
End Adapters.

(** ** Handlers *)

Inductive execution (W A : Type) :=
| Returns (a : A) (st : provider W)
| Dies
| Blocks
| Dangling.
Arguments Returns {W A}.
Arguments Dies {W A}.
Arguments Blocks {W A}.
Arguments Dangling {W A}.

Definition handler (W A : Type) : Type := provider W -> execution W A.

#[export] Instance handler_ret W : MRet (handler W) := fun A a st => Returns a st.
#[export] Instance handler_bind W : MBind (handler W) := fun A B k m st =>
  match m st with
  | Returns a st => k a st
  | Dies => Dies
  | Blocks => Blocks
  | Dangling => Dangling
  end.

Definition die {W A} : handler W A := fun _ => Dies.
Definition block {W A} : handler W A := fun _ => Blocks.

Definition gets {W A} (f : provider W -> A) : handler W A := fun st => Returns (f st) st.
Definition modify {W} (f : provider W -> provider W) : handler W unit :=
  fun st => Returns tt (f st).

(** A call of the platform. *)
Definition ask {W A} (f : W -> W * A) : handler W A := fun st =>
  let '(w, a) := f (pv_world st) in Returns a (st <| pv_world := w |>).

Definition emit {W} (e : event) : handler W unit :=
  modify (fun st => st <| pv_trace := pv_trace st ++ [e] |>).

(** Accesses through a connection pointer. *)
Definition load {W} (p : Z) : handler W connection := fun st =>
  match pv_conns st !! p with Some c => Returns c st | None => Dangling end.
Definition store {W} (p : Z) (c : connection) : handler W unit := fun st =>
  match pv_conns st !! p with
  | Some _ => Returns tt (st <| pv_conns := <[p := c]> (pv_conns st) |>)
  | None => Dangling
  end.
Definition on_conn {W A} (p : Z) (f : connection -> connection * A) : handler W A :=
  c ← load p; let '(c, a) := f c in store p c;; mret a.
Definition set_conn {W} (p : Z) (f : connection -> connection) : handler W unit :=
  on_conn p (fun c => (f c, tt)).

Definition on_session {W} (f : rdma_session -> rdma_session) : handler W unit :=
  modify (fun st => st <| pv_session := f (pv_session st) |>).

Fixpoint for_each {W A} (l : list A) (body : A -> handler W unit) : handler W unit :=
  match l with
  | [] => mret tt
  | a :: l => body a;; for_each l body
  end.

Record completion := {
  wc_wr_id : Z;
  wc_success : bool;
  wc_opcode : Z;
  wc_frame : list Z
}.
Definition IBV_WC_SEND : Z := 0.
Definition IBV_WC_RECV : Z := 128.

Section Handlers.
Context {W : Type} `{Platform W} `{ProtocolBuild} `{Mac}.

(** What the other threads of the daemon do while this one waits. *)
Context (meanwhile : provider W -> provider W).

Definition wait : handler W unit := modify meanwhile.

Definition rdma_disconnect (p : Z) : handler W unit := emit (Disconnecting p).

Definition count_up (field : rdma_session -> Z) `{!Setter field} : handler W unit :=
  on_session (fun s => s <| field ::= fun n => u64 (n + 1) |>).

(** *** Sending and receiving *)

Definition get_reference (p : Z) : handler W Z := on_conn p connection_get_reference.
Definition put_reference (p : Z) : handler W unit := set_conn p connection_put_reference.

Definition post_receives (p : Z) : handler W unit :=
  result ← get_reference p;
  if negb (result =? 0) then mret tt
  else
    status ← ask (ibv_post_recv p);
    if negb (status =? 0) then put_reference p;; rdma_disconnect p
    else emit (Receiving p).

(** The wait for the connection to be established or closed. *)
Definition await_connected (p : Z) : handler W unit :=
  c ← load p;
  if cn_connected c || cn_closing c then mret tt
  else
    wait;;
    c ← load p;
    if cn_connected c || cn_closing c then mret tt else block.

Definition post_encoded_message (p : Z) : handler W Z :=
  result ← get_reference p;
  if negb (result =? 0) then set_conn p clear_sends;; mret (-1)
  else
    await_connected p;;
    c ← load p;
    if cn_closing c then put_reference p;; set_conn p clear_sends;; mret (-1)
    else
      status ← ask (ibv_post_send p (outgoing_frame c));
      if negb (status =? 0) then put_reference p;; set_conn p clear_sends;; mret status
      else emit (Sent p (outgoing_frame c));; mret 0.

Definition submit_encoded_message (p : Z) (frame : list Z) (frame_size : Z)
    (close_connection repost_receive : bool) : handler W Z :=
  if (frame_size =? 0) || (IS_PROTOCOL_MAX_FRAME_SIZE <? frame_size) then mret (-1)
  else
    r ← on_conn p (fun c =>
      let '(c, post_now, result) :=
        queue_encoded_message c frame frame_size close_connection repost_receive in
      (c, (post_now, result)));
    let '(post_now, result) := r in
    if post_now : bool then
      status ← post_encoded_message p;
      mret (if negb (status =? 0) then -1 else result)
    else mret result.

Definition record_protocol_error (code : Z) : handler W unit :=
  count_up se_control_errors_total;;
  if (code =? IS_PROTOCOL_ERROR_AUTHENTICATION) || (code =? IS_PROTOCOL_ERROR_REVOKED)
  then count_up se_authentication_failures_total else mret tt.

(** The frames on the stack start with contents nothing reads. *)
Definition stack_frame : list Z := zeros 4096.

Definition send_protocol_error (p request_id offending_type code : Z) : handler W unit :=
  record_protocol_error code;;
  r ← on_conn p (fun c =>
    let '(s, frame, frame_size, result) :=
      is_provider_session_fail (cn_protocol_session c) request_id offending_type code
        stack_frame IS_PROTOCOL_MAX_FRAME_SIZE in
    (c <| cn_protocol_session := s |>, (frame, frame_size, result)));
  let '(frame, frame_size, result) := r in
  if negb (result =? 0) then rdma_disconnect p
  else
    status ← submit_encoded_message p frame frame_size true false;
    if negb (status =? 0) then rdma_disconnect p else mret tt.

Definition send_message (p : Z) (repost_receive : bool) : handler W unit :=
  encoded ← on_conn p (fun c => encode_control_message c stack_frame);
  match encoded with
  | inl _ =>
      c ← load p;
      send_protocol_error p (cn_active_request_id c) IS_PROTOCOL_MSG_ERROR
        IS_PROTOCOL_ERROR_INTERNAL
  | inr (frame, frame_size) =>
      status ← submit_encoded_message p frame frame_size false repost_receive;
      if negb (status =? 0) then rdma_disconnect p else mret tt
  end.

(** *** Requests *)

(** Calls of the memory manager. *)
Definition with_manager {A} (f : is_memory_manager -> W -> is_memory_manager * W * A) :
    handler W A := fun st =>
  let '(m, w, a) := f (pv_manager st) (pv_world st) in
  Returns a (st <| pv_manager := m |> <| pv_world := w |>).

Definition acquire_chunks (p requested_pool size pd : Z) :
    handler W (is_memory_result * list is_memory_grant) :=
  with_manager (fun m w =>
    let o := is_memory_manager_acquire m w p requested_pool (u32 size) pd MAX_MR_SIZE_GB in
    (out_manager o, out_world o, (out_result o, out_grants o))).

Definition set_conn_state (p : Z) (state : conn_state) : handler W unit :=
  c ← load p;
  on_session (fun s =>
    s <| se_conns_state := set_at (se_conns_state s) (cn_conn_index c) state |>).

(** One turn of the loop of [send_mr]. *)
Definition map_grant (p : Z) (grant : is_memory_grant) : handler W unit :=
  c ← load p;
  let chunk_id := provider_chunk_id grant in
  if (MAX_MR_SIZE_GB <=? chunk_id) || negb (byte_at (cn_sess_chunk_map c) chunk_id =? -1)
  then die
  else
    let m := cn_send_message c in
    store p (c <| cn_sess_chunk_map := set_at (cn_sess_chunk_map c) chunk_id chunk_id |>
               <| cn_send_message :=
                    m <| cm_buf := set_at (cm_buf m) chunk_id
                                     (u64 (mr_addr (grant_registration grant))) |>
                      <| cm_rkey := set_at (cm_rkey m) chunk_id
                                      (mr_rkey (grant_registration grant)) |> |>).

(** [grants] holds exactly [size] grants when the manager answers OK. *)
Definition send_mr (p size : Z) : handler W unit :=
  set_conn p (fun c => c <| cn_send_message := zero_control_message |>);;
  c ← load p;
  pd ← gets pv_pd;
  r ← acquire_chunks p (cn_requested_pool c) size pd;
  let '(result, grants) := r in
  if negb (bool_decide (result = IS_MEMORY_OK)) then
    send_protocol_error p (cn_active_request_id c) IS_PROTOCOL_MSG_CHUNK_REQUEST
      (if bool_decide (result = IS_MEMORY_CLEANUP_FAILED) then IS_PROTOCOL_ERROR_INTERNAL
       else IS_PROTOCOL_ERROR_RESOURCE)
  else
    for_each grants (map_grant p);;
    set_conn p (fun c => c <| cn_mapped_chunk_size := cn_mapped_chunk_size c + size |>);;
    set_conn_state p CONN_MAPPED;;
    set_conn p (fun c =>
      c <| cn_send_message :=
             (cn_send_message c) <| cm_size_gb := size |> <| cm_type := CONTROL_INFO |> |>);;
    send_message p true.

Definition memory_status (own : Z) :
    handler W (is_memory_result * option is_memory_manager_status) :=
  with_manager (fun m w =>
    let '(w, result, status) := is_memory_manager_get_status m w own in
    (m, w, (result, status))).

Definition send_free_mem_size (p : Z) : handler W unit :=
  r ← memory_status p;
  match r with
  | (IS_MEMORY_OK, Some status) =>
      set_conn p (fun c =>
        c <| cn_send_message :=
               zero_control_message
                 <| cm_type := CONTROL_FREE_SIZE |>
                 <| cm_size_gb := to_int (available_opportunistic_chunks status) |>
                 <| cm_committed_size_gb := available_committed_chunks status |>
                 <| cm_status_flags :=
                      if st_healthy status then IS_PROTOCOL_STATUS_HEALTHY else 0 |> |>);;
      send_message p true
  | _ =>
      c ← load p;
      send_protocol_error p (cn_active_request_id c) IS_PROTOCOL_MSG_STATUS_REQUEST
        IS_PROTOCOL_ERROR_INTERNAL
  end.

Definition sem_post_evict (p : Z) : handler W unit :=
  set_conn p (fun c => c <| cn_evict_sem := cn_evict_sem c + 1 |>).
Definition sem_post_stop (p : Z) : handler W unit :=
  set_conn p (fun c => c <| cn_stop_sem := cn_stop_sem c + 1 |>).

(** The first loop of [recv_done]: the chunks released, or that one of them is
    not mapped. *)
Definition released_chunks (c : connection) : option (list Z) :=
  fold_right (fun index rest =>
      if byte_at (cm_rkey (cn_recv_message c)) index =? 0 then rest
      else if negb (byte_at (cn_sess_chunk_map c) index =? index) then None
      else cons index <$> rest)
    (Some []) (Z.of_nat <$> seq 0 128).

(** The chunks leave the connection's map, [session_lock] held. *)
Definition unmap_chunks (p : Z) (released : list Z) : handler W unit :=
  set_conn p (fun c =>
    c <| cn_sess_chunk_map :=
           fold_left (fun map index => set_at map index (-1)) released (cn_sess_chunk_map c) |>
      <| cn_mapped_chunk_size := cn_mapped_chunk_size c - Z.of_nat (length released) |>);;
  c ← load p;
  if cn_mapped_chunk_size c =? 0 then set_conn_state p CONN_CONNECTED else mret tt.

Definition recv_done (p : Z) : handler W unit :=
  c ← load p;
  match released_chunks c with
  | None => rdma_disconnect p;; sem_post_stop p
  | Some released =>
      if negb (Z.of_nat (length released) =? cm_size_gb (cn_recv_message c))
      then rdma_disconnect p;; sem_post_stop p
      else
        result ← with_manager (fun m w =>
          is_memory_manager_release m w p released IS_MEMORY_RELEASE_PRESSURE);
        if negb (bool_decide (result = IS_MEMORY_OK)) then rdma_disconnect p;; sem_post_stop p
        else unmap_chunks p released;; sem_post_stop p
  end.

Definition set_cq_qp_state (p value : Z) : handler W unit :=
  set_conn p (fun c => c <| cn_cq_qp_state := value |>).

Definition handle_authenticated_request (p : Z) : handler W unit :=
  c ← load p;
  let type := cm_type (cn_recv_message c) in
  if type =? CONTROL_QUERY then set_cq_qp_state p CQ_QP_BUSY;; send_free_mem_size p
  else if type =? CONTROL_BIND then
    set_cq_qp_state p CQ_QP_BUSY;;
    set_conn p (fun c => c <| cn_server_state := S_BIND |>);;
    send_mr p (cm_size_gb (cn_recv_message c))
  else if type =? CONTROL_ACTIVITY then sem_post_evict p
  else if type =? CONTROL_RELEASE then
    set_cq_qp_state p CQ_QP_BUSY;; recv_done p;; post_receives p
  else rdma_disconnect p.

(** *** Completions *)

Definition with_registry {A} (f : is_auth_registry -> is_auth_registry * A) : handler W A :=
  fun st => let '(r, a) := f (pv_registry st) in Returns a (st <| pv_registry := r |>).

(** The registrations of a consumer that has just authenticated: whether all
    succeeded. *)
Definition admit_consumer (p : Z) : handler W bool :=
  c ← load p;
  let s := cn_protocol_session c in
  result ← with_registry (fun r =>
    is_auth_registry_subscribe r (ps_consumer_id s) (ps_authorization_version s) p);
  if negb (bool_decide (result = IS_AUTH_OK)) then rdma_disconnect p;; mret false
  else
    limits ← gets (fun st => is_auth_registry_get_limits (pv_registry st) (ps_consumer_id s));
    connected ←
      match limits with
      | inl _ => mret false
      | inr (max_connections, max_opportunistic_chunks, max_committed_chunks) =>
          with_manager (fun m w =>
            let '(m, w, result, _) :=
              is_memory_manager_connect m w (c_string (ps_consumer_id s)) p max_connections
                max_opportunistic_chunks max_committed_chunks in
            (m, w, bool_decide (result = IS_MEMORY_OK)))
      end;
    if negb connected then
      with_registry (fun r => (is_auth_registry_unsubscribe r p, tt));;
      rdma_disconnect p;; mret false
    else
      set_conn p (fun c => c <| cn_auth_subscribed := true |> <| cn_memory_connected := true |>);;
      clock ← ask clock_monotonic;
      started ← on_conn p (start_connection_liveness clock);
      if negb (started =? 0) then rdma_disconnect p;; mret false else mret true.

(** The session has a frame to send. *)
Definition answer_session (p : Z) (response : list Z) (outcome : is_provider_session_outcome) :
    handler W unit :=
  c ← load p;
  let s := cn_protocol_session c in
  (if bool_decide (ps_state s = IS_PROVIDER_SESSION_CLOSED) && negb (ps_last_error_code s =? 0)
   then record_protocol_error (ps_last_error_code s) else mret tt);;
  admitted ←
    (if bool_decide (ps_state s = IS_PROVIDER_SESSION_READY) && negb (cn_auth_subscribed c)
     then admit_consumer p else mret true);
  if negb admitted then mret tt
  else
    status ← submit_encoded_message p response (po_response_size outcome)
               (po_close_after_response outcome) (negb (po_close_after_response outcome));
    if negb (status =? 0) then rdma_disconnect p else mret tt.

(** The session has a request to serve.  The registry's lock is held from the
    authorization to the end, except for a peer's ERROR. *)
Definition serve_request (p : Z) (request : is_protocol_message) : handler W unit :=
  let header := msg_header request in
  let is_error := hdr_type header =? IS_PROTOCOL_MSG_ERROR in
  c ← load p;
  let s := cn_protocol_session c in
  authorization_result ←
    (if is_error then mret IS_AUTH_OK
     else gets (fun st =>
            is_auth_registry_begin_authorized_operation (pv_registry st) (ps_consumer_id s)
              (ps_authorization_version s)));
  if negb (bool_decide (authorization_result = IS_AUTH_OK)) then
    send_protocol_error p (hdr_request_id header) (hdr_type header)
      (if bool_decide (authorization_result = IS_AUTH_REVOKED) then IS_PROTOCOL_ERROR_REVOKED
       else IS_PROTOCOL_ERROR_AUTHENTICATION)
  else
    translate_result ← on_conn p (fun c => translate_request c request);
    if negb (translate_result =? 0) then
      if is_error then rdma_disconnect p
      else send_protocol_error p (hdr_request_id header) (hdr_type header)
             IS_PROTOCOL_ERROR_MALFORMED
    else handle_authenticated_request p.

Definition on_receive (p : Z) (frame : list Z) : handler W unit :=
  now ← ask time_now;
  registry ← gets pv_registry;
  r ← on_conn p (fun c =>
    let '(s, response, outcome, result) :=
      is_provider_session_handle now registry (cn_protocol_session c) frame stack_frame
        IS_PROTOCOL_MAX_FRAME_SIZE zero_outcome in
    (c <| cn_protocol_session := s |>, (response, outcome, result)));
  let '(response, outcome, result) := r in
  if negb (result =? 0) then rdma_disconnect p
  else if po_response_ready outcome then answer_session p response outcome
  else if negb (po_request_ready outcome) then rdma_disconnect p
  else
    clock ← ask clock_monotonic;
    refreshed ← on_conn p (refresh_connection_liveness clock);
    if negb (refreshed =? 0) then rdma_disconnect p
    else serve_request p (po_request outcome).

Definition on_sent (p : Z) : handler W unit :=
  r ← on_conn p (fun c =>
    let '(c, start_next_send, close_connection, repost_receive) := finish_send c in
    (c, (start_next_send, close_connection, repost_receive)));
  let '(start_next_send, close_connection, repost_receive) := r in
  set_cq_qp_state p CQ_QP_IDLE;;
  if close_connection : bool then rdma_disconnect p
  else
    (if repost_receive : bool then post_receives p else mret tt);;
    if start_next_send : bool then
      status ← post_encoded_message p;
      if negb (status =? 0) then rdma_disconnect p else mret tt
    else mret tt.

Definition on_completion (wc : completion) : handler W unit :=
  let p := wc_wr_id wc in
  c ← load p;
  (if cn_closing c then mret tt
   else if negb (wc_success wc) then rdma_disconnect p
   else if wc_opcode wc =? IBV_WC_RECV then on_receive p (wc_frame wc)
   else if wc_opcode wc =? IBV_WC_SEND then on_sent p
   else rdma_disconnect p);;
  put_reference p.

Definition on_connect (p : Z) : handler W unit :=
  set_conn p (fun c => c <| cn_connected := true |>);;
  post_receives p.
End Handlers.
