(* ===== verification/ProviderLifecycle.v ===== *)
(** * The life of a connection and the daemon's threads
      (src/infiniswap_daemon/rdma-common.c)

    Setting a connection up and taking it down, the thread that watches its
    deadlines, the thread that gives memory back to the host, and the snapshot
    the observability server reports. *)
From S2P Require Import Prelude Protocol Text Auth ProviderSession Liveness MemoryManager Observability ProviderConnection ProviderDaemon.

Definition rdma_session_init : rdma_session :=
  {| se_conns := zeros 64; se_conns_state := replicate 64 CONN_IDLE; se_conn_num := 0;
     se_authentication_failures_total := 0; se_deadline_expiries_total := 0;
     se_connections_total := 0; se_disconnections_total := 0; se_control_errors_total := 0 |}.

(** [struct chunk_activity]. *)
Record chunk_activity := {
  ca_activity : Z;
  ca_provider_chunk_id : Z;
  ca_connection : Z
}.

Definition compare_activity (left right : chunk_activity) : Z :=
  if ca_activity left <? ca_activity right then -1
  else if ca_activity right <? ca_activity left then 1 else 0.

Section Lifecycle.
Context {W : Type} `{Platform W} `{ProtocolBuild} `{Mac}.
Context (meanwhile : provider W -> provider W).

(** ** Setting up and taking down *)

(** A connection as [build_connection] leaves it before it is entered in the
    table: [conn_index] is still zero. *)
Definition new_connection (provider_nonce : list Z) (session_id : Z) : connection :=
  {| cn_conn_index := 0; cn_sess_chunk_map := replicate 128 (-1); cn_mapped_chunk_size := 0;
     cn_evict_sem := 0; cn_stop_sem := 0; cn_connected := false;
     cn_send_frame := zeros 4096; cn_pending_send_frame := zeros 4096;
     cn_send_frame_size := 0; cn_pending_send_frame_size := 0;
     cn_recv_message := zero_control_message; cn_send_message := zero_control_message;
     cn_protocol_session :=
       is_provider_session_init IS_PROTOCOL_MINOR_CURRENT IS_PROVIDER_CAPABILITIES
         IS_PROVIDER_REQUIRED_CAPABILITIES provider_nonce session_id;
     cn_consumer_liveness := {| cl_last_activity_monotonic_ms := 0;
                                cl_authenticated_until_unix := 0; cl_failure_deadline_ms := 0 |};
     cn_active_request_id := 0; cn_next_provider_request_id := 1;
     cn_pending_evict_request_id := 0; cn_pending_release_request_id := 0;
     cn_pending_evict_chunks := zeros 128; cn_pending_release_chunks := zeros 128;
     cn_release_chunks := zeros 128; cn_pending_evict_chunk_count := 0;
     cn_pending_release_chunk_count := 0; cn_release_chunk_count := 0;
     cn_requested_logical_start := 0; cn_requested_pool := 0; cn_close_after_send := false;
     cn_repost_after_send := false; cn_pending_send := false;
     cn_pending_close_after_send := false; cn_pending_repost_after_send := false;
     cn_auth_subscribed := false; cn_memory_connected := false; cn_cq_qp_state := CQ_QP_BUSY;
     cn_references := 0; cn_handshake_complete := false; cn_send_inflight := false;
     cn_closing := false; cn_server_state := S_WAIT |}.

(** The connection enters the first idle slot of the table. *)
Definition enter_table (p : Z) : handler W unit :=
  s ← gets pv_session;
  (match list_find (fun state => state = CONN_IDLE) (se_conns_state s) with
   | Some (i, _) =>
       on_session (fun s =>
         s <| se_conns := <[i := p]> (se_conns s) |>
           <| se_conns_state := <[i := CONN_CONNECTED]> (se_conns_state s) |>);;
       set_conn p (fun c => c <| cn_conn_index := Z.of_nat i |>)
   | None => mret tt
   end);;
  on_session (fun s => s <| se_conn_num := se_conn_num s + 1 |>);;
  count_up se_connections_total.

(** [setup_connection] stands for the queue pair, the deadline thread and the
    registration of the frames, any failure of which ends the process. *)
Definition build_connection : handler W Z :=
  s ← gets pv_session;
  if MAX_CLIENT <=? se_conn_num s then mret (-1)
  else
    identity ← ask random_identity;
    match identity with
    | None => die
    | Some (provider_nonce, session_id) =>
        p ← ask calloc_connection;
        if p =? 0 then die
        else
          let session_id := if session_id =? 0 then 1 else session_id in
          modify (fun st =>
            st <| pv_conns := <[p := new_connection provider_nonce session_id]> (pv_conns st) |>);;
          enter_table p;;
          result ← get_reference p;
          if negb (result =? 0) then die
          else
            ready ← ask (setup_connection p);
            if negb ready then die else post_receives p;; mret 0
    end.

Definition prepare_connection_close (p : Z) : handler W unit :=
  prepare ← on_conn p (fun c =>
    if cn_closing c then (c, false) else (c <| cn_closing := true |>, true));
  if negb prepare then mret tt
  else
    sem_post_evict p;; sem_post_stop p;;
    drained ← ask (drain_queue p);
    if negb drained then die else mret tt.

Definition wait_for_connection_references (p remaining : Z) : handler W unit :=
  c ← load p;
  if cn_references c <=? remaining then mret tt
  else
    wait meanwhile;;
    c ← load p;
    if cn_references c <=? remaining then mret tt else block.

Definition reclaim_connection_memory (p : Z) : handler W is_memory_result :=
  c ← load p;
  if negb (cn_memory_connected c) then mret IS_MEMORY_OK
  else
    result ← with_manager (fun m w => is_memory_manager_disconnect m w p);
    if bool_decide (result = IS_MEMORY_OK) || bool_decide (result = IS_MEMORY_NOT_CONNECTED)
    then set_conn p (fun c => c <| cn_memory_connected := false |>);; mret IS_MEMORY_OK
    else mret result.

(** The deadline thread has ended when [references] is back to zero: joining it
    does not wait. *)
Definition destroy_connection (p : Z) : handler W unit :=
  prepare_connection_close p;;
  wait_for_connection_references p 0;;
  c ← load p;
  (if cn_auth_subscribed c then
     with_registry (fun r => (is_auth_registry_unsubscribe r p, tt));;
     set_conn p (fun c => c <| cn_auth_subscribed := false |>)
   else mret tt);;
  result ← reclaim_connection_memory p;
  if negb (bool_decide (result = IS_MEMORY_OK)) then die
  else
    c ← load p;
    on_session (fun s =>
      s <| se_conns := set_at (se_conns s) (cn_conn_index c) 0 |>
        <| se_conns_state := set_at (se_conns_state s) (cn_conn_index c) CONN_IDLE |>
        <| se_conn_num := se_conn_num s - 1 |>);;
    count_up se_disconnections_total;;
    modify (fun st => st <| pv_conns := delete p (pv_conns st) |>).

Definition provider_connection_count : handler W Z :=
  gets (fun st => se_conn_num (pv_session st)).

(** ** The deadline thread *)

(** The wait for the handshake; [fuel] bounds the number of wakeups. *)
Fixpoint await_handshake (p : Z) (deadline : timespec) (fuel : nat) : handler W unit :=
  match fuel with
  | O => block
  | S fuel =>
      c ← load p;
      if cn_closing c || cn_handshake_complete c then mret tt
      else
        wait meanwhile;;
        result ← ask (cond_timedwait deadline);
        if result =? 0 then await_handshake p deadline fuel else mret tt
  end.

(** The watch over an authenticated consumer: whether to disconnect it. *)
Fixpoint watch_liveness (p : Z) (fuel : nat) : handler W bool :=
  match fuel with
  | O => block
  | S fuel =>
      c ← load p;
      if cn_closing c then mret false
      else
        now_unix ← ask time_now;
        if now_unix <? 0 then mret true
        else
          clock ← ask clock_monotonic;
          match monotonic_now clock with
          | None => mret true
          | Some (now, now_ms) =>
              match is_consumer_liveness_check (cn_consumer_liveness c) now_ms now_unix with
              | (IS_CONSUMER_LIVENESS_ACTIVE, Some wait_ms) =>
                  wait meanwhile;;
                  result ← ask (cond_timedwait (add_milliseconds now (u32 wait_ms)));
                  if negb (result =? 0) && negb (result =? ETIMEDOUT)
                  then mret true
                  else watch_liveness p fuel
              | _ => count_up se_deadline_expiries_total;; mret true
              end
          end
  end.

Definition disconnect_silent (p : Z) : handler W unit :=
  rdma_disconnect p;;
  prepare_connection_close p;;
  wait_for_connection_references p 1;;
  result ← reclaim_connection_memory p;
  if negb (bool_decide (result = IS_MEMORY_OK)) then die else mret tt.

Definition monitor_connection_deadlines (p : Z) (fuel : nat) : handler W unit :=
  clock ← ask clock_monotonic;
  disconnect ←
    match monotonic_now clock with
    | None => mret true
    | Some (now, _) =>
        await_handshake p (add_milliseconds now PROVIDER_HANDSHAKE_TIMEOUT_MS) fuel;;
        c ← load p;
        if negb (cn_closing c) && negb (cn_handshake_complete c)
        then count_up se_deadline_expiries_total;; mret true
        else watch_liveness p fuel
    end;
  (if disconnect : bool then disconnect_silent p else mret tt);;
  put_reference p.

(** ** Giving memory back *)

(** The loops that retain the connections of the table that satisfy
    [eligible]. *)
Definition hold_connection (eligible : conn_state -> connection -> bool)
    (held : list Z) (slot : Z * conn_state) : handler W (list Z) :=
  let '(p, state) := slot in
  if p =? 0 then mret held
  else
    c ← load p;
    if negb (eligible state c) then mret held
    else
      result ← get_reference p;
      mret (if negb (result =? 0) then held else held ++ [p]).

Fixpoint hold_each (eligible : conn_state -> connection -> bool) (held : list Z)
    (slots : list (Z * conn_state)) : handler W (list Z) :=
  match slots with
  | [] => mret held
  | slot :: slots => held ← hold_connection eligible held slot; hold_each eligible held slots
  end.

Definition hold_connections (eligible : conn_state -> connection -> bool) :
    handler W (list Z) :=
  s ← gets pv_session;
  hold_each eligible [] (zip (se_conns s) (se_conns_state s)).

Definition disconnect_provider_connections : handler W unit :=
  held ← hold_connections (fun _ _ => true);
  for_each held (fun p => rdma_disconnect p;; put_reference p).

(** [sem_clockwait] returns once the semaphore can be decremented, or times
    out. *)
Definition wait_for_control_response (p : Z) (semaphore : connection -> Z)
    `{!Setter semaphore} : handler W Z :=
  clock ← ask clock_monotonic;
  match clock with
  | None => mret (-1)
  | Some _ =>
      wait meanwhile;;
      r ← on_conn p (fun c =>
        if 0 <? semaphore c then (c <| semaphore := semaphore c - 1 |>, (0, cn_closing c))
        else (c, (-1, cn_closing c)));
      let '(result, closing) := r in
      if negb (result =? 0) || closing then
        (if closing : bool then mret tt
         else count_up se_deadline_expiries_total;; rdma_disconnect p);;
        mret (-1)
      else mret 0
  end.

Definition send_evict (p : Z) : handler W unit :=
  set_conn p evict_message;; send_message meanwhile p false.

Definition send_stop (p n : Z) : handler W Z :=
  if n =? 0 then mret 0
  else
    held ← get_reference p;
    if negb (held =? 0) then mret (-1)
    else
      set_conn p (fun c => stop_message c n);;
      send_message meanwhile p false;;
      result ← wait_for_control_response p cn_stop_sem;
      set_conn p (fun c => c <| cn_release_chunks := zeros 128 |> <| cn_release_chunk_count := 0 |>);;
      put_reference p;;
      mret result.

(** The activities a consumer reported, in the order of its chunks. *)
Definition reported_activities (p : Z) (c : connection) : list chunk_activity :=
  omap (fun index =>
      if byte_at (cm_rkey (cn_recv_message c)) index =? 0 then None
      else Some {| ca_activity := byte_at (cm_buf (cn_recv_message c)) index;
                   ca_provider_chunk_id := index; ca_connection := p |})
    (Z.of_nat <$> seq 0 128).

(** The activities of the held connections, unless one does not answer or the
    array is full. *)
Fixpoint collect_activities (activities : list chunk_activity) (held : list Z) :
    handler W (option (list chunk_activity)) :=
  match held with
  | [] => mret (Some activities)
  | p :: held =>
      result ← wait_for_control_response p cn_evict_sem;
      if negb (result =? 0) then mret None
      else
        c ← load p;
        let activities := activities ++ reported_activities p c in
        if IS_MEMORY_MAX_RUNTIME_CHUNKS <? Z.of_nat (length activities) then mret None
        else post_receives p;; collect_activities activities held
  end.

Definition select_activity (a : chunk_activity) : handler W unit :=
  set_conn (ca_connection a) (fun c =>
    if byte_at (cn_release_chunks c) (ca_provider_chunk_id a) =? 0
    then c <| cn_release_chunks := set_at (cn_release_chunks c) (ca_provider_chunk_id a) 1 |>
           <| cn_release_chunk_count := u16 (cn_release_chunk_count c + 1) |>
    else c).

Fixpoint stop_each (held : list Z) : handler W unit :=
  match held with
  | [] => mret tt
  | p :: held =>
      c ← load p;
      if cn_release_chunk_count c =? 0 then stop_each held
      else
        result ← send_stop p (cn_release_chunk_count c);
        if negb (result =? 0) then mret tt else stop_each held
  end.

Definition evictable (state : conn_state) (c : connection) : bool :=
  bool_decide (state = CONN_MAPPED) &&
  (ps_selected_pool (cn_protocol_session c) =? IS_PROTOCOL_POOL_OPPORTUNISTIC).

(** [qsort] is the C library's: some sorted permutation of the array. *)
Definition evict_mem (qsort : list chunk_activity -> list chunk_activity)
    (requested_chunks : Z) : handler W unit :=
  held ← hold_connections evictable;
  allocated ← (if bool_decide (held = []) then mret false else ask c_heap);
  (if negb allocated then mret tt
   else
     for_each held send_evict;;
     collected ← collect_activities [] held;
     match collected with
     | None => mret tt
     | Some activities =>
         let selected_count := requested_chunks `min` Z.of_nat (length activities) in
         for_each (take (Z.to_nat selected_count) (qsort activities)) select_activity;;
         stop_each held
     end);;
  for_each held put_reference.

(** One turn of the loop of [free_mem]. *)
Definition free_mem_turn (qsort : list chunk_activity -> list chunk_activity) :
    handler W unit :=
  r ← with_manager (fun m w =>
    let '(m, w, result, reconcile) := is_memory_manager_reconcile m w in
    (m, w, (result, assigned_reclaim_needed reconcile)));
  let '(result, needed) := r in
  if bool_decide (result = IS_MEMORY_OK) && negb (needed =? 0)
  then evict_mem qsort needed else mret tt.

(** ** What the daemon reports *)

Definition find_consumer_snapshot (snapshot : is_provider_observability_snapshot)
    (consumer_id : list Z) : is_provider_observability_snapshot * option Z :=
  match find_below (os_consumer_count snapshot) (fun index =>
      str_equal (oc_consumer_id (consumer_at snapshot index)) consumer_id) with
  | Some index => (snapshot, Some index)
  | None =>
      if IS_PROVIDER_OBSERVABILITY_MAX_CONSUMERS <=? os_consumer_count snapshot
      then (snapshot, None)
      else (snapshot <| os_consumer_count := os_consumer_count snapshot + 1 |>,
            Some (os_consumer_count snapshot))
  end.

(** The part of the snapshot that is not about consumers. *)
Definition snapshot_of_status (provider_id : list Z) (status : is_memory_manager_status)
    (s : rdma_session) : is_provider_observability_snapshot :=
  {| os_provider_id := buf_write (zeros 64) 0 provider_id;
     os_healthy := st_healthy status;
     os_host_reserve_chunks := st_host_reserve_chunks status;
     os_max_opportunistic_chunks := st_max_opportunistic_chunks status;
     os_max_committed_chunks := st_max_committed_chunks status;
     os_allocated_opportunistic_chunks := st_allocated_opportunistic_chunks status;
     os_assigned_opportunistic_chunks := st_assigned_opportunistic_chunks status;
     os_allocated_committed_chunks := st_allocated_committed_chunks status;
     os_assigned_committed_chunks := st_assigned_committed_chunks status;
     os_available_opportunistic_chunks := available_opportunistic_chunks status;
     os_available_committed_chunks := available_committed_chunks status;
     os_quarantined_chunks := st_quarantined_chunks status;
     os_active_connections := active_connections status;
     os_admissions_total := st_admissions status;
     os_admission_rejections_total := st_rejections status;
     os_pressure_reclaims_total := st_pressure_reclaims status;
     os_authentication_failures_total := se_authentication_failures_total s;
     os_deadline_expiries_total := se_deadline_expiries_total s;
     os_connections_total := se_connections_total s;
     os_disconnections_total := se_disconnections_total s;
     os_control_errors_total := se_control_errors_total s;
     os_last_rejection := st_last_rejection status;
     os_consumer_count := 0;
     os_consumers := replicate 64 zero_consumer |}.

Definition consumer_state (c : connection) : is_provider_consumer_state :=
  if cn_closing c then IS_PROVIDER_CONSUMER_DEGRADED
  else if bool_decide (ps_state (cn_protocol_session c) = IS_PROVIDER_SESSION_READY) &&
          cn_handshake_complete c
  then IS_PROVIDER_CONSUMER_READY
  else IS_PROVIDER_CONSUMER_CONNECTING.

Definition inflight_requests (c : connection) : Z :=
  (if cn_pending_evict_request_id c =? 0 then 0 else 1) +
  (if cn_pending_release_request_id c =? 0 then 0 else 1).

(** What the first connection of a consumer sets. *)
Definition first_connection (c : connection) (state : is_provider_consumer_state)
    (memory : is_memory_result * option is_memory_manager_status)
    (consumer : is_provider_consumer_snapshot) : is_provider_consumer_snapshot :=
  let session := cn_protocol_session c in
  let consumer :=
    consumer <| oc_consumer_id := strcpy (oc_consumer_id consumer) (ps_consumer_id session) |>
             <| oc_state := state |>
             <| oc_mode := ps_selected_mode session |>
             <| oc_pool := ps_selected_pool session |>
             <| oc_failure_deadline_ms := ps_failure_deadline_ms session |>
             <| oc_last_error_code := ps_last_error_code session |> in
  match memory with
  | (IS_MEMORY_OK, Some status) =>
      consumer
        <| oc_assigned_opportunistic_chunks := consumer_assigned_opportunistic_chunks status |>
        <| oc_assigned_committed_chunks := consumer_assigned_committed_chunks status |>
  | _ => consumer
  end.

(** The body of the loop over the connections held. *)
Definition snapshot_connection (snapshot : is_provider_observability_snapshot) (p : Z) :
    handler W is_provider_observability_snapshot :=
  c ← load p;
  let session := cn_protocol_session c in
  if byte_at (ps_consumer_id session) 0 =? 0 then put_reference p;; mret snapshot
  else
    let state := consumer_state c in
    match find_consumer_snapshot snapshot (ps_consumer_id session) with
    | (snapshot, None) => put_reference p;; mret snapshot
    | (snapshot, Some index) =>
        let consumer := consumer_at snapshot index in
        consumer ←
          (if oc_connection_count consumer =? 0 then
             memory ← memory_status p;
             mret (first_connection c state memory consumer)
           else
             mret (if bool_decide (state = IS_PROVIDER_CONSUMER_READY)
                   then consumer <| oc_state := state |> else consumer));
        let consumer :=
          consumer <| oc_connection_count ::= fun n => u32 (n + 1) |>
                   <| oc_inflight_control_requests ::= fun n => u32 (n + inflight_requests c) |> in
        put_reference p;;
        mret (snapshot <| os_consumers := set_at (os_consumers snapshot) index consumer |>)
    end.

Fixpoint snapshot_connections (snapshot : is_provider_observability_snapshot) (held : list Z) :
    handler W is_provider_observability_snapshot :=
  match held with
  | [] => mret snapshot
  | p :: held => snapshot ← snapshot_connection snapshot p; snapshot_connections snapshot held
  end.

(** None for the result -1. *)
Definition provider_observability_snapshot (provider_id : list Z) :
    handler W (option is_provider_observability_snapshot) :=
  let size := Z.of_nat (length (c_string provider_id)) in
  if (size =? 0) || (IS_PROVIDER_OBSERVABILITY_ID_MAX <? size) then mret None
  else
    r ← memory_status 0;
    match r with
    | (IS_MEMORY_OK, Some status) =>
        s ← gets pv_session;
        held ← hold_connections (fun _ _ => true);
        snapshot ← snapshot_connections (snapshot_of_status (c_string provider_id) status s) held;
        mret (Some snapshot)
    | _ => mret None
    end.
End Lifecycle.
