(* ===== verification/ProviderMain.v ===== *)
(** * The daemon's main program (src/infiniswap_daemon/infiniswap-daemon.c)

    Starting up, the connection manager's events, the reloading of the
    allowlist and shutting down. *)
From S2P Require Import Prelude Protocol Text Auth AuthFile ProviderSession Liveness MemoryManager MemoryConfig Observability ProviderConnection ProviderDaemon ProviderLifecycle.

(** ** Starting up *)

(** [isalnum] in the C locale. *)
Definition is_alnum (c : Z) : bool :=
  is_digit c || ((65 <=? c) && (c <=? 90)) || ((97 <=? c) && (c <=? 122)).

(** [provider_id] is a C string, the zero past its characters included. *)
Definition provider_id_valid (provider_id : list Z) : bool :=
  if byte_at provider_id 0 =? 0 then false
  else
    match for_err (Z.to_nat (IS_PROVIDER_OBSERVABILITY_ID_MAX + 1)) 0 (fun index _ =>
        let character := byte_at provider_id index in
        if character =? 0 then inl true
        else if negb (is_alnum character) && negb (character =? 46) && negb (character =? 95) &&
                negb (character =? 45)
        then inl false
        else inr tt) tt with
    | inl valid => valid
    | inr _ => false
    end.

(** [configured] is the environment's identity; [hostname] the buffer
    gethostname fills, if it succeeds. *)
Definition provider_identity (configured hostname : option (list Z)) : option (list Z) :=
  match configured with
  | Some id =>
      if IS_PROVIDER_OBSERVABILITY_ID_MAX + 1 <=? Z.of_nat (length (c_string id)) then None
      else Some (c_string id)
  | None =>
      match hostname with
      | Some name =>
          if existsb (Z.eqb 0) (take (Z.to_nat (IS_PROVIDER_OBSERVABILITY_ID_MAX + 1)) name)
          then Some (c_string name) else None
      | None => None
      end
  end.

Definition observability_port (configured : option (list Z)) : option Z :=
  match configured with
  | None => Some 9401
  | Some value =>
      match strtoull value with
      | Some (port, []) => if 65535 <? port then None else Some port
      | _ => None
      end
  end.

(** What the daemon is started with: the two files it reads, the environment
    and the outcomes of what it does not model. *)
Record startup := {
  su_config : option config_file;
  su_lock_status : Z;
  su_provider_id : option (list Z);
  su_hostname : option (list Z);
  su_port : option (list Z);
  su_allowlist : auth_file;
  su_clock : nat -> Z;
  su_server_starts : bool
}.

Section Main.
Context {W : Type} `{Platform W} `{ProtocolBuild} `{Mac}.

(** The daemon as it starts: no connection, an empty table. *)
Definition provider_start (m : is_memory_manager) (w : W) (registry : is_auth_registry) (pd : Z) :
    provider W :=
  {| pv_session := rdma_session_init; pv_conns := ∅; pv_registry := registry; pv_manager := m;
     pv_pd := pd; pv_world := w; pv_trace := [] |}.

(** The exit status, once the memory manager is given up. *)
Definition abandon (m : is_memory_manager) (w : W) : W * (Z + provider W) :=
  let '(_, w, _) := is_memory_manager_destroy m w in (w, inl 1).

(** [main] up to the event loop; [pd] is the protection domain. *)
Definition main_start (s : startup) (pd : Z) (w : W) : W * (Z + provider W) :=
  match is_memory_manager_config_load (su_config s) with
  | inl _ => (w, inl 1)
  | inr config =>
      match is_memory_manager_create config (su_lock_status s) w with
      | (w, None) => (w, inl 1)
      | (w, Some m) =>
          match provider_identity (su_provider_id s) (su_hostname s) with
          | None => abandon m w
          | Some provider_id =>
              if negb (provider_id_valid provider_id) then abandon m w
              else
                match observability_port (su_port s) with
                | None => abandon m w
                | Some port =>
                    match is_auth_registry_load_file (su_clock s) is_auth_registry_init
                            (su_allowlist s) with
                    | (registry, IS_AUTH_OK, _) =>
                        if negb (port =? 0) && negb (su_server_starts s) then abandon m w
                        else (w, inr (provider_start m w registry pd))
                    | _ => abandon m w
                    end
                end
          end
      end
  end.

(** ** Reloading the allowlist *)

(** The callback of a subscription. *)
Definition disconnect_revoked_consumer (p : Z) : handler W unit :=
  load p;; rdma_disconnect p.

(** One turn of the loop: whether the reload completed. *)
Definition reload_allowlist (clock : nat -> Z) (file : auth_file) : handler W bool :=
  r ← with_registry (fun r =>
    let '(r, result, notified) := is_auth_registry_load_file clock r file in
    (r, (result, notified)));
  let '(result, notified) := r in
  for_each notified disconnect_revoked_consumer;;
  mret (bool_decide (result = IS_AUTH_OK)).

(** ** Events of the connection manager *)

Inductive cm_event :=
| RDMA_CM_EVENT_CONNECT_REQUEST
| RDMA_CM_EVENT_ESTABLISHED (context : Z)
| RDMA_CM_EVENT_DISCONNECTED (context : Z)
| RDMA_CM_EVENT_OTHER.

Section Events.
Context (meanwhile : provider W -> provider W).

Definition on_connect_request (running : bool) : handler W Z :=
  if negb running then mret 0
  else
    result ← build_connection;
    if negb (result =? 0) then mret 0
    else
      accepted ← ask rdma_accept;
      if negb (accepted =? 0) then die else mret 0.

Definition on_connection (p : Z) : handler W Z := on_connect p;; mret 0.

Definition on_disconnect (p : Z) : handler W Z := destroy_connection meanwhile p;; mret 0.

Definition on_event (running : bool) (event : cm_event) : handler W Z :=
  match event with
  | RDMA_CM_EVENT_CONNECT_REQUEST => on_connect_request running
  | RDMA_CM_EVENT_ESTABLISHED p => on_connection p
  | RDMA_CM_EVENT_DISCONNECTED p => on_disconnect p
  | RDMA_CM_EVENT_OTHER => die
  end.

(** ** The event loop and shutting down *)

(** [rdma_get_cm_event]: the other threads run meanwhile; [event] is what the
    network reports in the state they leave, none if the call fails. *)
Definition rdma_get_cm_event (event : provider W -> option cm_event) : handler W (option cm_event) :=
  wait meanwhile;; gets event.

(** The loop reads [running] before each event.  It waits for ever after the
    inputs given. *)
Fixpoint event_loop (inputs : list (bool * (provider W -> option cm_event))) : handler W unit :=
  match inputs with
  | [] => block
  | (running, event) :: inputs =>
      if negb running then mret tt
      else
        e ← rdma_get_cm_event event;
        match e with
        | None => mret tt
        | Some e =>
            r ← on_event running e;
            if negb (r =? 0) then mret tt else event_loop inputs
        end
  end.

(** The loop that takes the last connections down. *)
Fixpoint drain_loop (inputs : list (provider W -> option cm_event)) : handler W unit :=
  count ← provider_connection_count;
  if count =? 0 then mret tt
  else
    match inputs with
    | [] => block
    | event :: inputs =>
        e ← rdma_get_cm_event event;
        match e with
        | None => mret tt
        | Some e =>
            on_event false e;;
            disconnect_provider_connections;;
            drain_loop inputs
        end
    end.

(** The end of [main]: the exit status.  [orderly] tells whether a signal asked
    for it.  The other threads run until they are joined. *)
Definition main_end (orderly : bool) (inputs : list (provider W -> option cm_event)) : handler W Z :=
  disconnect_provider_connections;;
  drain_loop inputs;;
  wait meanwhile;;
  count ← provider_connection_count;
  if negb (count =? 0) then mret 1
  else
    result ← with_manager (fun m w =>
      let '(m', w, result) := is_memory_manager_destroy m w in (default m m', w, result));
    if negb (bool_decide (result = IS_MEMORY_OK)) then mret 1
    else mret (if orderly then 0 else 1).

(** [main] from the event loop on. *)
Definition main_run (inputs : list (bool * (provider W -> option cm_event))) (orderly : bool)
    (drained : list (provider W -> option cm_event)) : handler W Z :=
  event_loop inputs;; main_end orderly drained.
End Events.
End Main.
