(* ===== verification/ProviderFrames.v ===== *)
(** * The frames of a provider's connection

    Which chunks the frames built by [encode_control_message] name, and which
    answers [translate_request] takes for them. *)
From S2P Require Import Prelude Protocol ProtocolWire ProtocolRoundtrip Text Auth ProviderSession Liveness ProviderConnection.

(** ** Chunks marked in an array *)

Definition indices (n : nat) : list Z := Z.of_nat <$> seq 0 n.

(** The chunks below [n] that satisfy a condition, in order. *)
Definition chunks_below (n : nat) (p : Z -> bool) : list Z := filter (fun i => p i = true) (indices n).

Definition marked (marks : list Z) : list Z :=
  chunks_below 128 (fun i => negb (byte_at marks i =? 0)).

Lemma indices_S n : indices (S n) = indices n ++ [Z.of_nat n].
Proof. unfold indices. rewrite seq_S, fmap_app. done. Qed.

Lemma elem_of_indices n i : i ∈ indices n <-> 0 <= i < Z.of_nat n.
Proof.
  unfold indices. rewrite list_elem_of_fmap. setoid_rewrite elem_of_seq. split.
  - intros (k & -> & Hk). lia.
  - intros Hi. exists (Z.to_nat i). lia.
Qed.

Lemma indices_NoDup n : NoDup (indices n).
Proof. apply NoDup_fmap_2; [typeclasses eauto|]. apply NoDup_seq. Qed.

Lemma elem_of_chunks_below n p i : i ∈ chunks_below n p <-> 0 <= i < Z.of_nat n /\ p i = true.
Proof. unfold chunks_below. rewrite list_elem_of_filter, elem_of_indices. tauto. Qed.

Lemma chunks_below_NoDup n p : NoDup (chunks_below n p).
Proof. apply list.NoDup_filter, indices_NoDup. Qed.

Lemma chunks_below_S n p :
  chunks_below (S n) p = chunks_below n p ++ (if p (Z.of_nat n) then [Z.of_nat n] else []).
Proof.
  unfold chunks_below. rewrite indices_S, list.filter_app. f_equal.
  destruct (p (Z.of_nat n)) eqn:E.
  - by rewrite filter_cons_True.
  - by rewrite filter_cons_False by (by rewrite E).
Qed.

Lemma length_chunks_below n p : (length (chunks_below n p) <= n)%nat.
Proof.
  etrans; [apply length_filter|]. unfold indices. by rewrite length_fmap, length_seq.
Qed.

Lemma chunks_below_ext n p q :
  (forall i, 0 <= i < Z.of_nat n -> p i = q i) -> chunks_below n p = chunks_below n q.
Proof.
  induction n as [|n IH]; intros Hpq; [done|].
  rewrite !chunks_below_S, Hpq, IH by (intros; try apply Hpq; lia). done.
Qed.

#[export] Hint Resolve chunks_below_NoDup : core.

(** ** The listing loop *)

(** The array of the first [n] marks. *)
Definition marks_below (n : nat) (p : Z -> bool) : list Z :=
  (fun i => if (i <? Z.of_nat n) && p i then 1 else 0) <$> indices 128.

Lemma byte_at_indices (f : Z -> Z) i n :
  0 <= i < Z.of_nat n -> byte_at (f <$> indices n) i = f i.
Proof.
  intros Hi. unfold byte_at, indices. rewrite <- list_fmap_compose.
  rewrite (nth_lookup_Some _ _ 0 (f i)); [done|].
  rewrite list_lookup_fmap, lookup_seq_lt by lia. cbn. f_equal. f_equal. lia.
Qed.

Lemma byte_at_marks_below n p i :
  0 <= i < 128 -> byte_at (marks_below n p) i = if (i <? Z.of_nat n) && p i then 1 else 0.
Proof. intros Hi. unfold marks_below. by rewrite byte_at_indices. Qed.

Lemma ltb_S_ne (k n : nat) :
  k <> n -> (Z.of_nat k <? Z.of_nat (S n)) = (Z.of_nat k <? Z.of_nat n).
Proof. intros Hk. apply eq_true_iff_eq. rewrite !Z.ltb_lt. lia. Qed.

Lemma marks_below_S n p :
  (n < 128)%nat ->
  marks_below (S n) p =
    if p (Z.of_nat n) then set_at (marks_below n p) (Z.of_nat n) 1 else marks_below n p.
Proof.
  intros Hn. apply list_eq. intros k.
  assert (Hl : forall m, length (marks_below m p) = 128%nat) by (intros; done).
  destruct (decide (k < 128)%nat) as [Hk|Hk].
  2: { rewrite lookup_ge_None_2 by (rewrite Hl; lia).
       destruct (p _); rewrite lookup_ge_None_2; rewrite ?length_set_at, ?Hl; done || lia. }
  assert (Hx : forall m, marks_below m p !! k =
    Some (if (Z.of_nat k <? Z.of_nat m) && p (Z.of_nat k) then 1 else 0)).
  { intros m. unfold marks_below, indices. rewrite !list_lookup_fmap, lookup_seq_lt by done. done. }
  rewrite Hx. destruct (p (Z.of_nat n)) eqn:Ep; [rewrite lookup_set_at|]; rewrite ?Hx.
  2: rewrite Hl; lia.
  - rewrite Nat2Z.id. destruct (decide (k = n)) as [->|].
    + rewrite Ep. by rewrite (proj2 (Z.ltb_lt _ _)) by lia.
    + by rewrite ltb_S_ne.
  - destruct (decide (k = n)) as [->|].
    + rewrite Ep. by rewrite !andb_false_r.
    + by rewrite ltb_S_ne.
Qed.

Lemma set_at_pad (l : list Z) n x :
  (length l < n)%nat ->
  set_at (l ++ zeros (n - length l)) (Z.of_nat (length l)) x =
    (l ++ [x]) ++ zeros (n - length (l ++ [x])).
Proof.
  intros Hn. unfold set_at. rewrite Nat2Z.id, insert_app_r_alt, Nat.sub_diag by lia.
  rewrite length_app. cbn [length].
  replace (n - length l)%nat with (S (n - (length l + 1))) by lia.
  cbn. by rewrite <- app_assoc.
Qed.

(** What the listing loop leaves: the chunks in order, then zeros, and their
    marks. *)
Lemma list_chunks_spec listed :
  list_chunks listed =
    inr (Z.of_nat (length (chunks_below 128 listed)),
         chunks_below 128 listed ++ zeros (128 - length (chunks_below 128 listed)),
         marks_below 128 listed).
Proof.
  set (f := fun j : Z =>
    let l := chunks_below (Z.to_nat j) listed in
    (Z.of_nat (length l), l ++ zeros (128 - length l), marks_below (Z.to_nat j) listed)).
  change (inr _) with (@inr (Z * list Z * list Z) _ (f 128)). unfold list_chunks.
  change (0, zeros 128, zeros 128) with (f 0). unfold MAX_MR_SIZE_GB. apply for_err_run; [lia|].
  intros j Hj. unfold f at 1. cbv beta zeta.
  assert (E : f (j + 1) = let l := chunks_below (S (Z.to_nat j)) listed in
    (Z.of_nat (length l), l ++ zeros (128 - length l), marks_below (S (Z.to_nat j)) listed)).
  { unfold f. by replace (Z.to_nat (j + 1)) with (S (Z.to_nat j)) by lia. }
  rewrite E. cbv zeta. rewrite marks_below_S, chunks_below_S, Z2Nat.id by lia.
  pose proof (length_chunks_below (Z.to_nat j) listed) as Hl.
  destruct (listed j); cbn [negb]; [|by rewrite app_nil_r].
  unfold IS_PROTOCOL_MAX_CHUNKS_PER_FRAME.
  replace (_ =? 128) with false by lia. rewrite set_at_pad by lia.
  do 3 f_equal. rewrite length_app. cbn [length]. lia.
Qed.

Lemma marked_marks_below p : marked (marks_below 128 p) = chunks_below 128 p.
Proof.
  unfold marked. apply chunks_below_ext. intros i Hi. rewrite byte_at_marks_below by lia.
  rewrite (proj2 (Z.ltb_lt i _)) by lia. cbn [andb]. by destruct (p i).
Qed.

(** ** The answer to a listing *)

(** The state of the comparison after the first chunks of the answer. *)
Definition seen_exactly (l seen : list Z) : Prop :=
  length seen = 128%nat /\ NoDup l /\
  forall i, 0 <= i < 128 -> byte_at seen i <> 0 <-> i ∈ l.

Lemma byte_at_set_at l i x j :
  0 <= i < Z.of_nat (length l) -> 0 <= j ->
  byte_at (set_at l i x) j = if decide (i = j) then x else byte_at l j.
Proof.
  intros Hi Hj. unfold byte_at, set_at. destruct (decide (i = j)) as [->|].
  - apply nth_lookup_Some, list_lookup_insert_eq. lia.
  - rewrite !nth_lookup, list_lookup_insert_ne by lia. done.
Qed.

Lemma byte_at_zeros n i : byte_at (zeros n) i = 0.
Proof.
  unfold byte_at, zeros. rewrite nth_lookup.
  destruct (replicate n 0 !! Z.to_nat i) as [x|] eqn:E; [|done].
  by apply lookup_replicate in E as [-> _].
Qed.

Lemma seen_exactly_snoc l seen i :
  0 <= i < 128 -> i ∉ l -> seen_exactly l seen -> seen_exactly (l ++ [i]) (set_at seen i 1).
Proof.
  intros Hi Hl (H1 & H2 & H3). unfold seen_exactly. rewrite length_set_at. split_and!; [done| |].
  - apply list.NoDup_app. split_and!; [done| |apply NoDup_singleton].
    intros j Hj ->%list_elem_of_singleton. done.
  - intros j Hj. rewrite byte_at_set_at, elem_of_app, list_elem_of_singleton by (rewrite ?H1; lia).
    destruct (decide (i = j)) as [->|]; [split; [by right|done]|].
    rewrite H3 by done. naive_solver.
Qed.

(** One turn of the comparison. *)
Definition compare_turn (marks response : list Z) (index : Z) (seen : list Z) : unit + list Z :=
  let chunk := byte_at response index in
  if (MAX_MR_SIZE_GB <=? chunk) || (byte_at marks chunk =? 0) || negb (byte_at seen chunk =? 0)
  then inl tt else inr (set_at seen chunk 1).

Lemma elem_of_marked marks i : i ∈ marked marks <-> 0 <= i < 128 /\ byte_at marks i <> 0.
Proof.
  unfold marked. rewrite elem_of_chunks_below, negb_true_iff, Z.eqb_neq. done.
Qed.

Lemma compare_turn_spec marks l x rest seen :
  0 <= x -> seen_exactly l seen ->
  compare_turn marks (l ++ x :: rest) (Z.of_nat (length l)) seen =
    if decide (x ∈ marked marks /\ x ∉ l) then inr (set_at seen x 1) else inl tt.
Proof.
  intros Hx (_ & _ & Hs). unfold compare_turn, MAX_MR_SIZE_GB.
  replace (byte_at (l ++ x :: rest) (Z.of_nat (length l))) with x.
  2: { unfold byte_at. by rewrite Nat2Z.id, nth_middle. }
  destruct (Z.leb_spec 128 x) as [Hle|Hlt]; cbn [orb].
  { rewrite decide_False; [done|]. rewrite elem_of_marked. lia. }
  specialize (Hs x (conj Hx Hlt)). destruct (Z.eqb_spec (byte_at marks x) 0) as [E|E]; cbn [orb].
  { rewrite decide_False; [done|]. rewrite elem_of_marked. naive_solver. }
  destruct (Z.eqb_spec (byte_at seen x) 0) as [E2|E2]; cbn [negb].
  - rewrite decide_True; [done|]. rewrite elem_of_marked. naive_solver.
  - rewrite decide_False; [done|]. naive_solver.
Qed.

(** The comparison gets through an answer of distinct expected chunks, and
    through no other. *)
Lemma comparison_runs marks rest more l seen :
  Forall is_u32 (l ++ rest) -> seen_exactly l seen ->
  (exists seen', for_err (length rest) (Z.of_nat (length l))
     (compare_turn marks (l ++ rest ++ more)) seen = inr seen') <->
  NoDup (l ++ rest) /\ forall i, i ∈ rest -> i ∈ marked marks.
Proof.
  revert l seen. induction rest as [|x rest IH]; intros l seen Hu Hs; cbn [length for_err].
  { rewrite app_nil_r. split; [|by eauto]. intros _. split; [apply Hs|]. intros i. by rewrite elem_of_nil. }
  assert (Hx : 0 <= x) by (apply list.Forall_app in Hu as [_ Hu]; apply Forall_cons_1 in Hu as [[? _] _]; lia).
  cbn [app]. rewrite compare_turn_spec by done. destruct (decide _) as [[H1 H2]|Hn].
  - specialize (IH (l ++ [x]) (set_at seen x 1)). rewrite <- !app_assoc in IH. cbn [app] in IH.
    rewrite length_app in IH. cbn [length] in IH. rewrite Nat2Z.inj_add in IH.
    pose proof (proj1 (elem_of_marked _ _) H1) as [Hr _]. rewrite IH; [|done|by apply seen_exactly_snoc].
    split; intros [? Hin]; (split; [done|]); intros i Hi.
    + apply elem_of_cons in Hi as [->|Hi]; [done|by apply Hin].
    + apply Hin. by constructor.
  - split; [by intros [? ?]|]. intros [Hd Hin]. exfalso. apply Hn. split; [apply Hin; by constructor|].
    apply list.NoDup_app in Hd as (_ & Hd & _). intros Hl. apply (Hd x Hl). by constructor.
Qed.

Lemma seen_none : seen_exactly [] (zeros 128).
Proof.
  split_and!; [done|constructor|]. intros i Hi. rewrite byte_at_zeros, elem_of_nil. done.
Qed.

Lemma NoDup_subset_same_length {A} `{EqDecision A} (l k : list A) :
  NoDup l -> (forall x, x ∈ l -> x ∈ k) -> length l = length k -> l ≡ₚ k.
Proof.
  intros Hl Hs Hlen. apply submseteq_length_Permutation; [|lia].
  by apply NoDup_submseteq.
Qed.

(** The answer is accepted exactly when it lists the expected chunks, in any
    order. *)
Lemma set_matches_iff marks response count :
  0 <= count <= Z.of_nat (length response) -> Forall is_u32 (take (Z.to_nat count) response) ->
  control_chunk_set_matches marks (Z.of_nat (length (marked marks))) response count = true <->
  take (Z.to_nat count) response ≡ₚ marked marks.
Proof.
  intros Hc Hu. unfold control_chunk_set_matches.
  assert (Hlen : length (take (Z.to_nat count) response) = Z.to_nat count) by (rewrite length_take; lia).
  destruct (Z.eqb_spec count (Z.of_nat (length (marked marks)))) as [E|E]; cbn [negb].
  2: { split; [done|]. intros Hp%Permutation_length. lia. }
  pose proof (comparison_runs marks (take (Z.to_nat count) response)
    (drop (Z.to_nat count) response) [] (zeros 128) Hu seen_none) as Hr.
  cbn [app length] in Hr. rewrite Hlen, take_drop in Hr. unfold compare_turn in Hr.
  destruct (for_err _ _ _ _) as [e|seen]; split; try done.
  - intros Hp. exfalso. destruct (proj2 Hr) as [? ?]; [|done]. split.
    + rewrite Hp. apply chunks_below_NoDup.
    + intros i. by rewrite Hp.
  - intros _. destruct (proj1 Hr) as [Hd Hs]; [by eauto|].
    apply NoDup_subset_same_length; [done|done|lia].
Qed.

(** ** Recording an answer *)

(** [cm_rkey] and [cm_buf] after the chunks of an answer are recorded. *)
Fixpoint record_chunks (record : bool) (entries : list (Z * Z)) (m : control_message) :
    control_message :=
  match entries with
  | [] => m
  | (chunk, activity) :: entries =>
      let m := m <| cm_rkey := set_at (cm_rkey m) chunk 1 |> in
      record_chunks record entries
        (if record then m <| cm_buf := set_at (cm_buf m) chunk activity |> else m)
  end.

(** The chunks of an answer that can be taken: asked for and mapped. *)
Definition takeable (pending map : list Z) (chunk : Z) : Prop :=
  chunk ∈ marked pending /\ ~ (byte_at map chunk < 0).

Lemma receive_chunk_ok pending chunk activity record c :
  takeable pending (cn_sess_chunk_map c) chunk ->
  receive_chunk pending chunk activity record c =
    inr (c <| cn_recv_message := record_chunks record [(chunk, activity)] (cn_recv_message c) |>).
Proof.
  intros [Hm Hp]. apply elem_of_marked in Hm as [Hr Hm]. unfold receive_chunk, MAX_MR_SIZE_GB.
  replace (128 <=? chunk) with false by lia. rewrite (proj2 (Z.eqb_neq _ _) Hm).
  replace (_ <? 0) with false by lia. done.
Qed.

Lemma receive_chunk_inv pending chunk activity record c c' :
  0 <= chunk ->
  receive_chunk pending chunk activity record c = inr c' ->
  takeable pending (cn_sess_chunk_map c) chunk.
Proof.
  unfold receive_chunk, takeable, MAX_MR_SIZE_GB. rewrite elem_of_marked.
  destruct (Z.leb_spec 128 chunk), (Z.eqb_spec (byte_at pending chunk) 0),
    (Z.ltb_spec (byte_at (cn_sess_chunk_map c) chunk) 0); cbn [orb]; try done. intros. lia.
Qed.

(** The loop over an answer whose chunks can all be taken. *)
Lemma receive_all_run pending record entries c (pend : connection -> list Z) (id act : Z -> Z) :
  (forall m, pend (c <| cn_recv_message := m |>) = pending) ->
  (forall i e, entries !! i = Some e -> id (Z.of_nat i) = e.1 /\ act (Z.of_nat i) = e.2) ->
  (forall e, e ∈ entries -> takeable pending (cn_sess_chunk_map c) e.1) ->
  for_err (length entries) 0 (fun index c =>
    receive_chunk (pend c) (id index) (act index) record c) c =
  inr (c <| cn_recv_message := record_chunks record entries (cn_recv_message c) |>).
Proof.
  intros Hpend Hent Htake. rewrite <- (Nat2Z.id (length entries)).
  set (f := fun j : Z => c <| cn_recv_message :=
    record_chunks record (take (Z.to_nat j) entries) (cn_recv_message c) |>).
  transitivity (@inr connection _ (f (Z.of_nat (length entries)))).
  2: { unfold f. by rewrite Nat2Z.id, firstn_all. }
  replace c with (f 0) at 1 by (by destruct c). apply for_err_run; [lia|]. intros j Hj.
  destruct (lookup_lt_is_Some_2 entries (Z.to_nat j)) as [e He]; [lia|].
  destruct (Hent _ _ He) as [E1 E2]. rewrite Z2Nat.id in E1, E2 by lia.
  unfold f at 1 2. rewrite Hpend, E1, E2, receive_chunk_ok.
  2: { apply Htake. by eapply list_elem_of_lookup_2. }
  unfold f. replace (Z.to_nat (j + 1)) with (S (Z.to_nat j)) by lia.
  rewrite (take_S_r _ _ _ He). f_equal.
  assert (Happ : forall l m, record_chunks record (l ++ [e]) m =
    record_chunks record [e] (record_chunks record l m)).
  { intros l. induction l as [|[a b] l IH]; intros m; [done|]. cbn. apply IH. }
  rewrite Happ. by destruct e.
Qed.

Lemma record_chunks_lengths record entries m :
  length (cm_rkey (record_chunks record entries m)) = length (cm_rkey m) /\
  length (cm_buf (record_chunks record entries m)) = length (cm_buf m) /\
  cm_size_gb (record_chunks record entries m) = cm_size_gb m /\
  cm_type (record_chunks record entries m) = cm_type m.
Proof.
  revert m. induction entries as [|[a b] l IH]; intros m; [done|]. cbn [record_chunks].
  match goal with |- context [record_chunks _ _ ?x] => destruct (IH x) as (E1 & E2 & E3 & E4) end.
  rewrite E1, E2, E3, E4. destruct record; cbn; by rewrite ?length_set_at.
Qed.

Lemma record_chunks_rkey record entries m i :
  (forall e, e ∈ entries -> 0 <= e.1 < 128) -> length (cm_rkey m) = 128%nat -> 0 <= i < 128 ->
  byte_at (cm_rkey (record_chunks record entries m)) i <> 0 <->
    i ∈ entries.*1 \/ byte_at (cm_rkey m) i <> 0.
Proof.
  revert m. induction entries as [|[a b] l IH]; intros m Hr Hl Hi.
  { cbn. rewrite elem_of_nil. naive_solver. }
  cbn [record_chunks fmap list_fmap fst]. rewrite elem_of_cons.
  assert (Ha : 0 <= a < 128) by (apply (Hr (a, b)); by constructor).
  rewrite IH; [|intros e He; apply Hr; by constructor|by destruct record; cbn; rewrite length_set_at|done].
  destruct record; cbn -[byte_at set_at]; rewrite byte_at_set_at by lia; destruct (decide (a = i)); naive_solver.
Qed.

Lemma record_chunks_buf entries m i a :
  NoDup entries.*1 -> (forall e, e ∈ entries -> 0 <= e.1 < 128) -> length (cm_buf m) = 128%nat ->
  (i, a) ∈ entries -> byte_at (cm_buf (record_chunks true entries m)) i = a.
Proof.
  assert (Hkeep : forall l m, (forall e, e ∈ l -> 0 <= e.1 < 128) -> length (cm_buf m) = 128%nat ->
    0 <= i -> i ∉ l.*1 -> byte_at (cm_buf (record_chunks true l m)) i = byte_at (cm_buf m) i).
  { clear. intros l. induction l as [|[x y] l IH]; intros m Hr Hl Hi Hn; [done|]. cbn [record_chunks].
    cbn in Hn. rewrite elem_of_cons in Hn. assert (Hx : 0 <= x < 128) by (apply (Hr (x, y)); by constructor).
    rewrite IH; [|intros e He; apply Hr; by constructor|by cbn; rewrite length_set_at|done|naive_solver].
    cbn -[byte_at set_at]. rewrite byte_at_set_at by lia. rewrite decide_False; [done|]. naive_solver. }
  revert m. induction entries as [|[x y] l IH]; intros m Hd Hr Hl Hin; [by apply elem_of_nil in Hin|].
  cbn in Hd. apply list.NoDup_cons in Hd as [Hx Hd]. cbn [record_chunks].
  assert (Hxr : 0 <= x < 128) by (apply (Hr (x, y)); by constructor).
  assert (Hr' : forall e, e ∈ l -> 0 <= e.1 < 128) by (intros e He; apply Hr; by constructor).
  apply elem_of_cons in Hin as [[= -> ->]|Hin]; [|by apply IH; [..|cbn; rewrite length_set_at|]].
  rewrite Hkeep; [|done|by cbn; rewrite length_set_at|lia|done].
  cbn -[byte_at set_at]. rewrite byte_at_set_at by lia. by rewrite decide_True.
Qed.
