(* ===== verification/ProviderExchange.v ===== *)
(** * The eviction dialogue

    A connection that can speak to its consumer builds EVICT and RELEASE frames
    that decode to the chunks it means, and takes exactly the answers that
    report on those chunks. *)
From S2P Require Import Prelude Protocol ProtocolWire ProtocolRoundtrip Text Auth ProviderSession Liveness ProviderConnection ProviderFrames.

(** ** Frames that list chunks *)

(** What the requests of the provider need of the session. *)
Record speaking `{ProtocolBuild} (c : connection) : Prop := {
  sp_minor : is_minor_valid (ps_negotiated_minor (cn_protocol_session c)) = true;
  sp_minor_width : is_u16 (ps_negotiated_minor (cn_protocol_session c));
  sp_session : 0 < ps_session_id (cn_protocol_session c) < 2 ^ 64;
  sp_capabilities : is_u64 (ps_negotiated_capabilities (cn_protocol_session c));
  sp_required : is_u64 (ps_required_capabilities (cn_protocol_session c));
  sp_known : andnot64 (ps_required_capabilities (cn_protocol_session c)) IS_PROTOCOL_CAP_KNOWN = 0;
  sp_agreed : andnot64 (ps_required_capabilities (cn_protocol_session c))
                (ps_negotiated_capabilities (cn_protocol_session c)) = 0;
  sp_next : 0 < cn_next_provider_request_id c < 2 ^ 64
}.

Section Exchange.
Context `{ProtocolBuild}.

(** The header of a request of the provider. *)
Definition request_header (c : connection) (type : Z) : is_protocol_header :=
  {| hdr_major := IS_PROTOCOL_MAJOR;
     hdr_minor := ps_negotiated_minor (cn_protocol_session c);
     hdr_type := type; hdr_flags := 0;
     hdr_request_id := cn_next_provider_request_id c;
     hdr_session_id := ps_session_id (cn_protocol_session c);
     hdr_capabilities := ps_negotiated_capabilities (cn_protocol_session c);
     hdr_required_capabilities := ps_required_capabilities (cn_protocol_session c) |}.

Lemma request_header_valid c type :
  speaking c -> type = IS_PROTOCOL_MSG_EVICT \/ type = IS_PROTOCOL_MSG_RELEASE ->
  is_validate_header (request_header c type) = inr tt /\ wf_header (request_header c type).
Proof.
  intros [] Ht. split.
  - unfold is_validate_header, request_header. cbn [hdr_major hdr_minor hdr_type hdr_flags
      hdr_request_id hdr_session_id hdr_capabilities hdr_required_capabilities].
    rewrite sp_minor0, sp_known0, sp_agreed0.
    replace (cn_next_provider_request_id c =? 0) with false by lia.
    replace (ps_session_id (cn_protocol_session c) =? 0) with false by lia.
    by destruct Ht as [-> | ->].
  - unfold wf_header, request_header. cbn. unfold in_u in *.
    destruct Ht as [-> | ->]; unfold IS_PROTOCOL_MAJOR, IS_PROTOCOL_MSG_EVICT, IS_PROTOCOL_MSG_RELEASE;
      split_and!; pow_lia.
Qed.

(** The payload that lists chunks, as the listing loop leaves it. *)
Definition listing (l : list Z) : is_protocol_chunk_ids :=
  {| ids_chunk_count := u16 (Z.of_nat (length l)); ids_chunk_ids := l ++ zeros (128 - length l) |}.

Definition chunk_list (l : list Z) : Prop :=
  NoDup l /\ (forall i, i ∈ l -> 0 <= i < 128) /\ (length l <= 128)%nat.

Lemma chunks_below_list p : chunk_list (chunks_below 128 p).
Proof.
  split_and!; [done| |apply length_chunks_below]. intros i Hi.
  apply elem_of_chunks_below in Hi. lia.
Qed.

Lemma listing_count l : chunk_list l -> ids_chunk_count (listing l) = Z.of_nat (length l).
Proof.
  intros (_ & _ & Hl). unfold listing. cbn [ids_chunk_count]. apply wrap_small. unfold in_u. pow_lia.
Qed.

Lemma listing_wf l : chunk_list l -> wf_payload (payload_chunk_ids (listing l)).
Proof.
  intros Hl. cbn [wf_payload]. rewrite listing_count by done. destruct Hl as (_ & Hr & Hl).
  unfold in_u. split_and!; [lia|pow_lia| |].
  - cbn. rewrite length_app. unfold zeros. rewrite length_replicate. lia.
  - cbn. apply list.Forall_app. split; rewrite list.Forall_forall; intros i Hi.
    + apply Hr in Hi. unfold in_u. pow_lia.
    + apply elem_of_replicate in Hi as [-> _]. unfold in_u. pow_lia.
Qed.

Lemma listing_at l i : 0 <= i < Z.of_nat (length l) ->
  byte_at (ids_chunk_ids (listing l)) i = byte_at l i.
Proof. intros Hi. unfold byte_at. cbn. by rewrite app_nth1 by lia. Qed.

Lemma listing_distinct l : chunk_list l ->
  exists_below (ids_chunk_count (listing l)) (id_seen (ids_chunk_ids (listing l))) = false.
Proof.
  intros Hl. apply exists_below_false. rewrite listing_count by done. intros i Hi.
  apply exists_below_false. intros j Hj. rewrite !listing_at by lia.
  apply Z.eqb_neq. intros E. destruct Hl as (Hd & _). unfold byte_at in E.
  destruct (lookup_lt_is_Some_2 l (Z.to_nat i)) as [x Hx]; [lia|].
  destruct (lookup_lt_is_Some_2 l (Z.to_nat j)) as [y Hy]; [lia|].
  rewrite (nth_lookup_Some _ _ 0 x Hx), (nth_lookup_Some _ _ 0 y Hy) in E. subst y.
  pose proof (NoDup_lookup _ _ _ _ Hd Hx Hy). lia.
Qed.

Lemma listing_size h l :
  hdr_type h = IS_PROTOCOL_MSG_EVICT \/ hdr_type h = IS_PROTOCOL_MSG_RELEASE ->
  chunk_list l -> l <> [] ->
  is_payload_size {| msg_header := h; msg_payload := payload_chunk_ids (listing l) |} =
    inr (4 + 4 * Z.of_nat (length l), 0, 0).
Proof.
  intros Ht Hl Hne. unfold is_payload_size. cbn [msg_header msg_payload get_chunk_ids].
  rewrite listing_distinct, listing_count by done.
  assert (Hc : is_validate_chunk_count (Z.of_nat (length l)) = inr tt).
  { unfold is_validate_chunk_count, IS_PROTOCOL_MAX_CHUNKS_PER_FRAME.
    destruct Hl as (_ & _ & Hl).
    destruct (Z.eqb_spec (Z.of_nat (length l)) 0) as [E|E]; [by destruct l|].
    by replace (Z.of_nat (length l) >? 128) with false by lia. }
  rewrite Hc. by destruct Ht as [-> | ->].
Qed.

Lemma canonical_listing l : chunk_list l ->
  canonical_payload (payload_chunk_ids (listing l)) = payload_chunk_ids (listing l).
Proof.
  intros Hl. cbn [canonical_payload]. rewrite listing_count by done. destruct Hl as (_ & _ & Hl).
  unfold listing. f_equal. f_equal; [symmetry; apply wrap_small; unfold in_u; pow_lia|].
  cbn. unfold canonical_array. rewrite Nat2Z.id, take_app_length. done.
Qed.

(** A frame is built for a valid message, and the peer decodes it to the
    message. *)
Lemma outbound_frame c h payload n a b buf :
  is_validate_header h = inr tt -> wf_message {| msg_header := h; msg_payload := payload |} ->
  is_payload_size {| msg_header := h; msg_payload := payload |} = inr (n, a, b) ->
  0 <= n <= 4048 -> canonical_payload payload = payload -> length buf = 4096%nat ->
  exists frame size,
    encode_outbound c h payload buf = (c, inr (frame, size)) /\
    0 < size <= IS_PROTOCOL_MAX_FRAME_SIZE /\ length frame = 4096%nat /\
    is_protocol_decode (Some (buf_read frame 0 size)) size =
      inr {| msg_header := h; msg_payload := payload |}.
Proof.
  intros Hh Hm Hs Hn Hcan Hbuf. set (m := {| msg_header := h; msg_payload := payload |}) in *.
  destruct (is_protocol_encode (Some m) (Some buf) IS_PROTOCOL_MAX_FRAME_SIZE) as [e|[out size]] eqn:E.
  { exfalso. unfold is_protocol_encode in E. cbn [msg_header m] in E. rewrite Hh in E.
    fold m in Hs. rewrite Hs in E. unfold_sizes.
    replace (n >? _) with false in E by lia. replace (4096 <? _) with false in E by lia. done. }
  pose proof E as Hinv. apply is_protocol_encode_inv in Hinv as (n' & a' & b' & _ & Hs2 & -> & Hn' & Hcap & -> & Hfl);
    [|done]. rewrite Hs in Hs2. injection Hs2 as <- <- <-.
  exists (buf_write buf 0 (frame_bytes m n a b)), (48 + n).
  unfold IS_PROTOCOL_MAX_FRAME_SIZE in *. split_and!; [|lia|lia|by rewrite length_buf_write|].
  - unfold encode_outbound, IS_PROTOCOL_MAX_FRAME_SIZE. fold m. by rewrite E.
  - assert (Hread : buf_read (buf_write buf 0 (frame_bytes m n a b)) 0 (48 + n) = frame_bytes m n a b).
    { unfold buf_read. rewrite <- Hfl, Nat2Z.id, buf_write_0 by lia. change (Z.to_nat 0) with 0%nat.
      by rewrite drop_0, take_app_length. }
    rewrite Hread, decode_frame_bytes by done. unfold canonical_message, m. cbn [msg_header msg_payload].
    by rewrite Hcan.
Qed.

(** In particular for one that lists chunks. *)
Lemma listing_frame c h l buf :
  is_validate_header h = inr tt -> wf_header h ->
  hdr_type h = IS_PROTOCOL_MSG_EVICT \/ hdr_type h = IS_PROTOCOL_MSG_RELEASE ->
  chunk_list l -> l <> [] -> length buf = 4096%nat ->
  exists frame size,
    encode_outbound c h (payload_chunk_ids (listing l)) buf = (c, inr (frame, size)) /\
    0 < size <= IS_PROTOCOL_MAX_FRAME_SIZE /\ length frame = 4096%nat /\
    is_protocol_decode (Some (buf_read frame 0 size)) size =
      inr {| msg_header := h; msg_payload := payload_chunk_ids (listing l) |}.
Proof.
  intros Hh Hwf Ht Hl Hne Hbuf. pose proof Hl as (_ & _ & Hlen).
  apply (outbound_frame _ _ _ (4 + 4 * Z.of_nat (length l)) 0 0); try done.
  - split_and!; [done|by apply listing_wf|]. cbn. by destruct Ht as [-> | ->].
  - by apply listing_size.
  - lia.
  - by apply canonical_listing.
Qed.

(** ** The requests *)

Definition mapped_chunks (c : connection) : list Z :=
  chunks_below 128 (fun i => negb (byte_at (cn_sess_chunk_map c) i <? 0)).

(** The connection that waits for the answer to an EVICT, to a RELEASE. *)
Definition evicting (c : connection) : connection :=
  c <| cn_pending_evict_chunks :=
         marks_below 128 (fun i => negb (byte_at (cn_sess_chunk_map c) i <? 0)) |>
    <| cn_pending_evict_chunk_count := u16 (Z.of_nat (length (mapped_chunks c))) |>
    <| cn_pending_evict_request_id := cn_next_provider_request_id c |>
    <| cn_next_provider_request_id := u64 (cn_next_provider_request_id c + 1) |>.
Definition releasing (c : connection) : connection :=
  c <| cn_pending_release_chunks :=
         marks_below 128 (fun i => negb (byte_at (cm_rkey (cn_send_message c)) i =? 0)) |>
    <| cn_pending_release_chunk_count :=
         u16 (Z.of_nat (length (marked (cm_rkey (cn_send_message c))))) |>
    <| cn_pending_release_request_id := cn_next_provider_request_id c |>
    <| cn_next_provider_request_id := u64 (cn_next_provider_request_id c + 1) |>.

Lemma encode_evict_spec c buf :
  speaking c -> cn_pending_evict_request_id c = 0 -> mapped_chunks c <> [] ->
  length buf = 4096%nat ->
  exists frame size,
    encode_evict c buf = (evicting c, inr (frame, size)) /\
    0 < size <= IS_PROTOCOL_MAX_FRAME_SIZE /\ length frame = 4096%nat /\
    is_protocol_decode (Some (buf_read frame 0 size)) size =
      inr {| msg_header := request_header c IS_PROTOCOL_MSG_EVICT;
             msg_payload := payload_chunk_ids (listing (mapped_chunks c)) |}.
Proof.
  intros Hc Hp Hne Hbuf.
  destruct (request_header_valid c IS_PROTOCOL_MSG_EVICT Hc) as [Hv Hw]; [by left|].
  destruct (listing_frame (evicting c) (request_header c IS_PROTOCOL_MSG_EVICT) (mapped_chunks c) buf)
    as (frame & size & He & Hs & Hf & Hd); [done|done|by left|apply chunks_below_list|done|done|].
  exists frame, size. refine (conj _ (conj Hs (conj Hf Hd))). unfold encode_evict. rewrite Hp. cbn [Z.eqb negb].
  cbv beta iota zeta delta [init_outbound_message]. rewrite list_chunks_spec. exact He.
Qed.

Lemma encode_release_spec c buf :
  speaking c -> cn_pending_release_request_id c = 0 -> marked (cm_rkey (cn_send_message c)) <> [] ->
  length buf = 4096%nat ->
  exists frame size,
    encode_release c buf = (releasing c, inr (frame, size)) /\
    0 < size <= IS_PROTOCOL_MAX_FRAME_SIZE /\ length frame = 4096%nat /\
    is_protocol_decode (Some (buf_read frame 0 size)) size =
      inr {| msg_header := request_header c IS_PROTOCOL_MSG_RELEASE;
             msg_payload := payload_chunk_ids (listing (marked (cm_rkey (cn_send_message c)))) |}.
Proof.
  intros Hc Hp Hne Hbuf.
  destruct (request_header_valid c IS_PROTOCOL_MSG_RELEASE Hc) as [Hv Hw]; [by right|].
  destruct (listing_frame (releasing c) (request_header c IS_PROTOCOL_MSG_RELEASE)
    (marked (cm_rkey (cn_send_message c))) buf)
    as (frame & size & He & Hs & Hf & Hd); [done|done|by right|apply chunks_below_list|done|done|].
  exists frame, size. refine (conj _ (conj Hs (conj Hf Hd))). unfold encode_release. rewrite Hp. cbn [Z.eqb negb].
  cbv beta iota zeta delta [init_outbound_message]. rewrite list_chunks_spec. exact He.
Qed.
End Exchange.

(** ** The answers *)

Lemma fill_loop (f : Z -> Z) n :
  0 <= n <= 128 ->
  let filled := for_loop (Z.to_nat n) 0 (fun index l => set_at l index (f index)) (zeros 128) in
  length filled = 128%nat /\ take (Z.to_nat n) filled = f <$> indices (Z.to_nat n).
Proof.
  intros Hn. cbv zeta.
  assert (Hf : (fun j l => length l = 128%nat /\ take (Z.to_nat j) l = f <$> indices (Z.to_nat j)) n
    (for_loop (Z.to_nat n) 0 (fun index l => set_at l index (f index)) (zeros 128))).
  { apply for_loop_ind0; [lia|done|]. intros j l Hj [Hl Ht]. rewrite length_set_at. split; [done|].
    replace (Z.to_nat (j + 1)) with (S (Z.to_nat j)) by lia. unfold set_at.
    rewrite (take_S_r _ _ (f j)) by (apply list_lookup_insert_eq; lia).
    rewrite take_insert_ge, Ht, indices_S, fmap_app, Z2Nat.id by lia. done. }
  exact Hf.
Qed.

Definition solicited (header : is_protocol_header) (pending_request_id : Z) : Prop :=
  Z.land (hdr_flags header) IS_PROTOCOL_FLAG_RESPONSE <> 0 /\ pending_request_id <> 0 /\
  hdr_request_id header = pending_request_id.

Lemma unsolicited_spec header id : unsolicited header id = false <-> solicited header id.
Proof.
  unfold unsolicited, solicited. rewrite !orb_false_iff, negb_false_iff, !Z.eqb_neq, Z.eqb_eq. tauto.
Qed.

(** The entries of an ACTIVITY, the chunks of a RELEASE. *)
Definition activity_entries (m : is_protocol_message) : list (Z * Z) :=
  let a := get_activity (msg_payload m) in
  (fun e => (activity_provider_chunk_id e, activity_activity e)) <$>
    take (Z.to_nat (activity_chunk_count a)) (activity_chunks a).
Definition release_entries (m : is_protocol_message) : list Z :=
  let i := get_chunk_ids (msg_payload m) in
  take (Z.to_nat (ids_chunk_count i)) (ids_chunk_ids i).

(** What an accepted answer leaves. *)
Definition activity_taken (c : connection) (m : is_protocol_message) : connection :=
  forget_evict ((received c CONTROL_ACTIVITY (activity_chunk_count (get_activity (msg_payload m))))
    <| cn_recv_message :=
         record_chunks true (activity_entries m)
           (cn_recv_message (received c CONTROL_ACTIVITY
              (activity_chunk_count (get_activity (msg_payload m))))) |>).
Definition release_taken (c : connection) (m : is_protocol_message) : connection :=
  forget_release ((received c CONTROL_RELEASE (ids_chunk_count (get_chunk_ids (msg_payload m))))
    <| cn_recv_message :=
         record_chunks false ((fun i => (i, 0)) <$> release_entries m)
           (cn_recv_message (received c CONTROL_RELEASE
              (ids_chunk_count (get_chunk_ids (msg_payload m))))) |>).

(** [pending] are the chunks of the outstanding request, all still mapped. *)
Record outstanding (pending : list Z) (count : Z) (c : connection) : Prop := {
  out_count : count = Z.of_nat (length (marked pending));
  out_mapped : forall i, i ∈ marked pending -> ~ (byte_at (cn_sess_chunk_map c) i < 0)
}.

Lemma activity_ids_take act n :
  0 <= n <= Z.of_nat (length act) ->
  (fun index => activity_provider_chunk_id (activity_at act index)) <$> indices (Z.to_nat n) =
  activity_provider_chunk_id <$> take (Z.to_nat n) act.
Proof.
  intros Hn. apply list_eq. intros k. unfold indices. rewrite !list_lookup_fmap.
  destruct (decide (k < Z.to_nat n)%nat) as [Hk|Hk].
  - rewrite lookup_seq_lt, lookup_take_lt by done. cbn. unfold activity_at. rewrite Nat2Z.id.
    destruct (lookup_lt_is_Some_2 act k) as [e He]; [lia|]. rewrite He. cbn.
    by rewrite (nth_lookup_Some _ _ _ e He).
  - rewrite lookup_seq_ge, lookup_take_ge by lia. done.
Qed.

Lemma activity_well_formed m :
  wf_payload (msg_payload m) ->
  let a := get_activity (msg_payload m) in
  0 <= activity_chunk_count a /\ length (activity_chunks a) = 128%nat /\
  Forall wf_activity (activity_chunks a).
Proof.
  intros Hwf. destruct (msg_payload m); cbn [get_activity activity_chunk_count activity_chunks] in *;
    try (split_and!; [lia|done|apply Forall_replicate, wf_zero_activity]).
  destruct Hwf as ([? _] & ? & ?). done.
Qed.

Lemma chunk_ids_well_formed m :
  wf_payload (msg_payload m) ->
  let i := get_chunk_ids (msg_payload m) in
  0 <= ids_chunk_count i /\ length (ids_chunk_ids i) = 128%nat /\ Forall is_u32 (ids_chunk_ids i).
Proof.
  intros Hwf. destruct (msg_payload m); cbn [get_chunk_ids ids_chunk_count ids_chunk_ids] in *;
    try (split_and!; [lia|done|apply Forall_replicate; unfold in_u; pow_lia]).
  destruct Hwf as ([? _] & ? & ?). done.
Qed.

(** The array [translate_request] compares holds the chunks reported. *)
Lemma activity_response m :
  wf_payload (msg_payload m) ->
  let a := get_activity (msg_payload m) in
  activity_chunk_count a <= 128 ->
  let response := for_loop (Z.to_nat (activity_chunk_count a)) 0 (fun index response_chunks =>
      set_at response_chunks index
        (activity_provider_chunk_id (activity_at (activity_chunks a) index))) (zeros 128) in
  length response = 128%nat /\ Forall is_u32 (activity_entries m).*1 /\
  take (Z.to_nat (activity_chunk_count a)) response = (activity_entries m).*1 /\
  length (activity_entries m) = Z.to_nat (activity_chunk_count a).
Proof.
  intros Hwf a Hmax response. destruct (activity_well_formed m Hwf) as (Hn & Hl & Hu). fold a in Hn, Hl, Hu.
  destruct (fill_loop (fun index => activity_provider_chunk_id (activity_at (activity_chunks a) index))
    (activity_chunk_count a) (conj Hn Hmax)) as [Hlen Htake]. fold response in Hlen, Htake.
  rewrite activity_ids_take in Htake by lia.
  assert (Hids : activity_provider_chunk_id <$> take (Z.to_nat (activity_chunk_count a)) (activity_chunks a)
    = (activity_entries m).*1).
  { unfold activity_entries. fold a. rewrite <- list_fmap_compose. done. }
  rewrite Htake, <- Hids. split_and!; [done| |done|].
  - apply Forall_fmap, list.Forall_take. eapply list.Forall_impl; [exact Hu|]. intros e [? _]. done.
  - unfold activity_entries. fold a. rewrite length_fmap, length_take. lia.
Qed.

(** An ACTIVITY is taken exactly when it answers the outstanding request and
    reports on its chunks. *)
Lemma translate_activity_spec c m :
  wf_payload (msg_payload m) -> activity_chunk_count (get_activity (msg_payload m)) <= 128 ->
  outstanding (cn_pending_evict_chunks c) (cn_pending_evict_chunk_count c) c ->
  let answers := solicited (msg_header m) (cn_pending_evict_request_id c) /\
    (activity_entries m).*1 ≡ₚ marked (cn_pending_evict_chunks c) in
  (answers -> translate_activity c m = (activity_taken c m, 0)) /\
  ((translate_activity c m).2 = 0 -> answers).
Proof.
  intros Hwf Hmax [Hcount Hmapped] answers. unfold translate_activity. cbv zeta.
  destruct (activity_response m Hwf Hmax) as (Hlen & Hu32 & Hids & Hent).
  destruct (activity_well_formed m Hwf) as (Hn & _ & _).
  set (a := get_activity (msg_payload m)) in *. subst answers. rewrite <- unsolicited_spec.
  destruct (unsolicited _ _); [split; [by intros [? _]|done]|].
  set (response := for_loop _ _ _ _) in *.
  rewrite Hcount. pose proof (set_matches_iff (cn_pending_evict_chunks c) response
    (activity_chunk_count a) ltac:(lia) ltac:(by rewrite Hids)) as Hm. rewrite Hids in Hm.
  destruct (control_chunk_set_matches _ _ _ _); cbn [negb]; [|split; [intros [_ Hp%Hm]; done|done]].
  pose proof (proj1 Hm eq_refl) as Hp. split; [intros _|done].
  rewrite <- Hent, (receive_all_run (cn_pending_evict_chunks c) true (activity_entries m)
    (received c CONTROL_ACTIVITY (activity_chunk_count a)) cn_pending_evict_chunks
    (fun i => activity_provider_chunk_id (activity_at (activity_chunks a) i))
    (fun i => activity_activity (activity_at (activity_chunks a) i))); [done|done| |].
  - intros i e He. unfold activity_entries in He. fold a in He.
    apply list_lookup_fmap_Some in He as (x & -> & Hx). apply lookup_take_Some in Hx as [Hx _].
    unfold activity_at. by rewrite Nat2Z.id, (nth_lookup_Some _ _ _ x Hx).
  - intros e He. assert (Hin : e.1 ∈ marked (cn_pending_evict_chunks c)).
    { rewrite <- Hp. by apply list_elem_of_fmap_2. }
    split; [done|]. by apply Hmapped.
Qed.

(** A RELEASE is taken exactly when it answers the outstanding request and
    names its chunks. *)
Lemma translate_release_spec c m :
  wf_payload (msg_payload m) -> ids_chunk_count (get_chunk_ids (msg_payload m)) <= 128 ->
  cn_pending_release_chunk_count c = Z.of_nat (length (marked (cn_pending_release_chunks c))) ->
  let answers := solicited (msg_header m) (cn_pending_release_request_id c) /\
    release_entries m ≡ₚ marked (cn_pending_release_chunks c) in
  (outstanding (cn_pending_release_chunks c) (cn_pending_release_chunk_count c) c ->
   answers -> translate_release c m = (release_taken c m, 0)) /\
  ((translate_release c m).2 = 0 -> answers).
Proof.
  intros Hwf Hmax Hcount answers. unfold translate_release. cbv zeta.
  destruct (chunk_ids_well_formed m Hwf) as (Hn & Hl & Hu).
  set (ids := get_chunk_ids (msg_payload m)) in *. subst answers. rewrite <- unsolicited_spec.
  destruct (unsolicited _ _); [split; [by intros _ [? _]|done]|].
  rewrite Hcount. pose proof (set_matches_iff (cn_pending_release_chunks c) (ids_chunk_ids ids)
    (ids_chunk_count ids) ltac:(lia) ltac:(by apply list.Forall_take)) as Hm. fold (release_entries m) in Hm.
  destruct (control_chunk_set_matches _ _ _ _); cbn [negb]; [|split; [intros _ [_ Hp%Hm]; done|done]].
  pose proof (proj1 Hm eq_refl) as Hp. split; [intros [_ Hmapped] _|done].
  assert (Hent : Z.to_nat (ids_chunk_count ids) = length ((fun i => (i, 0)) <$> release_entries m)).
  { rewrite length_fmap. unfold release_entries. fold ids. rewrite length_take. lia. }
  rewrite Hent, (receive_all_run (cn_pending_release_chunks c) false ((fun i => (i, 0)) <$> release_entries m)
    (received c CONTROL_RELEASE (ids_chunk_count ids)) cn_pending_release_chunks
    (fun i => byte_at (ids_chunk_ids ids) i) (fun _ => 0)); [done|done| |].
  - intros i e He. apply list_lookup_fmap_Some in He as (x & -> & Hx). unfold release_entries in Hx.
    apply lookup_take_Some in Hx as [Hx _]. unfold byte_at. by rewrite Nat2Z.id, (nth_lookup_Some _ _ _ x Hx).
  - intros e (x & -> & Hx)%list_elem_of_fmap. cbn [fst].
    assert (Hin : x ∈ marked (cn_pending_release_chunks c)) by (by rewrite <- Hp).
    split; [done|]. by apply Hmapped.
Qed.

(** What is recorded of an accepted answer. *)
Lemma activity_taken_recorded c m :
  (activity_entries m).*1 ≡ₚ marked (cn_pending_evict_chunks c) ->
  cn_recv_message c = zero_control_message ->
  marked (cm_rkey (cn_recv_message (activity_taken c m))) = marked (cn_pending_evict_chunks c) /\
  forall i a, (i, a) ∈ activity_entries m ->
    byte_at (cm_buf (cn_recv_message (activity_taken c m))) i = a.
Proof.
  intros Hp Hz. assert (Hr : forall e, e ∈ activity_entries m -> 0 <= e.1 < 128).
  { intros e He. assert (Hin : e.1 ∈ (activity_entries m).*1) by (by apply list_elem_of_fmap_2).
    rewrite Hp in Hin. apply elem_of_marked in Hin. lia. }
  assert (E : cn_recv_message (activity_taken c m) = record_chunks true (activity_entries m)
    (zero_control_message <| cm_type := CONTROL_ACTIVITY |>
       <| cm_size_gb := activity_chunk_count (get_activity (msg_payload m)) |>)).
  { unfold activity_taken, received. rewrite Hz. done. }
  rewrite E. split.
  - apply chunks_below_ext. intros i Hi. apply eq_true_iff_eq. rewrite !negb_true_iff, !Z.eqb_neq.
    rewrite record_chunks_rkey by (done || lia). cbn -[byte_at zeros]. rewrite byte_at_zeros, Hp, elem_of_marked.
    naive_solver lia.
  - intros i a Hin. apply record_chunks_buf; [|done|done|done].
    rewrite Hp. apply chunks_below_NoDup.
Qed.

Lemma release_taken_recorded c m :
  release_entries m ≡ₚ marked (cn_pending_release_chunks c) ->
  cn_recv_message c = zero_control_message ->
  marked (cm_rkey (cn_recv_message (release_taken c m))) = marked (cn_pending_release_chunks c).
Proof.
  intros Hp Hz. assert (Hr : forall e, e ∈ (fun i => (i, 0)) <$> release_entries m -> 0 <= e.1 < 128).
  { intros e (x & -> & Hx)%list_elem_of_fmap. rewrite Hp in Hx. apply elem_of_marked in Hx. cbn. lia. }
  assert (E : cn_recv_message (release_taken c m) = record_chunks false ((fun i => (i, 0)) <$> release_entries m)
    (zero_control_message <| cm_type := CONTROL_RELEASE |>
       <| cm_size_gb := ids_chunk_count (get_chunk_ids (msg_payload m)) |>)).
  { unfold release_taken, received. rewrite Hz. done. }
  rewrite E. apply chunks_below_ext. intros i Hi. apply eq_true_iff_eq. rewrite !negb_true_iff, !Z.eqb_neq.
  rewrite record_chunks_rkey by (done || lia). rewrite <- list_fmap_compose. cbn -[byte_at zeros].
  rewrite list_fmap_id, byte_at_zeros, Hp, elem_of_marked. naive_solver lia.
Qed.
