(* ===== verification/ProviderLogic.v ===== *)
(** * Reasoning about the provider's handlers

    What the daemon relies on of its platform, a predicate transformer for
    handlers, and the handlers that leave alone the parts of a connection the
    invariants are about. *)
From S2P Require Import Prelude Protocol Text Auth ProviderSession Liveness MemoryManager MemoryManagerInv MemoryManagerConn ProviderConnection ProviderDaemon.

(** ** The platform's promises

    [mem_blocks w a] counts the live blocks at [a] and [mem_regs w pd r] the
    live regions [r] of the domain [pd]; a call that is not about memory
    changes neither. *)
Class PlatformLaws (W : Type) `{Platform W} := {
  mem_blocks : W -> Z -> nat;
  mem_regs : W -> Z -> Z -> nat;
  clock_quiet w : mem_blocks (clock_monotonic w).1 = mem_blocks w /\
    mem_regs (clock_monotonic w).1 = mem_regs w;
  time_quiet w : mem_blocks (time_now w).1 = mem_blocks w /\ mem_regs (time_now w).1 = mem_regs w;
  wait_quiet t w : mem_blocks (cond_timedwait t w).1 = mem_blocks w /\
    mem_regs (cond_timedwait t w).1 = mem_regs w;
  random_quiet w : mem_blocks (random_identity w).1 = mem_blocks w /\
    mem_regs (random_identity w).1 = mem_regs w;
  calloc_quiet w : mem_blocks (calloc_connection w).1 = mem_blocks w /\
    mem_regs (calloc_connection w).1 = mem_regs w;
  send_quiet p f w : mem_blocks (ibv_post_send p f w).1 = mem_blocks w /\
    mem_regs (ibv_post_send p f w).1 = mem_regs w;
  recv_quiet p w : mem_blocks (ibv_post_recv p w).1 = mem_blocks w /\
    mem_regs (ibv_post_recv p w).1 = mem_regs w;
  drain_quiet p w : mem_blocks (drain_queue p w).1 = mem_blocks w /\
    mem_regs (drain_queue p w).1 = mem_regs w;
  setup_quiet p w : mem_blocks (setup_connection p w).1 = mem_blocks w /\
    mem_regs (setup_connection p w).1 = mem_regs w;
  accept_quiet w : mem_blocks (rdma_accept w).1 = mem_blocks w /\
    mem_regs (rdma_accept w).1 = mem_regs w;
  meminfo_quiet w : mem_blocks (meminfo w).1 = mem_blocks w /\ mem_regs (meminfo w).1 = mem_regs w;
  meminfo_bytes w : is_u64 (meminfo w).2.2;
  heap_quiet w : mem_blocks (c_heap w).1 = mem_blocks w /\ mem_regs (c_heap w).1 = mem_regs w;
  clear_quiet a w : mem_blocks (clear_block a w) = mem_blocks w /\
    mem_regs (clear_block a w) = mem_regs w;
  memalign_ok w w' a : posix_memalign w = (w', (0, a)) ->
    a <> 0 /\ mem_regs w' = mem_regs w /\
    forall x, mem_blocks w' x = (mem_blocks w x + b2n (Z.eqb a x))%nat;
  memalign_fail w w' status a : posix_memalign w = (w', (status, a)) -> status <> 0 ->
    a = 0 /\ mem_regs w' = mem_regs w /\ mem_blocks w' = mem_blocks w;
  free_ok a w : (0 < mem_blocks w a)%nat ->
    mem_regs (free_block a w) = mem_regs w /\
    forall x, (mem_blocks (free_block a w) x + b2n (Z.eqb a x) = mem_blocks w x)%nat;
  reg_ok pd a w w' r : ibv_reg_mr pd a w = (w', r) -> r <> 0 ->
    mem_blocks w' = mem_blocks w /\
    forall h x, mem_regs w' h x = (mem_regs w h x + b2n (Z.eqb pd h && Z.eqb r x))%nat;
  reg_fail pd a w w' : ibv_reg_mr pd a w = (w', 0) ->
    mem_blocks w' = mem_blocks w /\ mem_regs w' = mem_regs w;
  reg_undo pd a w w' r : ibv_reg_mr pd a w = (w', r) -> r <> 0 -> mr_addr r = 0 \/ mr_rkey r = 0 ->
    mem_blocks (ibv_dereg_mr r w').1 = mem_blocks w /\
    mem_regs (ibv_dereg_mr r w').1 = mem_regs w;
  dereg_ok pd r w w' : ibv_dereg_mr r w = (w', 0) -> (0 < mem_regs w pd r)%nat ->
    mem_blocks w' = mem_blocks w /\
    forall h x, (mem_regs w' h x + b2n (Z.eqb pd h && Z.eqb r x) = mem_regs w h x)%nat;
  dereg_fail r w w' status : ibv_dereg_mr r w = (w', status) -> status <> 0 ->
    mem_blocks w' = mem_blocks w /\ mem_regs w' = mem_regs w
}.

(** The daemon's adapters keep the promises the memory manager relies on. *)
#[export] Instance daemon_adapter_laws W `{PlatformLaws W} : MemoryAdapterLaws W.
Proof.
  refine {| blocks := mem_blocks; regs := mem_regs |}; cbn.
  - apply meminfo_quiet.
  - apply meminfo_bytes.
  - apply heap_quiet.
  - apply clear_quiet.
  - apply memalign_ok.
  - apply memalign_fail.
  - apply free_ok.
  - intros pd a w w' r. unfold register_remote_memory. destruct (ibv_reg_mr pd a w) as [w1 x] eqn:E.
    destruct (Z.eqb_spec x 0); [by intros [= <- <-]|]. destruct (_ || _).
    + destruct (ibv_dereg_mr x w1). by intros [= <- <-].
    + intros [= <- <-] _. by apply (reg_ok _ _ _ _ _ E).
  - intros pd a w w'. unfold register_remote_memory. destruct (ibv_reg_mr pd a w) as [w1 x] eqn:E.
    destruct (Z.eqb_spec x 0) as [->|Hx]; [intros [= <-]; by apply (reg_fail _ _ _ _ E)|].
    destruct (_ || _) eqn:Eo; [|by intros [= <- ->]]. rewrite orb_true_iff, !Z.eqb_eq in Eo.
    pose proof (reg_undo _ _ _ _ _ E Hx Eo) as Hu.
    destruct (ibv_dereg_mr x w1). by intros [= <-].
  - intros pd r w w'. apply dereg_ok.
  - intros pd r w w' status. apply dereg_fail.
Defined.

(** ** Handlers *)

(** From [st] the handler does not follow a dangling pointer, and what it
    returns satisfies [Q]; it ends the process only where [d] allows it. *)
Definition safe {W A} (d : bool) (h : handler W A) (st : provider W) (Q : A -> provider W -> Prop) : Prop :=
  match h st with
  | Returns a st => Q a st
  | Blocks => True
  | Dies => d = true
  | Dangling => False
  end.

Section Rules.
Context {W : Type} (d : bool).

Lemma safe_ret {A} (a : A) (st : provider W) (Q : A -> provider W -> Prop) :
  Q a st -> safe d (mret a) st Q.
Proof. done. Qed.

Lemma safe_die {A} st (Q : A -> provider W -> Prop) : d = true -> safe d die st Q.
Proof. done. Qed.

Lemma safe_bind {A B} (h : handler W A) (k : A -> handler W B) st Q :
  safe d h st (fun a st => safe d (k a) st Q) -> safe d (h ≫= k) st Q.
Proof. unfold safe, mbind, handler_bind. by destruct (h st). Qed.

Lemma safe_mono {A} (h : handler W A) st (Q Q' : A -> provider W -> Prop) :
  (forall a st, Q a st -> Q' a st) -> safe d h st Q -> safe d h st Q'.
Proof. unfold safe. destruct (h st); naive_solver. Qed.

Lemma safe_block {A} st (Q : A -> provider W -> Prop) : safe d block st Q.
Proof. done. Qed.

Lemma safe_load p st (Q : connection -> provider W -> Prop) c :
  pv_conns st !! p = Some c -> Q c st -> safe d (load p) st Q.
Proof. intros Hc HQ. unfold safe, load. by rewrite Hc. Qed.

Lemma safe_on_conn {A} p (f : connection -> connection * A) st (Q : A -> provider W -> Prop) c :
  pv_conns st !! p = Some c ->
  Q (f c).2 (st <| pv_conns := <[p := (f c).1]> (pv_conns st) |>) -> safe d (on_conn p f) st Q.
Proof.
  intros Hc HQ. unfold on_conn. apply safe_bind, (safe_load _ _ _ c); [done|].
  destruct (f c) as [c' a]. apply safe_bind. unfold safe, store. by rewrite Hc.
Qed.
End Rules.

(** * What most handlers leave alone

    The place in the table, the chunk map, the subscription, the state of
    closing and the frame in flight of a connection are touched by few routines.  An invariant about them alone is
    kept by all the others, and by the handlers made of them. *)

Definition memory_part (c : connection) : Z * list Z * bool * bool * bool :=
  (cn_conn_index c, cn_sess_chunk_map c, cn_closing c, cn_memory_connected c, cn_auth_subscribed c).

Definition kept (c : connection) : Z * list Z * bool * bool * bool * (bool * list Z * Z) :=
  (memory_part c, (cn_send_inflight c, cn_send_frame c, cn_send_frame_size c)).

(** With the session, which fewer still touch. *)
Definition steady (c : connection) : Z * list Z * bool * bool * bool * (bool * list Z * Z) * is_provider_session :=
  (kept c, cn_protocol_session c).

Lemma steady_get_reference c : steady (connection_get_reference c).1 = steady c.
Proof. unfold connection_get_reference. by destruct (cn_closing c). Qed.
Lemma steady_put_reference c : steady (connection_put_reference c) = steady c.
Proof. unfold connection_put_reference. by destruct (0 <? _). Qed.

Lemma steady_start_liveness clock c : steady (start_connection_liveness clock c).1 = steady c.
Proof.
  unfold start_connection_liveness. destruct (monotonic_now clock) as [[? ?]|]; [|done].
  by destruct (cn_closing c) eqn:E; unfold steady, kept, memory_part; cbn; rewrite ?E.
Qed.
Lemma steady_refresh_liveness clock c : steady (refresh_connection_liveness clock c).1 = steady c.
Proof.
  unfold refresh_connection_liveness. destruct (monotonic_now clock) as [[? ?]|]; [|done].
  by destruct (_ || _).
Qed.

Lemma steady_init_outbound c type response : steady (init_outbound_message c type response).1 = steady c.
Proof. unfold init_outbound_message. by destruct response, (type =? _), (type =? _). Qed.

Lemma steady_encode `{ProtocolBuild} c frame : steady (encode_control_message c frame).1 = steady c.
Proof.
  assert (Hout : forall c h q, (encode_outbound c h q frame).1 = c).
  { intros ? ? ?. unfold encode_outbound. by destruct (is_protocol_encode _ _ _). }
  unfold encode_control_message.
  destruct (_ =? CONTROL_FREE_SIZE).
  { pose proof (steady_init_outbound c IS_PROTOCOL_MSG_STATUS_RESPONSE true) as Hk.
    destruct (init_outbound_message _ _ _) as [c1 h]. by rewrite Hout. }
  destruct (_ =? CONTROL_INFO).
  { pose proof (steady_init_outbound c IS_PROTOCOL_MSG_CHUNK_GRANT true) as Hk.
    destruct (init_outbound_message _ _ _) as [c1 h].
    destruct (grant_entries c1) as [?|[? ?]]; [done|]. by rewrite Hout. }
  destruct (_ =? CONTROL_EVICT).
  { unfold encode_evict. destruct (negb _); [done|].
    match goal with |- context [init_outbound_message ?x ?t ?r] =>
      pose proof (steady_init_outbound x t r) as Hk; destruct (init_outbound_message x t r) as [c1 h] end.
    destruct (list_chunks _) as [[[? ?] ?]|[[? ?] ?]]; [exact Hk|]. rewrite Hout. exact Hk. }
  destruct (_ =? CONTROL_RELEASE).
  { unfold encode_release. destruct (negb _); [done|].
    match goal with |- context [init_outbound_message ?x ?t ?r] =>
      pose proof (steady_init_outbound x t r) as Hk; destruct (init_outbound_message x t r) as [c1 h] end.
    destruct (list_chunks _) as [[[? ?] ?]|[[? ?] ?]]; [exact Hk|]. rewrite Hout. exact Hk. }
  destruct (_ =? CONTROL_DONE); [|done].
  pose proof (steady_init_outbound c IS_PROTOCOL_MSG_GOODBYE false) as Hk.
  destruct (init_outbound_message _ _ _) as [c1 h]. by rewrite Hout.
Qed.

Lemma steady_receive_chunk pending chunk activity record c r :
  receive_chunk pending chunk activity record c = r ->
  steady (match r with inl c => c | inr c => c end) = steady c.
Proof. unfold receive_chunk. intros <-. by destruct (_ || _). Qed.

Lemma steady_receive_all n i (pend : connection -> list Z) (id act : Z -> Z) record c :
  steady (match for_err n i (fun index c => receive_chunk (pend c) (id index) (act index) record c) c with
        | inl c => c | inr c => c end) = steady c.
Proof.
  revert i c. induction n as [|n IH]; intros i c; [done|]. cbn [for_err].
  pose proof (steady_receive_chunk (pend c) (id i) (act i) record c _ eq_refl) as Hk.
  destruct (receive_chunk _ _ _ _ _) as [c1|c1]; [done|]. by rewrite IH.
Qed.

Lemma steady_translate c m : steady (translate_request c m).1 = steady c.
Proof.
  unfold translate_request. set (c0 := c <| cn_recv_message := _ |> <| cn_active_request_id := _ |>).
  assert (H0 : steady c0 = steady c) by done. clearbody c0. rewrite <- H0. clear H0.
  destruct (_ =? IS_PROTOCOL_MSG_STATUS_REQUEST); [done|].
  destruct (_ =? IS_PROTOCOL_MSG_CHUNK_REQUEST); [done|].
  destruct (_ =? IS_PROTOCOL_MSG_ACTIVITY).
  { unfold translate_activity. destruct (unsolicited _ _); [done|]. destruct (negb _); [done|].
    match goal with |- context [for_err ?n ?s ?f ?x] =>
      pose proof (steady_receive_all n s cn_pending_evict_chunks
        (fun i => activity_provider_chunk_id (activity_at (activity_chunks (get_activity (msg_payload m))) i))
        (fun i => activity_activity (activity_at (activity_chunks (get_activity (msg_payload m))) i))
        true x) as Hk; cbv beta in Hk; destruct (for_err n s f x); exact Hk end. }
  destruct (_ =? IS_PROTOCOL_MSG_RELEASE).
  { unfold translate_release. destruct (unsolicited _ _); [done|]. destruct (negb _); [done|].
    match goal with |- context [for_err ?n ?s ?f ?x] =>
      pose proof (steady_receive_all n s cn_pending_release_chunks
        (fun i => byte_at (ids_chunk_ids (get_chunk_ids (msg_payload m))) i) (fun _ => 0)
        false x) as Hk; cbv beta in Hk; destruct (for_err n s f x); exact Hk end. }
  destruct (_ =? IS_PROTOCOL_MSG_ERROR).
  { unfold translate_error. destruct (_ && _); [done|]. by destruct (_ && _). }
  by destruct (_ =? _).
Qed.

Lemma steady_kept c c' : steady c' = steady c -> kept c' = kept c.
Proof. intros E. exact (f_equal fst E). Qed.

Lemma kept_get_reference c : kept (connection_get_reference c).1 = kept c.
Proof. apply steady_kept, steady_get_reference. Qed.
Lemma kept_put_reference c : kept (connection_put_reference c) = kept c.
Proof. apply steady_kept, steady_put_reference. Qed.
Lemma kept_start_liveness clock c : kept (start_connection_liveness clock c).1 = kept c.
Proof. apply steady_kept, steady_start_liveness. Qed.
Lemma kept_refresh_liveness clock c : kept (refresh_connection_liveness clock c).1 = kept c.
Proof. apply steady_kept, steady_refresh_liveness. Qed.
Lemma kept_encode `{ProtocolBuild} c frame : kept (encode_control_message c frame).1 = kept c.
Proof. apply steady_kept, steady_encode. Qed.
Lemma kept_translate c m : kept (translate_request c m).1 = kept c.
Proof. apply steady_kept, steady_translate. Qed.

(** ** Invariants about what is kept *)

(** The slots of the table, those that are idle, and the number of
    connections. *)
Definition table_part (s : rdma_session) : list Z * list bool * Z :=
  (se_conns s, (fun state => bool_decide (state = CONN_IDLE)) <$> se_conns_state s, se_conn_num s).

Section Primitives.
Context {W : Type} `{PlatformLaws W}.
Context (d : bool) (p : Z) (I : provider W -> Prop).

Definition quiet (w w' : W) : Prop := mem_blocks w' = mem_blocks w /\ mem_regs w' = mem_regs w.

(** [I] is about the manager, the owners of memory and what is kept of the
    connections. *)
Record about_kept : Prop := {
  ak_live : forall st, I st -> is_Some (pv_conns st !! p);
  ak_conn : forall st c c', I st -> pv_conns st !! p = Some c -> kept c' = kept c ->
    I (st <| pv_conns := <[p := c']> (pv_conns st) |>);
  ak_emit : forall st e, I st -> (forall q f, e <> Sent q f) ->
    I (st <| pv_trace := pv_trace st ++ [e] |>);
  ak_session : forall st s, I st -> table_part s = table_part (pv_session st) ->
    I (st <| pv_session := s |>);
  ak_state : forall st c state, I st -> pv_conns st !! p = Some c -> state <> CONN_IDLE ->
    I (st <| pv_session := (pv_session st)
         <| se_conns_state := set_at (se_conns_state (pv_session st)) (cn_conn_index c) state |> |>);
  ak_registry : forall st r, I st -> ar_entries r = ar_entries (pv_registry st) ->
    ar_listeners r ⊆+ ar_listeners (pv_registry st) -> I (st <| pv_registry := r |>);
  ak_world : forall st w, I st -> quiet (pv_world st) w -> I (st <| pv_world := w |>)
}.

Context (HI : about_kept).

Lemma kept_ask {A} (f : W -> W * A) st :
  I st -> quiet (pv_world st) (f (pv_world st)).1 -> safe d (ask f) st (fun _ => I).
Proof.
  intros Hst Hq. unfold safe, ask. destruct (f (pv_world st)) as [w a]. by apply (ak_world HI).
Qed.

Lemma kept_load st : I st -> safe d (load p) st (fun _ => I).
Proof. intros Hst. destruct (ak_live HI _ Hst) as [c Hc]. by apply (safe_load d _ _ _ c). Qed.

Lemma kept_on_conn {A} (f : connection -> connection * A) st :
  I st -> (forall c, kept (f c).1 = kept c) -> safe d (on_conn p f) st (fun _ => I).
Proof.
  intros Hst Hf. destruct (ak_live HI _ Hst) as [c Hc]. apply (safe_on_conn d _ _ _ _ c); [done|].
  by apply (ak_conn HI _ c).
Qed.

Lemma kept_set_conn (f : connection -> connection) st :
  I st -> (forall c, kept (f c) = kept c) -> safe d (set_conn p f) st (fun _ => I).
Proof. intros Hst Hf. by apply kept_on_conn. Qed.

Lemma kept_emit e st : I st -> (forall q f, e <> Sent q f) -> safe d (emit e) st (fun _ => I).
Proof. intros Hst He. by apply (ak_emit HI). Qed.

Lemma kept_on_session f st :
  I st -> (forall s, table_part (f s) = table_part s) -> safe d (on_session f) st (fun _ => I).
Proof. intros Hst Hf. by apply (ak_session HI). Qed.

Lemma kept_gets {A} (f : provider W -> A) st : I st -> safe d (gets f) st (fun _ => I).
Proof. done. Qed.

Lemma kept_registry {A} (f : is_auth_registry -> is_auth_registry * A) st :
  I st -> (forall r, ar_entries (f r).1 = ar_entries r /\ ar_listeners (f r).1 ⊆+ ar_listeners r) ->
  safe d (with_registry f) st (fun _ => I).
Proof.
  intros Hst Hf. unfold safe, with_registry. destruct (Hf (pv_registry st)) as [H1 H2].
  destruct (f _). by apply (ak_registry HI).
Qed.

Lemma kept_set_conn_state state st :
  I st -> state <> CONN_IDLE -> safe d (set_conn_state p state) st (fun _ => I).
Proof.
  intros Hst Hs. destruct (ak_live HI _ Hst) as [c Hc]. unfold set_conn_state.
  apply safe_bind, (safe_load d _ _ _ c); [done|]. by apply (ak_state HI _ c).
Qed.

Lemma kept_bind {A B} (h : handler W A) (k : A -> handler W B) st :
  safe d h st (fun _ => I) -> (forall a st, I st -> safe d (k a) st (fun _ => I)) ->
  safe d (h ≫= k) st (fun _ => I).
Proof. intros Hh Hk. apply safe_bind. eapply safe_mono; [|exact Hh]. auto. Qed.

Lemma kept_safe_mono {A} (h : handler W A) st (Q : A -> provider W -> Prop) :
  safe d h st (fun _ => I) -> (forall a st, I st -> Q a st) -> safe d h st Q.
Proof. intros Hh HQ. eapply safe_mono; [|exact Hh]. auto. Qed.

End Primitives.

(** One step through a handler that keeps an invariant. *)
Ltac kept_step :=
  lazymatch goal with
  | |- safe _ (mret _) _ _ => apply safe_ret; assumption
  | |- safe _ block _ _ => apply safe_block
  | |- safe _ (_ ≫= _) _ _ => apply kept_bind; [|intros ? ? ?]
  | |- safe _ (if ?b then _ else _) _ _ => destruct b
  | |- safe _ (let '(_, _) := ?r in _) _ _ => destruct r
  | |- safe _ (match ?r with _ => _ end) _ _ => destruct r
  | |- safe _ (load _) _ _ => eapply kept_load; eassumption
  | |- safe _ (gets _) _ _ => apply kept_gets; assumption
  | |- safe _ (on_session _) _ _ => eapply kept_on_session; [eassumption|eassumption|done]
  | |- safe _ (with_registry _) _ _ => eapply kept_registry; [eassumption|eassumption|]
  | |- safe _ (rdma_disconnect _) _ _ => eapply kept_emit; [eassumption|eassumption|done]
  | |- safe _ (count_up _) _ _ => eapply kept_on_session; [eassumption|eassumption|done]
  | |- safe _ (set_conn _ _) _ _ => eapply kept_set_conn; [eassumption|eassumption|try done]
  | |- safe _ (set_cq_qp_state _ _) _ _ => eapply kept_set_conn; [eassumption|eassumption|done]
  | |- safe _ (sem_post_evict _) _ _ => eapply kept_set_conn; [eassumption|eassumption|done]
  | |- safe _ (sem_post_stop _) _ _ => eapply kept_set_conn; [eassumption|eassumption|done]
  | |- safe _ (on_conn _ _) _ _ => eapply kept_on_conn; [eassumption|eassumption|]
  | |- safe _ (emit (Receiving _)) _ _ => eapply kept_emit; [eassumption|eassumption|done]
  end.

Section Kept.
Context {W : Type} `{PlatformLaws W} `{ProtocolBuild} `{Mac}.
Context (meanwhile : provider W -> provider W) (d : bool) (p : Z) (I : provider W -> Prop).
Context (HI : about_kept p I).

Lemma get_reference_kept st : I st -> safe d (get_reference p) st (fun _ => I).
Proof. intros Hst. by apply (kept_on_conn d p I HI), kept_get_reference. Qed.
Lemma put_reference_kept st : I st -> safe d (put_reference p) st (fun _ => I).
Proof. intros Hst. by apply (kept_set_conn d p I HI), kept_put_reference. Qed.

Lemma post_receives_kept st : I st -> safe d (post_receives p) st (fun _ => I).
Proof.
  intros Hst. unfold post_receives. kept_step; [by apply get_reference_kept|]. kept_step; [by kept_step|].
  kept_step; [apply (kept_ask d p I HI); [done|apply recv_quiet]|]. kept_step; [|kept_step].
  kept_step; [by apply put_reference_kept|kept_step].
Qed.

Lemma record_protocol_error_kept code st : I st -> safe d (record_protocol_error code) st (fun _ => I).
Proof. intros Hst. unfold record_protocol_error. repeat kept_step. Qed.

End Kept.

(** Submitting a frame and serving a request may weaken the invariant from [I]
    to [J]. *)
Section Serving.
Context {W : Type} `{PlatformLaws W} `{ProtocolBuild} `{Mac}.
Context (meanwhile : provider W -> provider W) (d : bool) (p : Z) (I J : provider W -> Prop).
Context (HI : about_kept p I) (HJ : about_kept p J) (HIJ : forall st, I st -> J st).
Context (Hsubmit : forall frame size close repost st, I st ->
  safe d (submit_encoded_message meanwhile p frame size close repost) st (fun _ => J)).
Context (Hstatus : forall st, I st -> safe d (memory_status p) st (fun _ => I)).
Context (Hsend_mr : forall size st, I st -> safe d (send_mr meanwhile p size) st (fun _ => J)).
Context (Hrecv_done : forall st, I st -> safe d (recv_done p) st (fun _ => J)).
Context (Hadmit : forall st, I st -> safe d (admit_consumer p) st (fun _ => I)).

Lemma weaken {A} (h : handler W A) st : safe d h st (fun _ => I) -> safe d h st (fun _ => J).
Proof. apply safe_mono. auto. Qed.

(** A step that keeps [I] before one that may weaken it. *)
Lemma kept_then {A B} (h : handler W A) (k : A -> handler W B) st :
  safe d h st (fun _ => I) -> (forall a st, I st -> safe d (k a) st (fun _ => J)) ->
  safe d (h ≫= k) st (fun _ => J).
Proof. intros Hh Hk. apply safe_bind. eapply safe_mono; [|exact Hh]. auto. Qed.

Ltac then_step := apply kept_then; [|intros ? ? ?].

Lemma send_protocol_error_kept request_id type code st :
  I st -> safe d (send_protocol_error meanwhile p request_id type code) st (fun _ => J).
Proof.
  intros Hst. unfold send_protocol_error. then_step; [by eapply record_protocol_error_kept|].
  then_step; [kept_step; intros c; by destruct (is_provider_session_fail _ _ _ _ _ _) as [[[? ?] ?] ?]|].
  do 2 kept_step; kept_step; [apply weaken; kept_step|]. kept_step; [by apply Hsubmit|repeat kept_step].
Qed.

Lemma send_message_kept repost st : I st -> safe d (send_message meanwhile p repost) st (fun _ => J).
Proof.
  intros Hst. unfold send_message. then_step; [kept_step; intros c; apply kept_encode|].
  kept_step; [then_step; [kept_step|by apply send_protocol_error_kept]|].
  kept_step. kept_step; [by apply Hsubmit|repeat kept_step].
Qed.

Lemma send_free_mem_size_kept st : I st -> safe d (send_free_mem_size meanwhile p) st (fun _ => J).
Proof.
  intros Hst. unfold send_free_mem_size. then_step; [by apply Hstatus|].
  destruct a as [r s]. assert (Herr : safe d (c ← load p;
    send_protocol_error meanwhile p (cn_active_request_id c) IS_PROTOCOL_MSG_STATUS_REQUEST
      IS_PROTOCOL_ERROR_INTERNAL) st0 (fun _ => J)).
  { then_step; [kept_step|by apply send_protocol_error_kept]. }
  destruct r, s; try exact Herr. then_step; [by kept_step|by apply send_message_kept].
Qed.

Lemma handle_authenticated_request_kept st :
  I st -> safe d (handle_authenticated_request meanwhile p) st (fun _ => J).
Proof.
  intros Hst. unfold handle_authenticated_request. then_step; [kept_step|].
  kept_step; [then_step; [kept_step|by apply send_free_mem_size_kept]|].
  kept_step; [then_step; [kept_step|]; then_step; [kept_step|by apply Hsend_mr]|].
  kept_step; [apply weaken; kept_step|]. kept_step; [|apply weaken; kept_step].
  then_step; [kept_step|]. kept_step; [by apply Hrecv_done|by apply post_receives_kept].
Qed.

Lemma serve_request_kept request st : I st -> safe d (serve_request meanwhile p request) st (fun _ => J).
Proof.
  intros Hst. unfold serve_request. then_step; [kept_step|].
  then_step; [destruct (_ =? IS_PROTOCOL_MSG_ERROR); kept_step|].
  kept_step; [by apply send_protocol_error_kept|].
  then_step; [kept_step; intros c; apply kept_translate|].
  kept_step; [|by apply handle_authenticated_request_kept].
  destruct (_ =? IS_PROTOCOL_MSG_ERROR); [apply weaken; kept_step|by apply send_protocol_error_kept].
Qed.

Lemma answer_session_kept response outcome st :
  I st -> safe d (answer_session meanwhile p response outcome) st (fun _ => J).
Proof.
  intros Hst. unfold answer_session. then_step; [kept_step|].
  then_step; [kept_step; [by eapply record_protocol_error_kept|kept_step]|].
  then_step; [destruct (_ && _); [by apply Hadmit|kept_step]|].
  kept_step; [apply weaken; kept_step|]. kept_step; [by apply Hsubmit|repeat kept_step].
Qed.

Lemma on_receive_kept frame st : I st -> safe d (on_receive meanwhile p frame) st (fun _ => J).
Proof.
  intros Hst. unfold on_receive. then_step; [apply (kept_ask d p I HI); [done|apply time_quiet]|].
  then_step; [kept_step|].
  then_step; [kept_step; intros c; by destruct (is_provider_session_handle _ _ _ _ _ _ _) as [[[? ?] ?] ?]|].
  do 2 kept_step; kept_step; [apply weaken; kept_step|].
  kept_step; [by apply answer_session_kept|].
  kept_step; [apply weaken; kept_step|].
  then_step; [apply (kept_ask d p I HI); [done|apply clock_quiet]|].
  then_step; [kept_step; intros c; apply kept_refresh_liveness|].
  kept_step; [apply weaken; kept_step|by apply serve_request_kept].
Qed.
End Serving.
