(* ===== verification/ProviderMemory.v ===== *)
(** * Connections and the memory manager agree

    The daemon keeps, per connection, its own map of the chunks it has been
    granted; the memory manager keeps the owner of every chunk.  The invariant
    relates the two through every handler. *)
From S2P Require Import Prelude Protocol Text Auth AuthFile AuthInv AuthSteps ProviderSession Liveness MemoryManager MemoryManagerInv MemoryManagerConn MemoryManagerOps MemoryManagerSpec ProviderConnection ProviderDaemon ProviderFrames ProviderLogic.

(** ** The invariant *)

(** The map lists exactly the chunks the manager says [p] owns. *)
Definition agrees (m : is_memory_manager) (p : Z) (map : list Z) : Prop :=
  forall k, (k < 128)%nat ->
    byte_at map (Z.of_nat k) = if decide (chunk_owner m k = p) then Z.of_nat k else -1.

(** The connections the manager knows. *)
Definition registered (m : is_memory_manager) : list Z := conn_owner <$> connections m.

(** The table of 64 slots holds every connection once, at the index the
    connection knows; the other slots are idle. *)
Record table_ok (s : rdma_session) (conns : gmap Z connection) : Prop := {
  tb_length : length (se_conns s) = 64%nat;
  tb_states : length (se_conns_state s) = 64%nat;
  tb_idle : forall i, se_conns s !! i = Some 0 <-> se_conns_state s !! i = Some CONN_IDLE;
  tb_entry : forall i p, se_conns s !! i = Some p -> p <> 0 ->
    exists c, conns !! p = Some c /\ cn_conn_index c = Z.of_nat i;
  tb_slot : forall p c, conns !! p = Some c ->
    0 <= cn_conn_index c /\ se_conns s !! Z.to_nat (cn_conn_index c) = Some p;
  tb_count : se_conn_num s = Z.of_nat (length (filter (fun q => q <> 0) (se_conns s)))
}.

(** The listeners of the registry are distinct connections that know they have
    subscribed. *)
Record listeners_ok (r : is_auth_registry) (conns : gmap Z connection) : Prop := {
  lo_distinct : NoDup (al_context <$> ar_listeners r);
  lo_live : forall l, l ∈ ar_listeners r ->
    exists c, conns !! al_context l = Some c /\ cn_auth_subscribed c = true
}.

Lemma listeners_fewer r r' conns :
  ar_listeners r' ⊆+ ar_listeners r -> listeners_ok r conns -> listeners_ok r' conns.
Proof.
  intros Hs [L1 L2]. split.
  - apply submseteq_Permutation in Hs as [k Hk]. rewrite Hk, fmap_app, list.NoDup_app in L1. by destruct L1.
  - intros l Hl. apply L2. by eapply elem_of_submseteq.
Qed.

Lemma table_insert s conns p c c' :
  table_ok s conns -> conns !! p = Some c -> cn_conn_index c' = cn_conn_index c ->
  table_ok s (<[p := c']> conns).
Proof.
  intros [T1 T2 T3 T4 T5 T6] Hc E. constructor; [done..| | |done].
  - intros i q Hq Hz. destruct (T4 i q Hq Hz) as (x & Hx & Hi). destruct (decide (p = q)) as [->|].
    + exists c'. rewrite lookup_insert_eq. split; [done|]. congruence.
    + exists x. by rewrite lookup_insert_ne.
  - intros q x Hx. destruct (decide (p = q)) as [->|]; [|rewrite lookup_insert_ne in Hx by done; by apply T5].
    rewrite lookup_insert_eq in Hx. injection Hx as <-. rewrite E. by apply T5.
Qed.

Lemma nodup_nonzero (l : list Z) :
  (forall i j q, q <> 0 -> l !! i = Some q -> l !! j = Some q -> i = j) ->
  NoDup (filter (fun q => q <> 0) l).
Proof.
  induction l as [|x l IH]; intros Hl; [constructor|].
  assert (IH' : NoDup (filter (fun q => q <> 0) l)).
  { apply IH. intros i j q Hq Hi Hj. specialize (Hl (S i) (S j) q Hq Hi Hj). lia. }
  destruct (decide (x <> 0)) as [Hx|Hx]; [|by rewrite filter_cons_False].
  rewrite filter_cons_True by done. constructor; [|done]. intros [_ [j Hj]%list_elem_of_lookup]%list_elem_of_filter.
  by specialize (Hl 0%nat (S j) x Hx eq_refl Hj).
Qed.

Lemma table_place s conns p c :
  table_ok s conns -> conns !! 0 = None -> conns !! p = Some c ->
  0 <= cn_conn_index c < 64 /\ forall i, se_conns s !! i = Some p <-> Z.of_nat i = cn_conn_index c.
Proof.
  intros [T1 T2 T3 T4 T5 T6] Hz Hc. destruct (T5 p c Hc) as [Hpos Hs]. pose proof (lookup_lt_Some _ _ _ Hs) as Hlt.
  split; [lia|]. intros i. split.
  - intros Hi. destruct (T4 i p Hi) as (c' & Hc' & E); [intros ->; congruence|]. congruence.
  - intros E. by replace i with (Z.to_nat (cn_conn_index c)) by lia.
Qed.

Lemma table_elements s conns :
  table_ok s conns -> conns !! 0 = None -> filter (fun q => q <> 0) (se_conns s) ≡ₚ elements (dom conns).
Proof.
  intros T Hz. pose proof T as [T1 T2 T3 T4 T5 T6].
  assert (Hin : forall q, q ∈ filter (fun q => q <> 0) (se_conns s) <-> is_Some (conns !! q)).
  { intros q. rewrite list_elem_of_filter, list_elem_of_lookup. split.
    - intros [Hne [i Hi]]. destruct (T4 i q Hi Hne) as (c & Hc & _). by exists c.
    - intros [c Hc]. split; [intros ->; congruence|]. eexists. apply (T5 q c Hc). }
  apply NoDup_Permutation; [|apply NoDup_elements|].
  - apply nodup_nonzero. intros i j q Hne Hi Hj. destruct (T4 i q Hi Hne) as (c & Hc & E1).
    destruct (T4 j q Hj Hne) as (c' & Hc' & E2). rewrite Hc in Hc'. injection Hc' as <-. lia.
  - intros q. by rewrite Hin, elem_of_elements, elem_of_dom.
Qed.

Lemma table_size s conns :
  table_ok s conns -> conns !! 0 = None -> se_conn_num s = Z.of_nat (size conns).
Proof.
  intros T Hz. rewrite (tb_count _ _ T), (table_elements s conns T Hz). rewrite <- size_dom. done.
Qed.

Lemma table_part_ok s s' conns : table_part s' = table_part s -> table_ok s conns -> table_ok s' conns.
Proof.
  unfold table_part. intros [= E1 E2 E3] [T1 T2 T3 T4 T5 T6].
  assert (Hl : length (se_conns_state s') = length (se_conns_state s)).
  { by rewrite <- (length_fmap (fun state => bool_decide (state = CONN_IDLE))), E2, length_fmap. }
  assert (Hi : forall i, se_conns_state s' !! i = Some CONN_IDLE <-> se_conns_state s !! i = Some CONN_IDLE).
  { intros i. pose proof (f_equal (.!! i) E2) as Ei. rewrite !list_lookup_fmap in Ei.
    destruct (se_conns_state s' !! i) as [x|], (se_conns_state s !! i) as [y|]; cbn in Ei; try done.
    injection Ei as Ei. do 2 case_bool_decide; naive_solver. }
  constructor; rewrite ?E1, ?E3, ?Hl; try done. intros i. by rewrite Hi.
Qed.

Lemma table_state s conns p c state :
  table_ok s conns -> p <> 0 -> conns !! p = Some c -> state <> CONN_IDLE ->
  table_ok (s <| se_conns_state := set_at (se_conns_state s) (cn_conn_index c) state |>) conns.
Proof.
  intros [T1 T2 T3 T4 T5 T6] Hp Hc Hs. constructor; cbn -[set_at]; try done; [by rewrite length_set_at|].
  intros i. destruct (T5 _ _ Hc) as [_ Hi]. unfold set_at. destruct (decide (Z.to_nat (cn_conn_index c) = i)) as [<-|].
  - rewrite list_lookup_insert_eq by (apply lookup_lt_Some in Hi; lia). rewrite Hi. naive_solver.
  - by rewrite list_lookup_insert_ne.
Qed.

Lemma listeners_insert r conns p c c' :
  listeners_ok r conns -> conns !! p = Some c ->
  (cn_auth_subscribed c = true -> cn_auth_subscribed c' = true) -> listeners_ok r (<[p := c']> conns).
Proof.
  intros [L1 L2] Hc E. split; [done|]. intros l Hl. destruct (L2 l Hl) as (x & Hx & Hs). destruct (decide (p = al_context l)) as [->|].
  - exists c'. rewrite lookup_insert_eq. split; [done|]. apply E. congruence.
  - exists x. by rewrite lookup_insert_ne.
Qed.

Section Invariant.
Context {W : Type} `{PlatformLaws W}.
Context (B : Z -> nat) (R : Z -> Z -> nat).

Record provider_inv (st : provider W) : Prop := {
  pi_good : good B R (pv_manager st) (pv_world st);
  pi_null : pv_conns st !! 0 = None;
  pi_map : forall p c, pv_conns st !! p = Some c -> length (cn_sess_chunk_map c) = 128%nat;
  pi_registered : forall p, p ∈ registered (pv_manager st) ->
    exists c, pv_conns st !! p = Some c /\ cn_memory_connected c = true;
  pi_agrees : forall p c, pv_conns st !! p = Some c -> cn_closing c = false ->
    agrees (pv_manager st) p (cn_sess_chunk_map c) \/ Disconnecting p ∈ pv_trace st;
  pi_table : table_ok (pv_session st) (pv_conns st);
  pi_listeners : listeners_ok (pv_registry st) (pv_conns st);
  pi_limits : Forall wide_limits (ar_entries (pv_registry st))
}.

Definition live (p : Z) (st : provider W) : Prop := is_Some (pv_conns st !! p).

Definition inv_at (p : Z) (st : provider W) : Prop := provider_inv st /\ live p st.

(** Moreover the connection [p] agrees with the manager. *)
Definition agreeing (p : Z) (st : provider W) : Prop :=
  inv_at p st /\
  forall c, pv_conns st !! p = Some c -> agrees (pv_manager st) p (cn_sess_chunk_map c).

Lemma good_quiet m w w' : good B R m w -> quiet w w' -> good B R m w'.
Proof.
  intros [Hm [Hb Hr]] [E1 E2]. split; [done|]. split; cbn.
  - intros a Ha. rewrite E1. by apply Hb.
  - intros g r Hz. rewrite E2. by apply Hr.
Qed.

(** Every owner of a chunk is registered. *)
Lemma owner_registered m k : manager_inv m -> chunk_owner m k <> 0 -> chunk_owner m k ∈ registered m.
Proof.
  intros Hm. unfold chunk_owner. destruct (chunks m !! k) as [ch|] eqn:E; [|done]. cbn. intros Ho.
  destruct (cs_owned _ _ (m_connections _ Hm) (owner ch) (pool ch) Ho) as (c & Hc & Eo).
  { pose proof (count_lookup (held_by (owner ch) (pool ch)) _ _ _ E) as Hl.
    unfold held_by in Hl at 1. rewrite !Z.eqb_refl in Hl. cbn in Hl. lia. }
  rewrite <- Eo. by apply list_elem_of_fmap_2.
Qed.

Lemma registered_identity m m' :
  identity <$> connections m' = identity <$> connections m -> registered m' = registered m.
Proof.
  intros E. unfold registered.
  assert (Hp : forall l : list is_memory_connection, conn_owner <$> l = (fun x : list Z * Z * (Z * Z * Z) => x.1.2) <$> (identity <$> l)).
  { intros l. rewrite <- list_fmap_compose. done. }
  by rewrite !Hp, E.
Qed.

Lemma live_insert p q c (st : provider W) :
  live q st -> live q (st <| pv_conns := <[p := c]> (pv_conns st) |>).
Proof. intros [x Hx]. unfold live. cbn. destruct (decide (p = q)) as [->|]; [rewrite lookup_insert_eq|rewrite lookup_insert_ne by done]; eauto. Qed.

(** A connection may change in what the invariant does not mention. *)
Lemma inv_conn_listeners p st c c' :
  provider_inv st -> pv_conns st !! p = Some c ->
  cn_conn_index c' = cn_conn_index c -> cn_sess_chunk_map c' = cn_sess_chunk_map c ->
  (cn_closing c' = false -> cn_closing c = false) ->
  (cn_memory_connected c = true -> cn_memory_connected c' = true) ->
  listeners_ok (pv_registry st) (<[p := c']> (pv_conns st)) ->
  provider_inv (st <| pv_conns := <[p := c']> (pv_conns st) |>).
Proof.
  intros [I1 I2 I3 I4 I5 I6 I8 I7] Hc E0 E1 E2 E3 E4. constructor; cbn; try done.
  - destruct (decide (p = 0)) as [->|]; [congruence|by rewrite lookup_insert_ne].
  - intros q d Hd. destruct (decide (p = q)) as [->|].
    + rewrite lookup_insert_eq in Hd. injection Hd as <-. rewrite E1. eauto.
    + rewrite lookup_insert_ne in Hd by done. eauto.
  - intros q Hq. destruct (I4 q Hq) as (d & Hd & Hm). destruct (decide (p = q)) as [->|].
    + exists c'. rewrite lookup_insert_eq. split; [done|]. apply E3. congruence.
    + exists d. by rewrite lookup_insert_ne.
  - intros q d Hd Hcl. destruct (decide (p = q)) as [->|].
    + rewrite lookup_insert_eq in Hd. injection Hd as <-. rewrite E1. eauto.
    + rewrite lookup_insert_ne in Hd by done. eauto.
  - by eapply table_insert.
Qed.

Lemma inv_conn p st c c' :
  provider_inv st -> pv_conns st !! p = Some c ->
  cn_conn_index c' = cn_conn_index c -> cn_sess_chunk_map c' = cn_sess_chunk_map c ->
  (cn_closing c' = false -> cn_closing c = false) ->
  (cn_memory_connected c = true -> cn_memory_connected c' = true) ->
  (cn_auth_subscribed c = true -> cn_auth_subscribed c' = true) ->
  provider_inv (st <| pv_conns := <[p := c']> (pv_conns st) |>).
Proof.
  intros Hi Hc E0 E1 E2 E3 E4. apply (inv_conn_listeners p st c); try done.
  eapply listeners_insert; [apply Hi|done|done].
Qed.

Lemma inv_about_kept p : about_kept p (inv_at p).
Proof.
  constructor.
  - by intros st [_ ?].
  - intros st c c' [Hi Hl] Hc Hk. unfold kept, memory_part in Hk. injection Hk as K0 K1 K2 K3 K4 _ _ _. split; [|by apply live_insert].
    apply (inv_conn p st c); [done|done|done|done|congruence..].
  - intros st e [[I1 I2 I3 I4 I5 I6 I8 I7] Hl] _. split; [|done]. constructor; cbn; try done.
    intros q c Hq Hcl. destruct (I5 q c Hq Hcl) as [?|Ht]; [by left|right]. apply elem_of_app. by left.
  - intros st s [[I1 I2 I3 I4 I5 I6 I8 I7] Hl] E. split; [|done]. constructor; cbn; try done. by apply (table_part_ok (pv_session st)).
  - intros st c state [[I1 I2 I3 I4 I5 I6 I8 I7] Hl] Hc Hs. split; [|done]. constructor; cbn -[set_at]; try done.
    apply (table_state _ _ p); [done| |done|done]. intros ->. congruence.
  - intros st r [[I1 I2 I3 I4 I5 I6 I8 I7] Hl] E Es. split; [|done]. constructor; cbn; try done; [by eapply listeners_fewer|by rewrite E].
  - intros st w [[I1 I2 I3 I4 I5 I6 I8 I7] Hl] Hq. split; [|done]. constructor; cbn; try done.
    by eapply good_quiet.
Qed.

Lemma agreeing_about_kept p : about_kept p (agreeing p).
Proof.
  pose proof (inv_about_kept p) as [K1 K2 K3 K4 K7 K5 K6]. constructor.
  - intros st [Hi _]. by apply K1.
  - intros st c c' [Hi Ha] Hc Hk. split; [by apply (K2 st c)|]. cbn. intros x. rewrite lookup_insert_eq.
    intros [= <-]. unfold kept, memory_part in Hk. injection Hk as _ E1 _ _ _ _ _ _. rewrite E1. by apply (Ha c).
  - intros st e [Hi Ha] He. split; [by apply K3|done].
  - intros st s [Hi Ha] E. split; [by apply K4|done].
  - intros st c state [Hi Ha] Hc Hs. split; [by apply K7|done].
  - intros st r [Hi Ha] E Es. split; [by apply K5|done].
  - intros st w [Hi Ha] Hq. split; [by apply K6|done].
Qed.

(** ** Submitting a frame *)

(** An invariant of the connections, about their memory. *)
Record about_memory (p : Z) (I : provider W -> Prop) : Prop := {
  am_kept : about_kept p I;
  am_conn : forall st c c', I st -> pv_conns st !! p = Some c -> memory_part c' = memory_part c ->
    I (st <| pv_conns := <[p := c']> (pv_conns st) |>);
  am_emit : forall st e, I st -> I (st <| pv_trace := pv_trace st ++ [e] |>)
}.

Lemma inv_about_memory p : about_memory p (inv_at p).
Proof.
  constructor; [apply inv_about_kept| |].
  - intros st c c' [Hi Hl] Hc Hk. injection Hk as K0 K1 K2 K3 K4. split; [|by apply live_insert].
    apply (inv_conn p st c); [done|done|done|done|congruence..].
  - intros st e [[I1 I2 I3 I4 I5 I6 I8 I7] Hl]. split; [|done]. constructor; cbn; try done.
    intros q c Hq Hcl. destruct (I5 q c Hq Hcl) as [?|Ht]; [by left|right]. apply elem_of_app. by left.
Qed.

Lemma agreeing_about_memory p : about_memory p (agreeing p).
Proof.
  pose proof (inv_about_memory p) as [_ K2 K3]. constructor; [apply agreeing_about_kept| |].
  - intros st c c' [Hi Ha] Hc Hk. split; [by apply (K2 st c)|]. cbn. intros x. rewrite lookup_insert_eq.
    intros [= <-]. injection Hk as _ E1 _ _ _. rewrite E1. by apply (Ha c).
  - intros st e [Hi Ha]. split; [by apply K3|done].
Qed.
End Invariant.

Section Submission.
Context {W : Type} `{PlatformLaws W} `{ProtocolBuild} `{Mac}.
Context (meanwhile : provider W -> provider W) (d : bool) (p : Z) (I : provider W -> Prop).
Context (HM : about_memory p I).

Let HI : about_kept p I := am_kept _ _ HM.

Lemma memory_on_conn {A} (f : connection -> connection * A) st :
  I st -> (forall c, memory_part (f c).1 = memory_part c) -> safe d (on_conn p f) st (fun _ => I).
Proof.
  intros Hst Hf. destruct (ak_live _ _ HI _ Hst) as [c Hc]. apply (safe_on_conn d _ _ _ _ c); [done|].
  by apply (am_conn _ _ HM _ c).
Qed.

Lemma memory_set_conn (f : connection -> connection) st :
  I st -> (forall c, memory_part (f c) = memory_part c) -> safe d (set_conn p f) st (fun _ => I).
Proof. intros Hst Hf. by apply memory_on_conn. Qed.

(** Other threads may run while the frame waits for the connection. *)
Context (Hwait : forall st, I st -> I (meanwhile st)).

Lemma await_connected_memory st : I st -> safe d (await_connected meanwhile p) st (fun _ => I).
Proof.
  intros Hst. unfold await_connected. kept_step; [kept_step|]. kept_step; [kept_step|].
  kept_step; [by apply Hwait|]. kept_step; [kept_step|]. kept_step; kept_step.
Qed.

Lemma post_encoded_message_memory st :
  I st -> safe d (post_encoded_message meanwhile p) st (fun _ => I).
Proof.
  intros Hst. unfold post_encoded_message. kept_step; [by eapply get_reference_kept|].
  kept_step; [kept_step; [by apply memory_set_conn|kept_step]|].
  kept_step; [by apply await_connected_memory|]. kept_step; [kept_step|].
  kept_step; [kept_step; [by eapply put_reference_kept|]; kept_step; [by apply memory_set_conn|kept_step]|].
  kept_step; [apply (kept_ask d p I HI); [done|apply send_quiet]|].
  kept_step; [kept_step; [by eapply put_reference_kept|]; kept_step; [by apply memory_set_conn|kept_step]|].
  kept_step; [by apply (am_emit _ _ HM)|kept_step].
Qed.

Lemma submit_memory frame size close repost st :
  I st -> safe d (submit_encoded_message meanwhile p frame size close repost) st (fun _ => I).
Proof.
  intros Hst. unfold submit_encoded_message. kept_step; [kept_step|].
  kept_step; [apply memory_on_conn; [done|]|].
  { intros c. unfold queue_encoded_message. destruct (negb _); [done|]. by destruct (negb _). }
  kept_step. kept_step; [|kept_step]. kept_step; [by apply post_encoded_message_memory|kept_step].
Qed.

Lemma on_sent_memory st : I st -> safe d (on_sent meanwhile p) st (fun _ => I).
Proof.
  intros Hst. unfold on_sent. kept_step; [apply memory_on_conn; [done|]|].
  { intros c. unfold finish_send. destruct (cn_close_after_send c); [done|].
    by match goal with |- context [if cn_pending_send ?x then _ else _] => destruct (cn_pending_send x) end. }
  do 2 kept_step. kept_step; [kept_step|]. kept_step; [kept_step|].
  kept_step; [kept_step; [by apply (post_receives_kept d p _ HI)|kept_step]|].
  kept_step; [|kept_step]. kept_step; [by apply post_encoded_message_memory|]. repeat kept_step.
Qed.
End Submission.
