(* ===== verification/ProviderRequests.v ===== *)
(** * The requests that change memory keep the invariant *)
From S2P Require Import Prelude Protocol Text Auth AuthFile AuthInv AuthSteps ProviderSession Liveness MemoryManager MemoryManagerInv MemoryManagerConn MemoryManagerOps MemoryManagerSpec ProviderConnection ProviderDaemon ProviderFrames ProviderLogic ProviderMemory.

(** ** Maps of chunks *)

Definition map_all (ids map : list Z) : list Z := fold_left (fun map i => set_at map i i) ids map.
Definition unmap_all (ids map : list Z) : list Z := fold_left (fun map i => set_at map i (-1)) ids map.

Lemma fold_set_at (f : Z -> Z) ids map j :
  length map = 128%nat -> Forall (fun i => 0 <= i < 128) ids -> 0 <= j ->
  length (fold_left (fun map i => set_at map i (f i)) ids map) = 128%nat /\
  byte_at (fold_left (fun map i => set_at map i (f i)) ids map) j =
    if decide (j ∈ ids) then f j else byte_at map j.
Proof.
  revert map. induction ids as [|i ids IH]; intros map Hl Hr Hj; cbn [fold_left].
  { rewrite decide_False by apply not_elem_of_nil. done. }
  apply Forall_cons_1 in Hr as [Hi Hr].
  destruct (IH (set_at map i (f i))) as [H1 H2]; [by rewrite length_set_at|done|done|].
  split; [done|]. rewrite H2, byte_at_set_at by lia. destruct (decide (j ∈ ids)) as [Hin|Hin].
  - rewrite decide_True; [done|by constructor].
  - destruct (decide (i = j)) as [->|Hne]; [rewrite decide_True; [done|by constructor]|].
    rewrite decide_False; [done|]. rewrite elem_of_cons. naive_solver.
Qed.

Lemma agrees_ext m m' p map :
  (forall k, chunk_owner m' k = p <-> chunk_owner m k = p) -> agrees m p map -> agrees m' p map.
Proof.
  intros Ho Ha k Hk. rewrite (Ha k Hk). specialize (Ho k).
  destruct (decide (chunk_owner m k = p)), (decide (chunk_owner m' k = p)); tauto.
Qed.

Lemma agrees_given m m' p ids map :
  length map = 128%nat -> gives p ids m m' -> agrees m p map -> agrees m' p (map_all ids map).
Proof.
  intros Hl [_ G2 _ G4] Ha k Hk. unfold map_all.
  destruct (fold_set_at (fun i => i) ids map (Z.of_nat k)) as [_ ->]; [done|done|lia|].
  rewrite G4. destruct (decide (Z.of_nat k ∈ ids)); [by rewrite decide_True|by apply Ha].
Qed.

Lemma agrees_given_other m m' p q ids map :
  q <> p -> q <> 0 -> gives p ids m m' -> agrees m q map -> agrees m' q map.
Proof.
  intros Hq Hz [_ _ G3 G4]. apply agrees_ext. intros k. rewrite G4.
  destruct (decide _) as [Hk|]; [|done]. rewrite (G3 k Hk). naive_solver.
Qed.

Lemma agrees_freed m m' p ids map :
  p <> 0 -> length map = 128%nat -> Forall (fun i => 0 <= i < 128) ids ->
  (forall k, chunk_owner m' k = if decide (Z.of_nat k ∈ ids) then 0 else chunk_owner m k) ->
  agrees m p map -> agrees m' p (unmap_all ids map).
Proof.
  intros Hp Hl Hr Ho Ha k Hk. unfold unmap_all.
  destruct (fold_set_at (fun _ => -1) ids map (Z.of_nat k)) as [_ ->]; [done|done|lia|].
  rewrite Ho. destruct (decide (Z.of_nat k ∈ ids)); [by rewrite decide_False|by apply Ha].
Qed.

Lemma agrees_freed_other m m' p q map :
  q <> p -> q <> 0 -> only_frees p m m' -> agrees m q map -> agrees m' q map.
Proof.
  intros Hq Hz Hf. apply agrees_ext. intros k. destruct (Hf k) as [->|[E1 E2]]; [done|].
  rewrite E1, E2. naive_solver.
Qed.

(** The chunks [recv_done] releases are those marked in the answer. *)
Lemma released_chunks_marked c l :
  released_chunks c = Some l -> l = marked (cm_rkey (cn_recv_message c)).
Proof.
  unfold released_chunks, marked, chunks_below. fold (indices 128). revert l.
  induction (indices 128) as [|i rest IH]; intros l; cbn [fold_right]; [by intros [= <-]|].
  destruct (byte_at _ i =? 0) eqn:E.
  - intros Hl. rewrite filter_cons_False by (by rewrite E). by apply IH.
  - destruct (negb _); [done|]. intros (l' & Hl' & ->)%fmap_Some.
    rewrite filter_cons_True by (by rewrite E). f_equal. by apply IH.
Qed.

Lemma marked_range marks : Forall (fun i => 0 <= i < 128) (marked marks).
Proof. apply list.Forall_forall. intros i Hi. by apply elem_of_marked in Hi as [? _]. Qed.

Lemma marked_u32 marks : Forall is_u32 (marked marks).
Proof.
  eapply list.Forall_impl; [apply marked_range|]. cbv beta. intros i Hi. unfold in_u. pow_lia.
Qed.

Section Requests.
Context {W : Type} `{PlatformLaws W} `{ProtocolBuild} `{Mac}.
Context (B : Z -> nat) (R : Z -> Z -> nat).

Abbreviation inv_at := (inv_at B R).
Abbreviation agreeing := (agreeing B R).
Abbreviation provider_inv := (provider_inv B R).

Lemma conn_nonzero p st : inv_at p st -> p <> 0.
Proof. intros [Hi [c Hc]] ->. rewrite (pi_null _ _ _ Hi) in Hc. done. Qed.

(** A change of the manager. *)
Lemma inv_manager st m w :
  provider_inv st -> good B R m w ->
  (forall p, p ∈ registered m -> p ∈ registered (pv_manager st)) ->
  (forall q c, pv_conns st !! q = Some c -> cn_closing c = false ->
     agrees (pv_manager st) q (cn_sess_chunk_map c) \/ Disconnecting q ∈ pv_trace st ->
     agrees m q (cn_sess_chunk_map c) \/ Disconnecting q ∈ pv_trace st) ->
  provider_inv (st <| pv_manager := m |> <| pv_world := w |>).
Proof. intros [I1 I2 I3 I4 I5 I6 I8 I7] Hg Hr Ha. constructor; cbn; eauto. Qed.

(** ** Status *)

Lemma get_status_quiet m (w : W) own w' r s :
  is_memory_manager_get_status m w own = (w', r, s) -> quiet w w'.
Proof.
  unfold is_memory_manager_get_status. assert (Hrefl : quiet w w) by done.
  pose proof (meminfo_quiet w) as Hq. cbn [read_available_bytes daemon_adapters].
  destruct (meminfo w) as [w1 [st bytes]]. cbn [fst snd] in Hq.
  destruct (negb (own =? 0)).
  - destruct (find_connection m own) as [i|]; [|by intros [= <- <- <-]].
    destruct (connections m !! i); [|by intros [= <- <- <-]].
    by destruct (negb (st =? 0)); intros [= <- <- <-].
  - by destruct (negb (st =? 0)); intros [= <- <- <-].
Qed.

Lemma memory_status_kept d p own I st :
  about_kept p I -> I st -> safe d (memory_status own) st (fun _ => I).
Proof.
  intros HI Hst. unfold memory_status, with_manager, safe.
  destruct (is_memory_manager_get_status _ _ own) as [[w r] s] eqn:E.
  apply get_status_quiet in E. pose proof (ak_world _ _ HI _ _ Hst E) as Hw.
  by destruct st.
Qed.

(** ** Grants *)

(** The invariant holds once the chunks [ids] are mapped; unless the process
    may end, none of them is mapped yet. *)
Definition granting (d : bool) (p : Z) (ids : list Z) (st : provider W) : Prop :=
  exists c, pv_conns st !! p = Some c /\ Forall (fun i => 0 <= i < 128) ids /\ NoDup ids /\
    length (cn_sess_chunk_map c) = 128%nat /\
    (d = false -> forall i, i ∈ ids -> byte_at (cn_sess_chunk_map c) i = -1) /\
    inv_at p (st <| pv_conns :=
      <[p := c <| cn_sess_chunk_map := map_all ids (cn_sess_chunk_map c) |>]> (pv_conns st) |>).

Lemma granting_step d p grant ids st :
  granting d p (provider_chunk_id grant :: ids) st ->
  safe d (map_grant p grant) st (fun _ => granting d p ids).
Proof.
  intros (c & Hc & Hr & Hd & Hl & Hfree & Hi). set (id := provider_chunk_id grant) in *.
  apply Forall_cons_1 in Hr as [Hid Hr]. apply list.NoDup_cons in Hd as [Hni Hd].
  unfold map_grant. apply safe_bind, (safe_load d _ _ _ c); [done|]. fold id.
  destruct (_ || _) eqn:Ebad.
  { apply safe_die. destruct d; [done|]. exfalso. unfold MAX_MR_SIZE_GB in Ebad.
    rewrite (Hfree eq_refl id) in Ebad by constructor. cbn in Ebad. rewrite orb_false_r in Ebad. lia. }
  unfold safe, store. rewrite Hc.
  eexists. split; [apply lookup_insert_eq|]. cbn [cn_sess_chunk_map update].
  split_and!; [done|done|by cbn; rewrite length_set_at| |].
  - intros E i Hin. cbn -[byte_at set_at]. rewrite Forall_forall in Hr. specialize (Hr i).
    rewrite <- list_elem_of_In in Hr. specialize (Hr Hin).
    rewrite byte_at_set_at by lia. rewrite decide_False by naive_solver.
    apply Hfree; [done|by constructor].
  - destruct st as [s cs rg m pd w tr]. cbn -[byte_at set_at map_all] in *.
    rewrite insert_insert_eq. refine (_ : inv_at p _).
    apply (am_conn _ _ (inv_about_memory B R p) _ (c <| cn_sess_chunk_map := map_all (id :: ids) (cn_sess_chunk_map c) |>)
      (c <| cn_sess_chunk_map := map_all ids (set_at (cn_sess_chunk_map c) id id) |>
         <| cn_send_message :=
              (cn_send_message c)
                <| cm_buf := set_at (cm_buf (cn_send_message c)) id (u64 (mr_addr (grant_registration grant))) |>
                <| cm_rkey := set_at (cm_rkey (cn_send_message c)) id (mr_rkey (grant_registration grant)) |> |>)) in Hi;
      [|apply lookup_insert_eq|done].
    cbn -[byte_at set_at map_all] in Hi. rewrite insert_insert_eq in Hi. exact Hi.
Qed.

Lemma granting_loop d p grants st :
  granting d p (provider_chunk_id <$> grants) st ->
  safe d (for_each grants (map_grant p)) st (fun _ => granting d p []).
Proof.
  revert st. induction grants as [|g grants IH]; intros st Hst; [done|].
  cbn [for_each]. apply safe_bind. eapply safe_mono; [|by apply granting_step]. intros ? st' Hst'. by apply IH.
Qed.

Lemma granting_done d p st : granting d p [] st -> inv_at p st.
Proof.
  intros (c & Hc & _ & _ & _ & _ & Hi). unfold map_all in Hi. cbn [fold_left] in Hi.
  replace (c <| cn_sess_chunk_map := cn_sess_chunk_map c |>) with c in Hi by (by destruct c).
  rewrite insert_id in Hi by done. by destruct st.
Qed.

(** What a handler starts from: where the process may not end, the connection
    agrees with the manager. *)
Definition starts (d : bool) (p : Z) (st : provider W) : Prop :=
  if d then inv_at p st else agreeing p st.

Lemma starts_inv d p st : starts d p st -> inv_at p st.
Proof. destruct d; [done|]. by intros [? _]. Qed.

Lemma starts_about_memory d p : about_memory p (starts d p).
Proof. destruct d; [apply inv_about_memory|apply agreeing_about_memory]. Qed.

(** The invariant with the granted chunks mapped. *)
Lemma inv_granted p st c ids m w :
  provider_inv st -> pv_conns st !! p = Some c -> good B R m w ->
  registered m = registered (pv_manager st) -> gives p ids (pv_manager st) m ->
  (forall q c, pv_conns st !! q = Some c -> q <> p -> cn_closing c = false ->
     agrees m q (cn_sess_chunk_map c) \/ Disconnecting q ∈ pv_trace st) ->
  provider_inv (st <| pv_manager := m |> <| pv_world := w |>
    <| pv_conns := <[p := c <| cn_sess_chunk_map := map_all ids (cn_sess_chunk_map c) |>]> (pv_conns st) |>).
Proof.
  intros Hinv Hc Hg Hreg Hgv Hothers. pose proof Hinv as [I1 I2 I3 I4 I5 I6 I8 I7].
  pose proof (I3 _ _ Hc) as Hl. constructor; cbn -[map_all]; try done.
  - rewrite lookup_insert_ne; [done|]. intros ->. congruence.
  - intros q x Hx. destruct (decide (p = q)) as [<-|]; [|rewrite lookup_insert_ne in Hx by done; eauto].
    rewrite lookup_insert_eq in Hx. injection Hx as <-. cbn -[map_all].
    by apply (fold_set_at (fun i => i) ids _ 0); [|apply Hgv|].
  - intros q Hq. rewrite Hreg in Hq. destruct (I4 q Hq) as (x & Hx & Hm). destruct (decide (p = q)) as [<-|].
    + rewrite lookup_insert_eq. eexists. split; [done|]. cbn. congruence.
    + exists x. by rewrite lookup_insert_ne.
  - intros q x Hx Hcl. destruct (decide (p = q)) as [<-|Hne].
    + rewrite lookup_insert_eq in Hx. injection Hx as <-. cbn -[map_all] in *.
      destruct (I5 p c Hc Hcl) as [Ha|]; [left|by right]. by eapply agrees_given.
    + rewrite lookup_insert_ne in Hx by done. by apply Hothers.
  - by eapply table_insert.
  - by eapply listeners_insert.
Qed.

Lemma acquire_granting d p st requested n reg capacity :
  starts d p st -> 0 <= n ->
  let o := is_memory_manager_acquire (pv_manager st) (pv_world st) p requested n reg capacity in
  granting d p (provider_chunk_id <$> out_grants o)
    (st <| pv_manager := out_manager o |> <| pv_world := out_world o |>) /\
  (out_result o <> IS_MEMORY_OK ->
   starts d p (st <| pv_manager := out_manager o |> <| pv_world := out_world o |>)).
Proof.
  intros Hst Hn o. pose proof (starts_inv _ _ _ Hst) as Hi. pose proof Hi as [Hinv [c Hc]].
  pose proof (conn_nonzero p st Hi) as Hp0.
  destruct (acquire_owners B R _ _ p requested n reg capacity (pi_good _ _ _ Hinv) Hn) as (Hg & Hid & Hgv & _ & Hnone).
  fold o in Hg, Hid, Hgv, Hnone. set (ids := provider_chunk_id <$> out_grants o) in *.
  pose proof (pi_map _ _ _ Hinv _ _ Hc) as Hl.
  assert (Hothers : forall q c, pv_conns st !! q = Some c -> q <> p -> cn_closing c = false ->
    agrees (out_manager o) q (cn_sess_chunk_map c) \/ Disconnecting q ∈ pv_trace st).
  { intros q e Hq Hne Hcl. destruct (pi_agrees _ _ _ Hinv q e Hq Hcl) as [Ha|]; [left|by right].
    eapply agrees_given_other; [done| |done|done]. intros ->. rewrite (pi_null _ _ _ Hinv) in Hq. done. }
  assert (Hreg : registered (out_manager o) = registered (pv_manager st)) by (by apply registered_identity).
  assert (Hgrant : granting d p ids (st <| pv_manager := out_manager o |> <| pv_world := out_world o |>)).
  { exists c. split_and!; [done|apply Hgv|apply Hgv|done| |].
    - intros -> i Hin. destruct Hst as [_ Ha]. pose proof (gv_range _ _ _ _ Hgv) as Hr.
      rewrite list.Forall_forall in Hr. specialize (Hr i Hin).
      specialize (Ha c Hc (Z.to_nat i)). rewrite Z2Nat.id in Ha by lia. rewrite Ha by lia.
      rewrite decide_False; [done|]. rewrite (gv_free _ _ _ _ Hgv) by (by rewrite Z2Nat.id by lia). done.
    - split; [|by eexists; apply lookup_insert_eq].
      exact (inv_granted p st c ids _ _ Hinv Hc Hg Hreg Hgv Hothers). }
  split; [done|]. intros Hr. unfold ids in Hgrant, Hgv. rewrite (Hnone Hr) in Hgrant, Hgv.
  pose proof (granting_done _ _ _ Hgrant) as Hi'. destruct d; [done|]. split; [done|].
  cbn. intros x Hx. destruct Hst as [_ Ha].
  exact (agrees_given _ _ p [] _ (pi_map _ _ _ Hinv _ _ Hx) Hgv (Ha x Hx)).
Qed.

Context (d : bool) (p : Z).

Let HI : about_kept p (starts d p) := am_kept _ _ (starts_about_memory d p).
Let HJ : about_kept p (inv_at p) := inv_about_kept B R p.

(** ** Releases *)

(** Freeing chunks of [p] concerns no other connection. *)
Lemma freed_others st m :
  inv_at p st -> only_frees p (pv_manager st) m ->
  forall q c, q <> p -> pv_conns st !! q = Some c -> cn_closing c = false ->
    agrees m q (cn_sess_chunk_map c) \/ Disconnecting q ∈ pv_trace st.
Proof.
  intros [Hinv _] Hf q c Hne Hq Hcl. destruct (pi_agrees _ _ _ Hinv q c Hq Hcl) as [Ha|]; [left|by right].
  eapply agrees_freed_other; [done| |done|done]. intros ->. rewrite (pi_null _ _ _ Hinv) in Hq. done.
Qed.

Lemma release_failed_keeps st m w :
  inv_at p st -> good B R m w -> registered m = registered (pv_manager st) ->
  only_frees p (pv_manager st) m ->
  inv_at p (st <| pv_manager := m |> <| pv_world := w |> <| pv_trace := pv_trace st ++ [Disconnecting p] |>).
Proof.
  intros Hi Hg Hreg Hf. pose proof (freed_others st m Hi Hf) as Ho. destruct Hi as [[I1 I2 I3 I4 I5 I6 I8 I7] Hl].
  split; [|done]. constructor; cbn; try done; [by rewrite Hreg|]. intros q c Hq Hcl.
  destruct (decide (q = p)) as [->|Hne]; [right; apply elem_of_app; right; by constructor|].
  destruct (Ho q c Hne Hq Hcl) as [|Ht]; [by left|right; apply elem_of_app; by left].
Qed.

Lemma release_done_keeps st c m w ids :
  inv_at p st -> pv_conns st !! p = Some c -> good B R m w -> registered m = registered (pv_manager st) ->
  only_frees p (pv_manager st) m -> Forall (fun i => 0 <= i < 128) ids ->
  (forall k, chunk_owner m k = if decide (Z.of_nat k ∈ ids) then 0 else chunk_owner (pv_manager st) k) ->
  inv_at p (st <| pv_manager := m |> <| pv_world := w |>
    <| pv_conns := <[p := c <| cn_sess_chunk_map := unmap_all ids (cn_sess_chunk_map c) |>]> (pv_conns st) |>).
Proof.
  intros Hi Hc Hg Hreg Hf Hr Howner. pose proof (freed_others st m Hi Hf) as Ho.
  pose proof (conn_nonzero p st Hi) as Hp. destruct Hi as [[I1 I2 I3 I4 I5 I6 I8 I7] Hl].
  pose proof (I3 _ _ Hc) as Hlen. split; [|by eexists; apply lookup_insert_eq]. constructor; cbn -[unmap_all]; try done.
  - rewrite lookup_insert_ne; [done|]. intros ->. congruence.
  - intros q x Hx. destruct (decide (p = q)) as [<-|]; [|rewrite lookup_insert_ne in Hx by done; eauto].
    rewrite lookup_insert_eq in Hx. injection Hx as <-. cbn -[unmap_all].
    by apply (fold_set_at (fun _ => -1) ids _ 0).
  - intros q Hq. rewrite Hreg in Hq. destruct (I4 q Hq) as (x & Hx & Hm). destruct (decide (p = q)) as [<-|].
    + rewrite lookup_insert_eq. eexists. split; [done|]. cbn. congruence.
    + exists x. by rewrite lookup_insert_ne.
  - intros q x Hx Hcl. destruct (decide (p = q)) as [<-|Hne].
    + rewrite lookup_insert_eq in Hx. injection Hx as <-. cbn -[unmap_all] in *.
      destruct (I5 p c Hc Hcl) as [Ha|]; [left|by right]. by eapply agrees_freed.
    + rewrite lookup_insert_ne in Hx by done. by apply Ho.
  - by eapply table_insert.
  - by eapply listeners_insert.
Qed.

Lemma recv_done_keeps st : starts d p st -> safe d (recv_done p) st (fun _ => inv_at p).
Proof.
  intros Hst%starts_inv. pose proof Hst as [Hinv [c Hc]]. unfold recv_done.
  apply safe_bind, (safe_load d _ _ _ c); [done|].
  destruct (released_chunks c) as [l|] eqn:El; [|by repeat kept_step].
  apply released_chunks_marked in El. kept_step; [by repeat kept_step|].
  apply safe_bind. unfold with_manager, safe at 1.
  destruct (is_memory_manager_release _ _ p l IS_MEMORY_RELEASE_PRESSURE) as [[m w] r] eqn:E.
  apply (release_owners B R) in E as (Hg & Hid & Hf & Hok & _);
    [|apply Hinv|rewrite El; apply marked_u32].
  pose proof (registered_identity _ _ Hid) as Hreg. case_bool_decide as Hr; cbn [negb].
  - kept_step; [|by kept_step]. unfold unmap_chunks. apply safe_bind.
    apply (safe_on_conn d _ _ _ _ c); [done|]. cbn [fst snd].
    match goal with |- safe _ _ ?s _ => assert (Hs : inv_at p s) end.
    { pose proof (release_done_keeps st c m w l Hst Hc Hg Hreg Hf ltac:(rewrite El; apply marked_range) (Hok Hr)) as Hd.
      eapply (am_conn _ _ (inv_about_memory B R p)) in Hd;
        [|apply lookup_insert_eq|]; [cbn -[unmap_all] in Hd; rewrite insert_insert_eq in Hd; exact Hd|done]. }
    kept_step; [kept_step|]. kept_step; [by apply (kept_set_conn_state d p _ HJ)|by kept_step].
  - pose proof (release_failed_keeps st m w Hst Hg Hreg Hf) as Hd.
    apply safe_bind. unfold rdma_disconnect, emit, modify, safe at 1. by kept_step.
Qed.

(** ** Admission *)

(** A subscription that succeeds appends one listener, for a context that had
    none. *)
Lemma subscribe_appends r id version context r' :
  is_auth_registry_subscribe r id version context = (r', IS_AUTH_OK) ->
  context <> 0 /\ context ∉ al_context <$> ar_listeners r /\
  r' = r <| ar_listeners := ar_listeners r ++ [{| al_consumer_id := c_string id; al_context := context |}] |>.
Proof.
  unfold is_auth_registry_subscribe. destruct (Z.eqb_spec context 0); [done|].
  case_bool_decide as Hr; cbn [negb]; [|by intros [= _ ?]].
  destruct (existsb _ _) eqn:E; [done|]. intros [= <-]. split_and!; try done.
  intros (l & -> & Hl)%list_elem_of_fmap. apply not_true_iff_false in E. apply E, existsb_exists.
  exists l. split; [by apply list_elem_of_In|apply Z.eqb_refl].
Qed.

Lemma subscribe_refused r id version context r' result :
  is_auth_registry_subscribe r id version context = (r', result) -> result <> IS_AUTH_OK -> r' = r.
Proof.
  unfold is_auth_registry_subscribe. destruct (_ =? 0); [by intros [= <- _]|].
  destruct (negb _); [by intros [= <- _]|]. destruct (existsb _ _); [by intros [= <- _]|by intros [= _ <-]].
Qed.

Lemma unsubscribe_shrinks r context :
  ar_entries (is_auth_registry_unsubscribe r context) = ar_entries r /\
  ar_listeners (is_auth_registry_unsubscribe r context) ⊆+ ar_listeners r.
Proof.
  split; [apply unsubscribe_entries|]. destruct (unsubscribe_listeners r context) as [->|(l & _ & Hp)]; [done|].
  rewrite <- Hp. by apply submseteq_cons.
Qed.

(** Unsubscribing leaves no listener for the context. *)
Lemma unsubscribe_gone r context :
  NoDup (al_context <$> ar_listeners r) -> context <> 0 ->
  context ∉ al_context <$> ar_listeners (is_auth_registry_unsubscribe r context).
Proof.
  intros Hd Hz. destruct (list_find (fun l => al_context l = context) (ar_listeners r)) as [[i x]|] eqn:E.
  - destruct (unsubscribe_listeners r context) as [Hsame|(l & <- & Hp)].
    + exfalso. unfold is_auth_registry_unsubscribe in Hsame. rewrite (proj2 (Z.eqb_neq _ _) Hz), E in Hsame.
      apply list_find_Some in E as (Hi & _ & _). pose proof (lookup_lt_Some _ _ _ Hi) as Hlt.
      destruct (lookup_lt_is_Some_2 (ar_listeners r) (pred (length (ar_listeners r)))) as [y Hy]; [lia|].
      rewrite Hy in Hsame. apply (f_equal (fun r => length (ar_listeners r))) in Hsame. cbn in Hsame.
      rewrite length_take, length_insert in Hsame. lia.
    + apply (Permutation_map al_context) in Hp. cbn in Hp. fold (fmap (M := list) al_context) in Hp.
      rewrite <- Hp in Hd. by apply list.NoDup_cons in Hd as [? _].
  - apply list_find_None in E. rewrite list.Forall_forall in E.
    intros (l & Hc & Hl)%list_elem_of_fmap. destruct (unsubscribe_shrinks r context) as [_ Hs].
    apply (E l); [by eapply elem_of_submseteq|done].
Qed.

(** Withdrawing the subscription just made. *)
Lemma unsubscribe_last r l context :
  al_context l = context -> context <> 0 -> context ∉ al_context <$> ar_listeners r ->
  ar_listeners (is_auth_registry_unsubscribe (r <| ar_listeners := ar_listeners r ++ [l] |>) context) =
  ar_listeners r.
Proof.
  intros <- Hz Hn. unfold is_auth_registry_unsubscribe. rewrite (proj2 (Z.eqb_neq _ _) Hz). cbn.
  assert (E : list_find (fun x => al_context x = al_context l) (ar_listeners r ++ [l]) =
    Some (length (ar_listeners r), l)).
  { apply list_find_app_Some. right. split; [done|]. split.
    - apply list_find_None, list.Forall_forall. intros x Hx E. apply Hn. rewrite <- E. by apply list_elem_of_fmap_2.
    - rewrite Nat.sub_diag. cbn. by rewrite decide_True. }
  rewrite E, length_app. cbn. rewrite Nat.add_1_r. cbn.
  rewrite list_lookup_middle by done. cbn. rewrite insert_app_r_alt by lia.
  by rewrite take_app_length.
Qed.

(** The manager learns of [p], which is then marked as known to it. *)
Lemma connect_keeps st m w c c' :
  starts d p st -> pv_conns st !! p = Some c -> good B R m w -> chunks m = chunks (pv_manager st) ->
  (forall q, q ∈ registered m -> q ∈ registered (pv_manager st) \/ q = p) ->
  (forall q, q ∈ registered m -> q ∉ registered (pv_manager st) -> cn_memory_connected c' = true) ->
  cn_conn_index c' = cn_conn_index c -> cn_sess_chunk_map c' = cn_sess_chunk_map c ->
  cn_closing c' = cn_closing c ->
  (cn_memory_connected c = true -> cn_memory_connected c' = true) ->
  (cn_auth_subscribed c = true -> cn_auth_subscribed c' = true) ->
  starts d p (st <| pv_manager := m |> <| pv_world := w |> <| pv_conns := <[p := c']> (pv_conns st) |>).
Proof.
  intros Hst Hc Hg Hcs Hreg Hnew E0 E1 E2 E3 E4.
  assert (Ho : forall q map, agrees (pv_manager st) q map -> agrees m q map).
  { intros q map. apply agrees_ext. intros k. unfold chunk_owner. by rewrite Hcs. }
  assert (Hi : inv_at p (st <| pv_manager := m |> <| pv_world := w |> <| pv_conns := <[p := c']> (pv_conns st) |>)).
  { pose proof (starts_inv _ _ _ Hst) as [[I1 I2 I3 I4 I5 I6 I8 I7] Hl].
    split; [|by eexists; apply lookup_insert_eq]. constructor; cbn; try done.
    - rewrite lookup_insert_ne; [done|]. intros ->. congruence.
    - intros q x Hx. destruct (decide (p = q)) as [<-|]; [|rewrite lookup_insert_ne in Hx by done; eauto].
      rewrite lookup_insert_eq in Hx. injection Hx as <-. rewrite E1. eauto.
    - intros q Hq. destruct (decide (p = q)) as [<-|Hne].
      + rewrite lookup_insert_eq. exists c'. split; [done|].
        destruct (decide (p ∈ registered (pv_manager st))) as [Hin|Hin]; [|by eapply Hnew].
        apply E3. destruct (I4 _ Hin) as (x & Hx & Hm). congruence.
      + rewrite lookup_insert_ne by done. destruct (Hreg q Hq) as [Hin| ->]; [by apply I4|done].
    - intros q x Hx Hcl. destruct (decide (p = q)) as [<-|Hne].
      + rewrite lookup_insert_eq in Hx. injection Hx as <-. rewrite E1. rewrite E2 in Hcl.
        destruct (I5 p c Hc Hcl); [left; by apply Ho|by right].
      + rewrite lookup_insert_ne in Hx by done. destruct (I5 q x Hx Hcl); [left; by apply Ho|by right].
    - by eapply table_insert.
    - by eapply listeners_insert. }
  destruct d; [done|]. split; [done|]. cbn. intros x. rewrite lookup_insert_eq. intros [= <-].
  rewrite E1. destruct Hst as [_ Ha]. by apply Ho, Ha.
Qed.

Lemma admit_connect st id a b e c m w r reason :
  starts d p st -> is_u32 a -> is_u32 b -> is_u32 e -> pv_conns st !! p = Some c ->
  is_memory_manager_connect (pv_manager st) (pv_world st) id p a b e = (m, w, r, reason) ->
  let st' := st <| pv_manager := m |> <| pv_world := w |> in
  (r <> IS_MEMORY_OK -> starts d p st') /\
  (r = IS_MEMORY_OK -> starts d p (st' <| pv_conns :=
     <[p := c <| cn_auth_subscribed := true |> <| cn_memory_connected := true |>]> (pv_conns st') |>)).
Proof.
  intros Hst Ha Hb He Hc Hrun st'. pose proof (starts_inv _ _ _ Hst) as [Hinv _].
  pose proof (connect_good B R _ _ _ _ _ _ _ _ _ _ _ (pi_good _ _ _ Hinv) Ha Hb He Hrun) as (Hg & Hcs & Hok & Hno).
  split; intros Hr.
  - assert (Hreg : registered m = registered (pv_manager st)) by (unfold registered; by rewrite (Hno Hr)).
    pose proof (connect_keeps st m w c c Hst Hc Hg Hcs) as Hk. rewrite insert_id in Hk by done.
    destruct st. apply Hk; try done; rewrite Hreg; auto; done.
  - destruct (Hok Hr) as (Hconn & _ & _).
    assert (Hreg : forall q, q ∈ registered m -> q ∈ registered (pv_manager st) \/ q = p).
    { intros q. unfold registered. rewrite Hconn. cbn. rewrite fmap_app, elem_of_app. cbn.
      rewrite list_elem_of_singleton. done. }
    by apply (connect_keeps st m w c
      (c <| cn_auth_subscribed := true |> <| cn_memory_connected := true |>) Hst Hc Hg Hcs Hreg).
Qed.

(** Once the connection knows it has subscribed, its listener may be there. *)
Lemma subscribed_keeps st c r l :
  starts d p st -> pv_conns st !! p = Some c -> cn_auth_subscribed c = true ->
  ar_entries r = ar_entries (pv_registry st) -> al_context l = p ->
  p ∉ al_context <$> ar_listeners (pv_registry st) ->
  ar_listeners r = ar_listeners (pv_registry st) ++ [l] ->
  starts d p (st <| pv_registry := r |>).
Proof.
  intros Hst Hc Hs He Hl Hn Hr.
  assert (Hi : inv_at p (st <| pv_registry := r |>)).
  { pose proof (starts_inv _ _ _ Hst) as [[I1 I2 I3 I4 I5 I6 I8 I7] Hlive]. split; [|done].
    constructor; cbn; try done.
    - destruct I8 as [L1 L2]. split.
      + rewrite Hr, fmap_app, list.NoDup_app. split_and!; [done| |apply NoDup_singleton].
        intros x Hx Hin. apply list_elem_of_singleton in Hin as ->. by rewrite Hl in Hx.
      + intros x. rewrite Hr, elem_of_app, list_elem_of_singleton. intros [Hx| ->]; [by apply L2|]. rewrite Hl. eauto.
    - by rewrite He. }
  destruct d; [done|]. by destruct Hst.
Qed.

(** The admission once the registry has accepted the subscription. *)
Lemma admitted_keeps st r id version :
  starts d p st -> is_auth_registry_subscribe (pv_registry st) id version p = (r, IS_AUTH_OK) ->
  forall (limits : is_auth_result + Z * Z * Z),
  limits = is_auth_registry_get_limits r id ->
  safe d (connected ←
      match limits with
      | inl _ => mret false
      | inr (max_connections, max_opportunistic_chunks, max_committed_chunks) =>
          with_manager (fun m w =>
            let '(m, w, result, _) :=
              is_memory_manager_connect m w (c_string id) p max_connections
                max_opportunistic_chunks max_committed_chunks in
            (m, w, bool_decide (result = IS_MEMORY_OK)))
      end;
    if negb connected then
      with_registry (fun r => (is_auth_registry_unsubscribe r p, tt));;
      rdma_disconnect p;; mret false
    else
      set_conn p (fun c => c <| cn_auth_subscribed := true |> <| cn_memory_connected := true |>);;
      clock ← ask clock_monotonic;
      started ← on_conn p (start_connection_liveness clock);
      if negb (started =? 0) then rdma_disconnect p;; mret false else mret true)
    (st <| pv_registry := r |>) (fun _ => starts d p).
Proof.
  intros Hst Hsub limits ->. apply subscribe_appends in Hsub as (Hz & Hn & Hr).
  set (l := {| al_consumer_id := c_string id; al_context := p |}) in *.
  assert (He : ar_entries r = ar_entries (pv_registry st)) by (by rewrite Hr).
  assert (Hno : forall st', starts d p st' -> pv_registry st' = pv_registry st -> safe d
    (with_registry (fun r => (is_auth_registry_unsubscribe r p, tt));; rdma_disconnect p;; mret false)
    (st' <| pv_registry := r |>) (fun _ => starts d p)).
  { intros st' Hst' Er. apply safe_bind. unfold with_registry, safe at 1. cbn [pv_registry update].
    apply (ak_registry _ _ HI st' (is_auth_registry_unsubscribe r p)) in Hst'; [by repeat kept_step|..]; rewrite Er.
    - destruct (unsubscribe_shrinks r p) as [-> _]. done.
    - by rewrite Hr, (unsubscribe_last _ l p). }
  destruct (is_auth_registry_get_limits r id) as [e|[[l1 l2] l3]] eqn:El; [by apply safe_bind, Hno|].
  pose proof (starts_inv _ _ _ Hst) as [Hinv [c Hc]].
  destruct (get_limits_range r id l1 l2 l3) as (U1 & U2 & U3); [rewrite He; apply Hinv|done|].
  apply safe_bind. unfold with_manager, safe at 1. cbn [pv_manager pv_world update].
  destruct (is_memory_manager_connect _ _ _ p l1 l2 l3) as [[[m w] res] reason] eqn:E.
  destruct (admit_connect st _ l1 l2 l3 c m w res reason Hst U1 U2 U3 Hc E) as [Hbad Hgood].
  case_bool_decide as Hres; cbn [negb].
  - apply safe_bind, (safe_on_conn d _ _ _ _ c); [done|]. cbn [fst snd]. specialize (Hgood Hres). cbv zeta in Hgood.
    apply (subscribed_keeps _ (c <| cn_auth_subscribed := true |> <| cn_memory_connected := true |>) r l)
      in Hgood; [|apply lookup_insert_eq|done|done|done|done|by rewrite Hr].
    match goal with |- safe _ _ ?s _ => assert (Hs : starts d p s) by exact Hgood end.
    kept_step; [apply (kept_ask d p _ HI); [done|apply clock_quiet]|].
    kept_step; [kept_step; intros x; apply kept_start_liveness|]. repeat kept_step.
  - exact (Hno _ (Hbad Hres) eq_refl).
Qed.

Lemma admit_consumer_keeps st : starts d p st -> safe d (admit_consumer p) st (fun _ => starts d p).
Proof.
  intros Hst. unfold admit_consumer. kept_step; [kept_step|]. apply safe_bind.
  match goal with Hs : starts d p ?s |- safe _ _ ?s _ => rename s into st1; rename Hs into Hst1 end.
  unfold with_registry at 1, safe at 1.
  destruct (is_auth_registry_subscribe _ _ _ _) as [r result] eqn:E. case_bool_decide as Hr; cbn [negb].
  - subst result. apply safe_bind. unfold gets, safe at 1. exact (admitted_keeps st1 r _ _ Hst1 E _ eq_refl).
  - apply subscribe_refused in E; [|done]. subst r.
    assert (Hst2 : starts d p (st1 <| pv_registry := pv_registry st1 |>)) by (by destruct st1).
    repeat kept_step.
Qed.

(** ** Granting chunks *)

(** Other threads may run while an answer waits for the connection. *)
Context (meanwhile : provider W -> provider W).
Context (Hwait : forall st, inv_at p st -> inv_at p (meanwhile st)).

Lemma submit_keeps frame size close repost st :
  inv_at p st -> safe d (submit_encoded_message meanwhile p frame size close repost) st (fun _ => inv_at p).
Proof. by apply (submit_memory meanwhile d p (inv_at p) (inv_about_memory B R p)). Qed.

Lemma send_mr_keeps size st : starts d p st -> safe d (send_mr meanwhile p size) st (fun _ => inv_at p).
Proof.
  intros Hst. unfold send_mr. apply (kept_then d (starts d p)); [kept_step|]. intros _ st1 Hst1.
  apply (kept_then d (starts d p)); [kept_step|]. intros c st2 Hst2.
  apply (kept_then d (starts d p)); [kept_step|]. intros pd st3 Hst3. apply safe_bind.
  unfold acquire_chunks, with_manager, safe at 1.
  pose proof (wrap_in_u 32 size ltac:(lia)) as [Hu _].
  destruct (acquire_granting d p st3 (cn_requested_pool c) (u32 size) pd MAX_MR_SIZE_GB Hst3 Hu) as [Hgr Hno].
  set (o := is_memory_manager_acquire _ _ _ _ _ _ _) in *. cbn [fst snd].
  case_bool_decide as Hr; cbn [negb].
  - apply safe_bind. eapply safe_mono; [|by apply granting_loop]. intros ? st4 Hst4%granting_done. cbv beta.
    kept_step; [by kept_step|]. kept_step; [by apply (kept_set_conn_state d p _ HJ)|]. kept_step; [by kept_step|].
    apply (send_message_kept meanwhile d p (inv_at p) (inv_at p)); auto using submit_keeps.
  - apply (send_protocol_error_kept meanwhile d p (inv_at p) (inv_at p)); auto using submit_keeps.
    by eapply starts_inv, Hno.
Qed.
End Requests.
