(* ===== verification/ProviderGrant.v ===== *)
(** * The answer to a request for chunks

    What [send_mr] maps and puts into the CHUNK_GRANT is what the memory
    manager granted. *)
From S2P Require Import Prelude Protocol ProtocolWire ProtocolRoundtrip Text Auth ProviderSession Liveness MemoryManager MemoryManagerInv MemoryManagerConn MemoryManagerAssign MemoryManagerOps MemoryManagerSpec.
From S2P Require Import ProviderConnection ProviderDaemon ProviderFrames ProviderExchange ProviderLogic ProviderMemory ProviderRequests.

(** ** The registrations granted *)

Section Registrations.
Context {W : Type} `{MemoryAdapters W} (P : Z -> Prop).
Context (Hregister : forall reg a w w' r, register_chunk reg a w = (w', r) -> r <> 0 -> P r).

Lemma register_pending_all w ps reg w' ps' :
  register_pending w ps reg = (w', ps', None) -> Forall (fun p => P (p_registration p)) ps'.
Proof.
  revert w w' ps'. induction ps as [|p ps IH]; intros w w' ps'; cbn; [by intros [= <- <-]|].
  destruct (register_chunk reg (p_address p) w) as [w1 r] eqn:E. destruct (Z.eqb_spec r 0); [done|].
  destruct (register_pending w1 ps reg) as [[w2 ps2] stop] eqn:E2. intros [= <- <- ->].
  constructor; [|by eapply IH]. cbn. by eapply Hregister.
Qed.

Lemma assign_all_registrations m ps requested own reg :
  grant_registration <$> (assign_all m ps requested own reg).2 = p_registration <$> ps.
Proof.
  revert m. induction ps as [|p ps IH]; intros m; cbn [assign_all]; [done|].
  destruct (assign_pending m p requested own reg) as [m1 g] eqn:E. specialize (IH m1).
  destruct (assign_all m1 ps requested own reg) as [m2 gs]. cbn in *. rewrite IH. f_equal.
  unfold assign_pending in E. by injection E as _ <-.
Qed.

Lemma acquire_rollback_grants m w ps requested reg stop :
  out_grants (acquire_rollback m w ps requested reg stop) = [].
Proof. unfold acquire_rollback. destruct (rollback_pending _ _ _ _ _) as [[m' w'] []]; done. Qed.

Lemma acquire_registrations m w own requested n reg capacity :
  let o := is_memory_manager_acquire m w own requested n reg capacity in
  Forall (fun g => P (grant_registration g)) (out_grants o) /\
  (out_result o = IS_MEMORY_OK -> pool_ok requested /\ n <> 0).
Proof.
  unfold is_memory_manager_acquire. destruct (_ || _ || _) eqn:En; [split; [constructor|done]|].
  destruct (heap w) as [w1 ok]. destruct (negb ok); [split; [constructor|done]|].
  destruct (find_connection m own); [|split; [constructor|done]].
  destruct (connections m !! _); [|split; [constructor|done]].
  destruct (validate_acquire_locked _ _ _ _) as [[r reason]|] eqn:Ev; cbv zeta.
  { split; [constructor|]. cbn. intros ->. unfold validate_acquire_locked in Ev.
    destruct (assignments_for_consumer _ _). repeat (case_match; try done). }
  assert (Hok : pool_ok requested /\ n <> 0).
  { split; [|rewrite !orb_false_iff in En; lia]. unfold validate_acquire_locked in Ev.
    destruct (assignments_for_consumer _ _). unfold pool_ok.
    destruct (Z.eqb_spec requested IS_MEMORY_POOL_OPPORTUNISTIC); [by left|].
    destruct (Z.eqb_spec requested IS_MEMORY_POOL_COMMITTED); [by right|done]. }
  split; [|done]. unfold acquire_selected. destruct (negb _); [constructor|]. destruct (pool_limit_exceeded _ _ _); [constructor|].
  assert (Hp : forall w ps c, Forall (fun g => P (grant_registration g)) (out_grants (acquire_pending m w c ps requested own reg n))).
  { intros w2 ps c. unfold acquire_pending. destruct (allocate_pending w2 ps) as [[w3 ps3] [stop|]];
      [rewrite acquire_rollback_grants; constructor|].
    destruct (register_pending w3 ps3 reg) as [[w4 ps4] [stop|]] eqn:Er; [rewrite acquire_rollback_grants; constructor|].
    pose proof (assign_all_registrations m ps4 requested own reg) as Ha.
    destruct (assign_all m ps4 requested own reg) as [m5 gs]. cbn in *. apply register_pending_all in Er.
    apply (list.Forall_fmap grant_registration). rewrite Ha. by apply list.Forall_fmap. }
  destruct (negb _); [|apply Hp]. destruct (read_available_bytes w1) as [w2 [st bytes]].
  destruct (negb (st =? 0)); [constructor|]. case_match; [constructor|apply Hp].
Qed.
End Registrations.

(** ** Mapping the grants *)

Section Mapping.
Context {W : Type} `{Platform W}.

Definition map_granted (c : connection) (grants : list is_memory_grant) : connection :=
  fold_left (fun c g =>
    let m := cn_send_message c in
    c <| cn_sess_chunk_map := set_at (cn_sess_chunk_map c) (provider_chunk_id g) (provider_chunk_id g) |>
      <| cn_send_message :=
           m <| cm_buf := set_at (cm_buf m) (provider_chunk_id g) (u64 (mr_addr (grant_registration g))) |>
             <| cm_rkey := set_at (cm_rkey m) (provider_chunk_id g) (mr_rkey (grant_registration g)) |> |>)
    grants c.

Lemma map_grants_run p grants c st :
  pv_conns st !! p = Some c -> length (cn_sess_chunk_map c) = 128%nat ->
  NoDup (provider_chunk_id <$> grants) -> Forall (fun i => 0 <= i < 128) (provider_chunk_id <$> grants) ->
  (forall i, i ∈ provider_chunk_id <$> grants -> byte_at (cn_sess_chunk_map c) i = -1) ->
  for_each grants (map_grant p) st =
    Returns tt (st <| pv_conns := <[p := map_granted c grants]> (pv_conns st) |>).
Proof.
  revert c st. induction grants as [|g grants IH]; intros c st Hc Hl Hd Hr Hf.
  { cbn. rewrite insert_id by done. by destruct st. }
  cbn [fmap list_fmap] in *. apply list.NoDup_cons in Hd as [Hn Hd]. apply list.Forall_cons in Hr as [Hg Hr].
  cbn [for_each]. unfold mbind, handler_bind at 1, map_grant at 1, mbind, handler_bind at 1, load. rewrite Hc.
  rewrite (Hf (provider_chunk_id g)) by (by left). unfold MAX_MR_SIZE_GB.
  replace (128 <=? provider_chunk_id g) with false by lia. cbn [orb negb Z.eqb Pos.eqb]. unfold store at 1. rewrite Hc.
  set (c1 := c <| cn_sess_chunk_map := _ |> <| cn_send_message := _ |>).
  rewrite (IH c1); [cbn; by rewrite insert_insert_eq|apply lookup_insert_eq|by cbn; rewrite length_set_at|done|done|].
  intros i Hi. cbn -[byte_at set_at]. rewrite list.Forall_forall in Hr. specialize (Hr i Hi).
  rewrite byte_at_set_at by lia. rewrite decide_False by (intros E; by rewrite E in Hn). apply Hf. by right.
Qed.

(** The array that [f] of each grant is written to. *)
Lemma granted_array (f : is_memory_grant -> Z) grants l :
  length l = 128%nat -> NoDup (provider_chunk_id <$> grants) ->
  Forall (fun i => 0 <= i < 128) (provider_chunk_id <$> grants) ->
  let l' := fold_left (fun l g => set_at l (provider_chunk_id g) (f g)) grants l in
  length l' = 128%nat /\
  (forall g, g ∈ grants -> byte_at l' (provider_chunk_id g) = f g) /\
  (forall i, 0 <= i -> i ∉ provider_chunk_id <$> grants -> byte_at l' i = byte_at l i).
Proof.
  revert l. induction grants as [|g grants IH]; intros l Hl Hd Hr; cbn [fold_left fmap list_fmap] in *.
  { split_and!; [done| |done]. intros g Hg. by apply elem_of_nil in Hg. }
  apply list.NoDup_cons in Hd as [Hn Hd]. apply list.Forall_cons in Hr as [Hg Hr].
  destruct (IH (set_at l (provider_chunk_id g) (f g))) as (L1 & L2 & L3); [by rewrite length_set_at|done|done|].
  split_and!; [done| |].
  - intros x [->|Hx]%elem_of_cons; [|by apply L2]. rewrite L3 by (done || lia).
    rewrite byte_at_set_at by lia. by rewrite decide_True.
  - intros i Hi Hni. rewrite not_elem_of_cons in Hni. destruct Hni as [Hne Hni]. rewrite L3 by done.
    rewrite byte_at_set_at by lia. by rewrite decide_False by congruence.
Qed.

Lemma map_granted_message c grants :
  let m := cn_send_message (map_granted c grants) in
  cm_buf m = fold_left (fun l g => set_at l (provider_chunk_id g) (u64 (mr_addr (grant_registration g)))) grants (cm_buf (cn_send_message c)) /\
  cm_rkey m = fold_left (fun l g => set_at l (provider_chunk_id g) (mr_rkey (grant_registration g))) grants (cm_rkey (cn_send_message c)).
Proof.
  unfold map_granted. revert c. induction grants as [|g grants IH]; intros c; cbn [fold_left]; [done|]. apply IH.
Qed.
End Mapping.

(** ** The CHUNK_GRANT *)

(** The entries for the chunks [l] with the addresses and keys of [m]. *)
Definition grant_entry (c : connection) (i : nat) (id : Z) : is_protocol_chunk :=
  {| chunk_logical_chunk_id := u32 (cn_requested_logical_start c + Z.of_nat i);
     chunk_provider_chunk_id := id;
     chunk_remote_address := byte_at (cm_buf (cn_send_message c)) id;
     chunk_remote_key := byte_at (cm_rkey (cn_send_message c)) id;
     chunk_pool := cn_requested_pool c |}.

Definition granted_entries (c : connection) : list is_protocol_chunk :=
  imap (grant_entry c) (marked (cm_rkey (cn_send_message c))).

Lemma set_at_padded {A} (l : list A) n x d :
  (length l < n)%nat ->
  set_at (l ++ replicate (n - length l) d) (Z.of_nat (length l)) x =
    (l ++ [x]) ++ replicate (n - length (l ++ [x])) d.
Proof.
  intros Hn. unfold set_at. rewrite Nat2Z.id, insert_app_r_alt, Nat.sub_diag by lia.
  rewrite length_app. cbn [length]. replace (n - length l)%nat with (S (n - (length l + 1))) by lia.
  cbn. by rewrite <- app_assoc.
Qed.

Lemma length_granted_entries c : length (granted_entries c) = length (marked (cm_rkey (cn_send_message c))).
Proof. apply length_imap. Qed.

Lemma grant_entries_spec c :
  grant_entries c =
    inr (Z.of_nat (length (granted_entries c)),
         granted_entries c ++ replicate (128 - length (granted_entries c)) zero_chunk).
Proof.
  set (q := fun i => negb (byte_at (cm_rkey (cn_send_message c)) i =? 0)).
  set (f := fun j : Z =>
    let l := imap (grant_entry c) (chunks_below (Z.to_nat j) q) in
    (Z.of_nat (length l), l ++ replicate (128 - length l) zero_chunk)).
  change (inr _) with (@inr unit _ (f 128)). unfold grant_entries.
  change (0, zero_chunks) with (f 0). unfold MAX_MR_SIZE_GB. apply for_err_run; [lia|].
  intros j Hj. unfold f at 1. cbv beta zeta.
  assert (E : f (j + 1) = let l := imap (grant_entry c) (chunks_below (S (Z.to_nat j)) q) in
    (Z.of_nat (length l), l ++ replicate (128 - length l) zero_chunk)).
  { unfold f. by replace (Z.to_nat (j + 1)) with (S (Z.to_nat j)) by lia. }
  rewrite E. cbv zeta. rewrite chunks_below_S, Z2Nat.id by lia.
  pose proof (length_chunks_below (Z.to_nat j) q) as Hl.
  assert (Eq : q j = negb (byte_at (cm_rkey (cn_send_message c)) j =? 0)) by done. rewrite Eq.
  destruct (byte_at (cm_rkey (cn_send_message c)) j =? 0) eqn:Ej; cbn [negb]; [by rewrite app_nil_r|].
  rewrite imap_app.
  rewrite length_imap. unfold IS_PROTOCOL_MAX_CHUNKS_PER_FRAME. replace (_ =? 128) with false by lia.
  cbn [imap]. set (l := imap (grant_entry c) (chunks_below (Z.to_nat j) q)).
  assert (Hll : length l = length (chunks_below (Z.to_nat j) q)) by apply length_imap. rewrite <- Hll.
  rewrite set_at_padded by lia. unfold grant_entry at 1, compose. rewrite Nat.add_0_r.
  do 2 f_equal. rewrite length_app. cbn. lia.
Qed.

Definition response_header (c : connection) (type : Z) : is_protocol_header :=
  {| hdr_major := IS_PROTOCOL_MAJOR;
     hdr_minor := ps_negotiated_minor (cn_protocol_session c);
     hdr_type := type; hdr_flags := IS_PROTOCOL_FLAG_RESPONSE;
     hdr_request_id := cn_active_request_id c;
     hdr_session_id := ps_session_id (cn_protocol_session c);
     hdr_capabilities := ps_negotiated_capabilities (cn_protocol_session c);
     hdr_required_capabilities := ps_required_capabilities (cn_protocol_session c) |}.

Definition grant_payload (entries : list is_protocol_chunk) : is_protocol_payload :=
  payload_chunk_grant {|
    grant_chunk_count := Z.of_nat (length entries);
    grant_chunks := entries ++ replicate (128 - length entries) zero_chunk |}.

(** What the CHUNK_GRANT needs of the request and of the message. *)
Record grantable `{ProtocolBuild} (c : connection) : Prop := {
  gb_speaking : speaking c;
  gb_request : 0 < cn_active_request_id c < 2 ^ 64;
  gb_start : 0 <= cn_requested_logical_start c;
  gb_range : cn_requested_logical_start c + Z.of_nat (length (marked (cm_rkey (cn_send_message c)))) <= 2 ^ 32;
  gb_pool : pool_ok (cn_requested_pool c);
  gb_some : marked (cm_rkey (cn_send_message c)) <> [];
  gb_entries : forall id, id ∈ marked (cm_rkey (cn_send_message c)) ->
    0 < byte_at (cm_buf (cn_send_message c)) id < 2 ^ 64 /\ 0 < byte_at (cm_rkey (cn_send_message c)) id < 2 ^ 32
}.

Section Frame.
Context `{ProtocolBuild} (c : connection) (Hc : grantable c).

Let l := marked (cm_rkey (cn_send_message c)).

Lemma response_header_valid :
  is_validate_header (response_header c IS_PROTOCOL_MSG_CHUNK_GRANT) = inr tt /\
  wf_header (response_header c IS_PROTOCOL_MSG_CHUNK_GRANT).
Proof.
  destruct Hc as [[S1 S2 S3 S4 S5 S6 S7 S8] Hr _ _ _ _ _]. split.
  - unfold is_validate_header, response_header. cbn [hdr_major hdr_minor hdr_type hdr_flags
      hdr_request_id hdr_session_id hdr_capabilities hdr_required_capabilities].
    rewrite S1, S6, S7.
    replace (cn_active_request_id c =? 0) with false by lia.
    by replace (ps_session_id (cn_protocol_session c) =? 0) with false by lia.
  - unfold wf_header, response_header. cbn. unfold in_u in *.
    unfold IS_PROTOCOL_MAJOR, IS_PROTOCOL_MSG_CHUNK_GRANT, IS_PROTOCOL_FLAG_RESPONSE. change (1 ≪ 0) with 1. split_and!; pow_lia.
Qed.

Lemma marked_small : (length l <= 128)%nat.
Proof. apply length_chunks_below. Qed.

(** The entry at an index of the list. *)
Lemma entry_at i : 0 <= i < Z.of_nat (length l) ->
  exists id, l !! Z.to_nat i = Some id /\
    chunk_at (granted_entries c ++ replicate (128 - length (granted_entries c)) zero_chunk) i =
      {| chunk_logical_chunk_id := cn_requested_logical_start c + i; chunk_provider_chunk_id := id;
         chunk_remote_address := byte_at (cm_buf (cn_send_message c)) id;
         chunk_remote_key := byte_at (cm_rkey (cn_send_message c)) id; chunk_pool := cn_requested_pool c |}.
Proof.
  intros Hi. destruct (lookup_lt_is_Some_2 l (Z.to_nat i)) as [id Hid]; [lia|]. exists id. split; [done|].
  unfold chunk_at. rewrite app_nth1 by (rewrite length_granted_entries; fold l; lia).
  unfold granted_entries. fold l. rewrite (nth_lookup_Some _ _ zero_chunk (grant_entry c (Z.to_nat i) id)).
  - unfold grant_entry. f_equal. rewrite Z2Nat.id by lia. apply wrap_small. pose proof (gb_range c Hc). pose proof (gb_start c Hc).
    fold l in H0. unfold in_u. lia.
  - by rewrite list_lookup_imap, Hid.
Qed.

Lemma entry_wf : Forall wf_chunk (granted_entries c).
Proof.
  apply list.Forall_forall. intros e He. apply list_elem_of_lookup in He as [i Hi].
  unfold granted_entries in Hi. fold l in Hi. rewrite list_lookup_imap in Hi. destruct (l !! i) as [id|] eqn:Ei; [|done].
  injection Hi as <-. apply list_elem_of_lookup_2 in Ei. destruct (gb_entries c Hc id Ei) as [Ha Hk].
  apply elem_of_chunks_below in Ei as [Hid _]. unfold wf_chunk, grant_entry. cbn -[byte_at Z.pow].
  pose proof (wrap_in_u 32 (cn_requested_logical_start c + Z.of_nat i) ltac:(lia)).
  split_and!; [done| | | |]; unfold in_u; try pow_lia. by destruct (gb_pool c Hc) as [-> | ->].
Qed.

Lemma grant_wf : wf_payload (grant_payload (granted_entries c)).
Proof.
  pose proof marked_small as Hs. unfold l in Hs. rewrite <- (length_granted_entries c) in Hs.
  unfold grant_payload. cbn [wf_payload grant_chunk_count grant_chunks]. split_and!.
  - unfold in_u. pow_lia.
  - rewrite length_app, length_replicate. lia.
  - apply list.Forall_app. split; [apply entry_wf|]. apply list.Forall_replicate, wf_zero_chunk.
Qed.

Lemma entries_length : length (granted_entries c) = length l.
Proof. apply length_granted_entries. Qed.

Lemma grant_distinct :
  exists_below (Z.of_nat (length (granted_entries c))) (fun index =>
    negb (chunk_entry_valid (chunk_at (granted_entries c ++ replicate (128 - length (granted_entries c)) zero_chunk) index)) ||
    chunk_seen (granted_entries c ++ replicate (128 - length (granted_entries c)) zero_chunk) index) = false.
Proof.
  rewrite entries_length at 1. apply exists_below_false. intros i Hi. apply orb_false_iff.
  destruct (entry_at i Hi) as (id & Hid & ->). split.
  - apply negb_false_iff. unfold chunk_entry_valid. cbn [chunk_pool chunk_remote_address chunk_remote_key].
    destruct (gb_entries c Hc id) as [Ha Hk]; [by eapply list_elem_of_lookup_2|].
    replace (_ =? 0) with false by lia. replace (_ =? 0) with false by lia.
    by destruct (gb_pool c Hc) as [-> | ->].
  - apply exists_below_false. intros j Hj. destruct (entry_at j ltac:(lia)) as (id' & Hid' & ->).
    destruct (entry_at i Hi) as (id2 & Hid2 & ->). rewrite Hid in Hid2. injection Hid2 as <-.
    cbn [chunk_logical_chunk_id chunk_provider_chunk_id]. apply orb_false_iff. split; [lia|].
    apply Z.eqb_neq. intros ->. pose proof (NoDup_lookup l _ _ _ (chunks_below_NoDup _ _) Hid Hid'). lia.
Qed.

Lemma grant_size :
  is_payload_size {| msg_header := response_header c IS_PROTOCOL_MSG_CHUNK_GRANT;
                     msg_payload := grant_payload (granted_entries c) |} =
    inr (4 + 24 * Z.of_nat (length l), 0, 0).
Proof.
  unfold is_payload_size, grant_payload. cbn [msg_header msg_payload get_chunk_grant grant_chunk_count grant_chunks
    hdr_type response_header].
  rewrite grant_distinct, entries_length.
  assert (Hn : is_validate_chunk_count (Z.of_nat (length l)) = inr tt).
  { unfold is_validate_chunk_count, IS_PROTOCOL_MAX_CHUNKS_PER_FRAME. pose proof marked_small. pose proof (gb_some c Hc) as Hne.
    fold l in Hne. destruct (Z.eqb_spec (Z.of_nat (length l)) 0) as [E|E]; [by destruct l|].
    by replace (Z.of_nat (length l) >? 128) with false by lia. }
  by rewrite Hn.
Qed.

(** The frame carries the entries. *)
Lemma grant_frame buf :
  cm_type (cn_send_message c) = CONTROL_INFO -> length buf = 4096%nat ->
  exists frame size,
    encode_control_message c buf = (c, inr (frame, size)) /\
    is_protocol_decode (Some (buf_read frame 0 size)) size =
      inr {| msg_header := response_header c IS_PROTOCOL_MSG_CHUNK_GRANT;
             msg_payload := grant_payload (granted_entries c) |}.
Proof.
  intros Ht Hbuf. destruct response_header_valid as [Hv Hw]. pose proof marked_small as Hs.
  destruct (outbound_frame c (response_header c IS_PROTOCOL_MSG_CHUNK_GRANT) (grant_payload (granted_entries c))
    (4 + 24 * Z.of_nat (length l)) 0 0 buf) as (frame & size & He & _ & _ & Hd); [done| |apply grant_size|lia| |done|].
  - split_and!; [done|apply grant_wf|done].
  - unfold grant_payload. cbn [canonical_payload grant_chunk_count grant_chunks]. do 2 f_equal. unfold canonical_array. by rewrite Nat2Z.id, take_app_length.
  - exists frame, size. refine (conj _ Hd). unfold encode_control_message. rewrite Ht.
    cbn [CONTROL_INFO CONTROL_FREE_SIZE Z.eqb Pos.eqb]. unfold init_outbound_message. cbn [negb andb].
    rewrite grant_entries_spec.
    assert (E : u16 (Z.of_nat (length (granted_entries c))) = Z.of_nat (length (granted_entries c))).
    { apply wrap_small. rewrite entries_length. unfold in_u. pow_lia. }
    rewrite E. exact He.
Qed.
End Frame.

(** ** The whole answer *)

Section Answer.
Context {W : Type} `{PlatformLaws W} `{ProtocolBuild} `{Mac}.

(** The connection when the CHUNK_GRANT is built. *)
Definition granted_connection (c : connection) (n : Z) (grants : list is_memory_grant) : connection :=
  let c := map_granted (c <| cn_send_message := zero_control_message |>) grants in
  let c := c <| cn_mapped_chunk_size := cn_mapped_chunk_size c + n |> in
  c <| cn_send_message := (cn_send_message c) <| cm_size_gb := n |> <| cm_type := CONTROL_INFO |> |>.

Lemma map_granted_rest c grants :
  let c' := map_granted c grants in
  cn_protocol_session c' = cn_protocol_session c /\ cn_next_provider_request_id c' = cn_next_provider_request_id c /\
  cn_active_request_id c' = cn_active_request_id c /\
  cn_requested_logical_start c' = cn_requested_logical_start c /\ cn_requested_pool c' = cn_requested_pool c.
Proof.
  unfold map_granted. revert c. induction grants as [|g grants IH]; intros c; cbn [fold_left]; [done|].
  destruct (IH (c <| cn_sess_chunk_map := set_at (cn_sess_chunk_map c) (provider_chunk_id g) (provider_chunk_id g) |>
      <| cn_send_message :=
           (cn_send_message c) <| cm_buf := set_at (cm_buf (cn_send_message c)) (provider_chunk_id g) (u64 (mr_addr (grant_registration g))) |>
             <| cm_rkey := set_at (cm_rkey (cn_send_message c)) (provider_chunk_id g) (mr_rkey (grant_registration g)) |> |>))
    as (H1' & H2' & H3' & H4' & H5').
  cbn -[set_at fold_left] in *. by rewrite H1', H2', H3', H4', H5'.
Qed.

Lemma granted_rest c n grants :
  let c' := granted_connection c n grants in
  cn_protocol_session c' = cn_protocol_session c /\ cn_next_provider_request_id c' = cn_next_provider_request_id c /\
  cn_active_request_id c' = cn_active_request_id c /\
  cn_requested_logical_start c' = cn_requested_logical_start c /\ cn_requested_pool c' = cn_requested_pool c.
Proof. exact (map_granted_rest (c <| cn_send_message := zero_control_message |>) grants). Qed.

(** The grants are of distinct chunks with regions the protocol can name. *)
Record grants_ok (grants : list is_memory_grant) : Prop := {
  cg_distinct : NoDup (provider_chunk_id <$> grants);
  cg_range : Forall (fun i => 0 <= i < 128) (provider_chunk_id <$> grants);
  cg_regions : Forall (fun g => 0 < mr_addr (grant_registration g) < 2 ^ 64 /\
    0 < mr_rkey (grant_registration g) < 2 ^ 32) grants
}.

(** The chunks of the message are those granted, with their regions. *)
Lemma granted_message c n grants :
  grants_ok grants ->
  let c' := granted_connection c n grants in
  marked (cm_rkey (cn_send_message c')) ≡ₚ provider_chunk_id <$> grants /\
  forall g, g ∈ grants ->
    byte_at (cm_buf (cn_send_message c')) (provider_chunk_id g) = mr_addr (grant_registration g) /\
    byte_at (cm_rkey (cn_send_message c')) (provider_chunk_id g) = mr_rkey (grant_registration g).
Proof.
  intros [Hd Hr Hreg]. cbv zeta.
  destruct (map_granted_message (c <| cn_send_message := zero_control_message |>) grants) as [E1 E2]. cbv zeta in E1, E2.
  unfold granted_connection. cbv zeta. cbn -[map_granted byte_at marked fold_left zeros set_at]. rewrite E1, E2.
  cbn -[byte_at marked fold_left zeros set_at].
  destruct (granted_array (fun g => u64 (mr_addr (grant_registration g))) grants (zeros 128) eq_refl Hd Hr) as (A1 & A2 & A3).
  destruct (granted_array (fun g => mr_rkey (grant_registration g)) grants (zeros 128) eq_refl Hd Hr) as (K1 & K2 & K3).
  rewrite list.Forall_forall in Hreg. rewrite list.Forall_forall in Hr. split.
  - apply NoDup_Permutation; [apply chunks_below_NoDup|done|]. intros i. rewrite elem_of_marked. split.
    + intros [Hi Hk]. destruct (decide (i ∈ provider_chunk_id <$> grants)) as [|Hni]; [done|].
      by rewrite K3, byte_at_zeros in Hk by (done || lia).
    + intros Hi. split; [by apply Hr|]. apply list_elem_of_fmap in Hi as (g & -> & Hg). rewrite K2 by done.
      destruct (Hreg g Hg). lia.
  - intros g Hg. rewrite A2, K2 by done. split; [|done]. apply wrap_small. destruct (Hreg g Hg). unfold in_u. lia.
Qed.

Lemma granted_entries_permutation c n grants :
  grants_ok grants ->
  (fun e => (chunk_provider_chunk_id e, chunk_remote_address e, chunk_remote_key e)) <$>
    granted_entries (granted_connection c n grants) ≡ₚ
  (fun g => (provider_chunk_id g, mr_addr (grant_registration g), mr_rkey (grant_registration g))) <$> grants.
Proof.
  intros Hg. destruct (granted_message c n grants Hg) as [Hp Hv]. set (c' := granted_connection c n grants) in *.
  unfold granted_entries. rewrite fmap_imap. unfold compose, grant_entry. cbn [chunk_provider_chunk_id chunk_remote_address chunk_remote_key].
  rewrite (imap_const (fun id => (id, byte_at (cm_buf (cn_send_message c')) id, byte_at (cm_rkey (cn_send_message c')) id))).
  rewrite Hp, <- list_fmap_compose. unfold compose. apply Permutation_refl', list_fmap_ext.
  intros i g Hin%list_elem_of_lookup_2. destruct (Hv g Hin) as [-> ->]. done.
Qed.

Lemma granted_entries_distinct c : NoDup (chunk_provider_chunk_id <$> granted_entries c).
Proof.
  unfold granted_entries. rewrite fmap_imap. unfold compose, grant_entry. cbn [chunk_provider_chunk_id].
  rewrite (imap_const (fun id => id)), list_fmap_id. apply chunks_below_NoDup.
Qed.

Lemma granted_entries_grants c n grants e :
  grants_ok grants -> e ∈ granted_entries (granted_connection c n grants) ->
  exists g, g ∈ grants /\ chunk_provider_chunk_id e = provider_chunk_id g /\
    chunk_remote_address e = mr_addr (grant_registration g) /\ chunk_remote_key e = mr_rkey (grant_registration g).
Proof.
  intros Hok He. apply (list_elem_of_fmap_2
    (fun e => (chunk_provider_chunk_id e, chunk_remote_address e, chunk_remote_key e))) in He.
  rewrite (granted_entries_permutation c n grants Hok) in He. apply list_elem_of_fmap in He as (g & E & Hg).
  injection E as E1 E2 E3. by exists g.
Qed.

Lemma granted_entries_logical c :
  0 <= cn_requested_logical_start c ->
  cn_requested_logical_start c + Z.of_nat (length (granted_entries c)) <= 2 ^ 32 ->
  chunk_logical_chunk_id <$> granted_entries c =
    (fun i => cn_requested_logical_start c + Z.of_nat i) <$> seq 0 (length (granted_entries c)).
Proof.
  rewrite length_granted_entries. unfold granted_entries. generalize (marked (cm_rkey (cn_send_message c))).
  intros l H0' Hr. apply list_eq. intros i. rewrite !list_lookup_fmap, list_lookup_imap.
  destruct (l !! i) as [id|] eqn:E; cbn -[Z.pow].
  - pose proof (lookup_lt_Some _ _ _ E). rewrite lookup_seq_lt by done. cbn -[Z.pow]. f_equal. apply wrap_small. unfold in_u. lia.
  - apply lookup_ge_None in E. by rewrite lookup_seq_ge.
Qed.

Lemma granted_grantable c n grants :
  grants_ok grants -> grants <> [] -> speaking c -> 0 < cn_active_request_id c < 2 ^ 64 ->
  0 <= cn_requested_logical_start c -> cn_requested_logical_start c + Z.of_nat (length grants) <= 2 ^ 32 ->
  pool_ok (cn_requested_pool c) -> grantable (granted_connection c n grants).
Proof.
  intros Hg Hne Hs Ha Hst Hr Hp. destruct (granted_message c n grants Hg) as [Hm Hv].
  destruct (granted_rest c n grants) as (E1 & E2 & E3 & E4 & E5).
  set (c' := granted_connection c n grants) in *. clearbody c'.
  assert (Hl : length (marked (cm_rkey (cn_send_message c'))) = length grants) by (by rewrite Hm, length_fmap).
  constructor; rewrite ?E3, ?E4, ?E5, ?Hl; try done.
  - destruct Hs as [S1 S2 S3 S4 S5 S6 S7 S8]. constructor; by rewrite ?E1, ?E2.
  - intros E. rewrite E in Hl. by destruct grants.
  - intros id Hid. rewrite Hm in Hid. apply list_elem_of_fmap in Hid as (g & -> & Hin). destruct (Hv g Hin) as [-> ->].
    destruct Hg as [_ _ Hreg]. rewrite list.Forall_forall in Hreg. by apply Hreg.
Qed.

(** [send_mr] once the manager has answered: the frame is all that is left. *)
Definition granted_state (st : provider W) (p : Z) (c : connection) (m : is_memory_manager) (w : W) : provider W :=
  st <| pv_manager := m |> <| pv_world := w |>
     <| pv_session := (pv_session st)
          <| se_conns_state := set_at (se_conns_state (pv_session st)) (cn_conn_index c) CONN_MAPPED |> |>
     <| pv_conns := <[p := c]> (pv_conns st) |>.

Lemma bind_run {A B} (h : handler W A) (k : A -> handler W B) st a st' :
  h st = Returns a st' -> (h ≫= k) st = k a st'.
Proof. intros E. unfold mbind, handler_bind. by rewrite E. Qed.

Lemma set_conn_run p (f : connection -> connection) c (st : provider W) :
  pv_conns st !! p = Some c -> set_conn p f st = Returns tt (st <| pv_conns := <[p := f c]> (pv_conns st) |>).
Proof. intros Hc. unfold set_conn, on_conn, load, store, mbind, handler_bind. rewrite Hc. cbn. by rewrite Hc. Qed.

Lemma load_run p c (st : provider W) : pv_conns st !! p = Some c -> load p st = Returns c st.
Proof. intros Hc. unfold load. by rewrite Hc. Qed.

Lemma send_mr_run meanwhile p c n st :
  let o := is_memory_manager_acquire (pv_manager st) (pv_world st) p (cn_requested_pool c) (u32 n) (pv_pd st) MAX_MR_SIZE_GB in
  let c' := granted_connection c n (out_grants o) in
  pv_conns st !! p = Some c -> length (cn_sess_chunk_map c) = 128%nat -> grants_ok (out_grants o) ->
  (forall i, i ∈ provider_chunk_id <$> out_grants o -> byte_at (cn_sess_chunk_map c) i = -1) ->
  out_result o = IS_MEMORY_OK ->
  send_mr meanwhile p n st = send_message meanwhile p true (granted_state st p c' (out_manager o) (out_world o)).
Proof.
  intros o c' Hc Hl [Hd Hr _] Hf Ho. unfold send_mr. set (c0 := c <| cn_send_message := zero_control_message |>).
  set (st0 := st <| pv_conns := <[p := c0]> (pv_conns st) |>).
  rewrite (bind_run _ _ _ _ _ (set_conn_run p _ c st Hc)). fold c0 st0.
  assert (Hc0 : pv_conns st0 !! p = Some c0) by apply lookup_insert_eq.
  rewrite (bind_run _ _ _ _ _ (load_run p c0 st0 Hc0)), (bind_run (gets pv_pd) _ st0 (pv_pd st0) st0 eq_refl).
  set (st1 := st0 <| pv_manager := out_manager o |> <| pv_world := out_world o |>).
  assert (Ea : acquire_chunks p (cn_requested_pool c0) n (pv_pd st0) st0 = Returns (IS_MEMORY_OK, out_grants o) st1).
  { unfold acquire_chunks, with_manager. change (cn_requested_pool c0) with (cn_requested_pool c).
    change (pv_manager st0) with (pv_manager st). change (pv_world st0) with (pv_world st).
    change (pv_pd st0) with (pv_pd st). fold o. by rewrite Ho. }
  rewrite (bind_run _ _ _ _ _ Ea). cbn [negb bool_decide]. rewrite bool_decide_true by done. cbn [negb].
  rewrite (bind_run _ _ _ _ _ (map_grants_run p (out_grants o) c0 st1 Hc0 Hl Hd Hr Hf)).
  set (c1 := map_granted c0 (out_grants o)). set (st2 := st1 <| pv_conns := _ |>).
  assert (Hc1 : pv_conns st2 !! p = Some c1) by apply lookup_insert_eq.
  rewrite (bind_run _ _ _ _ _ (set_conn_run p _ c1 st2 Hc1)).
  set (c2 := c1 <| cn_mapped_chunk_size := _ |>). set (st3 := st2 <| pv_conns := _ |>).
  assert (Hc2 : pv_conns st3 !! p = Some c2) by apply lookup_insert_eq.
  assert (Es : set_conn_state p CONN_MAPPED st3 = Returns tt (st3 <| pv_session := (pv_session st3)
    <| se_conns_state := set_at (se_conns_state (pv_session st3)) (cn_conn_index c2) CONN_MAPPED |> |>)).
  { unfold set_conn_state. by rewrite (bind_run _ _ _ _ _ (load_run p c2 st3 Hc2)). }
  rewrite (bind_run _ _ _ _ _ Es). set (st4 := st3 <| pv_session := _ |>).
  assert (Hc3 : pv_conns st4 !! p = Some c2) by apply lookup_insert_eq.
  rewrite (bind_run _ _ _ _ _ (set_conn_run p _ c2 st4 Hc3)). f_equal. unfold granted_state.
  unfold st4, st3, st2, st1, st0. cbn -[set_at map_granted granted_connection]. by rewrite !insert_insert_eq.
Qed.

(** What becomes of a frame that is built. *)
Definition submitting (meanwhile : provider W -> provider W) (p : Z) (frame : list Z) (size : Z) : handler W unit :=
  status ← submit_encoded_message meanwhile p frame size false true;
  if negb (status =? 0) then rdma_disconnect p else mret tt.

Lemma send_message_run meanwhile p c frame size st :
  pv_conns st !! p = Some c -> encode_control_message c stack_frame = (c, inr (frame, size)) ->
  send_message meanwhile p true st = submitting meanwhile p frame size st.
Proof.
  intros Hc He. unfold send_message.
  assert (E : on_conn p (fun c => encode_control_message c stack_frame) st = Returns (inr (frame, size)) st).
  { unfold on_conn. rewrite (bind_run _ _ _ _ _ (load_run p c st Hc)), He.
    assert (Es : store p c st = Returns tt st) by (unfold store; rewrite Hc, insert_id by done; by destruct st).
    by rewrite (bind_run _ _ _ _ _ Es). }
  by rewrite (bind_run _ _ _ _ _ E).
Qed.

Context (addr_width : forall r, is_u64 (mr_addr r)) (key_width : forall r, is_u32 (mr_rkey r)).

Lemma acquired_grants_ok B R m (w : W) own requested n reg capacity :
  good B R m w -> 0 <= n ->
  let o := is_memory_manager_acquire m w own requested n reg capacity in
  grants_ok (out_grants o) /\ (out_result o = IS_MEMORY_OK -> pool_ok requested /\ n <> 0).
Proof.
  intros Hg Hn o. destruct (acquire_owners B R m w own requested n reg capacity Hg Hn) as (_ & _ & [G1 G2 _ _] & _).
  set (P := fun r => 0 < mr_addr r < 2 ^ 64 /\ 0 < mr_rkey r < 2 ^ 32).
  assert (Hreg : forall pd a (w1 w2 : W) r, register_chunk pd a w1 = (w2, r) -> r <> 0 -> P r).
  { intros pd a w1 w2 r. cbn. unfold register_remote_memory. destruct (ibv_reg_mr pd a w1) as [w3 x].
    destruct (_ =? 0); [by intros [= <- <-]|]. destruct (_ || _) eqn:E.
    - destruct (ibv_dereg_mr x w3). by intros [= <- <-].
    - intros [= <- <-] _. rewrite orb_false_iff, !Z.eqb_neq in E. destruct (addr_width x), (key_width x), E. unfold P. lia. }
  destruct (acquire_registrations P Hreg m w own requested n reg capacity) as [Hr Hp]. split; [by constructor|done].
Qed.

(** The mapped chunks are not among those granted. *)
Lemma granted_unmapped B R p c st ids m :
  provider_inv B R st -> pv_conns st !! p = Some c -> cn_closing c = false -> Disconnecting p ∉ pv_trace st ->
  gives p ids (pv_manager st) m -> forall i, i ∈ ids -> byte_at (cn_sess_chunk_map c) i = -1.
Proof.
  intros Hi Hc Hcl Hd Hg i Hin. destruct (pi_agrees _ _ _ Hi p c Hc Hcl) as [Ha|]; [|done].
  pose proof (gv_range _ _ _ _ Hg) as Hr. rewrite list.Forall_forall in Hr. specialize (Hr i Hin).
  specialize (Ha (Z.to_nat i) ltac:(lia)). rewrite Z2Nat.id in Ha by lia. rewrite Ha.
  rewrite decide_False; [done|]. rewrite (gv_free _ _ _ _ Hg) by (by rewrite Z2Nat.id by lia).
  intros <-. by rewrite (pi_null _ _ _ Hi) in Hc.
Qed.
End Answer.
