(* ===== verification/ProviderAuthority.v ===== *)
(** * What a completion may do to the memory

    A completion changes the chunks of the memory manager only when it brings
    an authorized request for chunks, or the release the daemon asked for. *)
From S2P Require Import Prelude Protocol Text Auth AuthSteps ProviderSession ProviderSessionAnswer ProviderSessionRun Liveness MemoryManager MemoryManagerInv.
From S2P Require Import ProviderConnection ProviderDaemon ProviderLogic ProviderFrames ProviderMemory ProviderRequests.

Section Session.
Context `{ProtocolBuild} `{Mac}.

Lemma build_error_request s id off code response cap o s' out o' r :
  build_error s id off code response cap o = (s', out, o', r) -> po_request_ready o' = po_request_ready o.
Proof. unfold build_error. destruct (is_protocol_encode _ _ _) as [|[]]; by intros [= <- <- <- <-]. Qed.

(** Where a request comes from. *)
Lemma handle_request now registry s frame response cap s' out o :
  is_provider_session_handle now registry s frame response cap zero_outcome = (s', out, o, 0) ->
  po_request_ready o = true ->
  ps_state s = IS_PROVIDER_SESSION_READY /\ decoded frame (po_request o) /\
  (is_error (po_request o) \/ authenticated_error now registry s (po_request o) = None).
Proof.
  unfold is_provider_session_handle, decoded, is_error. destruct (_ || _); [done|].
  destruct (is_protocol_decode _ _) as [e|m] eqn:Ed.
  { destruct (_ =? _); [by intros [= <- <- <-]|]. by intros ->%build_error_request. }
  destruct (Z.eqb_spec (hdr_type (msg_header m)) IS_PROTOCOL_MSG_ERROR) as [He|He].
  { case_bool_decide; intros [= <- <- <-]; [|done]. intros _. split_and!; auto. }
  destruct (ps_state s) eqn:Es.
  - destruct (_ || _); [by intros ->%build_error_request|]. unfold handle_hello.
    destruct (negotiate_hello _ _) as [s1 ok]. destruct (_ || _); [by intros ->%build_error_request|].
    destruct (is_protocol_encode _ _ _) as [|[]]; by intros [= <- <- <-].
  - destruct (_ || _); [by intros ->%build_error_request|]. unfold handle_auth.
    destruct (_ <=? _); [by intros ->%build_error_request|]. destruct (_ || _); [by intros ->%build_error_request|].
    destruct (is_auth_registry_verify _ _ _ _ _ _ _) as [[result until] version].
    destruct (negb _); [by intros ->%build_error_request|].
    destruct (is_protocol_encode _ _ _) as [|[]]; by intros [= <- <- <-].
  - unfold handle_authenticated. destruct (authenticated_error _ _ _ _) eqn:Ea; [by intros ->%build_error_request|].
    intros [= <- <- <-] _. cbn. auto.
  - by intros ->%build_error_request.
Qed.

(** Of the requests, only those two make the daemon call the memory manager. *)
Definition about_chunks (m : is_protocol_message) : Prop :=
  hdr_type (msg_header m) = IS_PROTOCOL_MSG_CHUNK_REQUEST \/ hdr_type (msg_header m) = IS_PROTOCOL_MSG_RELEASE.

Lemma receive_all_type n i pend (id act : Z -> Z) record c c' :
  for_err n i (fun index (c : connection) => receive_chunk (pend c) (id index) (act index) record c) c = inr c' ->
  cm_type (cn_recv_message c') = cm_type (cn_recv_message c).
Proof.
  revert i c. induction n as [|n IH]; intros i c; cbn [for_err]; [by intros [= <-]|].
  unfold receive_chunk at 1. destruct (_ || _); [done|]. intros ->%IH. by destruct record.
Qed.

Lemma translate_type c m c' :
  translate_request c m = (c', 0) -> ~ about_chunks m ->
  cm_type (cn_recv_message c') <> CONTROL_BIND /\ cm_type (cn_recv_message c') <> CONTROL_RELEASE.
Proof.
  intros Ht Hn. assert (N1 : hdr_type (msg_header m) <> IS_PROTOCOL_MSG_CHUNK_REQUEST) by (intros E; apply Hn; by left).
  assert (N2 : hdr_type (msg_header m) <> IS_PROTOCOL_MSG_RELEASE) by (intros E; apply Hn; by right). revert Ht. unfold translate_request.
  set (c0 := c <| cn_recv_message := _ |> <| cn_active_request_id := _ |>). clearbody c0.
  destruct (_ =? IS_PROTOCOL_MSG_STATUS_REQUEST); [by intros [= <-]|].
  rewrite (proj2 (Z.eqb_neq _ _) N1), (proj2 (Z.eqb_neq _ _) N2).
  destruct (_ =? IS_PROTOCOL_MSG_ACTIVITY).
  { unfold translate_activity. destruct (unsolicited _ _); [done|]. destruct (negb _); [done|].
    destruct (for_err _ _ _ _) as [c1|c1] eqn:E; [done|]. intros [= <-].
    apply (receive_all_type _ _ cn_pending_evict_chunks
      (fun i => activity_provider_chunk_id (activity_at (activity_chunks (get_activity (msg_payload m))) i))
      (fun i => activity_activity (activity_at (activity_chunks (get_activity (msg_payload m))) i))) in E.
    change (cm_type (cn_recv_message (forget_evict c1))) with (cm_type (cn_recv_message c1)). by rewrite E. }
  destruct (_ =? IS_PROTOCOL_MSG_ERROR).
  { unfold translate_error. destruct (_ && _); [by intros [= <-]|]. by destruct (_ && _); [intros [= <-]|]. }
  by destruct (_ =? _); [intros [= <-]|].
Qed.
End Session.

Section Authority.
Context {W : Type} `{PlatformLaws W} `{ProtocolBuild} `{Mac}.
Context (meanwhile : provider W -> provider W) (p : Z) (cs : list is_memory_chunk).

(** The chunks are [cs]. *)
Definition resting (st : provider W) : Prop := live p st /\ chunks (pv_manager st) = cs.

Lemma resting_about_memory : about_memory p resting.
Proof.
  constructor; [constructor|..].
  - by intros st [? _].
  - intros st c c' [Hl Hm] Hc _. split; [by apply live_insert|done].
  - by intros st e [? ?].
  - by intros st s [? ?].
  - by intros st c state [? ?].
  - by intros st r [? ?].
  - by intros st w [? ?].
  - intros st c c' [Hl Hm] Hc _. split; [by apply live_insert|done].
  - by intros st e [? ?].
Qed.

Let HM : about_memory p resting := resting_about_memory.
Let HK : about_kept p resting := am_kept _ _ HM.

Lemma connect_chunks m (w : W) id own mc mo mm m' w' r reason :
  is_memory_manager_connect m w id own mc mo mm = (m', w', r, reason) -> chunks m' = chunks m.
Proof.
  unfold is_memory_manager_connect. destruct (_ || _); [by intros [= <- <- <- <-]|].
  case_bool_decide; [by intros [= <- <- <- <-]|]. destruct (_ <=? _); [by intros [= <- <- <- <-]|].
  destruct (existsb _ _); [by intros [= <- <- <- <-]|].
  destruct (if _ : bool then _ else _) as [w1 [m1|]] eqn:E; [|by intros [= <- <- <- <-]].
  intros [= <- <- <- <-]. cbn. destruct (_ =? _); [|by injection E as <- <-]. revert E.
  unfold grow_connections. repeat (case_match; [done|]). destruct (heap w) as [w2 ok].
  by destruct ok; cbn; [intros [= <- <-]|].
Qed.

Lemma admit_consumer_resting st : resting st -> safe false (admit_consumer p) st (fun _ => resting).
Proof.
  intros Hst. unfold admit_consumer. kept_step; [kept_step|].
  assert (Hreg : forall A (f : is_auth_registry -> is_auth_registry * A) s, resting s ->
    safe false (with_registry f) s (fun _ => resting)).
  { intros A f s [Hl Hm]. unfold safe, with_registry. by destruct (f (pv_registry s)). }
  kept_step; [by apply Hreg|]. kept_step; [repeat kept_step|]. kept_step; [kept_step|].
  apply kept_bind; [|intros connected s Hs].
  { destruct a1 as [|[[mc mo] mm]]; [kept_step|]. unfold safe, with_manager.
    destruct (is_memory_manager_connect _ _ _ _ _ _ _) as [[[m' w'] r] reason] eqn:E. apply connect_chunks in E.
    match goal with Hs : resting ?s |- resting _ => destruct Hs as [Hl Hm] end. split; [done|]. cbn. congruence. }
  kept_step; [kept_step; [by apply Hreg|]; repeat kept_step|].
  apply kept_bind; [|intros [] s1 Hs1].
  { destruct Hs as [[c Hc] Hm]. apply (safe_on_conn false _ _ _ _ c); [done|]. split; [|done]. apply live_insert. by exists c. }
  kept_step; [apply (kept_ask false p _ HK); [done|apply clock_quiet]|].
  kept_step; [kept_step; intros; apply kept_start_liveness|]. repeat kept_step.
Qed.

Context (Hwait : forall st, resting st -> resting (meanwhile st)).

Lemma submit_resting frame size close repost st :
  resting st -> safe false (submit_encoded_message meanwhile p frame size close repost) st (fun _ => resting).
Proof. by apply (submit_memory meanwhile false p resting HM). Qed.

Lemma error_resting request_id type code st :
  resting st -> safe false (send_protocol_error meanwhile p request_id type code) st (fun _ => resting).
Proof. apply (send_protocol_error_kept meanwhile false p resting resting); auto using submit_resting. Qed.

Lemma request_resting c st :
  pv_conns st !! p = Some c -> resting st ->
  cm_type (cn_recv_message c) <> CONTROL_BIND -> cm_type (cn_recv_message c) <> CONTROL_RELEASE ->
  safe false (handle_authenticated_request meanwhile p) st (fun _ => resting).
Proof.
  intros Hc Hst N1 N2. unfold handle_authenticated_request. apply safe_bind, (safe_load false _ _ _ c); [done|].
  rewrite (proj2 (Z.eqb_neq _ _) N1), (proj2 (Z.eqb_neq _ _) N2).
  kept_step; [|kept_step; [kept_step|kept_step]]. kept_step; [kept_step|].
  apply (send_free_mem_size_kept meanwhile false p resting resting); auto using submit_resting.
  intros s Hs. by apply (memory_status_kept false p).
Qed.

Lemma serve_resting c request st :
  pv_conns st !! p = Some c -> resting st -> ~ about_chunks request ->
  safe false (serve_request meanwhile p request) st (fun _ => resting).
Proof.
  intros Hc Hst Hn. unfold serve_request. apply safe_bind, (safe_load false _ _ _ c); [done|].
  apply safe_bind, (safe_mono false _ _ (fun _ s => s = st)); [|by destruct (_ =? IS_PROTOCOL_MSG_ERROR)].
  intros a ? ->. destruct (negb _); [by apply error_resting|].
  apply safe_bind, (safe_on_conn false _ _ _ _ c); [done|].
  destruct (translate_request c request) as [c' result] eqn:Et. cbn [fst snd].
  set (st1 := st <| pv_conns := _ |>).
  assert (Hst1 : resting st1) by (destruct Hst; split; [by apply live_insert|done]).
  destruct (Z.eqb_spec result 0) as [->|]; cbn [negb].
  - destruct (translate_type _ _ _ Et Hn) as [N1 N2].
    apply (request_resting c'); [|done|done|done]. apply lookup_insert_eq.
  - destruct (_ =? IS_PROTOCOL_MSG_ERROR); [kept_step|by apply error_resting].
Qed.

(** What a completion must bring to change the chunks. *)
Definition entitled (now : Z) (registry : is_auth_registry) (s : is_provider_session) (frame : list Z) : Prop :=
  exists m, decoded frame m /\ about_chunks m /\ ps_state s = IS_PROVIDER_SESSION_READY /\
    authorized registry (ps_consumer_id s) (ps_authorization_version s) /\
    (ps_authenticated_until_unix s = 0 \/ 0 <= now < ps_authenticated_until_unix s).

Lemma answer_resting response outcome st :
  resting st -> safe false (answer_session meanwhile p response outcome) st (fun _ => resting).
Proof.
  apply (answer_session_kept meanwhile false p resting resting); auto using submit_resting, admit_consumer_resting.
Qed.

Lemma on_receive_resting frame c st :
  pv_conns st !! p = Some c -> resting st ->
  ~ entitled (time_now (pv_world st)).2 (pv_registry st) (cn_protocol_session c) frame ->
  safe false (on_receive meanwhile p frame) st (fun _ => resting).
Proof.
  intros Hc Hst Hn. unfold on_receive. apply safe_bind. unfold safe at 1, ask.
  destruct (time_now (pv_world st)) as [w now]. cbn [snd] in Hn.
  set (st1 := st <| pv_world := w |>). apply safe_bind. unfold safe at 1, gets.
  apply safe_bind, (safe_on_conn false _ _ _ _ c); [done|]. cbn [pv_registry st1].
  change (pv_registry st1) with (pv_registry st).
  destruct (is_provider_session_handle _ _ _ _ _ _ _) as [[[s response] o] result] eqn:Eh. cbn [fst snd].
  set (c1 := c <| cn_protocol_session := s |>). set (st2 := st1 <| pv_conns := _ |>).
  assert (Hst2 : resting st2) by (destruct Hst; split; [by apply (live_insert p p c1 st1)|done]).
  clearbody st2.
  destruct (Z.eqb_spec result 0) as [->|]; cbn [negb]; [|kept_step].
  destruct (po_response_ready o); [by apply answer_resting|].
  destruct (po_request_ready o) eqn:Er; cbn [negb]; [|kept_step].
  assert (Hno : ~ about_chunks (po_request o)).
  { destruct (handle_request _ _ _ _ _ _ _ _ _ Eh Er) as (Hr & Hd & Ha). intros Hk. apply Hn.
    exists (po_request o). destruct Ha as [Ha|Ha]; [unfold about_chunks in Hk; rewrite Ha in Hk; by destruct Hk|].
    apply authenticated_checks in Ha as (H1' & H2' & _). by split_and!. }
  kept_step; [apply (kept_ask false p _ HK); [done|apply clock_quiet]|].
  kept_step; [kept_step; intros; apply kept_refresh_liveness|].
  kept_step; [kept_step|].
  match goal with Hs : resting ?s |- safe _ _ ?s _ => destruct (proj1 Hs) as [c2 Hc2]; by apply (serve_resting c2) end.
Qed.
End Authority.

Section Completions.
Context {W : Type} `{PlatformLaws W} `{ProtocolBuild} `{Mac}.

Lemma on_completion_resting meanwhile wc cs c (st : provider W) :
  (forall s, resting (wc_wr_id wc) cs s -> resting (wc_wr_id wc) cs (meanwhile s)) ->
  pv_conns st !! wc_wr_id wc = Some c -> chunks (pv_manager st) = cs ->
  ~ (wc_success wc = true /\ wc_opcode wc = IBV_WC_RECV /\
     entitled (time_now (pv_world st)).2 (pv_registry st) (cn_protocol_session c) (wc_frame wc)) ->
  safe false (on_completion meanwhile wc) st (fun _ => resting (wc_wr_id wc) cs).
Proof.
  intros Hwait Hc Hcs Hn. set (p := wc_wr_id wc) in *. pose proof (resting_about_memory p cs) as HM.
  pose proof (am_kept _ _ HM) as HK. assert (Hst : resting p cs st) by (split; [by exists c|done]).
  unfold on_completion. fold p. apply safe_bind, (safe_load false _ _ _ c); [done|].
  kept_step; [|by apply (put_reference_kept false p _ HK)]. destruct (cn_closing c); [done|].
  destruct (wc_success wc) eqn:Es; cbn [negb]; [|kept_step].
  destruct (Z.eqb_spec (wc_opcode wc) IBV_WC_RECV) as [Eo|].
  { apply (on_receive_resting meanwhile p cs Hwait _ c); [done|done|]. intros He. by apply Hn. }
  destruct (_ =? IBV_WC_SEND); [by apply (on_sent_memory meanwhile false p _ HM)|kept_step].
Qed.
End Completions.

(** * Completions keep the invariant

    Whatever the other threads do while a completion waits; and it ends the
    process only for a connection that disagrees with the memory manager. *)

From S2P Require Import MemoryManagerConn MemoryManagerOps MemoryManagerSpec ProviderLifecycle.

Section System.
Context {W : Type} `{PlatformLaws W} `{ProtocolBuild} `{Mac}.
Context (B : Z -> nat) (R : Z -> Z -> nat).

Abbreviation inv_at := (inv_at B R).
Abbreviation agreeing := (agreeing B R).
Abbreviation provider_inv := (provider_inv B R).

(** ** Completions and events *)

Section Completions.
Context (meanwhile : provider W -> provider W) (d : bool) (p : Z).
Context (Hwait : forall st, inv_at p st -> inv_at p (meanwhile st)).

Let HJ : about_kept p (inv_at p) := inv_about_kept B R p.

Lemma on_sent_keeps st : inv_at p st -> safe d (on_sent meanwhile p) st (fun _ => inv_at p).
Proof. by apply (on_sent_memory meanwhile d p _ (inv_about_memory B R p)). Qed.

Lemma on_receive_keeps frame st :
  starts B R d p st -> safe d (on_receive meanwhile p frame) st (fun _ => inv_at p).
Proof.
  apply (on_receive_kept meanwhile d p (starts B R d p) (inv_at p)).
  - apply starts_about_memory.
  - apply HJ.
  - apply starts_inv.
  - intros ? ? ? ? ? Hst%starts_inv. by apply submit_keeps.
  - intros st' Hst'. apply (memory_status_kept d p); [apply starts_about_memory|done].
  - intros. by apply send_mr_keeps.
  - intros. by apply recv_done_keeps.
  - intros. by apply admit_consumer_keeps.
Qed.
End Completions.

Lemma on_completion_keeps meanwhile d wc st :
  (forall st, inv_at (wc_wr_id wc) st -> inv_at (wc_wr_id wc) (meanwhile st)) ->
  starts B R d (wc_wr_id wc) st ->
  safe d (on_completion meanwhile wc) st (fun _ => inv_at (wc_wr_id wc)).
Proof.
  intros Hwait Hst. set (p := wc_wr_id wc) in *. pose proof (inv_about_kept B R p) as HJ.
  pose proof (am_kept _ _ (starts_about_memory B R d p)) as HI.
  unfold on_completion. fold p. apply safe_bind. pose proof (starts_inv _ _ _ _ _ Hst) as [_ [c Hc]].
  apply (safe_load d _ _ _ c); [done|].
  kept_step; [|by apply (put_reference_kept d p _ HJ)].
  destruct (cn_closing c); [by eapply starts_inv|].
  destruct (negb _); [apply starts_inv in Hst; kept_step|].
  destruct (_ =? IBV_WC_RECV); [by apply on_receive_keeps|].
  apply starts_inv in Hst. destruct (_ =? IBV_WC_SEND); [by apply on_sent_keeps|kept_step].
Qed.

Lemma on_connect_keeps d p st : inv_at p st -> safe d (on_connect p) st (fun _ => inv_at p).
Proof.
  intros Hst. pose proof (inv_about_kept B R p) as HJ. unfold on_connect.
  kept_step; [by kept_step|by apply (post_receives_kept d p _ HJ)].
Qed.
End System.
