(* ===== verification/ProviderThreads.v ===== *)
(** * Connections come and go

    Setting connections up, taking them down, and the threads that watch
    deadlines and give memory back keep the invariant; the process may end in
    them, since they give up on resources they cannot release. *)
From S2P Require Import Prelude Protocol Text Auth ProviderSession Liveness MemoryManager MemoryManagerInv MemoryManagerConn MemoryManagerOps MemoryManagerSpec ProviderConnection ProviderDaemon ProviderLifecycle ProviderFrames ProviderLogic ProviderMemory ProviderRequests ProviderAuthority.

Section Threads.
Context {W : Type} `{PlatformLaws W} `{ProtocolBuild} `{Mac}.
Context (B : Z -> nat) (R : Z -> Z -> nat).

Abbreviation inv_at := (inv_at B R).
Abbreviation provider_inv := (provider_inv B R).
Abbreviation safe := (safe true).

(** ** Setting up *)

Lemma unregistered_no_owner m p k :
  manager_inv m -> p <> 0 -> p ∉ registered m -> chunk_owner m k <> p.
Proof. intros Hm Hp Hn E. apply Hn. rewrite <- E. apply owner_registered; [done|]. by rewrite E. Qed.

Lemma agrees_none m p : (forall k, chunk_owner m k <> p) -> agrees m p (replicate 128 (-1)).
Proof.
  intros Hn k Hk. rewrite decide_False by done. unfold byte_at.
  rewrite (nth_lookup_Some _ _ 0 (-1)); [done|]. rewrite Nat2Z.id. apply lookup_replicate_2. lia.
Qed.

(** ** The table *)

Lemma occupied_insert (l : list Z) (i : nat) (x y : Z) :
  l !! i = Some x ->
  (length (filter (fun q => q <> 0%Z) (<[i := y]> l)) + (if decide (x <> 0%Z) then 1 else 0) =
   length (filter (fun q => q <> 0%Z) l) + (if decide (y <> 0%Z) then 1 else 0))%nat.
Proof.
  intros Hx. rewrite (insert_take_drop l i y) by (by eapply lookup_lt_Some).
  rewrite <- (take_drop_middle l i x Hx) at 3. rewrite !list.filter_app, !length_app, !filter_cons.
  repeat case_decide; cbn; lia.
Qed.

(** A slot is idle as long as there are fewer than 64 connections. *)
Lemma idle_slot s conns :
  table_ok s conns -> se_conn_num s < 64 ->
  exists i state, list_find (fun state => state = CONN_IDLE) (se_conns_state s) = Some (i, state) /\
    se_conns s !! i = Some 0 /\ se_conns_state s !! i = Some CONN_IDLE.
Proof.
  intros [T1 T2 T3 T4 T5 T6] Hn. destruct (list_find _ _) as [[i state]|] eqn:E.
  - apply list_find_Some in E as (Hi & -> & _). exists i, CONN_IDLE. split_and!; [done|by apply T3|done].
  - exfalso. apply list_find_None in E. rewrite list.Forall_forall in E.
    assert (Hall : forall l, l ⊆ se_conns s -> length (filter (fun q => q <> 0) l) = length l).
    { induction l as [|q l IH]; intros Hsub; [done|]. rewrite filter_cons_True; [cbn; f_equal; apply IH; set_solver|].
      intros ->. assert (Hin : 0 ∈ se_conns s) by set_solver. apply list_elem_of_lookup in Hin as [k Hk].
      apply T3 in Hk. by apply list_elem_of_lookup_2, E in Hk. }
    rewrite Hall in T6 by done. lia.
Qed.

Lemma table_entered s conns p c i :
  table_ok s conns -> conns !! 0 = None -> p <> 0 -> conns !! p = None -> se_conns s !! i = Some 0 ->
  se_conns_state s !! i = Some CONN_IDLE -> cn_conn_index c = Z.of_nat i ->
  table_ok (s <| se_conns := <[i := p]> (se_conns s) |>
              <| se_conns_state := <[i := CONN_CONNECTED]> (se_conns_state s) |>
              <| se_conn_num := se_conn_num s + 1 |>) (<[p := c]> conns).
Proof.
  intros [T1 T2 T3 T4 T5 T6] H00 Hp Hn Hi Hs Hc. pose proof (lookup_lt_Some _ _ _ Hi) as Hlt.
  constructor; cbn; rewrite ?length_insert; try done.
  - intros j. destruct (decide (i = j)) as [<-|]; [|by rewrite !list_lookup_insert_ne].
    rewrite !list_lookup_insert_eq by lia. naive_solver.
  - intros j q Hq Hz. apply list_lookup_insert_Some in Hq as [(<- & <- & _)|(_ & Hq)].
    + exists c. by rewrite lookup_insert_eq.
    + destruct (T4 j q Hq Hz) as (x & Hx & Hj). exists x. rewrite lookup_insert_ne; [done|]. congruence.
  - intros q x Hx. destruct (decide (p = q)) as [<-|].
    + rewrite lookup_insert_eq in Hx. injection Hx as <-. rewrite Hc, Nat2Z.id, list_lookup_insert_eq by done. split; [lia|done].
    + rewrite lookup_insert_ne in Hx by done. destruct (T5 _ _ Hx) as [? Hj]. split; [done|].
      rewrite list_lookup_insert_ne; [done|]. intros ->. rewrite Hi in Hj. injection Hj as <-. congruence.
  - pose proof (occupied_insert _ i 0 p Hi) as Ho. rewrite decide_False in Ho by naive_solver.
    rewrite decide_True in Ho by done. lia.
Qed.

(** A new connection, at a pointer that is not in use, enters the table. *)
Lemma inv_entered st p c s :
  provider_inv st -> p <> 0 -> pv_conns st !! p = None -> cn_sess_chunk_map c = replicate 128 (-1) ->
  table_ok s (<[p := c]> (pv_conns st)) ->
  inv_at p (st <| pv_session := s |> <| pv_conns := <[p := c]> (pv_conns st) |>).
Proof.
  intros [I1 I2 I3 I4 I5 I6 I8 I7] Hp Hn Hmap Ht. split; [|by eexists; apply lookup_insert_eq].
  assert (Hne : forall q x, pv_conns st !! q = Some x -> p <> q) by (intros q x Hx ->; congruence).
  constructor; cbn; try done.
  - by rewrite lookup_insert_ne.
  - intros q x Hx. destruct (decide (p = q)) as [<-|]; [|rewrite lookup_insert_ne in Hx by done; eauto].
    rewrite lookup_insert_eq in Hx. injection Hx as <-. by rewrite Hmap.
  - intros q Hq. destruct (I4 q Hq) as (x & Hx & Hm). exists x. rewrite lookup_insert_ne by eauto. done.
  - intros q x Hx Hcl. destruct (decide (p = q)) as [<-|].
    + left. rewrite lookup_insert_eq in Hx. injection Hx as <-. rewrite Hmap. apply agrees_none.
      intros k. apply unregistered_no_owner; [apply I1|done|]. intros Hin.
      destruct (I4 _ Hin) as (x & Hx & _). congruence.
    + rewrite lookup_insert_ne in Hx by done. eauto.
  - destruct I8 as [L1 L2]. split; [done|]. intros l Hl. destruct (L2 l Hl) as (x & Hx & Hs). exists x.
    rewrite lookup_insert_ne by eauto. done.
Qed.

(** The connection is allocated and entered in the table. *)
Lemma enter_table_keeps p c st :
  provider_inv st -> p <> 0 -> pv_conns st !! p = None -> cn_sess_chunk_map c = replicate 128 (-1) ->
  se_conn_num (pv_session st) < 64 ->
  safe (enter_table p) (st <| pv_conns := <[p := c]> (pv_conns st) |>) (fun _ => inv_at p).
Proof.
  intros Hst Hp Hn Hmap Hnum. pose proof (inv_about_kept B R p) as HJ.
  destruct (idle_slot _ _ (pi_table _ _ _ Hst) Hnum) as (i & state & Hf & Hi & Hs).
  unfold enter_table. apply safe_bind. unfold gets, ProviderLogic.safe at 1. cbn [pv_session update].
  change (pv_session (st <| pv_conns := <[p := c]> (pv_conns st) |>)) with (pv_session st). rewrite Hf.
  apply safe_bind, safe_bind. unfold on_session at 1, modify at 1, ProviderLogic.safe at 1.
  apply (safe_on_conn true _ _ _ _ c); [apply lookup_insert_eq|]. cbn [fst snd].
  apply safe_bind. unfold on_session at 1, modify at 1, ProviderLogic.safe at 1.
  set (c' := c <| cn_conn_index := Z.of_nat i |>).
  pose proof (table_entered _ _ p c' i (pi_table _ _ _ Hst) (pi_null _ _ _ Hst) Hp Hn Hi Hs eq_refl) as Ht.
  pose proof (inv_entered st p c' _ Hst Hp Hn Hmap Ht) as Hin. destruct st as [s cs rg m pd w tr].
  match goal with |- ProviderLogic.safe _ _ ?x _ => assert (Hx : inv_at p x) end.
  { cbn in *. rewrite insert_insert_eq. exact Hin. }
  kept_step.
Qed.

(** [calloc], called after the random numbers are drawn, returns no object that
    is in use. *)
Definition calloc_fresh (st : provider W) : Prop :=
  pv_conns st !! (calloc_connection (random_identity (pv_world st)).1).2 = None.

Lemma build_connection_keeps st :
  provider_inv st -> calloc_fresh st -> safe build_connection st (fun _ => provider_inv).
Proof.
  intros Hst Hfresh. unfold calloc_fresh in Hfresh. unfold build_connection. apply safe_bind. unfold gets, ProviderLogic.safe at 1.
  destruct (Z.leb_spec MAX_CLIENT (se_conn_num (pv_session st))) as [|Hnum]; [done|].
  apply safe_bind. unfold ask at 1, ProviderLogic.safe at 1.
  pose proof (random_quiet (pv_world st)) as Hq1. destruct (random_identity (pv_world st)) as [w1 [[nonce id]|]]; [|done].
  apply safe_bind. unfold ask at 1, ProviderLogic.safe at 1. cbn [pv_world update].
  pose proof (calloc_quiet w1) as Hq2. cbn [fst] in Hfresh.
  change (pv_world (st <| pv_world := w1 |>)) with w1. destruct (calloc_connection w1) as [w2 p]. cbn [snd fst] in *.
  destruct (Z.eqb_spec p 0) as [|Hp]; [by apply safe_die|]. apply safe_bind. unfold modify at 1, ProviderLogic.safe at 1.
  set (c := new_connection nonce (if id =? 0 then 1 else id)).
  assert (Hst2 : provider_inv (st <| pv_world := w1 |> <| pv_world := w2 |>)).
  { destruct Hst as [I1 I2 I3 I4 I5 I6 I8 I7]. constructor; cbn; try done.
    eapply good_quiet; [eapply good_quiet; [exact I1|exact Hq1]|exact Hq2]. }
  pose proof (inv_about_kept B R p) as HJ.
  apply (safe_mono true _ _ (fun _ => inv_at p)); [by intros ? ? [? _]|].
  apply kept_bind; [by apply (enter_table_keeps p c (st <| pv_world := w1 |> <| pv_world := w2 |>) Hst2)|].
  intros ? ? ?. kept_step; [by apply (get_reference_kept true p _ HJ)|].
  kept_step; [by apply safe_die|]. kept_step; [apply (kept_ask true p _ HJ); [done|apply setup_quiet]|].
  kept_step; [by apply safe_die|]. kept_step; [by apply (post_receives_kept true p _ HJ)|kept_step].
Qed.

(** ** Taking down *)

(** The connection is being closed. *)
Definition closing_at (p : Z) (st : provider W) : Prop :=
  inv_at p st /\ exists c, pv_conns st !! p = Some c /\ cn_closing c = true.

Lemma closing_about_kept p : about_kept p (closing_at p).
Proof.
  pose proof (inv_about_kept B R p) as [K1 K2 K3 K4 K7 K5 K6]. constructor.
  - by intros st [[_ ?] _].
  - intros st c c' [Hi (x & Hx & Hcl)] Hc Hk. split; [by apply (K2 st c)|]. exists c'. cbn.
    rewrite lookup_insert_eq. split; [done|]. unfold kept, memory_part in Hk. injection Hk as _ _ E _ _ _ _ _. congruence.
  - intros st e [Hi Hx] He. split; [by apply K3|done].
  - intros st s [Hi Hx] E. split; [by apply K4|done].
  - intros st c state [Hi Hx] Hc Hs. split; [by apply K7|done].
  - intros st r [Hi Hx] E Es. split; [by apply K5|done].
  - intros st w [Hi Hx] E. split; [by apply K6|done].
Qed.

Lemma prepare_connection_close_keeps p st :
  inv_at p st -> safe (prepare_connection_close p) st (fun _ => closing_at p).
Proof.
  intros Hst. pose proof Hst as [Hinv [c Hc]]. pose proof (closing_about_kept p) as HK.
  unfold prepare_connection_close. apply safe_bind, (safe_on_conn true _ _ _ _ c); [done|].
  match goal with |- ProviderLogic.safe _ _ ?s _ => assert (Hs : closing_at p s) end.
  { destruct (cn_closing c) eqn:E; cbn [fst].
    - rewrite insert_id by done. destruct st. split; [done|eauto].
    - split; [|eexists; split; [apply lookup_insert_eq|done]]. split; [|by eexists; apply lookup_insert_eq].
      by apply (inv_conn B R p st c). }
  destruct (cn_closing c); cbn [snd negb]; [by apply safe_ret|].
  kept_step; [kept_step|]. kept_step; [kept_step|].
  kept_step; [apply (kept_ask true p _ HK); [done|apply drain_quiet]|].
  kept_step; [by apply safe_die|kept_step].
Qed.

Lemma inv_at_of_closing p st : closing_at p st -> inv_at p st.
Proof. by intros [? _]. Qed.

(** The manager forgets [p], whose chunks become free. *)
Lemma closing_disconnected p st m w c :
  closing_at p st -> pv_conns st !! p = Some c -> good B R m w ->
  (forall o, o ∈ registered m -> o ∈ registered (pv_manager st)) ->
  only_frees p (pv_manager st) m ->
  forall known, (known = false -> p ∉ registered m) -> (known = true -> cn_memory_connected c = true) ->
  closing_at p (st <| pv_manager := m |> <| pv_world := w |>
    <| pv_conns := <[p := c <| cn_memory_connected := known |>]> (pv_conns st) |>).
Proof.
  intros [Hi (x & Hx & Hcl)] Hc Hg Hreg Hf known Hk1 Hk2. simplify_eq.
  pose proof (freed_others B R p st m Hi Hf) as Ho. destruct Hi as [[I1 I2 I3 I4 I5 I6 I8 I7] Hl].
  split; [|eexists; split; [apply lookup_insert_eq|done]]. split; [|by eexists; apply lookup_insert_eq].
  constructor; cbn; try done.
  - rewrite lookup_insert_ne; [done|]. intros ->. congruence.
  - intros q y Hy. destruct (decide (p = q)) as [<-|]; [|rewrite lookup_insert_ne in Hy by done; eauto].
    rewrite lookup_insert_eq in Hy. injection Hy as <-. cbn. eauto.
  - intros q Hq. destruct (decide (p = q)) as [<-|].
    + rewrite lookup_insert_eq. eexists. split; [done|]. cbn. destruct known; [done|].
      by exfalso; apply Hk1.
    + rewrite lookup_insert_ne by done. by apply I4, Hreg.
  - intros q y Hy Hyc. destruct (decide (p = q)) as [<-|Hne].
    + rewrite lookup_insert_eq in Hy. injection Hy as <-. cbn in Hyc. congruence.
    + rewrite lookup_insert_ne in Hy by done. by apply Ho.
  - by eapply table_insert.
  - by eapply listeners_insert.
Qed.

(** Reclaiming leaves nothing of [p] with the manager when it succeeds. *)
Lemma reclaim_keeps p st :
  closing_at p st ->
  safe (reclaim_connection_memory p) st (fun r st' =>
    closing_at p st' /\ (r = IS_MEMORY_OK -> p ∉ registered (pv_manager st')) /\
    pv_registry st' = pv_registry st).
Proof.
  intros Hst. pose proof Hst as [[Hinv _] (c & Hc & Hcl)]. unfold reclaim_connection_memory.
  apply safe_bind, (safe_load true _ _ _ c); [done|].
  destruct (cn_memory_connected c) eqn:Em; cbn [negb].
  2: { apply safe_ret. split; [done|]. split; [|done]. intros _ Hin.
       destruct (pi_registered _ _ _ Hinv _ Hin) as (x & Hx & ?). congruence. }
  apply safe_bind. unfold with_manager, ProviderLogic.safe at 1.
  destruct (is_memory_manager_disconnect _ _ p) as [[m w] r] eqn:E.
  pose proof (disconnect_owners B R _ _ _ _ _ _ (pi_good _ _ _ Hinv) E) as [Hg Hf].
  pose proof (disconnect_connections B R _ _ _ _ _ _ (pi_good _ _ _ Hinv) E) as [Hreg Hgone].
  pose proof (closing_disconnected p st m w c Hst Hc Hg Hreg Hf) as Hk.
  destruct (bool_decide (r = IS_MEMORY_OK) || bool_decide (r = IS_MEMORY_NOT_CONNECTED)) eqn:Er.
  - apply orb_true_iff in Er. rewrite !bool_decide_eq_true in Er.
    apply safe_bind, (safe_on_conn true _ _ _ _ c); [done|]. apply safe_ret. cbn [fst].
    split; [|split; [intros _; by apply Hgone|done]]. apply (Hk false); [intros _; by apply Hgone|done].
  - apply orb_false_iff in Er as [Er _]. apply bool_decide_eq_false in Er. apply safe_ret. split; [|done].
    specialize (Hk true ltac:(done) ltac:(done)).
    replace (c <| cn_memory_connected := true |>) with c in Hk by (destruct c; cbn in Em; by rewrite Em).
    rewrite insert_id in Hk by done. by destruct st.
Qed.

(** The subscription is withdrawn. *)
Lemma closing_unsubscribed p st c :
  closing_at p st -> pv_conns st !! p = Some c -> p ∉ al_context <$> ar_listeners (pv_registry st) ->
  closing_at p (st <| pv_conns := <[p := c <| cn_auth_subscribed := false |>]> (pv_conns st) |>).
Proof.
  intros [[Hi _] (x & Hx & Hcl)] Hc Hn. rewrite Hc in Hx. injection Hx as <-.
  split; [|eexists; split; [apply lookup_insert_eq|done]]. split; [|by eexists; apply lookup_insert_eq].
  apply (inv_conn_listeners B R p st c); try done. destruct (pi_listeners _ _ _ Hi) as [L1 L2]. split; [done|].
  intros l Hl. destruct (L2 l Hl) as (x & Hx & Hs). exists x. rewrite lookup_insert_ne; [done|].
  intros ->. apply Hn. by apply list_elem_of_fmap_2.
Qed.

Lemma table_left s conns p c :
  table_ok s conns -> p <> 0 -> conns !! p = Some c ->
  table_ok (s <| se_conns := set_at (se_conns s) (cn_conn_index c) 0 |>
              <| se_conns_state := set_at (se_conns_state s) (cn_conn_index c) CONN_IDLE |>
              <| se_conn_num := se_conn_num s - 1 |>) (delete p conns).
Proof.
  intros [T1 T2 T3 T4 T5 T6] Hp Hc. destruct (T5 _ _ Hc) as [Hi0 Hi]. set (i := Z.to_nat (cn_conn_index c)) in *.
  pose proof (lookup_lt_Some _ _ _ Hi) as Hlt. unfold set_at. fold i.
  constructor; cbn; rewrite ?length_insert; try done.
  - intros j. destruct (decide (i = j)) as [<-|]; [|by rewrite !list_lookup_insert_ne].
    by rewrite !list_lookup_insert_eq by lia.
  - intros j q Hq Hz. apply list_lookup_insert_Some in Hq as [(_ & ? & _)|(Hne & Hq)]; [congruence|].
    destruct (T4 j q Hq Hz) as (x & Hx & Hj). exists x. rewrite lookup_delete_ne; [done|].
    intros ->. simplify_eq. unfold i in Hne. rewrite Hj, Nat2Z.id in Hne. done.
  - intros q x [Hne Hx]%lookup_delete_Some. destruct (T5 _ _ Hx) as [? Hj]. split; [done|].
    rewrite list_lookup_insert_ne; [done|]. intros E. rewrite <- E, Hi in Hj. congruence.
  - pose proof (occupied_insert _ i p 0 Hi) as Ho. rewrite decide_True in Ho by done.
    rewrite decide_False in Ho by naive_solver. lia.
Qed.

(** The connection leaves the table and is freed. *)
Lemma inv_destroyed p st c s :
  closing_at p st -> pv_conns st !! p = Some c -> p ∉ registered (pv_manager st) ->
  p ∉ al_context <$> ar_listeners (pv_registry st) -> table_ok s (delete p (pv_conns st)) ->
  provider_inv (st <| pv_session := s |> <| pv_conns := delete p (pv_conns st) |>).
Proof.
  intros [[[I1 I2 I3 I4 I5 I6 I8 I7] _] _] Hc Hn Hl Hs. constructor; cbn; try done.
  - rewrite lookup_delete_ne; [done|]. intros ->. congruence.
  - intros q x Hx%lookup_delete_Some. naive_solver.
  - intros q Hq. destruct (I4 q Hq) as (x & Hx & Hm). exists x. rewrite lookup_delete_ne; [done|].
    intros ->. done.
  - intros q x Hx%lookup_delete_Some. naive_solver.
  - destruct I8 as [L1 L2]. split; [done|]. intros l Hin. destruct (L2 l Hin) as (x & Hx & ?). exists x.
    rewrite lookup_delete_ne; [done|]. intros ->. apply Hl. by apply list_elem_of_fmap_2.
Qed.

Section Waiting.
Context (meanwhile : provider W -> provider W) (p : Z).

Section Closing.
Context (Hwait : forall st, closing_at p st -> closing_at p (meanwhile st)).

Lemma wait_for_references_keeps n st :
  closing_at p st -> safe (wait_for_connection_references meanwhile p n) st (fun _ => closing_at p).
Proof.
  intros Hst. pose proof (closing_about_kept p) as HK. unfold wait_for_connection_references.
  kept_step; [kept_step|]. kept_step; [kept_step|]. kept_step; [by apply Hwait|].
  kept_step; [kept_step|]. kept_step; kept_step.
Qed.

(** The connection is being closed and has no listener. *)
Definition unsubscribed_at (st : provider W) : Prop :=
  closing_at p st /\ p ∉ al_context <$> ar_listeners (pv_registry st).

Lemma unsubscribe_keeps c st :
  closing_at p st -> pv_conns st !! p = Some c ->
  safe (if cn_auth_subscribed c then
          with_registry (fun r => (is_auth_registry_unsubscribe r p, tt));;
          set_conn p (fun c => c <| cn_auth_subscribed := false |>)
        else mret tt) st (fun _ => unsubscribed_at).
Proof.
  intros Hst Hc. pose proof (conn_nonzero B R p st (inv_at_of_closing p st Hst)) as Hp.
  destruct (pi_listeners _ _ _ (proj1 (proj1 Hst))) as [L1 L2]. destruct (cn_auth_subscribed c) eqn:Ea.
  - apply safe_bind. unfold with_registry, ProviderLogic.safe at 1.
    apply (safe_on_conn true _ _ _ _ c); [done|]. cbn [fst snd].
    destruct (unsubscribe_shrinks (pv_registry st) p) as [He Hs].
    pose proof (unsubscribe_gone (pv_registry st) p L1 Hp) as Hgone.
    pose proof (ak_registry _ _ (closing_about_kept p) st _ Hst He Hs) as Hst1.
    split; [|done]. by apply (closing_unsubscribed p _ c Hst1).
  - apply safe_ret. split; [done|]. intros (l & -> & Hl)%list_elem_of_fmap.
    destruct (L2 l Hl) as (x & Hx & ?). congruence.
Qed.

Lemma destroy_connection_keeps st :
  inv_at p st -> safe (destroy_connection meanwhile p) st (fun _ => provider_inv).
Proof.
  intros Hst. pose proof (closing_about_kept p) as HK. unfold destroy_connection.
  apply (kept_then true (closing_at p)); [by apply prepare_connection_close_keeps|]. intros ? st1 Hst1.
  apply (kept_then true (closing_at p)); [by apply wait_for_references_keeps|]. intros ? st2 Hst2.
  pose proof Hst2 as [_ (c0 & Hc0 & _)]. apply safe_bind, (safe_load true _ _ _ c0); [done|].
  apply safe_bind. eapply safe_mono; [|by apply unsubscribe_keeps]. intros ? st4 [Hst4 Hno]. cbv beta.
  apply safe_bind. eapply safe_mono; [|by apply reclaim_keeps].
  intros r st5 (Hst5 & Hgone & Hreg). cbv beta. case_bool_decide as Hr; cbn [negb]; [|by apply safe_die].
  rewrite <- Hreg in Hno. pose proof (conn_nonzero B R p st5 (inv_at_of_closing p st5 Hst5)) as Hp.
  pose proof Hst5 as [[Hinv _] (c & Hc & _)]. apply safe_bind, (safe_load true _ _ _ c); [done|].
  apply safe_bind. unfold on_session at 1, modify at 1, ProviderLogic.safe at 1.
  apply safe_bind. unfold count_up, on_session, modify at 1, ProviderLogic.safe at 1.
  pose proof (table_left _ _ p c (pi_table _ _ _ Hinv) Hp Hc) as Ht.
  set (s := (pv_session st5) <| se_conns := set_at (se_conns (pv_session st5)) (cn_conn_index c) 0 |>
       <| se_conns_state := set_at (se_conns_state (pv_session st5)) (cn_conn_index c) CONN_IDLE |>
       <| se_conn_num := se_conn_num (pv_session st5) - 1 |>) in Ht.
  apply (table_part_ok _ (s <| se_disconnections_total ::= fun n => u64 (n + 1) |>)) in Ht; [|done].
  exact (inv_destroyed p st5 c _ Hst5 Hc (Hgone Hr) Hno Ht).
Qed.

Lemma disconnect_silent_keeps st :
  inv_at p st -> safe (disconnect_silent meanwhile p) st (fun _ => inv_at p).
Proof.
  intros Hst. pose proof (inv_about_kept B R p) as HJ. unfold disconnect_silent. kept_step; [kept_step|].
  eapply safe_mono; [intros ? ?; apply inv_at_of_closing|].
  apply (kept_then true (closing_at p)); [by apply prepare_connection_close_keeps|]. intros ? st2 Hst2.
  apply (kept_then true (closing_at p)); [by apply wait_for_references_keeps|]. intros ? st3 Hst3.
  apply safe_bind. eapply safe_mono; [|by apply reclaim_keeps]. intros r st4 (Hst4 & _). cbv beta.
  destruct (negb _); [by apply safe_die|by apply safe_ret].
Qed.

Context (Hwait' : forall st, inv_at p st -> inv_at p (meanwhile st)).

Lemma await_handshake_keeps deadline fuel st :
  inv_at p st -> safe (await_handshake meanwhile p deadline fuel) st (fun _ => inv_at p).
Proof.
  pose proof (inv_about_kept B R p) as HJ. revert st.
  induction fuel as [|fuel IH]; intros st Hst; cbn [await_handshake]; [done|].
  kept_step; [kept_step|]. kept_step; [kept_step|]. kept_step; [by apply Hwait'|].
  kept_step; [apply (kept_ask true p _ HJ); [done|apply wait_quiet]|]. kept_step; [by apply IH|kept_step].
Qed.

Lemma watch_liveness_keeps fuel st :
  inv_at p st -> safe (watch_liveness meanwhile p fuel) st (fun _ => inv_at p).
Proof.
  pose proof (inv_about_kept B R p) as HJ. revert st.
  induction fuel as [|fuel IH]; intros st Hst; cbn [watch_liveness]; [done|].
  kept_step; [kept_step|]. kept_step; [kept_step|].
  kept_step; [apply (kept_ask true p _ HJ); [done|apply time_quiet]|]. kept_step; [kept_step|].
  kept_step; [apply (kept_ask true p _ HJ); [done|apply clock_quiet]|].
  destruct (monotonic_now _) as [[now now_ms]|]; [|kept_step].
  destruct (is_consumer_liveness_check _ _ _) as [[] [wait_ms|]]; try (by repeat kept_step).
  kept_step; [by apply Hwait'|]. kept_step; [apply (kept_ask true p _ HJ); [done|apply wait_quiet]|].
  kept_step; [kept_step|by apply IH].
Qed.

Lemma monitor_keeps fuel st :
  inv_at p st -> safe (monitor_connection_deadlines meanwhile p fuel) st (fun _ => inv_at p).
Proof.
  intros Hst. pose proof (inv_about_kept B R p) as HJ. unfold monitor_connection_deadlines.
  kept_step; [apply (kept_ask true p _ HJ); [done|apply clock_quiet]|].
  kept_step; [|kept_step; [kept_step; [by apply disconnect_silent_keeps|kept_step]|by apply (put_reference_kept true p _ HJ)]].
  destruct (monotonic_now _) as [[now now_ms]|]; [|kept_step].
  kept_step; [by apply await_handshake_keeps|]. kept_step; [kept_step|].
  kept_step; [repeat kept_step|by apply watch_liveness_keeps].
Qed.
End Closing.
End Waiting.
End Threads.

(** * The deadline thread

    When the thread that watches over a connection ends, and no other thread
    was closing the connection, the consumer's memory is back. *)

Section Deadline.
Context {W : Type} `{PlatformLaws W} `{ProtocolBuild} `{Mac}.
Context (B : Z -> nat) (R : Z -> Z -> nat) (meanwhile : provider W -> provider W) (p : Z).

Abbreviation inv_at := (inv_at B R).
Abbreviation closing_at := (closing_at B R).
Abbreviation safe := (safe true).

(** The connection is in place and not closing. *)
Definition open_at (st : provider W) : Prop :=
  inv_at p st /\ exists c, pv_conns st !! p = Some c /\ cn_closing c = false.

Lemma open_about_kept : about_kept p open_at.
Proof.
  pose proof (inv_about_kept B R p) as [K1 K2 K3 K4 K4' K5 K6]. constructor.
  - intros st [Hi _]. by apply K1.
  - intros st c c' [Hi (x & Hx & Hcl)] Hc E. rewrite Hc in Hx. injection Hx as <-.
    split; [by apply (K2 st c)|]. exists c'. split; [apply lookup_insert_eq|]. injection E as _ _ E _ _ _ _. congruence.
  - intros st e [Hi Hx] He. split; [by apply K3|done].
  - intros st s [Hi Hx] E. split; [by apply K4|done].
  - intros st c state [Hi Hx] Hc E. split; [by apply K4'|done].
  - intros st r [Hi Hx] E1 E2. split; [by apply K5|done].
  - intros st w [Hi Hx] E. split; [by apply K6|done].
Qed.

Let HK : about_kept p open_at := open_about_kept.

Context (Hopen : forall st, open_at st -> open_at (meanwhile st)).
Context (Hclosing : forall st, closing_at p st -> closing_at p (meanwhile st)).

Lemma await_handshake_open deadline fuel st :
  open_at st -> safe (await_handshake meanwhile p deadline fuel) st (fun _ => open_at).
Proof.
  revert st. induction fuel as [|fuel IH]; intros st Hst; cbn [await_handshake]; [done|].
  kept_step; [kept_step|]. kept_step; [kept_step|]. kept_step; [by apply Hopen|].
  kept_step; [apply (kept_ask true p _ HK); [done|apply wait_quiet]|]. kept_step; [by apply IH|kept_step].
Qed.

(** The watch ends only with the order to disconnect. *)
Lemma watch_liveness_open fuel st :
  open_at st -> safe (watch_liveness meanwhile p fuel) st (fun b st => open_at st /\ b = true).
Proof.
  revert st. induction fuel as [|fuel IH]; intros st Hst; cbn [watch_liveness]; [done|].
  pose proof Hst as [_ (c & Hc & Hcl)]. apply safe_bind, (safe_load true _ _ _ c); [done|]. rewrite Hcl.
  apply safe_bind. eapply safe_mono; [|apply (kept_ask true p _ HK); [done|apply time_quiet]].
  intros now s1 Hs1. destruct (_ <? _); [by apply safe_ret|].
  apply safe_bind. eapply safe_mono; [|apply (kept_ask true p _ HK); [done|apply clock_quiet]].
  intros clock s2 Hs2. destruct (monotonic_now clock) as [[m ms]|]; [|by apply safe_ret].
  assert (Hexp : safe (count_up se_deadline_expiries_total;; mret true) s2 (fun b st => open_at st /\ b = true)).
  { apply safe_bind. eapply safe_mono; [|by kept_step]. intros ? s3 Hs3. by apply safe_ret. }
  destruct (is_consumer_liveness_check _ _ _) as [[] [wait_ms|]]; try exact Hexp.
  apply safe_bind. unfold wait, modify, ProviderLogic.safe at 1. apply Hopen in Hs2.
  apply safe_bind. eapply safe_mono; [|apply (kept_ask true p _ HK); [done|apply wait_quiet]].
  intros result s3 Hs3. destruct (_ && _); [by apply safe_ret|by apply IH].
Qed.

(** Nothing of the connection is left with the manager. *)
Definition reclaimed (st : provider W) : Prop := closing_at p st /\ p ∉ registered (pv_manager st).

Lemma disconnect_silent_reclaims st :
  inv_at p st -> safe (disconnect_silent meanwhile p) st (fun _ => reclaimed).
Proof.
  intros Hst. pose proof (inv_about_kept B R p) as HJ. unfold disconnect_silent.
  apply (kept_then true (inv_at p)); [kept_step|]. intros ? s1 Hs1.
  apply (kept_then true (closing_at p)); [by apply prepare_connection_close_keeps|]. intros ? s2 Hs2.
  apply (kept_then true (closing_at p)); [by apply wait_for_references_keeps|]. intros ? s3 Hs3.
  apply safe_bind. eapply safe_mono; [|by apply reclaim_keeps]. intros r s4 (Hs4 & Hgone & _). cbv beta.
  case_bool_decide; cbn [negb]; [apply safe_ret; split; auto|by apply safe_die].
Qed.

Lemma reclaimed_put st : reclaimed st -> safe (put_reference p) st (fun _ => reclaimed).
Proof.
  intros [Hc Hn]. pose proof Hc as [_ (c & Hl & _)]. unfold put_reference, set_conn.
  apply (safe_on_conn true _ _ _ _ c); [done|]. split; [|done].
  apply (ak_conn _ _ (closing_about_kept B R p) st c); [done|done|apply kept_put_reference].
Qed.

Lemma monitor_reclaims fuel st :
  open_at st -> safe (monitor_connection_deadlines meanwhile p fuel) st (fun _ => reclaimed).
Proof.
  intros Hst. unfold monitor_connection_deadlines. apply safe_bind.
  eapply safe_mono; [|apply (kept_ask true p _ HK); [done|apply clock_quiet]]. intros clock s1 Hs1.
  apply safe_bind, (safe_mono true _ _ (fun b st => open_at st /\ b = true)).
  { intros ? s2 [Hs2 ->]. apply safe_bind. eapply safe_mono; [|apply disconnect_silent_reclaims; by destruct Hs2].
    intros ? s3 Hs3. by apply reclaimed_put. }
  destruct (monotonic_now clock) as [[now ms]|]; [|by apply safe_ret].
  apply safe_bind. eapply safe_mono; [|by apply await_handshake_open]. intros ? s2 Hs2.
  pose proof Hs2 as [_ (c & Hc & Hcl)]. apply safe_bind, (safe_load true _ _ _ c); [done|].
  destruct (_ && _); [|by apply watch_liveness_open].
  apply safe_bind. eapply safe_mono; [|by kept_step]. intros ? s3 Hs3. by apply safe_ret.
Qed.

Lemma reclaimed_owners st k : reclaimed st -> chunk_owner (pv_manager st) k <> p.
Proof.
  intros [[[Hi Hl] _] Hn] E. apply Hn. rewrite <- E. apply owner_registered; [by destruct (pi_good _ _ _ Hi)|].
  rewrite E. by apply (conn_nonzero B R p st).
Qed.
End Deadline.

(** ** The thread ends *)

Section Progress.
Context {W : Type} `{Platform W} `{ProtocolBuild} `{Mac}.

Lemma bind_ends {A B} (h : handler W A) (k : A -> handler W B) st :
  h st <> Blocks -> (forall a s, h st = Returns a s -> k a s <> Blocks) -> (h ≫= k) st <> Blocks.
Proof. unfold mbind, handler_bind. destruct (h st) as [a s| | |]; auto. Qed.

Lemma ask_ends {A} (f : W -> W * A) st : ask f st <> Blocks.
Proof. unfold ask. by destruct (f (pv_world st)). Qed.

Lemma load_ends p (st : provider W) : load p st <> Blocks.
Proof. unfold load. by destruct (pv_conns st !! p). Qed.

Lemma on_conn_ends {A} p (f : connection -> connection * A) (st : provider W) : on_conn p f st <> Blocks.
Proof.
  unfold on_conn. apply bind_ends; [apply load_ends|]. intros c s _. destruct (f c) as [c' a].
  apply bind_ends; [|done]. unfold store. by destruct (pv_conns s !! p).
Qed.

Lemma prepare_ends p st : prepare_connection_close p st <> Blocks.
Proof.
  unfold prepare_connection_close. apply bind_ends; [apply on_conn_ends|]. intros prepare s _.
  destruct (negb prepare); [done|]. do 2 (apply bind_ends; [apply on_conn_ends|]; intros ? ? _).
  apply bind_ends; [apply ask_ends|]. intros drained ? _. by destruct (negb drained).
Qed.

Lemma reclaim_ends p st : reclaim_connection_memory p st <> Blocks.
Proof.
  unfold reclaim_connection_memory. apply bind_ends; [apply load_ends|]. intros c s _.
  destruct (negb _); [done|]. apply bind_ends.
  { unfold with_manager. by destruct (is_memory_manager_disconnect _ _ _) as [[]]. }
  intros r ? _. destruct (_ || _); [|done]. apply bind_ends; [apply on_conn_ends|done].
Qed.

(** The other threads drop their references while this one waits for them. *)
Definition drops_references (p : Z) (meanwhile : provider W -> provider W) : Prop :=
  forall st c, pv_conns (meanwhile st) !! p = Some c -> cn_references c <= 1.

Lemma disconnect_silent_ends meanwhile p st :
  drops_references p meanwhile -> disconnect_silent meanwhile p st <> Blocks.
Proof.
  intros Hd. unfold disconnect_silent. apply bind_ends; [done|]. intros ? s1 _.
  apply bind_ends; [apply prepare_ends|]. intros ? s2 _. apply bind_ends.
  - unfold wait_for_connection_references. apply bind_ends; [apply load_ends|]. intros c s3 _.
    destruct (_ <=? _); [done|]. apply bind_ends; [done|]. intros [] s4 [= <-]. apply bind_ends; [apply load_ends|].
    intros c' s5 E. unfold load in E. destruct (pv_conns (meanwhile s3) !! p) eqn:Ec; [|done].
    injection E as <- <-. apply Hd in Ec. by rewrite (proj2 (Z.leb_le _ _)).
  - intros ? s3 _. apply bind_ends; [apply reclaim_ends|]. intros r ? _. by destruct (negb _).
Qed.

(** What the watch finds out of [w]: no reason to wait. *)
Definition expired (l : is_consumer_liveness) (w : W) : bool :=
  let '(w, now_unix) := time_now w in
  let '(_, clock) := clock_monotonic w in
  (now_unix <? 0) ||
  match monotonic_now clock with
  | None => true
  | Some (_, now_ms) =>
      match is_consumer_liveness_check l now_ms now_unix with
      | (IS_CONSUMER_LIVENESS_ACTIVE, Some _) => false
      | _ => true
      end
  end.

Lemma watch_ends meanwhile p fuel c st :
  pv_conns st !! p = Some c -> expired (cn_consumer_liveness c) (pv_world st) = true ->
  watch_liveness meanwhile p (S fuel) st <> Blocks.
Proof.
  intros Hc He. cbn [watch_liveness]. unfold mbind, handler_bind, load. rewrite Hc.
  destruct (cn_closing c); [done|]. unfold ask. unfold expired in He.
  destruct (time_now (pv_world st)) as [w now_unix]. destruct (_ <? _); [done|]. cbn [orb] in He.
  change (pv_world (st <| pv_world := w |>)) with w. destruct (clock_monotonic w) as [w' clock].
  destruct (monotonic_now clock) as [[m ms]|]; [|done].
  by destruct (is_consumer_liveness_check _ _ _) as [[] [wait_ms|]].
Qed.

Lemma monitor_ends meanwhile p fuel c st :
  drops_references p meanwhile -> pv_conns st !! p = Some c -> cn_handshake_complete c = true ->
  expired (cn_consumer_liveness c) (clock_monotonic (pv_world st)).1 = true ->
  monitor_connection_deadlines meanwhile p (S fuel) st <> Blocks.
Proof.
  intros Hd Hc Hh He. unfold monitor_connection_deadlines. apply bind_ends; [apply ask_ends|]. intros clock s1 E1.
  unfold ask in E1. destruct (clock_monotonic (pv_world st)) as [w1 k]. injection E1 as <- <-. cbn [fst] in He.
  apply bind_ends.
  - destruct (monotonic_now k) as [[now ms]|]; [|done].
    assert (Ea : forall t, await_handshake meanwhile p t (S fuel) (st <| pv_world := w1 |>) = Returns tt (st <| pv_world := w1 |>)).
    { intros t. cbn [await_handshake]. unfold mbind, handler_bind, load. cbn. rewrite Hc, Hh. by rewrite orb_true_r. }
    apply bind_ends; [by rewrite Ea|]. intros [] s2 E2. rewrite Ea in E2. injection E2 as <-.
    apply bind_ends; [apply load_ends|]. intros c2 s3 E3. unfold load in E3. cbn in E3. rewrite Hc in E3. injection E3 as <- <-.
    rewrite Hh, andb_false_r. by apply (watch_ends meanwhile p fuel c).
  - intros disconnect s2 _. apply bind_ends; [|intros; apply on_conn_ends].
    destruct disconnect; [by apply disconnect_silent_ends|done].
Qed.
End Progress.

(** * The eviction thread keeps the invariant

    The connections the thread holds stay in place while it waits for their
    answers. *)

Lemma reported_connection p c a : a ∈ reported_activities p c -> ca_connection a = p.
Proof.
  unfold reported_activities. generalize (Z.of_nat <$> seq 0 128). intros l (i & _ & Hi)%list_elem_of_omap.
  destruct (_ =? 0); [done|]. by injection Hi as <-.
Qed.

Section Eviction.
Context {W : Type} `{PlatformLaws W} `{ProtocolBuild} `{Mac}.
Context (B : Z -> nat) (R : Z -> Z -> nat).

Abbreviation inv_at := (inv_at B R).
Abbreviation provider_inv := (provider_inv B R).
Abbreviation safe := (safe true).

(** The invariant, with the connections of [l] in place. *)
Definition held (l : list Z) (st : provider W) : Prop :=
  provider_inv st /\ forall q, q ∈ l -> live q st.

Lemma held_about_memory l p : p ∈ l -> about_memory p (held l).
Proof.
  intros Hp. pose proof (inv_about_memory B R p) as [[K1 K2 K3 K4 K9 K5 K6] K7 K8].
  assert (Hat : forall st, held l st -> inv_at p st) by (intros st [? Hl]; split; auto).
  constructor; [constructor|..].
  - intros st Hst. by apply K1, Hat.
  - intros st c c' Hst Hc Hk. split; [by apply (K2 st c c' (Hat _ Hst))|].
    intros q Hq. apply live_insert. by apply Hst.
  - intros st e Hst He. split; [by apply (K3 st e (Hat _ Hst))|apply Hst].
  - intros st s Hst E. split; [by apply (K4 st s (Hat _ Hst))|apply Hst].
  - intros st c state Hst Hc Hs. split; [by apply (K9 st c state (Hat _ Hst))|apply Hst].
  - intros st r Hst E Es. split; [by apply (K5 st r (Hat _ Hst))|apply Hst].
  - intros st w Hst E. split; [by apply (K6 st w (Hat _ Hst))|apply Hst].
  - intros st c c' Hst Hc Hk. split; [by apply (K7 st c c' (Hat _ Hst))|].
    intros q Hq. apply live_insert. by apply Hst.
  - intros st e Hst. split; [by apply (K8 st e (Hat _ Hst))|apply Hst].
Qed.

(** ** Holding connections *)

Lemma hold_each_keeps l eligible slots acc st :
  held l st -> (forall s, s ∈ slots -> s.1 = 0 \/ s.1 ∈ l) -> (forall q, q ∈ acc -> q ∈ l) ->
  safe (hold_each eligible acc slots) st (fun r st => held l st /\ forall q, q ∈ r -> q ∈ l).
Proof.
  revert acc st. induction slots as [|[p state] slots IH]; intros acc st Hst Hs Hacc; [done|].
  cbn [hold_each]. apply safe_bind.
  apply (safe_mono true _ _ (fun r st => held l st /\ forall q, q ∈ r -> q ∈ l)).
  { intros r st' [Hst' Hr]. apply IH; [done| |done]. intros s Hin. apply Hs. by constructor. }
  unfold hold_connection. destruct (Z.eqb_spec p 0) as [|Hp]; [done|].
  assert (Hin : p ∈ l) by (destruct (Hs (p, state)) as [?|?]; [by constructor|done|done]).
  pose proof (am_kept _ _ (held_about_memory l p Hin)) as HK.
  apply safe_bind. eapply safe_mono; [|by apply (kept_load true p _ HK)]. intros c st1 Hst1. cbv beta.
  destruct (negb _); [done|].
  apply safe_bind. eapply safe_mono; [|by apply (get_reference_kept true p _ HK)]. intros r st2 Hst2. cbv beta.
  apply safe_ret. split; [done|]. intros q. destruct (negb _); [by apply Hacc|].
  rewrite elem_of_app, list_elem_of_singleton. intros [?| ->]; [by apply Hacc|done].
Qed.

(** The connections of the table. *)
Definition in_table (st : provider W) : list Z := filter (fun q => q <> 0) (se_conns (pv_session st)).

Lemma hold_connections_keeps eligible st :
  provider_inv st ->
  safe (hold_connections eligible) st (fun r st' => held (in_table st) st' /\ forall q, q ∈ r -> q ∈ in_table st).
Proof.
  intros Hst. unfold hold_connections. apply safe_bind. unfold gets, ProviderLogic.safe at 1.
  apply hold_each_keeps.
  - split; [done|]. intros q [Hz (i & Hi)%list_elem_of_lookup]%list_elem_of_filter.
    destruct (tb_entry _ _ (pi_table _ _ _ Hst) i q Hi Hz) as (c & Hc & _). by exists c.
  - intros [q state] Hin%elem_of_zip_l. cbn. destruct (decide (q = 0)); [by left|right].
    by apply list_elem_of_filter.
  - intros q Hq. by apply elem_of_nil in Hq.
Qed.

Lemma for_each_keeps {A} (I : provider W -> Prop) (l : list A) (body : A -> handler W unit) st :
  I st -> (forall a st, a ∈ l -> I st -> safe (body a) st (fun _ => I)) ->
  safe (for_each l body) st (fun _ => I).
Proof.
  revert st. induction l as [|a l IH]; intros st Hst Hb; [done|]. cbn [for_each].
  apply kept_bind; [apply Hb; [by constructor|done]|]. intros _ st1 Hst1. apply IH; [done|].
  intros. apply Hb; [by constructor|done].
Qed.

Lemma disconnect_provider_connections_keeps st :
  provider_inv st -> safe disconnect_provider_connections st (fun _ => provider_inv).
Proof.
  intros Hst. unfold disconnect_provider_connections. apply safe_bind.
  eapply safe_mono; [|by apply hold_connections_keeps]. intros r st1 [Hst1 Hr]. cbv beta.
  apply (safe_mono true _ _ (fun _ => held (in_table st))); [by intros ? ? [? _]|].
  apply for_each_keeps; [done|]. intros p st2 Hp Hst2.
  pose proof (am_kept _ _ (held_about_memory _ p (Hr p Hp))) as HK.
  kept_step; [kept_step|by apply (put_reference_kept true p _ HK)].
Qed.

(** ** The dialogue with the consumers *)

Section Dialogue.
Context (meanwhile : provider W -> provider W) (l : list Z).
Context (Hwait : forall st, held l st -> held l (meanwhile st)).

Lemma wait_for_response_keeps p (semaphore : connection -> Z) `{!Setter semaphore} st :
  (forall c v, kept (c <| semaphore := v |>) = kept c) -> p ∈ l -> held l st ->
  safe (wait_for_control_response meanwhile p semaphore) st (fun _ => held l).
Proof.
  intros Hsem Hp Hst. pose proof (am_kept _ _ (held_about_memory l p Hp)) as HK.
  unfold wait_for_control_response. kept_step; [apply (kept_ask true p _ HK); [done|apply clock_quiet]|].
  kept_step; [|kept_step]. kept_step; [by apply Hwait|].
  kept_step; [kept_step; intros c; destruct (0 <? _); [apply Hsem|done]|].
  kept_step. kept_step; [|kept_step]. kept_step; [|kept_step].
  kept_step; [kept_step|]. kept_step; [kept_step|kept_step].
Qed.

Lemma send_message_held p repost st :
  p ∈ l -> held l st -> safe (send_message meanwhile p repost) st (fun _ => held l).
Proof.
  intros Hp Hst. pose proof (held_about_memory l p Hp) as HM.
  apply (send_message_kept meanwhile true p (held l) (held l)); auto using am_kept.
  intros. by apply (submit_memory meanwhile true p _ HM).
Qed.

Lemma send_evict_keeps p st : p ∈ l -> held l st -> safe (send_evict meanwhile p) st (fun _ => held l).
Proof.
  intros Hp Hst. pose proof (am_kept _ _ (held_about_memory l p Hp)) as HK. unfold send_evict.
  kept_step; [by kept_step|by apply send_message_held].
Qed.

Lemma send_stop_keeps p n st : p ∈ l -> held l st -> safe (send_stop meanwhile p n) st (fun _ => held l).
Proof.
  intros Hp Hst. pose proof (am_kept _ _ (held_about_memory l p Hp)) as HK. unfold send_stop.
  kept_step; [kept_step|]. kept_step; [by apply (get_reference_kept true p _ HK)|]. kept_step; [kept_step|].
  kept_step; [by kept_step|]. kept_step; [by apply send_message_held|].
  kept_step; [by apply wait_for_response_keeps|]. kept_step; [by kept_step|].
  kept_step; [by apply (put_reference_kept true p _ HK)|kept_step].
Qed.

Lemma collect_activities_keeps todo acts st :
  held l st -> (forall p, p ∈ todo -> p ∈ l) -> (forall a, a ∈ acts -> ca_connection a ∈ l) ->
  safe (collect_activities meanwhile acts todo) st (fun r st => held l st /\
    forall acts a, r = Some acts -> a ∈ acts -> ca_connection a ∈ l).
Proof.
  revert acts st. induction todo as [|p todo IH]; intros acts st Hst Htodo Hacts.
  { split; [done|]. by intros acts' a [= <-]; apply Hacts. }
  assert (Hp : p ∈ l) by (apply Htodo; constructor).
  pose proof (am_kept _ _ (held_about_memory l p Hp)) as HK. cbn [collect_activities].
  apply safe_bind. eapply safe_mono; [|by apply (wait_for_response_keeps p cn_evict_sem)].
  intros r st1 Hst1. cbv beta. destruct (negb _); [by apply safe_ret|].
  apply safe_bind. eapply safe_mono; [|by apply (kept_load true p _ HK)]. intros c st2 Hst2. cbv beta zeta.
  destruct (_ <? _); [by apply safe_ret|].
  apply safe_bind. eapply safe_mono; [|by apply (post_receives_kept true p _ HK)]. intros ? st3 Hst3. cbv beta.
  apply IH; [done|intros q Hq; apply Htodo; by constructor|].
  intros x [Ha|Ha]%elem_of_app; [by apply Hacts|]. by rewrite (reported_connection _ _ _ Ha).
Qed.

Lemma stop_each_keeps todo st :
  held l st -> (forall p, p ∈ todo -> p ∈ l) -> safe (stop_each meanwhile todo) st (fun _ => held l).
Proof.
  revert st. induction todo as [|p todo IH]; intros st Hst Htodo; [done|].
  assert (Hp : p ∈ l) by (apply Htodo; constructor).
  assert (Hrest : forall q, q ∈ todo -> q ∈ l) by (intros q Hq; apply Htodo; by constructor).
  pose proof (am_kept _ _ (held_about_memory l p Hp)) as HK. cbn [stop_each].
  kept_step; [kept_step|]. kept_step; [by apply IH|]. kept_step; [by apply send_stop_keeps|].
  kept_step; [kept_step|by apply IH].
Qed.
End Dialogue.

(** [qsort] permutes its array. *)
Lemma evict_mem_keeps meanwhile qsort requested st :
  (forall acts, qsort acts ≡ₚ acts) ->
  (forall st', held (in_table st) st' -> held (in_table st) (meanwhile st')) ->
  provider_inv st -> safe (evict_mem meanwhile qsort requested) st (fun _ => provider_inv).
Proof.
  intros Hsort Hwait Hst. unfold evict_mem. apply safe_bind.
  eapply safe_mono; [|by apply hold_connections_keeps]. intros r st1 [Hst1 Hr]. cbv beta.
  set (l := in_table st) in *. apply (safe_mono true _ _ (fun _ => held l)); [by intros ? ? [? _]|].
  assert (Hput : forall st, held l st -> safe (for_each r put_reference) st (fun _ => held l)).
  { intros st2 Hst2. apply for_each_keeps; [done|]. intros p st3 Hp Hst3.
    apply (put_reference_kept true p _ (am_kept _ _ (held_about_memory l p (Hr p Hp)))). done. }
  apply kept_bind.
  { case_bool_decide; [by apply safe_ret|]. destruct r as [|p r]; [done|].
    apply (kept_ask true p _ (am_kept _ _ (held_about_memory l p (Hr p (list_elem_of_here _ _)))));
      [done|apply heap_quiet]. }
  intros allocated st2 Hst2. apply kept_bind; [|intros ? ? ?; by apply Hput].
  destruct (negb allocated); [by apply safe_ret|].
  apply kept_bind.
  { apply for_each_keeps; [done|]. intros p st3 Hp Hst3. apply send_evict_keeps; auto. }
  intros ? st3 Hst3. apply safe_bind.
  eapply safe_mono; [|by apply (collect_activities_keeps meanwhile l Hwait r []); [done|auto|intros x Hx; apply elem_of_nil in Hx]].
  intros [acts|] st4 [Hst4 Hacts]; [|by apply safe_ret]. cbv beta.
  apply kept_bind; [|intros ? ? ?; by apply stop_each_keeps].
  apply for_each_keeps; [done|]. intros x st5 Ha Hst5. unfold select_activity.
  assert (Hin : ca_connection x ∈ l).
  { apply (Hacts acts x eq_refl). rewrite <- (Hsort acts). eapply subseteq_take; exact Ha. }
  pose proof (am_kept _ _ (held_about_memory l _ Hin)) as HK.
  kept_step. intros c. by destruct (_ =? 0).
Qed.

Lemma free_mem_turn_keeps meanwhile qsort st :
  (forall acts, qsort acts ≡ₚ acts) ->
  (forall st', held (in_table st) st' -> held (in_table st) (meanwhile st')) ->
  provider_inv st -> safe (free_mem_turn meanwhile qsort) st (fun _ => provider_inv).
Proof.
  intros Hsort Hwait Hst. unfold free_mem_turn. apply safe_bind. unfold with_manager, ProviderLogic.safe at 1.
  destruct (is_memory_manager_reconcile _ _) as [[[m w] r] res] eqn:E.
  pose proof (reconcile_good B R _ _ _ _ _ _ (pi_good _ _ _ Hst) E) as (_ & Hconn & _).
  apply (reconcile_owners B R) in E as [Hg Ho]; [|apply Hst].
  assert (Hst1 : provider_inv (st <| pv_manager := m |> <| pv_world := w |>)).
  { apply inv_manager; [done|done| |].
    - intros q. unfold registered. by rewrite Hconn.
    - intros q c Hq Hcl [Ha|]; [left|by right]. eapply agrees_ext; [|done]. intros k. by rewrite Ho. }
  destruct (_ && _); [|by apply safe_ret]. by apply evict_mem_keeps.
Qed.
End Eviction.
