(* ===== verification/ProviderReach.v ===== *)
(** * Every run of the daemon keeps the invariant

    A run interleaves the handlers of the daemon's threads.  What the other
    threads do while one waits is itself a run. *)
From S2P Require Import Prelude Protocol Text Auth AuthFile AuthSteps ProviderSession Liveness MemoryManager Observability MemoryManagerInv MemoryManagerConn MemoryManagerOps MemoryManagerSpec ProviderConnection ProviderDaemon ProviderLifecycle ProviderMain ProviderFrames ProviderLogic ProviderMemory ProviderRequests ProviderAuthority ProviderThreads.

Section Reach.
Context {W : Type} `{PlatformLaws W} `{ProtocolBuild} `{Mac}.

(** A connection a thread holds a reference to stays in place while the thread
    waits: [destroy_connection] waits for the references to go.  A connection
    that is closing stays so. *)
Definition keeps_live (l : list Z) (meanwhile : provider W -> provider W) : Prop :=
  forall st q, q ∈ l -> live q st -> live q (meanwhile st).
Definition keeps_closing (p : Z) (meanwhile : provider W -> provider W) : Prop :=
  forall st c, pv_conns st !! p = Some c -> cn_closing c = true ->
    exists c', pv_conns (meanwhile st) !! p = Some c' /\ cn_closing c' = true.

(** The connection an event is about exists; the memory of a new connection is
    not in use. *)
Definition event_context (event : cm_event) : list Z :=
  match event with
  | RDMA_CM_EVENT_ESTABLISHED p | RDMA_CM_EVENT_DISCONNECTED p => [p]
  | _ => []
  end.
Definition event_ready (event : cm_event) (st : provider W) : Prop :=
  match event with
  | RDMA_CM_EVENT_CONNECT_REQUEST => calloc_fresh st
  | RDMA_CM_EVENT_ESTABLISHED p | RDMA_CM_EVENT_DISCONNECTED p => live p st
  | RDMA_CM_EVENT_OTHER => True
  end.

(** [qsort] is the C library's. *)
Inductive reaches (qsort : list chunk_activity -> list chunk_activity) :
    provider W -> provider W -> Prop :=
| reaches_refl st : reaches qsort st st
| reaches_completion meanwhile wc st st1 st2 :
    (forall s, reaches qsort s (meanwhile s)) -> keeps_live [wc_wr_id wc] meanwhile ->
    live (wc_wr_id wc) st -> on_completion meanwhile wc st = Returns tt st1 ->
    reaches qsort st1 st2 -> reaches qsort st st2
| reaches_event meanwhile running event r st st1 st2 :
    (forall s, reaches qsort s (meanwhile s)) -> event_ready event st ->
    keeps_live (event_context event) meanwhile ->
    (forall p, p ∈ event_context event -> keeps_closing p meanwhile) ->
    on_event meanwhile running event st = Returns r st1 ->
    reaches qsort st1 st2 -> reaches qsort st st2
| reaches_monitor meanwhile p fuel st st1 st2 :
    (forall s, reaches qsort s (meanwhile s)) -> keeps_live [p] meanwhile -> keeps_closing p meanwhile ->
    live p st -> monitor_connection_deadlines meanwhile p fuel st = Returns tt st1 ->
    reaches qsort st1 st2 -> reaches qsort st st2
| reaches_free_mem meanwhile st st1 st2 :
    (forall s, reaches qsort s (meanwhile s)) -> keeps_live (in_table st) meanwhile ->
    free_mem_turn meanwhile qsort st = Returns tt st1 ->
    reaches qsort st1 st2 -> reaches qsort st st2
| reaches_disconnect st st1 st2 :
    disconnect_provider_connections st = Returns tt st1 ->
    reaches qsort st1 st2 -> reaches qsort st st2
| reaches_reload clock file r st st1 st2 :
    reload_allowlist clock file st = Returns r st1 ->
    reaches qsort st1 st2 -> reaches qsort st st2
| reaches_snapshot provider_id r st st1 st2 :
    provider_observability_snapshot provider_id st = Returns r st1 ->
    reaches qsort st1 st2 -> reaches qsort st st2.

Lemma reaches_trans qsort st st1 st2 :
  reaches qsort st st1 -> reaches qsort st1 st2 -> reaches qsort st st2.
Proof.
  induction 1; intros; [done| eapply reaches_completion | eapply reaches_event
    | eapply reaches_monitor | eapply reaches_free_mem | eapply reaches_disconnect
    | eapply reaches_reload | eapply reaches_snapshot ]; eauto.
Qed.

Context (B : Z -> nat) (R : Z -> Z -> nat).

Abbreviation inv_at := (inv_at B R).
Abbreviation provider_inv := (provider_inv B R).

Lemma safe_returns {A} d (h : handler W A) st a st' Q :
  safe d h st Q -> h st = Returns a st' -> Q a st'.
Proof. intros Hs E. unfold safe in Hs. by rewrite E in Hs. Qed.

Lemma calm_inv_at meanwhile p :
  (forall st, provider_inv st -> provider_inv (meanwhile st)) -> keeps_live [p] meanwhile ->
  forall st, inv_at p st -> inv_at p (meanwhile st).
Proof.
  intros Hi Hl st [Hst Hp]. split; [by apply Hi|]. apply Hl; [constructor|done].
Qed.

Lemma calm_closing meanwhile p :
  (forall st, provider_inv st -> provider_inv (meanwhile st)) -> keeps_live [p] meanwhile ->
  keeps_closing p meanwhile -> forall st, closing_at B R p st -> closing_at B R p (meanwhile st).
Proof.
  intros Hi Hl Hc st [Hst (c & Hx & Hcl)]. split; [by apply calm_inv_at|]. by eapply Hc.
Qed.

(** ** The main program's handlers *)

Lemma on_event_keeps meanwhile running event st :
  (forall st, provider_inv st -> provider_inv (meanwhile st)) ->
  keeps_live (event_context event) meanwhile ->
  (forall p, p ∈ event_context event -> keeps_closing p meanwhile) ->
  event_ready event st -> provider_inv st ->
  safe true (on_event meanwhile running event) st (fun _ => provider_inv).
Proof.
  intros Hi Hl Hc Hr Hst. destruct event as [|p|p|]; cbn [on_event event_context event_ready] in *.
  - unfold on_connect_request. destruct (negb running); [done|].
    apply kept_bind; [by apply build_connection_keeps|]. intros result st1 Hst1.
    destruct (negb _); [done|]. apply kept_bind; [|intros accepted st2 Hst2; by destruct (negb _)].
    unfold safe, ask. pose proof (accept_quiet (pv_world st1)) as Hq. destruct (rdma_accept _) as [w r].
    destruct Hst1 as [I1 I2 I3 I4 I5 I6 I8 I7]. constructor; cbn; try done. by eapply good_quiet.
  - apply (safe_mono true _ _ (fun _ => inv_at p)); [by intros ? ? [? _]|]. unfold on_connection.
    apply kept_bind; [by apply (on_connect_keeps B R true p)|]. intros ? ? ?. by apply safe_ret.
  - unfold on_disconnect. apply kept_bind; [|intros ? ? ?; by apply safe_ret].
    apply destroy_connection_keeps; [|by split]. apply calm_closing; [done|done|]. apply Hc. by left.
  - done.
Qed.

(** The connections called back are listeners. *)
Lemma load_file_listeners clock r file :
  let '(r', _, notified) := is_auth_registry_load_file clock r file in
  ar_listeners r' = ar_listeners r /\ forall p, p ∈ notified -> p ∈ al_context <$> ar_listeners r.
Proof.
  unfold is_auth_registry_load_file. destruct (negb _); [by split; [|intros p Hp; apply elem_of_nil in Hp]|].
  destruct (parse_file _ _) as [entries|]; [|by split; [|intros p Hp; apply elem_of_nil in Hp]].
  unfold commit_entries. destruct (assign_versions _ _ _) as [es v]. split; [done|]. intros p.
  rewrite !list_elem_of_fmap. intros (l & -> & [_ Hl]%list_elem_of_filter). eauto.
Qed.

Lemma reload_keeps clock file st :
  provider_inv st -> safe true (reload_allowlist clock file) st (fun _ => provider_inv).
Proof.
  intros Hst. unfold reload_allowlist. apply safe_bind. unfold with_registry, safe at 1.
  pose proof (load_file_listeners clock (pv_registry st) file) as Hl.
  pose proof (load_file_limits clock (pv_registry st) file (pi_limits _ _ _ Hst)) as Hlim.
  destruct (is_auth_registry_load_file _ _ _) as [[r result] notified]. destruct Hl as [Hsame Hn]. cbn [fst] in Hlim.
  set (st1 := st <| pv_registry := r |>).
  assert (Hheld : held B R notified st1).
  { destruct Hst as [I1 I2 I3 I4 I5 I6 I8 I7]. split; [constructor; cbn; try done|].
    - destruct I8 as [L1 L2]. split; by rewrite Hsame.
    - intros p Hp. apply Hn, list_elem_of_fmap in Hp as (l & -> & Hl). destruct (lo_live _ _ I8 l Hl) as (c & Hc & _).
      by exists c. }
  apply (safe_mono true _ _ (fun _ => held B R notified)); [by intros ? ? [? _]|].
  apply kept_bind; [|intros ? ? ?; by apply safe_ret].
  apply for_each_keeps; [done|]. intros p st2 Hp Hst2.
  pose proof (am_kept _ _ (held_about_memory B R notified p Hp)) as HK. unfold disconnect_revoked_consumer.
  kept_step; [kept_step|kept_step].
Qed.

(** ** The snapshot of the observability server *)

Lemma inv_quiet st w : provider_inv st -> quiet (pv_world st) w -> provider_inv (st <| pv_world := w |>).
Proof. intros [I1 I2 I3 I4 I5 I6 I8 I7] Hq. constructor; cbn; try done. by eapply good_quiet. Qed.

Lemma snapshot_connections_keeps l snapshot held st :
  ProviderThreads.held B R l st -> (forall p, p ∈ held -> p ∈ l) ->
  safe true (snapshot_connections snapshot held) st (fun _ => ProviderThreads.held B R l).
Proof.
  revert snapshot st. induction held as [|p held IH]; intros snapshot st Hst Hl; [done|].
  pose proof (am_kept _ _ (held_about_memory B R l p (Hl p (list_elem_of_here _ _)))) as HK.
  assert (Hput : forall s st, ProviderThreads.held B R l st -> safe true (put_reference p;; mret s) st
    (fun _ : is_provider_observability_snapshot => ProviderThreads.held B R l)).
  { intros s st' Hst'. apply kept_bind; [by apply (put_reference_kept true p _ HK)|]. by intros. }
  cbn [snapshot_connections]. apply kept_bind; [|intros s st1 Hst1; apply IH; [done|intros; apply Hl; by constructor]].
  unfold snapshot_connection. apply kept_bind; [by apply (kept_load true p _ HK)|]. intros c st1 Hst1.
  destruct (_ =? 0); [by apply Hput|]. destruct (find_consumer_snapshot _ _) as [s [i|]]; [|by apply Hput].
  apply kept_bind; [|intros; by apply Hput].
  destruct (_ =? 0); [|by apply safe_ret]. apply kept_bind; [by apply (memory_status_kept true p)|]. by intros.
Qed.

Lemma snapshot_keeps provider_id st :
  provider_inv st -> safe true (provider_observability_snapshot provider_id) st (fun _ => provider_inv).
Proof.
  intros Hst. unfold provider_observability_snapshot. destruct (_ || _); [by apply safe_ret|]. apply safe_bind.
  unfold memory_status, with_manager, safe at 1. destruct (is_memory_manager_get_status _ _ 0) as [[w r] s] eqn:E.
  apply get_status_quiet in E. pose proof (inv_quiet st w Hst E) as Hw.
  replace (st <| pv_manager := pv_manager st |> <| pv_world := w |>) with (st <| pv_world := w |>) by by destruct st.
  revert Hw. generalize (st <| pv_world := w |>). clear. intros st Hst.
  destruct r, s as [status|]; try by apply safe_ret. apply safe_bind. unfold gets, safe at 1. apply safe_bind.
  eapply safe_mono; [|by apply hold_connections_keeps]. intros held st1 [Hst1 Hl]. cbv beta. apply safe_bind.
  eapply safe_mono; [|by apply snapshot_connections_keeps]. intros s' st2 [Hst2 _]. by apply safe_ret.
Qed.

Lemma reaches_inv qsort st st' :
  (forall acts, qsort acts ≡ₚ acts) -> reaches qsort st st' -> provider_inv st -> provider_inv st'.
Proof.
  intros Hsort Hr.
  induction Hr as [| mw wc st st1 st2 _ IHmw Hl Hp Hrun _ IH | mw running ev r st st1 st2 _ IHmw Hev Hl Hc Hrun _ IH
    | mw p fuel st st1 st2 _ IHmw Hl Hc Hp Hrun _ IH | mw st st1 st2 _ IHmw Hl Hrun _ IH
    | st st1 st2 Hrun _ IH | clock file r st st1 st2 Hrun _ IH | id r st st1 st2 Hrun _ IH]; intros Hst; [done|..]; apply IH.
  - apply (safe_returns true _ _ _ _ (fun _ st => inv_at (wc_wr_id wc) st)) in Hrun; [by destruct Hrun|].
    apply (on_completion_keeps B R mw true wc); [|by split]. by apply calm_inv_at.
  - apply (safe_returns true _ _ _ _ (fun _ => provider_inv)) in Hrun; [done|]. by apply on_event_keeps.
  - apply (safe_returns true _ _ _ _ (fun _ st => inv_at p st)) in Hrun; [by destruct Hrun|].
    apply (monitor_keeps B R mw p); [by apply calm_closing|by apply calm_inv_at|by split].
  - apply (safe_returns true _ _ _ _ (fun _ => provider_inv)) in Hrun; [done|].
    apply free_mem_turn_keeps; [done| |done].
    intros s [Hs Hlive]. split; [by apply IHmw|]. intros q Hq. apply Hl; [done|by apply Hlive].
  - apply (safe_returns true _ _ _ _ (fun _ => provider_inv)) in Hrun; [done|].
    by apply disconnect_provider_connections_keeps.
  - apply (safe_returns true _ _ _ _ (fun _ => provider_inv)) in Hrun; [done|]. by apply reload_keeps.
  - apply (safe_returns true _ _ _ _ (fun _ => provider_inv)) in Hrun; [done|]. by apply snapshot_keeps.
Qed.
End Reach.

Lemma init_table : table_ok rdma_session_init ∅.
Proof.
  constructor; try done.
  - intros i. unfold rdma_session_init, zeros. cbn [se_conns se_conns_state].
    rewrite !lookup_replicate. naive_solver.
  - intros i p Hi Hz. apply lookup_replicate in Hi as [-> _]. done.
Qed.

Lemma start_inv {W} `{PlatformLaws W} cfg lock_status (w w' : W) m registry pd :
  is_u32 (host_reserve_gib cfg) -> is_u32 (max_opportunistic_gib cfg) -> is_u32 (max_committed_gib cfg) ->
  is_memory_manager_create cfg lock_status w = (w', Some m) -> Forall wide_limits (ar_entries registry) -> ar_listeners registry = [] ->
  provider_inv (blocks w) (regs w) (provider_start m w' registry pd).
Proof.
  intros U1 U2 U3 Hc Hlim Hls. pose proof (create_good _ _ _ _ _ U1 U2 U3 Hc) as Hg.
  assert (Hconn : connections m = []).
  { unfold is_memory_manager_create in Hc. destruct (negb _); [done|]. destruct (heap w) as [w1 ok1].
    destruct (negb ok1); [done|]. destruct (heap w1) as [w2 ok2]. destruct (negb ok2); [done|].
    destruct (negb _); [done|]. by injection Hc as <- <-. }
  constructor; cbn -[zeros]; try done.
  - intros p. unfold registered. rewrite Hconn. intros Hp. by apply elem_of_nil in Hp.
  - exact init_table.
  - split; rewrite Hls; [constructor|]. intros l Hl. by apply elem_of_nil in Hl.
Qed.

(** * The daemon from its start to its end

    A start that is refused gives its memory back, one that succeeds gives the
    invariant, and the end of [main] gives everything back. *)

From S2P Require Import MemoryConfig MemoryConfigSpec.

Section Start.
Context {W : Type} `{PlatformLaws W} `{ProtocolBuild} `{Mac}.

(** The live blocks and registrations are the same. *)
Definition same_memory (w w' : W) : Prop :=
  (forall a, a <> 0 -> mem_blocks w' a = mem_blocks w a) /\
  (forall pd r, r <> 0 -> mem_regs w' pd r = mem_regs w pd r).

Lemma create_refused cfg lock_status w w' :
  is_memory_manager_create cfg lock_status w = (w', None) -> same_memory w w'.
Proof.
  unfold is_memory_manager_create. destruct (negb _); [by intros [= <-]|].
  pose proof (heap_quiet w) as [F1 F2]. destruct (heap w) as [w1 ok1] eqn:E1. cbn in E1. rewrite E1 in F1, F2. cbn in F1, F2.
  destruct (negb ok1); [intros [= <-]; split; intros; by rewrite ?F1, ?F2|].
  pose proof (heap_quiet w1) as [F3 F4]. destruct (heap w1) as [w2 ok2] eqn:E2. cbn in E2. rewrite E2 in F3, F4. cbn in F3, F4.
  destruct (negb ok2); [|destruct (negb _); [|done]]; intros [= <-]; split; intros; by rewrite ?F3, ?F4, ?F1, ?F2.
Qed.

Lemma destroy_empty n (w : W) :
  destroy_registrations (replicate n empty_chunk) w = (replicate n (empty_chunk <| owner := 0 |>), w, false).
Proof. induction n as [|n IH]; cbn; [done|]. by rewrite IH. Qed.

Lemma created_chunks cfg lock_status (w w' : W) m :
  is_memory_manager_create cfg lock_status w = (w', Some m) -> exists n, chunks m = replicate n empty_chunk.
Proof.
  unfold is_memory_manager_create. destruct (negb _); [done|]. destruct (heap w) as [w1 ok1].
  destruct (negb ok1); [done|]. destruct (heap w1) as [w2 ok2]. destruct (negb ok2); [done|].
  destruct (negb _); [done|]. intros [= <- <-]. by eexists.
Qed.

Lemma abandon_returns cfg lock_status w w1 m w' r :
  config_widths cfg -> is_memory_manager_create cfg lock_status w = (w1, Some m) ->
  abandon m w1 = (w', r) -> same_memory w w' /\ r = inl 1.
Proof.
  intros (U1 & U2 & U3) Hc. pose proof (create_good _ _ _ _ _ U1 U2 U3 Hc) as Hg.
  destruct (created_chunks _ _ _ _ _ Hc) as [n Hn].
  unfold abandon. destruct (is_memory_manager_destroy m w1) as [[m' w2] res] eqn:Ed. intros [= <- <-].
  pose proof (destroy_good _ _ _ _ _ _ _ Hg Ed) as Hd. destruct m' as [m'|]; [|by destruct Hd].
  unfold is_memory_manager_destroy in Ed. by rewrite Hn, destroy_empty in Ed.
Qed.

(** Every way [main_start] ends. *)
Lemma main_start_cases s pd (w w' : W) r :
  main_start s pd w = (w', r) ->
  match r with
  | inl status => status = 1 /\ same_memory w w'
  | inr st => provider_inv (mem_blocks w) (mem_regs w) st /\ pv_world st = w'
  end.
Proof.
  unfold main_start. destruct (is_memory_manager_config_load _) as [|cfg] eqn:Ec; [by intros [= <- <-]|].
  apply config_load_widths in Ec as [Hw _].
  destruct (is_memory_manager_create _ _ _) as [w1 [m|]] eqn:Em;
    [|intros [= <- <-]; split; [done|]; by eapply create_refused].
  assert (Hgive : forall r', abandon m w1 = (w', r') -> r' = inl 1 /\ same_memory w w').
  { intros r' Hr'. apply (abandon_returns _ _ _ _ _ _ _ Hw Em) in Hr' as [? ?]. by split. }
  assert (Hg : abandon m w1 = (w', r) -> match r with inl status => status = 1 /\ same_memory w w'
    | inr st => provider_inv (mem_blocks w) (mem_regs w) st /\ pv_world st = w' end)
    by (by intros [-> ?]%Hgive).
  destruct (provider_identity _ _) as [id|]; [|done]. destruct (negb _); [done|].
  destruct (observability_port _) as [port|]; [|done].
  pose proof (load_file_limits (su_clock s) is_auth_registry_init (su_allowlist s) ltac:(constructor)) as Hl.
  pose proof (load_file_listeners (su_clock s) is_auth_registry_init (su_allowlist s)) as Hls.
  destruct (is_auth_registry_load_file _ _ _) as [[registry result] notified]. destruct Hls as [Hls _].
  destruct result; try done. destruct (_ && _); [done|]. intros [= <- <-].
  destruct Hw as (U1 & U2 & U3). split; [|done]. by apply (start_inv cfg (su_lock_status s)).
Qed.
End Start.

Section End_.
Context {W : Type} `{PlatformLaws W} `{ProtocolBuild} `{Mac}.
Context (B : Z -> nat) (R : Z -> Z -> nat) (meanwhile : provider W -> provider W).

Abbreviation provider_inv := (provider_inv B R).

Context (others_inv : forall st, provider_inv st -> provider_inv (meanwhile st)).
Context (others_live : forall p, keeps_live [p] meanwhile) (others_closing : forall p, keeps_closing p meanwhile).

(** The network reports events of existing connections. *)
Definition reports (event : provider W -> option cm_event) : Prop :=
  forall st e, event st = Some e -> event_ready e st.

Lemma others_context e :
  keeps_live (event_context e) meanwhile /\ (forall p, p ∈ event_context e -> keeps_closing p meanwhile).
Proof.
  split; [|intros; apply others_closing]. intros st q Hq. apply (others_live q). by left.
Qed.

Lemma get_cm_event_keeps event st :
  reports event -> provider_inv st ->
  safe true (rdma_get_cm_event meanwhile event) st (fun e st => provider_inv st /\ from_option (fun e => event_ready e st) True e).
Proof.
  intros Hr Hst. unfold safe. cbn. split; [by apply others_inv|].
  destruct (event (meanwhile st)) as [e|] eqn:E; [by apply Hr|done].
Qed.

Lemma event_keeps running e st :
  event_ready e st -> provider_inv st -> safe true (on_event meanwhile running e) st (fun _ => provider_inv).
Proof. intros Hr Hst. destruct (others_context e). by apply on_event_keeps. Qed.

Lemma event_loop_keeps inputs st :
  Forall (fun i => reports i.2) inputs -> provider_inv st ->
  safe true (event_loop meanwhile inputs) st (fun _ => provider_inv).
Proof.
  revert st. induction inputs as [|[running event] inputs IH]; intros st Hr Hst; [done|]. cbn [event_loop].
  apply list.Forall_cons in Hr as [Hr Hrs]. destruct (negb running); [done|].
  apply safe_bind. eapply safe_mono; [|by apply get_cm_event_keeps]. intros [e|] s [Hs He]; [|done].
  apply kept_bind; [by apply event_keeps|]. intros r s1 Hs1. destruct (negb _); [done|]. by apply IH.
Qed.

Lemma drain_loop_keeps inputs st :
  Forall reports inputs -> provider_inv st -> safe true (drain_loop meanwhile inputs) st (fun _ => provider_inv).
Proof.
  revert st. induction inputs as [|event inputs IH]; intros st Hr Hst; cbn [drain_loop];
    (apply kept_bind; [done|]; intros n s0 Hs0; destruct (_ =? _); [done|]); [done|].
  apply list.Forall_cons in Hr as [Hr Hrs].
  apply safe_bind. eapply safe_mono; [|by apply get_cm_event_keeps]. intros [e|] s [Hs He]; [|done].
  apply kept_bind; [by apply event_keeps|]. intros _ s1 Hs1.
  apply kept_bind; [by apply disconnect_provider_connections_keeps|]. intros _ s2 Hs2. by apply IH.
Qed.

Lemma table_counts st : provider_inv st -> se_conn_num (pv_session st) = 0 <-> pv_conns st = ∅.
Proof.
  intros Hst. destruct (pi_table _ _ _ Hst) as [T1 T2 T3 T4 T5 T6]. rewrite T6. split.
  - intros Hz. apply map_empty. intros p. destruct (pv_conns st !! p) as [c|] eqn:Hc; [|done]. exfalso.
    destruct (T5 p c Hc) as [_ Hi]. destruct (nil_or_length_pos (filter (fun q => q <> 0) (se_conns (pv_session st)))) as [E|]; [|lia].
    apply (not_elem_of_nil p). rewrite <- E. apply list_elem_of_filter. split; [|by eapply list_elem_of_lookup_2].
    intros ->. by rewrite (pi_null _ _ _ Hst) in Hc.
  - intros He. destruct (filter _ _) as [|q l] eqn:E; [done|]. exfalso.
    assert (Hq : q ∈ q :: l) by (by left). rewrite <- E in Hq. apply list_elem_of_filter in Hq as [Hne Hin].
    apply list_elem_of_lookup in Hin as [i Hi]. destruct (T4 i q Hi Hne) as (c & Hc & _). by rewrite He in Hc.
Qed.

(** What the daemon leaves behind, with its exit status. *)
Definition left_behind (orderly : bool) (status : Z) (st : provider W) : Prop :=
  (status = 0 \/ status = 1) /\
  (status = 0 -> orderly = true) /\
  (pv_conns st <> ∅ -> status = 1 /\ provider_inv st) /\
  (pv_conns st = ∅ ->
     ((orderly = true -> status = 0) /\
      (forall a, a <> 0 -> mem_blocks (pv_world st) a = B a) /\
      (forall pd r, r <> 0 -> mem_regs (pv_world st) pd r = R pd r)) \/
     (status = 1 /\ healthy (pv_manager st) = false /\
      owns B R (chunks (pv_manager st)) (pv_world st))).

Lemma main_end_leaves orderly inputs st :
  Forall reports inputs -> provider_inv st ->
  safe true (main_end meanwhile orderly inputs) st (left_behind orderly).
Proof.
  intros Hr Hst. unfold main_end. apply safe_bind.
  eapply safe_mono; [|by apply disconnect_provider_connections_keeps]. intros [] s1 Hs1.
  apply safe_bind. eapply safe_mono; [|by apply drain_loop_keeps]. intros [] s2 Hs2.
  unfold wait, modify, provider_connection_count, gets, safe, mbind, handler_bind.
  apply others_inv in Hs2. pose proof (table_counts _ Hs2) as Hn. set (s := meanwhile s2) in *.
  destruct (Z.eqb_spec (se_conn_num (pv_session s)) 0) as [E|E]; cbn [negb].
  2: { unfold mret, handler_ret. split_and!; [by right|done|by split|]. intros He. by apply Hn in He. }
  apply Hn in E. unfold with_manager.
  destruct (is_memory_manager_destroy _ _) as [[m' w'] r] eqn:Ed.
  pose proof (destroy_good _ _ _ _ _ _ _ (pi_good _ _ _ Hs2) Ed) as Hd.
  destruct m' as [m'|]; destruct Hd as (-> & Hd); cbn.
  - destruct Hd as (Hh & Ho & _). split_and!; [by right|done|done|]. intros _. by right.
  - destruct Hd as [Hb Hg]. split_and!; [destruct orderly; auto|by destruct orderly|done|]. intros _. left. by destruct orderly.
Qed.

Lemma main_run_leaves inputs orderly drained st :
  Forall (fun i => reports i.2) inputs -> Forall reports drained -> provider_inv st ->
  safe true (main_run meanwhile inputs orderly drained) st (left_behind orderly).
Proof.
  intros Hi Hd Hst. unfold main_run. apply safe_bind. eapply safe_mono; [|by apply event_loop_keeps].
  intros [] s Hs. by apply main_end_leaves.
Qed.
End End_.
