(* ===== verification/ProviderQueue.v ===== *)
(** * The send queue of a connection is a queue

    Two buffers and a handful of flags implement a first-in first-out queue of
    at most two frames, the first of which belongs to the network card. *)
From S2P Require Import Prelude Protocol Text Auth ProviderSession Liveness ProviderConnection.

(** ** What the flags represent *)

(** A frame with what to do once it is sent: close, receive again. *)
Definition send_entry : Type := list Z * bool * bool.

Definition send_queue (c : connection) : list send_entry :=
  if cn_send_inflight c then
    (outgoing_frame c, cn_close_after_send c, cn_repost_after_send c) ::
    (if cn_pending_send c then
       [(buf_read (cn_pending_send_frame c) 0 (cn_pending_send_frame_size c),
         cn_pending_close_after_send c, cn_pending_repost_after_send c)]
     else [])
  else [].

Record queue_ok (c : connection) : Prop := {
  qo_pending : cn_pending_send c = true -> cn_send_inflight c = true;
  qo_buffer : length (cn_send_frame c) = 4096%nat;
  qo_pending_buffer : length (cn_pending_send_frame c) = 4096%nat;
  qo_pending_size : cn_pending_send c = true -> 0 < cn_pending_send_frame_size c <= 4096
}.

Lemma buf_read_write buf bytes n :
  length buf = 4096%nat -> 0 <= n <= 4096 -> Z.of_nat (length bytes) = n ->
  buf_read (buf_write buf 0 bytes) 0 n = bytes.
Proof.
  intros Hb Hn Hl. unfold buf_read. rewrite buf_write_0 by lia. change (Z.to_nat 0) with 0%nat.
  rewrite drop_0. replace (Z.to_nat n) with (length bytes) by lia. by rewrite take_app_length.
Qed.

Lemma length_read_frame frame size :
  0 <= size <= Z.of_nat (length frame) -> Z.of_nat (length (buf_read frame 0 size)) = size.
Proof. intros Hs. unfold buf_read. rewrite length_take, length_drop. cbn. lia. Qed.

(** ** The operations *)

(** Submitting appends to the queue, of two entries at most; the frame is
    posted exactly when it is alone. *)
Lemma queue_submit c frame size close repost :
  queue_ok c -> 0 < size <= 4096 -> size <= Z.of_nat (length frame) ->
  let '(c', post_now, result) := queue_encoded_message c frame size close repost in
  let entry := (buf_read frame 0 size, close, repost) in
  queue_ok c' /\
  match send_queue c with
  | [] => send_queue c' = [entry] /\ post_now = true /\ result = 0
  | [first] => send_queue c' = [first; entry] /\ post_now = false /\ result = 0
  | _ => c' = c /\ post_now = false /\ result = -1
  end.
Proof.
  intros [Q1 Q2 Q3 Q4] Hs Hf. pose proof (length_read_frame frame size ltac:(lia)) as Hlen.
  unfold queue_encoded_message, send_queue, outgoing_frame.
  destruct (cn_send_inflight c) eqn:E1; cbn [negb].
  2: { assert (E2 : cn_pending_send c = false) by (destruct (cn_pending_send c); [by specialize (Q1 eq_refl)|done]).
       split; [constructor; cbn; rewrite ?length_buf_write, ?E2; try done|]. cbn -[buf_read buf_write].
       rewrite E2, buf_read_write by (done || lia). done. }
  destruct (cn_pending_send c) eqn:E2; cbn [negb]; [by split; [constructor; rewrite ?E1, ?E2; auto|]|].
  split; [constructor; cbn; rewrite ?length_buf_write; done|]. cbn -[buf_read buf_write].
  rewrite E1, buf_read_write by (done || lia). done.
Qed.

(** The end of a send removes the first entry; the next one is posted, unless
    the first asked to close, which empties the queue. *)
Lemma queue_finish c frame close repost rest :
  queue_ok c -> send_queue c = (frame, close, repost) :: rest ->
  let '(c', start_next, close', repost') := finish_send c in
  queue_ok c' /\ close' = close /\ repost' = repost /\
  send_queue c' = (if close then [] else rest) /\
  start_next = negb close && negb (bool_decide (rest = [])).
Proof.
  intros [Q1 Q2 Q3 Q4] Hq. unfold send_queue in Hq. destruct (cn_send_inflight c) eqn:E1; [|done].
  injection Hq as Hf Hc Hr Hrest. unfold finish_send. rewrite Hc, Hr. destruct close.
  { split_and!; done. }
  cbn [cn_pending_send update negb andb]. destruct (cn_pending_send c) eqn:E2; subst rest.
  - cbn. split_and!; try done.
    + constructor; cbn; rewrite ?length_buf_write; try done.
    + unfold send_queue, outgoing_frame. cbn -[buf_read buf_write]. rewrite E1. specialize (Q4 eq_refl).
      rewrite buf_read_write; [done|done|lia|]. apply length_read_frame. rewrite Q3. lia.
  - cbn. split_and!; try done. constructor; cbn; rewrite ?E2; done.
Qed.

(** A failed post empties the queue. *)
Lemma queue_clear c : queue_ok c -> queue_ok (clear_sends c) /\ send_queue (clear_sends c) = [].
Proof. intros [Q1 Q2 Q3 Q4]. by split; [constructor|]. Qed.

(** ** Refinement of a queue *)

Inductive send_op :=
| Submit (frame : list Z) (frame_size : Z) (close repost : bool)
| Complete.

(** One operation on a connection: the frame posted, if any, and whether the
    submission is accepted. *)
Definition exec_send (c : connection) (op : send_op) : connection * option (list Z) * bool :=
  match op with
  | Submit frame frame_size close repost =>
      let '(c, post_now, result) := queue_encoded_message c frame frame_size close repost in
      (c, if post_now : bool then Some (outgoing_frame c) else None, result =? 0)
  | Complete =>
      let '(c, start_next, _, _) := finish_send c in
      (c, if start_next : bool then Some (outgoing_frame c) else None, true)
  end.

(** The same on a queue of entries. *)
Definition spec_send (q : list send_entry) (op : send_op) :
    list send_entry * option (list Z) * bool :=
  match op with
  | Submit frame frame_size close repost =>
      let entry := (buf_read frame 0 frame_size, close, repost) in
      match q with
      | [] => ([entry], Some (buf_read frame 0 frame_size), true)
      | [first] => ([first; entry], None, true)
      | _ => (q, None, false)
      end
  | Complete =>
      match q with
      | [] => ([], None, true)
      | (_, close, _) :: rest =>
          if close : bool then ([], None, true) else (rest, (fun e => e.1.1) <$> head rest, true)
      end
  end.

(** A completion is that of a send in flight; a frame submitted has the size
    the encoder produces. *)
Definition send_op_ok (q : list send_entry) (op : send_op) : Prop :=
  match op with
  | Submit frame frame_size _ _ => 0 < frame_size <= 4096 /\ frame_size <= Z.of_nat (length frame)
  | Complete => q <> []
  end.

Lemma queue_head c e rest : send_queue c = e :: rest -> outgoing_frame c = e.1.1.
Proof. unfold send_queue. destruct (cn_send_inflight c); [|done]. by intros [= <- _]. Qed.

Lemma exec_send_refines c op :
  queue_ok c -> send_op_ok (send_queue c) op ->
  let '(c', posted, accepted) := exec_send c op in
  queue_ok c' /\ spec_send (send_queue c) op = (send_queue c', posted, accepted).
Proof.
  intros Hc Hop. destruct op as [frame size close repost|]; cbn [exec_send spec_send].
  - destruct Hop as [H1 H2]. pose proof (queue_submit c frame size close repost Hc H1 H2) as Hs.
    destruct (queue_encoded_message _ _ _ _ _) as [[c' post] r]. destruct Hs as [Hok Hq]. split; [done|].
    destruct (send_queue c) as [|e [|e2 q]] eqn:E.
    + destruct Hq as (Hq & -> & ->). by rewrite Hq, (queue_head _ _ _ Hq).
    + by destruct Hq as (-> & -> & ->).
    + destruct Hq as (-> & -> & ->). by rewrite E.
  - cbn in Hop. destruct (send_queue c) as [|[[f cl] rp] rest] eqn:E; [done|].
    pose proof (queue_finish c f cl rp rest Hc E) as Hf.
    destruct (finish_send c) as [[[c' next] close'] repost']. destruct Hf as (Hok & _ & _ & Hq & ->).
    split; [done|]. destruct cl; cbn; [by rewrite Hq|].
    destruct rest as [|e rest]; cbn; [by rewrite Hq|]. by rewrite Hq, (queue_head _ _ _ Hq).
Qed.

(** Runs, with the frames posted and the frames accepted. *)
Fixpoint exec_sends (c : connection) (ops : list send_op) : connection * list (list Z) * list bool :=
  match ops with
  | [] => (c, [], [])
  | op :: ops =>
      let '(c, posted, accepted) := exec_send c op in
      let '(c, ps, accs) := exec_sends c ops in
      (c, option_list posted ++ ps, accepted :: accs)
  end.

Fixpoint spec_sends (q : list send_entry) (ops : list send_op) :
    list send_entry * list (list Z) * list bool :=
  match ops with
  | [] => (q, [], [])
  | op :: ops =>
      let '(q, posted, accepted) := spec_send q op in
      let '(q, ps, accs) := spec_sends q ops in
      (q, option_list posted ++ ps, accepted :: accs)
  end.

Fixpoint send_ops_ok (q : list send_entry) (ops : list send_op) : Prop :=
  match ops with
  | [] => True
  | op :: ops => send_op_ok q op /\ send_ops_ok (spec_send q op).1.1 ops
  end.

Lemma exec_sends_refines c ops :
  queue_ok c -> send_ops_ok (send_queue c) ops ->
  let '(c', posted, accepted) := exec_sends c ops in
  queue_ok c' /\ spec_sends (send_queue c) ops = (send_queue c', posted, accepted).
Proof.
  revert c. induction ops as [|op ops IH]; intros c Hc Hops; [done|].
  destruct Hops as [Hop Hops]. pose proof (exec_send_refines c op Hc Hop) as Hr. cbn [exec_sends spec_sends].
  destruct (exec_send c op) as [[c1 posted] accepted]. destruct Hr as [Hc1 Hq]. rewrite Hq in Hops |- *.
  specialize (IH c1 Hc1 Hops). destruct (exec_sends c1 ops) as [[c2 ps] accs].
  destruct IH as [Hc2 ->]. done.
Qed.

(** The frames accepted, in the order of their submission. *)
Fixpoint accepted_frames (ops : list send_op) (accepted : list bool) : list (list Z) :=
  match ops, accepted with
  | Submit frame frame_size _ _ :: ops, ok :: accepted =>
      (if ok : bool then [buf_read frame 0 frame_size] else []) ++ accepted_frames ops accepted
  | _ :: ops, _ :: accepted => accepted_frames ops accepted
  | _, _ => []
  end.

Definition waiting_frames (q : list send_entry) : list (list Z) := (fun e => e.1.1) <$> tail q.

Lemma spec_send_length q op : (length q <= 2)%nat -> (length (spec_send q op).1.1 <= 2)%nat.
Proof. intros Hq. destruct op, q as [|[[? []] ?] [|? [|]]]; cbn in *; lia. Qed.

(** What is posted is what was waiting and what is accepted, in that order:
    nothing is reordered, repeated or invented.  Only a frame that closes the
    connection drops what waits behind it. *)
Lemma spec_sends_ordered q ops :
  (length q <= 2)%nat ->
  let '(q', posted, accepted) := spec_sends q ops in
  posted `sublist_of` waiting_frames q ++ accepted_frames ops accepted.
Proof.
  revert q. induction ops as [|op ops IH]; intros q Hq; cbn [spec_sends]; [apply sublist_nil_l|].
  pose proof (spec_send_length q op Hq) as Hq1. destruct (spec_send q op) as [[q1 posted] accepted] eqn:E.
  specialize (IH q1 Hq1). destruct (spec_sends q1 ops) as [[q2 ps] accs].
  destruct op as [frame size close repost|]; cbn in E |- *.
  - destruct q as [|e [|e2 q]]; simplify_eq; cbn in *; [by apply sublist_skip|done|done].
  - destruct q as [|[[f cl] rp] rest]; [by simplify_eq|]. destruct cl; injection E as <- <- <-.
    + by apply sublist_inserts_l.
    + destruct rest as [|e rest]; cbn in *; [done|by apply sublist_skip].
Qed.

Definition stays_open (q : list send_entry) : Prop := Forall (fun e => e.1.2 = false) q.

Definition keeps_open (op : send_op) : Prop :=
  match op with Submit _ _ close _ => close = false | Complete => True end.

Lemma spec_sends_complete q ops :
  (length q <= 2)%nat -> stays_open q -> Forall keeps_open ops ->
  let '(q', posted, accepted) := spec_sends q ops in
  posted ++ waiting_frames q' = waiting_frames q ++ accepted_frames ops accepted.
Proof.
  intros Hq Ho Hops. revert q Hq Ho. induction Hops as [|op ops Hop Hops IH]; intros q Hq Ho; cbn [spec_sends].
  { cbn. by rewrite app_nil_r. }
  pose proof (spec_send_length q op Hq) as Hq1. destruct (spec_send q op) as [[q1 posted] accepted] eqn:E.
  assert (Ho1 : stays_open q1).
  { unfold stays_open in *. destruct op, q as [|[[? []] ?] [|? [|]]]; cbn in E; simplify_eq; cbn in *;
      rewrite ?list.Forall_cons in *; cbn in *; intuition. }
  specialize (IH q1 Hq1 Ho1). destruct (spec_sends q1 ops) as [[q2 ps] accs].
  destruct op as [frame size close repost|]; cbn in E |- *.
  - destruct q as [|e [|e2 q]]; simplify_eq; cbn in *; by rewrite ?IH.
  - destruct q as [|[[f cl] rp] rest]; [by simplify_eq|].
    apply list.Forall_cons in Ho as [Hcl _]. cbn in Hcl. subst cl. injection E as <- <- <-.
    destruct rest as [|e rest]; cbn in *; by rewrite ?IH.
Qed.

(** * The dialogue of eviction, end to end

    From the frames of the provider's requests to what its threads read of the
    answers; and the frames that grant chunks. *)

From S2P Require Import ProtocolWire ProtocolRoundtrip ProtocolCanonical ProtocolSpec.
From S2P Require Import ProviderSessionAnswer MemoryManager ProviderDaemon ProviderLifecycle ProviderFrames ProviderExchange.

(** ** What the eviction thread reads *)

Lemma reported_marked p c :
  reported_activities p c =
  (fun i => {| ca_activity := byte_at (cm_buf (cn_recv_message c)) i; ca_provider_chunk_id := i;
               ca_connection := p |}) <$> marked (cm_rkey (cn_recv_message c)).
Proof.
  unfold reported_activities, marked, chunks_below, indices. change (Z.to_nat MAX_MR_SIZE_GB) with 128%nat.
  generalize (Z.of_nat <$> seq 0 128). intros l. induction l as [|i l IH]; [done|]. cbn [omap list_omap].
  rewrite filter_cons. destruct (byte_at _ i =? 0); cbn [negb]; case_decide; try done.
  cbn. f_equal. exact IH.
Qed.

(** The activities the eviction thread reads are those of the answer. *)
Lemma reported_taken p c m :
  (activity_entries m).*1 ≡ₚ marked (cn_pending_evict_chunks c) ->
  cn_recv_message c = zero_control_message ->
  (fun a => (ca_provider_chunk_id a, ca_activity a)) <$> reported_activities p (activity_taken c m)
    ≡ₚ activity_entries m.
Proof.
  intros Hp Hz. destruct (activity_taken_recorded c m Hp Hz) as [Hk Hb].
  rewrite reported_marked, Hk, <- list_fmap_compose, <- Hp, <- list_fmap_compose.
  rewrite <- (list_fmap_id (activity_entries m)) at 2. apply reflexive_eq, list_fmap_ext.
  intros _ [i a] Hin%list_elem_of_lookup_2. cbn -[byte_at activity_taken]. by rewrite (Hb i a Hin).
Qed.

(** ** Answers as they arrive *)

(** A decoded ACTIVITY or RELEASE is well formed and lists at most 128
    chunks. *)
Lemma arrival `{ProtocolBuild} frame m :
  is_bytes frame -> decoded frame m ->
  hdr_type (msg_header m) = IS_PROTOCOL_MSG_ACTIVITY \/ hdr_type (msg_header m) = IS_PROTOCOL_MSG_RELEASE ->
  wf_payload (msg_payload m) /\ activity_chunk_count (get_activity (msg_payload m)) <= 128 /\
  ids_chunk_count (get_chunk_ids (msg_payload m)) <= 128.
Proof.
  intros Hb Hd Ht.
  assert (Hplain : plain_identifiers (drop 48 frame) (msg_payload m)).
  { destruct (msg_payload m) eqn:Ep; try done. exfalso. revert Hd. unfold decoded, is_protocol_decode.
    case_match; [done|]. destruct (is_decode_header _ _) as [|[h n]]; [done|].
    destruct (is_decode_payload _ _ _) as [|pl] eqn:E; [done|]. intros [= <-]. cbn in Ht, Ep. subst pl.
    unfold is_decode_payload in E. destruct Ht as [Ht|Ht]; rewrite Ht in E;
      cbn -[is_decode_chunk_ids for_err] in E; repeat (case_match; try done). }
  destruct (is_protocol_decode_inv _ _ _ Hb eq_refl Hd Hplain) as ((Hh & Hw & Hm) & n & a & b & _ & Hs & _).
  split; [done|]. unfold is_payload_size in Hs.
  destruct (msg_payload m) as [| | | | | | | |ids|act|] eqn:Ep; try (cbn; split; lia).
  - destruct Ht as [Ht|Ht]; rewrite Ht in Hs; [by rewrite Ht in Hm|]. destruct Hw as ([? _] & _).
    cbn -[is_validate_chunk_count exists_below] in Hs |- *. split; [lia|].
    destruct (is_validate_chunk_count _) eqn:Ec; [done|].
    by apply is_validate_chunk_count_range in Ec as [_ [_ ?]].
  - destruct Ht as [Ht|Ht]; rewrite Ht in Hs; [|by rewrite Ht in Hm]. destruct Hw as ([? _] & _).
    cbn -[is_validate_chunk_count exists_below] in Hs |- *. split; [|lia].
    destruct (is_validate_chunk_count _) eqn:Ec; [done|].
    by apply is_validate_chunk_count_range in Ec as [_ [_ ?]].
Qed.

Lemma speaking_message `{ProtocolBuild} c m : speaking c -> speaking (c <| cn_send_message := m |>).
Proof. intros []. constructor; assumption. Qed.

(** A request that has been built waits for its answer. *)
Lemma evicting_outstanding c :
  outstanding (cn_pending_evict_chunks (evicting c)) (cn_pending_evict_chunk_count (evicting c)) (evicting c).
Proof.
  set (mapped := fun i => negb (byte_at (cn_sess_chunk_map c) i <? 0)).
  assert (Hm : marked (cn_pending_evict_chunks (evicting c)) = chunks_below 128 mapped)
    by exact (marked_marks_below mapped).
  split; rewrite Hm.
  - pose proof (length_chunks_below 128 mapped) as Hl. apply (wrap_small 16). unfold in_u. pow_lia.
  - intros i Hi. apply elem_of_chunks_below in Hi as [_ Hi]. unfold mapped in Hi.
    rewrite negb_true_iff, Z.ltb_ge in Hi. apply Z.le_ngt. exact Hi.
Qed.

(** The connection [translate_request] looks at. *)
Definition translating (c : connection) (m : is_protocol_message) : connection :=
  c <| cn_recv_message := zero_control_message |>
    <| cn_active_request_id := hdr_request_id (msg_header m) |>.

Lemma translate_activity_request c m :
  hdr_type (msg_header m) = IS_PROTOCOL_MSG_ACTIVITY ->
  translate_request c m = translate_activity (translating c m) m.
Proof. intros Ht. unfold translate_request. by rewrite Ht. Qed.

Lemma translate_release_request c m :
  hdr_type (msg_header m) = IS_PROTOCOL_MSG_RELEASE ->
  translate_request c m = translate_release (translating c m) m.
Proof. intros Ht. unfold translate_request. by rewrite Ht. Qed.

(** A connection that waits for an ACTIVITY takes the answer to its request,
    and the eviction thread reads it. *)
Lemma activity_answer p c m :
  hdr_type (msg_header m) = IS_PROTOCOL_MSG_ACTIVITY -> wf_payload (msg_payload m) ->
  activity_chunk_count (get_activity (msg_payload m)) <= 128 ->
  outstanding (cn_pending_evict_chunks c) (cn_pending_evict_chunk_count c) c ->
  ((translate_request c m).2 = 0 <->
   solicited (msg_header m) (cn_pending_evict_request_id c) /\
   (activity_entries m).*1 ≡ₚ marked (cn_pending_evict_chunks c)) /\
  ((translate_request c m).2 = 0 ->
   (fun a => (ca_provider_chunk_id a, ca_activity a)) <$> reported_activities p (translate_request c m).1
     ≡ₚ activity_entries m).
Proof.
  intros Ht Hwf Hmax [O1 O2]. rewrite (translate_activity_request _ _ Ht).
  destruct (translate_activity_spec (translating c m) m Hwf Hmax) as [Hok Hno]; [split; [exact O1|exact O2]|].
  split.
  - split; [exact Hno|]. intros Ha. by rewrite (Hok Ha).
  - intros Hz%Hno. rewrite (Hok Hz). cbn [fst]. apply reported_taken; [by destruct Hz|reflexivity].
Qed.

(** A connection that waits for a RELEASE takes no answer that names other
    chunks. *)
Lemma release_answer c m :
  hdr_type (msg_header m) = IS_PROTOCOL_MSG_RELEASE -> wf_payload (msg_payload m) ->
  ids_chunk_count (get_chunk_ids (msg_payload m)) <= 128 ->
  cn_pending_release_chunk_count c = Z.of_nat (length (marked (cn_pending_release_chunks c))) ->
  (translate_request c m).2 = 0 -> release_entries m ≡ₚ marked (cn_pending_release_chunks c).
Proof.
  intros Ht Hwf Hmax Hcount. rewrite (translate_release_request _ _ Ht). intros Hz.
  destruct (translate_release_spec (translating c m) m Hwf Hmax Hcount) as [_ Hno].
  by destruct (Hno Hz).
Qed.

(** ** The frames of [send_stop] *)

(** The words the marks are copied over: the word [j] is not zero when one of
    the four marks from [4 j] on is set. *)
Lemma word_at_marks marks j :
  Forall (fun m => 0 <= m) marks -> 0 <= j < 32 ->
  byte_at (words_of_marks marks) j <> 0 <->
  exists k, 4 * j <= k < 4 * j + 4 /\ byte_at marks k <> 0.
Proof.
  intros Hm Hj. unfold words_of_marks. fold (indices 32). rewrite byte_at_indices by done.
  assert (Hp : forall k, 0 <= byte_at marks k).
  { intros k. unfold byte_at. destruct (marks !! Z.to_nat k) as [m|] eqn:E.
    - rewrite (nth_lookup_Some _ _ _ m E). rewrite list.Forall_forall in Hm. by eapply Hm, list_elem_of_lookup_2.
    - by rewrite nth_overflow by (by apply lookup_ge_None). }
  pose proof (Hp (4 * j)). pose proof (Hp (4 * j + 1)). pose proof (Hp (4 * j + 2)). pose proof (Hp (4 * j + 3)).
  split.
  - intros Hne. destruct (Z.eq_dec (byte_at marks (4 * j)) 0); [|exists (4 * j); lia].
    destruct (Z.eq_dec (byte_at marks (4 * j + 1)) 0); [|exists (4 * j + 1); lia].
    destruct (Z.eq_dec (byte_at marks (4 * j + 2)) 0); [|exists (4 * j + 2); lia].
    exists (4 * j + 3). lia.
  - intros (k & Hk & Hne). pose proof (Hp k).
    assert (k = 4 * j \/ k = 4 * j + 1 \/ k = 4 * j + 2 \/ k = 4 * j + 3) as [->|[->|[->| ->]]] by lia; lia.
Qed.

(** The keys of the message mark [k / 4] for every chunk [k] selected. *)
Lemma stop_message_marks c n j :
  length (cn_release_chunks c) = 128%nat -> Forall (fun m => 0 <= m) (cn_release_chunks c) ->
  j ∈ marked (cm_rkey (cn_send_message (stop_message c n))) <->
  exists k, k ∈ marked (cn_release_chunks c) /\ j = k / 4.
Proof.
  intros Hl Hm. set (words := words_of_marks (cn_release_chunks c)).
  assert (Hw : length words = 32%nat) by (unfold words, words_of_marks; by rewrite !length_fmap, length_seq).
  change (cm_rkey (cn_send_message (stop_message c n))) with (buf_write (zeros 128) 0 words).
  rewrite elem_of_marked, buf_write_0 by (rewrite Hw; unfold zeros; rewrite length_replicate; lia).
  assert (Hat : forall i, 0 <= i < 128 ->
    byte_at (words ++ drop (length words) (zeros 128)) i <> 0 <-> i < 32 /\ byte_at words i <> 0).
  { intros i Hi. destruct (decide (i < 32)).
    - unfold byte_at. rewrite app_nth1 by lia. tauto.
    - unfold zeros. rewrite drop_replicate. unfold byte_at at 1. rewrite app_nth2 by lia.
      pose proof (byte_at_zeros (128 - length words) (Z.of_nat (Z.to_nat i - length words))) as Hz.
      unfold byte_at in Hz. rewrite Nat2Z.id in Hz. unfold zeros in Hz. rewrite Hz. split; [done|lia]. }
  split.
  - intros [Hj Hne]. apply Hat in Hne as [Hj32 Hne]; [|done]. apply word_at_marks in Hne as (k & Hk & Hne); [|done|lia].
    exists k. rewrite elem_of_marked. split; [split; [lia|done]|]. apply (Z.div_unique k 4 j (k - 4 * j)); lia.
  - intros (k & [Hk Hne]%elem_of_marked & ->). pose proof (Z.div_mod k 4). pose proof (Z.mod_pos_bound k 4).
    split; [lia|]. apply Hat; [lia|]. split; [lia|]. apply word_at_marks; [done|lia|]. exists k. split; [lia|done].
Qed.
