(* ===== verification/ProviderExample.v ===== *)
(** * An example daemon, for the witnesses

    A machine with a host's memory, a clock that stands still and a network
    that accepts everything; a consumer logs in and is granted chunks. *)
From Stdlib Require Import Strings.String.
From stdpp Require Import sorting.
From S2P Require Import Prelude Protocol ProtocolSpec Text Auth AuthFile AuthInv AuthExample.
From S2P Require Import ProviderSession ProviderSessionSpec Liveness MemoryManager MemoryConfig MemoryManagerInv MemoryManagerConn MemoryManagerSpec.
From S2P Require Import ProviderConnection ProviderDaemon ProviderLifecycle ProviderMain ProviderLogic ProviderMemory ProviderThreads ProviderReach.

#[local] Existing Instance default_build.
#[local] Existing Instance ex_mac.

(** Regions are numbered in order; [mc_busy] tells which deregistrations to
    come fail, [mc_available] the GiB each reading of the free memory finds,
    [mc_clock] the seconds each reading of the clock finds. *)
Record machine := {
  mc_host : Host.host;
  mc_available : list Z;
  mc_regions : list (option Z);
  mc_busy : list bool;
  mc_clock : list Z;
  mc_pointer : Z
}.

#[export] Instance machine_eta : Eta machine := fun w =>
  {| mc_host := mc_host w; mc_available := mc_available w; mc_regions := mc_regions w;
     mc_busy := mc_busy w; mc_clock := mc_clock w; mc_pointer := mc_pointer w |}.

Definition region_index (r : Z) : nat := Z.to_nat (r - 1).

#[export] Instance machine_platform : Platform machine := {|
  clock_monotonic w :=
    (w <| mc_clock ::= tail |>, Some {| tv_sec := default 100 (head (mc_clock w)); tv_nsec := 0 |});
  time_now w := (w, 1000);
  cond_timedwait _ w := (w, ETIMEDOUT);
  random_identity w := (w, Some (replicate 32 5, 42));
  calloc_connection w := (w <| mc_pointer ::= Z.succ |>, mc_pointer w);
  ibv_post_send _ _ w := (w, 0);
  ibv_post_recv _ w := (w, 0);
  drain_queue _ w := (w, true);
  setup_connection _ w := (w, true);
  rdma_accept w := (w, 0);
  ibv_reg_mr pd _ w :=
    let region := Z.of_nat (S (length (mc_regions w))) in
    if 2 ^ 32 <=? region then (w, 0) else (w <| mc_regions ::= fun l => l ++ [Some pd] |>, region);
  ibv_dereg_mr r w :=
    match mc_busy w with
    | true :: busy => (w <| mc_busy := busy |>, -1)
    | busy =>
        (w <| mc_regions ::= fun l => <[region_index r := None]> l |> <| mc_busy := tail busy |>, 0)
    end;
  mr_addr r := u64 r;
  mr_rkey r := u32 r;
  posix_memalign w :=
    let '(h, r) := @allocate _ Host.host_adapters (mc_host w) in (w <| mc_host := h |>, r);
  clear_block _ w := w;
  free_block addr w := w <| mc_host ::= @release _ Host.host_adapters addr |>;
  meminfo w :=
    (w <| mc_available ::= tail |>,
     (0, u64 (default 12 (head (mc_available w)) * IS_MEMORY_CHUNK_BYTES)));
  c_heap w := (w, true)
|}.

(** The live regions among [l]. *)
Definition region_count (l : list (option Z)) (pd r : Z) : nat :=
  b2n ((0 <? r) && bool_decide (l !! region_index r = Some (Some pd))).

Lemma region_added l pd h x :
  region_count (l ++ [Some pd]) h x =
  (region_count l h x + b2n (Z.eqb pd h && Z.eqb (Z.of_nat (S (length l))) x))%nat.
Proof.
  unfold region_count. destruct (Z.eqb_spec (Z.of_nat (S (length l))) x) as [<-|Hne].
  - assert (E : region_index (Z.of_nat (S (length l))) = length l) by (unfold region_index; lia).
    rewrite E, (lookup_ge_None_2 l), lookup_app_r, Nat.sub_diag by lia. cbn.
    destruct (Z.eqb_spec pd h); cbn; case_bool_decide; naive_solver.
  - rewrite andb_false_r. cbn. rewrite Nat.add_0_r. destruct (Z.ltb_spec 0 x); [cbn [andb]|done].
    destruct (decide (region_index x < length l)%nat); [by rewrite lookup_app_l|].
    unfold region_index in *. rewrite !lookup_ge_None_2; [done|lia|rewrite length_app; cbn; lia].
Qed.

Lemma region_removed l pd r h x :
  (0 < region_count l pd r)%nat ->
  (region_count (<[region_index r := None]> l) h x + b2n (Z.eqb pd h && Z.eqb r x) =
   region_count l h x)%nat.
Proof.
  unfold region_count. destruct (Z.ltb_spec 0 r) as [Hr|]; cbn [andb b2n]; [|lia].
  case_bool_decide as Hl; cbn [b2n]; [intros _|lia]. destruct (Z.eqb_spec r x) as [<-|Hne].
  - rewrite list_lookup_insert_eq by (by eapply lookup_lt_Some). rewrite (proj2 (Z.ltb_lt 0 r)), Hl by done.
    cbn [andb]. destruct (Z.eqb_spec pd h); repeat case_bool_decide; naive_solver.
  - rewrite andb_false_r. cbn. rewrite Nat.add_0_r. destruct (Z.ltb_spec 0 x); [cbn [andb]|done].
    by rewrite list_lookup_insert_ne by (unfold region_index; lia).
Qed.

#[export, refine] Instance machine_laws : PlatformLaws machine := {|
  mem_blocks w a := Host.occurrences a (Host.host_blocks (mc_host w));
  mem_regs w pd r := region_count (mc_regions w) pd r
|}.
Proof.
  all: cbn -[wrap Z.pow]; try done.
  - intros w. apply wrap_in_u. lia.
  - intros w w' a [= <- <-]. split_and!; [lia|done|]. intros x. cbn. rewrite Host.decide_eqb. lia.
  - intros w w' st a [= <- <- _] ?. done.
  - intros a w Hpos. split; [done|]. intros x. rewrite <- Host.decide_eqb. by apply Host.remove_one_occurrences.
  - intros pd a w w' r. cbn zeta. destruct (_ <=? _); [by intros [= <- <-]|]. intros [= <- <-] _.
    split; [done|]. intros h x. apply region_added.
  - intros pd a w w'. cbn zeta. destruct (_ <=? _); [by intros [= <-]|]. intros E. injection E. lia.
  - intros pd a w w' r. cbn zeta. destruct (Z.leb_spec (2 ^ 32) (Z.of_nat (S (length (mc_regions w))))); [by intros [= <- <-]|].
    intros [= <- <-] _ Hz. exfalso. rewrite !wrap_small in Hz by (unfold in_u; pow_lia). lia.
  - intros pd r w w' E Hpos. destruct (mc_busy w) as [|[] busy]; simplify_eq; (split; [done|]);
      intros h x; by apply region_removed.
  - intros r w w' st E Hne. destruct (mc_busy w) as [|[] busy]; by simplify_eq.
Defined.

(** ** A run *)

Definition ex_machine (available : list Z) (busy : list bool) (clock : list Z) : machine :=
  {| mc_host := Example.fresh_host []; mc_available := available; mc_regions := [];
     mc_busy := busy; mc_clock := clock; mc_pointer := 7 |}.

(** The two files the daemon is started with. *)
Definition ex_settings : config_file :=
  {| cf_error := false;
     cf_bytes := chars ("version = 1" ++ newline ++ "host_reserve_gib = 2" ++ newline ++
       "max_opportunistic_gib = 8" ++ newline ++ "max_committed_gib = 2" ++ newline)%string |}.
Definition ex_current_secret : string := "0707070707070707070707070707070707070707070707070707070707070707".
Definition ex_allowlist : auth_file :=
  {| af_acceptable := true; af_error := false;
     af_bytes := chars ("version = 1" ++ newline ++ "[consumer:node-a]" ++ newline ++
       "current_key_id = k1" ++ newline ++ "current_psk_hex = " ++ ex_current_secret ++ newline ++
       "next_key_id = k2" ++ newline ++ "next_psk_hex = " ++ ex_secret ++ newline ++
       "next_valid_until_unix = 2000" ++ newline ++ "max_connections = 2" ++ newline ++
       "max_opportunistic_gib = 8" ++ newline)%string |}.

Definition ex_startup : startup :=
  {| su_config := Some ex_settings; su_lock_status := 0; su_provider_id := Some (chars "rack-1");
     su_hostname := None; su_port := None; su_allowlist := ex_allowlist; su_clock := fun _ => 1000;
     su_server_starts := true |}.

Definition ex_start (available : list Z) (busy : list bool) (clock : list Z) : provider machine :=
  match main_start ex_startup 9 (ex_machine available busy clock) with
  | (_, inr st) => st
  | (w, inl _) => provider_start Example.no_manager w is_auth_registry_init 9
  end.

(** The provider once a handler has returned. *)
Definition run_handler {A} (h : handler machine A) (st : provider machine) : provider machine :=
  match h st with Returns _ st => st | _ => st end.

Definition received_frame (frame : list Z) : completion :=
  {| wc_wr_id := 7; wc_success := true; wc_opcode := IBV_WC_RECV; wc_frame := frame |}.
Definition sent_frame : completion :=
  {| wc_wr_id := 7; wc_success := true; wc_opcode := IBV_WC_SEND; wc_frame := [] |}.

Definition quietly : provider machine -> provider machine := fun st => st.

Definition ex_complete (st : provider machine) (wc : completion) : provider machine :=
  run_handler (on_completion quietly wc) st.

(** The consumer connects and authenticates. *)
Definition ex_connected (st : provider machine) : provider machine :=
  run_handler (on_event quietly true (RDMA_CM_EVENT_ESTABLISHED 7))
    (run_handler (on_event quietly true RDMA_CM_EVENT_CONNECT_REQUEST) st).
Definition ex_logged_in : list completion :=
  [received_frame ex_hello; sent_frame; received_frame ex_auth; sent_frame].

(** It asks for [n] chunks. *)
Definition ex_chunk_request (id n : Z) : list Z :=
  ex_encode {| msg_header := ex_header IS_PROTOCOL_MSG_CHUNK_REQUEST id 42;
    msg_payload := payload_chunk_request {|
      request_logical_start := 0; request_chunk_count := n;
      request_pool := IS_PROTOCOL_POOL_OPPORTUNISTIC |} |}.
Definition ex_granted (st : provider machine) : provider machine :=
  fold_left ex_complete (ex_logged_in ++ [received_frame (ex_chunk_request 9 5); sent_frame])
    (ex_connected st).

(** It answers the provider's requests: the first and the last of its five
    chunks are the least active, the first two are given up. *)
Definition ex_response (type id : Z) (payload : is_protocol_payload) : list Z :=
  ex_encode {|
    msg_header := {| hdr_major := 1; hdr_minor := 1; hdr_type := type;
      hdr_flags := IS_PROTOCOL_FLAG_RESPONSE; hdr_request_id := id; hdr_session_id := 42;
      hdr_capabilities := 0x7f; hdr_required_capabilities := 0x70 |};
    msg_payload := payload |}.
Definition ex_activity : list Z :=
  ex_response IS_PROTOCOL_MSG_ACTIVITY 1
    (payload_activity {| activity_chunk_count := 5;
       activity_chunks :=
         (fun '(i, a) => {| activity_provider_chunk_id := i; activity_activity := a |}) <$>
           [(0, 1); (1, 8); (2, 8); (3, 8); (4, 2)] |}).
Definition ex_release : list Z :=
  ex_response IS_PROTOCOL_MSG_RELEASE 2
    (payload_chunk_ids {| ids_chunk_count := 2; ids_chunk_ids := [0; 1] ++ zeros 126 |}).

(** The C library's sort. *)
Definition at_most (left right : chunk_activity) : Prop := compare_activity left right <= 0.
#[export] Instance at_most_decision : RelDecision at_most := fun a b => Z_le_dec _ _.
Definition ex_qsort : list chunk_activity -> list chunk_activity := merge_sort at_most.

(** What the consumer does while the daemon waits for it. *)
Definition ex_answers (st : provider machine) : provider machine :=
  match pv_conns st !! 7 with
  | None => st
  | Some c =>
      let st' :=
        if negb (cn_pending_evict_request_id c =? 0)
        then fold_left ex_complete [sent_frame; received_frame ex_activity] st
        else if negb (cn_pending_release_request_id c =? 0)
        then fold_left ex_complete [sent_frame; received_frame ex_release] st
        else st in
      if bool_decide (is_Some (pv_conns st' !! 7)) then st' else st
  end.

Definition ex_pressed (st : provider machine) : provider machine :=
  run_handler (free_mem_turn ex_answers ex_qsort) st.

(** ** The run is one of the daemon's *)

Abbreviation ex_reaches := (reaches (W := machine) ex_qsort).

Lemma quietly_reaches st : ex_reaches st (quietly st).
Proof. apply reaches_refl. Qed.

Lemma complete_reaches st wc : ex_reaches st (ex_complete st wc).
Proof.
  unfold ex_complete, run_handler. destruct (on_completion quietly wc st) as [[] st'| | |] eqn:E;
    try apply reaches_refl.
  apply (reaches_completion ex_qsort quietly wc st st' st');
    [apply quietly_reaches|by intros ???| |done|apply reaches_refl].
  unfold live. destruct (pv_conns st !! wc_wr_id wc) eqn:Ec; [done|].
  unfold on_completion, mbind, handler_bind, load in E. by rewrite Ec in E.
Qed.

Lemma completions_reach st wcs : ex_reaches st (fold_left ex_complete wcs st).
Proof.
  revert st. induction wcs as [|wc wcs IH]; intros st; cbn; [apply reaches_refl|].
  eapply reaches_trans; [apply complete_reaches|apply IH].
Qed.

Lemma answers_reach st : ex_reaches st (ex_answers st).
Proof.
  unfold ex_answers. destruct (pv_conns st !! 7); [|apply reaches_refl]. cbv zeta.
  case_bool_decide; [|apply reaches_refl].
  destruct (negb _); [apply completions_reach|]. destruct (negb _); [apply completions_reach|apply reaches_refl].
Qed.

Lemma answers_live st : live 7 st -> live 7 (ex_answers st).
Proof.
  unfold ex_answers, live. intros Hl. destruct (pv_conns st !! 7) eqn:E; [|done]. cbv zeta.
  case_bool_decide; [done|]. by rewrite E.
Qed.

Lemma ex_qsort_permutes acts : ex_qsort acts ≡ₚ acts.
Proof. apply merge_sort_Permutation. Qed.

Lemma pressed_reaches st : in_table st ⊆ [7] -> ex_reaches st (ex_pressed st).
Proof.
  intros Ht. unfold ex_pressed, run_handler.
  destruct (free_mem_turn ex_answers ex_qsort st) as [[] st'| | |] eqn:E; try apply reaches_refl.
  apply (reaches_free_mem ex_qsort ex_answers st st' st');
    [apply answers_reach| |done|apply reaches_refl].
  intros s q Hq%Ht. apply list_elem_of_singleton in Hq as ->. apply answers_live.
Qed.

Lemma event_reaches st event :
  event_ready event st -> ex_reaches st (run_handler (on_event quietly true event) st).
Proof.
  intros Hr. unfold run_handler.
  destruct (on_event quietly true event st) as [r st'| | |] eqn:E; try apply reaches_refl.
  apply (reaches_event ex_qsort quietly true event r st st' st');
    [apply quietly_reaches|done|by intros ???|intros p _ s c Hc Hcl; by exists c|done|apply reaches_refl].
Qed.

Lemma connected_reaches st :
  calloc_fresh st -> live 7 (run_handler (on_event quietly true RDMA_CM_EVENT_CONNECT_REQUEST) st) ->
  ex_reaches st (ex_connected st).
Proof. intros Hf Hl. eapply reaches_trans; by apply event_reaches. Qed.

(** The consumer is granted five chunks; then the host runs out of memory and
    the second of the two deregistrations fails. *)
Definition ex_five : provider machine := ex_granted (ex_start [12; 0] [false; true] []).
Definition ex_failed : provider machine := ex_pressed ex_five.

Lemma five_reached : ex_reaches (ex_start [12; 0] [false; true] []) ex_five.
Proof.
  eapply reaches_trans; [apply connected_reaches|apply completions_reach].
  - by vm_compute.
  - by vm_compute; eexists.
Qed.
