(* ===== verification/ProviderSpec.v ===== *)
(** * Theorems about the provider's daemon *)
From Stdlib Require Import Strings.String.
From S2P Require Import Prelude Protocol ProtocolWire ProtocolRoundtrip ProtocolSpec Text Auth AuthFile AuthInv AuthExample.
From S2P Require Import ProviderSession ProviderSessionAnswer ProviderSessionSpec Liveness MemoryManager MemoryManagerInv MemoryManagerConn MemoryManagerOps MemoryManagerSpec.
From S2P Require Import ProviderConnection ProviderDaemon ProviderLifecycle ProviderMain ProviderFrames ProviderExchange ProviderLogic ProviderMemory ProviderRequests.
From S2P Require Import ProviderAuthority ProviderThreads ProviderReach ProviderQueue ProviderExample.

#[local] Existing Instance default_build.
#[local] Existing Instance ex_mac.

(** ** Runs of the daemon *)

Section Runs.
Context {W : Type} `{PlatformLaws W} `{ProtocolBuild} `{Mac}.

(** The daemon has started. *)
Definition started (st0 : provider W) : Prop :=
  exists s pd w w', main_start s pd w = (w', inr st0).

Lemma run_inv qsort st0 st :
  (forall acts, qsort acts ≡ₚ acts) -> started st0 -> reaches qsort st0 st ->
  exists B R, provider_inv B R st.
Proof.
  intros Hq (s & pd & w & w' & Hs) Hr. apply main_start_cases in Hs as [Hi _].
  exists (mem_blocks w), (mem_regs w). by eapply reaches_inv.
Qed.


End Runs.

Lemma ex_started available busy clock : started (ex_start available busy clock).
Proof.
  exists ex_startup, 9, (ex_machine available busy clock), (pv_world (ex_start available busy clock)). by vm_compute.
Qed.

Definition asked (p : Z) (e : event) : bool :=
  match e with Disconnecting q => q =? p | _ => false end.

Lemma never_asked p trace : existsb (asked p) trace = false -> Disconnecting p ∉ trace.
Proof.
  intros Hf Hi. apply not_true_iff_false in Hf. apply Hf, existsb_exists. exists (Disconnecting p).
  split; [by apply list_elem_of_In|cbn; lia].
Qed.

Lemma five_open : exists c, pv_conns ex_five !! 7 = Some c /\ cn_closing c = false /\
  Disconnecting 7 ∉ pv_trace ex_five.
Proof.
  assert (E : cn_closing <$> pv_conns ex_five !! 7 = Some false) by (by vm_compute).
  apply fmap_Some in E as (c & Hc & Hcl). exists c. split; [exact Hc|]. split; [by rewrite Hcl|].
  apply never_asked. by vm_compute.
Qed.



(** ** A release that fails half way *)

(** C29. A failed deregistration ends the daemon.  In a run where a consumer
    holds five chunks and gives up two, the deregistration of the second
    fails: the daemon asks to disconnect, but its map still lists the first,
    which the manager has taken back.  The consumer's next request, served
    before the disconnection is reported, is granted that chunk, and the
    daemon, which finds it mapped already, exits with all its consumers. *)
Theorem failed_release_ends_daemon :
  ex_reaches (ex_start [12; 0] [false; true] []) ex_failed /\
  (exists c, pv_conns ex_failed !! 7 = Some c /\ cn_closing c = false /\
     byte_at (cn_sess_chunk_map c) 0 = 0 /\ chunk_owner (pv_manager ex_failed) 0 = 0) /\
  on_completion quietly (received_frame (ex_chunk_request 10 1)) ex_failed = Dies.
Proof.
  split_and!.
  - eapply reaches_trans; [exact five_reached|]. apply pressed_reaches.
    assert (E : in_table ex_five = [7]) by (by vm_compute). by rewrite E.
  - assert (E : (fun c => (cn_closing c, byte_at (cn_sess_chunk_map c) 0)) <$> pv_conns ex_failed !! 7 =
      Some (false, 0)) by (by vm_compute).
    apply fmap_Some in E as (c & Hc & [= Hcl Hm]). exists c. split; [exact Hc|].
    split; [exact (eq_sym Hcl)|]. split; [exact (eq_sym Hm)|by vm_compute].
  - by vm_compute.
Qed.

(** ** The eviction dialogue *)

Section Dialogue.
Context `{ProtocolBuild}.

(** C30. The eviction dialogue.  The EVICT frame the daemon builds decodes to a
    request that lists exactly the chunks of the connection's map.  The
    daemon then takes an ACTIVITY exactly when it is a response to that
    request and reports each of those chunks once, in any order; and the
    activities the eviction thread then reads are those reported. *)
Theorem evict_dialogue p c buf bytes m :
  speaking c -> cn_pending_evict_request_id c = 0 -> mapped_chunks c <> [] ->
  length buf = 4096%nat -> is_bytes bytes -> decoded bytes m ->
  hdr_type (msg_header m) = IS_PROTOCOL_MSG_ACTIVITY ->
  exists c' frame size,
    encode_control_message (evict_message c) buf = (c', inr (frame, size)) /\
    is_protocol_decode (Some (buf_read frame 0 size)) size =
      inr {| msg_header := request_header c IS_PROTOCOL_MSG_EVICT;
             msg_payload := payload_chunk_ids (listing (mapped_chunks c)) |} /\
    ((translate_request c' m).2 = 0 <->
     solicited (msg_header m) (cn_next_provider_request_id c) /\
     (activity_entries m).*1 ≡ₚ mapped_chunks c) /\
    ((translate_request c' m).2 = 0 ->
     (fun a => (ca_provider_chunk_id a, ca_activity a)) <$> reported_activities p (translate_request c' m).1
       ≡ₚ activity_entries m).
Proof.
  intros Hc Hp Hne Hbuf Hb Hdec Ht.
  destruct (arrival bytes m Hb Hdec (or_introl Ht)) as (Hwf & Hmax & _).
  destruct (encode_evict_spec (evict_message c) buf) as (frame & size & He & Hs & Hf & Hd);
    [by apply speaking_message|done..|].
  exists (evicting (evict_message c)), frame, size. split; [exact He|]. split; [exact Hd|].
  assert (Hmark : marked (cn_pending_evict_chunks (evicting (evict_message c))) = mapped_chunks c)
    by exact (marked_marks_below (fun i => negb (byte_at (cn_sess_chunk_map c) i <? 0))).
  destruct (activity_answer p (evicting (evict_message c)) m Ht Hwf Hmax (evicting_outstanding _)) as [H1 H2].
  rewrite Hmark in H1. split; [exact H1|exact H2].
Qed.

(** C31. The RELEASE names other chunks than those selected.  [send_stop] copies
    the marks of the chunks selected, bytes, over the keys of the message,
    32-bit words: the frame it builds lists the chunk [k / 4] for every chunk
    [k] selected, and the daemon then takes no other answer. *)
Theorem release_misnames_chunks c buf n :
  speaking c -> cn_pending_release_request_id c = 0 -> marked (cn_release_chunks c) <> [] ->
  length (cn_release_chunks c) = 128%nat -> Forall (fun m => 0 <= m) (cn_release_chunks c) ->
  length buf = 4096%nat ->
  exists c' frame size listed,
    encode_control_message (stop_message c n) buf = (c', inr (frame, size)) /\
    is_protocol_decode (Some (buf_read frame 0 size)) size =
      inr {| msg_header := request_header c IS_PROTOCOL_MSG_RELEASE;
             msg_payload := payload_chunk_ids (listing listed) |} /\
    (forall j, j ∈ listed <-> exists k, k ∈ marked (cn_release_chunks c) /\ j = k / 4) /\
    (forall bytes m, is_bytes bytes -> decoded bytes m ->
       hdr_type (msg_header m) = IS_PROTOCOL_MSG_RELEASE -> (translate_request c' m).2 = 0 ->
       release_entries m ≡ₚ listed).
Proof.
  intros Hc Hp Hne Hl Hm Hbuf. pose proof (fun j => stop_message_marks c n j Hl Hm) as Hj.
  set (c0 := stop_message c n) in *. set (listed := marked (cm_rkey (cn_send_message c0))) in *.
  assert (Hne0 : listed <> []).
  { intros E. destruct (marked (cn_release_chunks c)) as [|k l] eqn:Ek; [done|].
    apply (not_elem_of_nil (k / 4)). rewrite <- E. apply Hj. exists k. split; [apply elem_of_cons; by left|done]. }
  destruct (encode_release_spec c0 buf) as (frame & size & He & Hs & Hf & Hd);
    [by apply speaking_message|done..|].
  exists (releasing c0), frame, size, listed. split; [exact He|]. split; [exact Hd|]. split; [exact Hj|].
  intros bytes m Hb Hdec Ht Hz. destruct (arrival bytes m Hb Hdec (or_intror Ht)) as (Hwf & _ & Hmax).
  assert (Hmark : marked (cn_pending_release_chunks (releasing c0)) = listed)
    by exact (marked_marks_below (fun i => negb (byte_at (cm_rkey (cn_send_message c0)) i =? 0))).
  rewrite <- Hmark. apply (release_answer _ _ Ht Hwf Hmax); [|exact Hz]. rewrite Hmark.
  apply (wrap_small 16).
  pose proof (length_chunks_below 128 (fun i => negb (byte_at (cm_rkey (cn_send_message c0)) i =? 0))) as Hlen.
  fold (marked (cm_rkey (cn_send_message c0))) in Hlen. fold listed in Hlen. unfold in_u. pow_lia.
Qed.
End Dialogue.

(** The connection of the example, with five chunks. *)
Definition ex_conn : connection :=
  default (new_connection [] 1) (pv_conns ex_five !! 7).

Lemma ex_conn_speaks : speaking ex_conn.
Proof. constructor; by vm_compute. Qed.

Definition ex_report : is_protocol_message :=
  match is_protocol_decode (Some ex_activity) (Z.of_nat (length ex_activity)) with
  | inr m => m
  | inl _ => {| msg_header := ex_header 0 0 0; msg_payload := payload_none |}
  end.

Lemma evict_dialogue_witness :
  exists c' frame size,
    encode_control_message (evict_message ex_conn) (zeros 4096) = (c', inr (frame, size)) /\
    ((translate_request c' ex_report).2 = 0 <->
     solicited (msg_header ex_report) (cn_next_provider_request_id ex_conn) /\
     (activity_entries ex_report).*1 ≡ₚ mapped_chunks ex_conn) /\
    (activity_entries ex_report).*1 = [0; 1; 2; 3; 4] /\ mapped_chunks ex_conn = [0; 1; 2; 3; 4].
Proof.
  destruct (evict_dialogue 7 ex_conn (zeros 4096) ex_activity ex_report ex_conn_speaks)
    as (c' & frame & size & He & _ & Hi & _).
  - by vm_compute.
  - by vm_compute.
  - by vm_compute.
  - apply ex_bytes. by vm_compute.
  - by vm_compute.
  - by vm_compute.
  - exists c', frame, size. split; [exact He|]. split; [exact Hi|]. split; by vm_compute.
Defined.

(** The chunks 0 and 4 are selected. *)
Definition ex_selecting : connection :=
  ex_conn <| cn_release_chunks := set_at (set_at (zeros 128) 0 1) 4 1 |>.

Lemma release_misnames_chunks_witness :
  exists c' frame size (listed : list Z),
    encode_control_message (stop_message ex_selecting 2) (zeros 4096) = (c', inr (frame, size)) /\
    (1 ∈ listed) /\ (4 ∉ listed).
Proof.
  destruct (release_misnames_chunks ex_selecting (zeros 4096) 2)
    as (c' & frame & size & listed & He & _ & Hj & _).
  - constructor; by vm_compute.
  - by vm_compute.
  - by vm_compute.
  - by vm_compute.
  - apply list.Forall_forall. intros b Hb. assert (Hn : forallb (Z.leb 0) (cn_release_chunks ex_selecting) = true)
      by (by vm_compute). rewrite forallb_forall in Hn. apply list_elem_of_In, Hn in Hb. lia.
  - by vm_compute.
  - assert (Hm : marked (cn_release_chunks ex_selecting) = [0; 4]) by (by vm_compute).
    rewrite Hm in Hj. exists c', frame, size, listed. split; [exact He|]. split.
    + apply Hj. exists 4. split; [right; left|reflexivity].
    + intros (k & [->|Hk%list_elem_of_singleton]%elem_of_cons & E)%Hj; [discriminate E|].
      rewrite Hk in E. discriminate E.
Defined.

(** ** The send queue *)

(** C32. The two send buffers and their flags are a first-in first-out queue of
    two frames, whose first is with the network card.  Over any sequence of
    submissions and completions, what is accepted and what is posted is what
    the queue says; the frames posted are frames accepted, in the order of
    their submission, each at most once and with the bytes submitted; and
    unless a frame closes the connection, every frame accepted is posted or
    still waits.  In particular a submission never overwrites a frame in
    flight. *)
Theorem send_queue_fifo c ops :
  queue_ok c -> send_queue c = [] -> send_ops_ok [] ops ->
  let '(c', posted, accepted) := exec_sends c ops in
  queue_ok c' /\
  spec_sends [] ops = (send_queue c', posted, accepted) /\
  posted `sublist_of` accepted_frames ops accepted /\
  (Forall keeps_open ops -> posted ++ waiting_frames (send_queue c') = accepted_frames ops accepted).
Proof.
  intros Hc Hq Hops. pose proof (exec_sends_refines c ops Hc) as Hr. rewrite Hq in Hr. specialize (Hr Hops).
  destruct (exec_sends c ops) as [[c' posted] accepted]. destruct Hr as [Hc' Hs]. split_and!; [done|done|..].
  - pose proof (spec_sends_ordered [] ops ltac:(cbn; lia)) as Ho. by rewrite Hs in Ho.
  - intros Ho. pose proof (spec_sends_complete [] ops ltac:(cbn; lia) ltac:(constructor) Ho) as Hp.
    by rewrite Hs in Hp.
Qed.

Definition ex_sends : list send_op :=
  [Submit [1; 2; 3] 2 false false; Submit [4; 5; 6] 3 false true; Submit [7] 1 false false;
   Complete; Submit [8] 1 false false; Complete].

Lemma send_queue_fifo_witness :
  let '(c', posted, accepted) := exec_sends (new_connection [] 1) ex_sends in
  posted = [[1; 2]; [4; 5; 6]; [8]] /\ accepted = [true; true; false; true; true; true] /\ queue_ok c'.
Proof.
  pose proof (send_queue_fifo (new_connection [] 1) ex_sends) as Hf.
  assert (E : let '(_, posted, accepted) := exec_sends (new_connection [] 1) ex_sends in
    posted = [[1; 2]; [4; 5; 6]; [8]] /\ accepted = [true; true; false; true; true; true]) by (by vm_compute).
  destruct (exec_sends _ _) as [[c' posted] accepted]. destruct E as [-> ->]. split_and!; [done|done|].
  apply Hf.
  - constructor; by vm_compute.
  - by vm_compute.
  - cbn. split_and!; done || lia.
Defined.
