(* ===== verification/ProviderLifeSpec.v ===== *)
(** * Theorems about what the daemon does with memory over its life *)
From Stdlib Require Import Strings.String.
From S2P Require Import Prelude Protocol ProtocolSpec Text Auth AuthFile AuthSteps AuthExample ProviderSession ProviderSessionAnswer ProviderSessionRun ProviderSessionSpec Liveness.
From S2P Require Import MemoryManager MemoryConfig MemoryManagerInv MemoryManagerConn MemoryManagerSpec ProviderConnection ProviderDaemon ProviderLifecycle ProviderMain.
From S2P Require Import ProviderFrames ProviderExchange ProviderLogic ProviderMemory ProviderAuthority ProviderGrant ProviderThreads ProviderReach ProviderExample ProviderSpec.

#[local] Existing Instance default_build.
#[local] Existing Instance ex_mac.

Section Life.
Context {W : Type} `{PlatformLaws W} `{ProtocolBuild} `{Mac}.

(** C35. Memory changes hands only with authority.  Unless it brings a
    CHUNK_REQUEST or a RELEASE on an authenticated session whose authorization
    is the registry's at that moment and has not expired, a completion leaves
    every chunk of the memory manager as it was, and neither ends the daemon
    nor follows a dangling pointer.  So a consumer whose credential is revoked
    is granted nothing more, whatever it sends. *)
Theorem memory_needs_authority meanwhile wc c (st : provider W) :
  (forall s, live (wc_wr_id wc) s -> live (wc_wr_id wc) (meanwhile s)) ->
  (forall s, chunks (pv_manager (meanwhile s)) = chunks (pv_manager s)) ->
  pv_conns st !! wc_wr_id wc = Some c ->
  ~ (wc_success wc = true /\ wc_opcode wc = IBV_WC_RECV /\
     entitled (time_now (pv_world st)).2 (pv_registry st) (cn_protocol_session c) (wc_frame wc)) ->
  match on_completion meanwhile wc st with
  | Returns _ st' => chunks (pv_manager st') = chunks (pv_manager st)
  | Blocks => True
  | Dies | Dangling => False
  end.
Proof.
  intros Hl Hm Hc Hn.
  assert (Hs : safe false (on_completion meanwhile wc) st (fun _ => resting (wc_wr_id wc) (chunks (pv_manager st)))).
  { apply (on_completion_resting meanwhile wc _ c); [|done|done|done]. intros s [H1' H2']. split; [by apply Hl|].
    by rewrite Hm. }
  unfold safe in Hs. destruct (on_completion meanwhile wc st); try done. apply Hs.
Qed.



(** C34. A grant names the memory that was granted.  When the memory manager
    grants the chunks a consumer asked for, the daemon's answer is a CHUNK_GRANT
    to that request; its entries number the consumer's chunks from where it
    asked, and name distinct chunks that nobody owned before and the consumer's
    connection owns now, each with the address and the key under which that
    chunk is registered.  Nothing but sending the frame remains to be done. *)
Theorem grant_exact qsort st0 st meanwhile p c n :
  (forall acts, qsort acts ≡ₚ acts) -> started st0 -> reaches qsort st0 st ->
  (forall r, is_u64 (mr_addr r)) -> (forall r, is_u32 (mr_rkey r)) ->
  pv_conns st !! p = Some c -> cn_closing c = false -> Disconnecting p ∉ pv_trace st ->
  speaking c -> 0 < cn_active_request_id c < 2 ^ 64 ->
  0 <= cn_requested_logical_start c -> cn_requested_logical_start c + u32 n <= 2 ^ 32 ->
  let o := is_memory_manager_acquire (pv_manager st) (pv_world st) p (cn_requested_pool c) (u32 n)
             (pv_pd st) MAX_MR_SIZE_GB in
  out_result o = IS_MEMORY_OK ->
  exists frame size entries,
    send_mr meanwhile p n st =
      submitting meanwhile p frame size
        (granted_state st p (granted_connection c n (out_grants o)) (out_manager o) (out_world o)) /\
    is_protocol_decode (Some (buf_read frame 0 size)) size =
      inr {| msg_header := response_header c IS_PROTOCOL_MSG_CHUNK_GRANT; msg_payload := grant_payload entries |} /\
    Z.of_nat (length entries) = u32 n /\ NoDup (chunk_provider_chunk_id <$> entries) /\
    chunk_logical_chunk_id <$> entries =
      (fun i => cn_requested_logical_start c + Z.of_nat i) <$> seq 0 (length entries) /\
    forall e, e ∈ entries ->
      chunk_owner (pv_manager st) (Z.to_nat (chunk_provider_chunk_id e)) = 0 /\
      exists ch, chunks (out_manager o) !! Z.to_nat (chunk_provider_chunk_id e) = Some ch /\ owner ch = p /\
        chunk_remote_address e = mr_addr (registration ch) /\ chunk_remote_key e = mr_rkey (registration ch).
Proof.
  intros Hq Hs Hr Ha Hk Hc Hcl Hd Hsp Hid Hst Hrange o Ho.
  destruct (run_inv qsort st0 st Hq Hs Hr) as (B & R & Hi). pose proof (wrap_in_u 32 n ltac:(lia)) as [Hn _].
  set (m := pv_manager st) in *. set (w := pv_world st) in *.
  destruct (acquired_chunks B R m w p (cn_requested_pool c) (u32 n) (pv_pd st) MAX_MR_SIZE_GB (pi_good _ _ _ Hi) Hn Ho)
    as (Hlen & _ & Hg & _). fold o in Hlen, Hg.
  destruct (acquire_owners B R m w p (cn_requested_pool c) (u32 n) (pv_pd st) MAX_MR_SIZE_GB (pi_good _ _ _ Hi) Hn)
    as (_ & _ & Hgv & _). fold o in Hgv.
  destruct (acquired_grants_ok Ha Hk B R m w p (cn_requested_pool c) (u32 n) (pv_pd st) MAX_MR_SIZE_GB (pi_good _ _ _ Hi) Hn)
    as [Hok Hpool]. fold o in Hok, Hpool. destruct (Hpool Ho) as [Hp Hnz].
  set (c' := granted_connection c n (out_grants o)) in *.
  assert (Hne : out_grants o <> []) by (intros E; rewrite E in Hlen; cbn in Hlen; lia).
  pose proof (granted_grantable c n (out_grants o) Hok Hne Hsp Hid Hst ltac:(lia) Hp) as Hgb. fold c' in Hgb.
  destruct (grant_frame c' Hgb stack_frame eq_refl eq_refl) as (frame & size & He & Hdec).
  pose proof (granted_entries_permutation c n (out_grants o) Hok) as Hperm. fold c' in Hperm.
  assert (Hel : length (granted_entries c') = length (out_grants o)).
  { apply Permutation_length in Hperm. by rewrite !length_fmap in Hperm. }
  destruct (granted_rest c n (out_grants o)) as (E1 & _ & E3 & E4 & _). fold c' in E1, E3, E4.
  exists frame, size, (granted_entries c'). split_and!.
  - unfold o. rewrite (send_mr_run meanwhile p c n st Hc (pi_map _ _ _ Hi _ _ Hc) Hok); [|by eapply granted_unmapped|done].
    apply (send_message_run meanwhile p c'); [apply lookup_insert_eq|exact He].
  - rewrite Hdec. unfold response_header. by rewrite E1, E3.
  - by rewrite Hel.
  - apply granted_entries_distinct.
  - rewrite <- E4. apply granted_entries_logical; rewrite E4; [done|]. by rewrite Hel, Hlen.
  - intros e (g & Hin & -> & -> & ->)%granted_entries_grants; [|done].
    destruct (Hg g Hin) as (_ & _ & _ & (ch & Hch & Hfree & _) & reg & Hnew). split.
    + unfold chunk_owner. fold m. by rewrite Hch.
    + eexists. by split_and!.
Qed.
End Life.

(** ** Concrete runs *)

(** The allowlist is reloaded without the consumer of the example, which then
    asks for another chunk. *)
Definition ex_revoked : provider machine :=
  run_handler (reload_allowlist (fun _ => 1000) ex_file) ex_five.

Lemma complete_case wc st (P : provider machine -> Prop) :
  match on_completion quietly wc st with
  | Returns _ st' => P st' | Blocks => True | Dies | Dangling => False
  end -> P st -> P (ex_complete st wc).
Proof. unfold ex_complete, run_handler. by destruct (on_completion quietly wc st). Qed.

Lemma memory_needs_authority_witness :
  chunks (pv_manager (ex_complete ex_revoked (received_frame (ex_chunk_request 10 1)))) =
  chunks (pv_manager ex_revoked).
Proof.
  assert (E : (fun c => (ps_consumer_id (cn_protocol_session c), ps_authorization_version (cn_protocol_session c)))
    <$> pv_conns ex_revoked !! 7 = Some (padded 64 (chars "node-a"), 1)) by (by vm_compute).
  apply fmap_Some in E as (c & Hc & [= Hid Hv]).
  apply (complete_case _ _ (fun st => chunks (pv_manager st) = chunks (pv_manager ex_revoked))); [|reflexivity].
  apply (memory_needs_authority quietly _ c); [exact (fun s Hs => Hs)|exact (fun s => eq_refl)|exact Hc|].
  intros (_ & _ & m & _ & _ & _ & Ha & _). rewrite <- Hid, <- Hv in Ha.
  assert (N : bool_decide (is_auth_registry_validate_authorization (pv_registry ex_revoked)
    (padded 64 (chars "node-a")) 1 = IS_AUTH_OK) = false) by (by vm_compute).
  apply bool_decide_eq_false in N. exact (N Ha).
Defined.

(** The receives of a connection are flushed. *)
Definition flushed_receive : completion :=
  {| wc_wr_id := 7; wc_success := false; wc_opcode := IBV_WC_RECV; wc_frame := [] |}.
Definition ex_flush (st : provider machine) : provider machine :=
  match pv_conns st !! 7 with
  | Some c => fold_left ex_complete (replicate (Z.to_nat (cn_references c)) flushed_receive) st
  | None => st
  end.

Lemma flush_one st c :
  pv_conns st !! 7 = Some c ->
  pv_conns (ex_complete st flushed_receive) = <[7 := connection_put_reference c]> (pv_conns st).
Proof.
  intros Hc. unfold ex_complete, run_handler, on_completion, mbind, handler_bind, load. cbn [wc_wr_id flushed_receive].
  rewrite Hc. destruct (cn_closing c); cbn -[connection_put_reference]; unfold put_reference, set_conn, on_conn, store, load, mbind, handler_bind;
    cbn -[connection_put_reference]; rewrite Hc; cbn -[connection_put_reference]; by rewrite Hc.
Qed.

(** Every connection stays, and closing if it was; 7 has no reference left. *)
Lemma flush_all n st c :
  pv_conns st !! 7 = Some c -> cn_references c <= Z.of_nat n ->
  exists c', pv_conns (fold_left ex_complete (replicate n flushed_receive) st) = <[7 := c']> (pv_conns st) /\
    cn_closing c' = cn_closing c /\ cn_references c' <= 0.
Proof.
  revert st c. induction n as [|n IH]; intros st c Hc Hr; cbn [replicate fold_left].
  { exists c. rewrite insert_id by done. split_and!; [done..|lia]. }
  destruct (IH (ex_complete st flushed_receive) (connection_put_reference c)) as (c' & Hc' & Hcl & Hr').
  - rewrite (flush_one st c Hc). apply lookup_insert_eq.
  - unfold connection_put_reference. destruct (Z.ltb_spec 0 (cn_references c)); cbn; lia.
  - exists c'. rewrite Hc', (flush_one st c Hc), insert_insert_eq. split_and!; [done| |done].
    rewrite Hcl. unfold connection_put_reference. by destruct (0 <? _).
Qed.

Lemma flush_keeps st q c :
  pv_conns st !! q = Some c ->
  exists c', pv_conns (ex_flush st) !! q = Some c' /\ cn_closing c' = cn_closing c /\
    (q = 7 -> cn_references c' <= 0).
Proof.
  intros Hc. unfold ex_flush. destruct (pv_conns st !! 7) as [x|] eqn:Hx; [|exists c; split_and!; [done..|congruence]].
  destruct (flush_all (Z.to_nat (cn_references x)) st x Hx ltac:(lia)) as (x' & -> & Hcl & Hr).
  destruct (decide (q = 7)) as [->|Hne].
  - exists x'. rewrite lookup_insert_eq. rewrite Hc in Hx. injection Hx as <-. by split_and!.
  - exists c. rewrite lookup_insert_ne by done. by split_and!.
Qed.

Lemma flush_references st c : pv_conns (ex_flush st) !! 7 = Some c -> cn_references c <= 0.
Proof.
  unfold ex_flush. destruct (pv_conns st !! 7) as [x|] eqn:Hx; [|congruence].
  destruct (flush_all (Z.to_nat (cn_references x)) st x Hx ltac:(lia)) as (x' & -> & _ & Hr).
  rewrite lookup_insert_eq. by intros [= <-].
Qed.

Lemma flush_reaches st : ex_reaches st (ex_flush st).
Proof. unfold ex_flush. destruct (pv_conns st !! 7); [apply completions_reach|apply reaches_refl]. Qed.

(** The consumer is granted five chunks and says nothing more; the clock is
    read 80 minutes later. *)
Definition ex_late : provider machine := ex_granted (ex_start [] [] [100; 100; 100; 4900]).

Lemma late_reached : ex_reaches (ex_start [] [] [100; 100; 100; 4900]) ex_late.
Proof.
  eapply reaches_trans; [apply connected_reaches|apply completions_reach].
  - by vm_compute.
  - by vm_compute; eexists.
Qed.

Definition ex_silent (w : machine) (c : connection) : bool :=
  negb (cn_closing c) && cn_handshake_complete c && expired (cn_consumer_liveness c) w.

Lemma silent_parts w c : true = ex_silent w c ->
  cn_closing c = false /\ cn_handshake_complete c = true /\ expired (cn_consumer_liveness c) w = true.
Proof. unfold ex_silent. intros Hs. symmetry in Hs. rewrite !andb_true_iff, negb_true_iff in Hs. tauto. Qed.


(** The consumer asks for two more. *)
Definition late_conn : connection := default (new_connection [] 1) (pv_conns ex_late !! 7).

Lemma lookup_default {A} (m : gmap Z A) k d :
  bool_decide (is_Some (m !! k)) = true -> m !! k = Some (default d (m !! k)).
Proof. intros Hs%bool_decide_eq_true. by destruct Hs as [x ->]. Qed.

Lemma late_speaks : speaking late_conn.
Proof. constructor; by vm_compute. Qed.

Lemma grant_exact_witness :
  exists frame size entries,
    is_protocol_decode (Some (buf_read frame 0 size)) size =
      inr {| msg_header := response_header late_conn IS_PROTOCOL_MSG_CHUNK_GRANT; msg_payload := grant_payload entries |} /\
    Z.of_nat (length entries) = 2 /\
    forall e, e ∈ entries -> chunk_owner (pv_manager ex_late) (Z.to_nat (chunk_provider_chunk_id e)) = 0.
Proof.
  assert (Hc : pv_conns ex_late !! 7 = Some late_conn) by (apply lookup_default; by vm_compute).
  assert (Hcl : cn_closing late_conn = false) by (vm_compute; reflexivity).
  assert (Hd : existsb (asked 7) (pv_trace ex_late) = false) by (vm_compute; reflexivity).
  pose proof late_speaks as Hsp.
  assert (Hid : 0 < cn_active_request_id late_conn < 2 ^ 64) by (split; vm_compute; reflexivity).
  assert (Hst : cn_requested_logical_start late_conn = 0) by (vm_compute; reflexivity).
  assert (Ho : out_result (is_memory_manager_acquire (pv_manager ex_late) (pv_world ex_late) 7
    (cn_requested_pool late_conn) (u32 2) (pv_pd ex_late) MAX_MR_SIZE_GB) = IS_MEMORY_OK) by (vm_compute; reflexivity).
  pose proof late_reached as Hr. pose proof (ex_started [] [] [100; 100; 100; 4900]) as Hs.
  revert Hc Hcl Hd Hsp Hid Hst Ho Hr Hs. generalize late_conn, ex_late, (ex_start [] [] [100; 100; 100; 4900]).
  intros c st st0 Hc Hcl Hd%never_asked Hsp Hid Hst Ho Hr Hs.
  destruct (grant_exact ex_qsort st0 st quietly 7 c 2 ex_qsort_permutes Hs Hr
    (fun r => wrap_in_u 64 r ltac:(lia)) (fun r => wrap_in_u 32 r ltac:(lia)) Hc Hcl Hd Hsp Hid
    ltac:(rewrite Hst; done) ltac:(rewrite Hst; done) Ho) as (frame & size & entries & _ & Hdec & Hn & _ & _ & He).
  exists frame, size, entries. split_and!; [exact Hdec|exact Hn|]. intros e Hin. exact (proj1 (He e Hin)).
Defined.

(** ** A whole life *)

Definition when_ready (e : cm_event) (ready : provider machine -> bool) : provider machine -> option cm_event :=
  fun st => if ready st then Some e else None.
Definition ex_present (st : provider machine) : bool := bool_decide (is_Some (pv_conns st !! 7)).
Definition ex_fresh (st : provider machine) : bool := bool_decide (calloc_fresh st).

(** A consumer connects; then the daemon is asked to end. *)
Definition ex_inputs : list (bool * (provider machine -> option cm_event)) :=
  [(true, when_ready RDMA_CM_EVENT_CONNECT_REQUEST ex_fresh);
   (true, when_ready (RDMA_CM_EVENT_ESTABLISHED 7) ex_present); (false, fun _ => None)].
Definition ex_drained : list (provider machine -> option cm_event) :=
  [when_ready (RDMA_CM_EVENT_DISCONNECTED 7) ex_present].

Lemma ex_reports :
  Forall (fun i => reports i.2) ex_inputs /\ Forall reports ex_drained.
Proof.
  assert (Hp : forall e, (forall st, event_ready e st <-> live 7 st) -> reports (when_ready e ex_present)).
  { intros e He st e' E. unfold when_ready, ex_present in E. case_bool_decide; [|done]. injection E as <-. by apply He. }
  split; [apply list.Forall_cons; split; [|apply list.Forall_cons; split; [by apply Hp|repeat constructor; done]]|].
  - intros st e E. cbn in E. unfold when_ready, ex_fresh in E. case_bool_decide; [|done]. by injection E as <-.
  - repeat constructor. by apply Hp.
Qed.

