(* ===== verification/ProviderSnapshot.v ===== *)
(** * The snapshot of the daemon

    What [provider_observability_snapshot] leaves and what it lists: the
    references it takes are given back, and every consumer with an open,
    identified connection is listed once, with its connections counted. *)
From Stdlib Require Import Strings.String.
From S2P Require Import Prelude Protocol ProtocolWire Text Auth AuthInv AuthSteps AuthExample ProviderSession ProviderSessionAnswer ProviderSessionRun Liveness MemoryManager MemoryManagerInv MemoryConfig Observability ObservabilityText ObservabilitySpec.
From S2P Require Import ProviderConnection ProviderDaemon ProviderLifecycle ProviderMain ProviderFrames ProviderLogic ProviderMemory ProviderRequests ProviderGrant ProviderAuthority ProviderThreads ProviderReach ProviderExample ProviderSpec.

(** ** Listing connections *)

Definition memory_answer : Type := is_memory_result * option is_memory_manager_status.

(** The connection's identity, empty before its HELLO. *)
Definition identity_of (c : connection) : list Z := c_string (ps_consumer_id (cn_protocol_session c)).
Definition entry_identity (e : is_provider_consumer_snapshot) : list Z := c_string (oc_consumer_id e).

(** The turn of the loop for the connection [c], [memory] being what the
    manager answers about it. *)
Definition record_connection (snapshot : is_provider_observability_snapshot)
    (x : connection * memory_answer) : is_provider_observability_snapshot :=
  let '(c, memory) := x in
  if byte_at (ps_consumer_id (cn_protocol_session c)) 0 =? 0 then snapshot
  else
    match find_consumer_snapshot snapshot (ps_consumer_id (cn_protocol_session c)) with
    | (snapshot, None) => snapshot
    | (snapshot, Some index) =>
        let entry := consumer_at snapshot index in
        let entry :=
          if oc_connection_count entry =? 0 then first_connection c (consumer_state c) memory entry
          else if bool_decide (consumer_state c = IS_PROVIDER_CONSUMER_READY)
          then entry <| oc_state := consumer_state c |> else entry in
        let entry :=
          entry <| oc_connection_count ::= fun n => u32 (n + 1) |>
                <| oc_inflight_control_requests ::= fun n => u32 (n + inflight_requests c) |> in
        snapshot <| os_consumers := set_at (os_consumers snapshot) index entry |>
    end.

(** The connections of [l] with the identity [id]. *)
Definition with_identity (id : list Z) (l : list (connection * memory_answer)) : list (connection * memory_answer) :=
  filter (fun x => identity_of x.1 = id) l.

Definition is_ready (x : connection * memory_answer) : Prop :=
  consumer_state x.1 = IS_PROVIDER_CONSUMER_READY.

(** The chunks an answer of the manager reports. *)
Definition answered_chunks (memory : memory_answer) : Z * Z :=
  match memory with
  | (IS_MEMORY_OK, Some status) =>
      (consumer_assigned_opportunistic_chunks status, consumer_assigned_committed_chunks status)
  | _ => (0, 0)
  end.

(** An entry stands for the connections [same] of its consumer; the first of
    them says its mode, pool and deadline, and the chunks it holds. *)
Record describes (same : list (connection * memory_answer)) (e : is_provider_consumer_snapshot) : Prop := {
  ds_count : oc_connection_count e = Z.of_nat (length same);
  ds_ready : oc_state e = IS_PROVIDER_CONSUMER_READY <-> Exists is_ready same;
  ds_inflight : oc_inflight_control_requests e =
    Z.of_nat (sum_list_with (fun x => Z.to_nat (inflight_requests x.1)) same);
  ds_first : exists c memory rest, same = (c, memory) :: rest /\
    oc_mode e = ps_selected_mode (cn_protocol_session c) /\
    oc_pool e = ps_selected_pool (cn_protocol_session c) /\
    oc_failure_deadline_ms e = ps_failure_deadline_ms (cn_protocol_session c) /\
    oc_last_error_code e = ps_last_error_code (cn_protocol_session c) /\
    (oc_assigned_opportunistic_chunks e, oc_assigned_committed_chunks e) = answered_chunks memory
}.

(** The snapshot lists the connections [l]. *)
Record lists (l : list (connection * memory_answer)) (s : is_provider_observability_snapshot) : Prop := {
  li_array : length (os_consumers s) = 64%nat;
  li_count : 0 <= os_consumer_count s <= Z.of_nat (length l);
  li_fresh : forall i, os_consumer_count s <= i < 64 -> consumer_at s i = zero_consumer;
  li_width : forall i, 0 <= i < os_consumer_count s -> length (oc_consumer_id (consumer_at s i)) = 64%nat;
  li_distinct : NoDup (entry_identity <$> consumers s);
  li_entry : forall e, e ∈ consumers s ->
    entry_identity e <> [] /\ describes (with_identity (entry_identity e) l) e;
  li_all : forall x, x ∈ l -> identity_of x.1 <> [] ->
    identity_of x.1 ∈ entry_identity <$> consumers s
}.

(** ** One connection more *)

Lemma consumers_lookup s i e :
  consumers s !! i = Some e <-> Z.of_nat i < os_consumer_count s /\ e = consumer_at s (Z.of_nat i).
Proof.
  unfold consumers. rewrite list_lookup_fmap. destruct (decide (Z.of_nat i < os_consumer_count s)) as [H|H].
  - rewrite lookup_seq_lt by lia. cbn. naive_solver.
  - rewrite lookup_seq_ge by lia. cbn. naive_solver.
Qed.

Lemma first_byte (id : list Z) : byte_at id 0 = 0 <-> c_string id = [].
Proof.
  destruct id as [|c l]; [done|]. change (byte_at (c :: l) 0) with c. cbn. destruct (Z.eqb_spec c 0); naive_solver.
Qed.

Lemma inflight_range c : 0 <= inflight_requests c <= 2.
Proof. unfold inflight_requests. repeat case_match; lia. Qed.

Lemma inflight_sum (l : list (connection * memory_answer)) :
  (sum_list_with (fun x => Z.to_nat (inflight_requests x.1)) l <= 2 * length l)%nat.
Proof. induction l as [|x l IH]; cbn; [lia|]. pose proof (inflight_range x.1). lia. Qed.

(** What the code adds to an entry for a connection. *)
Definition count_connection (c : connection) (e : is_provider_consumer_snapshot) :
    is_provider_consumer_snapshot :=
  e <| oc_connection_count ::= fun n => u32 (n + 1) |>
    <| oc_inflight_control_requests ::= fun n => u32 (n + inflight_requests c) |>.

Lemma describes_first c memory :
  describes [(c, memory)] (count_connection c (first_connection c (consumer_state c) memory zero_consumer)).
Proof.
  pose proof (inflight_range c). set (e := first_connection c (consumer_state c) memory zero_consumer).
  assert (Hc : oc_connection_count e = 0 /\ oc_inflight_control_requests e = 0 /\ oc_state e = consumer_state c).
  { unfold e, first_connection. by destruct memory as [[] [|]]. }
  destruct Hc as (H1 & H2 & H3). constructor.
  - cbn. by rewrite H1.
  - cbn. rewrite H3. rewrite Exists_cons, Exists_nil. unfold is_ready. cbn. tauto.
  - cbn. rewrite H2, wrap_small by (unfold in_u; pow_lia). lia.
  - exists c, memory, []. unfold e, first_connection. by destruct memory as [[] [|]].
Qed.

Lemma describes_more same e c memory :
  describes same e -> (length same < 64)%nat ->
  describes (same ++ [(c, memory)]) (count_connection c
    (if bool_decide (consumer_state c = IS_PROVIDER_CONSUMER_READY)
     then e <| oc_state := consumer_state c |> else e)).
Proof.
  intros [D1 D2 D3 D4] Hl. pose proof (inflight_range c). pose proof (inflight_sum same).
  constructor.
  - rewrite length_app. cbn. case_bool_decide; cbn; rewrite D1, wrap_small by (unfold in_u; pow_lia); lia.
  - rewrite Exists_app, Exists_cons, Exists_nil, <- D2. unfold is_ready. cbn. case_bool_decide as E; cbn; [tauto|tauto].
  - rewrite sum_list_with_app. cbn. case_bool_decide; cbn; rewrite D3, wrap_small by (unfold in_u; pow_lia); lia.
  - destruct D4 as (c0 & m0 & rest & -> & D4). exists c0, m0, (rest ++ [(c, memory)]). split; [done|].
    by case_bool_decide.
Qed.

(** Replacing the entry at [i], the first [n] being in use then. *)
Definition put_entry (s : is_provider_observability_snapshot) (n i : Z) (e : is_provider_consumer_snapshot) :
    is_provider_observability_snapshot :=
  s <| os_consumer_count := n |> <| os_consumers := set_at (os_consumers s) i e |>.

Lemma put_entry_at s n i e j :
  length (os_consumers s) = 64%nat -> 0 <= i < 64 -> 0 <= j ->
  consumer_at (put_entry s n i e) j = if decide (j = i) then e else consumer_at s j.
Proof.
  intros Hl Hi Hj. unfold consumer_at, put_entry. cbn -[set_at]. rewrite nth_set_at by lia.
  destruct (decide (j = i)) as [->|]; repeat case_match; try lia; done.
Qed.

Lemma consumers_replaced s i e :
  length (os_consumers s) = 64%nat -> 0 <= i < os_consumer_count s -> i < 64 ->
  consumers (put_entry s (os_consumer_count s) i e) = <[Z.to_nat i := e]> (consumers s).
Proof.
  intros Hl Hi H64. apply list_eq. intros j. apply option_eq. intros x. rewrite consumers_lookup. cbn [os_consumer_count].
  change (os_consumer_count (put_entry s (os_consumer_count s) i e)) with (os_consumer_count s).
  rewrite put_entry_at by lia. rewrite list_lookup_insert_Some.
  assert (Hlen : length (consumers s) = Z.to_nat (os_consumer_count s)) by (unfold consumers; by rewrite length_fmap, length_seq).
  rewrite consumers_lookup, Hlen. destruct (decide (Z.of_nat j = i)) as [<-|Hne].
  - rewrite Nat2Z.id. split; [intros [? ->]; left; split_and!; [done|done|lia]|intros [(_ & <- & _)|[? _]]; [split; [lia|done]|done]].
  - split; [intros [? ->]; right; split_and!; [lia|done|done]|intros [(<- & _ & _)|(_ & ? & ->)]; [lia|split; [lia|done]]].
Qed.

Lemma consumers_added s e :
  length (os_consumers s) = 64%nat -> 0 <= os_consumer_count s < 64 ->
  consumers (put_entry s (os_consumer_count s + 1) (os_consumer_count s) e) = consumers s ++ [e].
Proof.
  intros Hl Hi. apply list_eq. intros j. apply option_eq. intros x. rewrite consumers_lookup.
  change (os_consumer_count (put_entry s (os_consumer_count s + 1) (os_consumer_count s) e)) with (os_consumer_count s + 1).
  rewrite put_entry_at by lia.
  assert (Hlen : length (consumers s) = Z.to_nat (os_consumer_count s)) by (unfold consumers; by rewrite length_fmap, length_seq).
  destruct (decide (Z.of_nat j = os_consumer_count s)) as [E|Hne].
  - rewrite lookup_app_r by lia. replace (j - length (consumers s))%nat with 0%nat by lia. cbn. split; [by intros [_ ->]|].
    intros [= ->]. split; [lia|done].
  - destruct (decide (j < length (consumers s))%nat).
    + rewrite lookup_app_l by lia. rewrite consumers_lookup. split; intros [? ->]; (split; [lia|done]).
    + rewrite lookup_ge_None_2 by (rewrite length_app; cbn; lia). split; [lia|done].
Qed.

Lemma with_identity_app id l x :
  with_identity id (l ++ [x]) = with_identity id l ++ (if decide (identity_of x.1 = id) then [x] else []).
Proof. unfold with_identity. by rewrite list.filter_app. Qed.

Section Listed.
Context (l : list (connection * memory_answer)) (s : is_provider_observability_snapshot).
Context (Hs : lists l s) (Hl : (length l < 64)%nat).
Context (x : connection * memory_answer).

Lemma lists_anonymous : identity_of x.1 = [] -> lists (l ++ [x]) s.
Proof.
  intros E. destruct Hs as [A1 A2 A3 A4 A5 A6 A7]. constructor; try done.
  - rewrite length_app. cbn. lia.
  - intros e He. destruct (A6 e He) as [Hn Hd]. split; [done|]. rewrite with_identity_app, decide_False by congruence.
    by rewrite app_nil_r.
  - intros y [Hy|Hy%list_elem_of_singleton]%elem_of_app Hn; [by apply A7|]. subst y. done.
Qed.

Lemma lists_known i e :
  0 <= i < os_consumer_count s -> entry_identity (consumer_at s i) = identity_of x.1 -> identity_of x.1 <> [] ->
  entry_identity e = identity_of x.1 -> length (oc_consumer_id e) = 64%nat ->
  describes (with_identity (identity_of x.1) (l ++ [x])) e ->
  lists (l ++ [x]) (put_entry s (os_consumer_count s) i e).
Proof.
  intros Hi Ei Hn Ee Hw Hd. destruct Hs as [A1 A2 A3 A4 A5 A6 A7].
  assert (Hc := consumers_replaced s i e A1 Hi ltac:(lia)).
  assert (Hlook : consumers s !! Z.to_nat i = Some (consumer_at s i)) by (apply consumers_lookup; rewrite Z2Nat.id by lia; split; [lia|done]).
  assert (Hids : entry_identity <$> <[Z.to_nat i := e]> (consumers s) = entry_identity <$> consumers s).
  { rewrite list_fmap_insert, Ee, <- Ei. apply list_insert_id. by rewrite list_lookup_fmap, Hlook. }
  constructor; rewrite ?Hc, ?Hids.
  - cbn -[set_at]. by rewrite length_set_at.
  - cbn. rewrite length_app. cbn. lia.
  - intros j Hj. cbn in Hj. rewrite put_entry_at by lia. rewrite decide_False by lia. by apply A3.
  - intros j Hj. cbn in Hj. rewrite put_entry_at by lia. destruct (decide (j = i)); [done|by apply A4].
  - done.
  - intros e' [j Hj]%list_elem_of_lookup. rewrite list_lookup_insert_Some in Hj. destruct Hj as [(<- & <- & _)|[Hne Hj]].
    + split; [congruence|]. by rewrite Ee.
    + assert (Hin : e' ∈ consumers s) by (by eapply list_elem_of_lookup_2). destruct (A6 e' Hin) as [Hn' Hd']. split; [done|].
      rewrite with_identity_app, decide_False, app_nil_r; [done|]. intros E'. apply Hne.
      eapply (NoDup_lookup _ _ _ (identity_of x.1) A5); rewrite list_lookup_fmap.
      * by rewrite Hlook; cbn; rewrite Ei.
      * by rewrite Hj; cbn; rewrite E'.
  - intros y [Hy|Hy%list_elem_of_singleton]%elem_of_app Hn'; [by apply A7|]. subst y. rewrite <- Ei.
    apply list_elem_of_fmap_2. by eapply list_elem_of_lookup_2.
Qed.

Lemma lists_new e :
  identity_of x.1 ∉ entry_identity <$> consumers s -> identity_of x.1 <> [] ->
  entry_identity e = identity_of x.1 -> length (oc_consumer_id e) = 64%nat -> describes [x] e ->
  lists (l ++ [x]) (put_entry s (os_consumer_count s + 1) (os_consumer_count s) e).
Proof.
  intros Hnew Hn Ee Hw Hd. destruct Hs as [A1 A2 A3 A4 A5 A6 A7].
  assert (Hc := consumers_added s e A1 ltac:(lia)).
  assert (Hnone : with_identity (identity_of x.1) l = []).
  { apply list_nil_subseteq. intros y [E Hy]%list_elem_of_filter. exfalso. apply Hnew. rewrite <- E. apply A7; [done|]. congruence. }
  constructor; rewrite ?Hc, ?fmap_app.
  - cbn -[set_at]. by rewrite length_set_at.
  - cbn. rewrite length_app. cbn. lia.
  - intros j Hj. cbn in Hj. rewrite put_entry_at by lia. rewrite decide_False by lia. apply A3. lia.
  - intros j Hj. cbn in Hj. rewrite put_entry_at by lia. destruct (decide (j = os_consumer_count s)); [done|apply A4; lia].
  - apply list.NoDup_app. split; [done|]. split; [|apply NoDup_singleton].
    intros y Hy Hy'%list_elem_of_singleton. subst y. by rewrite Ee in Hy.
  - intros e' [He|He%list_elem_of_singleton]%elem_of_app.
    + destruct (A6 e' He) as [Hn' Hd']. split; [done|]. rewrite with_identity_app, decide_False, app_nil_r; [done|].
      intros E. apply Hnew. rewrite E. by apply list_elem_of_fmap_2.
    + subst e'. split; [congruence|]. by rewrite Ee, with_identity_app, Hnone, decide_True.
  - intros y [Hy|Hy%list_elem_of_singleton]%elem_of_app Hn'; apply elem_of_app; [left; by apply A7|right].
    subst y. rewrite <- Ee. by apply list_elem_of_singleton.
Qed.
End Listed.

(** A session's identity fits its array. *)
Definition identity_ok (c : connection) : Prop :=
  length (ps_consumer_id (cn_protocol_session c)) = 64%nat /\ (length (identity_of c) <= 63)%nat.

Lemma first_identity c memory state e :
  identity_ok c -> length (oc_consumer_id e) = 64%nat ->
  length (oc_consumer_id (first_connection c state memory e)) = 64%nat /\
  entry_identity (first_connection c state memory e) = identity_of c.
Proof.
  intros [_ Hi] Hl. unfold identity_of in *. set (id := ps_consumer_id (cn_protocol_session c)) in *.
  assert (E : oc_consumer_id (first_connection c state memory e) = strcpy (oc_consumer_id e) id)
    by (unfold first_connection; by destruct memory as [[] [|]]).
  unfold entry_identity. rewrite E. split; [unfold strcpy; by rewrite length_buf_write|].
  apply c_string_strcpy. lia.
Qed.

Lemma lists_record l s c memory :
  lists l s -> (length l < 64)%nat -> identity_ok c ->
  lists (l ++ [(c, memory)]) (record_connection s (c, memory)).
Proof.
  intros Hs Hl Hok. unfold record_connection. destruct (Z.eqb_spec (byte_at (ps_consumer_id (cn_protocol_session c)) 0) 0) as [E|E].
  { apply lists_anonymous; [done|done|]. by apply first_byte. }
  rewrite first_byte in E. fold (identity_of c) in E. unfold find_consumer_snapshot.
  pose proof Hs as [A1 A2 A3 A4 A5 A6 A7].
  destruct (find_below _ _) as [i|] eqn:Ef.
  - apply find_below_Some in Ef as (Hi & Hp & _). unfold str_equal in Hp. apply bool_decide_eq_true in Hp.
    fold (entry_identity (consumer_at s i)) (identity_of c) in Hp.
    assert (Hin : consumer_at s i ∈ consumers s).
    { apply list_elem_of_lookup. exists (Z.to_nat i). apply consumers_lookup. rewrite Z2Nat.id by lia. split; [lia|done]. }
    destruct (A6 _ Hin) as [_ Hd]. rewrite Hp in Hd.
    assert (Hpos : oc_connection_count (consumer_at s i) <> 0).
    { destruct Hd as [D1 _ _ (c0 & m0 & rest & Er & _)]. rewrite D1, Er. cbn. lia. }
    rewrite (proj2 (Z.eqb_neq _ _) Hpos).
    match goal with |- lists _ ?t => replace t with (put_entry s (os_consumer_count s) i (count_connection c
      (if bool_decide (consumer_state c = IS_PROVIDER_CONSUMER_READY)
       then (consumer_at s i) <| oc_state := consumer_state c |> else consumer_at s i))) by by destruct s end.
    apply lists_known; try done.
    + by case_bool_decide.
    + specialize (A4 i Hi). by case_bool_decide.
    + cbn [fst]. rewrite with_identity_app, decide_True by done. apply describes_more; [done|].
      assert (Hle : (length (with_identity (identity_of c) l) <= length l)%nat) by apply length_filter. lia.
  - assert (Hnew : identity_of c ∉ entry_identity <$> consumers s).
    { intros (e & Ee & [j Hj]%list_elem_of_lookup)%list_elem_of_fmap. apply consumers_lookup in Hj as [Hj ->].
      pose proof (proj1 (find_below_None _ _) Ef (Z.of_nat j) ltac:(lia)) as Hf. unfold str_equal in Hf.
      by apply bool_decide_eq_false in Hf. }
    change IS_PROVIDER_OBSERVABILITY_MAX_CONSUMERS with 64. replace (64 <=? os_consumer_count s) with false by lia.
    change (consumer_at (s <| os_consumer_count := os_consumer_count s + 1 |>) (os_consumer_count s))
      with (consumer_at s (os_consumer_count s)). rewrite (A3 (os_consumer_count s)) by lia. cbn [oc_connection_count zero_consumer Z.eqb].
    destruct (first_identity c memory (consumer_state c) zero_consumer Hok eq_refl) as [Hw Hid].
    apply (lists_new l s Hs Hl (c, memory)); [done|done|done|done|]. apply describes_first.
Qed.

(** ** Taking the snapshot *)

(** The connections, with a reference to those of [l]. *)
Definition retained (l : list Z) (m : gmap Z connection) : gmap Z connection :=
  map_imap (fun p c => Some (if bool_decide (p ∈ l)
    then c <| cn_references := u32 (cn_references c + 1) |> else c)) m.

Lemma retained_lookup l m p :
  retained l m !! p = (fun c => if bool_decide (p ∈ l)
    then c <| cn_references := u32 (cn_references c + 1) |> else c) <$> m !! p.
Proof. unfold retained. rewrite map_lookup_imap. by destruct (m !! p). Qed.

Lemma retained_nil m : retained [] m = m.
Proof.
  apply map_eq. intros p. rewrite retained_lookup. rewrite bool_decide_eq_false_2 by apply not_elem_of_nil.
  by destruct (m !! p).
Qed.

Lemma retained_more l m p c :
  p ∉ l -> m !! p = Some c ->
  <[p := c <| cn_references := u32 (cn_references c + 1) |>]> (retained l m) = retained (l ++ [p]) m.
Proof.
  intros Hp Hc. apply map_eq. intros q. rewrite retained_lookup. destruct (decide (p = q)) as [<-|Hne].
  - rewrite lookup_insert_eq, Hc. cbn. rewrite bool_decide_eq_true_2; [done|]. apply elem_of_app. right.
    by apply list_elem_of_singleton.
  - rewrite lookup_insert_ne, retained_lookup by done. f_equal. 
    rewrite (bool_decide_ext (q ∈ l) (q ∈ l ++ [p])); [done|]. rewrite elem_of_app, list_elem_of_singleton. naive_solver.
Qed.

(** No count of references is about to overflow. *)
Definition countable_references (c : connection) : Prop := 0 <= cn_references c < UINT32_MAX.

Lemma retained_less l m p c :
  p ∉ l -> m !! p = Some c -> countable_references c ->
  <[p := connection_put_reference (c <| cn_references := u32 (cn_references c + 1) |>)]> (retained (p :: l) m)
  = retained l m.
Proof.
  intros Hp Hc Hr. unfold countable_references, UINT32_MAX in Hr.
  assert (E : connection_put_reference (c <| cn_references := u32 (cn_references c + 1) |>) = c).
  { rewrite wrap_small by (unfold in_u; pow_lia). unfold connection_put_reference. cbn [cn_references update].
    change (cn_references (c <| cn_references := cn_references c + 1 |>)) with (cn_references c + 1).
    rewrite (proj2 (Z.ltb_lt _ _)) by lia. replace (cn_references c + 1 - 1) with (cn_references c) by lia. by destruct c. }
  rewrite E. apply map_eq. intros q. destruct (decide (p = q)) as [<-|Hne].
  - by rewrite lookup_insert_eq, retained_lookup, Hc, bool_decide_eq_false_2.
  - rewrite lookup_insert_ne, !retained_lookup by done. f_equal.
    rewrite (bool_decide_ext (q ∈ p :: l) (q ∈ l)); [done|]. rewrite elem_of_cons. naive_solver.
Qed.

Definition is_open (m : gmap Z connection) (p : Z) : Prop := cn_closing <$> m !! p = Some false.
#[export] Instance is_open_dec m p : Decision (is_open m p).
Proof. unfold is_open. apply _. Defined.

Section Taking.
Context {W : Type} `{PlatformLaws W} `{ProtocolBuild} `{Mac}.

Lemma hold_each_run slots acc (st : provider W) m :
  pv_conns st = retained acc m -> NoDup (acc ++ filter (fun q => q <> 0) slots.*1) ->
  (forall q, q ∈ slots.*1 -> q <> 0 -> is_Some (m !! q)) ->
  let held := acc ++ filter (is_open m) (filter (fun q => q <> 0) slots.*1) in
  hold_each (fun _ _ => true) acc slots st = Returns held (st <| pv_conns := retained held m |>).
Proof.
  revert acc st. induction slots as [|[p state] slots IH]; intros acc st Hc Hd Hm; cbn [hold_each fmap list_fmap fst].
  { cbn. rewrite app_nil_r, <- Hc. by destruct st. }
  cbn [fmap list_fmap fst] in Hd, Hm.
  assert (Hm' : forall q, q ∈ slots.*1 -> q <> 0 -> is_Some (m !! q)) by (intros; apply Hm; [by constructor|done]).
  unfold hold_connection. destruct (Z.eqb_spec p 0) as [->|Hp].
  { rewrite filter_cons_False in Hd |- * by naive_solver. rewrite (bind_run _ _ _ acc st) by done. by apply IH. }
  rewrite filter_cons_True in Hd |- * by done. destruct (Hm p) as [c Hpc]; [by constructor|done|].
  assert (Hni : p ∉ acc).
  { apply list.NoDup_app in Hd as (_ & Hd & _). intros Hin. apply (Hd p Hin). by constructor. }
  assert (Hl : pv_conns st !! p = Some c) by (rewrite Hc, retained_lookup, Hpc, bool_decide_eq_false_2; done).
  destruct (cn_closing c) eqn:Ecl.
  - rewrite filter_cons_False by (unfold is_open; rewrite Hpc; cbn; congruence).
    rewrite (bind_run _ _ _ acc st).
    + apply IH; [done| |done]. apply list.NoDup_app in Hd as (Hx & Hy & Hz).
      apply list.NoDup_cons in Hz as [_ Hz]. apply list.NoDup_app. split_and!; [done| |done].
      intros q Hq Hq'. apply (Hy q Hq). by constructor.
    + rewrite (bind_run _ _ _ c st) by by apply load_run. cbn [negb].
      unfold get_reference, on_conn. unfold mbind, handler_bind. rewrite (load_run p c st) by done.
      unfold connection_get_reference. rewrite Ecl. unfold store. rewrite Hl. cbn. rewrite insert_id by done. by destruct st.
  - rewrite filter_cons_True by (unfold is_open; rewrite Hpc; cbn; congruence).
    rewrite (bind_run _ _ _ (acc ++ [p]) (st <| pv_conns := retained (acc ++ [p]) m |>)).
    + pose proof (IH (acc ++ [p]) (st <| pv_conns := retained (acc ++ [p]) m |>) eq_refl) as E.
      rewrite <- app_assoc in E. cbv zeta in E. rewrite <- app_assoc in E. by rewrite E.
    + rewrite (bind_run _ _ _ c st) by by apply load_run. cbn [negb].
      unfold get_reference, on_conn. unfold mbind, handler_bind. rewrite (load_run p c st) by done.
      unfold connection_get_reference. rewrite Ecl. unfold store. rewrite Hl. cbn.
      by rewrite Hc, (retained_more acc m p c).
Qed.

(** What the manager may answer about [p]. *)
Definition answers (m : is_memory_manager) (p : Z) (memory : memory_answer) : Prop :=
  exists w w' : W, is_memory_manager_get_status m w p = (w', memory.1, memory.2).

Lemma memory_status_run p st :
  exists w memory, memory_status p st = Returns memory (st <| pv_world := w |>) /\
    quiet (pv_world st) w /\ answers (pv_manager st) p memory.
Proof.
  unfold memory_status, with_manager. destruct (is_memory_manager_get_status _ _ p) as [[w r] s] eqn:E.
  exists w, (r, s). split; [by destruct st|]. split; [by eapply get_status_quiet|]. by exists (pv_world st), w.
Qed.

Lemma put_run p c (st : provider W) :
  pv_conns st !! p = Some c ->
  put_reference p st = Returns tt (st <| pv_conns := <[p := connection_put_reference c]> (pv_conns st) |>).
Proof. intros Hc. by apply set_conn_run. Qed.

Lemma snapshot_connection_run sn p c l st m :
  pv_conns st = retained (p :: l) m -> m !! p = Some c -> p ∉ l -> countable_references c ->
  exists w memory, snapshot_connection sn p st =
      Returns (record_connection sn (c, memory)) (st <| pv_conns := retained l m |> <| pv_world := w |>) /\
    quiet (pv_world st) w /\ answers (pv_manager st) p memory.
Proof.
  intros Hm Hc Hp Hr. set (c1 := c <| cn_references := u32 (cn_references c + 1) |>).
  assert (Hl : pv_conns st !! p = Some c1).
  { rewrite Hm, retained_lookup, Hc, bool_decide_eq_true_2; [done|constructor]. }
  destruct (memory_status_run p st) as (w & memory & Em & Hq & Ha).
  assert (Hput : forall w, put_reference p (st <| pv_world := w |>) =
    Returns tt (st <| pv_conns := retained l m |> <| pv_world := w |>)).
  { intros w'. rewrite (put_run p c1) by done. cbn [pv_conns]. 
    change (pv_conns (st <| pv_world := w' |>)) with (pv_conns st). rewrite Hm. unfold c1.
    rewrite retained_less by done. by destruct st. }
  unfold snapshot_connection. rewrite (bind_run _ _ _ c1 st) by by apply load_run.
  change (cn_protocol_session c1) with (cn_protocol_session c). unfold record_connection.
  change (consumer_state c1) with (consumer_state c).
  assert (Hput0 := Hput (pv_world st)). replace (st <| pv_world := pv_world st |>) with st in Hput0 by by destruct st.
  destruct (byte_at _ 0 =? 0).
  { exists (pv_world st), memory. by rewrite (bind_run _ _ _ _ _ Hput0). }
  destruct (find_consumer_snapshot sn _) as [sn1 [index|]].
  2: { exists (pv_world st), memory. by rewrite (bind_run _ _ _ _ _ Hput0). }
  destruct (oc_connection_count (consumer_at sn1 index) =? 0).
  - exists w, memory. split; [|done].
    rewrite (bind_run _ _ _ (first_connection c1 (consumer_state c) memory (consumer_at sn1 index)) (st <| pv_world := w |>)).
    + rewrite (bind_run _ _ _ _ _ (Hput w)). by destruct memory as [[] [|]].
    + by rewrite (bind_run _ _ _ _ _ Em).
  - exists (pv_world st), memory. split; [|done].
    rewrite (bind_run _ _ _ (if bool_decide (consumer_state c = IS_PROVIDER_CONSUMER_READY)
      then (consumer_at sn1 index) <| oc_state := consumer_state c |> else consumer_at sn1 index) st) by done.
    by rewrite (bind_run _ _ _ _ _ Hput0).
Qed.

Lemma snapshot_connections_run held sn st m :
  pv_conns st = retained held m -> NoDup held ->
  (forall p, p ∈ held -> exists c, m !! p = Some c /\ countable_references c) ->
  exists w listed, snapshot_connections sn held st =
      Returns (fold_left record_connection listed sn) (st <| pv_conns := m |> <| pv_world := w |>) /\
    quiet (pv_world st) w /\
    Forall2 (fun p x => m !! p = Some x.1 /\ answers (pv_manager st) p x.2) held listed.
Proof.
  revert sn st. induction held as [|p held IH]; intros sn st Hm Hd Hc.
  { exists (pv_world st), []. split; [|split; [done|constructor]]. rewrite retained_nil in Hm. cbn. rewrite <- Hm. by destruct st. }
  apply list.NoDup_cons in Hd as [Hp Hd]. destruct (Hc p) as (c & Hpc & Hr); [by constructor|].
  destruct (snapshot_connection_run sn p c held st m Hm Hpc Hp Hr) as (w & memory & E & Hq & Ha).
  cbn [snapshot_connections]. rewrite (bind_run _ _ _ _ _ E).
  destruct (IH (record_connection sn (c, memory)) (st <| pv_conns := retained held m |> <| pv_world := w |>))
    as (w' & listed & E' & Hq' & Hf); [done|done|intros q Hq'; apply Hc; by constructor|].
  exists w', ((c, memory) :: listed). rewrite E'. split; [by destruct st|]. split.
  - change (quiet w w') in Hq'. destruct Hq as [Q1 Q2], Hq' as [Q3 Q4]. split; congruence.
  - constructor; [done|]. exact Hf.
Qed.
End Taking.

(** ** Sound sessions *)

(** A session names its consumer by an identifier, or not yet. *)
Record session_sound (s : is_provider_session) : Prop := {
  so_width : length (ps_consumer_id s) = 64%nat;
  so_identity : c_string (ps_consumer_id s) = [] \/ named (ps_consumer_id s);
  so_deadline : is_u32 (ps_failure_deadline_ms s);
  so_error : is_u16 (ps_last_error_code s)
}.

Lemma byte_at_c_string v i : 0 <= i < Z.of_nat (length (c_string v)) -> byte_at v i = byte_at (c_string v) i.
Proof.
  revert i. induction v as [|c v IH]; intros i Hi; [cbn in Hi; lia|]. cbn in Hi |- *. destruct (c =? 0); [cbn in Hi; lia|].
  unfold byte_at. destruct (Z.to_nat i) as [|n] eqn:E; [done|]. cbn.
  specialize (IH (Z.of_nat n)). unfold byte_at in IH. rewrite Nat2Z.id in IH. apply IH. cbn in Hi. lia.
Qed.

Lemma validated_named h c k : is_validate_hello h = inr (c, k) -> named (hello_consumer_id h) /\ is_u32 (hello_failure_deadline_ms h).
Proof.
  intros Ev. pose proof Ev as El. apply is_validate_hello_lengths in El as (Ec & _ & Hc & _).
  unfold is_validate_hello in Ev. destruct (_ || _) eqn:E1; [done|]. destruct (_ || _) eqn:E2 in Ev; [done|].
  apply orb_false_iff in E1 as [E1 _]. apply orb_false_iff in E1 as [_ E1]. apply negb_false_iff in E1.
  apply is_identifier_valid_chars in E1 as [Hn Hch].
  rewrite bounded_string_length_bounded, bounded_length_spec in Hn, Hch, Ec by done.
  unfold IS_PROTOCOL_CONSUMER_ID_MAX in *. split; [split; [lia|]|].
  - apply list.Forall_forall. intros x [i Hi]%list_elem_of_lookup. pose proof (lookup_lt_Some _ _ _ Hi).
    specialize (Hch (Z.of_nat i) ltac:(lia)). rewrite byte_at_c_string in Hch by lia. unfold byte_at in Hch.
    rewrite Nat2Z.id, (nth_lookup_Some _ _ _ _ Hi) in Hch. done.
  - apply orb_false_iff in E2 as [_ E2]. apply negb_false_iff in E2.
    unfold is_deadline_valid, IS_PROTOCOL_FAILURE_DEADLINE_MIN_MS, IS_PROTOCOL_FAILURE_DEADLINE_MAX_MS in E2.
    unfold in_u. pow_lia.
Qed.

Section Sound.
Context `{ProtocolBuild} `{Mac}.

Lemma decoded_named frame m :
  decoded frame m -> hdr_type (msg_header m) = IS_PROTOCOL_MSG_HELLO ->
  named (hello_consumer_id (get_hello (msg_payload m))) /\
  is_u32 (hello_failure_deadline_ms (get_hello (msg_payload m))).
Proof.
  unfold decoded, is_protocol_decode. intros Hd Ht. case_match; [done|].
  destruct (is_decode_header _ _) as [|[h n]]; [done|].
  destruct (is_decode_payload _ _ _) as [|p] eqn:Ep; [done|]. injection Hd as <-. simpl in *.
  unfold is_decode_payload in Ep. rewrite Ht in Ep. simpl in Ep.
  destruct (is_decode_hello _ _) as [|hello] eqn:Eh; [done|]. injection Ep as <-. simpl.
  unfold is_decode_hello in Eh. do 2 (case_match; [done|]).
  match type of Eh with context [is_validate_hello ?r] => set (h' := r) in Eh end.
  destruct (is_validate_hello h') as [|[c k]] eqn:Ev; [done|]. injection Eh as <-.
  by eapply validated_named.
Qed.

Lemma build_error_sound s id type code response capacity outcome :
  session_sound s -> session_sound (build_error s id type code response capacity outcome).1.1.1.
Proof.
  intros [S1 S2 S3 S4]. unfold build_error. destruct (is_protocol_encode _ _ _) as [|[? ?]]; [by constructor|].
  constructor; cbn; try done. by apply wrap_in_u.
Qed.

Lemma fail_sound s id type code response capacity :
  session_sound s -> session_sound (is_provider_session_fail s id type code response capacity).1.1.1.
Proof.
  intros Hs. unfold is_provider_session_fail. pose proof (build_error_sound s id type code response capacity zero_outcome Hs) as He.
  by destruct (build_error _ _ _ _ _ _ _) as [[[? ?] ?] ?].
Qed.

Lemma named_ext v v' : c_string v' = c_string v -> named v -> named v'.
Proof. unfold named. by intros ->. Qed.

Lemma hello_sound s m frame response capacity outcome :
  session_sound s -> named (hello_consumer_id (get_hello (msg_payload m))) ->
  is_u32 (hello_failure_deadline_ms (get_hello (msg_payload m))) ->
  session_sound (handle_hello s m frame response capacity outcome).1.1.1.
Proof.
  intros Hs Hn Hd. unfold handle_hello.
  assert (Hs1 : session_sound (negotiate_hello s m).1).
  { unfold negotiate_hello. destruct (is_protocol_negotiate _ _ _ _ _ _) as [|[? ?]]; [done|]. by destruct Hs. }
  destruct (negotiate_hello s m) as [s1 negotiated]. cbn [fst] in Hs1.
  destruct (_ || _); [by apply build_error_sound|].
  assert (Hs2 : session_sound (record_hello s1 m frame)).
  { destruct Hs1 as [S1 S2 S3 S4]. constructor; cbn -[strcpy]; try done.
    - unfold strcpy. by rewrite length_buf_write.
    - right. eapply named_ext; [|exact Hn]. apply c_string_strcpy. rewrite S1. destruct Hn as [Hn _]. lia. }
  revert Hs2. generalize (record_hello s1 m frame). intros s2 Hs2.
  destruct (is_protocol_encode _ _ _) as [|[? ?]]; [done|]. by destruct Hs2.
Qed.

Lemma auth_sound now registry s m response capacity outcome :
  session_sound s -> session_sound (handle_auth now registry s m response capacity outcome).1.1.1.
Proof.
  intros Hs. unfold handle_auth. destruct (_ <=? _); [by apply build_error_sound|].
  destruct (_ || _); [by apply build_error_sound|].
  destruct (is_auth_registry_verify _ _ _ _ _ _ _) as [[r u] v].
  assert (Hs1 : session_sound (s <| ps_authenticated_until_unix := u |> <| ps_authorization_version := v |>)) by (by destruct Hs).
  destruct (negb _); [by apply build_error_sound|].
  destruct (is_protocol_encode _ _ _) as [|[? ?]]; by destruct Hs1.
Qed.

Lemma handle_sound now registry s frame response capacity previous :
  session_sound s ->
  session_sound (is_provider_session_handle now registry s frame response capacity previous).1.1.1.
Proof.
  intros Hs. unfold is_provider_session_handle. destruct (_ || _); [done|].
  destruct (is_protocol_decode _ _) as [r|m] eqn:Ed.
  { destruct (frame_type frame =? _); [by destruct Hs|by apply build_error_sound]. }
  destruct (hdr_type (msg_header m) =? IS_PROTOCOL_MSG_ERROR); [by destruct Hs|].
  destruct (ps_state s).
  - destruct (_ || _) eqn:Eh; [by apply build_error_sound|]. apply orb_false_iff in Eh as [Eh _].
    apply negb_false_iff, Z.eqb_eq in Eh. destruct (decoded_named frame m Ed Eh). by apply hello_sound.
  - destruct (_ || _); [by apply build_error_sound|by apply auth_sound].
  - unfold handle_authenticated. destruct (authenticated_error _ _ _ _); [by apply build_error_sound|].
    cbn zeta. case_match; by destruct Hs.
  - by apply build_error_sound.
Qed.
End Sound.

(** ** Every session of a run is sound *)

Section Preserved.
Context {W : Type} `{PlatformLaws W} `{ProtocolBuild} `{Mac}.

Definition sound (c : connection) : Prop := session_sound (cn_protocol_session c).
Definition all_sound (st : provider W) : Prop := forall p c, pv_conns st !! p = Some c -> sound c.

(** If the handler returns, the sessions are still sound. *)
Definition preserves {A} (h : handler W A) : Prop := forall st, all_sound st ->
  match h st with Returns _ st' => all_sound st' | _ => True end.

Lemma preserves_ret {A} (a : A) : preserves (mret a).
Proof. by intros st. Qed.
Lemma preserves_die {A} : preserves (die (A := A)).
Proof. by intros st. Qed.
Lemma preserves_block {A} : preserves (block (A := A)).
Proof. by intros st. Qed.
Lemma preserves_gets {A} (f : provider W -> A) : preserves (gets f).
Proof. by intros st. Qed.
Lemma preserves_ask {A} (f : W -> W * A) : preserves (ask f).
Proof. intros st Hs. unfold ask. by destruct (f (pv_world st)). Qed.
Lemma preserves_emit e : preserves (emit e).
Proof. by intros st. Qed.
Lemma preserves_on_session f : preserves (on_session f).
Proof. by intros st. Qed.
Lemma preserves_registry {A} (f : is_auth_registry -> is_auth_registry * A) : preserves (with_registry f).
Proof. intros st Hs. unfold with_registry. by destruct (f (pv_registry st)). Qed.
Lemma preserves_manager {A} (f : is_memory_manager -> W -> is_memory_manager * W * A) : preserves (with_manager f).
Proof. intros st Hs. unfold with_manager. by destruct (f (pv_manager st) (pv_world st)) as [[? ?] ?]. Qed.

Lemma preserves_bind {A B} (h : handler W A) (k : A -> handler W B) :
  preserves h -> (forall a, preserves (k a)) -> preserves (h ≫= k).
Proof.
  intros Hh Hk st Hs. unfold mbind, handler_bind. specialize (Hh st Hs). destruct (h st); try done. by apply Hk.
Qed.

Lemma preserves_load {B} p (k : connection -> handler W B) :
  (forall c, sound c -> preserves (k c)) -> preserves (load p ≫= k).
Proof.
  intros Hk st Hs. unfold mbind, handler_bind, load. destruct (pv_conns st !! p) as [c|] eqn:E; [|done].
  apply Hk; [by eapply Hs|done].
Qed.

Lemma preserves_loaded p : preserves (load p).
Proof. intros st Hs. unfold load. by destruct (pv_conns st !! p). Qed.

Lemma sound_insert st p c : all_sound st -> sound c -> all_sound (st <| pv_conns := <[p := c]> (pv_conns st) |>).
Proof. intros Hs Hc q d. cbn. rewrite lookup_insert_Some. intros [[_ <-]|[_ Hd]]; [done|by eapply Hs]. Qed.

Lemma preserves_store p c : sound c -> preserves (store p c).
Proof. intros Hc st Hs. unfold store. destruct (pv_conns st !! p); [|done]. by apply sound_insert. Qed.

Lemma preserves_on_conn {A} p (f : connection -> connection * A) :
  (forall c, sound c -> sound (f c).1) -> preserves (on_conn p f).
Proof.
  intros Hf. apply preserves_load. intros c Hc. specialize (Hf c Hc). destruct (f c) as [c' a].
  apply preserves_bind; [by apply preserves_store|intros _; apply preserves_ret].
Qed.

Lemma preserves_set_conn p (f : connection -> connection) :
  (forall c, sound c -> sound (f c)) -> preserves (set_conn p f).
Proof. intros Hf. by apply preserves_on_conn. Qed.

Lemma preserves_for_each {A} (l : list A) (body : A -> handler W unit) :
  (forall a, preserves (body a)) -> preserves (for_each l body).
Proof. intros Hb. induction l as [|a l IH]; [apply preserves_ret|]. by apply preserves_bind. Qed.

(** Updates that leave the session alone. *)
Definition same_session (c c' : connection) : Prop := cn_protocol_session c' = cn_protocol_session c.

Lemma same_session_sound c c' : same_session c c' -> sound c -> sound c'.
Proof. unfold same_session, sound. by intros ->. Qed.
End Preserved.

Create HintDb sound.
#[export] Hint Resolve preserves_ret preserves_die preserves_block preserves_gets preserves_ask preserves_emit
  preserves_on_session preserves_registry preserves_manager preserves_loaded : sound.

Ltac sound_step :=
  lazymatch goal with
  | |- preserves (load _ ≫= _) => apply preserves_load; intros ? ?
  | |- preserves (_ ≫= _) => apply preserves_bind; [|intros ?]
  | |- preserves (if ?b then _ else _) => destruct b
  | |- preserves (let '(_, _) := ?r in _) => destruct r
  | |- preserves (match ?r with _ => _ end) => destruct r
  | |- preserves (set_conn _ _) => apply preserves_set_conn; intros ? ?; try done
  | |- preserves (on_conn _ _) => apply preserves_on_conn; intros ? ?
  | |- preserves (for_each _ _) => apply preserves_for_each; intros ?
  | |- preserves _ => solve [auto with sound]
  end.
Ltac sound_steps := repeat sound_step.

Section Handlers.
Context {W : Type} `{PlatformLaws W} `{ProtocolBuild} `{Mac}.
Context (meanwhile : provider W -> provider W).
Context (Hwait : forall st, all_sound st -> all_sound (meanwhile st)).

Lemma steady_sound c c' : steady c' = steady c -> sound c -> sound c'.
Proof. unfold sound. intros E. by rewrite (f_equal snd E : cn_protocol_session c' = _). Qed.

Lemma preserves_wait : preserves (wait meanwhile).
Proof. intros st Hs. by apply Hwait. Qed.

Lemma preserves_get_reference p : preserves (W := W) (get_reference p).
Proof. apply preserves_on_conn. intros c. apply steady_sound, steady_get_reference. Qed.
Lemma preserves_put_reference p : preserves (W := W) (put_reference p).
Proof. apply preserves_set_conn. intros c. apply steady_sound, steady_put_reference. Qed.
Lemma preserves_count_up field `{!Setter field} : preserves (W := W) (count_up field).
Proof. apply preserves_on_session. Qed.

Hint Resolve preserves_wait preserves_get_reference preserves_put_reference preserves_count_up : sound.

Lemma preserves_post_receives p : preserves (post_receives p).
Proof. unfold post_receives, rdma_disconnect. sound_steps. Qed.
Hint Resolve preserves_post_receives : sound.

Lemma preserves_post_encoded p : preserves (post_encoded_message meanwhile p).
Proof. unfold post_encoded_message, await_connected. sound_steps. Qed.
Hint Resolve preserves_post_encoded : sound.

Lemma preserves_submit p frame size close repost :
  preserves (submit_encoded_message meanwhile p frame size close repost).
Proof.
  unfold submit_encoded_message. sound_steps. unfold queue_encoded_message. repeat case_match; by simplify_eq/=.
Qed.
Hint Resolve preserves_submit : sound.

Lemma preserves_error p id type code : preserves (send_protocol_error meanwhile p id type code).
Proof.
  unfold send_protocol_error, record_protocol_error, rdma_disconnect. sound_steps.
  match goal with |- sound (let '(_, _) := ?r in _).1 => pose proof (fail_sound (cn_protocol_session c) id type code stack_frame IS_PROTOCOL_MAX_FRAME_SIZE) as Hf end.
  destruct (is_provider_session_fail _ _ _ _ _ _) as [[[s frame] size] result]. by apply Hf.
Qed.
Hint Resolve preserves_error : sound.

Lemma preserves_message p repost : preserves (send_message meanwhile p repost).
Proof.
  unfold send_message, rdma_disconnect. sound_steps. eapply steady_sound; [apply steady_encode|done].
Qed.
Hint Resolve preserves_message : sound.

Lemma preserves_set_state p state : preserves (W := W) (set_conn_state p state).
Proof. unfold set_conn_state. sound_steps. Qed.
Hint Resolve preserves_set_state : sound.

Lemma preserves_map_grant p grant : preserves (map_grant p grant).
Proof. unfold map_grant. sound_steps. by apply preserves_store. Qed.
Hint Resolve preserves_map_grant : sound.

Lemma preserves_send_mr p size : preserves (send_mr meanwhile p size).
Proof. unfold send_mr, acquire_chunks. sound_steps. Qed.

Lemma preserves_free_size p : preserves (send_free_mem_size meanwhile p).
Proof. unfold send_free_mem_size, memory_status. sound_steps. Qed.

Lemma preserves_recv_done p : preserves (recv_done p).
Proof. unfold recv_done, unmap_chunks, rdma_disconnect, sem_post_stop. sound_steps. Qed.
Hint Resolve preserves_send_mr preserves_free_size preserves_recv_done : sound.

Lemma preserves_authenticated p : preserves (handle_authenticated_request meanwhile p).
Proof. unfold handle_authenticated_request, set_cq_qp_state, sem_post_evict, rdma_disconnect. sound_steps. Qed.
Hint Resolve preserves_authenticated : sound.

Lemma preserves_serve p request : preserves (serve_request meanwhile p request).
Proof.
  unfold serve_request, rdma_disconnect. sound_steps. eapply steady_sound; [apply steady_translate|done].
Qed.

Lemma preserves_admit p : preserves (admit_consumer p).
Proof.
  unfold admit_consumer, rdma_disconnect. sound_steps. eapply steady_sound; [apply steady_start_liveness|done].
Qed.
Hint Resolve preserves_serve preserves_admit : sound.

Lemma preserves_answer p response outcome : preserves (answer_session meanwhile p response outcome).
Proof. unfold answer_session, record_protocol_error, rdma_disconnect. sound_steps. Qed.
Hint Resolve preserves_answer : sound.

Lemma preserves_receive p frame : preserves (on_receive meanwhile p frame).
Proof.
  unfold on_receive, rdma_disconnect. sound_steps.
  - match goal with |- sound (let '(_, _) := is_provider_session_handle ?n ?r ?s ?f ?o ?z ?q in _).1 =>
      pose proof (handle_sound n r s f o z q) as Hh end.
    destruct (is_provider_session_handle _ _ _ _ _ _ _) as [[[s out] o] result]. by apply Hh.
  - eapply steady_sound; [apply steady_refresh_liveness|done].
Qed.
Hint Resolve preserves_receive : sound.

Lemma preserves_sent p : preserves (on_sent meanwhile p).
Proof.
  unfold on_sent, rdma_disconnect, set_cq_qp_state. sound_steps.
  unfold finish_send. repeat case_match; by simplify_eq/=.
Qed.
Hint Resolve preserves_sent : sound.

Lemma preserves_completion wc : preserves (on_completion meanwhile wc).
Proof. unfold on_completion, rdma_disconnect. sound_steps. Qed.

Lemma preserves_enter_table p : preserves (W := W) (enter_table p).
Proof. unfold enter_table. sound_steps. Qed.
Hint Resolve preserves_enter_table : sound.

Lemma new_connection_sound nonce session_id : sound (new_connection nonce session_id).
Proof. constructor; [done|by left|by split|by split]. Qed.

Lemma preserves_build : preserves build_connection.
Proof.
  unfold build_connection. sound_steps. intros st Hs. by apply sound_insert, new_connection_sound.
Qed.
Hint Resolve preserves_build : sound.

Lemma preserves_prepare p : preserves (prepare_connection_close p).
Proof. unfold prepare_connection_close, sem_post_evict, sem_post_stop. sound_steps. by destruct (cn_closing c). Qed.

Lemma preserves_references p n : preserves (wait_for_connection_references meanwhile p n).
Proof. unfold wait_for_connection_references. sound_steps. Qed.

Lemma preserves_reclaim p : preserves (reclaim_connection_memory p).
Proof. unfold reclaim_connection_memory. sound_steps. Qed.
Hint Resolve preserves_prepare preserves_references preserves_reclaim : sound.

Lemma preserves_destroy p : preserves (destroy_connection meanwhile p).
Proof.
  unfold destroy_connection. sound_steps. intros st Hs q d. cbn. intros Hd%lookup_delete_Some. by eapply Hs, Hd.
Qed.
Hint Resolve preserves_destroy : sound.

Lemma preserves_handshake p deadline fuel : preserves (await_handshake meanwhile p deadline fuel).
Proof. induction fuel as [|fuel IH]; cbn [await_handshake]; sound_steps. Qed.

Lemma preserves_watch p fuel : preserves (watch_liveness meanwhile p fuel).
Proof. induction fuel as [|fuel IH]; cbn [watch_liveness]; sound_steps. Qed.
Hint Resolve preserves_handshake preserves_watch : sound.

Lemma preserves_monitor p fuel : preserves (monitor_connection_deadlines meanwhile p fuel).
Proof. unfold monitor_connection_deadlines, disconnect_silent, rdma_disconnect. sound_steps. Qed.

Lemma preserves_hold eligible : preserves (W := W) (hold_connections eligible).
Proof.
  unfold hold_connections. sound_step; [sound_step|]. generalize (@nil Z), (zip (se_conns a) (se_conns_state a)).
  intros acc slots. revert acc. induction slots as [|slot slots IH]; intros acc; cbn [hold_each]; [sound_steps|].
  sound_step; [unfold hold_connection; sound_steps|apply IH].
Qed.
Hint Resolve preserves_hold : sound.

Lemma preserves_disconnect : preserves (W := W) disconnect_provider_connections.
Proof. unfold disconnect_provider_connections, rdma_disconnect. sound_steps. Qed.

Lemma preserves_response p (semaphore : connection -> Z) `{!Setter semaphore} :
  (forall c v, cn_protocol_session (c <| semaphore := v |>) = cn_protocol_session c) ->
  preserves (wait_for_control_response meanwhile p semaphore).
Proof.
  intros Hs. unfold wait_for_control_response, rdma_disconnect. sound_steps.
  destruct (0 <? semaphore c); [|done]. unfold sound in *. cbn [fst]. by rewrite Hs.
Qed.

Lemma preserves_send_stop p n : preserves (send_stop meanwhile p n).
Proof. unfold send_stop. sound_steps. by apply preserves_response. Qed.

Lemma preserves_collect activities held : preserves (collect_activities meanwhile activities held).
Proof.
  revert activities. induction held as [|p held IH]; intros activities; cbn [collect_activities]; [sound_steps|].
  sound_step; [by apply preserves_response|]. sound_steps.
Qed.

Lemma preserves_stop_each held : preserves (stop_each meanwhile held).
Proof.
  induction held as [|p held IH]; cbn [stop_each]; [sound_steps|]. sound_step. sound_step; [exact IH|].
  sound_step; [apply preserves_send_stop|]. sound_step; [sound_steps|exact IH].
Qed.
Hint Resolve preserves_collect preserves_stop_each : sound.

Lemma preserves_free_mem qsort : preserves (free_mem_turn meanwhile qsort).
Proof.
  unfold free_mem_turn, evict_mem, send_evict, select_activity. sound_steps. by case_match.
Qed.

Lemma preserves_event running event : preserves (on_event meanwhile running event).
Proof.
  unfold on_event, on_connect_request, on_connection, on_disconnect, on_connect. sound_steps.
Qed.

Lemma preserves_snapshot provider_id : preserves (provider_observability_snapshot provider_id).
Proof.
  unfold provider_observability_snapshot, memory_status. sound_steps. rename a into base, a0 into held.
  generalize (snapshot_of_status (c_string provider_id) i base). induction held as [|p held IH]; intros sn;
    cbn [snapshot_connections]; [sound_steps|].
  sound_step; [|apply IH]. unfold snapshot_connection, memory_status. sound_steps.
Qed.

Lemma preserves_reload clock file : preserves (W := W) (reload_allowlist clock file).
Proof. unfold reload_allowlist, disconnect_revoked_consumer, rdma_disconnect. sound_steps. Qed.
End Handlers.

Section Runs.
Context {W : Type} `{PlatformLaws W} `{ProtocolBuild} `{Mac}.

Lemma preserves_returns {A} (h : handler W A) st a st' :
  preserves h -> all_sound st -> h st = Returns a st' -> all_sound st'.
Proof. intros Hh Hs E. specialize (Hh st Hs). by rewrite E in Hh. Qed.

Lemma reaches_sound qsort st st' : reaches qsort st st' -> all_sound st -> all_sound st'.
Proof.
  intros Hr. induction Hr as [| mw wc st st1 st2 _ IHmw _ _ Hrun _ IH | mw running ev r st st1 st2 _ IHmw _ _ _ Hrun _ IH
    | mw p fuel st st1 st2 _ IHmw _ _ _ Hrun _ IH | mw st st1 st2 _ IHmw _ Hrun _ IH
    | st st1 st2 Hrun _ IH | clock file r st st1 st2 Hrun _ IH | id r st st1 st2 Hrun _ IH]; intros Hst; [done|..]; apply IH;
    eapply preserves_returns; [|exact Hst|exact Hrun| |exact Hst|exact Hrun| |exact Hst|exact Hrun| |exact Hst|exact Hrun| |exact Hst|exact Hrun| |exact Hst|exact Hrun| |exact Hst|exact Hrun].
  - by apply preserves_completion.
  - by apply preserves_event.
  - by apply preserves_monitor.
  - by apply preserves_free_mem.
  - apply preserves_disconnect.
  - apply preserves_reload.
  - apply preserves_snapshot.
Qed.
End Runs.

(** ** The snapshot of a run *)

Lemma lists_fold done listed s :
  lists done s -> (length (done ++ listed) <= 64)%nat -> Forall (fun x => identity_ok x.1) listed ->
  lists (done ++ listed) (fold_left record_connection listed s).
Proof.
  revert done s. induction listed as [|[c memory] listed IH]; intros done s Hs Hl Hi; [by rewrite app_nil_r|].
  apply list.Forall_cons in Hi as [Hc Hi]. cbn [fold_left]. rewrite cons_middle, app_assoc.
  apply IH; [|by rewrite <- app_assoc|done]. apply lists_record; [done| |done]. rewrite length_app in Hl. cbn in Hl. lia.
Qed.

(** A snapshot that differs from [base] in its consumers alone. *)
Definition same_totals (base s : is_provider_observability_snapshot) : Prop :=
  s = base <| os_consumer_count := os_consumer_count s |> <| os_consumers := os_consumers s |>.

Lemma same_totals_record base s x : same_totals base s -> same_totals base (record_connection s x).
Proof.
  intros E. assert (Hput : forall n l, same_totals base (s <| os_consumer_count := n |> <| os_consumers := l |>)).
  { intros n l. unfold same_totals in *. rewrite E. by destruct base. }
  unfold record_connection, find_consumer_snapshot. destruct x as [c memory].
  repeat case_match; simplify_eq/=; try done; unfold same_totals in *.
  all: rewrite E; by destruct base.
Qed.

Lemma same_totals_fold base s listed : same_totals base s -> same_totals base (fold_left record_connection listed s).
Proof. revert s. induction listed as [|x l IH]; intros s Hs; [done|]. by apply IH, same_totals_record. Qed.

Lemma snapshot_of_status_empty provider_id status s : lists [] (snapshot_of_status provider_id status s).
Proof.
  constructor.
  - done.
  - cbn. lia.
  - intros i Hi. unfold consumer_at. change (os_consumers _) with (replicate 64 zero_consumer).
    rewrite nth_lookup. destruct (replicate 64 zero_consumer !! Z.to_nat i) as [x|] eqn:E; [|done].
    by apply lookup_replicate in E as [-> _].
  - intros i Hi. cbn in Hi. lia.
  - constructor.
  - intros e He. by apply elem_of_nil in He.
  - intros x Hx. by apply elem_of_nil in Hx.
Qed.

Section Snapshot.
Context {W : Type} `{PlatformLaws W} `{ProtocolBuild} `{Mac}.

(** The open connections, in the order of the table. *)
Definition open_connections (st : provider W) : list Z := filter (is_open (pv_conns st)) (in_table st).

Lemma sound_identity c : sound c -> identity_ok c.
Proof.
  intros [S1 [E|[Hn _]] _ _]; (split; [done|]); unfold identity_of; [rewrite E; cbn; lia|lia].
Qed.

Lemma open_connections_short B R (st : provider W) : provider_inv B R st -> (length (open_connections st) <= 64)%nat.
Proof.
  intros Hi. unfold open_connections, in_table. rewrite !length_filter. by rewrite (tb_length _ _ (pi_table _ _ _ Hi)).
Qed.

Lemma unknown_memory st w memory :
  memory_status 0 st = Returns memory (st <| pv_world := w |>) -> memory.1 <> IS_MEMORY_OK ->
  (read_available_bytes (pv_world st)).2.1 <> 0.
Proof.
  unfold memory_status, with_manager, is_memory_manager_get_status. cbn [negb Z.eqb].
  destruct (read_available_bytes (pv_world st)) as [w1 [r bytes]]. cbn [fst snd].
  destruct (Z.eqb_spec r 0); cbn [negb]; [|done]. by intros [= <-].
Qed.

Lemma provider_snapshot_run B R provider_id st :
  provider_inv B R st -> all_sound st -> named provider_id ->
  (forall p c, pv_conns st !! p = Some c -> countable_references c) ->
  exists w r, provider_observability_snapshot provider_id st = Returns r (st <| pv_world := w |>) /\
    match r with
    | None => (read_available_bytes (pv_world st)).2.1 <> 0
    | Some sn => exists status listed,
        answers (pv_manager st) 0 (IS_MEMORY_OK, Some status) /\
        Forall2 (fun p x => pv_conns st !! p = Some x.1 /\ answers (pv_manager st) p x.2)
          (open_connections st) listed /\
        lists listed sn /\ same_totals (snapshot_of_status (c_string provider_id) status (pv_session st)) sn
    end.
Proof.
  intros Hi Hs [Hid _] Hr. unfold provider_observability_snapshot, IS_PROVIDER_OBSERVABILITY_ID_MAX.
  replace (_ || _) with false by lia.
  destruct (memory_status_run 0 st) as (w & memory & Em & _ & Ha). rewrite (bind_run _ _ _ _ _ Em).
  destruct memory as [result status].
  assert (Hok : result = IS_MEMORY_OK -> exists x, status = Some x).
  { intros ->. destruct Ha as (w1 & w2 & Ha). unfold is_memory_manager_get_status in Ha.
    repeat case_match; simplify_eq/=; by eexists. }
  destruct (decide (result = IS_MEMORY_OK)) as [->|Hne].
  2: { exists w, None. split; [by destruct result|]. by eapply unknown_memory. }
  destruct (Hok eq_refl) as [x ->]. clear Hok Em. set (st1 := st <| pv_world := w |>) in *.
  rewrite (bind_run _ _ _ (pv_session st) st1) by done.
  pose proof (pi_table _ _ _ Hi) as T.
  assert (Hzip : (zip (se_conns (pv_session st)) (se_conns_state (pv_session st))).*1 = se_conns (pv_session st)).
  { apply fst_zip. by rewrite (tb_length _ _ T), (tb_states _ _ T). }
  assert (Hlive : forall q, q ∈ in_table st -> is_Some (pv_conns st !! q)).
  { intros q [Hz (i & Hi')%list_elem_of_lookup]%list_elem_of_filter.
    destruct (tb_entry _ _ T i q Hi' Hz) as (c & Hc & _). by exists c. }
  assert (Hnd : NoDup (in_table st)).
  { unfold in_table. rewrite (table_elements _ _ T (pi_null _ _ _ Hi)). apply NoDup_elements. }
  pose proof (hold_each_run (zip (se_conns (pv_session st)) (se_conns_state (pv_session st))) [] st1 (pv_conns st)) as Eh.
  cbv zeta in Eh. rewrite Hzip in Eh. cbn [app] in Eh.
  assert (Eh' : hold_connections (fun _ _ => true) st1 =
    Returns (open_connections st) (st1 <| pv_conns := retained (open_connections st) (pv_conns st) |>)).
  { unfold hold_connections. rewrite (bind_run _ _ _ (pv_session st) st1) by done. apply Eh.
    - by rewrite retained_nil.
    - exact Hnd.
    - intros q Hq Hz. apply Hlive, list_elem_of_filter. done. }
  rewrite (bind_run _ _ _ _ _ Eh').
  destruct (snapshot_connections_run (open_connections st) (snapshot_of_status (c_string provider_id) x (pv_session st))
    (st1 <| pv_conns := retained (open_connections st) (pv_conns st) |>) (pv_conns st)) as (w' & listed & E & _ & Hf).
  - done.
  - by apply list.NoDup_filter.
  - intros q [_ Hq]%list_elem_of_filter. destruct (Hlive q Hq) as [c Hc]. exists c. split; [done|by eapply Hr].
  - exists w', (Some (fold_left record_connection listed (snapshot_of_status (c_string provider_id) x (pv_session st)))).
    rewrite (bind_run _ _ _ _ _ E). split; [by destruct st|]. exists x, listed. split; [done|]. split; [exact Hf|]. split.
    + apply (lists_fold []); [apply snapshot_of_status_empty| |].
      * cbn [app]. rewrite <- (list.Forall2_length _ _ _ Hf). by apply (open_connections_short B R).
      * eapply Forall2_Forall_r; [exact Hf|]. apply list.Forall_forall. intros q _ y [Hy _]. by eapply sound_identity, Hs.
    + apply same_totals_fold. done.
Qed.
End Snapshot.

Section Numbers.
Context {W : Type} `{PlatformLaws W} `{ProtocolBuild} `{Mac}.

(** The counters are 64-bit variables. *)
Definition wide_counters (st : provider W) : Prop :=
  let s := pv_session st in let m := pv_manager st in
  Forall is_u64 [admissions m; rejections m; pressure_reclaims m; se_authentication_failures_total s;
    se_deadline_expiries_total s; se_connections_total s; se_disconnections_total s;
    se_control_errors_total s].

Lemma u32_u64 x : is_u64 (u32 x).
Proof. pose proof (wrap_in_u 32 x). unfold in_u in *. pow_lia. Qed.

Lemma assignments_wide m id :
  is_u64 (assignments_for_consumer m id).1 /\ is_u64 (assignments_for_consumer m id).2.
Proof.
  unfold assignments_for_consumer. generalize (connections m).
  assert (Hz : is_u64 (0, 0).1 /\ is_u64 (0, 0).2) by by split.
  revert Hz. generalize (0, 0). intros acc Hacc l. revert acc Hacc. induction l as [|c l IH]; intros [a b] Hacc; [done|].
  cbn [fold_left]. apply IH. destruct (decide _); [|done]. split; apply u32_u64.
Qed.

Lemma answered_wide m p memory : answers (W := W) m p memory ->
  is_u64 (answered_chunks memory).1 /\ is_u64 (answered_chunks memory).2.
Proof.
  intros (w & w' & E). destruct memory as [r [s|]]; [|by destruct r]. destruct r; try done. cbn [fst snd] in *.
  cbn [answered_chunks fst snd]. unfold is_memory_manager_get_status in E.
  assert (Hst : forall b, is_u64 (consumer_assigned_opportunistic_chunks (manager_status m b)) /\
    is_u64 (consumer_assigned_committed_chunks (manager_status m b))).
  { intros b. unfold manager_status. destruct (availability m b). by split. }
  assert (Hconn : forall c s, is_u64 (consumer_assigned_opportunistic_chunks (connection_status m c s)) /\
    is_u64 (consumer_assigned_committed_chunks (connection_status m c s))).
  { intros c s0. unfold connection_status. pose proof (assignments_wide m (consumer_id c)) as Ha.
    destruct (assignments_for_consumer m (consumer_id c)) as [a b]. cbn [fst snd] in Ha. by repeat case_match. }
  repeat case_match; simplify_eq; done.
Qed.

Lemma status_wide (st : provider W) status provider_id :
  manager_inv (pv_manager st) -> wide_counters st ->
  answers (pv_manager st) 0 (IS_MEMORY_OK, Some status) ->
  Forall is_u64 (snapshot_numbers (snapshot_of_status provider_id status (pv_session st))).
Proof.
  intros Hm Hc (w & w' & E). unfold is_memory_manager_get_status in E. cbn [negb Z.eqb] in E.
  destruct (read_available_bytes w) as [w1 [r bytes]]. destruct (negb (r =? 0)); [done|]. cbn [fst snd] in E.
  injection E as _ <-. unfold wide_counters in Hc. cbv zeta in Hc. rewrite !list.Forall_cons in Hc.
  destruct Hc as (C1 & C2 & C3 & C4 & C5 & C6 & C7 & C8 & _).
  pose proof (chunk_capacity_small _ Hm) as Hl. destruct (m_accounting _ Hm) as [A1 A2 A3 A4 A5].
  destruct (m_config _ Hm) as [G1 G2 G3 _].
  assert (Hn : forall f, is_u64 (Z.of_nat (count f (chunks (pv_manager st))))).
  { intros f. pose proof (count_le_length f (chunks (pv_manager st))). unfold in_u. pow_lia. }
  assert (Hw : forall x, is_u32 x -> is_u64 x) by (intros x; unfold in_u; pow_lia).
  unfold manager_status, snapshot_numbers, snapshot_of_status, availability.
  cbn [st_host_reserve_chunks st_max_opportunistic_chunks st_max_committed_chunks st_allocated_opportunistic_chunks
    st_assigned_opportunistic_chunks st_allocated_committed_chunks st_assigned_committed_chunks st_quarantined_chunks
    available_opportunistic_chunks available_committed_chunks active_connections st_admissions st_rejections
    st_pressure_reclaims os_host_reserve_chunks os_max_opportunistic_chunks os_max_committed_chunks
    os_allocated_opportunistic_chunks os_assigned_opportunistic_chunks os_allocated_committed_chunks
    os_assigned_committed_chunks os_available_opportunistic_chunks os_available_committed_chunks
    os_quarantined_chunks os_active_connections os_admissions_total os_admission_rejections_total
    os_pressure_reclaims_total os_authentication_failures_total os_deadline_expiries_total
    os_connections_total os_disconnections_total os_control_errors_total].
  rewrite A1, A2, A3, A4, A5. apply list.Forall_app. split; [|constructor].
  repeat (apply list.Forall_cons; split; [by auto using u32_u64|]). constructor.
Qed.

Lemma named_written v : named v -> named (buf_write (zeros 64) 0 (c_string v)).
Proof.
  intros [Hl Hc]. rewrite buf_write_0 by (unfold zeros; rewrite length_replicate; lia).
  destruct (drop (length (c_string v)) (zeros 64)) as [|x rest] eqn:E.
  - apply (f_equal length) in E. unfold zeros in E. rewrite length_drop, length_replicate in E. cbn in E. lia.
  - assert (x = 0) as ->.
    { assert (Hx : drop (length (c_string v)) (zeros 64) !! 0%nat = Some x) by (by rewrite E).
      rewrite lookup_drop in Hx. by apply lookup_replicate in Hx as [-> _]. }
    unfold named. by rewrite c_string_app.
Qed.

(** The numbers of an entry. *)
Lemma entry_wide (st : provider W) (held : list Z) listed sn :
  all_sound st ->
  Forall2 (fun p x => pv_conns st !! p = Some x.1 /\ answers (pv_manager st) p x.2) held listed ->
  (length held <= 64)%nat -> lists listed sn ->
  Forall (fun e => Forall is_u64 (consumer_numbers e) /\ named (oc_consumer_id e)) (consumers sn).
Proof.
  intros Hs Hf Hl [_ _ _ _ _ He _]. apply list.Forall_forall. intros e Hin. destruct (He e Hin) as [Hn [D1 _ D3 D4]].
  destruct D4 as (c & memory & rest & Es & _ & _ & Ed & Ee & Ea).
  assert (Hc : (c, memory) ∈ with_identity (entry_identity e) listed) by (rewrite Es; constructor).
  apply list_elem_of_filter in Hc as [Hid (i & Hi)%list_elem_of_lookup].
  destruct (Forall2_lookup_r _ _ _ _ _ Hf Hi) as (p & _ & Hp & Ha). cbn [fst snd] in *.
  destruct (Hs p c Hp) as [_ S2 S3 S4]. pose proof (answered_wide _ _ _ Ha) as Hw. rewrite <- Ea in Hw. cbn [fst snd] in Hw. destruct Hw as [W1 W2].
  pose proof (length_filter (fun x : connection * memory_answer => identity_of x.1 = entry_identity e) listed) as Hle.
  fold (with_identity (entry_identity e) listed) in Hle. pose proof (list.Forall2_length _ _ _ Hf).
  pose proof (inflight_sum (with_identity (entry_identity e) listed)). split.
  - unfold consumer_numbers. rewrite !list.Forall_cons, list.Forall_nil. rewrite D1, D3, Ed, Ee.
    unfold in_u in *. split_and!; try done; pow_lia.
  - unfold identity_of, entry_identity in Hid. unfold named in *. unfold entry_identity in Hn. rewrite <- Hid in Hn |- *.
    by destruct S2 as [S2|S2]; [rewrite S2 in Hn|].
Qed.

Lemma snapshot_served B R provider_id (st : provider W) status listed sn :
  provider_inv B R st -> all_sound st -> named provider_id -> wide_counters st ->
  answers (pv_manager st) 0 (IS_MEMORY_OK, Some status) ->
  Forall2 (fun p x => pv_conns st !! p = Some x.1 /\ answers (pv_manager st) p x.2)
    (open_connections st) listed ->
  lists listed sn -> same_totals (snapshot_of_status (c_string provider_id) status (pv_session st)) sn ->
  snapshot_valid sn = true /\ Forall is_u64 (snapshot_numbers sn).
Proof.
  intros Hi Hs Hid Hc Ha Hf Hl Ht. pose proof (open_connections_short B R st Hi) as Hlen.
  pose proof (entry_wide st _ _ _ Hs Hf Hlen Hl) as He. rewrite list.Forall_and in He. destruct He as [He Hn].
  pose proof (list.Forall2_length _ _ _ Hf) as Hlen2. split.
  - apply snapshot_valid_reportable. constructor; [|destruct Hl; lia|done]. rewrite Ht.
    change (named (buf_write (zeros 64) 0 (c_string provider_id))). by apply named_written.
  - pose proof (status_wide st status (c_string provider_id) (proj1 (pi_good _ _ _ Hi)) Hc Ha) as Hb.
    unfold snapshot_numbers in Hb |- *. apply list.Forall_app in Hb as [Hb _]. apply list.Forall_app. split.
    + rewrite Ht. exact Hb.
    + apply List.Forall_concat. by apply list.Forall_fmap.
Qed.
End Numbers.

(** ** The daemon's status page *)

Section Page.
Context {W : Type} `{PlatformLaws W} `{ProtocolBuild} `{Mac}.

Lemma started_sound (st : provider W) : started st -> all_sound st.
Proof.
  intros (s & pd & w & w' & Hs). assert (E : pv_conns st = ∅).
  { unfold main_start, abandon in Hs. repeat case_match; simplify_eq; done. }
  intros p c Hc. by rewrite E, lookup_empty in Hc.
Qed.

(** The snapshot the status page reports is the daemon's state.  Taken at any
    moment of any run, it returns, gives every reference back and changes
    nothing else.  Without a reading of the host's memory there is no snapshot.
    With one, the totals are the memory manager's and the session's, every
    consumer with an open, identified connection is listed exactly once, with
    the number of its connections and of its pending requests, as ready just
    when one of them is, and nothing else is listed. *)
Theorem snapshot_faithful qsort st0 (st : provider W) provider_id :
  (forall acts, qsort acts ≡ₚ acts) -> started st0 -> reaches qsort st0 st -> named provider_id ->
  (forall p c, pv_conns st !! p = Some c -> countable_references c) ->
  exists w r, provider_observability_snapshot provider_id st = Returns r (st <| pv_world := w |>) /\
    match r with
    | None => (read_available_bytes (pv_world st)).2.1 <> 0
    | Some sn => exists status listed,
        answers (pv_manager st) 0 (IS_MEMORY_OK, Some status) /\
        Forall2 (fun p x => pv_conns st !! p = Some x.1 /\ answers (pv_manager st) p x.2)
          (open_connections st) listed /\
        lists listed sn /\ same_totals (snapshot_of_status (c_string provider_id) status (pv_session st)) sn
    end.
Proof.
  intros Hq Hs Hr Hid Hc. destruct (run_inv qsort st0 st Hq Hs Hr) as (B & R & Hi).
  apply (provider_snapshot_run B R); [done| |done|done]. by eapply reaches_sound, started_sound.
Qed.

(** The callback of the server, run between the steps of the other threads. *)
Definition daemon_snapshot (provider_id : list Z) (st : provider W) :
    provider W * option is_provider_observability_snapshot :=
  match provider_observability_snapshot provider_id st with
  | Returns r st' => (st', r)
  | _ => (st, None)
  end.

End Page.

(** ** A daemon with one consumer *)

#[local] Existing Instance default_build.
#[local] Existing Instance ex_mac.

Lemma rack_named : named (chars "rack-1").
Proof. by apply identifier_valid_named. Qed.

Lemma five_references p c : pv_conns ex_five !! p = Some c -> countable_references c.
Proof.
  assert (E : forallb (fun x => (0 <=? cn_references x.2) && (cn_references x.2 <? UINT32_MAX))
    (map_to_list (pv_conns ex_five)) = true) by (by vm_compute).
  intros Hc%elem_of_map_to_list%list_elem_of_In. rewrite forallb_forall in E. specialize (E _ Hc). cbn in E.
  unfold countable_references. lia.
Qed.

Lemma five_wide : wide_counters ex_five.
Proof.
  assert (E : forallb (fun x => (0 <=? x) && (x <? 2 ^ 64)) [admissions (pv_manager ex_five);
    rejections (pv_manager ex_five); pressure_reclaims (pv_manager ex_five);
    se_authentication_failures_total (pv_session ex_five); se_deadline_expiries_total (pv_session ex_five);
    se_connections_total (pv_session ex_five); se_disconnections_total (pv_session ex_five);
    se_control_errors_total (pv_session ex_five)] = true) by (by vm_compute).
  unfold wide_counters. cbv zeta. apply list.Forall_forall. intros x Hx%list_elem_of_In.
  rewrite forallb_forall in E. specialize (E x Hx). unfold in_u. lia.
Qed.

Lemma five_reading : (read_available_bytes (pv_world ex_five)).2.1 = 0.
Proof. by vm_compute. Qed.

Lemma five_connections : open_connections ex_five = [7].
Proof. by vm_compute. Qed.

Lemma five_client_willing : willing (ex_client <| cl_accepting := replicate (Z.to_nat 120000) (SendResult 10) |>)
  (Z.to_nat 120000).
Proof.
  split; cbn [cl_accepting update].
  - apply list.Forall_forall. intros x Hx. by apply elem_of_replicate in Hx as [-> _].
  - change (cl_accepting _) with (replicate (Z.to_nat 120000) (SendResult 10)). generalize (Z.to_nat 120000).
    intros n. induction n as [|n IH]; [done|]. unfold result_calls, count in *. cbn. lia.
Qed.

#[local] Opaque ex_five ex_start open_connections.

Lemma snapshot_faithful_witness :
  exists w sn listed, provider_observability_snapshot (chars "rack-1") ex_five =
      Returns (Some sn) (ex_five <| pv_world := w |>) /\ length listed = 1%nat /\ lists listed sn.
Proof.
  destruct (snapshot_faithful ex_qsort _ ex_five (chars "rack-1") ex_qsort_permutes (ex_started _ _ _) five_reached
    rack_named five_references) as (w & r & E & Hr).
  destruct r as [sn|]; [|exfalso; exact (Hr five_reading)]. destruct Hr as (status & listed & _ & Hf & Hl & _).
  exists w, sn, listed. split; [exact E|]. split; [|exact Hl]. apply list.Forall2_length in Hf.
  rewrite five_connections in Hf. symmetry. exact Hf.
Defined.

Lemma five_reads : read_request (ex_client <| cl_accepting := replicate (Z.to_nat 120000) (SendResult 10) |>) =
  Some (Some ex_request).
Proof.
  generalize (replicate (Z.to_nat 120000) (SendResult 10)). intros l. exact ex_reads.
Qed.

Definition five_client : client := ex_client <| cl_accepting := replicate (Z.to_nat 120000) (SendResult 10) |>.
#[local] Opaque five_client answer ex_request ex_body.


(** The chunks of a consumer come from the first of its connections in the
    table.  When the manager does not know that one, the entry says that the
    consumer holds nothing, whatever its other connections hold. *)
Lemma unknown_first_hides_chunks l e (c : connection) rest :
  describes l e -> l = (c, (IS_MEMORY_NOT_CONNECTED, None)) :: rest ->
  oc_assigned_opportunistic_chunks e = 0 /\ oc_assigned_committed_chunks e = 0.
Proof.
  intros [_ _ _ (c0 & m0 & rest0 & E & _ & _ & _ & _ & Ea)] El. rewrite El in E. injection E as <- <- <-.
  by injection Ea.
Qed.
